(* ===== verification/_CoqProject ===== *)
-Q . S2P
Prelude.v
WorkspaceStore.v
WorkspaceStoreFacts.v
WorkspaceSnapshotFacts.v
WorkspaceRestoreFacts.v
WorkspaceSync.v
WorkspaceSyncFacts.v
WorkspaceWitness.v
CloudInit.v
CloudInitFacts.v
VmProvisioner.v
VmProvisionerFacts.v
VmWitness.v
PreviewCluster.v
PreviewSession.v
PreviewClusterFacts.v
PreviewSessionFacts.v
PreviewWitness.v
JobTypes.v
JobPod.v
JobClientFacts.v
JobPodFacts.v
JobController.v
JobLifecycleFacts.v
JobCallbackFacts.v
JobComputeFacts.v
JobLivenessFacts.v
JobWitness.v
BootstrapGraph.v
BootstrapGraphFacts.v
Bootstrap.v
BootstrapCluster.v
BootstrapRun.v
BootstrapFacts.v
BootstrapPhaseFacts.v
BootstrapResumeFacts.v
BootstrapBoundaryFacts.v
BootstrapWaitFacts.v
BootstrapWitness.v
Teardown.v
TeardownFacts.v
TeardownReportFacts.v
TeardownWitness.v
GoRuntime.v
SpokeIdentity.v
SpokeIdentityFacts.v
SpokeDeliveryFacts.v
SpokeLifecycleFacts.v
SpokeWitness.v
HubSecrets.v
HubSecretsFacts.v
HubTenantFacts.v
HubSpokeFacts.v
SpokePool.v
SpokePoolFacts.v
SpokeSetupFacts.v
SpokeLossFacts.v
MasterKeys.v
MasterKeysFacts.v
HubWitness.v
Codec.v
Escrow.v
EscrowFacts.v
EscrowSite.v
Encryption.v
EncryptionConfigFacts.v
EncryptionFacts.v
Recovery.v
RecoveryFacts.v
RecoveryOutcomeFacts.v
RecoveryWitness.v
Regexp.v
Support.v
SupportFacts.v
SupportAgentFacts.v
AuthProxy.v
AuthProxyFacts.v
Health.v
Proposal.v
ProposalFacts.v
