(* ===== verification/Prelude.v ===== *)
(** * A verification of the services and the bootstrap of zero-ops

    zero-ops runs agent sessions on Kubernetes. Six of its operators carry state
    that must not be lost, left running or reached by the wrong person, and are
    modelled here from their Go sources under src/operators; so are the sequence that
    brings the hub cluster up and the one that takes it down, from
    src/internal/kakt-cli; the escrow of a hub's keys and the commands that rotate,
    verify and restore them; the agent that reports on a box; the service that
    validates tokens for the gateway; and the verdict on a proposed version.

    ** Workspace checkpoints

    workspace-sync keeps a session's files in object storage. A checkpoint is a
    manifest plus content-addressed objects, LATEST names the newest, retention
    deletes what is neither recent nor pinned; the agent beside the session restores
    at start, saves on request, on a timer and at shutdown, and serves shared
    workspaces to read-only sessions in generations.

    - WorkspaceStore: internal/store/store.go. [Sys] is the bucket (a map of keys to
      bytes), the clock, the process and the digest last restored; [Snapshot],
      [Prune], [Restore] and the rest are the methods of [Store].
    - WorkspaceStoreFacts, WorkspaceSnapshotFacts, WorkspaceRestoreFacts: what a prune
      keeps and may delete; that no stored checkpoint ever loses a file, over every
      history of snapshots and prunes cut short anywhere; that a snapshot reported
      as done is durable; each outcome of a snapshot; that a restore writes nothing
      it has not verified and that saving and restoring is a round trip.
    - WorkspaceSync: cmd/main.go and cmd/refresh.go. [Agent] adds the directory, the
      overlay mount, the generations and the variables the goroutines of runServe
      share; one definition per handler, [serve] composes them.
    - WorkspaceSyncFacts: the save slot as a step relation over goroutines and its
      mutual exclusion; no request leaks it; readers never write; start-up restores
      the right checkpoint or fails; a refresh is atomic; a checkpoint answered 200
      is LATEST; and that the shutdown path loses a mounted workspace's last work.
    - WorkspaceWitness: the theorems at a concrete workspace.

    ** VM provisioning

    ephemeral-vm-provisioner drives rows of a jobs table to cloud VMs and back.

    - CloudInit, CloudInitFacts: internal/hetzner/cloudinit.go: the image pattern,
      the job request, the template and its size limit; that no credential reaches
      the request and no shell syntax the image.
    - VmProvisioner: internal/store/store.go (each SQL statement one atomic step on
      the table), internal/hetzner/client.go, internal/provision. [World] is the
      table, the cloud (a class with a state of its own), the clock and the log of
      requests made.
    - VmProvisionerFacts: what a pass may do to a row; a job is claimed once under
      every interleaving; the orphan sweep spares referenced VMs; waiting ends; the
      timeout is exact; and that two overlapping runs fail a healthy job.
    - VmWitness: the theorems at a concrete table and cloud.

    ** Preview access

    preview-access lets named people open the web server inside a session.

    - PreviewCluster: internal/previewaccess/state.go, reconciler.go, webhook.go: the
      records, the lookups through the cache, the controller and the webhook. [Env]
      is the cluster, the clock, the randomness and the memory of the process.
    - PreviewSession: cookie.go, jwt.go, mechanism.go, platform.go, server.go,
      localmode and the gateway map of cmd/preview-access/main.go. The two interfaces
      of mechanism.go are the records [Identity] and [Session].
    - PreviewClusterFacts: the controller converges to one Ready record per target and
      the network policies that go with it; the webhook keeps names unambiguous.
    - PreviewSessionFacts: what the server relies on of a session is the class
      [SessionLaws], which both sessions satisfy; a request is proxied only if the
      record allows its subject at that moment; codes refine a history that forgets
      nothing and are redeemed once; a handoff ends in an admitted browser; codes go
      only to the application and person they are for; tokens, key fetches and the
      cookie filter.
    - PreviewWitness: the theorems at one tenant.

    ** Jobs and sandboxes

    ephemeral-job-operator turns an EphemeralJob request into a Job or, in Service
    mode, a pod with a Service, waits for capacity, enforces the deadlines, tells the
    waiting caller and collects the request. The pods it describes carry the
    workspace-sync agent above, configured through their environment.

    - JobTypes: api/v1alpha1/ephemeraljob_types.go, the Kubernetes objects, and the
      client. [World] is the cluster, the working copy of the request that a pass
      shares by pointer, the clock, the callbacks posted and the script of failures.
    - JobPod: internal/controller/placement.go, workspace_sync.go, output_storage.go
      and the builders of ephemeraljob_controller.go.
    - JobController: helpers.go, capacity.go, session_peer.go, job_storage.go and the
      rest of ephemeraljob_controller.go; [Reconcile] is one pass.
    - JobClientFacts: an equation per call, and the invariants reads cannot break.
    - JobPodFacts: every container has its resources, the posture of every pod, the
      environment of the workload, and that the agent's [FromEnv] reads back the
      configuration the request stated.
    - JobLifecycleFacts: the type of the stored statuses and what a pass may do to a
      request, whatever fails. JobCallbackFacts: an end is announced at most once and
      as stored, over every history; and that a failed announcement is lost.
    - JobComputeFacts: the tests of a Job agree, verdicts on capacity are grounded,
      finished work is never run again, a peer has its policies before its pod.
    - JobLivenessFacts: a request with a lifetime comes to its end along every fair
      run; and where it does not: a missing storage endpoint, a cancellation, a
      replacement pod.
    - JobWitness: the theorems at concrete clusters.

    ** Spoke identities

    spoke-identity-operator keeps, for each spoke cluster, a machine identity at the
    secrets service, mints its client secret and packs it with the spoke's certificate
    issuer into the Secrets from which the spoke is set up.

    - GoRuntime: what this and the hub operator share of Go's library: durations,
      texts, and errors recognised through their wrappings.
    - SpokeIdentity: internal/infisical/client.go and
      internal/controller/spokemachineidentity_controller.go; [Reconcile] is one pass.
      [Infisical] is the service, which answers as it likes; [World] is the cluster, the
      working copy of the object, the login token, and the log of calls and writes.
    - SpokeIdentityFacts: the steps of a pass that succeeds; that every pass mints a
      secret and none is ever revoked. SpokeDeliveryFacts: what the spoke is given, that
      no issuer is half rendered, when the next pass comes. SpokeLifecycleFacts: the
      grounds of a cleared lockout and of a released object; and the objects no pass gets
      done.
    - SpokeWitness: the theorems at one spoke.

    ** Hub operator

    hub-operator keeps the credentials of the hub: those its own secrets service starts
    from, those of the tenants, and those each spoke is set up with.

    - HubSecrets: internal/secrets/infisical.go, cluster_credentials.go and the password
      generators of generator.go. [Hub] is the secrets service; [World] is its state, the
      clients of the process with their tokens and rotation times, the clock, the random
      source, the log of calls, and the rest of the hub, of a type the caller chooses.
    - HubSecretsFacts: [VaultLaws], what is relied on of the service (which may fail
      before or after it acted), and the predicate [acts], by which a program's calls are
      bounded by walking its text. HubTenantFacts: generated values are never replaced, a
      pass that succeeds leaves a tenant complete, a lost credential is reported.
      HubSpokeFacts: what a cell is given of the fleet's credentials, the spacing of
      rotations, and credentials that can neither be used nor replaced.
    - SpokePool: internal/controller/spokepool_controller.go, home_worker_join.go,
      logs_bucket.go and internal/objectstore/buckets.go; [Reconcile] is one pass over a
      spoke, on the world of HubSecrets with [Cluster] as the rest of the hub.
    - SpokePoolFacts: no pass replaces a stored secret, nor writes outside the environment
      of the spoke. SpokeSetupFacts: a delivered certificate is complete and stays; no
      network configuration without the address of the API server. SpokeLossFacts: the
      report of a lost password makes the next pass generate another.
    - MasterKeys: internal/secrets/generator.go and validator.go. MasterKeysFacts:
      passwords are drawn without bias, draws end, and master keys are handed out only
      when the escrow holds them and will hand the same back; the escrow there is a
      class, which EscrowFacts discharges for the real client.
    - HubWitness: the theorems at one hub.

    ** Bootstrap

    kakt builds the hub in phases, records each in a state file kept in the tenant's
    repository, and resumes from it; the platform is opened boundary by boundary.

    - BootstrapGraph: bootstrap/boundaries.go and boundary_graph.go: the contracts of
      the boundaries, the checks of the table and the search for a cycle.
    - Bootstrap: state/manager.go and recovery.go. [Outside] is what the process talks
      to: commands, files, clock, context. [Machine] is what outlives the process, the
      states it went through, since it may be killed in any of them, and the record.
    - BootstrapCluster: seed.go, zitadel_reset.go, box_values.go, fleet_pki_values.go,
      gateway_dns_target.go, hubdomain.go, health/waiter.go and the probes, waits and
      joins of orchestrator.go. BootstrapRun: its phases, runs and artifacts, and
      phase_postcondition.go. The providers, kind, the installers and the health
      checkers they call are the parameters [Provider] and [Parts].
    - BootstrapGraphFacts: the search finds a cycle exactly when there is one; what the
      two checks of the table accept.
    - BootstrapFacts, BootstrapPhaseFacts: over every history of runs killed anywhere,
      phases begin in order and the record is earned. BootstrapResumeFacts: a resumed
      run completes, and where it cannot.
    - BootstrapBoundaryFacts: which boundaries a deployment leaves open; and that
      repairing one leaves later ones closed. BootstrapWaitFacts: every wait ends, what
      its success means, and when a worker is rebuilt.
    - BootstrapWitness: the theorems at concrete hubs.

    ** Teardown

    kakt takes a hub down: it asks the cluster for its spokes, its DNS identity and its
    load balancers, deletes at the provider what is labelled as theirs, releases the
    DNS records of the box and removes the local state.

    - Teardown: teardown/inventory.go, dns_reclaim.go and orchestrator.go. [Site] is
      kubectl, the provider, the DNS API, the files and the environment; [World] adds
      the clock, the log of requests and listings and the two result fields of the
      orchestrator. A range over a map of labels takes an order of its own each time.
    - TeardownFacts: every deletion is justified by a listing of the same run and a
      label, an address or an attachment; and how a shared resource may be deleted.
    - TeardownReportFacts: which DNS records are released, and which of another owner's;
      what is deleted although its server stayed; that the verdict of a run does not
      depend on its deletions; what is removed locally.
    - TeardownWitness: the theorems at one project.

    ** Escrow and recovery

    What a cluster cannot be rebuilt without is kept in a secrets service outside it. kakt
    writes it there, encrypts the hub's Secrets at rest with a key it escrows first,
    rotates that key in two stages, and restores from the escrow.

    - Codec: base64, hexadecimal and decimal numerals, read back as written; JSON values.
    - Escrow: src/internal/platform/escrow/escrow.go and provision.go. [Remote] is the
      service; [World] is its state, the checkout and the rest of the site.
    - EscrowFacts: [EscrowVault] and [ReliableVault], what is relied on of the service; a
      write touches its own place alone; a migration loses nothing; and
      [rebuild_from_escrow], the master keys of the hub operator through this escrow.
    - EscrowSite: the calls of kubectl the commands make, on Secrets that other writers
      ([rivals]) may change between any two of them.
    - Encryption: cmd/kakt/encryption.go, encryption_rotate.go and escrow_recovery.go, with
      the configuration as the text it is. EncryptionConfigFacts: the scanners read back
      what the template renders. EncryptionFacts: every key in use is escrowed along any
      sequence of commands; what a rotation keeps readable; and what enabling once more
      makes unreadable.
    - Recovery: cmd/kakt/spoke_restore_pki.go, escrow_migrate_paths.go, escrow_verify.go,
      the enrolling and delivering commands, kubeconfig.go, and
      src/internal/kakt-cli/hubaccess. RecoveryFacts: nothing of another writer is
      overwritten. RecoveryOutcomeFacts: what success means.
    - RecoveryWitness: the theorems at one box.

    ** Support agent

    The support agent reports from a box what an allowlist names, less what the tenant
    denies, and nothing else.

    - Regexp: the leftmost-first search of Go's regular expressions, with lemmas by which a
      match is computed.
    - Support: src/internal/support, src/cmd/support-agent and src/cmd/kakt/support.go, and
      the allowlists shipped in src/manifests. [Net] is what the agent reaches.
    - SupportFacts: samples are read back; the denylist is exactly subtracted; two clusters
      that agree on what may leave are reported alike. SupportAgentFacts: over every
      history only the contract is read and sent; revocation is stated by the platform;
      probes are a day apart; the preview is what is sent; and what leaves all the same.

    ** Auth proxy

    - AuthProxy: src/internal/auth-proxy and src/cmd/auth-proxy. [Issuer] is the identity
      provider and golang-jwt; the log keeps every request with its reply.
    - AuthProxyFacts: where a key comes from and how often keys are fetched; the endpoint
      admits exactly the tokens it should; roles are those of the tenant; only the issuer
      is asked; ready means that it was reached; and that the cache is never used.

    ** Health checks and proposals

    - Health: converged.go, boundary_inventory.go and kubectl.go of
      src/internal/kakt-cli/health. Proposal: src/internal/kakt-cli/proposal,
      src/cmd/kakt/proposal.go and the name check of src/internal/kakt-cli/validator.
    - ProposalFacts: a check holds exactly when what it asks for is there; a verdict passes
      and fails on evidence alone; versions compare as numbers.

    ** How effects are modelled

    Stateful code is written in the monad [goM] below. A call that leaves the process
    takes its outcome from a script: it completes, it fails having done nothing, or
    it fails after the other side acted ([outcome]). Theorems that do not speak of an
    empty script hold for every script. SHA-256, HMAC, RSA, base64, JSON, squashfs
    and the cloud are class parameters, with the laws used of them as classes of
    their own or named hypotheses, each with an instance in a witness file or at the end
    of the component's last file. Widths are kept where they
    matter: durations are 64-bit with their wrap-around or saturation written out.

    In the bootstrap, the teardown and the calls to the secrets service, calls answer
    through a class ([Outside], [Site], [Infisical], [Hub], [Escrow]; [Remote] and [Desk]
    for the escrow, [Net] for the support agent, [Issuer] for the auth proxy) instead of a
    script, with any result and, but for the escrow, any delay; the hub operator's calls
    to Kubernetes take no time; git pull is taken not to change the state file, and of an
    error only the first sentence is kept.

    Fuel: the waits of the bootstrap take the turns their deadline allows, which
    [waits_terminate] shows enough ([await_operation] and [wait_apps] end by their
    deadline, 18 and 180 turns away), [await_drained] 19, which [drain_wait_ends]
    shows enough; [visit] descends at most once per node.
    [draw_char] draws until a byte is accepted, as many times as it is given, and
    [draw_ends] shows the first accepted byte enough. [wait_volume] polls once a second
    for thirty seconds and is given 30 steps, which [WaitForVolume_ends] shows enough;
    [list_pages] takes the number of pages to follow as an argument of the run; [climb]
    looks up eight directories, as the source does; a repetition in a regular expression
    takes at most as many turns as the text has bytes left, each of which takes at least
    one. Every other recursion is structural.

    ** What is not modelled

    Stale reads of the Kubernetes cache; cancellation of contexts other than as a
    failing call; logs, metrics, TLS and the transport of the reverse proxy; memory
    limits of the processes. Of the EphemeralJob controller, the watches set up by
    SetupWithManager (a pass may come at any time) and the defaults the CRD supplies.
    Of the bootstrap, the text printed for the operator, the providers and their
    drivers, kind and the installers. Of the hub operator, the reconcilers of tenants and
    environments and the making of Ed25519 keys. Of the access to a hub, the session of a
    person and the client built from a kubeconfig. Of the health checks, those through
    client libraries. Of the repository, the rest of the kakt CLI (scaffolding of tenants,
    cluster provisioning, installers, the secrets bootstrap), kube-sbt and the MCP server,
    which are mostly calls to other services. Next in order would be the hub operator's
    tenant and environment reconcilers, then the tenant API of kube-sbt.

    ** This file

    - Go's results: [result], the monad [goM] and its loop and recovery combinators.
    - [keeps] and [hoare]: invariants and postconditions of [goM] programs, with one
      rule per combinator, so that a component's invariant is proved by walking the
      program text ([walk_keeps]); [appends], what a program adds to a log.
    - The functions of Go's [strings] package the components call, on byte strings,
      with their lemmas. *)

From Stdlib Require Export Ascii.
From Stdlib Require Export ZArith Lia.
From stdpp Require Export base list gmap strings sorting pretty.

#[export] Set Default Goal Selector "!".

(** ** Results and the state-and-error monad *)

Inductive result (E A : Type) : Type :=
| Ok (a : A)
| Err (e : E).
Arguments Ok {E A} a.
Arguments Err {E A} e.

#[export] Instance result_eq_dec {E A} `{EqDecision E, EqDecision A} :
  EqDecision (result E A).
Proof. solve_decision. Defined.

(** A Go function that reads and writes the state [S] and may return an error. *)
Definition goM (S E A : Type) : Type := S → result E A * S.

#[export] Instance goM_ret {S E} : MRet (goM S E) := λ A a s, (Ok a, s).
#[export] Instance goM_bind {S E} : MBind (goM S E) := λ A B f m s,
  match m s with
  | (Ok a, s') => f a s'
  | (Err e, s') => (Err e, s')
  end.

Lemma bind_run {S E A B} (m : goM S E A) (f : A → goM S E B) s :
  (m ≫= f) s = match m s with (Ok a, s') => f a s' | (Err e, s') => (Err e, s') end.
Proof. reflexivity. Qed.

Definition throw {S E A} (e : E) : goM S E A := λ s, (Err e, s).
Definition get {S E} : goM S E S := λ s, (Ok s, s).
Definition modify {S E} (f : S → S) : goM S E unit := λ s, (Ok tt, f s).
Definition gets {S E A} (f : S → A) : goM S E A := λ s, (Ok (f s), s).

(** [attempt m] is [v, err := m()]: the error becomes a value. *)
Definition attempt {S E A} (m : goM S E A) : goM S E (result E A) :=
  λ s, match m s with (r, s') => (Ok r, s') end.

(** [for _, x := range l { if err := f(x); err != nil { return err } }] *)
Fixpoint forM {S E A} (l : list A) (f : A → goM S E unit) : goM S E unit :=
  match l with
  | [] => mret tt
  | x :: l => f x ≫= λ _, forM l f
  end.

(** The same loop, where the body yields the next value of an accumulator. *)
Fixpoint foldM {S E A B} (f : B → A → goM S E B) (l : list A) (b : B) : goM S E B :=
  match l with
  | [] => mret b
  | x :: l => f b x ≫= foldM f l
  end.

(** ** Invariants of [goM] programs *)

(** [m] keeps [I]: whatever it returns, the state it leaves satisfies [I]. *)
Definition keeps {S E A} (I : S → Prop) (m : goM S E A) : Prop :=
  ∀ s, I s → I (m s).2.

(** [hoare P m Q]: from a state satisfying [P], [m]'s answer satisfies [Q]. *)
Definition hoare {S E A} (P : S → Prop) (m : goM S E A)
    (Q : result E A → S → Prop) : Prop :=
  ∀ s, P s → Q (m s).1 (m s).2.

Create HintDb keeps.

Section keeps_rules.
Context {S E : Type}.
Implicit Types I : S → Prop.

Lemma keeps_ret {A} I (a : A) : keeps I (mret a : goM S E A).
Proof. by intros s. Qed.

Lemma keeps_throw {A} I (e : E) : keeps I (throw e : goM S E A).
Proof. by intros s. Qed.

Lemma keeps_get I : keeps I (get : goM S E S).
Proof. by intros s. Qed.

Lemma keeps_gets {A} I (f : S → A) : keeps I (gets f : goM S E A).
Proof. by intros s. Qed.

Lemma keeps_modify I f : (∀ s, I s → I (f s)) → keeps I (modify f : goM S E unit).
Proof. intros H s. apply H. Qed.

Lemma keeps_bind {A B} I (m : goM S E A) (f : A → goM S E B) :
  keeps I m → (∀ a, keeps I (f a)) → keeps I (m ≫= f).
Proof.
  intros Hm Hf s Hs. specialize (Hm s Hs). rewrite bind_run.
  destruct (m s) as [[a|e] s']; [by apply Hf|done].
Qed.

Lemma keeps_attempt {A} I (m : goM S E A) : keeps I m → keeps I (attempt m).
Proof. intros Hm s Hs. specialize (Hm s Hs). unfold attempt. by destruct (m s). Qed.

Lemma keeps_forM {A} I (l : list A) (f : A → goM S E unit) :
  (∀ x, x ∈ l → keeps I (f x)) → keeps I (forM l f).
Proof.
  induction l as [|x l IH]; intros Hf; simpl; [apply keeps_ret|].
  apply keeps_bind; [apply Hf; left|intros _; apply IH; intros; apply Hf; by right].
Qed.

Lemma keeps_foldM {A B} I (f : B → A → goM S E B) (l : list A) b :
  (∀ b x, x ∈ l → keeps I (f b x)) → keeps I (foldM f l b).
Proof.
  revert b; induction l as [|x l IH]; intros b Hf; simpl; [apply keeps_ret|].
  apply keeps_bind; [apply Hf; left|intros b'; apply IH; intros; apply Hf; by right].
Qed.

(** A program's postcondition, one rule per combinator. *)
Lemma hoare_conseq {A} (P P' : S → Prop) (m : goM S E A) Q Q' :
  hoare P m Q → (∀ s, P' s → P s) → (∀ r s, Q r s → Q' r s) → hoare P' m Q'.
Proof. intros H HP HQ s Hs. by apply HQ, H, HP. Qed.

Lemma hoare_bind {A B} (P : S → Prop) (m : goM S E A) R (f : A → goM S E B) Q :
  hoare P m R → (∀ a, hoare (R (Ok a)) (f a) Q) →
  (∀ e s, R (Err e) s → Q (Err e) s) → hoare P (m ≫= f) Q.
Proof.
  intros Hm Hf He s Hs. specialize (Hm s Hs). rewrite bind_run.
  destruct (m s) as [[a|e] s']; cbn in *; [by apply Hf|by apply He].
Qed.

Lemma hoare_ret {A} (P : S → Prop) (a : A) (Q : result E A → S → Prop) :
  (∀ s, P s → Q (Ok a) s) → hoare P (mret a) Q.
Proof. intros H s Hs. by apply H. Qed.

(** Loops: an invariant of the body, indexed by what is left of the list. *)
Lemma hoare_forM {A} (J : list A → S → Prop) (l : list A) (f : A → goM S E unit)
    (Q : result E unit → S → Prop) :
  (∀ x l', hoare (J (x :: l')) (f x)
     (λ r s, match r with Ok _ => J l' s | Err e => Q (Err e) s end)) →
  (∀ s, J [] s → Q (Ok tt) s) → hoare (J l) (forM l f) Q.
Proof.
  intros Hf Hend. induction l as [|x l IH]; simpl.
  { intros s Hs. by apply Hend. }
  eapply hoare_bind; [apply Hf| |]; cbn; [|done].
  intros []. apply IH.
Qed.
End keeps_rules.

#[export] Hint Resolve keeps_ret keeps_throw keeps_get keeps_gets keeps_bind
  keeps_attempt : keeps.

Ltac head_of t := lazymatch t with ?f _ => head_of f | _ => t end.
(** Walks a program, splitting on its tests, and leaves what the rules and the
    component's own [keeps] hints do not close. *)
Ltac walk_keeps :=
  repeat first
    [ progress intros
    | progress cbn beta iota
    | match goal with
      | |- keeps _ (match ?x with _ => _ end) => destruct x eqn:?
      | |- keeps _ (let (_, _) := ?x in _) => destruct x eqn:?
      end
    | apply keeps_bind
    | apply keeps_attempt
    | solve [eauto with keeps] ].

(** ** Logs *)

(** [m] only adds to the log of the state, and only entries of the sort [P]. *)
Definition appends {S E Ev A} (log : S → list Ev) (P : Ev → Prop) (m : goM S E A) : Prop :=
  ∀ s, ∃ new, log (m s).2 = log s ++ new ∧ Forall P new.

Section appends_rules.
Context {S E Ev : Type} (log : S → list Ev).
Implicit Types (P : Ev → Prop).

Lemma appends_none {A} P (m : goM S E A) : (∀ s, log (m s).2 = log s) → appends log P m.
Proof. intros Hm s. exists []. rewrite app_nil_r. split; [apply Hm|constructor]. Qed.
Lemma appends_one {A} P (m : goM S E A) : (∀ s, ∃ r, log (m s).2 = log s ++ [r] ∧ P r) → appends log P m.
Proof. intros Hm s. destruct (Hm s) as (r & H & Hr). exists [r]. split; [done|]. by apply Forall_singleton. Qed.
Lemma appends_bind {A B} P (m : goM S E A) (f : A → goM S E B) :
  appends log P m → (∀ a, appends log P (f a)) → appends log P (m ≫= f).
Proof.
  intros Hm Hf s. rewrite bind_run. destruct (Hm s) as (n1 & E1 & H1). destruct (m s) as [[a|e] s1]; [|by exists n1].
  cbn in E1. destruct (Hf a s1) as (n2 & E2 & H2). exists (n1 ++ n2). rewrite E2, E1, app_assoc. split; [done|].
  by apply Forall_app.
Qed.
Lemma appends_attempt {A} P (m : goM S E A) : appends log P m → appends log P (attempt m).
Proof. intros Hm s. specialize (Hm s). unfold attempt. by destruct (m s). Qed.
Lemma appends_forM {A} P (l : list A) (f : A → goM S E unit) :
  (∀ x, x ∈ l → appends log P (f x)) → appends log P (forM l f).
Proof.
  induction l as [|x l IH]; intros Hf; cbn [forM]; [by apply appends_none|].
  apply appends_bind; [apply Hf; left|intros _; apply IH; intros; apply Hf; by right].
Qed.
Lemma appends_foldM {A B} P (f : B → A → goM S E B) (l : list A) b :
  (∀ b x, appends log P (f b x)) → appends log P (foldM f l b).
Proof.
  intros Hf. revert b. induction l as [|x l IH]; intros b; cbn [foldM]; [by apply appends_none|]. by apply appends_bind.
Qed.
Lemma appends_weaken {A} P Q (m : goM S E A) : (∀ r, P r → Q r) → appends log P m → appends log Q m.
Proof. intros HPQ Hm s. destruct (Hm s) as (n & H & Hn). exists n. split; [done|]. by eapply Forall_impl. Qed.
Lemma appends_run {A} P (m : goM S E A) s r s' :
  appends log P m → m s = (r, s') → ∃ new, log s' = log s ++ new ∧ Forall P new.
Proof. intros Hm H. specialize (Hm s). by rewrite H in Hm. Qed.
Lemma appends_old {A} P (m : goM S E A) s r s' x : appends log P m → m s = (r, s') → x ∈ log s → x ∈ log s'.
Proof. intros Hm H Hx. destruct (Hm s) as (n & En & _). rewrite H in En. cbn in En. rewrite En. set_solver. Qed.
Lemma appends_new {A} P (m : goM S E A) s r s' x : appends log P m → m s = (r, s') → x ∈ log s' → x ∈ log s ∨ P x.
Proof.
  intros Hm H. destruct (Hm s) as (n & En & Hn). rewrite H in En. cbn in En. rewrite En.
  intros [?|?]%elem_of_app; [by left|right]. rewrite Forall_forall in Hn. auto.
Qed.
End appends_rules.

(** [m] is [mret]-like: evaluates without touching the state. *)
Lemma bind_ok {S E A B} (m : goM S E A) (f : A → goM S E B) s a s' :
  m s = (Ok a, s') → (m ≫= f) s = f a s'.
Proof. intros H. by rewrite bind_run, H. Qed.

Lemma bind_err {S E A B} (m : goM S E A) (f : A → goM S E B) s e s' :
  m s = (Err e, s') → (m ≫= f) s = (Err e, s').
Proof. intros H. by rewrite bind_run, H. Qed.

Lemma bind_inv_ok {S E A B} (m : goM S E A) (f : A → goM S E B) s b s'' :
  (m ≫= f) s = (Ok b, s'') → ∃ a s', m s = (Ok a, s') ∧ f a s' = (Ok b, s'').
Proof. rewrite bind_run. destruct (m s) as [[a|e] s']; naive_solver. Qed.

(** ** Calls that leave the process *)

(** What happened to one such call: it completed; it failed having done nothing;
    or it failed after the other side had already acted on it. *)
Inductive outcome := Done | Lost | Unknown.

#[export] Instance outcome_eq_dec : EqDecision outcome.
Proof. solve_decision. Defined.

(** The script of a run: the outcomes of its calls in order. Past its end every
    call completes. *)
Definition next_outcome (script : list outcome) : outcome * list outcome :=
  match script with
  | [] => (Done, [])
  | o :: script => (o, script)
  end.

(** ** Go strings *)

Fixpoint str_drop (n : nat) (s : string) : string :=
  match n, s with
  | O, _ => s
  | S _, EmptyString => EmptyString
  | S n, String _ s => str_drop n s
  end.

Fixpoint str_take (n : nat) (s : string) : string :=
  match n, s with
  | O, _ => EmptyString
  | S _, EmptyString => EmptyString
  | S n, String c s => String c (str_take n s)
  end.

Definition HasPrefix (s p : string) : bool := String.prefix p s.
Definition TrimPrefix (s p : string) : string :=
  if HasPrefix s p then str_drop (String.length p) s else s.

Definition HasSuffix (s suf : string) : bool :=
  (String.length suf <=? String.length s)
  && String.eqb (str_drop (String.length s - String.length suf) s) suf.
Definition TrimSuffix (s suf : string) : string :=
  if HasSuffix s suf then str_take (String.length s - String.length suf) s else s.

(** [strings.Contains] *)
Fixpoint Contains (s sub : string) : bool :=
  String.prefix sub s ||
  match s with
  | EmptyString => false
  | String _ s => Contains s sub
  end.

(** [strings.Cut] on a one-byte separator: before, after, found. *)
Fixpoint Cut (s : string) (sep : Ascii.ascii) : string * string * bool :=
  match s with
  | EmptyString => (EmptyString, EmptyString, false)
  | String c s' =>
      if Ascii.eqb c sep then (EmptyString, s', true)
      else let '(a, b, ok) := Cut s' sep in (String c a, b, ok)
  end.

(** [strings.Split] on a one-byte separator. *)
Fixpoint Split (s : string) (sep : Ascii.ascii) : list string :=
  match s with
  | EmptyString => [EmptyString]
  | String c s' =>
      if Ascii.eqb c sep then EmptyString :: Split s' sep
      else match Split s' sep with
           | [] => [String c EmptyString]
           | w :: ws => String c w :: ws
           end
  end.

(** [strings.Join] *)
Definition Join (l : list string) (sep : string) : string := String.concat sep l.

(** [strings.TrimSpace], on the ASCII white space. *)
Definition is_space (c : Ascii.ascii) : bool :=
  let n := Ascii.nat_of_ascii c in (n =? 32) || ((9 <=? n) && (n <=? 13)).
Fixpoint TrimLeft (s : string) : string :=
  match s with
  | String c s' => if is_space c then TrimLeft s' else s
  | EmptyString => EmptyString
  end.
Definition TrimSpace (s : string) : string :=
  String.rev (TrimLeft (String.rev (TrimLeft s))).

(** [strings.ToLower], on ASCII. *)
Definition lower_ascii (c : Ascii.ascii) : Ascii.ascii :=
  let n := Ascii.nat_of_ascii c in
  if (65 <=? n) && (n <=? 90) then Ascii.ascii_of_nat (n + 32) else c.
Fixpoint ToLower (s : string) : string :=
  match s with
  | EmptyString => EmptyString
  | String c s' => String (lower_ascii c) (ToLower s')
  end.

(** [strings.ReplaceAll] of a non-empty pattern: matches are taken from the left and do
    not overlap; [skip] is how much of the last one is still to be passed over. *)
Fixpoint replace_from (skip : nat) (s old new : string) : string :=
  match s with
  | EmptyString => EmptyString
  | String c s' =>
      match skip with
      | S k => replace_from k s' old new
      | O => if String.prefix old s
             then new +:+ replace_from (String.length old - 1) s' old new
             else String c (replace_from 0 s' old new)
      end
  end.
Definition ReplaceAll (s old new : string) : string := replace_from 0 s old new.

(** [%q] of a name, in which nothing needs escaping. *)
Definition quoted (s : string) : string :=
  let q := String (Ascii.ascii_of_nat 34) EmptyString in q +:+ s +:+ q.

(** [Duration.String]: the fraction is printed without its trailing zeros. *)
Fixpoint fmtFrac (prec : nat) (v : Z) (print : bool) (acc : string) : string * Z :=
  match prec with
  | O => (if print then String "." acc else acc, v)
  | S prec =>
      let d := (v mod 10)%Z in
      let print := print || negb (d =? 0)%Z in
      fmtFrac prec (v / 10)%Z print (if print then pretty d +:+ acc else acc)
  end.
Definition dur_frac (prec : nat) (v : Z) : string :=
  let '(frac, whole) := fmtFrac prec v false "" in pretty whole +:+ frac.
Definition dur_string (d : Z) : string :=
  let u := Z.abs d in
  (if (d <? 0)%Z then "-" else "") +:+
  (if (u =? 0)%Z then "0s"
   else if (u <? 1000)%Z then pretty u +:+ "ns"
   else if (u <? 1000000)%Z then
     dur_frac 3 u +:+ String (Ascii.ascii_of_nat 194) (String (Ascii.ascii_of_nat 181) "s")
   else if (u <? 1000000000)%Z then dur_frac 6 u +:+ "ms"
   else
     let '(frac, s) := fmtFrac 9 u false "" in
     let min := (s / 60)%Z in
     (if (0 <? min)%Z then
        (if (0 <? min / 60)%Z then pretty (min / 60)%Z +:+ "h" else "") +:+
        pretty (min mod 60)%Z +:+ "m"
      else "") +:+ pretty (s mod 60)%Z +:+ frac +:+ "s").

(** Every byte of a string satisfies [f]. *)
Fixpoint all_chars (f : Ascii.ascii → bool) (s : string) : bool :=
  match s with
  | EmptyString => true
  | String c s => f c && all_chars f s
  end.

(** [utf8.ValidString]: the byte ranges the next continuation bytes must fall in. *)
Definition utf8_lead (n : nat) : option (list (nat * nat)) :=
  let tail := (128, 191) in
  if n <=? 127 then Some []
  else if (194 <=? n) && (n <=? 223) then Some [tail]
  else if n =? 224 then Some [(160, 191); tail]
  else if n =? 237 then Some [(128, 159); tail]
  else if (225 <=? n) && (n <=? 239) then Some [tail; tail]
  else if n =? 240 then Some [(144, 191); tail; tail]
  else if (241 <=? n) && (n <=? 243) then Some [tail; tail; tail]
  else if n =? 244 then Some [(128, 143); tail; tail]
  else None.
Fixpoint utf8_go (pending : list (nat * nat)) (s : string) : bool :=
  match s, pending with
  | EmptyString, [] => true
  | EmptyString, _ :: _ => false
  | String c s, (lo, hi) :: pending =>
      let n := Ascii.nat_of_ascii c in
      (lo <=? n) && (n <=? hi) && utf8_go pending s
  | String c s, [] =>
      match utf8_lead (Ascii.nat_of_ascii c) with
      | Some pending => utf8_go pending s
      | None => false
      end
  end.
Definition ValidString (s : string) : bool := utf8_go [] s.

Section strings.
Implicit Types s t p : string.

Lemma str_app_cons c s t : String c s +:+ t = String c (s +:+ t).
Proof. reflexivity. Qed.

Lemma str_app_nil_l s : EmptyString +:+ s = s.
Proof. reflexivity. Qed.

Lemma str_app_nil_r s : s +:+ EmptyString = s.
Proof. induction s as [|c s IH]; rewrite ?str_app_cons; simpl; [done|by rewrite IH]. Qed.

Lemma str_app_assoc s t p : s +:+ (t +:+ p) = (s +:+ t) +:+ p.
Proof. induction s as [|c s IH]; rewrite ?str_app_cons; simpl; [done|by rewrite IH]. Qed.

Lemma str_length_app s t :
  String.length (s +:+ t) = String.length s + String.length t.
Proof. induction s as [|c s IH]; rewrite ?str_app_cons; simpl; [done|by rewrite IH]. Qed.
Lemma str_take_length n s : (n ≤ String.length s)%nat → String.length (str_take n s) = n.
Proof. revert s. induction n as [|n IH]; intros [|c s] H; cbn in *; [lia..|]. rewrite IH; lia. Qed.

(** Splitting at the first separator. *)
Lemma Split_app sep a b :
  all_chars (λ c, negb (Ascii.eqb c sep)) a = true →
  Split (a +:+ String sep b) sep = a :: Split b sep.
Proof.
  induction a as [|c a IH]; rewrite ?str_app_nil_l, ?str_app_cons; cbn.
  - intros _. by rewrite (proj2 (Ascii.eqb_eq sep sep) eq_refl).
  - intros [Hc%negb_true_iff Ha]%andb_true_iff. by rewrite Hc, IH.
Qed.

Lemma str_drop_app s t : str_drop (String.length s) (s +:+ t) = t.
Proof. induction s as [|c s IH]; rewrite ?str_app_cons; simpl; [by destruct t|done]. Qed.

Lemma str_take_app s t : str_take (String.length s) (s +:+ t) = s.
Proof. induction s as [|c s IH]; rewrite ?str_app_cons; simpl; [by destruct t|by rewrite IH]. Qed.

Lemma str_take_drop n s : str_take n s +:+ str_drop n s = s.
Proof. revert s; induction n as [|n IH]; intros [|c s]; simpl; rewrite ?str_app_cons; [done..|]. by rewrite IH. Qed.

Lemma prefix_app p s : String.prefix p (p +:+ s) = true.
Proof.
  induction p as [|c p IH]; rewrite ?str_app_cons; simpl; [by destruct s|].
  by destruct (Ascii.ascii_dec c c).
Qed.

Lemma prefix_iff p s : String.prefix p s = true ↔ ∃ t, s = p +:+ t.
Proof.
  split; [|intros [t ->]; apply prefix_app].
  revert s. induction p as [|c p IH]; intros s; [by exists s|].
  destruct s as [|c' s]; simpl; [done|].
  destruct (Ascii.ascii_dec c c') as [<-|]; [|done].
  intros [t ->]%IH. by exists t.
Qed.

Lemma HasPrefix_iff s p : HasPrefix s p = true ↔ ∃ t, s = p +:+ t.
Proof. apply prefix_iff. Qed.

Lemma TrimPrefix_app p s : TrimPrefix (p +:+ s) p = s.
Proof. unfold TrimPrefix, HasPrefix. rewrite prefix_app. apply str_drop_app. Qed.

Lemma str_app_inj_r t s1 s2 : s1 +:+ t = s2 +:+ t → s1 = s2.
Proof.
  intros H. assert (Hl : String.length s1 = String.length s2).
  { apply (f_equal String.length) in H. rewrite !str_length_app in H. lia. }
  rewrite <-(str_take_app s1 t), H, Hl. apply str_take_app.
Qed.

Lemma HasSuffix_app s t : HasSuffix (s +:+ t) t = true.
Proof.
  unfold HasSuffix. rewrite str_length_app.
  replace (_ + _ - _) with (String.length s) by lia.
  rewrite str_drop_app, String.eqb_refl. apply andb_true_iff; split; [|done].
  apply Nat.leb_le. lia.
Qed.

Lemma HasSuffix_iff s t : HasSuffix s t = true ↔ ∃ r, s = r +:+ t.
Proof.
  split; [|intros [r ->]; apply HasSuffix_app].
  unfold HasSuffix. intros [_ H%String.eqb_eq]%andb_true_iff.
  exists (str_take (String.length s - String.length t) s).
  rewrite <-H at 2. by rewrite str_take_drop.
Qed.

Lemma Contains_app a sub b : Contains (a +:+ sub +:+ b) sub = true.
Proof.
  induction a as [|c a IH]; rewrite ?str_app_nil_l, ?str_app_cons.
  - pose proof (prefix_app sub b) as Hp. destruct (sub +:+ b); cbn [Contains]; by rewrite Hp.
  - cbn. by rewrite IH, orb_true_r.
Qed.

Lemma TrimSuffix_app s t : TrimSuffix (s +:+ t) t = s.
Proof.
  unfold TrimSuffix. rewrite HasSuffix_app, str_length_app.
  replace (_ + _ - _) with (String.length s) by lia. apply str_take_app.
Qed.

Lemma all_chars_app f s t : all_chars f (s +:+ t) = all_chars f s && all_chars f t.
Proof. induction s as [|c s IH]; rewrite ?str_app_cons; [done|]. cbn. by rewrite IH, andb_assoc. Qed.

Lemma all_chars_mono (f g : Ascii.ascii → bool) s :
  (∀ c, f c = true → g c = true) → all_chars f s = true → all_chars g s = true.
Proof.
  intros Hfg. induction s as [|c s IH]; cbn; [done|].
  intros [Hc Hs]%andb_true_iff. by rewrite (Hfg c Hc), IH.
Qed.

(** [strings.Cut] and [strings.Split] take a string apart at the separator. *)
Lemma Cut_spec s sep a b ok :
  Cut s sep = (a, b, ok) → s = if ok then a +:+ String sep b else a.
Proof.
  revert a b ok. induction s as [|c s IH]; intros a b ok; cbn; [by intros [= <- <- <-]|].
  destruct (Ascii.eqb_spec c sep) as [->|]; [by intros [= <- <- <-]|].
  destruct (Cut s sep) as [[a' b'] ok'] eqn:E. intros [= <- <- <-].
  rewrite (IH a' b' ok' eq_refl). by destruct ok'.
Qed.

Lemma Cut_app s sep t :
  all_chars (λ c, negb (Ascii.eqb c sep)) s = true → Cut (s +:+ String sep t) sep = (s, t, true).
Proof.
  induction s as [|c s IH]; rewrite ?str_app_nil_l, ?str_app_cons; cbn.
  - by rewrite Ascii.eqb_refl.
  - intros [Hc%negb_true_iff Hs]%andb_true_iff. by rewrite Hc, IH.
Qed.

Lemma Split_one s sep :
  all_chars (λ c, negb (Ascii.eqb c sep)) s = true → Split s sep = [s].
Proof.
  induction s as [|c s IH]; cbn; [done|].
  intros [Hc%negb_true_iff Hs]%andb_true_iff. by rewrite Hc, IH.
Qed.

Lemma str_rev_app_rev s t : String.rev_app s t = String.rev s +:+ t.
Proof.
  unfold String.rev. revert t. assert (∀ u t, String.rev_app s (u +:+ t) = String.rev_app s u +:+ t) as H.
  { induction s as [|c s IH]; intros u t; cbn; [done|]. by rewrite <-str_app_cons, IH. }
  intros t. by rewrite <-(H "" t), str_app_nil_l.
Qed.

Lemma str_rev_cons c s : String.rev (String c s) = String.rev s +:+ String c "".
Proof. unfold String.rev at 1. cbn. apply str_rev_app_rev. Qed.

Lemma str_rev_app s t : String.rev (s +:+ t) = String.rev t +:+ String.rev s.
Proof.
  induction s as [|c s IH]; [by rewrite str_app_nil_l, str_app_nil_r|].
  by rewrite str_app_cons, !str_rev_cons, IH, str_app_assoc.
Qed.

Lemma str_rev_involutive s : String.rev (String.rev s) = s.
Proof.
  induction s as [|c s IH]; [done|]. by rewrite str_rev_cons, str_rev_app, IH.
Qed.

Lemma all_chars_rev f s : all_chars f (String.rev s) = all_chars f s.
Proof.
  induction s as [|c s IH]; [done|]. rewrite str_rev_cons, all_chars_app, IH. cbn.
  by rewrite andb_true_r, andb_comm.
Qed.
End strings.

(** ** Generic list facts *)

Lemma elem_of_merge_sort {A} (R : relation A) `{!∀ x y, Decision (R x y)} (l : list A) x :
  x ∈ merge_sort R l ↔ x ∈ l.
Proof. by rewrite (merge_sort_Permutation R l). Qed.

Lemma NoDup_merge_sort {A} (R : relation A) `{!∀ x y, Decision (R x y)} (l : list A) :
  NoDup l → NoDup (merge_sort R l).
Proof. by rewrite (merge_sort_Permutation R l). Qed.

(** ** Numbers as text *)

(** Any countable type prints, in the digits 0 and 1, through [encode]. *)
Fixpoint pos_string (p : positive) : string :=
  match p with
  | xH => EmptyString
  | xO p => String "0"%char (pos_string p)
  | xI p => String "1"%char (pos_string p)
  end.
Fixpoint string_pos (s : string) : positive :=
  match s with
  | EmptyString => xH
  | String c s => if Ascii.eqb c "0"%char then xO (string_pos s) else xI (string_pos s)
  end.
Lemma string_pos_string p : string_pos (pos_string p) = p.
Proof. induction p as [p IH|p IH|]; cbn; by rewrite ?IH. Qed.
