(* ===== verification/WorkspaceStore.v ===== *)
(** * WorkspaceStore: the content-addressed checkpoint store of workspace-sync.

    Models operators/workspace-sync/internal/store/store.go: the key layout, the
    manifest and its digest, [Snapshot], retention ([planRetention], [Prune]),
    pin markers, [Resolve]/[Latest], [Restore] and the archive transfers.

    The object store is [bucket], a map from keys to bodies; every storage call
    and system call takes its outcome from [script], so a theorem quantified over
    the initial state covers every pattern of failures, including calls that fail
    after taking effect. A workspace tree is a map from slash-separated relative
    paths to nodes. SHA-256, encoding/json on manifests and mksquashfs are the
    operations of [Platform]; what is used of them is stated in [PlatformLaws]. *)

From S2P Require Import Prelude.

Local Open Scope string_scope.

(** ** Data *)

(** The package's sentinel errors, what a storage or system call can report,
    and [fmt.Errorf] with %w. *)
Inductive error :=
| ErrNotConfigured
| ErrNoArchive
| ErrReadOnly
| ErrNothingToSave
| ErrUnchanged
| ErrRequired (name : string)
| NoSuchKey (key : string)
| Transport (what : string)
| BadManifest (key : string)
| ChecksumMismatch (path : string)
| Wrapped (context : string) (e : error).

#[export] Instance error_eq_dec : EqDecision error.
Proof. solve_decision. Defined.

(** [errors.Is]: a target is found through any number of wrappers. *)
Fixpoint cause (e : error) : error :=
  match e with
  | Wrapped _ e => cause e
  | _ => e
  end.
Definition Is (e target : error) : bool := bool_decide (cause e = target).

(** One file in a manifest. *)
Record Entry := mkEntry {
  e_Path : string;
  e_Hash : string;
  e_Mode : Z;
  e_Size : Z }.

#[export] Instance Entry_eq_dec : EqDecision Entry.
Proof. solve_decision. Defined.

(** A checkpoint: a record of the whole workspace tree. *)
Record Manifest := mkManifest {
  m_ID : string;
  m_WorkspaceID : string;
  m_Parent : string;
  m_Name : string;
  m_Description : string;
  m_Trigger : string;
  m_CreatedAt : Z;
  m_Entries : list Entry }.

#[export] Instance Manifest_eq_dec : EqDecision Manifest.
Proof. solve_decision. Defined.

(** What filepath.Walk can meet below the root: a regular file with its
    permission bits and content, or anything it does not capture. *)
Inductive Node :=
| Regular (mode : Z) (content : string)
| Irregular.

#[export] Instance Node_eq_dec : EqDecision Node.
Proof. solve_decision. Defined.

(** The fields of Store that never change. *)
Record Store := mkStore {
  prefix : string;
  keep : Z;
  pinned : string;
  readOnly : bool;
  noArchive : bool;
  pinnedCheckpoints : gset string;
  workspaceID : string }.

(** What a call can read and change: the bucket, the outcomes of the calls to
    come, the clock, process id and umask, Store.restoredDigest, and what a
    workload still writing the tree puts in a file between its hashing and its
    upload. *)
Record Sys := mkSys {
  bucket : gmap string string;
  script : list outcome;
  agent : list (option string);
  now : Z;
  pid : Z;
  umask : Z;
  restoredDigest : string }.

(** Code outside the repository that the store calls. *)
Class Platform := {
  sha256hex : string → string;
  json_marshal : Manifest → string;
  json_unmarshal : string → option Manifest;
  mksquashfs : gmap string Node → list string → string }.

(** The strings of a manifest that encoding/json carries unchanged. *)
Definition manifest_utf8 (m : Manifest) : bool :=
  forallb ValidString
    [m_ID m; m_WorkspaceID m; m_Parent m; m_Name m; m_Description m; m_Trigger m]
  && forallb (λ e, ValidString (e_Path e) && ValidString (e_Hash e)) (m_Entries m).

(** Lower-case hexadecimal digits, and nothing else. *)
Fixpoint hex_string (s : string) : bool :=
  match s with
  | EmptyString => true
  | String c s =>
      let n := Ascii.nat_of_ascii c in
      (((48 <=? n) && (n <=? 57)) || ((97 <=? n) && (n <=? 102)))%nat && hex_string s
  end.

(** Documented behaviour the theorems use: encoding/json gives back a value
    whose strings are valid UTF-8; a SHA-256 digest prints as 64 hex digits. *)
Class PlatformLaws (P : Platform) := {
  json_roundtrip m :
    manifest_utf8 m = true → json_unmarshal (json_marshal m) = Some m;
  sha256hex_hex d : hex_string (sha256hex d) = true;
  sha256hex_length d : String.length (sha256hex d) = 64 }.

(** ** Operations *)

Abbreviation M := (goM Sys error).

Definition wrap {A} (context : string) (m : M A) : M A := λ st,
  match m st with
  | (Err e, st') => (Err (Wrapped context e), st')
  | r => r
  end.

(** *** Calls that leave the process *)

Definition set_script (l : list outcome) (st : Sys) : Sys :=
  mkSys (bucket st) l (agent st) (now st) (pid st) (umask st) (restoredDigest st).
Definition set_bucket (b : gmap string string) (st : Sys) : Sys :=
  mkSys b (script st) (agent st) (now st) (pid st) (umask st) (restoredDigest st).
Definition set_digest (d : string) (st : Sys) : Sys :=
  mkSys (bucket st) (script st) (agent st) (now st) (pid st) (umask st) d.
Definition set_agent (l : list (option string)) (st : Sys) : Sys :=
  mkSys (bucket st) (script st) l (now st) (pid st) (umask st) (restoredDigest st).

Definition pop : M outcome := λ st,
  let '(o, l) := next_outcome (script st) in (Ok o, set_script l st).

(** A local system call with no effect the model keeps. *)
Definition syscall (what : string) : M unit :=
  o ← pop;
  if decide (o = Done) then mret () else throw (Transport what).

(** A storage call that writes: it may fail before or after acting. *)
Definition s3_write (what : string) (f : gmap string string → gmap string string) : M unit :=
  o ← pop;
  match o with
  | Done => modify (λ st, set_bucket (f (bucket st)) st)
  | Lost => throw (Transport what)
  | Unknown =>
      modify (λ st, set_bucket (f (bucket st)) st) ≫= λ _, throw (Transport what)
  end.

Definition PutObject (key body : string) : M unit := s3_write key (insert key body).
Definition RemoveObject (key : string) : M unit := s3_write key (delete key).

Definition StatObject (key : string) : M unit :=
  syscall key ≫= λ _,
  b ← gets bucket;
  match b !! key with
  | Some _ => mret ()
  | None => throw (NoSuchKey key)
  end.

Definition GetObject (key : string) : M string :=
  syscall key ≫= λ _,
  b ← gets bucket;
  match b !! key with
  | Some body => mret body
  | None => throw (NoSuchKey key)
  end.

(** Keys below a prefix, in the order object storage lists them. *)
Definition keys_below (pfx : string) (b : gmap string string) : list string :=
  merge_sort String.le
    (filter (λ k, HasPrefix k pfx = true) ((map_to_list b).*1)).

Definition ListObjects (pfx : string) : M (list string) :=
  syscall pfx ≫= λ _, gets (λ st, keys_below pfx (bucket st)).

(** *** Configuration *)

Definition DefaultKeepCheckpoints : Z := 5.
Definition UnboundedKeepCheckpoints : Z := -1.
Definition UnboundedEnvValue : string := "unbounded".

(** splitList: a comma-separated value, blanks ignored. *)
Definition splitList (v : string) : list string :=
  if String.eqb (TrimSpace v) "" then []
  else filter (λ p, p ≠ "") (TrimSpace <$> Split v ","%char).

Definition toSet (items : list string) : gset string := list_to_set items.

Record Config := mkConfig {
  c_Endpoint : string;
  c_Bucket : string;
  c_AccessKey : string;
  c_SecretKey : string;
  c_Region : string;
  c_WorkspaceID : string;
  c_AppID : string;
  c_Staging : string;
  c_KeepCheckpoints : Z;
  c_CheckpointID : string;
  c_ReadOnly : bool;
  c_NoArchive : bool;
  c_PinnedCheckpoints : list string }.

(** strconv.Atoi on the decimal numerals an operator writes: an optional sign
    and digits, within the range of a 64-bit int. *)
Fixpoint digits (acc : Z) (s : string) : option Z :=
  match s with
  | EmptyString => Some acc
  | String c s =>
      let n := Z.of_nat (Ascii.nat_of_ascii c) in
      if ((48 <=? n) && (n <=? 57))%Z then digits (acc * 10 + (n - 48))%Z s else None
  end.
Definition Atoi (s : string) : option Z :=
  let bounded v := if (bool_decide (-(2^63) ≤ v < 2^63))%Z then Some v else None in
  match s with
  | EmptyString => None
  | String "-"%char EmptyString | String "+"%char EmptyString => None
  | String "-"%char r => digits 0 r ≫= λ v, bounded (- v)%Z
  | String "+"%char r => digits 0 r ≫= bounded
  | _ => digits 0 s ≫= bounded
  end.

(** FromEnv, given os.Getenv. The configuration is returned beside the error,
    as the code does. *)
Definition FromEnv (getenv : string → string) : Config * option error :=
  let or_default v d := if String.eqb v "" then d else v in
  let keepv := getenv "KEEP_CHECKPOINTS" in
  let keep :=
    if String.eqb keepv "" then DefaultKeepCheckpoints
    else if String.eqb keepv UnboundedEnvValue then UnboundedKeepCheckpoints
    else match Atoi keepv with
         | Some n => if (0 <? n)%Z then n else DefaultKeepCheckpoints
         | None => DefaultKeepCheckpoints
         end in
  let c := {|
    c_Endpoint := getenv "S3_ENDPOINT_URL";
    c_Bucket := getenv "S3_BUCKET_NAME";
    c_AccessKey := getenv "S3_ACCESS_KEY_ID";
    c_SecretKey := getenv "S3_SECRET_ACCESS_KEY";
    c_Region := or_default (getenv "S3_REGION") "us-east-1";
    c_WorkspaceID := getenv "WORKSPACE_ID";
    c_AppID := getenv "APP_ID";
    c_Staging := or_default (getenv "STAGING_ROOT") "/ws-staging";
    c_KeepCheckpoints := keep;
    c_CheckpointID := getenv "CHECKPOINT_ID";
    c_ReadOnly := String.eqb (getenv "WORKSPACE_READ_ONLY") "true";
    c_NoArchive := String.eqb (getenv "WORKSPACE_NO_ARCHIVE") "true";
    c_PinnedCheckpoints := splitList (getenv "PINNED_CHECKPOINTS") |} in
  let missing f := String.eqb (f c) "" in
  if missing c_WorkspaceID then (c, Some (ErrRequired "WORKSPACE_ID"))
  else if missing c_AppID then (c, Some (ErrRequired "APP_ID"))
  else if missing c_Endpoint || missing c_Bucket || missing c_AccessKey || missing c_SecretKey
  then (c, Some ErrNotConfigured)
  else (c, None).

(** New: the fields of the store it builds. *)
Definition New (cfg : Config) : Store := {|
  prefix := c_AppID cfg +:+ "/" +:+ c_WorkspaceID cfg;
  keep := if (c_KeepCheckpoints cfg =? 0)%Z then DefaultKeepCheckpoints
          else c_KeepCheckpoints cfg;
  pinned := c_CheckpointID cfg;
  readOnly := c_ReadOnly cfg;
  noArchive := c_NoArchive cfg;
  pinnedCheckpoints := toSet (c_PinnedCheckpoints cfg);
  workspaceID := c_WorkspaceID cfg |}.

(** callBudget: the deadline of one storage call in nanoseconds, in the 64-bit
    arithmetic of time.Duration. *)
Definition wrap64 (z : Z) : Z := ((z + 2^63) mod 2^64 - 2^63)%Z.
Definition second : Z := 1000000000.
Definition callBaseBudget : Z := (60 * second)%Z.
Definition callPerMiB : Z := second.
Definition callBudget (size : Z) : Z :=
  wrap64 (callBaseBudget + wrap64 (Z.quot size (2^20) * callPerMiB))%Z.

(** Directory names whose content is derived and never checkpointed. *)
Definition skipDir : list string :=
  [".global"; ".global-gen"; "node_modules"; ".expo"; ".next"; "dist"; "build";
   "web-build"; ".cache"; ".turbo"; "__pycache__"; ".venv"; ".ephemeral"].

(** *** Identifiers *)

Definition hex_digit (n : Z) : Ascii.ascii :=
  Ascii.ascii_of_N (Z.to_N (if (n <? 10)%Z then 48 + n else 87 + n)%Z).
Definition hex_byte (b : Z) (s : string) : string :=
  String (hex_digit (Z.shiftr b 4)) (String (hex_digit (Z.land b 15)) s).

(** The bytes [byte(now >> (8*(7-i)))], i = 8-n .. 7, in hexadecimal. *)
Fixpoint hex_be (n : nat) (t : Z) : string :=
  match n with
  | O => EmptyString
  | S n => hex_byte (Z.land (Z.shiftr t (8 * Z.of_nat n)) 255) (hex_be n t)
  end.

(** *** Paths of the walk *)

(** filepath.Walk orders siblings by name, which is the order of the paths with
    the separator below every other byte. *)
Fixpoint walk_key (p : string) : string :=
  match p with
  | EmptyString => EmptyString
  | String c p => String (if Ascii.eqb c "/"%char then Ascii.zero else c) (walk_key p)
  end.
Definition walk_le (p q : string) : Prop := String.le (walk_key p) (walk_key q).
#[export] Instance walk_le_dec : RelDecision walk_le := λ p q, _.

(** Below a directory the walk answered SkipDir to. *)
Definition skipped (p : string) : bool :=
  existsb (λ d, bool_decide (d ∈ skipDir)) (removelast (Split p "/"%char)).

Definition walk (root : gmap string Node) : list (string * Node) :=
  merge_sort (λ x y, walk_le x.1 y.1)
    (filter (λ x, skipped x.1 = false) (map_to_list root)).

Definition entry_le (x y : Entry) : Prop := String.le (e_Path x) (e_Path y).
#[export] Instance entry_le_dec : RelDecision entry_le := λ x y, _.

(** *** Retention policy *)

(** planRetention: checkpoint ids, newest first, into survivors and deletions. *)
Fixpoint plan_from (i : Z) (newestFirst : list string) (keep : Z) (pinned : gset string)
    : list string * list string :=
  match newestFirst with
  | [] => ([], [])
  | id :: rest =>
      let '(survivors, doomed) := plan_from (i + 1) rest keep pinned in
      if (i <? keep)%Z then (id :: survivors, doomed)
      else if decide (id ∈ pinned) then (id :: survivors, doomed)
      else (survivors, id :: doomed)
  end.
Definition planRetention (newestFirst : list string) (keep : Z) (pinned : gset string)
    : list string * list string :=
  if (keep <=? 0)%Z then (newestFirst, []) else plan_from 0 newestFirst keep pinned.

(** pinMarkerCheckpoint: the checkpoint a marker's key below pins/ names. *)
Definition pinMarkerCheckpoint (rel : string) : string :=
  let '(id, holder, ok) := Cut rel "/"%char in
  if negb ok || String.eqb id "" || String.eqb holder "" || Contains holder "/"
  then "" else id.

Section store_ops.
Context {P : Platform} (s : Store).

(** *** Key layout *)
Definition objectKey (hash : string) : string := prefix s +:+ "/objects/" +:+ hash.
Definition manifestKey (id : string) : string :=
  prefix s +:+ "/checkpoints/" +:+ id +:+ ".json".
Definition archiveKey : string := prefix s +:+ "/archive.sqsh".
Definition checkpointArchiveKey (id : string) : string :=
  prefix s +:+ "/checkpoints/" +:+ id +:+ ".sqsh".
Definition latestKey : string := prefix s +:+ "/checkpoints/LATEST".
Definition pinsPrefix : string := prefix s +:+ "/pins/".
Definition objPrefix : string := prefix s +:+ "/objects/".
Definition checkpointsPrefix : string := prefix s +:+ "/checkpoints/".

Definition newID (t pid : Z) : string :=
  hex_be 8 t +:+ str_take 16 (sha256hex (pretty t +:+ " " +:+ pretty pid)).

(** manifestDigest: over path, hash, mode and size of every entry. *)
Definition digest_line (e : Entry) : string :=
  let nul := String Ascii.zero EmptyString in
  e_Path e +:+ nul +:+ e_Hash e +:+ nul +:+ pretty (e_Mode e) +:+ nul
    +:+ pretty (e_Size e) +:+ String (Ascii.ascii_of_nat 10) EmptyString.
Definition manifestDigest (m : Manifest) : string :=
  sha256hex (String.concat EmptyString (digest_line <$> m_Entries m)).

(** *** Listing *)

(** The ids among the listed keys, newest first: only manifests count. *)
Definition checkpoint_ids (keys : list string) : list string :=
  let names := (λ k, TrimPrefix k checkpointsPrefix) <$> keys in
  let ids := (λ n, TrimSuffix n ".json") <$>
               filter (λ n, HasSuffix n ".json" = true) names in
  merge_sort (flip String.le) (filter (λ n, n ≠ "") ids).

Definition ListCheckpoints : M (list string) :=
  keys ← ListObjects checkpointsPrefix;
  mret (checkpoint_ids keys).

Definition pin_ids (keys : list string) : gset string :=
  let ids := (λ k, pinMarkerCheckpoint (TrimPrefix k pinsPrefix)) <$> keys in
  list_to_set (filter (λ id, id ≠ "") ids).

Definition ListPinMarkers : M (gset string) :=
  keys ← ListObjects pinsPrefix;
  mret (pin_ids keys).

Definition GetManifest (id : string) : M Manifest :=
  body ← GetObject (manifestKey id);
  match json_unmarshal body with
  | Some m => mret m
  | None => throw (BadManifest id)
  end.

(** *** Retention *)

Definition remove_checkpoint (id : string) : M unit :=
  wrap "remove manifest" (RemoveObject (manifestKey id)) ≫= λ _,
  attempt (RemoveObject (checkpointArchiveKey id)) ≫= λ _, mret ().

(** Mark: the hashes of the manifests that survive. *)
Definition mark (live : gset string) (id : string) : M (gset string) :=
  m ← wrap "read surviving manifest (aborting sweep)" (GetManifest id);
  mret (list_to_set (e_Hash <$> m_Entries m) ∪ live).

Definition sweep_one (live : gset string) (key : string) : M unit :=
  wrap "list objects" (syscall key) ≫= λ _,
  let hash := TrimPrefix key objPrefix in
  if decide (hash = "") then mret ()
  else if decide (hash ∈ live) then mret ()
  else wrap "remove object" (RemoveObject key).

Definition Prune : M unit :=
  if readOnly s then throw ErrReadOnly else
  all ← wrap "list checkpoints" ListCheckpoints;
  marked ← wrap "list pin markers (aborting prune)" ListPinMarkers;
  let '(ids, doomed) := planRetention all (keep s) (pinnedCheckpoints s ∪ marked) in
  forM doomed remove_checkpoint ≫= λ _,
  live ← foldM mark ids ∅;
  keys ← wrap "list objects" (ListObjects objPrefix);
  forM keys (sweep_one live).

(** *** Snapshot *)

(** What os.Open finds when the file is read again for the upload: its content,
    unless the workload wrote it in between. *)
Definition reread (content : string) : M string := λ st,
  match agent st with
  | [] => (Ok content, st)
  | w :: ws => (Ok (default content w), set_agent ws st)
  end.

(** putIfAbsent: whether an upload happened. The upload is of [size] bytes:
    PutObject fails on a shorter file and ignores what is past them. *)
Definition putIfAbsent (hash content : string) (size : Z) : M bool :=
  let key := objectKey hash in
  present ← attempt (StatObject key);
  match present with
  | Ok _ => mret false
  | Err _ =>
      syscall key ≫= λ _,
      body ← reread content;
      if (Z.of_nat (String.length body) <? size)%Z then throw (Transport key)
      else PutObject key (str_take (Z.to_nat size) body) ≫= λ _, mret true
  end.

(** The callback of filepath.Walk on one path below the root. *)
Definition visit (entries : list Entry) (x : string * Node) : M (list Entry) :=
  let '(rel, node) := x in
  syscall rel ≫= λ _,
  match node with
  | Irregular => mret entries
  | Regular mode content =>
      syscall rel ≫= λ _,
      let hash := sha256hex content in
      let size := Z.of_nat (String.length content) in
      wrap "upload" (putIfAbsent hash content size) ≫= λ _,
      mret (entries ++ [mkEntry rel hash mode size])%list
  end.

Definition setLatest (id : string) : M unit := PutObject latestKey id.

(** CreateArchive, then both uploads of the image: best effort. *)
Definition archive_step (root : gmap string Node) (id : string) : M unit :=
  if noArchive s then mret () else
  created ← attempt (syscall "mksquashfs");
  match created with
  | Err _ => mret ()
  | Ok _ =>
      let image := mksquashfs root skipDir in
      attempt (syscall "open archive" ≫= λ _, PutObject archiveKey image) ≫= λ _,
      attempt (syscall "open archive" ≫= λ _, PutObject (checkpointArchiveKey id) image) ≫= λ _,
      mret ()
  end.

Definition Snapshot (root : gmap string Node) (name desc trigger parent : string)
    : M Manifest :=
  if readOnly s then throw ErrReadOnly else
  t ← gets now;
  p ← gets pid;
  let id := newID t p in
  walked ← foldM visit (walk root) [];
  let entries := merge_sort entry_le walked in
  let m := mkManifest id (workspaceID s) parent name desc trigger t entries in
  if decide (entries = []) then throw ErrNothingToSave else
  let digest := manifestDigest m in
  known ← gets restoredDigest;
  if decide (known ≠ "" ∧ digest = known) then throw ErrUnchanged else
  wrap "write manifest" (PutObject (manifestKey id) (json_marshal m)) ≫= λ _,
  setLatest id ≫= λ _,
  modify (set_digest digest) ≫= λ _,
  archive_step root id ≫= λ _,
  attempt Prune ≫= λ _,
  mret m.

(** *** Restore *)

Definition Latest : M string :=
  r ← attempt (GetObject latestKey);
  match r with
  | Ok body => mret (TrimSpace body)
  | Err (NoSuchKey _) => mret ""
  | Err e => throw (Wrapped "reading LATEST pointer" e)
  end.

Definition Resolve : M string :=
  if String.eqb (pinned s) "" then Latest
  else wrap "pinned checkpoint does not exist in this workspace"
         (StatObject (manifestKey (pinned s))) ≫= λ _, mret (pinned s).

(** downloadTo, given where the image is wanted: the body, or ErrNoArchive. *)
Definition downloadTo (key : string) : M string :=
  r ← attempt (StatObject key);
  match r with
  | Err (NoSuchKey _) => throw ErrNoArchive
  | Err e => throw (Wrapped "stat" e)
  | Ok _ =>
      body ← wrap "get" (GetObject key);
      syscall "write archive" ≫= λ _, mret body
  end.
Definition DownloadArchive : M string := downloadTo archiveKey.
Definition DownloadCheckpointArchive (id : string) : M string :=
  downloadTo (checkpointArchiveKey id).

(** A path is not creatable when a file stands where one of its directories
    would be, nor replaceable by rename when a directory stands there. *)
Definition file_above (fs : gmap string Node) (p : string) : bool :=
  existsb (λ k, HasPrefix p (k +:+ "/")) (map_to_list fs).*1.
Definition dir_at (fs : gmap string Node) (p : string) : bool :=
  existsb (λ k, HasPrefix k (p +:+ "/")) (map_to_list fs).*1.
Definition fs_call (what : string) (refused : bool) : M unit :=
  syscall what ≫= λ _, if refused then throw (Transport what) else mret ().

(** os.WriteFile: creates with the mode the umask leaves, truncates in place
    what is there (through a link, when that is what is there). *)
Definition written (fs : gmap string Node) (p : string) (mode umask : Z) (data : string)
    : Node :=
  match fs !! p with
  | Some (Regular mode0 _) => Regular mode0 data
  | Some Irregular => Irregular
  | None => Regular (Z.ldiff mode umask) data
  end.

(** Restore writes into [fs], the files below its root, and leaves them as they
    are when it fails part way. *)
Definition restore_entry (fs : gmap string Node) (e : Entry)
    : Sys → result error () * gmap string Node * Sys := λ st,
  match (fs_call "mkdir" (file_above fs (e_Path e)) ≫= λ _,
         wrap "get" (GetObject (objectKey (e_Hash e)))) st with
  | (Err err, st) => (Err err, fs, st)
  | (Ok data, st) =>
      if decide (sha256hex data = e_Hash e) then
        let mode := if (e_Mode e =? 0)%Z then 420%Z else e_Mode e in
        let tmp := e_Path e +:+ ".ws-tmp" in
        match wrap "write" (fs_call tmp (dir_at fs tmp)) st with
        | (Err err, st) => (Err err, fs, st)
        | (Ok _, st) =>
            let node := written fs tmp mode (umask st) data in
            match wrap "rename" (fs_call (e_Path e) (dir_at fs (e_Path e))) st with
            | (Err err, st) => (Err err, <[tmp := node]> fs, st)
            | (Ok _, st) => (Ok (), <[e_Path e := node]> (delete tmp fs), st)
            end
        end
      else (Err (ChecksumMismatch (e_Path e)), fs, st)
  end.

Fixpoint restore_entries (fs : gmap string Node) (l : list Entry)
    : Sys → result error () * gmap string Node * Sys := λ st,
  match l with
  | [] => (Ok (), fs, st)
  | e :: l =>
      match restore_entry fs e st with
      | (Ok _, fs, st) => restore_entries fs l st
      | r => r
      end
  end.

Definition Restore (fs : gmap string Node) (m : Manifest)
    : Sys → result error () * gmap string Node * Sys := λ st,
  restore_entries fs (m_Entries m) (set_digest (manifestDigest m) st).
End store_ops.
