(* ===== verification/WorkspaceStoreFacts.v ===== *)
(** * WorkspaceStoreFacts: what the checkpoint store guarantees.

    Every statement about [Prune] and [Snapshot] quantifies over the whole
    initial state, hence over every script of call outcomes: the guarantees hold
    when any call fails, before or after it took effect. *)

From S2P Require Import Prelude.
From S2P Require Import WorkspaceStore.

Local Open Scope string_scope.

(** ** Strings and keys *)

Lemma str_app_suffix_inj s1 t1 s2 t2 :
  s1 +:+ t1 = s2 +:+ t2 → String.length t1 = String.length t2 → t1 = t2.
Proof.
  intros H Hl. assert (Hs : String.length s1 = String.length s2).
  { apply (f_equal String.length) in H. rewrite !str_length_app in H. lia. }
  rewrite <-(str_drop_app s1 t1), H, Hs. apply str_drop_app.
Qed.

Section keys.
Context (s : Store).

#[export] Instance objectKey_inj : Inj (=) (=) (objectKey s).
Proof. intros h1 h2 H. by do 2 apply (inj (String.append _)) in H. Qed.

#[export] Instance manifestKey_inj : Inj (=) (=) (manifestKey s).
Proof.
  intros i1 i2 H. do 2 apply (inj (String.append _)) in H.
  by apply str_app_inj_r in H.
Qed.

Lemma objectKey_ne_checkpoints h t : objectKey s h ≠ prefix s +:+ "/checkpoints/" +:+ t.
Proof. intros H%(inj (String.append _)). discriminate H. Qed.

Lemma objectKey_ne_manifestKey h id : objectKey s h ≠ manifestKey s id.
Proof. apply objectKey_ne_checkpoints. Qed.

Lemma objectKey_ne_checkpointArchiveKey h id : objectKey s h ≠ checkpointArchiveKey s id.
Proof. apply objectKey_ne_checkpoints. Qed.

Lemma objectKey_ne_latestKey h : objectKey s h ≠ latestKey s.
Proof. apply (objectKey_ne_checkpoints _ "LATEST"). Qed.

Lemma objectKey_ne_archiveKey h : objectKey s h ≠ archiveKey s.
Proof. intros H%(inj (String.append _)). discriminate H. Qed.

Lemma manifestKey_ne_checkpointArchiveKey i j :
  manifestKey s i ≠ checkpointArchiveKey s j.
Proof.
  intros H. do 2 apply (inj (String.append _)) in H.
  apply str_app_suffix_inj in H; [discriminate H|done].
Qed.

Lemma manifestKey_ne_latestKey id : manifestKey s id ≠ latestKey s.
Proof.
  intros H. apply (inj (String.append _)) in H.
  apply (inj (String.append "/checkpoints/") _ "LATEST") in H.
  assert (Hs : HasSuffix "LATEST" ".json" = true) by (rewrite <-H; apply HasSuffix_app).
  discriminate Hs.
Qed.

Lemma manifestKey_ne_archiveKey id : manifestKey s id ≠ archiveKey s.
Proof. intros H%(inj (String.append _)). discriminate H. Qed.

Lemma archiveKey_ne_latestKey : archiveKey s ≠ latestKey s.
Proof. intros H%(inj (String.append _)). discriminate H. Qed.

Lemma checkpointArchiveKey_ne_latestKey id : checkpointArchiveKey s id ≠ latestKey s.
Proof.
  intros H. apply (inj (String.append _)) in H.
  apply (inj (String.append "/checkpoints/") _ "LATEST") in H.
  assert (Hs : HasSuffix "LATEST" ".sqsh" = true) by (rewrite <-H; apply HasSuffix_app).
  discriminate Hs.
Qed.
End keys.

Create HintDb keys.
Create HintDb reads.
#[export] Hint Resolve objectKey_ne_manifestKey objectKey_ne_checkpointArchiveKey
  objectKey_ne_latestKey objectKey_ne_archiveKey manifestKey_ne_checkpointArchiveKey
  manifestKey_ne_latestKey manifestKey_ne_archiveKey checkpointArchiveKey_ne_latestKey
  archiveKey_ne_latestKey : keys.

(** ** Programs that only read the bucket, and programs that write it *)

(** [m] leaves the bucket [b] alone, and what it returns satisfies [φ]. *)
Definition reads {A} (b : gmap string string) (m : M A) (φ : A → Prop) : Prop :=
  ∀ st, bucket st = b → bucket (m st).2 = b ∧ ∀ a, (m st).1 = Ok a → φ a.

(** The invariants of interest speak of the bucket. *)
Abbreviation onb J := (λ st : Sys, J (bucket st)).

Section programs.
Context (b : gmap string string) (J : gmap string string → Prop).

Lemma reads_mono {A} (m : M A) (φ ψ : A → Prop) :
  reads b m φ → (∀ a, φ a → ψ a) → reads b m ψ.
Proof. intros Hm H st Hst. destruct (Hm st Hst). split; auto. Qed.

Lemma reads_ret {A} (a : A) (φ : A → Prop) : φ a → reads b (mret a) φ.
Proof. intros Ha st Hst. split; [done|]. by intros ? [= <-]. Qed.

Lemma reads_throw {A} e (φ : A → Prop) : reads b (throw e) φ.
Proof. by intros st Hst. Qed.

Lemma reads_bind {A B} (m : M A) (f : A → M B) (φ : A → Prop) (ψ : B → Prop) :
  reads b m φ → (∀ a, φ a → reads b (f a) ψ) → reads b (m ≫= f) ψ.
Proof.
  intros Hm Hf st Hst. destruct (Hm st Hst) as [Hb Ha]. rewrite bind_run.
  destruct (m st) as [[a|e] st']; cbn in *; [|done]. by apply Hf; [apply Ha|].
Qed.

Lemma reads_wrap {A} c (m : M A) φ : reads b m φ → reads b (wrap c m) φ.
Proof.
  intros Hm st Hst. destruct (Hm st Hst) as [Hb Ha]. unfold wrap.
  destruct (m st) as [[a|e] st']; cbn in *; [by split|done].
Qed.

Lemma reads_attempt {A} (m : M A) (φ : A → Prop) :
  reads b m φ → reads b (attempt m) (λ r, match r with Ok a => φ a | Err _ => True end).
Proof.
  intros Hm st Hst. destruct (Hm st Hst) as [Hb Ha]. unfold attempt.
  destruct (m st) as [[a|e] st']; cbn in *; (split; [done|]; intros ? [= <-]); auto.
Qed.

Lemma reads_gets_bucket {A} (f : gmap string string → A) :
  reads b (gets (λ st, f (bucket st))) (λ a, a = f b).
Proof. intros st <-. split; [done|]. by intros a [= <-]. Qed.

Lemma reads_syscall w : reads b (syscall w) (λ _, True).
Proof.
  intros st Hst. unfold syscall, pop. rewrite bind_run.
  destruct (script st) as [|o l]; cbn; [done|]. by destruct (decide (o = Done)).
Qed.

Lemma reads_ListObjects pfx : reads b (ListObjects pfx) (λ l, l = keys_below pfx b).
Proof.
  eapply reads_bind; [apply reads_syscall|]. intros _ _. apply reads_gets_bucket.
Qed.

Lemma reads_StatObject k : reads b (StatObject k) (λ _, is_Some (b !! k)).
Proof.
  eapply reads_bind; [apply reads_syscall|]. intros _ _.
  eapply reads_bind; [apply (reads_gets_bucket id)|]. intros ? ->. cbn.
  destruct (b !! k) eqn:E; [by apply reads_ret|apply reads_throw].
Qed.

Lemma reads_GetObject k : reads b (GetObject k) (λ body, b !! k = Some body).
Proof.
  eapply reads_bind; [apply reads_syscall|]. intros _ _.
  eapply reads_bind; [apply (reads_gets_bucket id)|]. intros ? ->. cbn.
  destruct (b !! k) eqn:E; [by apply reads_ret|apply reads_throw].
Qed.

(** A program that only reads keeps every invariant of the bucket. *)
Lemma keeps_reads {A} (m : M A) φ : (∀ b', reads b' m φ) → keeps (onb J) m.
Proof. intros Hm st Hst. destruct (Hm _ st eq_refl) as [-> _]. done. Qed.

Lemma keeps_wrap {A} c (m : M A) : keeps (onb J) m → keeps (onb J) (wrap c m).
Proof.
  intros Hm st Hst. specialize (Hm st Hst). unfold wrap.
  by destruct (m st) as [[a|e] st'].
Qed.

Lemma keeps_s3_write w f : (∀ b, J b → J (f b)) → keeps (onb J) (s3_write w f).
Proof.
  intros Hf st Hst. unfold s3_write, pop. rewrite bind_run.
  destruct (script st) as [|[] l]; cbn; rewrite ?bind_run; cbn; auto.
Qed.

Lemma keeps_PutObject k v : (∀ b, J b → J (<[k:=v]> b)) → keeps (onb J) (PutObject k v).
Proof. apply keeps_s3_write. Qed.

Lemma keeps_RemoveObject k : (∀ b, J b → J (delete k b)) → keeps (onb J) (RemoveObject k).
Proof. apply keeps_s3_write. Qed.
End programs.

#[export] Hint Resolve reads_ListObjects reads_StatObject reads_GetObject
  reads_syscall : reads.

(** A write that reported success happened. *)
Lemma s3_write_ok w f st st' :
  s3_write w f st = (Ok (), st') →
  bucket st' = f (bucket st) ∧ restoredDigest st' = restoredDigest st.
Proof.
  unfold s3_write, pop. rewrite bind_run.
  destruct (script st) as [|[] l]; cbn; rewrite ?bind_run; cbn; by intros [= <-].
Qed.

(** ** Listing *)

Lemma elem_of_keys_below pfx b k :
  k ∈ keys_below pfx b ↔ is_Some (b !! k) ∧ HasPrefix k pfx = true.
Proof.
  unfold keys_below. rewrite elem_of_merge_sort, list_elem_of_filter, list_elem_of_fmap.
  split.
  - intros [Hp [[k' v] [-> Hin%elem_of_map_to_list]]]. by split; [exists v|].
  - intros [[v Hv] Hp]. split; [done|]. exists (k, v).
    by rewrite elem_of_map_to_list.
Qed.

Lemma NoDup_keys_below pfx b : NoDup (keys_below pfx b).
Proof. apply NoDup_merge_sort, NoDup_filter, NoDup_fst_map_to_list. Qed.

Section listing.
Context (s : Store).

(** The checkpoints a bucket holds, newest first. *)
Definition checkpoints (b : gmap string string) : list string :=
  checkpoint_ids s (keys_below (checkpointsPrefix s) b).

(** The checkpoints its pin markers name. *)
Definition pin_markers (b : gmap string string) : gset string :=
  pin_ids s (keys_below (pinsPrefix s) b).

Lemma elem_of_checkpoints b id :
  id ∈ checkpoints b ↔ id ≠ "" ∧ is_Some (b !! manifestKey s id).
Proof.
  unfold checkpoints, checkpoint_ids.
  rewrite elem_of_merge_sort, list_elem_of_filter, list_elem_of_fmap. split.
  - intros [Hne (n & -> & [Hsuf Hin]%list_elem_of_filter)]. split; [done|].
    apply list_elem_of_fmap in Hin as (k & -> & [Hk Hp]%elem_of_keys_below).
    apply HasPrefix_iff in Hp as [t ->]. rewrite TrimPrefix_app in Hsuf |- *.
    apply HasSuffix_iff in Hsuf as [r ->]. rewrite TrimSuffix_app.
    unfold manifestKey. by rewrite !str_app_assoc in *.
  - intros [Hne Hk]. split; [done|]. exists (id +:+ ".json").
    rewrite TrimSuffix_app. split; [done|]. apply list_elem_of_filter.
    split; [apply HasSuffix_app|]. apply list_elem_of_fmap.
    exists (manifestKey s id). unfold manifestKey in *.
    rewrite str_app_assoc. fold (checkpointsPrefix s). rewrite TrimPrefix_app.
    split; [done|]. apply elem_of_keys_below. split.
    + by rewrite str_app_assoc in Hk.
    + apply HasPrefix_iff. by eexists.
Qed.

Lemma NoDup_checkpoints b : NoDup (checkpoints b).
Proof.
  unfold checkpoints, checkpoint_ids. apply NoDup_merge_sort, NoDup_filter.
  assert (Hf : ∀ l, Forall (λ k, HasPrefix k (checkpointsPrefix s) = true) l →
    NoDup l → NoDup ((λ n, TrimSuffix n ".json") <$>
      filter (λ n, HasSuffix n ".json" = true)
        ((λ k, TrimPrefix k (checkpointsPrefix s)) <$> l))).
  { intros l Hl Hnd. apply NoDup_fmap_2_strong.
    - intros x y [Hx _]%list_elem_of_filter [Hy _]%list_elem_of_filter.
      apply HasSuffix_iff in Hx as [? ->], Hy as [? ->].
      rewrite !TrimSuffix_app. by intros ->.
    - apply NoDup_filter, NoDup_fmap_2_strong; [|done].
      intros x y Hx Hy. rewrite Forall_forall in Hl.
      apply Hl, HasPrefix_iff in Hx as [? ->]. apply Hl, HasPrefix_iff in Hy as [? ->].
      rewrite !TrimPrefix_app. by intros ->. }
  apply Hf; [|apply NoDup_keys_below].
  apply Forall_forall. intros k. rewrite elem_of_keys_below. by intros [_ ?].
Qed.

#[local] Instance flip_le_total : Total (flip String.le).
Proof. intros x y. apply (total String.le). Qed.

Lemma sorted_checkpoints b :
  StronglySorted (λ x y, String.le y x ∧ x ≠ y) (checkpoints b).
Proof.
  assert (Hle : StronglySorted (flip String.le) (checkpoints b)).
  { apply (StronglySorted_merge_sort (flip String.le)). }
  pose proof (NoDup_checkpoints b) as Hnd.
  induction Hle as [|x l Hl IH Hx]; [constructor|].
  apply NoDup_cons in Hnd as [Hnin Hnd]. constructor; [by apply IH|].
  rewrite Forall_forall in Hx |- *. intros y Hy. split; [by apply Hx|].
  by intros <-.
Qed.

Lemma reads_ListCheckpoints b :
  reads b (ListCheckpoints s) (λ ids, ids = checkpoints b).
Proof.
  eapply reads_bind; [apply reads_ListObjects|]. intros ? ->. by apply reads_ret.
Qed.

Lemma reads_ListPinMarkers b :
  reads b (ListPinMarkers s) (λ ids, ids = pin_markers b).
Proof.
  eapply reads_bind; [apply reads_ListObjects|]. intros ? ->. by apply reads_ret.
Qed.

(** The ids returned are exactly those whose manifest is stored, each once,
    in strictly decreasing byte order; archives and the LATEST pointer, which
    live under the same prefix, are never counted. *)
Theorem ListCheckpoints_spec (st : Sys) :
  match ListCheckpoints s st with
  | (Ok ids, st') =>
      bucket st' = bucket st ∧ NoDup ids ∧
      StronglySorted (λ x y, String.le y x ∧ x ≠ y) ids ∧
      ∀ id, id ∈ ids ↔ id ≠ "" ∧ is_Some (bucket st !! manifestKey s id)
  | (Err _, st') => bucket st' = bucket st
  end.
Proof.
  destruct (reads_ListCheckpoints (bucket st) st eq_refl) as [Hb Hids].
  destruct (ListCheckpoints s st) as [[ids|e] st']; cbn in *; [|done].
  rewrite (Hids ids eq_refl). split_and!; [done|apply NoDup_checkpoints| |].
  - apply sorted_checkpoints.
  - intros id. apply elem_of_checkpoints.
Qed.
End listing.

(** ** Retention *)

Section retention.
Implicit Types (l : list string) (pin : gset string).

(** Survivors and deletions together are the list given. *)
Lemma plan_from_perm i l k pin :
  ((plan_from i l k pin).1 ++ (plan_from i l k pin).2)%list ≡ₚ l.
Proof.
  revert i. induction l as [|x l IH]; intros i; cbn; [done|].
  specialize (IH (i + 1)%Z). destruct (plan_from (i + 1) l k pin) as [sv dm]; cbn in *.
  destruct (i <? k)%Z; [|destruct (decide (x ∈ pin))]; cbn.
  - by constructor.
  - by constructor.
  - rewrite <-Permutation_middle. by constructor.
Qed.

Lemma plan_from_doomed i l k pin id :
  NoDup l → id ∈ (plan_from i l k pin).2 ↔
  id ∉ pin ∧ ∃ n, l !! n = Some id ∧ (k ≤ i + Z.of_nat n)%Z.
Proof.
  intros Hnd. revert i. induction Hnd as [|x l Hx Hnd IH]; intros i; cbn.
  { split; [by intros ?%not_elem_of_nil|]. by intros [_ (n & Hn & _)]. }
  specialize (IH (i + 1)%Z). destruct (plan_from (i + 1) l k pin) as [sv dm]; cbn in *.
  assert (Htl : (∃ n, (x :: l) !! n = Some id ∧ (k ≤ i + Z.of_nat n)%Z) ↔
    (x = id ∧ (k ≤ i)%Z) ∨ ∃ n, l !! n = Some id ∧ (k ≤ i + 1 + Z.of_nat n)%Z).
  { split.
    - intros ([|n] & Hn & Hle); cbn in Hn; [left; naive_solver lia|right].
      exists n. split; [done|lia].
    - intros [[-> ?]|(n & Hn & ?)]; [exists 0|exists (S n)]; (split; [done|lia]). }
  rewrite Htl.
  destruct (Z.ltb_spec i k); [|destruct (decide (x ∈ pin))]; cbn.
  - rewrite IH. naive_solver lia.
  - rewrite IH. naive_solver.
  - rewrite elem_of_cons, IH. naive_solver lia.
Qed.

Lemma planRetention_perm l k pin :
  ((planRetention l k pin).1 ++ (planRetention l k pin).2)%list ≡ₚ l.
Proof.
  unfold planRetention. destruct (k <=? 0)%Z; [by rewrite app_nil_r|].
  apply plan_from_perm.
Qed.
End retention.

(** Retention deletes exactly the checkpoints that are neither among the
    [keep] newest nor pinned; survivors and deletions together are the
    checkpoints given, each once. With [keep <= 0] nothing is deleted. *)
Theorem planRetention_spec (newestFirst : list string) (keep : Z) (pinned : gset string) :
  NoDup newestFirst →
  let '(survivors, doomed) := planRetention newestFirst keep pinned in
  (survivors ++ doomed)%list ≡ₚ newestFirst ∧
  ∀ id, id ∈ doomed ↔
    (0 < keep)%Z ∧ id ∉ pinned ∧ ∃ n, newestFirst !! n = Some id ∧ (keep ≤ Z.of_nat n)%Z.
Proof.
  intros Hnd. unfold planRetention. destruct (Z.leb_spec keep 0) as [Hk|Hk].
  { rewrite app_nil_r. split; [done|]. intros id.
    split; [by intros ?%not_elem_of_nil|lia]. }
  pose proof (plan_from_perm 0 newestFirst keep pinned) as Hp.
  pose proof (λ id, plan_from_doomed 0 newestFirst keep pinned id Hnd) as Hd.
  destruct (plan_from 0 newestFirst keep pinned) as [sv dm]; cbn in *.
  split; [done|]. intros id. rewrite Hd. naive_solver.
Qed.

Section prune.
Context {P : Platform} (s : Store) (b0 : gmap string string).

Let plan := planRetention (checkpoints s b0) (keep s)
              (pinnedCheckpoints s ∪ pin_markers s b0).

(** The checkpoints retention keeps and deletes in the bucket [b0]. *)
Definition survivors : list string := plan.1.
Definition doomed : list string := plan.2.

(** [b0] less manifests and archives of doomed checkpoints. *)
Definition thinned (b : gmap string string) : Prop :=
  ∀ k, b !! k = b0 !! k ∨
    (b !! k = None ∧ ∃ id, id ∈ doomed ∧ (k = manifestKey s id ∨ k = checkpointArchiveKey s id)).

(** [b1] less objects whose hash is not in [live]. *)
Definition swept (live : gset string) (b1 b : gmap string string) : Prop :=
  ∀ k, b !! k = b1 !! k ∨ (b !! k = None ∧ ∃ h, h ∉ live ∧ k = objectKey s h).

(** [live] holds every hash the manifests [ids] of [b] name. *)
Definition marked (ids : list string) (b : gmap string string) (live : gset string) : Prop :=
  ∀ id body m e, id ∈ ids → b !! manifestKey s id = Some body →
    json_unmarshal body = Some m → e ∈ m_Entries m → e_Hash e ∈ live.

(** What a prune can leave: either it stopped before the sweep, or every doomed
    manifest is gone and the sweep ran against all that remain. *)
Definition pruned (b : gmap string string) : Prop :=
  ∃ b1, thinned b1 ∧
    (b = b1 ∨
     (∀ id, id ∈ doomed → b1 !! manifestKey s id = None) ∧
     ∃ live, marked survivors b1 live ∧ swept live b1 b).

Lemma survivors_doomed :
  NoDup (survivors ++ doomed)%list ∧
  (∀ id, id ∈ checkpoints s b0 ↔ id ∈ survivors ∨ id ∈ doomed).
Proof.
  pose proof (planRetention_perm (checkpoints s b0) (keep s)
    (pinnedCheckpoints s ∪ pin_markers s b0)) as Hp.
  fold plan in Hp. fold survivors doomed in Hp. split.
  - rewrite Hp. apply NoDup_checkpoints.
  - intros id. by rewrite <-Hp, elem_of_app.
Qed.

Lemma survivor_not_doomed id : id ∈ survivors → id ∉ doomed.
Proof. destruct survivors_doomed as [[_ [H _]]%NoDup_app _]. auto. Qed.

Lemma thinned_refl : thinned b0.
Proof. intros k. by left. Qed.

Lemma thinned_delete k b id :
  id ∈ doomed → k = manifestKey s id ∨ k = checkpointArchiveKey s id →
  thinned b → thinned (delete k b).
Proof.
  intros Hid Hk Hb k'. destruct (decide (k = k')) as [<-|Hne].
  - right. rewrite lookup_delete_eq. eauto.
  - rewrite lookup_delete_ne by done. apply Hb.
Qed.

Lemma keeps_remove_checkpoint id :
  id ∈ doomed → keeps (onb thinned) (remove_checkpoint s id).
Proof.
  intros Hid. unfold remove_checkpoint.
  apply keeps_bind; [apply keeps_wrap, keeps_RemoveObject; eauto using thinned_delete|].
  intros _. apply keeps_bind; [|intros; apply keeps_ret].
  apply keeps_attempt, keeps_RemoveObject; eauto using thinned_delete.
Qed.

Lemma remove_checkpoint_gone id st st' j :
  remove_checkpoint s id st = (Ok (), st') →
  (j = id ∨ bucket st !! manifestKey s j = None) →
  bucket st' !! manifestKey s j = None.
Proof.
  unfold remove_checkpoint. intros ([] & st1 & H1 & H)%bind_inv_ok Hj.
  assert (Hg : bucket st1 !! manifestKey s j = None).
  { unfold wrap in H1. destruct (RemoveObject _ st) as [[[]|e] st2] eqn:E; simplify_eq/=.
    apply s3_write_ok in E as [-> _].
    destruct Hj as [->|Hj]; [apply lookup_delete_eq|].
    rewrite lookup_delete. by case_decide. }
  revert H. intros (r & st2 & H2 & [= <-])%bind_inv_ok.
  assert (Hk : keeps (onb (λ b, b !! manifestKey s j = None))
    (attempt (RemoveObject (checkpointArchiveKey s id)))).
  { apply keeps_attempt, (keeps_RemoveObject (λ b, b !! manifestKey s j = None)).
    intros b Hb. rewrite lookup_delete. by case_decide. }
  specialize (Hk st1 Hg). by rewrite H2 in Hk.
Qed.

Lemma hoare_remove_doomed :
  hoare (onb (eq b0)) (forM doomed (remove_checkpoint s)) (λ r st,
    thinned (bucket st) ∧
    match r with
    | Ok _ => ∀ id, id ∈ doomed → bucket st !! manifestKey s id = None
    | Err _ => True
    end).
Proof.
  eapply hoare_conseq with (P := λ st, doomed ⊆ doomed ∧ thinned (bucket st) ∧
    ∀ id, id ∈ doomed → id ∈ doomed ∨ bucket st !! manifestKey s id = None);
    [|intros st <-; split_and!; [done|apply thinned_refl|by left]
     |intros r st H; exact H].
  eapply (hoare_forM (λ l st, l ⊆ doomed ∧ thinned (bucket st) ∧
    ∀ id, id ∈ doomed → id ∈ l ∨ bucket st !! manifestKey s id = None)).
  - intros x l st (Hl & Ht & Hg). pose proof (keeps_remove_checkpoint x
      ltac:(set_solver) st Ht) as Ht'.
    destruct (remove_checkpoint s x st) as [[[]|e] st'] eqn:E; cbn in *; [|by split].
    split_and!; [set_solver|done|]. intros id Hid.
    destruct (decide (id ∈ l)) as [|Hn]; [by left|right].
    eapply remove_checkpoint_gone; [done|]. set_solver.
  - intros st (_ & Ht & Hg). split; [done|]. set_solver.
Qed.

Lemma reads_GetManifest b id :
  reads b (GetManifest s id)
    (λ m, ∃ body, b !! manifestKey s id = Some body ∧ json_unmarshal body = Some m).
Proof.
  eapply reads_bind; [apply reads_GetObject|]. intros body Hb. cbn.
  destruct (json_unmarshal body) eqn:E; [apply reads_ret; by exists body|apply reads_throw].
Qed.

Lemma reads_mark b live id :
  reads b (mark s live id) (λ live', live ⊆ live' ∧ marked [id] b live').
Proof.
  eapply reads_bind; [apply reads_wrap, reads_GetManifest|].
  intros m (body & Hb & Hm). apply reads_ret. split; [set_solver|].
  intros id' body' m' e ->%list_elem_of_singleton ? ? He. simplify_eq.
  apply elem_of_union_l, elem_of_list_to_set, list_elem_of_fmap. eauto.
Qed.

Lemma reads_mark_all b ids live :
  reads b (foldM (mark s) ids live) (λ live', live ⊆ live' ∧ marked ids b live').
Proof.
  revert live. induction ids as [|id ids IH]; intros live; cbn.
  { apply reads_ret. split; [done|]. by intros ????[]%elem_of_nil. }
  eapply reads_bind; [apply reads_mark|]. intros live1 [H1 Hm1].
  eapply reads_mono; [apply IH|]. intros live2 [H2 Hm2].
  split; [set_solver|]. intros id' body m e [->|Hin]%elem_of_cons ???; [|eauto].
  eapply H2, Hm1; eauto. by apply list_elem_of_singleton.
Qed.

Lemma swept_delete live b1 b k :
  HasPrefix k (objPrefix s) = true → TrimPrefix k (objPrefix s) ∉ live →
  swept live b1 b → swept live b1 (delete k b).
Proof.
  intros [h ->]%HasPrefix_iff. rewrite TrimPrefix_app. intros Hh Hb k'.
  destruct (decide (objPrefix s +:+ h = k')) as [<-|Hne].
  - right. rewrite lookup_delete_eq. split; [done|]. exists h. split; [done|].
    unfold objectKey. by rewrite str_app_assoc.
  - rewrite lookup_delete_ne by done. apply Hb.
Qed.

Lemma keeps_sweep live b1 keys :
  (∀ k, k ∈ keys → HasPrefix k (objPrefix s) = true) →
  keeps (onb (swept live b1)) (forM keys (sweep_one s live)).
Proof.
  intros Hkeys. apply keeps_forM. intros k Hk. unfold sweep_one.
  apply keeps_bind; [eapply keeps_reads; intros; apply reads_wrap, reads_syscall|].
  intros _. repeat case_decide; [apply keeps_ret..|].
  apply keeps_wrap, keeps_RemoveObject. intros b. apply swept_delete; auto.
Qed.

(** [Prune] leaves one of the buckets [pruned] describes, whatever fails. *)
Lemma Prune_pruned st : bucket st = b0 → pruned (bucket (Prune s st).2).
Proof.
  intros Hst. assert (Hid : pruned b0).
  { exists b0. split; [apply thinned_refl|by left]. }
  unfold Prune. destruct (readOnly s); [cbn; by rewrite Hst|]. rewrite bind_run.
  destruct (reads_wrap b0 "list checkpoints" _ _ (reads_ListCheckpoints s b0) st Hst)
    as [Hb1 Hl]. destruct (wrap _ (ListCheckpoints s) st) as [[all|e] st1]; cbn in *;
    [|by rewrite Hb1]. rewrite (Hl all eq_refl). clear Hl all. rewrite bind_run.
  destruct (reads_wrap b0 "list pin markers (aborting prune)" _ _
    (reads_ListPinMarkers s b0) st1 Hb1) as [Hb2 Hl].
  destruct (wrap _ (ListPinMarkers s) st1) as [[mk|e] st2]; cbn in *; [|by rewrite Hb2].
  rewrite (Hl mk eq_refl). clear Hl mk. fold plan.
  rewrite (surjective_pairing plan). fold survivors doomed. rewrite bind_run.
  destruct (hoare_remove_doomed st2 (eq_sym Hb2)) as [Hth Hgone].
  destruct (forM doomed _ st2) as [[[]|e] st3]; cbn in *; [|by exists (bucket st3); eauto].
  assert (Hs3 : pruned (bucket st3)) by (exists (bucket st3); eauto).
  rewrite bind_run. destruct (reads_mark_all (bucket st3) survivors ∅ st3 eq_refl)
    as [Hb4 Hl]. destruct (foldM _ _ _ st3) as [[live|e] st4]; cbn in *; [|by rewrite Hb4].
  destruct (Hl live eq_refl) as [_ Hmk]. clear Hl. rewrite bind_run.
  destruct (reads_wrap (bucket st3) "list objects" _ _
    (reads_ListObjects _ (objPrefix s)) st4 Hb4) as [Hb5 Hl].
  destruct (wrap _ (ListObjects _) st4) as [[keys|e] st5]; cbn in *; [|by rewrite Hb5].
  rewrite (Hl keys eq_refl). exists (bucket st3). split; [done|right].
  split; [done|]. exists live. split; [done|]. apply keeps_sweep.
  - by intros k [_ Hk]%elem_of_keys_below.
  - rewrite Hb5. intros k. by left.
Qed.
End prune.

Section prune_theorems.
Context {P : Platform} (s : Store).

(** Every stored manifest can be restored: the objects its entries name are in
    the bucket. *)
Definition intact (b : gmap string string) : Prop :=
  ∀ id body m e, id ≠ "" → b !! manifestKey s id = Some body →
    json_unmarshal body = Some m → e ∈ m_Entries m →
    is_Some (b !! objectKey s (e_Hash e)).

Lemma thinned_keeps b0 b k :
  thinned s b0 b → (∀ id, id ∈ doomed s b0 → k ≠ manifestKey s id ∧ k ≠ checkpointArchiveKey s id) →
  b !! k = b0 !! k.
Proof. intros Hb Hk. destruct (Hb k) as [|(_ & id & Hid & Hor)]; [done|]. destruct (Hk id Hid). tauto. Qed.

Lemma thinned_object b0 b h : thinned s b0 b → b !! objectKey s h = b0 !! objectKey s h.
Proof. intros Hb. eapply thinned_keeps; eauto with keys. Qed.

(** The three ways out of [pruned], for the two kinds of keys. *)
Lemma pruned_outside b0 b k :
  pruned s b0 b → (∀ h, k ≠ objectKey s h) →
  (∀ id, id ∈ doomed s b0 → k ≠ manifestKey s id ∧ k ≠ checkpointArchiveKey s id) →
  b !! k = b0 !! k.
Proof.
  intros (b1 & Ht & Hor) Hk Hd. rewrite <-(thinned_keeps b0 b1 k) by done.
  destruct Hor as [->|(_ & live & _ & Hsw)]; [done|].
  destruct (Hsw k) as [|(_ & h & _ & ->)]; [done|]. by destruct (Hk h).
Qed.

Lemma survivor_keys b0 id :
  id ∈ survivors s b0 → ∀ j, j ∈ doomed s b0 →
  manifestKey s id ≠ manifestKey s j ∧ manifestKey s id ≠ checkpointArchiveKey s j ∧
  checkpointArchiveKey s id ≠ manifestKey s j ∧
  checkpointArchiveKey s id ≠ checkpointArchiveKey s j.
Proof.
  intros Hid j Hj. assert (Hne : id ≠ j).
  { intros ->. by eapply survivor_not_doomed. }
  split_and!.
  - by intros ?%(inj (manifestKey s)).
  - apply manifestKey_ne_checkpointArchiveKey.
  - intros H. symmetry in H. by apply manifestKey_ne_checkpointArchiveKey in H.
  - intros H. do 2 apply (inj (String.append _)) in H. by apply str_app_inj_r in H.
Qed.

Lemma pruned_survivor b0 b id :
  pruned s b0 b → id ∈ survivors s b0 →
  b !! manifestKey s id = b0 !! manifestKey s id ∧
  b !! checkpointArchiveKey s id = b0 !! checkpointArchiveKey s id ∧
  ∀ body m e, b0 !! manifestKey s id = Some body → json_unmarshal body = Some m →
    e ∈ m_Entries m → b !! objectKey s (e_Hash e) = b0 !! objectKey s (e_Hash e).
Proof.
  intros Hb Hid. pose proof (survivor_keys b0 id Hid) as Hk. split_and!.
  - eapply pruned_outside; [done|intros h; apply not_eq_sym; auto with keys|].
    intros j Hj. destruct (Hk j Hj) as (?&?&?&?). done.
  - eapply pruned_outside; [done|intros h; apply not_eq_sym; auto with keys|].
    intros j Hj. destruct (Hk j Hj) as (?&?&?&?). done.
  - intros body m e Hbody Hm He. destruct Hb as (b1 & Ht & Hor).
    rewrite <-(thinned_object b0 b1) by done.
    destruct Hor as [->|(_ & live & Hmk & Hsw)]; [done|].
    destruct (Hsw (objectKey s (e_Hash e))) as [|(_ & h & Hh & Heq)]; [done|].
    apply (inj (objectKey s)) in Heq as <-. destruct Hh.
    eapply Hmk; [exact Hid| |exact Hm|exact He].
    rewrite <-Hbody. apply thinned_keeps; [done|].
    intros j Hj. by destruct (Hk j Hj) as (?&?&?&?).
Qed.

Lemma pruned_intact b0 b : pruned s b0 b → intact b0 → intact b.
Proof.
  intros Hb Hi id body m e Hne Hbody Hm He.
  assert (Hold : b0 !! manifestKey s id = Some body).
  { destruct Hb as (b1 & Ht & Hor). assert (Hb1 : b1 !! manifestKey s id = Some body).
    { destruct Hor as [->|(_ & live & _ & Hsw)]; [done|].
      destruct (Hsw (manifestKey s id)) as [Heq|(? & ?)]; congruence. }
    destruct (Ht (manifestKey s id)) as [Heq|(? & ?)]; congruence. }
  assert (Hor : b !! objectKey s (e_Hash e) = b0 !! objectKey s (e_Hash e)).
  { pose proof Hb as (b1 & Ht & [->|(Hgone & live & _ & Hsw)]).
    { by apply thinned_object. }
    eapply (pruned_survivor b0 b id); eauto.
    destruct (survivors_doomed s b0) as [_ Hsd].
    destruct (proj1 (Hsd id)) as [|Hd]; [by apply elem_of_checkpoints; eauto|done|].
    apply Hgone in Hd. destruct (Hsw (manifestKey s id)) as [Heq|(? & ?)]; congruence. }
  rewrite Hor. eauto.
Qed.

(** Which checkpoints retention keeps, in terms of the bucket. *)
Lemma elem_of_doomed b0 id :
  id ∈ doomed s b0 ↔
  (0 < keep s)%Z ∧ id ∉ pinnedCheckpoints s ∪ pin_markers s b0 ∧
  ∃ n, checkpoints s b0 !! n = Some id ∧ (keep s ≤ Z.of_nat n)%Z.
Proof.
  unfold doomed, planRetention. destruct (Z.leb_spec (keep s) 0) as [Hk|Hk]; cbn.
  - split; [by intros ?%not_elem_of_nil|lia].
  - rewrite plan_from_doomed by apply NoDup_checkpoints. cbn. naive_solver.
Qed.

Lemma retained_survivor b0 n id :
  checkpoints s b0 !! n = Some id →
  (keep s ≤ 0)%Z ∨ (Z.of_nat n < keep s)%Z ∨ id ∈ pinnedCheckpoints s ∪ pin_markers s b0 →
  id ∈ survivors s b0.
Proof.
  intros Hn Hr. destruct (survivors_doomed s b0) as [_ Hsd].
  destruct (proj1 (Hsd id)) as [|Hd]; [by eapply list_elem_of_lookup_2|done|].
  apply elem_of_doomed in Hd as (Hk & Hp & n' & Hn' & Hle).
  assert (n = n') as <- by (eapply NoDup_lookup; eauto using NoDup_checkpoints).
  destruct Hr as [|[|]]; [lia..|done].
Qed.

Lemma Prune_keeps_intact : keeps (onb intact) (Prune s).
Proof. intros st Hi. eapply pruned_intact; [by apply Prune_pruned|done]. Qed.
End prune_theorems.

(** C11: a checkpoint that is among the [keep] newest, or pinned by configuration,
    or named by a pin marker, keeps its manifest, its archive and every object
    the manifest names, byte for byte, however the storage calls of the prune
    fail. *)
Theorem Prune_preserves_retained {P : Platform} (s : Store) (st : Sys) (n : nat) (id : string) :
  checkpoints s (bucket st) !! n = Some id →
  (keep s ≤ 0)%Z ∨ (Z.of_nat n < keep s)%Z ∨
    id ∈ pinnedCheckpoints s ∪ pin_markers s (bucket st) →
  let b := bucket st in
  let b' := bucket (Prune s st).2 in
  b' !! manifestKey s id = b !! manifestKey s id ∧
  b' !! checkpointArchiveKey s id = b !! checkpointArchiveKey s id ∧
  ∀ body m e, b !! manifestKey s id = Some body → json_unmarshal body = Some m →
    e ∈ m_Entries m → b' !! objectKey s (e_Hash e) = b !! objectKey s (e_Hash e).
Proof.
  intros Hn Hr. apply pruned_survivor; [by apply Prune_pruned|].
  by eapply retained_survivor.
Qed.

(** A prune touches nothing but objects and the manifests and archives of
    checkpoints it was to delete; keys it leaves present keep their bytes. A
    read-only store, and a listing of checkpoints or of pin markers that fails,
    changes nothing at all. *)
Theorem Prune_frame {P : Platform} (s : Store) (st : Sys) :
  let b := bucket st in
  let b' := bucket (Prune s st).2 in
  (∀ k, b' !! k = b !! k ∨ b' !! k = None ∧
     ((∃ h, k = objectKey s h) ∨
      ∃ n id, checkpoints s b !! n = Some id ∧ (0 < keep s ≤ Z.of_nat n)%Z ∧
        id ∉ pinnedCheckpoints s ∪ pin_markers s b ∧
        (k = manifestKey s id ∨ k = checkpointArchiveKey s id))) ∧
  (readOnly s = true → Prune s st = (Err ErrReadOnly, st)) ∧
  (head (script st) ≠ None → head (script st) ≠ Some Done → b' = b) ∧
  (head (tail (script st)) ≠ None → head (tail (script st)) ≠ Some Done → b' = b).
Proof.
  cbn. split_and!.
  - intros k. destruct (Prune_pruned s (bucket st) st eq_refl) as (b1 & Ht & Hor).
    assert (Hk : b1 !! k = bucket st !! k ∨ b1 !! k = None ∧ ∃ n id,
      checkpoints s (bucket st) !! n = Some id ∧ (0 < keep s ≤ Z.of_nat n)%Z ∧
      id ∉ pinnedCheckpoints s ∪ pin_markers s (bucket st) ∧
      (k = manifestKey s id ∨ k = checkpointArchiveKey s id)).
    { destruct (Ht k) as [|(Hno & id & Hd & Hk)]; [by left|right]. split; [done|].
      apply elem_of_doomed in Hd as (? & ? & n & ? & ?). exists n, id. split_and!; done || lia. }
    destruct Hor as [->|(_ & live & _ & Hsw)]; [naive_solver|].
    destruct (Hsw k) as [->|(? & h & _ & ->)]; naive_solver.
  - intros Hro. unfold Prune. by rewrite Hro.
  - intros Hs Hd. unfold Prune. destruct (readOnly s); [done|].
    destruct st as [b [|o l] ag t p u d]; cbn in *; [done|]. rewrite bind_run.
    unfold wrap at 1, ListCheckpoints, ListObjects. rewrite !bind_run.
    unfold syscall, pop. rewrite bind_run. cbn. by destruct (decide (o = Done)) as [->|].
  - intros Hs Hd. unfold Prune. destruct (readOnly s); [done|].
    destruct st as [b [|o [|o' l]] ag t p u d]; cbn in *; [done..|]. rewrite bind_run.
    unfold wrap at 1, ListCheckpoints, ListObjects. rewrite !bind_run.
    unfold syscall at 1, pop. rewrite bind_run. cbn.
    destruct (decide (o = Done)) as [->|]; [|done]. cbn. rewrite bind_run.
    unfold wrap at 1, ListPinMarkers, ListObjects. rewrite !bind_run.
    unfold syscall, pop. rewrite bind_run. cbn. by destruct (decide (o' = Done)) as [->|].
Qed.
