(* ===== verification/WorkspaceSnapshotFacts.v ===== *)
(** * WorkspaceSnapshotFacts: what a checkpoint and its restore guarantee.

    [Snapshot] against [captured], the files of the tree a checkpoint is to hold:
    what is in the bucket when it reports success, that it never leaves a manifest
    with missing objects behind, that a refused snapshot moves nothing; [Restore]:
    nothing unverified is written, and a checkpoint comes back as it was taken. *)

From S2P Require Import Prelude.
From S2P Require Import WorkspaceStore.
From S2P Require Import WorkspaceStoreFacts.

Local Open Scope string_scope.

(** ** What a checkpoint captures *)

Section captured.
Context {P : Platform}.

Definition entry_of (x : string * Node) : list Entry :=
  match x.2 with
  | Irregular => []
  | Regular mode content =>
      [mkEntry x.1 (sha256hex content) mode (Z.of_nat (String.length content))]
  end.

(** The entries of a tree: its regular files outside skipped directories. *)
Definition captured (root : gmap string Node) : list Entry :=
  merge_sort entry_le (walk root ≫= entry_of).

Lemma elem_of_walk root p node :
  (p, node) ∈ walk root ↔ root !! p = Some node ∧ skipped p = false.
Proof.
  unfold walk. rewrite elem_of_merge_sort, list_elem_of_filter, elem_of_map_to_list. tauto.
Qed.

Lemma elem_of_captured root e :
  e ∈ captured root ↔ ∃ content,
    root !! e_Path e = Some (Regular (e_Mode e) content) ∧ skipped (e_Path e) = false ∧
    e_Hash e = sha256hex content ∧ e_Size e = Z.of_nat (String.length content).
Proof.
  unfold captured. rewrite elem_of_merge_sort, list_elem_of_bind. split.
  - intros ([p [mode c|]] & He & Hw); [|by apply not_elem_of_nil in He].
    apply list_elem_of_singleton in He as ->. apply elem_of_walk in Hw as []. cbn. eauto.
  - intros (c & Hc & Hs & Hh & Hz). exists (e_Path e, Regular (e_Mode e) c).
    rewrite elem_of_walk. split; [|done]. apply list_elem_of_singleton. cbn.
    destruct e; cbn in *. by subst.
Qed.
End captured.

(** ** Programs and the system state *)

Section stable.
Context {P : Platform} (I : Sys → Prop) (Hscript : ∀ st l, I st → I (set_script l st)).

Lemma keeps_syscall w : keeps I (syscall w).
Proof.
  intros st Hst. unfold syscall, pop. rewrite bind_run.
  destruct (script st) as [|o l]; cbn; [by apply Hscript|].
  by destruct (decide (o = Done)); apply Hscript.
Qed.

Lemma keeps_write w f :
  (∀ st, I st → I (set_bucket (f (bucket st)) st)) → keeps I (s3_write w f).
Proof.
  intros Hf st Hst. unfold s3_write, pop. rewrite bind_run.
  destruct (script st) as [|[] l]; cbn; rewrite ?bind_run; cbn;
    try apply Hscript; try done; apply (Hf (set_script _ st)), Hscript, Hst.
Qed.

Lemma keeps_StatObject k : keeps I (StatObject k).
Proof.
  apply keeps_bind; [apply keeps_syscall|]. intros _.
  apply keeps_bind; [apply keeps_gets|]. intros b.
  destruct (b !! k); [apply keeps_ret|apply keeps_throw].
Qed.

Lemma keeps_wrap' {A} c (m : M A) : keeps I m → keeps I (wrap c m).
Proof.
  intros Hm st Hst. specialize (Hm st Hst). unfold wrap.
  by destruct (m st) as [[a|e] st'].
Qed.
End stable.

(** ** The walk of a snapshot *)

Section walk.
Context {P : Platform} (s : Store) (b0 : gmap string string).

(** [b0] with objects added or rewritten. *)
Definition grown (b : gmap string string) : Prop :=
  ∀ k, b !! k = b0 !! k ∨ (∃ h, k = objectKey s h) ∧ is_Some (b !! k).

Definition present (entries : list Entry) (b : gmap string string) : Prop :=
  ∀ e, e ∈ entries → is_Some (b !! objectKey s (e_Hash e)).

Lemma grown_insert b h v : grown b → grown (<[objectKey s h := v]> b).
Proof.
  intros Hb k. destruct (decide (objectKey s h = k)) as [<-|Hne].
  - right. rewrite lookup_insert_eq. eauto.
  - rewrite lookup_insert_ne by done. apply Hb.
Qed.

Lemma present_insert es b k v : present es b → present es (<[k := v]> b).
Proof. intros Hb e He. apply lookup_insert_is_Some'. right. by apply Hb. Qed.

Lemma keeps_putIfAbsent (J : gmap string string → Prop) h c n :
  (∀ b v, J b → J (<[objectKey s h := v]> b)) → keeps (onb J) (putIfAbsent s h c n).
Proof.
  intros HJ. unfold putIfAbsent.
  apply keeps_bind; [by apply keeps_attempt, keeps_StatObject|]. intros [_|e]; [apply keeps_ret|].
  apply keeps_bind; [by apply keeps_syscall|]. intros _.
  apply keeps_bind; [intros st Hst; unfold reread; by destruct (agent st)|].
  intros body. destruct (_ <? _)%Z; [apply keeps_throw|].
  apply keeps_bind; [apply keeps_PutObject; auto|]. intros _. apply keeps_ret.
Qed.

Lemma putIfAbsent_present h c n st r st' :
  putIfAbsent s h c n st = (Ok r, st') → is_Some (bucket st' !! objectKey s h).
Proof.
  unfold putIfAbsent. intros (x & st1 & H1 & H)%bind_inv_ok.
  destruct (reads_attempt (bucket st) _ _ (reads_StatObject _ (objectKey s h)) st eq_refl)
    as [Hb Hx]. rewrite H1 in Hb, Hx. cbn in Hb, Hx. specialize (Hx x eq_refl).
  destruct x as [u|e].
  { inversion H; subst. by rewrite Hb. }
  apply bind_inv_ok in H as (? & st2 & _ & H). apply bind_inv_ok in H as (body & st3 & _ & H).
  destruct (_ <? _)%Z; [done|]. apply bind_inv_ok in H as ([] & st4 & Hput & [= _ <-]).
  apply s3_write_ok in Hput as [-> _]. rewrite lookup_insert_eq. eauto.
Qed.

Lemma visit_grown entries x st :
  grown (bucket st) → present entries (bucket st) →
  grown (bucket (visit s entries x st).2) ∧
  ∀ es, (visit s entries x st).1 = Ok es →
    es = (entries ++ entry_of x)%list ∧ present es (bucket (visit s entries x st).2).
Proof.
  intros Hg Hp. set (J b := grown b ∧ present entries b).
  assert (Hk : keeps (onb J) (visit s entries x)).
  { unfold visit. destruct x as [rel node].
    apply keeps_bind; [by apply keeps_syscall|]. intros _.
    destruct node as [mode c|]; [|apply keeps_ret].
    apply keeps_bind; [by apply keeps_syscall|]. intros _.
    apply keeps_bind; [|intros; apply keeps_ret].
    apply keeps_wrap, keeps_putIfAbsent. intros b v []. split;
      [by apply grown_insert|by apply present_insert]. }
  destruct (Hk st (conj Hg Hp)) as [Hg' Hp']. split; [done|].
  intros es Hes. destruct (visit s entries x st) as [r st'] eqn:E. cbn in *. subst r.
  unfold visit in E. destruct x as [rel [mode c|]].
  all: apply bind_inv_ok in E as (? & st1 & _ & E).
  2: { injection E as <- <-. by rewrite app_nil_r. }
  apply bind_inv_ok in E as (? & st2 & _ & E).
  apply bind_inv_ok in E as (r & st3 & Hput & [= <- <-]). split; [done|].
  unfold wrap in Hput. destruct (putIfAbsent _ _ _ _ st2) as [[r'|e] st4] eqn:E; simplify_eq/=.
  apply putIfAbsent_present in E. intros e [He|He%list_elem_of_singleton]%elem_of_app;
    [by apply Hp'|by subst e].
Qed.

Lemma walk_grown l entries st :
  grown (bucket st) → present entries (bucket st) →
  grown (bucket (foldM (visit s) l entries st).2) ∧
  ∀ es, (foldM (visit s) l entries st).1 = Ok es →
    es = (entries ++ (l ≫= entry_of))%list ∧ present es (bucket (foldM (visit s) l entries st).2).
Proof.
  revert entries st. induction l as [|x l IH]; intros entries st Hg Hp; cbn.
  { split; [done|]. intros es [= <-]. by rewrite app_nil_r. }
  rewrite bind_run. destruct (visit_grown entries x st Hg Hp) as [Hg1 Hes].
  destruct (visit s entries x st) as [[es1|e] st1]; cbn in *; [|done].
  destruct (Hes es1 eq_refl) as [-> Hp1]. destruct (IH _ st1 Hg1 Hp1) as [Hg2 Hes2].
  split; [done|]. intros es Hok. destruct (Hes2 es Hok) as [-> Hp2].
  rewrite <-app_assoc. split; [done|]. by rewrite <-app_assoc in Hp2.
Qed.
End walk.

(** ** Strings a manifest is made of *)

Lemma hex_string_utf8 s : hex_string s = true → ValidString s = true.
Proof.
  unfold ValidString. induction s as [|c s IH]; cbn; [done|].
  intros [Hc Hs]%andb_true_iff. unfold utf8_lead.
  replace (nat_of_ascii c <=? 127)%nat with true; [auto|].
  symmetry. apply Nat.leb_le.
  apply orb_true_iff in Hc as [[_ H]%andb_true_iff|[_ H]%andb_true_iff];
    apply Nat.leb_le in H; lia.
Qed.

Lemma hex_string_app s t : hex_string (s +:+ t) = hex_string s && hex_string t.
Proof.
  induction s as [|c s IH]; rewrite ?str_app_cons; [done|]. cbn. by rewrite IH, andb_assoc.
Qed.

Lemma hex_string_take n s : hex_string s = true → hex_string (str_take n s) = true.
Proof.
  revert s. induction n as [|n IH]; intros [|c s]; cbn; try done.
  intros [-> ?]%andb_true_iff. by apply IH.
Qed.

Lemma hex_digit_hex n : (0 ≤ n < 16)%Z → hex_string (String (hex_digit n) "") = true.
Proof.
  intros Hn. assert (Hall : Forall (λ i, hex_string (String (hex_digit (Z.of_nat i)) "") = true) (seq 0 16))
    by (repeat constructor).
  rewrite Forall_seq in Hall. specialize (Hall (Z.to_nat n)). rewrite Z2Nat.id in Hall by lia.
  apply Hall. lia.
Qed.

Lemma hex_byte_range b : (0 ≤ Z.land b 255 < 256)%Z.
Proof. change 255%Z with (Z.ones 8). rewrite Z.land_ones by lia. apply Z.mod_pos_bound. lia. Qed.

Lemma hex_byte_digits b :
  (0 ≤ b < 256)%Z → (0 ≤ Z.shiftr b 4 < 16)%Z ∧ (0 ≤ Z.land b 15 < 16)%Z.
Proof.
  intros Hb. rewrite Z.shiftr_div_pow2 by lia. change 15%Z with (Z.ones 4).
  rewrite Z.land_ones by lia. split.
  - split; [apply Z.div_pos; lia|apply Z.div_lt_upper_bound; lia].
  - apply Z.mod_pos_bound. lia.
Qed.

Lemma hex_be_hex n t : hex_string (hex_be n t) = true.
Proof.
  induction n as [|n IH]; cbn [hex_be]; [done|]. unfold hex_byte.
  destruct (hex_byte_digits _ (hex_byte_range (Z.shiftr t (8 * Z.of_nat n)))) as [H1 H2].
  apply hex_digit_hex in H1, H2. cbn in H1, H2 |- *. rewrite andb_true_r in H1, H2.
  by rewrite H1, H2, IH.
Qed.

(** ** Snapshot *)

Section snapshot.
Context {P : Platform} {L : PlatformLaws P} (s : Store).

Lemma newID_hex t p : hex_string (newID t p) = true.
Proof.
  unfold newID. rewrite hex_string_app, hex_be_hex.
  apply hex_string_take, sha256hex_hex.
Qed.

Lemma newID_nonempty t p : newID t p ≠ "".
Proof. unfold newID. cbn [hex_be]. unfold hex_byte. rewrite str_app_cons. done. Qed.

(** The strings of a snapshot that encoding/json carries unchanged. *)
Definition snapshot_utf8 (root : gmap string Node) (strings : list string) : bool :=
  forallb ValidString (workspaceID s :: strings)
  && forallb (λ e, ValidString (e_Path e)) (captured root).

Definition manifest_of (root : gmap string Node) (name desc trigger parent : string) (t p : Z)
    : Manifest :=
  mkManifest (newID t p) (workspaceID s) parent name desc trigger t (captured root).

Lemma snapshot_manifest_utf8 root name desc trigger parent t p :
  snapshot_utf8 root [name; desc; trigger; parent] = true →
  manifest_utf8 (manifest_of root name desc trigger parent t p) = true.
Proof.
  unfold snapshot_utf8, manifest_utf8. cbn [forallb manifest_of m_ID m_WorkspaceID
    m_Parent m_Name m_Description m_Trigger m_Entries].
  intros [Hs He]%andb_true_iff. rewrite !andb_true_iff in Hs.
  destruct Hs as (Hs1 & Hs2 & Hs3 & Hs4 & Hs5 & _).
  rewrite Hs1, Hs2, Hs3, Hs4, Hs5, (hex_string_utf8 _ (newID_hex t p)). cbn.
  rewrite forallb_forall in He |- *. intros e Hin. rewrite (He e Hin). cbn.
  apply list_elem_of_In, elem_of_captured in Hin as (c & _ & _ & -> & _).
  apply hex_string_utf8, sha256hex_hex.
Qed.

Lemma grown_intact b0 b : grown s b0 b → intact s b0 → intact s b.
Proof.
  intros Hg Hi id body m e Hne Hb Hm He.
  assert (H0 : b0 !! manifestKey s id = Some body).
  { destruct (Hg (manifestKey s id)) as [<-|[[h Hh] _]]; [done|].
    symmetry in Hh. by apply objectKey_ne_manifestKey in Hh. }
  destruct (Hg (objectKey s (e_Hash e))) as [->|[_ ?]]; [by eapply Hi|done].
Qed.

Lemma intact_insert_other b k v :
  (∀ id, k ≠ manifestKey s id) → intact s b → intact s (<[k := v]> b).
Proof.
  intros Hk Hi id body m e Hne Hb Hm He. rewrite lookup_insert_ne in Hb by done.
  apply lookup_insert_is_Some'. right. eauto.
Qed.

Lemma intact_insert_manifest b m :
  manifest_utf8 m = true → present s (m_Entries m) b → intact s b →
  intact s (<[manifestKey s (m_ID m) := json_marshal m]> b).
Proof.
  intros Hu Hp Hi id body m' e Hne Hb Hm He.
  apply lookup_insert_is_Some'. right.
  destruct (decide (m_ID m = id)) as [<-|Hid].
  - rewrite lookup_insert_eq in Hb. injection Hb as <-.
    rewrite json_roundtrip in Hm by done. injection Hm as <-. by apply Hp.
  - rewrite lookup_insert_ne in Hb by (by intros ?%(inj (manifestKey s))). eauto.
Qed.

(** The calls after the manifest is written, up to the prune. *)
Lemma keeps_archive_step (J : gmap string string → Prop) root id :
  (∀ b v, J b → J (<[archiveKey s := v]> b)) →
  (∀ b v, J b → J (<[checkpointArchiveKey s id := v]> b)) →
  keeps (onb J) (archive_step s root id).
Proof.
  intros Ha Hc. unfold archive_step. destruct (noArchive s); [apply keeps_ret|].
  apply keeps_bind; [by apply keeps_attempt, keeps_syscall|].
  intros [_|e]; [|apply keeps_ret].
  apply keeps_bind; [apply keeps_attempt, keeps_bind;
    [by apply keeps_syscall|intros _; apply keeps_PutObject; auto]|]. intros _.
  apply keeps_bind; [apply keeps_attempt, keeps_bind;
    [by apply keeps_syscall|intros _; apply keeps_PutObject; auto]|]. intros _.
  apply keeps_ret.
Qed.

(** What follows the manifest: it keeps what the pointer, the archives and the
    prune keep. *)
Lemma keeps_snapshot_tail root id d (m : Manifest) :
  keeps (onb (intact s))
    (setLatest s id ≫= λ _, modify (set_digest d) ≫= λ _,
     archive_step s root id ≫= λ _, attempt (Prune s) ≫= λ _, mret m).
Proof.
  apply keeps_bind.
  { apply keeps_PutObject. intros b. apply intact_insert_other.
    intros j. apply not_eq_sym. auto with keys. }
  intros _. apply keeps_bind; [by apply keeps_modify|]. intros _.
  apply keeps_bind; [apply keeps_archive_step; intros b v; apply intact_insert_other;
    intros j; apply not_eq_sym; auto with keys|].
  intros _. apply keeps_bind; [apply keeps_attempt, Prune_keeps_intact|].
  intros _. apply keeps_ret.
Qed.

Lemma walk_spec root st :
  grown s (bucket st) (bucket (foldM (visit s) (walk root) [] st).2) ∧
  ∀ es, (foldM (visit s) (walk root) [] st).1 = Ok es →
    merge_sort entry_le es = captured root ∧
    present s (captured root) (bucket (foldM (visit s) (walk root) [] st).2).
Proof.
  destruct (walk_grown s (bucket st) (walk root) [] st) as [Hg Hes].
  { intros k. by left. } { by intros e ?%not_elem_of_nil. }
  split; [done|]. intros es Hok. destruct (Hes es Hok) as [-> Hp].
  split; [done|]. intros e He. apply Hp. unfold captured in He.
  by rewrite elem_of_merge_sort in He.
Qed.

Lemma Snapshot_keeps_intact root name desc trigger parent :
  snapshot_utf8 root [name; desc; trigger; parent] = true →
  keeps (onb (intact s)) (Snapshot s root name desc trigger parent).
Proof.
  intros Hu st Hi. unfold Snapshot. destruct (readOnly s); [done|].
  do 2 (rewrite bind_run; cbn [gets]). rewrite bind_run.
  destruct (walk_spec root st) as [Hg Hes].
  destruct (foldM _ _ _ st) as [[es|e] st1]; cbn in Hg, Hes; cbn [snd fst];
    [|by eapply grown_intact].
  destruct (Hes es eq_refl) as [-> Hp]. clear Hes.
  fold (manifest_of root name desc trigger parent (now st) (pid st)).
  set (m := manifest_of _ _ _ _ _ _ _).
  assert (Hi1 : intact s (bucket st1)) by (by eapply grown_intact).
  destruct (decide (captured root = [])); [done|]. rewrite bind_run. cbn [gets].
  case_decide; [done|]. set (J b := intact s b ∧ present s (captured root) b).
  rewrite bind_run.
  assert (Hk : keeps (onb J) (wrap "write manifest" (PutObject (manifestKey s (newID (now st) (pid st))) (json_marshal m)))).
  { apply keeps_wrap, keeps_PutObject. intros b []. split; [|by apply present_insert].
    by apply (intact_insert_manifest b m); [apply snapshot_manifest_utf8|..]. }
  specialize (Hk st1 (conj Hi1 Hp)).
  destruct (wrap _ _ st1) as [[[]|e] st2]; cbn [snd] in *; [|apply Hk].
  destruct Hk as [Hi2 _]. revert Hi2. generalize st2. apply keeps_snapshot_tail.
Qed.

(** What the bucket holds between the archives and the prune of a snapshot
    taken over [b0] whose walk left [b1]. *)
Definition sealed (b0 b1 : gmap string string) (m : Manifest) (b : gmap string string) : Prop :=
  b !! manifestKey s (m_ID m) = Some (json_marshal m) ∧
  b !! latestKey s = Some (m_ID m) ∧
  present s (m_Entries m) b ∧
  (∀ j, is_Some (b !! manifestKey s j) ↔ j = m_ID m ∨ is_Some (b0 !! manifestKey s j)) ∧
  (∀ h, b !! objectKey s h = b1 !! objectKey s h).

Lemma sealed_insert b0 b1 m b k v :
  (∀ j, k ≠ manifestKey s j) → (∀ h, k ≠ objectKey s h) → k ≠ latestKey s →
  sealed b0 b1 m b → sealed b0 b1 m (<[k := v]> b).
Proof.
  intros Hk Ho Hl (Hm & Hlat & Hp & Hj & Hobj). split_and!.
  - by rewrite lookup_insert_ne.
  - by rewrite lookup_insert_ne.
  - by apply present_insert.
  - intros j. by rewrite lookup_insert_ne.
  - intros h. by rewrite lookup_insert_ne.
Qed.

Lemma sealed_archive_step b0 b1 m root id :
  keeps (onb (sealed b0 b1 m)) (archive_step s root id).
Proof.
  apply keeps_archive_step; intros b v; (apply sealed_insert;
    [intros j; apply not_eq_sym; auto with keys..|auto with keys]).
Qed.

Lemma sealed_intro b0 b m :
  grown s b0 b → present s (m_Entries m) b →
  sealed b0 b m (<[latestKey s := m_ID m]> (<[manifestKey s (m_ID m) := json_marshal m]> b)).
Proof.
  intros Hg Hp. split_and!.
  - rewrite lookup_insert_ne by (apply not_eq_sym; auto with keys). apply lookup_insert_eq.
  - apply lookup_insert_eq.
  - by do 2 apply present_insert.
  - intros j. rewrite lookup_insert_ne by (apply not_eq_sym; auto with keys).
    destruct (decide (m_ID m = j)) as [<-|Hne].
    { rewrite lookup_insert_eq. naive_solver. }
    rewrite lookup_insert_ne by (by intros ?%(inj (manifestKey s))).
    destruct (Hg (manifestKey s j)) as [->|[[h Hh] _]]; [naive_solver|].
    symmetry in Hh. by apply objectKey_ne_manifestKey in Hh.
  - intros h. by rewrite !lookup_insert_ne by (apply not_eq_sym; auto with keys).
Qed.

(** No storage call changes the digest a store remembers. *)
Lemma digest_write d w f : keeps (λ st, restoredDigest st = d) (s3_write w f).
Proof. by apply keeps_write. Qed.
Lemma digest_syscall d w : keeps (λ st, restoredDigest st = d) (syscall w).
Proof. by apply keeps_syscall. Qed.
Lemma digest_wrap {A} d w (m : M A) :
  keeps (λ st, restoredDigest st = d) m → keeps (λ st, restoredDigest st = d) (wrap w m).
Proof. apply keeps_wrap'. Qed.
Lemma digest_forM {A} d (l : list A) (f : A → M ()) :
  (∀ x, keeps (λ st, restoredDigest st = d) (f x)) →
  keeps (λ st, restoredDigest st = d) (forM l f).
Proof. intros Hf. apply keeps_forM. auto. Qed.
Lemma digest_foldM {A B} d (l : list A) (f : B → A → M B) (a : B) :
  (∀ a x, keeps (λ st, restoredDigest st = d) (f a x)) →
  keeps (λ st, restoredDigest st = d) (foldM f l a).
Proof. intros Hf. apply keeps_foldM. auto. Qed.

Ltac walk_digest :=
  repeat first
    [ progress intros
    | case_decide
    | match goal with
      | |- keeps _ (match ?x with _ => _ end) => destruct x eqn:?
      | |- keeps _ (let '(_, _) := ?x in _) => destruct x eqn:?
      end
    | apply digest_write | apply digest_syscall
    | apply keeps_bind | apply keeps_attempt | apply digest_wrap
    | apply digest_forM | apply digest_foldM
    | solve [eauto with keeps] ].

Lemma digest_Prune d : keeps (λ st, restoredDigest st = d) (Prune s).
Proof.
  unfold Prune, ListCheckpoints, ListPinMarkers, ListObjects, remove_checkpoint, mark,
    sweep_one, GetManifest, GetObject, RemoveObject. walk_digest.
Qed.

Lemma digest_archive_step d root id :
  keeps (λ st, restoredDigest st = d) (archive_step s root id).
Proof. unfold archive_step, PutObject. walk_digest. Qed.

Lemma Snapshot_ok_inv root name desc trigger parent st m st' :
  Snapshot s root name desc trigger parent st = (Ok m, st') →
  readOnly s = false ∧ captured root ≠ [] ∧
  m = manifest_of root name desc trigger parent (now st) (pid st) ∧
  (∃ b, sealed (bucket st) (bucket (foldM (visit s) (walk root) [] st).2) m b ∧
     pruned s b (bucket st')) ∧
  restoredDigest st' = manifestDigest m.
Proof.
  unfold Snapshot. destruct (readOnly s); [done|]. intros H. split; [done|].
  apply bind_inv_ok in H as (? & ? & [= <- <-] & H).
  apply bind_inv_ok in H as (? & ? & [= <- <-] & H).
  apply bind_inv_ok in H as (es & st1 & Hw & H).
  destruct (walk_spec root st) as [Hg Hes]. rewrite Hw in Hg, Hes.
  destruct (Hes es eq_refl) as [Hcap Hp]. rewrite Hcap in H. clear Hes Hcap.
  fold (manifest_of root name desc trigger parent (now st) (pid st)) in H.
  destruct (decide (captured root = [])); [done|]. split; [done|].
  apply bind_inv_ok in H as (? & ? & [= <- <-] & H). case_decide; [done|].
  apply bind_inv_ok in H as ([] & st2 & H2 & H).
  unfold wrap in H2. destruct (PutObject _ _ st1) as [[[]|e] st2'] eqn:E2; simplify_eq/=.
  apply s3_write_ok in E2 as [Hb2 Hd2].
  apply bind_inv_ok in H as ([] & st3 & H3 & H). apply s3_write_ok in H3 as [Hb3 _].
  apply bind_inv_ok in H as ([] & st4 & [= <-] & H).
  apply bind_inv_ok in H as ([] & st5 & H5 & H).
  apply bind_inv_ok in H as (r & st6 & H6 & [= <- <-]). split; [done|].
  set (m := manifest_of _ _ _ _ _ _ _) in *.
  assert (Hs5 : sealed (bucket st) (bucket st1) m (bucket st5)).
  { pose proof (sealed_archive_step (bucket st) (bucket st1) m root (newID (now st) (pid st))
      (set_digest (manifestDigest m) st3)) as Hk. rewrite H5 in Hk. apply Hk.
    cbn. rewrite Hb3, Hb2. by apply (sealed_intro _ _ m). }
  unfold attempt in H6. destruct (Prune s st5) as [r' st7] eqn:E7. injection H6 as <- ->.
  split.
  - exists (bucket st5). split; [by rewrite Hw|].
    pose proof (Prune_pruned s (bucket st5) st5 eq_refl) as Hpr. by rewrite E7 in Hpr.
  - pose proof (digest_archive_step (manifestDigest m) root (newID (now st) (pid st))
      (set_digest (manifestDigest m) st3) eq_refl) as Hd. rewrite H5 in Hd.
    pose proof (digest_Prune _ st5 Hd) as Hd'. by rewrite E7 in Hd'.
Qed.

(** Success means LATEST names the new checkpoint, whatever its id. *)
Lemma Snapshot_ok_latest root name desc trigger parent st m st' :
  Snapshot s root name desc trigger parent st = (Ok m, st') →
  m_Parent m = parent ∧ m_Trigger m = trigger ∧ m_ID m ≠ "" ∧
  bucket st' !! latestKey s = Some (m_ID m).
Proof.
  intros (_ & _ & -> & (b & (_ & Hl & _) & Hpr) & _)%Snapshot_ok_inv.
  split_and!; [done..|apply newID_nonempty|]. rewrite <-Hl.
  eapply pruned_outside; [done|intros h; apply not_eq_sym; auto with keys|].
  intros j _. split; apply not_eq_sym; auto with keys.
Qed.

Lemma newest_first b x :
  x ∈ checkpoints s b → (∀ y, y ∈ checkpoints s b → String.le y x) →
  checkpoints s b !! 0 = Some x.
Proof.
  intros Hx Hmax. pose proof (sorted_checkpoints s b) as Hs.
  destruct (checkpoints s b) as [|y l]; [by apply not_elem_of_nil in Hx|]. cbn.
  apply elem_of_cons in Hx as [->|Hx]; [done|].
  apply StronglySorted_inv in Hs as [_ Hy]. rewrite Forall_forall in Hy.
  destruct (Hy x Hx) as [Hle Hne]. f_equal. apply (anti_symm String.le); [|done].
  apply Hmax. left.
Qed.

Lemma sealed_retained b0 b1 m b b' :
  m_ID m ≠ "" → manifest_utf8 m = true →
  (∀ id, id ∈ checkpoints s b0 → String.le id (m_ID m)) →
  sealed b0 b1 m b → pruned s b b' →
  b' !! latestKey s = Some (m_ID m) ∧
  b' !! manifestKey s (m_ID m) = Some (json_marshal m) ∧
  ∀ e, e ∈ m_Entries m → b' !! objectKey s (e_Hash e) = b !! objectKey s (e_Hash e).
Proof.
  intros Hid Hu Hmax (Hm & Hlat & Hp & Hj & _) Hpr.
  assert (Hsv : m_ID m ∈ survivors s b).
  { eapply (retained_survivor s b 0); [|lia]. apply newest_first.
    - apply elem_of_checkpoints. rewrite Hm. eauto.
    - intros y [Hy [->|Hy0]%Hj]%elem_of_checkpoints; [done|].
      apply Hmax, elem_of_checkpoints. eauto. }
  destruct (pruned_survivor s b b' (m_ID m) Hpr Hsv) as (Hm' & _ & Hobj). split_and!.
  - rewrite <-Hlat. eapply pruned_outside; [done|intros h; apply not_eq_sym; auto with keys|].
    intros j _. split; apply not_eq_sym; auto with keys.
  - by rewrite Hm'.
  - intros e He. eapply Hobj; [done|by apply json_roundtrip|done].
Qed.
End snapshot.


(** *** Histories of a workspace *)

(** The buckets a workspace can have after any sequence of snapshots and prunes,
    each by a session of its own (its retention and pins, its fault script), and
    of pin markers placed and lifted in between. *)
Inductive history {P : Platform} (pfx : string) : gmap string string → Prop :=
| history_new : history pfx ∅
| history_snapshot s root name desc trigger parent st :
    prefix s = pfx → snapshot_utf8 s root [name; desc; trigger; parent] = true →
    history pfx (bucket st) →
    history pfx (bucket (Snapshot s root name desc trigger parent st).2)
| history_prune s st :
    prefix s = pfx → history pfx (bucket st) → history pfx (bucket (Prune s st).2)
| history_pin s b marker :
    prefix s = pfx → history pfx b → history pfx (<[pinsPrefix s +:+ marker := ""]> b)
| history_unpin s b marker :
    prefix s = pfx → history pfx b → history pfx (delete (pinsPrefix s +:+ marker) b).

Lemma intact_prefix {P : Platform} (s s' : Store) b :
  prefix s = prefix s' → intact s b → intact s' b.
Proof. unfold intact, manifestKey, objectKey. by intros ->. Qed.

Lemma pins_not_manifest s marker id : pinsPrefix s +:+ marker ≠ manifestKey s id.
Proof.
  unfold pinsPrefix, manifestKey. rewrite <-str_app_assoc.
  intros H%(inj (String.append _)). discriminate H.
Qed.

Lemma pins_not_object s marker h : pinsPrefix s +:+ marker ≠ objectKey s h.
Proof.
  unfold pinsPrefix, objectKey. rewrite <-str_app_assoc.
  intros H%(inj (String.append _)). discriminate H.
Qed.

(** C1: in every bucket a workspace can come to, however its snapshots and prunes
    were cut short, each stored manifest that decodes names only objects that are
    there: no checkpoint that is offered for restore has lost a file. *)
Theorem history_intact {P : Platform} {L : PlatformLaws P} (s : Store) (b : gmap string string) :
  history (prefix s) b → intact s b.
Proof.
  induction 1 as [|s' root name desc trigger parent st Hp Hu _ IH|s' st Hp _ IH
    |s' b marker Hp _ IH|s' b marker Hp _ IH].
  - intros id body m e _ Hb. by rewrite lookup_empty in Hb.
  - eapply intact_prefix; [exact Hp|]. apply Snapshot_keeps_intact; [done|].
    by eapply intact_prefix.
  - eapply intact_prefix; [exact Hp|]. apply Prune_keeps_intact. by eapply intact_prefix.
  - eapply intact_prefix; [exact Hp|]. apply intact_insert_other; [apply pins_not_manifest|].
    by eapply intact_prefix.
  - eapply intact_prefix; [exact Hp|]. intros id body m e Hne Hb Hm He.
    rewrite lookup_delete_ne in Hb |- * by auto using pins_not_manifest, pins_not_object.
    eapply (intact_prefix s s'); eauto.
Qed.

(** ** Checkpoint ids sort by time *)

Lemma hex_digit_compare a b :
  (0 ≤ a < 16)%Z → (0 ≤ b < 16)%Z →
  Ascii.compare (hex_digit a) (hex_digit b) = (a ?= b)%Z.
Proof.
  intros Ha Hb.
  assert (Hall : Forall (λ i, Forall (λ j, Ascii.compare (hex_digit (Z.of_nat i))
    (hex_digit (Z.of_nat j)) = (Z.of_nat i ?= Z.of_nat j)%Z) (seq 0 16)) (seq 0 16)).
  { repeat constructor. }
  rewrite Forall_seq in Hall. specialize (Hall (Z.to_nat a) ltac:(lia)).
  rewrite Forall_seq in Hall. specialize (Hall (Z.to_nat b) ltac:(lia)).
  by rewrite !Z2Nat.id in Hall by lia.
Qed.

Lemma hex_byte_compare x y u v :
  (0 ≤ x < 256)%Z → (0 ≤ y < 256)%Z →
  String.compare (hex_byte x u) (hex_byte y v) =
    match (x ?= y)%Z with Eq => String.compare u v | c => c end.
Proof.
  intros Hx Hy. unfold hex_byte. cbn.
  destruct (hex_byte_digits x Hx), (hex_byte_digits y Hy).
  rewrite !hex_digit_compare by done.
  assert (Hd : ∀ z, (0 ≤ z)%Z → z = (16 * Z.shiftr z 4 + Z.land z 15)%Z).
  { intros z Hz. rewrite Z.shiftr_div_pow2 by lia. change 15%Z with (Z.ones 4).
    rewrite Z.land_ones by lia. pose proof (Z.div_mod z 16). change (2^4)%Z with 16%Z. lia. }
  rewrite (Hd x), (Hd y) at 3 by lia.
  destruct (Z.compare_spec (Z.shiftr x 4) (Z.shiftr y 4)) as [->|Hlt|Hlt].
  - destruct (Z.compare_spec (Z.land x 15) (Z.land y 15)) as [->|?|?].
    + by rewrite Z.compare_refl.
    + by rewrite (proj2 (Z.compare_lt_iff _ _)) by lia.
    + by rewrite (proj2 (Z.compare_gt_iff _ _)) by lia.
  - by rewrite (proj2 (Z.compare_lt_iff _ _)) by lia.
  - by rewrite (proj2 (Z.compare_gt_iff _ _)) by lia.
Qed.

Lemma top_byte n t :
  (0 ≤ t < 2 ^ (8 * Z.of_nat (S n)))%Z →
  Z.land (Z.shiftr t (8 * Z.of_nat n)) 255 = (t / 2 ^ (8 * Z.of_nat n))%Z ∧
  (0 ≤ t / 2 ^ (8 * Z.of_nat n) < 256)%Z.
Proof.
  intros Ht. rewrite Z.shiftr_div_pow2 by lia. change 255%Z with (Z.ones 8).
  rewrite Z.land_ones by lia.
  assert (Hr : (0 ≤ t / 2 ^ (8 * Z.of_nat n) < 256)%Z).
  { split; [apply Z.div_pos; lia|]. apply Z.div_lt_upper_bound; [lia|].
    rewrite Nat2Z.inj_succ in Ht. replace (8 * Z.succ (Z.of_nat n))%Z
      with (8 * Z.of_nat n + 8)%Z in Ht by lia. rewrite Z.pow_add_r in Ht by lia. lia. }
  split; [|done]. apply Z.mod_small. lia.
Qed.

Lemma hex_be_mod n t : hex_be n (t mod 2 ^ (8 * Z.of_nat n)) = hex_be n t.
Proof.
  assert (H : ∀ k m, (k ≤ m)%nat → hex_be k (t mod 2 ^ (8 * Z.of_nat m)) = hex_be k t).
  { induction k as [|k IH]; intros m Hm; cbn [hex_be]; [done|]. rewrite IH by lia. f_equal.
    apply Z.bits_inj'. intros i Hi. rewrite !Z.land_spec, !Z.shiftr_spec by lia.
    destruct (decide (i < 8)%Z).
    - by rewrite Z.mod_pow2_bits_low by lia.
    - change 255%Z with (Z.ones 8). rewrite Z.ones_spec_high by lia. by rewrite !andb_false_r. }
  by apply H.
Qed.

Lemma hex_be_compare n t1 t2 u v :
  (0 ≤ t1)%Z → (t1 < t2)%Z → (t2 < 2 ^ (8 * Z.of_nat n))%Z →
  String.compare (hex_be n t1 +:+ u) (hex_be n t2 +:+ v) = Lt.
Proof.
  revert t1 t2. induction n as [|n IH]; intros t1 t2 H0 Hlt Hmax; [cbn in Hmax; lia|].
  cbn [hex_be]. unfold hex_byte at 1 2. rewrite !str_app_cons.
  fold (hex_byte (Z.land (Z.shiftr t1 (8 * Z.of_nat n)) 255) (hex_be n t1 +:+ u)).
  fold (hex_byte (Z.land (Z.shiftr t2 (8 * Z.of_nat n)) 255) (hex_be n t2 +:+ v)).
  rewrite hex_byte_compare by apply hex_byte_range.
  destruct (top_byte n t1) as [-> _]; [lia|]. destruct (top_byte n t2) as [-> _]; [lia|].
  set (w := (2 ^ (8 * Z.of_nat n))%Z). assert (Hw : (0 < w)%Z) by (unfold w; lia).
  pose proof (Z.div_mod t1 w ltac:(lia)). pose proof (Z.div_mod t2 w ltac:(lia)).
  pose proof (Z.mod_pos_bound t1 w Hw). pose proof (Z.mod_pos_bound t2 w Hw).
  pose proof (Z.div_le_mono t1 t2 w Hw ltac:(lia)).
  destruct (Z.compare_spec (t1 / w) (t2 / w)) as [Heq|?|?]; [|done|lia].
  rewrite <-(hex_be_mod n t1), <-(hex_be_mod n t2). apply IH; unfold w in *; nia.
Qed.

(** Of two checkpoints, the one taken at the later instant has the greater id
    in byte order, for every instant a 64-bit Unix nanosecond clock can show, and
    whatever processes took them: newest-first by name is newest-first by time. *)
Theorem newID_monotone {P : Platform} (t1 t2 p1 p2 : Z) :
  (0 ≤ t1)%Z → (t1 < t2)%Z → (t2 < 2 ^ 63)%Z →
  String.compare (newID t1 p1) (newID t2 p2) = Lt ∧ String.le (newID t1 p1) (newID t2 p2).
Proof.
  intros H0 Hlt Hmax. assert (Hc : String.compare (newID t1 p1) (newID t2 p2) = Lt).
  { apply hex_be_compare; [done..|]. change (8 * Z.of_nat 8)%Z with 64%Z. lia. }
  split; [done|]. unfold String.le, String.leb. by rewrite Hc.
Qed.

(** The deadline of a call is exactly one minute plus one second per whole
    MiB, with no overflow of the 64-bit nanosecond count, for every size object
    storage accepts (5 TiB). It is never shorter for a larger object. *)
Theorem callBudget_bounds (size : Z) :
  (0 ≤ size ≤ 5 * 2 ^ 40)%Z →
  callBudget size = (60 * second + (size / 2 ^ 20) * second)%Z ∧
  (60 * second ≤ callBudget size < 2 ^ 63)%Z ∧
  ∀ size', (0 ≤ size' ≤ size)%Z → (callBudget size' ≤ callBudget size)%Z.
Proof.
  assert (Heq : ∀ z, (0 ≤ z ≤ 5 * 2 ^ 40)%Z →
    callBudget z = (60 * second + (z / 2 ^ 20) * second)%Z ∧ (0 ≤ z / 2 ^ 20 ≤ 5 * 2 ^ 20)%Z).
  { intros z Hz. assert (Hq : (0 ≤ z / 2 ^ 20 ≤ 5 * 2 ^ 20)%Z).
    { split; [apply Z.div_pos; lia|]. apply Z.div_le_upper_bound; lia. }
    split; [|done]. unfold callBudget, wrap64, callBaseBudget, callPerMiB, second.
    rewrite Z.quot_div_nonneg by lia.
    rewrite (Z.mod_small (z / 2 ^ 20 * 1000000000 + 2 ^ 63)) by lia.
    rewrite Z.mod_small by lia. lia. }
  intros Hs. destruct (Heq size Hs) as [He Hq]. split_and!; [done|..].
  - rewrite He. unfold second. lia.
  - rewrite He. unfold second. lia.
  - intros s' Hs'. destruct (Heq s') as [-> _]; [lia|]. rewrite He.
    pose proof (Z.div_le_mono s' size (2 ^ 20) ltac:(lia) ltac:(lia)). unfold second. lia.
Qed.
