(* ===== verification/WorkspaceRestoreFacts.v ===== *)
(** * WorkspaceRestoreFacts: runs without faults, restores and the round trip.

    [quiet] states are those from which every call completes and nobody writes
    the tree during the walk: from them [Snapshot] returns one of four results,
    decided by the tree and the remembered digest. [Restore] never puts a content
    on disk that does not hash to its entry, and a snapshot restored elsewhere
    gives back every captured file. *)

From S2P Require Import Prelude.
From S2P Require Import WorkspaceStore.
From S2P Require Import WorkspaceStoreFacts.
From S2P Require Import WorkspaceSnapshotFacts.

Local Open Scope string_scope.

(** ** Runs without faults *)

Definition quiet (st : Sys) : Prop := script st = [] ∧ agent st = [].

Lemma syscall_quiet w st : script st = [] → syscall w st = (Ok (), st).
Proof. intros Hs. destruct st; cbn in *. by subst. Qed.

Lemma s3_write_quiet w f st :
  script st = [] → s3_write w f st = (Ok (), set_bucket (f (bucket st)) st).
Proof. intros Hs. destruct st; cbn in *. by subst. Qed.

Lemma GetObject_quiet k st body :
  script st = [] → bucket st !! k = Some body → GetObject k st = (Ok body, st).
Proof.
  intros Hs Hb. unfold GetObject. rewrite bind_run, syscall_quiet by done.
  rewrite bind_run. cbn. by rewrite Hb.
Qed.

Lemma fs_call_quiet w st : script st = [] → fs_call w false st = (Ok (), st).
Proof. intros Hs. unfold fs_call. by rewrite bind_run, syscall_quiet. Qed.

Section quiet_snapshot.
Context {P : Platform} (s : Store).

Lemma putIfAbsent_quiet h c st :
  quiet st → ∃ r st', putIfAbsent s h c (Z.of_nat (String.length c)) st = (Ok r, st')
    ∧ quiet st' ∧ restoredDigest st' = restoredDigest st.
Proof.
  intros [Hs Ha]. unfold putIfAbsent. rewrite bind_run. unfold attempt, StatObject.
  rewrite bind_run, syscall_quiet by done. rewrite bind_run. cbn.
  destruct (bucket st !! objectKey s h); cbn;
    [by eexists _, _; split_and!|].
  rewrite bind_run, syscall_quiet by done. rewrite bind_run. unfold reread. rewrite Ha.
  rewrite Z.ltb_irrefl, bind_run. unfold PutObject. rewrite s3_write_quiet by done.
  by eexists _, _; split_and!.
Qed.

Lemma walk_quiet l es st :
  quiet st → ∃ st', foldM (visit s) l es st = (Ok (es ++ (l ≫= entry_of))%list, st')
    ∧ quiet st' ∧ restoredDigest st' = restoredDigest st.
Proof.
  revert es st. induction l as [|[p [mode c|]] l IH]; intros es st Hq; cbn [foldM].
  - exists st. by rewrite app_nil_r.
  - rewrite bind_run. unfold visit at 1. rewrite bind_run, syscall_quiet by apply Hq.
    rewrite bind_run, syscall_quiet by apply Hq. rewrite bind_run. unfold wrap.
    destruct (putIfAbsent_quiet (sha256hex c) c st Hq) as (r & st1 & -> & Hq1 & Hd1).
    destruct (IH (es ++ entry_of (p, Regular mode c))%list st1 Hq1) as (st2 & H2 & Hq2 & Hd2).
    exists st2. cbn in H2 |- *. rewrite H2, <-app_assoc. split; [done|]. by rewrite Hd2.
  - rewrite bind_run. unfold visit at 1. rewrite bind_run, syscall_quiet by apply Hq.
    destruct (IH es st Hq) as (st2 & H2 & Hq2 & Hd2). exists st2. by cbn; rewrite H2.
Qed.
End quiet_snapshot.

(** with no call failing and nobody writing the tree meanwhile, a snapshot
    returns exactly one of four results: ErrReadOnly on a read-only store,
    ErrNothingToSave when no file is captured, ErrUnchanged when the captured
    files are those last restored or saved, and otherwise the new manifest. In the
    first three the manifests, LATEST, archives and pins are as before, and the
    last leaves LATEST naming the new checkpoint. *)
Theorem Snapshot_outcome {P : Platform} {L : PlatformLaws P} (s : Store)
    (root : gmap string Node) (name desc trigger parent : string) (st : Sys) :
  script st = [] → agent st = [] →
  let m := manifest_of s root name desc trigger parent (now st) (pid st) in
  let '(r, st') := Snapshot s root name desc trigger parent st in
  r = (if readOnly s then Err ErrReadOnly
       else if decide (captured root = []) then Err ErrNothingToSave
       else if decide (restoredDigest st ≠ "" ∧ manifestDigest m = restoredDigest st)
       then Err ErrUnchanged else Ok m) ∧
  match r with
  | Err _ => ∀ k, bucket st' !! k = bucket st !! k ∨ ∃ h, k = objectKey s h
  | Ok _ => bucket st' !! latestKey s = Some (m_ID m)
  end.
Proof.
  intros Hs Ha. cbn. destruct (Snapshot s root name desc trigger parent st) as [r st'] eqn:E.
  assert (Hr : r = (if readOnly s then Err ErrReadOnly
       else if decide (captured root = []) then Err ErrNothingToSave
       else if decide (restoredDigest st ≠ "" ∧ manifestDigest (manifest_of s root name desc
         trigger parent (now st) (pid st)) = restoredDigest st)
       then Err ErrUnchanged else Ok (manifest_of s root name desc trigger parent (now st) (pid st))) ∧
     (match r with Err _ => grown s (bucket st) (bucket st') | Ok _ => True end)).
  { unfold Snapshot in E. destruct (readOnly s); [inversion E; subst; split; [done|intros k; by left]|].
    do 2 (rewrite bind_run in E; cbn [gets] in E). rewrite bind_run in E.
    destruct (walk_quiet s (walk root) [] st (conj Hs Ha)) as (st1 & H1 & Hq1 & Hd1).
    pose proof (walk_spec s root st) as [Hg Hes]. rewrite H1 in E, Hg, Hes.
    destruct (Hes _ eq_refl) as [Hcap _]. rewrite Hcap in E.
    fold (manifest_of s root name desc trigger parent (now st) (pid st)) in E.
    destruct (decide (captured root = [])); [by inversion E; subst|].
    rewrite bind_run in E. cbn [gets] in E. rewrite Hd1 in E.
    case_decide; [by inversion E; subst|]. rewrite bind_run in E. unfold wrap in E.
    unfold PutObject in E. rewrite s3_write_quiet in E by apply Hq1. rewrite bind_run in E.
    unfold setLatest, PutObject in E. rewrite s3_write_quiet in E by apply Hq1.
    rewrite bind_run in E. cbn [modify] in E. rewrite bind_run in E.
    destruct (archive_step s root _ _) as [[[]|e] st2] eqn:E2.
    - rewrite bind_run in E. unfold attempt in E. destruct (Prune s st2).
      by inversion E; subst.
    - exfalso. clear -E2. unfold archive_step in E2. destruct (noArchive s); [done|].
      rewrite bind_run in E2. unfold attempt in E2. destruct (syscall _ _) as [[]]; [|done].
      rewrite bind_run in E2. destruct (_ ≫= _) as [[] ?]; rewrite bind_run in E2;
      by destruct (_ ≫= _) as [[] ?]. }
  destruct Hr as [Hr Hg]. split; [done|]. destruct r as [m|e].
  - apply Snapshot_ok_inv in E as (_ & _ & -> & (b & (_ & Hl & _) & Hpr) & _).
    cbn in Hl. rewrite <-Hl. eapply pruned_outside; [done|intros h; apply not_eq_sym; auto with keys|].
    intros j _. split; apply not_eq_sym; auto with keys.
  - intros k. destruct (Hg k) as [|[? _]]; eauto.
Qed.

(** ** Restore *)

Section restore.
Context {P : Platform} (s : Store).

(** Where the content of a restored file can come from. *)
Definition verified (l : list Entry) (fs : gmap string Node) (fs' : gmap string Node) : Prop :=
  ∀ p mode c, fs' !! p = Some (Regular mode c) →
    fs !! p = Some (Regular mode c) ∨
    ∃ e, e ∈ l ∧ sha256hex c = e_Hash e ∧
      (p = e_Path e ∨ p = e_Path e +:+ ".ws-tmp").

Lemma verified_refl l fs : verified l fs fs.
Proof. intros p mode c Hp. by left. Qed.

Lemma verified_trans l fs fs1 fs2 :
  verified l fs fs1 → verified l fs1 fs2 → verified l fs fs2.
Proof.
  intros H1 H2 p mode c Hp. destruct (H2 p mode c Hp); eauto.
Qed.

Lemma verified_write e l fs fs1 mode umask data p :
  e ∈ l → sha256hex data = e_Hash e → fs1 ⊆ fs →
  p = e_Path e ∨ p = e_Path e +:+ ".ws-tmp" →
  verified l fs (<[p := written fs (e_Path e +:+ ".ws-tmp") mode umask data]> fs1).
Proof.
  intros He Hd Hsub Hp q m c Hq. destruct (decide (p = q)) as [<-|Hne].
  - rewrite lookup_insert_eq in Hq. right. exists e. split_and!; [done| |done].
    unfold written in Hq. destruct (fs !! _) as [[]|]; naive_solver.
  - rewrite lookup_insert_ne in Hq by done. left. by eapply lookup_weaken.
Qed.

Lemma restore_entry_verified l fs e st :
  e ∈ l → verified l fs (restore_entry s fs e st).1.2 ∧
  bucket (restore_entry s fs e st).2 = bucket st.
Proof.
  intros He. unfold restore_entry.
  assert (Hfs : ∀ w r, reads (bucket st) (fs_call w r) (λ _, True)).
  { intros w r. eapply reads_bind; [apply reads_syscall|]. intros _ _.
    destruct r; [apply reads_throw|by apply reads_ret]. }
  destruct (reads_bind (bucket st) _ _ _ _ (Hfs "mkdir" (file_above fs (e_Path e)))
    (λ _ _, reads_wrap _ "get" _ _ (reads_GetObject _ (objectKey s (e_Hash e)))) st eq_refl)
    as [Hb1 _].
  destruct (mbind (M:=M) _ _ st) as [[data|err] st1]; cbn in Hb1 |- *;
    [|split; [apply verified_refl|done]].
  case_decide as Hsha; cbn; [|split; [apply verified_refl|done]].
  set (tmp := e_Path e +:+ ".ws-tmp").
  destruct (reads_wrap _ "write" _ _ (Hfs tmp (dir_at fs tmp)) st1 Hb1) as [Hb2 _].
  destruct (wrap "write" _ st1) as [[[]|err] st2]; cbn in Hb2 |- *;
    [|split; [apply verified_refl|done]].
  destruct (reads_wrap _ "rename" _ _ (Hfs (e_Path e) (dir_at fs (e_Path e))) st2 Hb2)
    as [Hb3 _].
  destruct (wrap "rename" _ st2) as [[[]|err] st3]; cbn in Hb3 |- *; (split; [|done]).
  - apply (verified_write e); [done..|apply delete_subseteq|by left].
  - apply (verified_write e); [done..|by right].
Qed.

Lemma restore_entries_verified l l' fs st :
  l' ⊆ l → verified l fs (restore_entries s fs l' st).1.2 ∧
  bucket (restore_entries s fs l' st).2 = bucket st.
Proof.
  revert fs st. induction l' as [|e l' IH]; intros fs st Hsub; cbn.
  { split; [apply verified_refl|done]. }
  destruct (restore_entry_verified l fs e st ltac:(set_solver)) as [Hv Hb].
  destruct (restore_entry s fs e st) as [[[[]|err] fs1] st1]; cbn in *; [|by split].
  destruct (IH fs1 st1 ltac:(set_solver)) as [Hv' Hb'].
  split; [by eapply verified_trans|congruence].
Qed.

Lemma Restore_bucket fs m st : bucket (Restore s fs m st).2 = bucket st.
Proof.
  unfold Restore. destruct (restore_entries_verified (m_Entries m) (m_Entries m) fs
    (set_digest (manifestDigest m) st)) as [_ ->]; done.
Qed.
End restore.

(** whatever objects storage returns and wherever the restore stops, every
    regular file found below the root afterwards either was there before with the
    same mode and content, or its content hashes to what an entry of the manifest
    states for that very path (or for the temporary name beside it); the bucket
    is only read. *)
Theorem Restore_verified {P : Platform} (s : Store) (fs : gmap string Node) (m : Manifest)
    (st : Sys) :
  let '(_, fs', st') := Restore s fs m st in
  bucket st' = bucket st ∧
  ∀ p mode c, fs' !! p = Some (Regular mode c) →
    fs !! p = Some (Regular mode c) ∨
    ∃ e, e ∈ m_Entries m ∧ sha256hex c = e_Hash e ∧
      (p = e_Path e ∨ p = e_Path e +:+ ".ws-tmp").
Proof.
  unfold Restore. destruct (restore_entries_verified s (m_Entries m) (m_Entries m) fs
    (set_digest (manifestDigest m) st)) as [Hv Hb]; [done|].
  destruct (restore_entries _ _ _ _) as [[r fs'] st']. cbn in *. split; [done|].
  exact Hv.
Qed.

(** ** The round trip *)

Lemma str_compare_refl p : String.compare p p = Eq.
Proof.
  induction p as [|c p IH]; cbn; [done|]. unfold Ascii.compare. by rewrite N.compare_refl.
Qed.

Lemma str_compare_app p t : t ≠ "" → String.compare p (p +:+ t) = Lt.
Proof.
  intros Ht. induction p as [|c p IH]; rewrite ?str_app_cons; cbn.
  { by destruct t. }
  unfold Ascii.compare. by rewrite N.compare_refl.
Qed.

(** No file stands where another has a directory. *)
Definition is_tree (root : gmap string Node) : Prop :=
  ∀ p r, is_Some (root !! p) → root !! (p +:+ "/" +:+ r) = None.

(** [is_tree] by inspection of the paths. *)
Lemma is_tree_check (root : gmap string Node) :
  forallb (λ p, forallb (λ q, negb (HasPrefix q (p +:+ "/"))) (map_to_list root).*1)
    (map_to_list root).*1 = true → is_tree root.
Proof.
  intros H p r [n Hn]. destruct (root !! (p +:+ "/" +:+ r)) as [n'|] eqn:Hq; [|done]. exfalso.
  assert (Hin : ∀ p n, root !! p = Some n → In p (map_to_list root).*1).
  { intros p' n'' Hp. apply list_elem_of_In, list_elem_of_fmap. exists (p', n'').
    by rewrite elem_of_map_to_list. }
  rewrite forallb_forall in H. specialize (H p (Hin p n Hn)).
  rewrite forallb_forall in H. specialize (H _ (Hin _ _ Hq)).
  rewrite str_app_assoc in H. unfold HasPrefix in H. by rewrite prefix_app in H.
Qed.

(** What a restore writes for a file of the given mode. *)
Definition restored_mode (mode umask : Z) : Z :=
  Z.ldiff (if (mode =? 0)%Z then 420%Z else mode) umask.

Section roundtrip.
Context {P : Platform} (s : Store).

(** Entries in the order [Snapshot] writes them, each path once. *)
Definition in_order (l : list Entry) : Prop :=
  StronglySorted (λ x y, String.compare (e_Path x) (e_Path y) = Lt) l.

Definition no_file_above (l : list Entry) : Prop :=
  ∀ x y r, x ∈ l → y ∈ l → e_Path y ≠ e_Path x +:+ "/" +:+ r.

Definition held (b : gmap string string) (l : list Entry) : Prop :=
  ∀ e, e ∈ l → ∃ body, b !! objectKey s (e_Hash e) = Some body ∧ sha256hex body = e_Hash e.

(** [fs] is what restoring [l] into an empty directory gives. *)
Definition restored (b : gmap string string) (u : Z) (l : list Entry) (fs : gmap string Node)
    : Prop :=
  (∀ e, e ∈ l → ∃ body, b !! objectKey s (e_Hash e) = Some body ∧ sha256hex body = e_Hash e ∧
     fs !! e_Path e = Some (Regular (restored_mode (e_Mode e) u) body)) ∧
  (∀ p, is_Some (fs !! p) → ∃ e, e ∈ l ∧ p = e_Path e).

Lemma elem_of_dom_list (fs : gmap string Node) f :
  existsb f (map_to_list fs).*1 = true ↔ ∃ p, is_Some (fs !! p) ∧ f p = true.
Proof.
  rewrite existsb_exists. split.
  - intros (p & Hp & Hf). apply list_elem_of_In, list_elem_of_fmap in Hp as ([p' n] & -> & H).
    apply elem_of_map_to_list in H. eauto.
  - intros (p & [n Hn] & Hf). exists p. split; [|done].
    apply list_elem_of_In, list_elem_of_fmap. exists (p, n). by rewrite elem_of_map_to_list.
Qed.

Lemma before_not_above b u done e fs t :
  restored b u done fs → Forall (λ x, String.compare (e_Path x) (e_Path e) = Lt) done →
  fs !! (e_Path e +:+ t) = None.
Proof.
  intros [_ Hdom] Hlt. destruct (fs !! _) eqn:E; [|done]. exfalso.
  destruct (Hdom (e_Path e +:+ t)) as (x & Hx & Hp); [eauto|].
  rewrite Forall_forall in Hlt. specialize (Hlt x Hx). rewrite <-Hp in Hlt.
  destruct (decide (t = "")) as [->|Ht].
  - by rewrite str_app_nil_r, str_compare_refl in Hlt.
  - apply (str_compare_app (e_Path e)) in Ht. rewrite String.compare_antisym in Ht.
    by rewrite Hlt in Ht.
Qed.

Lemma restore_entry_quiet b u done e fs st :
  script st = [] → bucket st = b → umask st = u →
  restored b u done fs → Forall (λ x, String.compare (e_Path x) (e_Path e) = Lt) done →
  no_file_above (done ++ [e])%list → held b [e] →
  ∃ fs', restore_entry s fs e st = (Ok (), fs', st) ∧ restored b u (done ++ [e])%list fs'.
Proof.
  intros Hs Hb Hu Hr Hlt Hna Hh.
  assert (Hfa : file_above fs (e_Path e) = false).
  { apply not_true_iff_false. unfold file_above. rewrite elem_of_dom_list.
    intros (p & [x [Hx ->]]%(proj2 Hr) & [t Ht]%HasPrefix_iff).
    apply (Hna x e t); [set_solver..|]. by rewrite Ht, str_app_assoc. }
  assert (Hda : ∀ t, dir_at fs (e_Path e +:+ t) = false).
  { intros t. apply not_true_iff_false. unfold dir_at. rewrite elem_of_dom_list.
    intros (p & Hp & [t' ->]%HasPrefix_iff). rewrite <-!str_app_assoc in Hp.
    rewrite (before_not_above b u done e fs) in Hp by done. by destruct Hp. }
  destruct (Hh e) as (body & Hbody & Hsha); [by left|].
  unfold restore_entry. rewrite Hfa, bind_run, fs_call_quiet by done.
  unfold wrap at 1. rewrite (GetObject_quiet _ _ body) by (done || by rewrite Hb).
  rewrite decide_True by done. rewrite Hda. unfold wrap at 1.
  rewrite fs_call_quiet by done.
  assert (Hd0 : dir_at fs (e_Path e) = false)
    by (rewrite <-(str_app_nil_r (e_Path e)); apply Hda).
  rewrite Hd0. unfold wrap. rewrite fs_call_quiet by done.
  unfold written. rewrite (before_not_above b u done e fs) by done.
  eexists. split; [done|]. rewrite delete_id by (by apply (before_not_above b u done)).
  rewrite Hu. destruct Hr as [Hf Hdom]. split.
  - intros x [Hx| ->%list_elem_of_singleton]%elem_of_app.
    + destruct (Hf x Hx) as (bx & ? & ? & ?). exists bx. split_and!; [done..|].
      rewrite lookup_insert_ne; [done|]. intros Heq. rewrite Forall_forall in Hlt.
      specialize (Hlt x Hx). by rewrite Heq, str_compare_refl in Hlt.
    + exists body. by rewrite lookup_insert_eq.
  - intros p [Hp|Hp]%lookup_insert_is_Some; [set_solver|].
    destruct (Hdom p) as (x & ? & ?); [naive_solver|]. set_solver.
Qed.

Lemma restore_entries_quiet b u l done fs st :
  script st = [] → bucket st = b → umask st = u →
  restored b u done fs → in_order (done ++ l)%list → no_file_above (done ++ l)%list → held b l →
  ∃ fs', restore_entries s fs l st = (Ok (), fs', st) ∧ restored b u (done ++ l)%list fs'.
Proof.
  intros Hs Hb Hu. revert done fs. induction l as [|e l IH]; intros done fs Hr Ho Hna Hh; cbn.
  { exists fs. by rewrite app_nil_r. }
  destruct (restore_entry_quiet b u done e fs st) as (fs1 & -> & Hr1); try done.
  - apply Forall_forall. intros x Hx. 
    by apply (StronglySorted_app_1_elem_of (λ x y, String.compare (e_Path x) (e_Path y) = Lt)
      done (e :: l) x e Ho Hx); left.
  - intros x y r Hx Hy. apply Hna; set_solver.
  - intros x Hx. apply Hh. set_solver.
  - rewrite cons_middle, app_assoc in Ho, Hna.
    destruct (IH (done ++ [e])%list fs1) as (fs2 & -> & Hr2); [done..| |].
    + intros x Hx. apply Hh. set_solver.
    + exists fs2. split; [done|]. by rewrite <-app_assoc in Hr2.
Qed.

Lemma restored_nil b u : restored b u [] ∅.
Proof.
  split; [by intros e ?%not_elem_of_nil|]. intros p [n Hn]. by rewrite lookup_empty in Hn.
Qed.
End roundtrip.

Section captured_order.
Context {P : Platform}.

Lemma captured_paths root : NoDup (e_Path <$> captured root).
Proof.
  unfold captured. rewrite (merge_sort_Permutation entry_le).
  assert (Hnd : NoDup (walk root).*1).
  { unfold walk. rewrite (merge_sort_Permutation _).
    apply NoDup_fmap_2_strong; [|apply NoDup_filter, NoDup_map_to_list].
    intros [p n] [q n'] [_ Hx]%list_elem_of_filter [_ Hy]%list_elem_of_filter. cbn.
    intros <-. apply elem_of_map_to_list in Hx, Hy. congruence. }
  induction (walk root) as [|[p n] l IH]; cbn; [constructor|].
  apply NoDup_cons in Hnd as [Hp Hnd]. rewrite fmap_app.
  destruct n as [mode c|]; cbn; [|by apply IH]. constructor; [|by apply IH].
  intros (e & -> & ([q n'] & Hq & Hin)%list_elem_of_bind)%list_elem_of_fmap.
  destruct n' as [mode' c'|]; [|by apply not_elem_of_nil in Hq].
  apply list_elem_of_singleton in Hq as ->. apply Hp.
  apply list_elem_of_fmap.
  by exists (q, Regular mode' c').
Qed.

Lemma le_ne_compare p q : String.le p q → p ≠ q → String.compare p q = Lt.
Proof.
  unfold String.le, String.leb. destruct (String.compare p q) eqn:E; [|done..].
  apply String.compare_eq_iff in E. done.
Qed.

#[local] Instance entry_le_trans : Transitive entry_le.
Proof. intros x y z. unfold entry_le. apply (transitivity (R:=String.le)). Qed.
#[local] Instance entry_le_total : Total entry_le.
Proof. intros x y. apply (total String.le). Qed.

Lemma captured_in_order root : in_order (captured root).
Proof.
  assert (Hs : StronglySorted entry_le (captured root)) by (apply (StronglySorted_merge_sort entry_le)).
  pose proof (captured_paths root) as Hnd. unfold in_order.
  induction Hs as [|x l Hl IH Hx]; [constructor|]. cbn in Hnd.
  apply NoDup_cons in Hnd as [Hnin Hnd]. constructor; [by apply IH|].
  rewrite Forall_forall in Hx |- *. intros y Hy. apply le_ne_compare; [by apply Hx|].
  intros Heq. apply Hnin, list_elem_of_fmap. eauto.
Qed.

Lemma captured_no_file_above root : is_tree root → no_file_above (captured root).
Proof.
  intros Ht x y r (c & Hx & _)%elem_of_captured (c' & Hy & _)%elem_of_captured Heq.
  rewrite Heq, (Ht (e_Path x) r) in Hy; [done|eauto].
Qed.
End captured_order.

Section sound.
Context {P : Platform} (s : Store).

(** Every object holds the bytes its name is the hash of. *)
Definition sound (b : gmap string string) : Prop :=
  ∀ h body, b !! objectKey s h = Some body → sha256hex body = h.

Lemma str_take_all c : str_take (String.length c) c = c.
Proof. rewrite <-(str_app_nil_r c) at 2. apply str_take_app. Qed.

Lemma keeps_visit_sound es x :
  keeps (λ st, agent st = [] ∧ sound (bucket st)) (visit s es x).
Proof.
  set (I st := agent st = [] ∧ sound (bucket st)).
  unfold visit. destruct x as [rel node].
  apply (keeps_bind I); [by apply keeps_syscall|]. intros _.
  destruct node as [mode c|]; [|apply keeps_ret].
  apply (keeps_bind I); [by apply keeps_syscall|]. intros _.
  apply (keeps_bind I); [|intros; apply keeps_ret]. apply keeps_wrap'.
  unfold putIfAbsent. apply (keeps_bind I); [by apply keeps_attempt, keeps_StatObject|].
  intros [_|e]; [apply keeps_ret|]. apply (keeps_bind I); [by apply keeps_syscall|].
  intros _ st [Ha Hb]. rewrite bind_run. unfold reread. rewrite Ha.
  rewrite Z.ltb_irrefl. apply (keeps_bind I); [|intros; apply keeps_ret|done].
  apply keeps_write; [done|]. intros st1 [Ha1 Hs1]. split; [done|]. cbn.
  rewrite Nat2Z.id, str_take_all. intros h body.
  rewrite lookup_insert. case_decide as Heq; [|apply Hs1].
  apply (inj (objectKey s)) in Heq. naive_solver.
Qed.

Lemma keeps_walk_sound l es :
  keeps (λ st, agent st = [] ∧ sound (bucket st)) (foldM (visit s) l es).
Proof. apply keeps_foldM. intros. apply keeps_visit_sound. Qed.
End sound.

