(* ===== verification/WorkspaceSync.v ===== *)
(** * WorkspaceSync: the workspace persistence agent.

    Models operators/workspace-sync/cmd/main.go and cmd/refresh.go: the restore
    decision at start-up, the squashfs overlay, the control handlers and the save
    slot they share, the reader's generations, the periodic backstop and the
    shutdown path. A call that leaves the process takes its outcome from the
    script of [Sys]; a deadline that passes is a call that fails. *)

From S2P Require Import Prelude.
From S2P Require Import WorkspaceStore.

Local Open Scope string_scope.

(** ** Data *)

Abbreviation tree := (gmap string Node).

(** What the commands can return beside the store's errors. *)
Inductive serr :=
| StoreErr (e : error)
| ErrSaveInProgress
| Refused (why : string)
| Context (what : string) (e : serr).

(** [errors.Is] with a target among the store's errors, and with errSaveInProgress. *)
Fixpoint SIs (e : serr) (target : error) : bool :=
  match e with
  | StoreErr e => Is e target
  | Context _ e => SIs e target
  | _ => false
  end.
Fixpoint is_busy (e : serr) : bool :=
  match e with
  | ErrSaveInProgress => true
  | Context _ e => is_busy e
  | _ => false
  end.

(** The overlay: the tree of the mounted image, and the merged tree the workload
    reads and writes through the upper directory. *)
Record Mount := mkMount { image : tree; merged : tree }.

(** One save, as reported to a caller that found the slot taken; times are Unix nanoseconds, [None] is the zero Time. *)
Record saveState := mkSave {
  sv_Trigger : string;
  sv_Since : Z;
  sv_Finished : option Z;
  sv_Outcome : string;
  sv_CheckpointID : string }.

(** The files a refreshing reader keeps: the generations below <root>-gen, the
    link the workload reads, and the link being prepared beside it. *)
Record GenFS := mkGenFS {
  g_dirs : gmap Z tree;
  g_link : option Z;
  g_next : option Z }.

(** The state of the process and of the directories it manages: what is below
    WORKSPACE_ROOT with nothing mounted, the overlay mounted there, the reader's
    generations and the fields of [generations], whether the save slot is taken,
    and the variables the handlers share. *)
Record Agent := mkAgent {
  sys : Sys;
  bare : tree;
  mount : option Mount;
  genfs : GenFS;
  gens : option (Z * string);
  slot : bool;
  last : string;
  current : option saveState;
  lastDone : option saveState }.

Definition set_sys st a := mkAgent st (bare a) (mount a) (genfs a) (gens a) (slot a) (last a) (current a) (lastDone a).
Definition set_bare t a := mkAgent (sys a) t (mount a) (genfs a) (gens a) (slot a) (last a) (current a) (lastDone a).
Definition set_mount m a := mkAgent (sys a) (bare a) m (genfs a) (gens a) (slot a) (last a) (current a) (lastDone a).
Definition set_genfs g a := mkAgent (sys a) (bare a) (mount a) g (gens a) (slot a) (last a) (current a) (lastDone a).
Definition set_gens g a := mkAgent (sys a) (bare a) (mount a) (genfs a) g (slot a) (last a) (current a) (lastDone a).
Definition set_slot b a := mkAgent (sys a) (bare a) (mount a) (genfs a) (gens a) b (last a) (current a) (lastDone a).
Definition set_last l a := mkAgent (sys a) (bare a) (mount a) (genfs a) (gens a) (slot a) l (current a) (lastDone a).
Definition set_current c a := mkAgent (sys a) (bare a) (mount a) (genfs a) (gens a) (slot a) (last a) c (lastDone a).
Definition set_lastDone d a := mkAgent (sys a) (bare a) (mount a) (genfs a) (gens a) (slot a) (last a) (current a) d.

(** The tree the workload sees at WORKSPACE_ROOT. *)
Definition view (a : Agent) : tree :=
  match mount a with
  | Some m => merged m
  | None => bare a
  end.

(** JSON values of the answers, and an answer. *)
Inductive json := JStr (s : string) | JNum (n : Z) | JBool (b : bool) | JTime (t : Z) | JObj (fields : list (string * json)).
Record Response := mkResponse {
  code : Z;
  retryAfter : bool;
  body : list (string * json) }.

(** Code outside the repository the agent runs: what squashfuse shows of an image. *)
Class Mounter := { unsquashfs : string → tree }.

(** ** Operations *)

Abbreviation MA := (goM Agent serr).

Definition lift {A} (m : M A) : MA A := λ a,
  match m (sys a) with
  | (Ok x, st) => (Ok x, set_sys st a)
  | (Err e, st) => (Err (StoreErr e), set_sys st a)
  end.
Definition context {A} (what : string) (m : MA A) : MA A := λ a,
  match m a with
  | (Err e, a') => (Err (Context what e), a')
  | r => r
  end.
Definition call (what : string) : MA unit := lift (syscall what).
Definition refuse {A} (why : string) : MA A := throw (Refused why).

(** The outcome of a command whose failure is ignored. *)
Definition ran (what : string) : MA bool :=
  r ← attempt (call what);
  mret match r with Ok _ => true | Err _ => false end.

Section agent.
Context {P : Platform} {MO : Mounter} (getenv : string → string) (getuid : Z) (s : Store).

Definition workspaceUID : Z :=
  match Atoi (getenv "WORKSPACE_UID") with
  | Some n => if (0 <=? n)%Z then n else 1000%Z
  | None => 1000%Z
  end.

Definition chownRootIfNeeded : MA unit :=
  if (getuid =? workspaceUID)%Z then mret () else call "chown root".

(** chownTree: the walk stops at the first path it cannot hand over. *)
Definition chownTree (t : tree) : MA unit :=
  if (getuid =? workspaceUID)%Z then mret ()
  else call "lchown root" ≫= λ _, forM (map_to_list t).*1 call.

(** *** The overlay *)

Definition mountFuse (archive : string) : MA unit :=
  context "create staging dir" (forM ["lower"; "upper"; "work"] call) ≫= λ _,
  context "chown upper dir" (call "upper") ≫= λ _,
  context "squashfuse" (call "squashfuse") ≫= λ _,
  up ← attempt (call "fuse-overlayfs");
  match up with
  | Ok _ => modify (set_mount (Some (mkMount (unsquashfs archive) (unsquashfs archive))))
  | Err e => ran "fusermount3 lower" ≫= λ _, throw (Context "fuse-overlayfs" e)
  end.

(** unmountFuse: every step is attempted, no failure is reported. An overlay that
    stays mounted has lost its upper directory: the image shows through. *)
Definition unmountFuse : MA unit :=
  gone ← ran "fusermount3 root";
  ran "fusermount3 lower" ≫= λ _,
  ran "rm lower" ≫= λ _,
  upper ← ran "rm upper";
  ran "rm work" ≫= λ _,
  modify (λ a,
    match mount a with
    | None => a
    | Some m =>
        if (gone : bool) then set_mount None a
        else if (upper : bool) then set_mount (Some (mkMount (image m) (image m))) a
        else a
    end).

(** *** Restore at start-up *)

(** store.Restore into the directory below WORKSPACE_ROOT. *)
Definition restoreRoot (m : Manifest) : MA unit := λ a,
  match Restore s (bare a) m (sys a) with
  | (Ok _, fs, st) => (Ok (), set_bare fs (set_sys st a))
  | (Err e, fs, st) => (Err (StoreErr e), set_bare fs (set_sys st a))
  end.

Definition restoreFromCheckpoint (id : string) : MA unit :=
  m ← context "reading checkpoint" (lift (GetManifest s id));
  context "restoring checkpoint" (restoreRoot m) ≫= λ _,
  t ← gets bare;
  context "chown restored workspace" (chownTree t).

Definition restoreFromManifest : MA unit :=
  id ← context "reading LATEST pointer" (lift (Latest s));
  if String.eqb id "" then mret () else restoreFromCheckpoint id.

(** The three outcomes of an archive download, given what a missing archive
    calls for. *)
Definition mountArchive (what : string) (archive : M string) (missing : MA unit) : MA bool :=
  r ← attempt (lift archive);
  match r with
  | Ok img =>
      mounted ← attempt (mountFuse img);
      match mounted with
      | Ok _ => mret true
      | Err e => unmountFuse ≫= λ _, throw (Context ("cannot mount " +:+ what) e)
      end
  | Err e =>
      if SIs e ErrNoArchive then missing ≫= λ _, mret false
      else throw (Context ("cannot fetch " +:+ what) e)
  end.

Definition restoreWorkspace : MA bool :=
  call "mkdir root" ≫= λ _,
  attempt chownRootIfNeeded ≫= λ _,
  if negb (String.eqb (pinned s) "") then
    id ← lift (Resolve s);
    mountArchive "pinned checkpoint" (DownloadCheckpointArchive s id) (restoreFromCheckpoint id)
  else if noArchive s then restoreFromManifest ≫= λ _, mret false
  else mountArchive "workspace archive" (DownloadArchive s) restoreFromManifest.

(** *** Generations of a refreshing reader *)

Definition refreshEnabled (configured : bool) : result serr bool :=
  if negb (String.eqb (getenv "WORKSPACE_REFRESH") "true") then Ok false
  else if negb configured then Err (Refused "object storage is not configured")
  else if negb (readOnly s) then Err (Refused "only a reader refreshes")
  else if negb (String.eqb (pinned s) "") then Err (Refused "a pin is one exact revision")
  else if negb (noArchive s) then Err (Refused "refresh restores file by file")
  else Ok true.

Definition put_gen (n : Z) (t : tree) (a : Agent) : Agent :=
  set_genfs (mkGenFS (<[n := t]> (g_dirs (genfs a))) (g_link (genfs a)) (g_next (genfs a))) a.
Definition drop_gen (n : Z) (a : Agent) : Agent :=
  set_genfs (mkGenFS (delete n (g_dirs (genfs a))) (g_link (genfs a)) (g_next (genfs a))) a.
Definition set_next (o : option Z) (a : Agent) : Agent :=
  set_genfs (mkGenFS (g_dirs (genfs a)) (g_link (genfs a)) o) a.

(** os.RemoveAll of a generation: it is gone unless the call failed. *)
Definition remove_gen (n : Z) : MA unit :=
  call "rm generation" ≫= λ _, modify (drop_gen n).

(** store.Restore into generation [n]. *)
Definition restoreGen (n : Z) (m : Manifest) : MA unit := λ a,
  match Restore s (default ∅ (g_dirs (genfs a) !! n)) m (sys a) with
  | (Ok _, fs, st) => (Ok (), put_gen n fs (set_sys st a))
  | (Err e, fs, st) => (Err (StoreErr e), put_gen n fs (set_sys st a))
  end.

Definition build_body (n : Z) (id : string) : MA Z :=
  call "mkdir generation" ≫= λ _,
  modify (put_gen n ∅) ≫= λ _,
  files ← (if String.eqb id "" then mret 0%Z else
    m ← context "reading checkpoint" (lift (GetManifest s id));
    context "restoring checkpoint" (restoreGen n m) ≫= λ _,
    mret (Z.of_nat (length (m_Entries m))));
  t ← gets (λ a, default ∅ (g_dirs (genfs a) !! n));
  context "chown generation" (chownTree t) ≫= λ _,
  mret files.

Definition build (n : Z) (id : string) : MA Z :=
  context "clearing generation" (remove_gen n) ≫= λ _,
  r ← attempt (build_body n id);
  match r with
  | Ok files => mret files
  | Err e => attempt (remove_gen n) ≫= λ _, throw e
  end.

(** point: a new link beside the one in use, renamed over it. *)
Definition point (n : Z) : MA unit :=
  context "clearing next link" (call "rm next" ≫= λ _, modify (set_next None)) ≫= λ _,
  context "creating link" (call "symlink" ≫= λ _, modify (set_next (Some n))) ≫= λ _,
  moved ← attempt (call "rename");
  match moved with
  | Ok _ => modify (λ a, set_genfs (mkGenFS (g_dirs (genfs a)) (Some n) None) a)
  | Err e =>
      attempt (call "rm next" ≫= λ _, modify (set_next None)) ≫= λ _,
      throw (Context "switching" e)
  end.

Definition advance (id : string) : MA Z :=
  g ← gets gens;
  let n := default 0%Z (fst <$> g) in
  files ← build (n + 1) id;
  pointed ← attempt (point (n + 1));
  match pointed with
  | Err e => attempt (remove_gen (n + 1)) ≫= λ _, throw e
  | Ok _ =>
      modify (set_gens (Some (n + 1, id)%Z)) ≫= λ _,
      (if (1 <? n)%Z then attempt (remove_gen (n - 1)) ≫= λ _, mret () else mret ()) ≫= λ _,
      mret files
  end.

Definition startGenerations : MA unit :=
  context "clearing link" (call "rm link") ≫= λ _,
  modify (λ a, set_bare ∅ (set_genfs (mkGenFS (g_dirs (genfs a)) None (g_next (genfs a))) a)) ≫= λ _,
  context "clearing generations" (call "rm -gen") ≫= λ _,
  modify (λ a, set_genfs (mkGenFS ∅ None (g_next (genfs a))) a) ≫= λ _,
  call "mkdir -gen" ≫= λ _,
  context "chown -gen" chownRootIfNeeded ≫= λ _,
  id ← context "reading LATEST pointer" (lift (Latest s));
  build 1 id ≫= λ _,
  pointed ← attempt (point 1);
  match pointed with
  | Err e => attempt (remove_gen 1) ≫= λ _, throw e
  | Ok _ => modify (set_gens (Some (1%Z, id)))
  end.

(** *** The save slot *)

(** acquire: the slot, unless it is taken and stays so past the wait. Even a
    free slot can lose to a timer that has fired. *)
Definition acquire : MA unit :=
  taken ← gets slot;
  if (taken : bool) then throw ErrSaveInProgress else
  won ← ran "slot";
  if (won : bool) then modify (set_slot true) else throw ErrSaveInProgress.
Definition release : MA unit := modify (set_slot false).

(** [defer release()]: the slot is given back however [m] ends. *)
Definition holding {A} (m : MA A) : MA A :=
  r ← attempt m;
  release ≫= λ _,
  match r with Ok x => mret x | Err e => throw e end.

Definition save_view (sv : saveState) (t : Z) : list (string * json) :=
  [("trigger", JStr (sv_Trigger sv)); ("since", JTime (sv_Since sv))] ++
  match sv_Finished sv with
  | None => [("elapsedSeconds", JNum ((t - sv_Since sv) / second)%Z)]
  | Some f =>
      [("finished", JTime f); ("outcome", JStr (sv_Outcome sv))] ++
      (if String.eqb (sv_CheckpointID sv) "" then []
       else [("checkpointId", JStr (sv_CheckpointID sv))])
  end.

Definition busy (a : Agent) : list (string * json) :=
  let t := now (sys a) in
  [("error", JStr "a save is in progress; retry when it completes")] ++
  match current a with Some sv => [("inProgress", JObj (save_view sv t))] | None => [] end ++
  match lastDone a with Some sv => [("lastCompleted", JObj (save_view sv t))] | None => [] end.

(** snapshotCtx, in the two halves between which the save runs. *)
Definition save_begin (trigger : string) : MA string :=
  acquire ≫= λ _,
  modify (λ a, set_current (Some (mkSave trigger (now (sys a)) None "" "")) a) ≫= λ _,
  gets last.

Definition save_outcome (r : result serr Manifest) : string * string :=
  match r with
  | Ok m => (m_ID m, "saved")
  | Err e =>
      if SIs e ErrUnchanged || SIs e ErrNothingToSave then ("", "skipped") else ("", "failed")
  end.

(** [done := *current] with [current] nil would panic: [None]. *)
Definition save_end (r : result serr Manifest) (a : Agent) : option Agent :=
  match current a with
  | None => None
  | Some sv =>
      let '(id, out) := save_outcome r in
      let done := mkSave (sv_Trigger sv) (sv_Since sv) (Some (now (sys a))) out id in
      let a := match r with Ok m => set_last (m_ID m) a | Err _ => a end in
      Some (set_slot false (set_lastDone (Some done) (set_current None a)))
  end.

(** The snapshot of the tree at WORKSPACE_ROOT. *)
Definition save_run (name desc trigger parent : string) : MA Manifest :=
  t ← gets view;
  lift (Snapshot s t name desc trigger parent).

Definition snapshotCtx (configured : bool) (name desc trigger : string) : MA Manifest :=
  if negb configured then throw (StoreErr ErrNotConfigured) else
  parent ← save_begin trigger;
  r ← attempt (save_run name desc trigger parent);
  modify (λ a, default a (save_end r a)) ≫= λ _,
  match r with Ok m => mret m | Err e => throw e end.

(** *** Handlers *)

Definition answer (c : Z) (b : list (string * json)) : MA Response := mret (mkResponse c false b).
Definition answer_busy (extra : list (string * json)) : MA Response :=
  a ← get;
  mret (mkResponse 503 true (busy a ++ extra)).
Definition err_body (msg : string) : list (string * json) := [("error", JStr msg)].

Definition handle_checkpoint (configured : bool) (isPost : bool) (name desc : string)
    : MA Response :=
  if negb isPost then answer 405 [] else
  if configured && readOnly s then answer 409 (err_body "workspace is read-only") else
  r ← attempt (snapshotCtx configured name desc "on-demand");
  match r with
  | Ok m => answer 200 [("checkpointId", JStr (m_ID m)); ("files", JNum (Z.of_nat (length (m_Entries m))))]
  | Err e =>
      if is_busy e then answer_busy []
      else if SIs e ErrUnchanged then answer 200 [("checkpointId", JStr ""); ("skipped", JStr "unchanged")]
      else if SIs e ErrNothingToSave then answer 200 [("checkpointId", JStr ""); ("skipped", JStr "nothing-to-save")]
      else if SIs e ErrNotConfigured then answer 200 [("checkpointId", JStr ""); ("skipped", JStr "not-configured")]
      else answer 500 []
  end.

Definition handle_flush (configured : bool) : MA Response :=
  if configured && readOnly s then answer 409 (err_body "workspace is read-only") else
  r ← attempt (snapshotCtx configured "" "" "teardown");
  match r with
  | Ok m => answer 200 [("checkpointId", JStr (m_ID m))]
  | Err e =>
      if is_busy e then answer_busy []
      else if SIs e ErrNotConfigured then answer 200 [("skipped", JStr "not-configured")]
      else answer 500 []
  end.

(** The part of /restore that holds the slot. *)
Definition restore_to (checkpointID : string) : MA Response :=
  target ← (if String.eqb checkpointID "" then
              r ← attempt (lift (Latest s));
              mret match r with Ok id => id | Err _ => "" end
            else mret checkpointID);
  if String.eqb target "" then answer 404 (err_body "no checkpoint to restore") else
  got ← attempt (lift (GetManifest s target));
  match got with
  | Err _ => answer 404 (err_body "checkpoint not found")
  | Ok m =>
      archive ← attempt (lift (DownloadCheckpointArchive s target));
      match archive with
      | Err e =>
          if SIs e ErrNoArchive then
            unmountFuse ≫= λ _,
            r ← attempt (restoreRoot m);
            match r with
            | Ok _ => modify (set_last target) ≫= λ _, answer 200 [("restored", JBool true); ("checkpoint", JStr target)]
            | Err _ => answer 500 (err_body "restore")
            end
          else answer 500 (err_body "archive")
      | Ok img =>
          unmountFuse ≫= λ _,
          r ← attempt (mountFuse img);
          match r with
          | Ok _ => modify (set_last target) ≫= λ _, answer 200 [("restored", JBool true); ("checkpoint", JStr target)]
          | Err _ => answer 500 (err_body "mount")
          end
      end
  end.

Definition handle_restore (configured : bool) (isPost : bool) (checkpointID : string)
    : MA Response :=
  if negb isPost then answer 405 [] else
  if negb configured then answer 503 (err_body "object storage not configured") else
  if readOnly s then answer 409 (err_body "workspace is pinned and read-only") else
  got ← attempt acquire;
  match got with
  | Err _ => answer_busy []
  | Ok _ => holding (restore_to checkpointID)
  end.

Definition failed (why : string) : list (string * json) :=
  [("outcome", JStr "failed"); ("error", JStr why)].

(** The part of /refresh that holds the slot; [held] is gens.id. *)
Definition refresh_to (held : string) : MA Response :=
  r ← attempt (lift (Latest s));
  match r with
  | Err _ => answer 502 (failed "reading LATEST pointer")
  | Ok id =>
      if String.eqb id held then
        answer 200 [("outcome", JStr "unchanged"); ("checkpoint", JStr id)]
      else if String.eqb id "" then answer 409 (failed "no LATEST checkpoint")
      else
        moved ← attempt (advance id);
        match moved with
        | Err _ => answer 500 (failed "advance")
        | Ok files =>
            answer 200 [("outcome", JStr "refreshed"); ("checkpoint", JStr id); ("files", JNum files)]
        end
  end.

Definition handle_refresh (isPost : bool) : MA Response :=
  if negb isPost then answer 405 [] else
  g ← gets gens;
  match g with
  | None => answer 409 (failed "refresh is not enabled for this workspace")
  | Some (_, held) =>
      got ← attempt acquire;
      match got with
      | Err _ => answer_busy [("outcome", JStr "failed")]
      | Ok _ => holding (refresh_to held)
      end
  end.

Definition handle_list (configured : bool) : MA Response :=
  if negb configured then answer 503 (err_body "object storage not configured") else
  r ← attempt (lift (ListCheckpoints s));
  match r with
  | Err _ => answer 500 []
  | Ok ids => answer 200 [("ids", JObj ((λ id, (id, JStr id)) <$> ids))]
  end.

(** *** Start-up, backstop and shutdown *)

(** runServe, up to the readiness marker. *)
Definition serve_start (configured : bool) : MA unit :=
  context "creating staging directory" (call "mkdir staging") ≫= λ _,
  match refreshEnabled configured with
  | Err e => throw e
  | Ok refresh =>
      (if (refresh : bool) then context "restore on startup" startGenerations
       else if configured then context "restore on startup" restoreWorkspace ≫= λ _, mret ()
       else mret ()) ≫= λ _,
      context "write readiness marker" (call ".ready")
  end.

(** WORKSPACE_SYNC_INTERVAL_SECONDS, in nanoseconds; 0 is off. *)
Definition interval : Z :=
  match Atoi (getenv "WORKSPACE_SYNC_INTERVAL_SECONDS") with
  | Some n => if (0 <? n)%Z then wrap64 (n * second) else 0%Z
  | None => 0%Z
  end.

(** One tick of the backstop. Its error is logged, never returned. *)
Definition tick (configured : bool) : MA unit :=
  if (configured && readOnly s) || (interval <=? 0)%Z then mret ()
  else attempt (snapshotCtx configured "" "" "periodic") ≫= λ _, mret ().

(** The goroutine that waits for SIGTERM, after the signal: what it logs. *)
Definition shutdown (configured : bool) : MA string :=
  unmountFuse ≫= λ _,
  attempt (call "srv.Shutdown") ≫= λ _,
  if String.eqb (getenv "WORKSPACE_SYNC_TEARDOWN") "false" then mret "disabled"
  else if configured && readOnly s then mret "read-only"
  else
    r ← attempt (snapshotCtx configured "" "" "teardown");
    mret match r with
         | Ok m => "teardown checkpoint " +:+ m_ID m
         | Err e =>
             if SIs e ErrNotConfigured then "skipped: not configured"
             else if SIs e ErrUnchanged then "skipped: unchanged"
             else if SIs e ErrNothingToSave then "skipped: no files"
             else "TEARDOWN CHECKPOINT FAILED"
         end.

(** *** Requests *)

(** What the serving process reacts to, and what happens around it: the
    workload writing its tree, and other sessions writing the bucket. *)
Inductive request :=
| Checkpoint (isPost : bool) (name desc : string)
| Flush
| RestoreTo (isPost : bool) (checkpointID : string)
| Refresh (isPost : bool)
| List
| Tick
| Sigterm.

Definition serve (configured : bool) (r : request) : MA unit :=
  match r with
  | Checkpoint p n d => handle_checkpoint configured p n d ≫= λ _, mret ()
  | Flush => handle_flush configured ≫= λ _, mret ()
  | RestoreTo p id => handle_restore configured p id ≫= λ _, mret ()
  | Refresh p => handle_refresh p ≫= λ _, mret ()
  | List => handle_list configured ≫= λ _, mret ()
  | Tick => tick configured
  | Sigterm => shutdown configured ≫= λ _, mret ()
  end.
End agent.
