(* ===== verification/WorkspaceSyncFacts.v ===== *)
(** * WorkspaceSyncFacts: what the agent guarantees.

    A restore never passes an unreachable store off as an empty workspace; a
    reader never writes; a refresh is all or nothing; the save slot admits one
    holder, is always given back, and a save that ends finds its own record; a
    checkpoint answered 200 is LATEST. And what the shutdown path does to a
    workspace that was restored by mounting it. *)

From stdpp Require Import functions.
From S2P Require Import Prelude.
From S2P Require Import WorkspaceStore.
From S2P Require Import WorkspaceStoreFacts.
From S2P Require Import WorkspaceSnapshotFacts.
From S2P Require Import WorkspaceRestoreFacts.
From S2P Require Import WorkspaceSync.

Local Open Scope string_scope.

(** ** Rules for the agent's programs *)

Section rules.
Context (I : Agent → Prop).

Lemma keeps_lift {A} (m : M A) :
  (∀ a st, I a → st = (m (sys a)).2 → I (set_sys st a)) → keeps I (lift m).
Proof.
  intros H a Ha. specialize (H a (m (sys a)).2 Ha eq_refl). unfold lift.
  by destruct (m (sys a)) as [[] ?].
Qed.

Lemma keeps_context {A} w (m : MA A) : keeps I m → keeps I (context w m).
Proof. intros H a Ha. specialize (H a Ha). unfold context. by destruct (m a) as [[] ?]. Qed.
End rules.

(** Walks the text of one of the agent's programs with a tactic for its leaves. *)
Ltac walk_agent leaf :=
  repeat first
    [ progress intros
    | leaf
    | match goal with
      | |- keeps _ (match ?x with _ => _ end) => destruct x eqn:?
      | |- keeps _ (let '(_, _) := ?x in _) => destruct x eqn:?
      end
    | apply keeps_bind | apply keeps_attempt | apply keeps_context
    | apply keeps_forM
    | solve [eauto with keeps] ].

Section projections.
Context {P : Platform} {MO : Mounter} (getenv : string → string) (getuid : Z) (s : Store).

(** What only the slot's own code changes. *)
Definition slot_is (b : bool) (c : option saveState) (a : Agent) : Prop :=
  slot a = b ∧ current a = c.

Lemma slot_lift {A} b c (m : M A) : keeps (slot_is b c) (lift m).
Proof. apply keeps_lift. by intros a st Ha _. Qed.

Lemma slot_restoreRoot b c m : keeps (slot_is b c) (restoreRoot s m).
Proof. intros a Ha. unfold restoreRoot. by destruct (Restore _ _ _ _) as [[[] ?] ?]. Qed.

Lemma slot_restoreGen b c n m : keeps (slot_is b c) (restoreGen s n m).
Proof. intros a Ha. unfold restoreGen. by destruct (Restore _ _ _ _) as [[[] ?] ?]. Qed.

Lemma slot_modify b c f :
  (∀ a, slot (f a) = slot a ∧ current (f a) = current a) → keeps (slot_is b c) (modify f : MA unit).
Proof. intros Hf a [Hs Hc]. destruct (Hf a) as [Hs' Hc']. split; cbn; congruence. Qed.

Ltac slot_leaf :=
  first [ apply slot_lift | apply slot_restoreRoot | apply slot_restoreGen
        | apply slot_modify; intros; cbn; solve [done | repeat case_match; done] ].

Lemma slot_unmountFuse b c : keeps (slot_is b c) unmountFuse.
Proof. unfold unmountFuse, ran, call. walk_agent slot_leaf. Qed.

Lemma slot_mountFuse b c img : keeps (slot_is b c) (mountFuse img).
Proof. unfold mountFuse, ran, call. walk_agent slot_leaf. Qed.

Lemma slot_restore_to b c id : keeps (slot_is b c) (restore_to s id).
Proof.
  unfold restore_to, answer.
  walk_agent ltac:(first [slot_leaf | apply slot_unmountFuse | apply slot_mountFuse]).
Qed.

Lemma slot_chownTree b c t : keeps (slot_is b c) (chownTree getenv getuid t).
Proof. unfold chownTree, call. walk_agent slot_leaf. Qed.

Lemma slot_remove_gen b c n : keeps (slot_is b c) (remove_gen n).
Proof. unfold remove_gen, call. walk_agent slot_leaf. Qed.

Lemma slot_build b c n id : keeps (slot_is b c) (build getenv getuid s n id).
Proof.
  unfold build, build_body, call.
  walk_agent ltac:(first [apply slot_chownTree | apply slot_remove_gen | slot_leaf]).
Qed.

Lemma slot_point b c n : keeps (slot_is b c) (point n).
Proof. unfold point, call. walk_agent slot_leaf. Qed.

Lemma slot_refresh_to b c held : keeps (slot_is b c) (refresh_to getenv getuid s held).
Proof.
  unfold refresh_to, advance, answer.
  walk_agent ltac:(first [apply slot_build | apply slot_point | apply slot_remove_gen | slot_leaf]).
Qed.
End projections.

(** ** The save slot *)

Section slot.
Context {P : Platform} {MO : Mounter} (getenv : string → string) (getuid : Z) (s : Store).

Abbreviation free := (slot_is false None).

(** A tried slot is either won or left to whoever holds it. *)
Lemma acquire_spec a :
  match acquire a with
  | (Ok _, a') => slot a = false ∧ ∃ st, bucket st = bucket (sys a) ∧ now st = now (sys a) ∧
      pid st = pid (sys a) ∧ a' = set_slot true (set_sys st a)
  | (Err e, a') => e = ErrSaveInProgress ∧ ∃ st, bucket st = bucket (sys a) ∧ a' = set_sys st a
  end.
Proof.
  unfold acquire. rewrite bind_run. cbn [gets]. destruct (slot a) eqn:E.
  { cbn. split; [done|]. exists (sys a). split; [done|]. by destruct a. }
  rewrite bind_run. unfold ran, call, attempt, lift. rewrite bind_run.
  unfold syscall, pop. rewrite bind_run.
  destruct (script (sys a)) as [|o l]; cbn.
  { split; [done|]. by exists (set_script [] (sys a)). }
  destruct (decide (o = Done)); cbn; (split; [done|]); by exists (set_script l (sys a)).
Qed.

Lemma save_begin_spec trigger a :
  match save_begin trigger a with
  | (Ok parent, a') => slot a = false ∧ parent = last a ∧ slot a' = true ∧
      (∃ t, current a' = Some (mkSave trigger t None "" "")) ∧
      bucket (sys a') = bucket (sys a) ∧ view a' = view a ∧ last a' = last a ∧
      now (sys a') = now (sys a) ∧ pid (sys a') = pid (sys a)
  | (Err e, a') => e = ErrSaveInProgress ∧ ∃ st, bucket st = bucket (sys a) ∧ a' = set_sys st a
  end.
Proof.
  unfold save_begin. rewrite bind_run. pose proof (acquire_spec a) as Ha.
  destruct (acquire a) as [[u|e] a1]; [|done]. destruct Ha as (Hs & st & Hb & Hn & Hp & ->).
  rewrite bind_run. cbn. destruct a; cbn in *. split_and!; eauto.
Qed.

Lemma free_snapshotCtx c n d t : keeps free (snapshotCtx s c n d t).
Proof.
  intros a [Hsl Hc]. unfold snapshotCtx. destruct c; cbn [negb]; [|done].
  rewrite bind_run. pose proof (save_begin_spec t a) as Hb.
  destruct (save_begin t a) as [[p|e] a1]; cbn.
  2: { destruct Hb as (_ & st & _ & ->). done. }
  destruct Hb as (_ & _ & Hs1 & [tm Hc1] & _). rewrite bind_run. unfold attempt.
  assert (Hk : slot_is true (current a1) (save_run s n d t p a1).2).
  { revert Hs1. unfold save_run. intros. apply (keeps_bind (slot_is true (current a1)));
      [by apply keeps_gets|intros; apply slot_lift|done]. }
  destruct (save_run s n d t p a1) as [r a2]. cbn in Hk. destruct Hk as [Hs2 Hc2].
  rewrite bind_run. cbn. unfold save_end. rewrite Hc2, Hc1.
  destruct (save_outcome r) as [id out]. cbn. by destruct r.
Qed.

(** A handler that holds the slot gives it back. *)
Lemma free_holding {A} (m : MA A) (busy_ : serr → MA A) :
  keeps (slot_is true None) m → (∀ e, keeps free (busy_ e)) →
  keeps free (attempt acquire ≫= λ got,
    match got with Err e => busy_ e | Ok _ => holding m end).
Proof.
  intros Hm Hb a [Hs Hc]. rewrite bind_run. unfold attempt at 1.
  pose proof (acquire_spec a) as Ha. destruct (acquire a) as [[u|e] a1].
  - destruct Ha as (_ & st & _ & _ & _ & ->). unfold holding. rewrite bind_run.
    unfold attempt. assert (H1 : slot_is true None (set_slot true (set_sys st a))) by done.
    specialize (Hm _ H1). destruct (m _) as [r a2]. rewrite bind_run. cbn.
    destruct Hm as [_ Hc2]. by destruct r.
  - destruct Ha as (_ & st & _ & ->). by apply Hb.
Qed.

Lemma free_serve c r : keeps free (serve getenv getuid s c r).
Proof.
  assert (Hsc := free_snapshotCtx). assert (Hbusy : ∀ l, keeps free (answer_busy l)).
  { intros l. unfold answer_busy. apply keeps_bind; [apply keeps_get|intros; apply keeps_ret]. }
  destruct r; cbn [serve]; unfold handle_checkpoint, handle_flush, handle_restore,
    handle_refresh, handle_list, tick, shutdown, answer, call;
    walk_agent ltac:(first [apply Hsc | apply Hbusy | apply slot_lift | apply slot_unmountFuse
      | (apply free_holding; [first [apply slot_restore_to | apply slot_refresh_to]|])]).
Qed.
End slot.

(** *** Interleavings *)

(** What a goroutine is doing with the slot. *)
Inductive phase := Idle | Saving | Exclusive.

#[export] Instance phase_eq_dec : EqDecision phase.
Proof. solve_decision. Defined.

(** One step of the goroutines over the shared state. Between taking and giving
    back the slot a holder changes what it likes but the slot's own fields; so may,
    at any time, the workload and the shutdown path, which do not take the slot. *)
Inductive slot_step : Agent * (nat → phase) → Agent * (nat → phase) → Prop :=
| step_save_begin a th t trigger parent a' :
    th t = Idle → save_begin trigger a = (Ok parent, a') →
    slot_step (a, th) (a', <[t := Saving]> th)
| step_save_end a th t r a' :
    th t = Saving → save_end r a = Some a' → slot_step (a, th) (a', <[t := Idle]> th)
| step_exclusive_begin a th t a' u :
    th t = Idle → acquire a = (Ok u, a') → slot_step (a, th) (a', <[t := Exclusive]> th)
| step_exclusive_end a th t :
    th t = Exclusive → slot_step (a, th) ((release a).2, <[t := Idle]> th)
| step_give_up a th t trigger e a' :
    th t = Idle → save_begin trigger a = (Err e, a') → slot_step (a, th) (a', th)
| step_work a th a' :
    slot a' = slot a → current a' = current a → slot_step (a, th) (a', th).

Definition slot_inv (x : Agent * (nat → phase)) : Prop :=
  let '(a, th) := x in
  (∀ t t', th t ≠ Idle → th t' ≠ Idle → t = t') ∧
  (slot a = true ↔ ∃ t, th t ≠ Idle) ∧
  (is_Some (current a) ↔ ∃ t, th t = Saving).

Section slot_inv.
Implicit Types (th : nat → phase) (t : nat).

(** Taking a free slot, and giving it back. *)
Lemma slot_inv_take a a' th t p :
  p ≠ Idle → th t = Idle → slot a = false → slot a' = true →
  (is_Some (current a') ↔ p = Saving ∨ is_Some (current a)) →
  slot_inv (a, th) → slot_inv (a', <[t := p]> th).
Proof.
  intros Hp Ht Hs Hs' Hc (Hex & Hsl & Hcu).
  assert (Hidle : ∀ t, th t = Idle).
  { intros t'. destruct (decide (th t' = Idle)) as [|Hn]; [done|].
    rewrite (proj2 Hsl) in Hs; eauto; done. }
  split_and!.
  - intros t1 t2. destruct (decide (t = t1)) as [<-|H1], (decide (t = t2)) as [<-|H2];
      rewrite ?fn_lookup_insert, ?fn_lookup_insert_ne, ?Hidle by done; done.
  - split; [intros _|done]. exists t. by rewrite fn_lookup_insert.
  - rewrite Hc, Hcu. split.
    + intros [->|[t' Ht']]; [exists t; by rewrite fn_lookup_insert|].
      by rewrite Hidle in Ht'.
    + intros [t' Ht']. destruct (decide (t = t')) as [<-|Hne].
      * rewrite fn_lookup_insert in Ht'. by left.
      * rewrite fn_lookup_insert_ne, Hidle in Ht' by done. done.
Qed.

Lemma slot_inv_give a a' th t :
  th t ≠ Idle → slot a' = false → (current a' = None ∨ current a' = current a ∧ th t ≠ Saving) →
  slot_inv (a, th) → slot_inv (a', <[t := Idle]> th).
Proof.
  intros Ht Hs' Hc (Hex & Hsl & Hcu).
  assert (Hidle : ∀ t', (<[t := Idle]> th) t' = Idle).
  { intros t'. destruct (decide (t = t')) as [<-|Hne]; [by rewrite fn_lookup_insert|].
    rewrite fn_lookup_insert_ne by done.
    destruct (decide (th t' = Idle)) as [|Hn]; [done|]. by destruct Hne; apply Hex. }
  split_and!.
  - intros t1 t2 H1. by rewrite Hidle in H1.
  - rewrite Hs'. split; [done|]. intros [t' Ht']. by rewrite Hidle in Ht'.
  - split; [|intros [t' Ht']; by rewrite Hidle in Ht'].
    destruct Hc as [->|[-> Hns]]; [by intros [? ?]|].
    intros [t' Ht']%Hcu. assert (t = t') as <-; [|done]. apply Hex; [done|]. by rewrite Ht'.
Qed.

Lemma slot_inv_step x y : slot_inv x → slot_step x y → slot_inv y.
Proof.
  intros Hi Hst. revert Hi.
  destruct Hst as [a th t trigger parent a' Ht Hb|a th t r a' Ht He|a th t a' u Ht Hb|a th t Ht
    |a th t trigger e a' Ht Hb|a th a' Hs Hc]; intros Hi.
  - pose proof (save_begin_spec trigger a) as Hsp. rewrite Hb in Hsp.
    destruct Hsp as (Hs & _ & Hs' & [tm Hc] & _).
    apply (slot_inv_take a); [done..| |done]. rewrite Hc. naive_solver.
  - unfold save_end in He. destruct (current a) as [sv|]; [|done].
    destruct (save_outcome r). injection He as <-.
    by apply (slot_inv_give a); [rewrite Ht|destruct r|left; destruct r|].
  - pose proof (acquire_spec a) as Hsp. rewrite Hb in Hsp.
    destruct Hsp as (Hs & st & _ & _ & _ & ->).
    apply (slot_inv_take a); [done..| |done]. cbn. naive_solver.
  - by apply (slot_inv_give a); [rewrite Ht| |right; rewrite Ht|].
  - pose proof (save_begin_spec trigger a) as Hsp. rewrite Hb in Hsp.
    by destruct Hsp as (_ & st & _ & ->).
  - unfold slot_inv. by rewrite Hs, Hc.
Qed.
End slot_inv.

(** C30: however the goroutines of the agent interleave, at most one of them is
    between taking and giving back the save slot; the slot is taken exactly when
    one is; and a save that ends always finds the record it made, so that
    [*current] is never a nil dereference. *)
Theorem save_slot_exclusive (a0 : Agent) (x : Agent * (nat → phase)) :
  slot a0 = false → current a0 = None → rtc slot_step (a0, λ _, Idle) x →
  let '(a, th) := x in
  (∀ t t', th t ≠ Idle → th t' ≠ Idle → t = t') ∧
  (slot a = true ↔ ∃ t, th t ≠ Idle) ∧
  (∀ t r, th t = Saving → is_Some (save_end r a)).
Proof.
  intros Hs Hc Hrun. assert (Hi : slot_inv x).
  { refine (rtc_ind_r slot_inv _ _ _ _ Hrun); [|by intros ???? ?; eapply slot_inv_step].
    split_and!; [done|rewrite Hs; naive_solver|rewrite Hc]. split; [by intros []|naive_solver]. }
  destruct x as [a th], Hi as (Hex & Hsl & Hcu). split_and!; [done..|].
  intros t r Ht. unfold save_end. destruct (proj2 Hcu) as [sv ->]; [eauto|].
  destruct (save_outcome r). eauto.
Qed.

(** No request leaks the slot: served from a state with the slot free, every
    request leaves it free, on each of its error paths and whatever fails. *)
Theorem serve_releases_slot {P : Platform} {MO : Mounter} (getenv : string → string)
    (getuid : Z) (s : Store) (configured : bool) (r : request) (a : Agent) :
  slot a = false → current a = None →
  let a' := (serve getenv getuid s configured r a).2 in
  slot a' = false ∧ current a' = None.
Proof. intros Hs Hc. exact (free_serve getenv getuid s configured r a (conj Hs Hc)). Qed.

(** ** What the store's readers return *)

Section readers.
Context {P : Platform} (s : Store).

(** The checkpoint the LATEST pointer of a bucket names; "" when there is none. *)
Definition latest_of (b : gmap string string) : string :=
  match b !! latestKey s with
  | Some body => TrimSpace body
  | None => ""
  end.

Lemma syscall_err w st e st' : syscall w st = (Err e, st') → e = Transport w.
Proof.
  unfold syscall, pop. rewrite bind_run. destruct (script st) as [|o l]; cbn; [done|].
  destruct (decide (o = Done)); [done|]. by intros [= <- _].
Qed.

(** The errors of a fetch: the key is not there, or the call failed. *)
Lemma fetch_err {A} (k : string) (f : string → A) st e st' :
  (syscall k ≫= λ _, b ← gets bucket;
    match b !! k with Some x => mret (f x) | None => throw (NoSuchKey k) end) st = (Err e, st') →
  e = Transport k ∨ e = NoSuchKey k ∧ bucket st !! k = None.
Proof.
  rewrite bind_run. destruct (reads_syscall (bucket st) k st eq_refl) as [Hb _].
  destruct (syscall k st) as [[[]|e1] st1] eqn:E.
  - rewrite bind_run. cbn in *. rewrite Hb. destruct (bucket st !! k); [done|].
    intros [= <- _]. by right.
  - intros [= <- _]. left. by apply syscall_err in E.
Qed.

Lemma GetObject_err k st e st' :
  GetObject k st = (Err e, st') → e = Transport k ∨ e = NoSuchKey k ∧ bucket st !! k = None.
Proof. apply (fetch_err k id). Qed.

Lemma StatObject_err k st e st' :
  StatObject k st = (Err e, st') → e = Transport k ∨ e = NoSuchKey k ∧ bucket st !! k = None.
Proof. apply (fetch_err k (λ _, ())). Qed.

Lemma reads_Latest b : reads b (Latest s) (λ id, id = latest_of b).
Proof.
  intros st Hst. unfold Latest, attempt. rewrite bind_run.
  destruct (reads_GetObject b (latestKey s) st Hst) as [Hb Hg].
  destruct (GetObject (latestKey s) st) as [[body|e] st1] eqn:E; cbn in *.
  - split; [done|]. intros id [= <-]. unfold latest_of. by rewrite (Hg body eq_refl).
  - apply GetObject_err in E as [->|[-> Hn]]; cbn; (split; [done|]); [done|].
    intros id [= <-]. unfold latest_of. by rewrite <-Hst, Hn.
Qed.

Lemma reads_Resolve b :
  reads b (Resolve s) (λ id,
    if decide (pinned s = "") then id = latest_of b
    else id = pinned s ∧ is_Some (b !! manifestKey s (pinned s))).
Proof.
  unfold Resolve. destruct (String.eqb_spec (pinned s) "") as [Hp|Hp].
  { eapply reads_mono; [apply reads_Latest|]. intros id Hid. by case_decide. }
  eapply reads_bind; [apply reads_wrap, reads_StatObject|]. intros [] Hm.
  apply reads_ret. by case_decide.
Qed.

Lemma downloadTo_spec k st :
  bucket (downloadTo k st).2 = bucket st ∧
  match (downloadTo k st).1 with
  | Ok body => bucket st !! k = Some body
  | Err e => Is e ErrNoArchive = true → bucket st !! k = None
  end.
Proof.
  unfold downloadTo, attempt. rewrite bind_run.
  destruct (reads_StatObject (bucket st) k st eq_refl) as [Hb _].
  destruct (StatObject k st) as [[[]|e] st1] eqn:E; cbn in Hb.
  2: { apply StatObject_err in E as [->|[-> Hn]]; (split; [done|]);
       by intros ?%bool_decide_eq_true. }
  rewrite bind_run. unfold wrap.
  destruct (reads_GetObject (bucket st) k st1 Hb) as [Hb2 Hg].
  destruct (GetObject k st1) as [[body|e] st2] eqn:E2; cbn in Hb2.
  2: { split; [done|]. by apply GetObject_err in E2 as [->|[-> Hn]];
       intros ?%bool_decide_eq_true. }
  rewrite bind_run. destruct (reads_syscall (bucket st) "write archive" st2 Hb2) as [Hb3 _].
  destruct (syscall _ st2) as [[[]|e] st3] eqn:E3; cbn in Hb3 |- *.
  - split; [done|]. by apply Hg.
  - split; [done|]. apply syscall_err in E3 as ->. by intros ?%bool_decide_eq_true.
Qed.
End readers.

(** ** A reader never writes *)

Section reader.
Context {P : Platform} {MO : Mounter} (getenv : string → string) (getuid : Z) (s : Store).

Definition bucket_is (b : gmap string string) (a : Agent) : Prop := bucket (sys a) = b.

Lemma bucket_lift {A} b (m : M A) φ : reads b m φ → keeps (bucket_is b) (lift m).
Proof. intros Hm. apply keeps_lift. intros a st Ha ->. by apply Hm. Qed.

Lemma bucket_call b w : keeps (bucket_is b) (call w).
Proof. eapply bucket_lift, reads_syscall. Qed.

Lemma bucket_modify b f :
  (∀ a, sys (f a) = sys a) → keeps (bucket_is b) (modify f : MA unit).
Proof. intros Hf a Ha. unfold bucket_is. cbn. by rewrite Hf. Qed.

Lemma reads_downloadTo b k : reads b (downloadTo k) (λ _, True).
Proof. intros st <-. split; [apply downloadTo_spec|done]. Qed.

Lemma bucket_restoreRoot b m : keeps (bucket_is b) (restoreRoot s m).
Proof.
  intros a Ha. unfold restoreRoot. pose proof (Restore_bucket s (bare a) m (sys a)) as Hb.
  destruct (Restore _ _ _ _) as [[[] ?] ?]; cbn in *; unfold bucket_is in *; cbn; congruence.
Qed.

Lemma bucket_restoreGen b n m : keeps (bucket_is b) (restoreGen s n m).
Proof.
  intros a Ha. unfold restoreGen.
  pose proof (Restore_bucket s (default ∅ (g_dirs (genfs a) !! n)) m (sys a)) as Hb.
  destruct (Restore _ _ _ _) as [[[] ?] ?]; cbn in *; unfold bucket_is in *; cbn; congruence.
Qed.

Ltac bucket_leaf :=
  first [ apply bucket_call | apply bucket_restoreRoot | apply bucket_restoreGen
        | (eapply bucket_lift; first [apply reads_Latest | apply reads_Resolve
            | apply reads_GetManifest | apply reads_downloadTo | apply reads_ListCheckpoints])
        | apply bucket_modify; intros; cbn; solve [done | repeat case_match; done] ].

Lemma bucket_unmountFuse b : keeps (bucket_is b) unmountFuse.
Proof. unfold unmountFuse, ran. walk_agent bucket_leaf. Qed.

Lemma bucket_mountFuse b img : keeps (bucket_is b) (mountFuse img).
Proof. unfold mountFuse, ran. walk_agent bucket_leaf. Qed.

Lemma bucket_chownTree b t : keeps (bucket_is b) (chownTree getenv getuid t).
Proof. unfold chownTree. walk_agent bucket_leaf. Qed.

Lemma bucket_remove_gen b n : keeps (bucket_is b) (remove_gen n).
Proof. unfold remove_gen. walk_agent bucket_leaf. Qed.

Lemma bucket_build b n id : keeps (bucket_is b) (build getenv getuid s n id).
Proof.
  unfold build, build_body.
  walk_agent ltac:(first [apply bucket_chownTree | apply bucket_remove_gen | bucket_leaf]).
Qed.

Lemma bucket_point b n : keeps (bucket_is b) (point n).
Proof. unfold point. walk_agent bucket_leaf. Qed.

Lemma bucket_restoreFromCheckpoint b id :
  keeps (bucket_is b) (restoreFromCheckpoint getenv getuid s id).
Proof.
  unfold restoreFromCheckpoint. walk_agent ltac:(first [apply bucket_chownTree | bucket_leaf]).
Qed.

Lemma bucket_restoreFromManifest b :
  keeps (bucket_is b) (restoreFromManifest getenv getuid s).
Proof.
  unfold restoreFromManifest.
  walk_agent ltac:(first [apply bucket_restoreFromCheckpoint | bucket_leaf]).
Qed.

Lemma bucket_restoreWorkspace b : keeps (bucket_is b) (restoreWorkspace getenv getuid s).
Proof.
  unfold restoreWorkspace, mountArchive, chownRootIfNeeded, DownloadArchive,
    DownloadCheckpointArchive.
  walk_agent ltac:(first [apply bucket_restoreFromManifest | apply bucket_restoreFromCheckpoint
    | apply bucket_mountFuse | apply bucket_unmountFuse | bucket_leaf]).
Qed.

Lemma bucket_refresh_to b held : keeps (bucket_is b) (refresh_to getenv getuid s held).
Proof.
  unfold refresh_to, advance, answer.
  walk_agent ltac:(first [apply bucket_build | apply bucket_point | apply bucket_remove_gen
    | bucket_leaf]).
Qed.

Lemma bucket_acquire b : keeps (bucket_is b) acquire.
Proof. unfold acquire, ran. walk_agent bucket_leaf. Qed.

Lemma bucket_startGenerations b : keeps (bucket_is b) (startGenerations getenv getuid s).
Proof.
  unfold startGenerations, chownRootIfNeeded.
  walk_agent ltac:(first [apply bucket_build | apply bucket_point | apply bucket_remove_gen
    | bucket_leaf]).
Qed.

Lemma bucket_serve_start b c : keeps (bucket_is b) (serve_start getenv getuid s c).
Proof.
  unfold serve_start. walk_agent ltac:(first [apply bucket_startGenerations
    | apply bucket_restoreWorkspace | bucket_leaf]).
Qed.

Lemma bucket_serve_reader b r :
  readOnly s = true → keeps (bucket_is b) (serve getenv getuid s true r).
Proof.
  intros Hro. destruct r; cbn [serve]; unfold handle_checkpoint, handle_flush, handle_restore,
    handle_refresh, handle_list, tick, shutdown, answer, answer_busy, holding, release;
    rewrite ?Hro; cbn [andb orb];
    walk_agent ltac:(first [apply bucket_refresh_to | apply bucket_acquire
      | apply bucket_unmountFuse | bucket_leaf]).
Qed.
End reader.

(** an agent on a read-only workspace never writes the bucket: not while it
    starts, not for any request, tick or signal, and whatever fails. *)
Theorem reader_never_writes {P : Platform} {MO : Mounter} (getenv : string → string)
    (getuid : Z) (s : Store) (r : request) (a : Agent) :
  readOnly s = true →
  bucket (sys (serve_start getenv getuid s true a).2) = bucket (sys a) ∧
  bucket (sys (serve getenv getuid s true r a).2) = bucket (sys a).
Proof.
  intros Hro. split.
  - exact (bucket_serve_start getenv getuid s (bucket (sys a)) true a eq_refl).
  - exact (bucket_serve_reader getenv getuid s (bucket (sys a)) r Hro a eq_refl).
Qed.

(** ** The restore at start-up *)

Section restore_outcome.
Context {P : Platform} {MO : Mounter} (getenv : string → string) (getuid : Z) (s : Store).

(** [fs] is the complete restore, over [fs0], of the checkpoint [id] of [b]. *)
Definition loaded (b : gmap string string) (id : string) (fs0 fs : tree) : Prop :=
  ∃ body m st st', b !! manifestKey s id = Some body ∧ json_unmarshal body = Some m ∧
    bucket st = b ∧ Restore s fs0 m st = (Ok (), fs, st').

(** Bucket, directory and mount. *)
Definition fixed (b : gmap string string) (t : tree) (mo : option Mount) (a : Agent) : Prop :=
  bucket (sys a) = b ∧ bare a = t ∧ mount a = mo.

Lemma fixed_lift {A} b t mo (m : M A) φ : reads b m φ → keeps (fixed b t mo) (lift m).
Proof. intros Hm. apply keeps_lift. intros a st (Hb & ? & ?) ->. split; [by apply Hm|done]. Qed.

Lemma fixed_call b t mo w : keeps (fixed b t mo) (call w).
Proof. eapply fixed_lift, reads_syscall. Qed.

Lemma fixed_chownTree b t mo tr : keeps (fixed b t mo) (chownTree getenv getuid tr).
Proof. unfold chownTree. walk_agent ltac:(apply fixed_call). Qed.

(** A call made for its answer. *)
Lemma lift_ok {A} b t mo (m : M A) φ a x a' :
  reads b m φ → fixed b t mo a → lift m a = (Ok x, a') → φ x ∧ fixed b t mo a'.
Proof.
  intros Hm Ha H. pose proof (fixed_lift b t mo m φ Hm a Ha) as Hf. rewrite H in Hf.
  split; [|done]. destruct Ha as (Hb & _). destruct (Hm (sys a) Hb) as [_ Hx].
  unfold lift in H. destruct (m (sys a)) as [[y|e] st]; [|done]. apply Hx. naive_solver.
Qed.

Lemma context_ok {A} w (m : MA A) a x a' : context w m a = (Ok x, a') → m a = (Ok x, a').
Proof. unfold context. destruct (m a) as [[] ?]; [done|discriminate]. Qed.

Lemma restoreFromCheckpoint_ok b t mo id a u a' :
  fixed b t mo a → restoreFromCheckpoint getenv getuid s id a = (Ok u, a') →
  bucket (sys a') = b ∧ mount a' = mo ∧ loaded b id t (bare a').
Proof.
  intros Ha (m & a1 & H1 & H)%bind_inv_ok. apply context_ok in H1.
  destruct (lift_ok b t mo _ _ _ _ _ (reads_GetManifest s b id) Ha H1)
    as [(body & Hbody & Hm) (Hb1 & Ht1 & Hmo1)].
  apply bind_inv_ok in H as ([] & a2 & H2 & H). apply context_ok in H2.
  unfold restoreRoot in H2. pose proof (Restore_bucket s (bare a1) m (sys a1)) as Hrb.
  destruct (Restore s (bare a1) m (sys a1)) as [[[[]|e] fs] st] eqn:E; [|done].
  injection H2 as <-. cbn in Hrb.
  apply bind_inv_ok in H as (t' & a3 & [= <- <-] & H). apply context_ok in H.
  assert (Hf : fixed b fs mo (set_bare fs (set_sys st a1))) by (split_and!; cbn; congruence).
  apply (fixed_chownTree b fs mo fs) in Hf. cbn [bare set_bare] in H. rewrite H in Hf.
  destruct Hf as (? & Hbare & ?). cbn in *. split_and!; [done..|]. rewrite Hbare, <-Ht1.
  exists body, m, (sys a1), st. done.
Qed.

Lemma restoreFromManifest_ok b t mo a u a' :
  fixed b t mo a → restoreFromManifest getenv getuid s a = (Ok u, a') →
  bucket (sys a') = b ∧ mount a' = mo ∧
  (latest_of s b = "" ∧ bare a' = t ∨ latest_of s b ≠ "" ∧ loaded b (latest_of s b) t (bare a')).
Proof.
  intros Ha (id & a1 & H1 & H)%bind_inv_ok. apply context_ok in H1.
  destruct (lift_ok b t mo _ _ _ _ _ (reads_Latest s b) Ha H1) as [-> Hf1].
  destruct (String.eqb_spec (latest_of s b) "") as [Hl|Hl].
  - injection H as _ <-. destruct Hf1 as (? & ? & ?). auto.
  - apply (restoreFromCheckpoint_ok b t mo) in H as (? & ? & ?); auto.
Qed.

Lemma mountFuse_ok b t mo img a u a' :
  fixed b t mo a → mountFuse img a = (Ok u, a') →
  fixed b t (Some (mkMount (unsquashfs img) (unsquashfs img))) a'.
Proof.
  intros Ha H. unfold mountFuse in H.
  apply bind_inv_ok in H as (? & a1 & H1 & H). apply bind_inv_ok in H as (? & a2 & H2 & H).
  apply bind_inv_ok in H as (? & a3 & H3 & H). apply bind_inv_ok in H as (r & a4 & H4 & H).
  assert (H1' : fixed b t mo a1).
  { pose proof (keeps_context (fixed b t mo) "create staging dir" _
      (keeps_forM _ ["lower"; "upper"; "work"] call (λ x _, fixed_call b t mo x)) a Ha) as Hk.
    by rewrite H1 in Hk. }
  assert (H2' : fixed b t mo a2).
  { pose proof (keeps_context _ "chown upper dir" _ (fixed_call b t mo "upper") a1 H1') as Hk.
    by rewrite H2 in Hk. }
  assert (H3' : fixed b t mo a3).
  { pose proof (keeps_context _ "squashfuse" _ (fixed_call b t mo "squashfuse") a2 H2') as Hk.
    by rewrite H3 in Hk. }
  pose proof (keeps_attempt _ _ (fixed_call b t mo "fuse-overlayfs") a3 H3') as H4'.
  rewrite H4 in H4'. destruct H4' as (? & ? & ?). destruct r as [[]|e].
  - injection H as _ <-. done.
  - apply bind_inv_ok in H as (? & ? & _ & [=]).
Qed.

(** A mounted or, when there is no archive, an otherwise restored workspace. *)
Lemma mountArchive_ok b t mo what key (missing : MA unit) a fused a' :
  fixed b t mo a →
  mountArchive what (downloadTo key) missing a = (Ok fused, a') →
  if (fused : bool) then ∃ img, b !! key = Some img ∧
       fixed b t (Some (mkMount (unsquashfs img) (unsquashfs img))) a'
  else b !! key = None ∧ ∃ a1 u, fixed b t mo a1 ∧ missing a1 = (Ok u, a').
Proof.
  intros Ha H. unfold mountArchive in H. apply bind_inv_ok in H as (r & a1 & H1 & H).
  destruct (downloadTo_spec key (sys a)) as [Hd1 Hd2].
  pose proof (keeps_attempt _ _ (fixed_lift b t mo _ _ (reads_downloadTo b key)) a Ha) as H1'.
  rewrite H1 in H1'. unfold attempt, lift in H1. pose proof Ha as (Hb & _). rewrite Hb in Hd2.
  destruct (downloadTo key (sys a)) as [[img|e] st]; injection H1 as <- <-; cbn in Hd2, H1'.
  - apply bind_inv_ok in H as (r & a2 & H2 & H). unfold attempt in H2.
    destruct (mountFuse img _) as [[u|e] a3] eqn:E; injection H2 as <- <-.
    + injection H as <- <-. exists img. split; [done|]. by eapply mountFuse_ok.
    + apply bind_inv_ok in H as (? & ? & _ & [=]).
  - cbn [SIs] in H. destruct (Is e ErrNoArchive) eqn:Ei; [|done].
    apply bind_inv_ok in H as (u & a2 & H2 & [= <- <-]). split; [by apply Hd2|]. eauto.
Qed.
End restore_outcome.

(** when the restore at start-up reports success, either the archive that is
    in the bucket (that of the pinned checkpoint, when one is pinned) is mounted;
    or there is no such archive (or archives are off) and the directory holds the
    complete restore of the pinned or LATEST checkpoint; or nothing is pinned and
    the bucket names no LATEST checkpoint, and only then is the workspace left as
    it was found. No failure of storage is ever taken for an empty workspace, and
    the bucket is only read. *)
Theorem restoreWorkspace_outcome {P : Platform} {MO : Mounter} (getenv : string → string)
    (getuid : Z) (s : Store) (a : Agent) :
  let b := bucket (sys a) in
  let key := if decide (pinned s = "") then archiveKey s else checkpointArchiveKey s (pinned s) in
  let id := if decide (pinned s = "") then latest_of s b else pinned s in
  let '(r, a') := restoreWorkspace getenv getuid s a in
  bucket (sys a') = b ∧
  match r with
  | Err _ => True
  | Ok true => ∃ img, b !! key = Some img ∧ bare a' = bare a ∧
      mount a' = Some (mkMount (unsquashfs img) (unsquashfs img))
  | Ok false => mount a' = mount a ∧
      (b !! key = None ∨ noArchive s = true ∧ pinned s = "") ∧
      (id = "" ∧ pinned s = "" ∧ bare a' = bare a ∨ id ≠ "" ∧ loaded s b id (bare a) (bare a'))
  end.
Proof.
  cbn zeta. destruct (restoreWorkspace getenv getuid s a) as [r a'] eqn:E.
  pose proof (bucket_restoreWorkspace getenv getuid s (bucket (sys a)) a eq_refl) as Hb.
  rewrite E in Hb. split; [exact Hb|]. destruct r as [fused|e]; [|done].
  unfold restoreWorkspace in E. remember (bucket (sys a)) as b eqn:Hb0.
  assert (H0 : fixed b (bare a) (mount a) a) by (by split).
  apply bind_inv_ok in E as (? & a1 & E1 & E).
  pose proof (fixed_call b (bare a) (mount a) "mkdir root" a H0) as H1. rewrite E1 in H1.
  apply bind_inv_ok in E as (? & a2 & E2 & E).
  assert (H2 : fixed b (bare a) (mount a) a2).
  { assert (Hk : keeps (fixed b (bare a) (mount a)) (attempt (chownRootIfNeeded getenv getuid))).
    { unfold chownRootIfNeeded. walk_agent ltac:(apply fixed_call). }
    specialize (Hk a1 H1). by rewrite E2 in Hk. }
  destruct (String.eqb_spec (pinned s) "") as [Hp|Hp]; cbn [negb] in E.
  - rewrite !decide_True by done. destruct (noArchive s) eqn:Hna.
    + apply bind_inv_ok in E as (u & a3 & E3 & [= <- <-]).
      destruct (restoreFromManifest_ok _ _ _ b (bare a) (mount a) _ _ _ ltac:(eassumption) E3)
        as (? & ? & ?).
      naive_solver.
    + pose proof (mountArchive_ok b (bare a) (mount a) _ _ _ _ _ _ ltac:(eassumption) E) as Hm.
      destruct fused; [destruct Hm as (img & ? & ? & ? & ?); eauto|].
      destruct Hm as (? & a3 & u & H3 & E3).
      destruct (restoreFromManifest_ok _ _ _ b (bare a) (mount a) _ _ _ ltac:(eassumption) E3)
        as (? & ? & ?).
      naive_solver.
  - rewrite !decide_False by done. apply bind_inv_ok in E as (id & a3 & E3 & E).
    destruct (lift_ok b _ _ _ _ _ _ _ (reads_Resolve s b) H2 E3) as [Hid H3].
    rewrite decide_False in Hid by done. destruct Hid as [-> _].
    pose proof (mountArchive_ok b (bare a) (mount a) _ _ _ _ _ _ ltac:(eassumption) E) as Hm.
    destruct fused; [destruct Hm as (img & ? & ? & ? & ?); eauto|].
    destruct Hm as (? & a4 & u & H4 & E4).
    destruct (restoreFromCheckpoint_ok _ _ _ b (bare a) (mount a) _ _ _ _ H4 E4) as (? & ? & ?).
    naive_solver.
Qed.

(** ** Refreshing a reader *)

Section refresh.
Context {P : Platform} {MO : Mounter} (getenv : string → string) (getuid : Z) (s : Store).

(** Generation [n] holds [t]; the link and the fields of [generations]. *)
Definition gen_is (n : Z) (t : tree) (a : Agent) : Prop := g_dirs (genfs a) !! n = Some t.
Definition names (l : option Z) (g : option (Z * string)) (a : Agent) : Prop :=
  g_link (genfs a) = l ∧ gens a = g.
Definition gen_inv b n t l g (a : Agent) : Prop := bucket_is b a ∧ gen_is n t a ∧ names l g a.

Lemma gen_lift {A} b n t l g (m : M A) φ : reads b m φ → keeps (gen_inv b n t l g) (lift m).
Proof. intros Hm. apply keeps_lift. intros a st (Hb & ? & ?) ->. split; [by apply Hm|done]. Qed.

Lemma gen_call b n t l g w : keeps (gen_inv b n t l g) (call w).
Proof. eapply gen_lift, reads_syscall. Qed.

Lemma gen_chownTree b n t l g tr : keeps (gen_inv b n t l g) (chownTree getenv getuid tr).
Proof. unfold chownTree. walk_agent ltac:(apply gen_call). Qed.

Lemma gen_put b n t l g n' t' :
  n' ≠ n → ∀ a, gen_inv b n t l g a → gen_inv b n t l g (put_gen n' t' a).
Proof. intros Hn a (? & Hg & ?). split_and!; [done| |done]. unfold gen_is. cbn. by rewrite lookup_insert_ne. Qed.

Lemma gen_remove b n t l g n' : n' ≠ n → keeps (gen_inv b n t l g) (remove_gen n').
Proof.
  intros Hn. unfold remove_gen. apply keeps_bind; [apply gen_call|]. intros _ a (? & Hg & ?).
  split_and!; [done| |done]. unfold gen_is. cbn. by rewrite lookup_delete_ne.
Qed.

Lemma gen_build b n t l g n' id :
  n' ≠ n → keeps (gen_inv b n t l g) (build getenv getuid s n' id).
Proof.
  intros Hn. assert (Hrg : ∀ m, keeps (gen_inv b n t l g) (restoreGen s n' m)).
  { intros m a Ha. unfold restoreGen.
    pose proof (Restore_bucket s (default ∅ (g_dirs (genfs a) !! n')) m (sys a)) as Hb.
    destruct (Restore _ _ _ _) as [[[] ?] st]; cbn in Hb |- *;
      apply gen_put; try done; destruct Ha as (Ha & ? & ?); (split; [|done]);
      unfold bucket_is in *; cbn; congruence. }
  unfold build, build_body.
  walk_agent ltac:(first [by apply gen_remove | apply gen_chownTree | apply gen_call | apply Hrg
    | (eapply gen_lift; apply reads_GetManifest)
    | (apply keeps_modify; by apply gen_put)]).
Qed.

Lemma build_ok b n id a files a' :
  bucket_is b a → id ≠ "" → build getenv getuid s n id a = (Ok files, a') →
  ∃ t, gen_is n t a' ∧ loaded s b id ∅ t.
Proof.
  intros Hb Hid H. unfold build in H. apply bind_inv_ok in H as (? & a1 & H1 & H).
  apply context_ok in H1. pose proof (bucket_remove_gen b n a Hb) as Hb1. rewrite H1 in Hb1.
  apply bind_inv_ok in H as (r & a2 & H2 & H). unfold attempt in H2.
  destruct (build_body getenv getuid s n id a1) as [[f|e] a3] eqn:E; injection H2 as <- <-.
  2: { apply bind_inv_ok in H as (? & ? & _ & [=]). }
  injection H as <- <-. unfold build_body in E.
  apply bind_inv_ok in E as (? & a4 & E4 & E). pose proof (bucket_call b "mkdir generation" a1 Hb1) as Hb4.
  rewrite E4 in Hb4. apply bind_inv_ok in E as (? & a5 & [= _ <-] & E).
  apply bind_inv_ok in E as (f' & a6 & E6 & E).
  destruct (String.eqb_spec id "") as [|_]; [done|].
  apply bind_inv_ok in E6 as (m & a7 & E7 & E6). apply context_ok in E7.
  assert (H5 : gen_inv b n ∅ (g_link (genfs a4)) (gens a4) (put_gen n ∅ a4)).
  { split_and!; [done| |done]. unfold gen_is. cbn. apply lookup_insert_eq. }
  pose proof (gen_lift b n ∅ _ _ _ _ (reads_GetManifest s b id) _ H5) as H7.
  destruct (reads_GetManifest s b id (sys (put_gen n ∅ a4)) Hb4) as [_ Hm].
  rewrite E7 in H7. unfold lift in E7.
  destruct (GetManifest s id (sys (put_gen n ∅ a4))) as [[m'|e] st7]; [|done].
  injection E7 as <- <-. destruct (Hm m' eq_refl) as (body & Hbody & Hm').
  apply bind_inv_ok in E6 as (? & a8 & E8 & [= _ <-]). apply context_ok in E8.
  destruct H7 as (Hb7 & Hg7 & _). cbn [snd] in Hb7, Hg7. set (a7' := set_sys st7 _) in *.
  unfold restoreGen in E8. rewrite Hg7 in E8. cbn [from_option] in E8.
  change (Datatypes.id (∅ : tree)) with (∅ : tree) in E8.
  destruct (Restore s ∅ m' (sys a7')) as [[[[]|e] fs] st8] eqn:ER; [|done].
  injection E8 as _ <-. pose proof (Restore_bucket s ∅ m' (sys a7')) as Hrb. rewrite ER in Hrb.
  exists fs. split.
  - apply bind_inv_ok in E as (tr & a9 & [= _ <-] & E).
    apply bind_inv_ok in E as (? & a10 & E10 & [= _ <-]). apply context_ok in E10.
    assert (H9 : gen_inv (bucket st8) n fs (g_link (genfs a7')) (gens a7')
      (put_gen n fs (set_sys st8 a7'))).
    { split_and!; [done| |done]. unfold gen_is. cbn. apply lookup_insert_eq. }
    apply (gen_chownTree _ _ _ _ _ tr) in H9. rewrite E10 in H9. apply H9.
  - exists body, m', (sys a7'), st8. done.
Qed.

Lemma point_spec b n t l g n' a :
  gen_inv b n t l g a →
  match point n' a with
  | (Ok _, a') => gen_inv b n t (Some n') g a' ∧ g_dirs (genfs a') = g_dirs (genfs a)
  | (Err _, a') => gen_inv b n t l g a' ∧ g_dirs (genfs a') = g_dirs (genfs a)
  end.
Proof.
  intros Ha. set (I := λ a', gen_inv b n t l g a' ∧ g_dirs (genfs a') = g_dirs (genfs a)).
  assert (Hc : ∀ w, keeps I (call w)).
  { intros w a1 [H1 H1']. split; [by apply gen_call|]. rewrite <-H1'. unfold call, lift.
    by destruct (syscall w (sys a1)) as [[] ?]. }
  assert (Hn : ∀ o, keeps I (modify (set_next o) : MA unit)) by (intros o a1 [(?&?&?) ?]; done).
  unfold point. rewrite bind_run.
  assert (Hk1 : keeps I (context "clearing next link" (call "rm next" ≫= λ _, modify (set_next None))))
    by (walk_agent ltac:(first [apply Hc | apply Hn])).
  assert (Hk2 : keeps I (context "creating link" (call "symlink" ≫= λ _, modify (set_next (Some n')))))
    by (walk_agent ltac:(first [apply Hc | apply Hn])).
  specialize (Hk1 a (conj Ha eq_refl)). destruct (context _ _ a) as [[u1|e1] a1]; [|done].
  rewrite bind_run. specialize (Hk2 a1 Hk1). destruct (context _ _ a1) as [[u2|e2] a2]; [|done].
  rewrite bind_run. pose proof (Hc "rename" a2 Hk2) as H3. unfold attempt.
  destruct (call "rename" a2) as [[u3|e3] a3]; cbn [snd] in H3.
  - cbn. destruct H3 as [(? & ? & _ & ?) ?]. done.
  - rewrite bind_run. assert (Hk4 : keeps I (attempt (call "rm next" ≫= λ _, modify (set_next None))))
      by (walk_agent ltac:(first [apply Hc | apply Hn])).
    specialize (Hk4 a3 H3). unfold attempt in Hk4. by destruct (mbind (M:=MA) _ _ a3).
Qed.

Lemma advance_spec b n held t id a :
  gen_inv b n t (Some n) (Some (n, held)) a → id ≠ "" →
  match advance getenv getuid s id a with
  | (Ok _, a') => gen_inv b n t (Some (n + 1)%Z) (Some (n + 1, id)%Z) a' ∧
      ∃ t', gen_is (n + 1) t' a' ∧ loaded s b id ∅ t'
  | (Err _, a') => gen_inv b n t (Some n) (Some (n, held)) a'
  end.
Proof.
  intros Ha Hid. unfold advance. rewrite bind_run. cbn [gets].
  pose proof Ha as (Hb & _ & _ & Hg). rewrite Hg. cbn.
  rewrite bind_run. pose proof (gen_build b n t (Some n) (Some (n, held)) (n + 1) id ltac:(lia) a Ha) as H1.
  destruct (build getenv getuid s (n + 1) id a) as [[f|e] a1] eqn:E1; [|done]. cbn [snd] in H1.
  apply (build_ok b) in E1 as (t' & Ht' & Hl); [|done..].
  rewrite bind_run. unfold attempt at 1. pose proof (point_spec b n t _ _ (n + 1)%Z a1 H1) as H2.
  destruct (point (n + 1) a1) as [[u|e] a2]; destruct H2 as [H2 Hd2].
  - rewrite bind_run. cbn [modify].
    assert (H3 : gen_inv b n t (Some (n + 1)%Z) (Some (n + 1, id)%Z) (set_gens (Some (n + 1, id)%Z) a2))
      by (destruct H2 as (? & ? & ? & ?); done).
    assert (H3' : gen_inv b (n + 1) t' (Some (n + 1)%Z) (Some (n + 1, id)%Z) (set_gens (Some (n + 1, id)%Z) a2)).
    { destruct H2 as (? & ? & ? & ?). split_and!; try done. unfold gen_is in *. cbn. by rewrite Hd2. }
    rewrite bind_run. set (a3 := set_gens _ a2) in *.
    destruct (Z.ltb_spec 1 n) as [Hn|Hn]; cbn.
    + rewrite bind_run. unfold attempt.
      pose proof (gen_remove b n t _ _ (n - 1) ltac:(lia) a3 H3) as H4.
      pose proof (gen_remove b (n + 1) t' _ _ (n - 1) ltac:(lia) a3 H3') as H4'.
      destruct (remove_gen (n - 1) a3) as [r a4]. cbn in *. split; [done|].
      exists t'. split; [apply H4'|done].
    + split; [done|]. exists t'. split; [apply H3'|done].
  - rewrite bind_run. unfold attempt.
    pose proof (gen_remove b n t _ _ (n + 1) ltac:(lia) a2 H2) as H4.
    by destruct (remove_gen (n + 1) a2).
Qed.
End refresh.

(** a refresh is all or nothing. A reader whose link names the generation
    [n], which holds [t], always gets an answer, and afterwards generation [n]
    still holds [t]. Either the answer is "refreshed", LATEST names a checkpoint,
    and the link and the agent's record have moved to generation [n+1], which
    holds the complete restore of that checkpoint; or they have not moved. *)
Theorem refresh_atomic {P : Platform} (getenv : string → string)
    (getuid : Z) (s : Store) (isPost : bool) (n : Z) (held : string) (t : tree) (a : Agent) :
  gens a = Some (n, held) → g_link (genfs a) = Some n → g_dirs (genfs a) !! n = Some t →
  ∃ resp a', handle_refresh getenv getuid s isPost a = (Ok resp, a') ∧
    g_dirs (genfs a') !! n = Some t ∧
    (let id := latest_of s (bucket (sys a)) in
     code resp = 200%Z ∧ head (body resp) = Some ("outcome", JStr "refreshed") ∧
     id ≠ "" ∧ gens a' = Some ((n + 1)%Z, id) ∧ g_link (genfs a') = Some (n + 1)%Z ∧
     (∃ t', g_dirs (genfs a') !! (n + 1)%Z = Some t' ∧ loaded s (bucket (sys a)) id ∅ t')
     ∨ head (body resp) ≠ Some ("outcome", JStr "refreshed") ∧
       gens a' = Some (n, held) ∧ g_link (genfs a') = Some n).
Proof.
  intros Hg Hl Hd. unfold handle_refresh. destruct isPost; cbn [negb].
  2: { eexists _, _. split; [done|]. split; [done|]. right. done. }
  rewrite bind_run. cbn [gets]. rewrite Hg, bind_run. unfold attempt at 1.
  pose proof (acquire_spec a) as Ha. destruct (acquire a) as [[u|e] a1].
  2: { destruct Ha as (_ & st & Hb & ->). unfold answer_busy. rewrite bind_run. cbn.
       eexists _, _. split; [done|]. split; [done|]. right. done. }
  destruct Ha as (_ & st & Hb & _ & _ & ->). set (b := bucket (sys a)) in *.
  assert (H1 : gen_inv b n t (Some n) (Some (n, held)) (set_slot true (set_sys st a))) by done.
  revert H1. generalize (set_slot true (set_sys st a)). intros a1 H1.
  unfold holding. rewrite bind_run. unfold attempt at 1, refresh_to. rewrite bind_run.
  pose proof H1 as (Hb1 & _). destruct (reads_Latest s b (sys a1) Hb1) as [Hb2 Hid].
  unfold attempt at 1, lift. destruct (Latest s (sys a1)) as [[id|e] st1]; cbn in Hb2.
  2: { eexists _, _. split; [reflexivity|]. destruct H1 as (_ & ? & ? & ?).
       split; [done|]. right. done. }
  rewrite (Hid id eq_refl).
  assert (H2 : gen_inv b n t (Some n) (Some (n, held)) (set_sys st1 a1))
    by (destruct H1 as (? & ? & ? & ?); done).
  destruct (String.eqb_spec (latest_of s b) held) as [He|He].
  { eexists _, _. split; [reflexivity|]. destruct H2 as (_ & ? & ? & ?).
    split; [done|]. right. done. }
  destruct (String.eqb_spec (latest_of s b) "") as [He'|He'].
  { eexists _, _. split; [reflexivity|]. destruct H2 as (_ & ? & ? & ?).
    split; [done|]. right. done. }
  rewrite bind_run. unfold attempt at 1. pose proof (advance_spec getenv getuid s b n held t _ _ H2 He') as H3.
  destruct (advance _ _ _ _ _) as [[files|e] a3].
  - destruct H3 as [(_ & ? & ? & ?) (t' & ? & ?)]. eexists _, _. split; [reflexivity|].
    split; [done|]. left. split_and!; eauto.
  - destruct H3 as (_ & ? & ? & ?). eexists _, _. split; [reflexivity|]. split; [done|]. right. done.
Qed.

(** ** Saves *)

Section saves.
Context {P : Platform} {L : PlatformLaws P} (s : Store).

Lemma snapshotCtx_ok c name desc trigger a m a' :
  snapshotCtx s c name desc trigger a = (Ok m, a') →
  c = true ∧ m_Parent m = last a ∧ m_ID m ≠ "" ∧ last a' = m_ID m ∧
  bucket (sys a') !! latestKey s = Some (m_ID m) ∧
  (∀ e, e ∈ m_Entries m ↔ e ∈ captured (view a)) ∧
  ∃ sv, lastDone a' = Some sv ∧ sv_Outcome sv = "saved" ∧ sv_CheckpointID sv = m_ID m.
Proof.
  unfold snapshotCtx. destruct c; cbn [negb]; [|done]. intros H. split; [done|].
  apply bind_inv_ok in H as (parent & a1 & H1 & H).
  pose proof (save_begin_spec trigger a) as Hb. rewrite H1 in Hb.
  destruct Hb as (_ & -> & Hs1 & [tm Hc1] & Hb1 & Hv1 & _).
  apply bind_inv_ok in H as (r & a2 & H2 & H). unfold attempt in H2.
  destruct (save_run s name desc trigger (last a) a1) as [r' a2'] eqn:E.
  injection H2 as <- <-. apply bind_inv_ok in H as (u & a3 & [= _ <-] & H).
  destruct r' as [m'|e]; [|done]. injection H as <- <-.
  unfold save_run in E. apply bind_inv_ok in E as (t & a4 & [= <- <-] & E).
  unfold lift in E. destruct (Snapshot s (view a1) _ _ _ _ (sys a1)) as [[m2|e] st2] eqn:ES;
    [|done]. injection E as <- <-. pose proof ES as ES'. rewrite Hv1 in ES'.
  apply Snapshot_ok_latest in ES as (Hp & _ & Hne & Hl).
  apply Snapshot_ok_inv in ES' as (_ & _ & -> & _).
  unfold save_end. cbn [current set_sys]. rewrite Hc1. cbn.
  split_and!; [done..|]. eexists. split; [reflexivity|]. done.
Qed.
End saves.

(** a checkpoint answered 200 with an id is LATEST: the bucket's pointer names
    that id, the agent's lineage continues from it, its parent is the checkpoint
    the lineage named before, its entries are the files the workload saw, and the
    save is recorded as the last one completed. *)
Theorem checkpoint_200_is_latest {P : Platform} {L : PlatformLaws P} (s : Store)
    (configured isPost : bool) (name desc id : string) (a a' : Agent) (resp : Response) :
  handle_checkpoint s configured isPost name desc a = (Ok resp, a') →
  head (body resp) = Some ("checkpointId", JStr id) → id ≠ "" →
  code resp = 200%Z ∧ bucket (sys a') !! latestKey s = Some id ∧ last a' = id ∧
  ∃ m sv, m_ID m = id ∧ m_Parent m = last a ∧
    (∀ e, e ∈ m_Entries m ↔ e ∈ captured (view a)) ∧
    lastDone a' = Some sv ∧ sv_Outcome sv = "saved" ∧ sv_CheckpointID sv = id.
Proof.
  unfold handle_checkpoint. destruct isPost; cbn [negb]; [|by intros [= <- <-]].
  destruct (configured && readOnly s); [by intros [= <- <-]|].
  rewrite bind_run. unfold attempt.
  destruct (snapshotCtx s configured name desc "on-demand" a) as [[m|e] a1] eqn:E.
  - intros [= <- <-]. cbn. intros [= <-] Hne.
    apply snapshotCtx_ok in E as (_ & ? & _ & ? & ? & ? & sv & ? & ? & ?).
    split_and!; [done..|]. exists m, sv. done.
  - unfold answer_busy, answer. repeat case_match; rewrite ?bind_run; intros [= <- <-]; cbn; naive_solver.
Qed.

(** ** Shutdown *)

Lemma walk_empty : walk ∅ = [].
Proof. unfold walk. by rewrite map_to_list_empty. Qed.

Lemma Snapshot_empty {P : Platform} s name desc trigger parent st :
  readOnly s = false →
  Snapshot s ∅ name desc trigger parent st = (Err ErrNothingToSave, st).
Proof.
  intros Hro. unfold Snapshot. rewrite Hro, walk_empty. do 3 (rewrite bind_run; cbn [gets]).
  cbn [foldM]. reflexivity.
Qed.

Lemma call_quiet w a : script (sys a) = [] → call w a = (Ok (), a).
Proof. intros Hs. unfold call, lift. rewrite syscall_quiet by done. by destruct a. Qed.

Lemma ran_quiet w a : script (sys a) = [] → ran w a = (Ok true, a).
Proof. intros Hs. unfold ran, attempt. by rewrite bind_run, call_quiet. Qed.

Lemma unmountFuse_quiet a :
  script (sys a) = [] → unmountFuse a = (Ok (), set_mount None a).
Proof.
  intros Hs. unfold unmountFuse. rewrite bind_run, ran_quiet by done.
  do 4 (rewrite bind_run, ran_quiet by done). cbn. destruct a as [? ? [] ? ? ? ? ? ?]; done.
Qed.

(** the shutdown path unmounts the overlay, and discards its upper directory,
    before it takes the teardown checkpoint. On a workspace restored by mounting
    its archive over an empty directory, with every call succeeding, the files the
    workload saw at the signal -- whatever they are -- are not saved: the
    checkpoint is skipped for want of files and the bucket is as it was. *)
Theorem shutdown_discards_overlay {P : Platform} (getenv : string → string) (s : Store)
    (a : Agent) (m : Mount) :
  mount a = Some m → bare a = ∅ → slot a = false → script (sys a) = [] →
  getenv "WORKSPACE_SYNC_TEARDOWN" ≠ "false" → readOnly s = false →
  ∃ a', shutdown getenv s true a = (Ok "skipped: no files", a') ∧
    bucket (sys a') = bucket (sys a) ∧ view a' = ∅.
Proof.
  intros Hm Hba Hsl Hs Htd Hro. unfold shutdown. rewrite bind_run, unmountFuse_quiet by done.
  rewrite bind_run. unfold attempt at 1. rewrite call_quiet by done.
  destruct (String.eqb_spec (getenv "WORKSPACE_SYNC_TEARDOWN") "false"); [done|].
  rewrite Hro. cbn [andb]. rewrite bind_run. unfold attempt at 1, snapshotCtx. cbn [negb].
  rewrite bind_run. unfold save_begin. rewrite bind_run. unfold acquire. rewrite bind_run.
  cbn [gets]. change (slot (set_mount None a)) with (slot a). rewrite Hsl, bind_run.
  rewrite ran_quiet by done. cbn [modify]. rewrite bind_run. cbn [modify gets].
  rewrite bind_run. unfold attempt at 1, save_run. rewrite bind_run. cbn [gets].
  unfold view at 1. cbn [mount set_current set_slot set_mount bare]. rewrite Hba.
  unfold lift. rewrite Snapshot_empty by done.
  eexists. split; [reflexivity|]. split; [done|]. unfold view. cbn. done.
Qed.
