(* ===== verification/WorkspaceWitness.v ===== *)
(** * WorkspaceWitness: the workspace theorems at concrete inputs.

    A platform that satisfies [PlatformLaws] -- a hash that prints a padded suffix
    of its input in hexadecimal, an injective manifest codec -- and one workspace
    run through the store and the agent, on which each theorem with hypotheses is
    applied. *)

From S2P Require Import Prelude.
From S2P Require Import WorkspaceStore.
From S2P Require Import WorkspaceStoreFacts.
From S2P Require Import WorkspaceSnapshotFacts.
From S2P Require Import WorkspaceRestoreFacts.
From S2P Require Import WorkspaceSync.
From S2P Require Import WorkspaceSyncFacts.

Local Open Scope string_scope.

(** ** A concrete platform *)

#[export] Instance Entry_countable : Countable Entry.
Proof.
  refine (inj_countable' (λ e, (e_Path e, e_Hash e, e_Mode e, e_Size e))
    (λ '(p, h, m, z), mkEntry p h m z) _). by intros [].
Defined.

#[export] Instance Manifest_countable : Countable Manifest.
Proof.
  refine (inj_countable' (λ m, (m_ID m, m_WorkspaceID m, m_Parent m, m_Name m,
      m_Description m, m_Trigger m, m_CreatedAt m, m_Entries m))
    (λ '(a, b, c, d, e, f, g, h), mkManifest a b c d e f g h) _). by intros [].
Defined.

Fixpoint hex_bytes (s : string) : string :=
  match s with
  | EmptyString => EmptyString
  | String c s => hex_byte (Z.of_nat (Ascii.nat_of_ascii c)) (hex_bytes s)
  end.
Definition zeros : string := "0000000000000000000000000000000000000000000000000000000000000000".

#[export] Instance demo : Platform := {|
  sha256hex d := str_take 64 (hex_bytes (String.rev d) +:+ zeros);
  json_marshal m := pos_string (encode m);
  json_unmarshal b := decode (string_pos b);
  mksquashfs _ _ := "image" |}.

Lemma hex_bytes_hex s : hex_string (hex_bytes s) = true.
Proof.
  induction s as [|c s IH]; [done|]. cbn [hex_bytes]. unfold hex_byte.
  assert (Hc : (0 ≤ Z.of_nat (nat_of_ascii c) < 256)%Z) by (pose proof (nat_ascii_bounded c); lia).
  destruct (hex_byte_digits _ Hc) as [H1 H2]. apply hex_digit_hex in H1, H2.
  cbn in H1, H2 |- *. rewrite andb_true_r in H1, H2. by rewrite H1, H2, IH.
Qed.

#[export] Instance demo_laws : PlatformLaws demo.
Proof.
  split.
  - intros m _. cbn. by rewrite string_pos_string, decode_encode.
  - intros d. apply hex_string_take. by rewrite hex_string_app, hex_bytes_hex.
  - intros d. apply str_take_length. rewrite str_length_app. cbn. lia.
Qed.

#[export] Instance demo_mounter : Mounter := {| unsquashfs _ := ∅ |}.

(** ** A workspace *)

Definition ws : Store := mkStore "app/ws" 1 "" false true ∅ "ws".
Definition sys0 : Sys := mkSys ∅ [] [] 1000 7 18 "".
Definition files : tree :=
  {[ "main.go" := Regular 420 "package main"; "doc/a.md" := Regular 384 "# a";
     "node_modules/x.js" := Regular 420 "x"; "link" := Irregular ]}.

(** The same bucket, a tick later, with the calls to come given. *)
Definition later (t : Z) (l : list outcome) (st : Sys) : Sys :=
  mkSys (bucket st) l [] t (pid st) (umask st) (restoredDigest st).

Definition snap1 := Snapshot ws files "one" "" "on-demand" "" sys0.
Definition st1 : Sys := snap1.2.

Example snap1_entries :
  match snap1.1 with
  | Ok m => (λ e, (e_Path e, e_Size e)) <$> m_Entries m = [("doc/a.md", 3%Z); ("main.go", 12%Z)]
  | Err _ => False
  end.
Proof. vm_compute. reflexivity. Qed.

(** Two checkpoints, kept by a store that keeps five. *)
Definition ws5 : Store := mkStore "app/ws" 5 "" false true ∅ "ws".
Definition files2 : tree := <["main.go" := Regular 420 "package main2"]> files.
Definition st2 : Sys :=
  (Snapshot ws5 files2 "two" "" "on-demand" "" (later 2000 [] (Snapshot ws5 files "one" "" "on-demand" "" sys0).2)).2.

(** ** Store *)

Lemma planRetention_spec_witness :
  "b" ∈ (planRetention ["c"; "b"; "a"] 1 {["a"]}).2.
Proof.
  assert (Hnd : NoDup ["c"; "b"; "a"]) by (apply (bool_decide_unpack _); vm_compute; exact I).
  pose proof (planRetention_spec ["c"; "b"; "a"] 1 {["a"]} Hnd) as H.
  destruct (planRetention ["c"; "b"; "a"] 1 {["a"]}) as [sv dm].
  apply (proj2 H). split_and!; [lia|set_solver|]. exists 1%nat. split; [reflexivity|simpl; lia].
Defined.

Definition st_prune : Sys := later 2001 [Done; Done; Unknown; Done; Lost] st2.
Definition id2 : string := newID 2000 7.

Lemma Prune_preserves_retained_witness :
  bucket (Prune ws st_prune).2 !! manifestKey ws id2 = bucket st_prune !! manifestKey ws id2.
Proof.
  assert (Hn : checkpoints ws (bucket st_prune) !! 0%nat = Some id2) by (vm_compute; reflexivity).
  destruct (Prune_preserves_retained ws st_prune 0 id2 Hn) as [H _].
  - right. left. reflexivity.
  - exact H.
Defined.

Lemma sys0_key k v : bucket sys0 !! k = Some v → False.
Proof. change (bucket sys0) with (∅ : gmap string string). by rewrite lookup_empty. Qed.

Lemma sys0_checkpoints id : id ∈ checkpoints ws (bucket sys0) → False.
Proof. intros [_ [b Hb]]%elem_of_checkpoints. by apply sys0_key in Hb. Qed.


Lemma history_intact_witness : intact ws (bucket snap1.2).
Proof.
  apply (history_intact ws). apply history_snapshot.
  - reflexivity.
  - vm_compute. reflexivity.
  - apply history_new.
Defined.

Lemma newID_monotone_witness :
  String.compare (newID 1000 7) (newID 2000 3) = Lt ∧ String.le (newID 1000 7) (newID 2000 3).
Proof. exact (newID_monotone 1000 2000 7 3 ltac:(lia) ltac:(lia) ltac:(reflexivity)). Defined.

Lemma Snapshot_outcome_witness :
  (Snapshot ws ∅ "" "" "periodic" "" sys0).1 = Err ErrNothingToSave.
Proof.
  pose proof (Snapshot_outcome ws ∅ "" "" "periodic" "" sys0 eq_refl eq_refl) as H.
  cbv zeta in H. destruct (Snapshot ws ∅ "" "" "periodic" "" sys0) as [r st'].
  destruct H as [-> _]. vm_compute. reflexivity.
Defined.


(** ** Agent *)

Definition env0 : string → string := λ _, "".
Definition agent0 (st : Sys) : Agent :=
  mkAgent st files None (mkGenFS ∅ None None) None false "" None None.

Lemma save_slot_exclusive_witness :
  let a := (save_begin "periodic" (agent0 sys0)).2 in
  is_Some (save_end (Err (Refused "disk full")) a).
Proof.
  intros a. apply (save_slot_exclusive (agent0 sys0) (a, <[0%nat := Saving]> (λ _, Idle)) eq_refl eq_refl)
    with (t := 0%nat).
  - apply rtc_once. apply (step_save_begin _ _ 0%nat "periodic" ""); reflexivity.
  - reflexivity.
Defined.

Lemma serve_releases_slot_witness :
  slot (serve env0 0 ws true (RestoreTo true "nope") (agent0 sys0)).2 = false.
Proof.
  exact (proj1 (serve_releases_slot env0 0 ws true (RestoreTo true "nope") (agent0 sys0) eq_refl eq_refl)).
Defined.

Definition reader : Store := mkStore "app/ws" 5 "" true true ∅ "ws".

Lemma reader_never_writes_witness :
  bucket (sys (serve env0 0 reader true Sigterm (agent0 st2)).2) = bucket st2.
Proof. exact (proj2 (reader_never_writes env0 0 reader Sigterm (agent0 st2) eq_refl)). Defined.

Definition agent_gen : Agent :=
  mkAgent (later 3000 [] st2) ∅ None (mkGenFS {[1%Z := ∅]} (Some 1%Z) None) (Some (1%Z, "")) false "" None None.

Lemma refresh_atomic_witness :
  g_dirs (genfs (handle_refresh env0 1000 reader true agent_gen).2) !! 1%Z = Some ∅.
Proof.
  destruct (refresh_atomic env0 1000 reader true 1 "" ∅ agent_gen) as (resp & a' & H & Hd & _).
  - reflexivity.
  - reflexivity.
  - reflexivity.
  - rewrite H. exact Hd.
Defined.

Example refresh_moves : gens (handle_refresh env0 1000 reader true agent_gen).2 = Some (2%Z, newID 2000 7).
Proof. vm_compute. reflexivity. Qed.

Lemma checkpoint_200_witness :
  match handle_checkpoint ws true true "n" "d" (agent0 sys0) with
  | (Ok resp, a') => bucket (sys a') !! latestKey ws = Some (newID 1000 7) ∧ code resp = 200%Z
  | (Err _, _) => False
  end.
Proof.
  assert (Hr : match (handle_checkpoint ws true true "n" "d" (agent0 sys0)).1 with
    | Ok r => head (body r) = Some ("checkpointId", JStr (newID 1000 7))
    | Err _ => False end) by (vm_compute; reflexivity).
  destruct (handle_checkpoint ws true true "n" "d" (agent0 sys0)) as [[resp|e] a'] eqn:E; [|exact Hr].
  destruct (checkpoint_200_is_latest ws true true "n" "d" (newID 1000 7) (agent0 sys0) a' resp E Hr)
    as (Hc & Hl & _).
  - vm_compute. discriminate.
  - split; [exact Hl|exact Hc].
Defined.

Lemma shutdown_discards_overlay_witness :
  let a := mkAgent st2 ∅ (Some (mkMount ∅ files)) (mkGenFS ∅ None None) None false "" None None in
  view a = files ∧ ∃ a', shutdown env0 ws true a = (Ok "skipped: no files", a') ∧ view a' = ∅.
Proof.
  intros a. split; [reflexivity|].
  destruct (shutdown_discards_overlay env0 ws a (mkMount ∅ files)) as (a' & H & _ & Hv).
  - reflexivity.
  - reflexivity.
  - reflexivity.
  - vm_compute. reflexivity.
  - vm_compute. discriminate.
  - reflexivity.
  - exists a'. split; [exact H|exact Hv].
Defined.
