(* ===== verification/CloudInit.v ===== *)
(** * CloudInit: the user-data that boots a worker VM.

    Models operators/ephemeral-vm-provisioner/internal/hetzner/cloudinit.go: the
    payload of a job, which volume it needs, the image check, the data of the
    template and its rendering. encoding/json on the worker's job spec is the
    parameter [marshal_spec]. *)

From S2P Require Import Prelude.
From S2P Require Import WorkspaceStore.

Local Open Scope string_scope.

(** ** Data *)

(** JobPayload. Storage is its two optional fields, Output its one; Input, which
    is copied as it is, is the text of its JSON. *)
Record JobPayload := mkPayload {
  p_Image : option string;
  p_Command : list string;
  p_Args : list string;
  p_Env : list (string * string);
  p_ModelsVolume : option bool;
  p_ModelsVolumeKebab : option bool;
  p_Storage : option (option string * option string);
  p_Input : option string;
  p_Output : option string;
  p_CallbackURL : option string;
  p_TimeoutSeconds : option Z;
  p_ServerType : option string }.

Record VolumeMount := mkVolumeMount {
  vm_Host : string;
  vm_Container : string;
  vm_Readonly : bool }.

(** WorkerJobSpec: the contract written to /tmp/job/request.json. *)
Record WorkerJobSpec := mkSpec {
  ws_JobID : string;
  ws_Image : string;
  ws_Command : list string;
  ws_Args : list string;
  ws_Env : list (string * string);
  ws_Volumes : list VolumeMount;
  ws_Input : option string;
  ws_S3Prefix : string;
  ws_CallbackURL : string;
  ws_S3EndpointURL : string;
  ws_S3BucketName : string;
  ws_TimeoutSeconds : Z }.

Record CloudInitData := mkData {
  d_JobID : string;
  d_RequestJSON : string;
  d_WorkerImage : string;
  d_Command : string;
  d_VolumeDevice : string;
  d_MountPath : string;
  d_CallbackURL : string;
  d_S3EndpointURL : string;
  d_S3BucketName : string;
  d_S3AccessKeyID : string;
  d_S3SecretKey : string;
  d_TailscaleAuthKey : string;
  d_GHCRUsername : string;
  d_GHCRToken : string }.

(** What text/template makes of the template: text, a line of text, a field, and a
    part that is there when a field is not empty. *)
Inductive token :=
| TText (s : string)
| TLine (s : string)
| TField (f : CloudInitData → string)
| TIf (f : CloudInitData → string)
| TEnd.

Definition newline : string := String (Ascii.ascii_of_nat 10) EmptyString.

(** The template is a Go raw string, which holds no back quote: below a back
    quote stands for a double quote. *)
Fixpoint quotes (s : string) : string :=
  match s with
  | EmptyString => EmptyString
  | String c s => String (if Ascii.eqb c "`"%char then Ascii.ascii_of_nat 34 else c) (quotes s)
  end.

Definition cloudInitTemplate : list token :=
  [TLine "#cloud-config";
   TLine "package_update: true";
   TLine "packages:";
   TLine "  - docker.io";
   TLine "  - curl";
   TLine "";
   TLine "write_files:";
   TLine "  - path: /tmp/job/request.json";
   TLine "    permissions: '0666'";
   TLine "    content: |";
   TField d_RequestJSON;
   TLine "";
   TLine "  - path: /tmp/job/run-job.sh";
   TLine "    permissions: '0755'";
   TLine "    content: |";
   TLine "      #!/bin/bash";
   TLine "      set -o pipefail";
   TLine "";
   TLine "      chmod -R 777 /tmp/job";
   TLine "";
   TLine "      DOCKER_ARGS=()";
   TLine "      DOCKER_ARGS+=(`-v` `/tmp/job:/tmp/job`)";
   TLine "      DOCKER_ARGS+=(`-v` `/var/run/docker.sock:/var/run/docker.sock`)";
   TLine "      DOCKER_ARGS+=(`--shm-size=2g`)";
   TIf d_VolumeDevice;
   TText "      DOCKER_ARGS+=(`-v` `";
   TField d_MountPath;
   TText ":";
   TField d_MountPath;
   TLine "`)";
   TEnd;
   TIf d_S3EndpointURL;
   TText "      DOCKER_ARGS+=(`-e` `S3_ENDPOINT_URL=";
   TField d_S3EndpointURL;
   TLine "`)";
   TEnd;
   TIf d_S3BucketName;
   TText "      DOCKER_ARGS+=(`-e` `S3_BUCKET_NAME=";
   TField d_S3BucketName;
   TLine "`)";
   TEnd;
   TIf d_S3AccessKeyID;
   TText "      DOCKER_ARGS+=(`-e` `S3_ACCESS_KEY_ID=";
   TField d_S3AccessKeyID;
   TLine "`)";
   TEnd;
   TIf d_S3SecretKey;
   TText "      DOCKER_ARGS+=(`-e` `S3_SECRET_ACCESS_KEY=";
   TField d_S3SecretKey;
   TLine "`)";
   TEnd;
   TLine "";
   TLine "      EXIT_CODE=0";
   TText "      docker run --rm --name job-";
   TField d_JobID;
   TText " `${DOCKER_ARGS[@]}` ";
   TField d_WorkerImage;
   TIf d_Command;
   TText " ";
   TField d_Command;
   TEnd;
   TLine " || EXIT_CODE=$?";
   TLine "";
   TLine "      chmod -R 777 /tmp/job";
   TLine "";
   TLine "      echo `[cloudinit-runner] Container finished with exit code ${EXIT_CODE}`";
   TLine "";
   TLine "      CALLBACK_URL=``";
   TLine "      if [ -f /tmp/job/request.json ]; then";
   TLine "        CALLBACK_URL=$(grep -o '`callbackUrl`: *`[^`]*`' /tmp/job/request.json | cut -d'`' -f4 || true)";
   TLine "      fi";
   TIf d_CallbackURL;
   TLine "      if [ -z `$CALLBACK_URL` ]; then";
   TText "        CALLBACK_URL=`";
   TField d_CallbackURL;
   TLine "`";
   TLine "      fi";
   TEnd;
   TLine "";
   TLine "      if [ -n `$CALLBACK_URL` ]; then";
   TLine "        PAYLOAD=``";
   TLine "        if [ -f /tmp/job/result.json ]; then";
   TLine "          RESULT_CONTENT=$(cat /tmp/job/result.json)";
   TLine "          TOKEN=$(echo `$CALLBACK_URL` | grep -o 'token=[^&]*' | cut -d= -f2 || true)";
   TLine "          if [ -n `$TOKEN` ]; then";
   TLine "            PAYLOAD=`{\`token\`:\`$TOKEN\`,\`answer\`:$RESULT_CONTENT}`";
   TLine "          else";
   TLine "            PAYLOAD=`$RESULT_CONTENT`";
   TLine "          fi";
   TLine "        else";
   TLine "          TOKEN=$(echo `$CALLBACK_URL` | grep -o 'token=[^&]*' | cut -d= -f2 || true)";
   TLine "          if [ $EXIT_CODE -eq 0 ]; then";
   TLine "            STATUS_JSON=`{\`status\`:\`COMPLETED\`,\`exitCode\`:0}`";
   TLine "          else";
   TLine "            STATUS_JSON=`{\`status\`:\`FAILED\`,\`exitCode\`:$EXIT_CODE,\`error\`:\`Container exited with code $EXIT_CODE\`}`";
   TLine "          fi";
   TLine "          if [ -n `$TOKEN` ]; then";
   TLine "            PAYLOAD=`{\`token\`:\`$TOKEN\`,\`answer\`:$STATUS_JSON}`";
   TLine "          else";
   TLine "            PAYLOAD=`$STATUS_JSON`";
   TLine "          fi";
   TLine "        fi";
   TLine "        echo `[cloudinit-runner] Sending callback to $CALLBACK_URL`";
   TLine "        curl -s -X POST -H `Content-Type: application/json` -d `$PAYLOAD` `$CALLBACK_URL` || true";
   TLine "      fi";
   TLine "";
   TLine "      echo `[cloudinit-runner] Halting VM.`";
   TLine "      shutdown -h now";
   TLine "";
   TLine "runcmd:";
   TIf d_TailscaleAuthKey;
   TLine "  - curl -fsSL https://tailscale.com/install.sh | sh";
   TText "  - tailscale up --authkey=";
   TField d_TailscaleAuthKey;
   TText " --hostname=ephemeral-";
   TField d_JobID;
   TLine " --accept-routes";
   TEnd;
   TLine "  - systemctl enable docker";
   TLine "  - systemctl start docker";
   TText "  - mkdir -p ";
   TField d_MountPath;
   TLine " /tmp/job";
   TIf d_VolumeDevice;
   TText "  - for i in $(seq 1 30); do [ -b ";
   TField d_VolumeDevice;
   TLine " ] && break; sleep 1; done";
   TText "  - blkid ";
   TField d_VolumeDevice;
   TText " >/dev/null 2>&1 || mkfs.ext4 ";
   TField d_VolumeDevice;
   TLine " || true";
   TText "  - mount -o discard,defaults ";
   TField d_VolumeDevice;
   TText " ";
   TField d_MountPath;
   TLine " || true";
   TText "  - echo '";
   TField d_VolumeDevice;
   TText " ";
   TField d_MountPath;
   TLine " ext4 discard,nofail,defaults 0 0' >> /etc/fstab || true";
   TEnd;
   TIf d_GHCRToken;
   TText "  - echo `";
   TField d_GHCRToken;
   TText "` | docker login ghcr.io -u `";
   TField d_GHCRUsername;
   TLine "` --password-stdin";
   TEnd;
   TText "  - docker pull ";
   TField d_WorkerImage;
   TLine "";
   TLine "  - /tmp/job/run-job.sh"].

(** ** Operations *)

(** The template's conditions do not nest: [skip] is inside one that is off. *)
Fixpoint Execute (d : CloudInitData) (skip : bool) (l : list token) : string :=
  match l with
  | [] => EmptyString
  | TEnd :: l => Execute d false l
  | TIf f :: l => Execute d (String.eqb (f d) EmptyString) l
  | TText s :: l => (if skip then EmptyString else quotes s) +:+ Execute d skip l
  | TLine s :: l => (if skip then EmptyString else quotes s +:+ newline) +:+ Execute d skip l
  | TField f :: l => (if skip then EmptyString else f d) +:+ Execute d skip l
  end.

(** cleanEnv: the first line that is not blank, trimmed. *)
Definition cleanEnv (val : string) : string :=
  default EmptyString
    (head (filter (λ l, l ≠ EmptyString) (TrimSpace <$> Split val (Ascii.ascii_of_nat 10)))).

Definition nonempty (o : option string) : option string :=
  match o with Some s => if String.eqb s "" then None else Some s | None => None end.

Definition RequiresModelVolume (p : JobPayload) : bool :=
  let implicit := match p_Image p with
                  | Some img => Contains img "tts-worker" || Contains img "whisper-worker"
                  | None => false
                  end in
  match p_ModelsVolume p, p_ModelsVolumeKebab p with
  | Some false, _ | _, Some false => false
  | _, _ =>
      match p_Storage p with
      | Some (Some mv, _) =>
          let mv := ToLower (TrimSpace mv) in
          if existsb (String.eqb mv) ["false"; "none"; "disabled"; "0"] then false
          else if negb (String.eqb mv "") then true else implicit
      | _ => implicit
      end
  end.

(** *** validImageRegex *)

(** The characters of the pattern's classes. *)
Definition in_range (c : Ascii.ascii) (lo hi : nat) : bool :=
  ((lo <=? Ascii.nat_of_ascii c) && (Ascii.nat_of_ascii c <=? hi))%nat.
Definition name_char (c : Ascii.ascii) : bool :=
  in_range c 97 122 || in_range c 65 90 || in_range c 48 57
  || Ascii.eqb c "_"%char || Ascii.eqb c "."%char || Ascii.eqb c "-"%char.
Definition hex_char (c : Ascii.ascii) : bool :=
  in_range c 97 102 || in_range c 65 70 || in_range c 48 57.

Definition name_plus (s : string) : bool := negb (String.eqb s "") && all_chars name_char s.

(** ^name(/name)+(@sha256:hex{64}|:name)?$ -- the name class holds neither of the
    separators, so the parts are what the separators cut. *)
Definition valid_path (s : string) : bool :=
  (2 <=? length (Split s "/"%char))%nat && forallb name_plus (Split s "/"%char).
Definition validImage (image : string) : bool :=
  let '(path, digest, has_digest) := Cut image "@"%char in
  if has_digest then
    valid_path path && HasPrefix digest "sha256:"
    && (String.length (TrimPrefix digest "sha256:") =? 64)%nat
    && all_chars hex_char (TrimPrefix digest "sha256:")
  else
    let '(path, tag, has_tag) := Cut image ":"%char in
    valid_path path && (negb has_tag || name_plus tag).

Section cloudinit.
Context (getenv : string → string) (marshal_spec : WorkerJobSpec → result string string).

(** The model volume of a job that requires one; "" for none. *)
Definition model_volume (p : JobPayload) : string :=
  if RequiresModelVolume p then
    default (getenv "VOLUME_ID") (nonempty (p_Storage p ≫= fst))
  else "".

Definition command_line (p : JobPayload) (workerImage : string) : string :=
  match p_Command p with
  | _ :: _ =>
      Join (p_Command p) " " +:+
      match p_Args p with [] => "" | _ :: _ => " " +:+ Join (p_Args p) " " end
  | [] =>
      if Contains workerImage "remotion" then "node scripts/worker-entrypoint.js"
      else "python -u /app/worker-entrypoint.py"
  end.

Definition job_spec (p : JobPayload) (jobID workerImage mountPath volumeDevice : string)
    : WorkerJobSpec :=
  {| ws_JobID := jobID;
     ws_Image := workerImage;
     ws_Command := p_Command p;
     ws_Args := p_Args p;
     ws_Env := p_Env p;
     ws_Volumes := if String.eqb volumeDevice "" || String.eqb mountPath "" then []
                   else [mkVolumeMount mountPath mountPath true];
     ws_Input := p_Input p;
     ws_S3Prefix := default "" (p_Output p);
     ws_CallbackURL := cleanEnv (default (getenv "CALLBACK_BFF_BASE_URL") (nonempty (p_CallbackURL p)));
     ws_S3EndpointURL := cleanEnv (getenv "S3_ENDPOINT_URL");
     ws_S3BucketName := cleanEnv (getenv "S3_BUCKET_NAME");
     ws_TimeoutSeconds := match p_TimeoutSeconds p with
                          | Some n => if (0 <? n)%Z then n else 1200
                          | None => 1200
                          end |}.

(** The data the template is executed on, or why there is none. *)
Definition cloudInitData (p : JobPayload) (jobID : string) : result string CloudInitData :=
  let workerImage := default (getenv "EPHEMERAL_WORKER_IMAGE") (nonempty (p_Image p)) in
  if String.eqb workerImage "" then Err "EPHEMERAL_WORKER_IMAGE environment variable is required"
  else if negb (validImage workerImage) then Err ("invalid or unsafe worker image: " +:+ workerImage)
  else
    let mountPath := default "/models" (nonempty (p_Storage p ≫= snd)) in
    let volumeID := model_volume p in
    let volumeDevice := if String.eqb volumeID "" then ""
                        else "/dev/disk/by-id/scsi-0HC_Volume_" +:+ volumeID in
    let spec := job_spec p jobID workerImage mountPath volumeDevice in
    match marshal_spec spec with
    | Err e => Err ("failed to marshal worker job spec: " +:+ e)
    | Ok rawJSON =>
        let ghcrUsername := cleanEnv (getenv "GHCR_USERNAME") in
        Ok {| d_JobID := jobID;
              d_RequestJSON := "      " +:+ rawJSON;
              d_WorkerImage := workerImage;
              d_Command := command_line p workerImage;
              d_VolumeDevice := volumeDevice;
              d_MountPath := mountPath;
              d_CallbackURL := ws_CallbackURL spec;
              d_S3EndpointURL := ws_S3EndpointURL spec;
              d_S3BucketName := ws_S3BucketName spec;
              d_S3AccessKeyID := cleanEnv (getenv "S3_ACCESS_KEY_ID");
              d_S3SecretKey := cleanEnv (getenv "S3_SECRET_ACCESS_KEY");
              d_TailscaleAuthKey := cleanEnv (getenv "TAILSCALE_AUTHKEY");
              d_GHCRUsername := if String.eqb ghcrUsername "" then "arun4infra" else ghcrUsername;
              d_GHCRToken := cleanEnv (getenv "GHCR_TOKEN") |}
    end.

Definition userDataLimit : nat := Z.to_nat 32768.
Definition GenerateCloudInit (p : JobPayload) (jobID : string) : result string string :=
  match cloudInitData p jobID with
  | Err e => Err e
  | Ok d =>
      let s := Execute d false cloudInitTemplate in
      if (userDataLimit <? String.length s)%nat
      then Err "generated cloud-init exceeds Hetzner 32KB user_data limit"
      else Ok s
  end.
End cloudinit.
