(* ===== verification/CloudInitFacts.v ===== *)
(** * CloudInitFacts: what is known of the user-data of a worker VM. *)

From S2P Require Import Prelude.
From S2P Require Import WorkspaceStore.
From S2P Require Import CloudInit.

Local Open Scope string_scope.

Lemma Split_chars f s sep :
  f sep = true → forallb (all_chars f) (Split s sep) = true → all_chars f s = true.
Proof.
  intros Hsep. induction s as [|c s IH]; cbn; [done|].
  destruct (Ascii.eqb_spec c sep) as [->|]; cbn.
  { intros Hs. by rewrite Hsep, IH. }
  destruct (Split s sep) as [|w ws]; cbn in *.
  - rewrite !andb_true_r. intros ->. cbn. by apply IH.
  - intros [[-> Hw]%andb_true_iff Hws]%andb_true_iff. cbn. apply IH. by rewrite Hw, Hws.
Qed.

(** What the pattern admits: no blank, quote, or character a shell interprets. *)
Definition safe_char (c : ascii) : bool :=
  name_char c || Ascii.eqb c "/"%char || Ascii.eqb c ":"%char || Ascii.eqb c "@"%char.

Lemma name_safe s : name_plus s = true → all_chars safe_char s = true.
Proof.
  intros [_ H]%andb_true_iff. eapply all_chars_mono; [|done].
  intros c Hc. unfold safe_char. by rewrite Hc.
Qed.

Lemma valid_path_safe s : valid_path s = true → all_chars safe_char s = true.
Proof.
  intros [_ H]%andb_true_iff. apply (Split_chars _ _ "/"%char); [done|].
  rewrite forallb_forall in H |- *. intros w Hw. by apply name_safe, H.
Qed.

Lemma hex_safe c : hex_char c = true → safe_char c = true.
Proof.
  intros Hc. unfold safe_char, name_char. unfold hex_char in Hc.
  assert (Hr : in_range c 97 102 = true → in_range c 97 122 = true).
  { unfold in_range. rewrite !andb_true_iff, !Nat.leb_le. lia. }
  assert (Hr' : in_range c 65 70 = true → in_range c 65 90 = true).
  { unfold in_range. rewrite !andb_true_iff, !Nat.leb_le. lia. }
  apply orb_true_iff in Hc as [[Hc|Hc]%orb_true_iff|Hc];
    [rewrite (Hr Hc)|rewrite (Hr' Hc)|rewrite Hc]; rewrite ?orb_true_r; reflexivity.
Qed.

(** An image the pattern accepts holds nothing but letters, digits and the
    characters _ . - / : @, so that pasting it into the shell script of the VM
    cannot add a word or a command; and it names a registry path of two parts at
    least. *)
Theorem validImage_safe (image : string) :
  validImage image = true →
  all_chars safe_char image = true ∧
  ∃ path rest, image = path +:+ rest ∧ (2 ≤ length (Split path "/"%char))%nat.
Proof.
  unfold validImage. destruct (Cut image "@"%char) as [[path digest] has] eqn:E.
  apply Cut_spec in E. destruct has.
  - rewrite !andb_true_iff. intros [[[Hp Hpre] _] Hhex].
    apply HasPrefix_iff in Hpre as [hex ->]. rewrite TrimPrefix_app in Hhex. split.
    + rewrite E, all_chars_app, (valid_path_safe _ Hp). cbn [all_chars andb].
      rewrite all_chars_app, (all_chars_mono _ safe_char _ hex_safe Hhex). done.
    + exists path, (String "@"%char ("sha256:" +:+ hex)). split; [done|].
      apply andb_true_iff in Hp as [Hlen _]. by apply Nat.leb_le.
  - subst path. destruct (Cut image ":"%char) as [[path tag] hast] eqn:E.
    apply Cut_spec in E. intros [Hp Ht]%andb_true_iff. pose proof Hp as [Hlen _]%andb_true_iff.
    apply Nat.leb_le in Hlen. apply valid_path_safe in Hp. destruct hast; cbn in Ht.
    + rewrite E. split; [|eauto]. rewrite all_chars_app, Hp. cbn. by apply name_safe.
    + subst image. split; [done|]. exists path, "". by rewrite str_app_nil_r.
Qed.

(** The variables that hold credentials. *)
Definition secrets : list string :=
  ["S3_ACCESS_KEY_ID"; "S3_SECRET_ACCESS_KEY"; "TAILSCALE_AUTHKEY"; "GHCR_TOKEN"; "GHCR_USERNAME"].

Lemma getenv_same (g g' : string → string) x :
  (∀ x, x ∉ secrets → g x = g' x) → bool_decide (x ∈ secrets) = false → g x = g' x.
Proof. intros H Hx. apply H. by eapply bool_decide_eq_false_1. Qed.

(** the worker's job request, which cloud-init leaves world-readable on the VM,
    does not depend on any credential in the provisioner's environment: whatever
    these hold, generation fails alike, or the request written and the image, the
    command, the volume and the callback are the same. *)
Theorem request_json_secret_free (g g' : string → string)
    (marshal_spec : WorkerJobSpec → result string string) (p : JobPayload) (jobID : string) :
  (∀ x, x ∉ secrets → g x = g' x) →
  match cloudInitData g marshal_spec p jobID, cloudInitData g' marshal_spec p jobID with
  | Ok d, Ok d' =>
      d_RequestJSON d = d_RequestJSON d' ∧ d_WorkerImage d = d_WorkerImage d' ∧
      d_Command d = d_Command d' ∧ d_VolumeDevice d = d_VolumeDevice d' ∧
      d_CallbackURL d = d_CallbackURL d'
  | Err e, Err e' => e = e'
  | _, _ => False
  end.
Proof.
  intros Hg. unfold cloudInitData, model_volume, job_spec.
  rewrite !(getenv_same g g' "EPHEMERAL_WORKER_IMAGE"), !(getenv_same g g' "VOLUME_ID"),
    !(getenv_same g g' "CALLBACK_BFF_BASE_URL"), !(getenv_same g g' "S3_ENDPOINT_URL"),
    !(getenv_same g g' "S3_BUCKET_NAME") by (done || reflexivity).
  destruct (String.eqb _ _); [done|]. destruct (negb _); [done|].
  destruct (marshal_spec _); [|done]. by split_and!.
Qed.

(** User-data that is generated fits the 32768 bytes the service accepts, was
    built on an image the pattern accepts, and names the block device of the very
    volume that [provision] attaches to the VM. *)
Theorem GenerateCloudInit_ok (getenv : string → string)
    (marshal_spec : WorkerJobSpec → result string string) (p : JobPayload) (jobID s : string) :
  GenerateCloudInit getenv marshal_spec p jobID = Ok s →
  (String.length s ≤ userDataLimit)%nat ∧
  ∃ d, s = Execute d false cloudInitTemplate ∧ validImage (d_WorkerImage d) = true ∧
    d_JobID d = jobID ∧
    d_VolumeDevice d = (if String.eqb (model_volume getenv p) "" then ""
                        else "/dev/disk/by-id/scsi-0HC_Volume_" +:+ model_volume getenv p).
Proof.
  unfold GenerateCloudInit. destruct (cloudInitData _ _ _ _) as [d|e] eqn:E; [|done].
  destruct (Nat.ltb_spec userDataLimit (String.length (Execute d false cloudInitTemplate))); [done|].
  intros [= <-]. split; [done|]. exists d. split; [done|]. unfold cloudInitData in E.
  destruct (String.eqb _ _); [done|]. destruct (validImage _) eqn:Hv; [|done]. cbn in E.
  destruct (marshal_spec _); [|done]. injection E as <-. done.
Qed.
