(* ===== verification/VmProvisioner.v ===== *)
(** * VmProvisioner: the ephemeral VM provisioner.

    Models operators/ephemeral-vm-provisioner: the job table
    (internal/store/store.go), the Hetzner client (internal/hetzner/client.go), the
    reconciler, its error classes and the HTTP ingress (internal/provision). The
    Hetzner service is a parameter, [Hcloud]: a state and what it answers to each
    request. A statement against Postgres takes its outcome from [dbscript], and
    every request made of the service is kept in [calls]. *)

From S2P Require Import Prelude.
From S2P Require Import WorkspaceStore.
From S2P Require Import CloudInit.

Local Open Scope string_scope.

(** ** Data *)

Inductive JobStatus :=
| StatusPending
| StatusProvisioning
| StatusRunning
| StatusCompleted
| StatusFailed.

#[export] Instance JobStatus_eq_dec : EqDecision JobStatus.
Proof. solve_decision. Defined.

(** A row of ephemeral_jobs; times are nanoseconds. *)
Record Job := mkJob {
  j_ID : string;
  j_Status : JobStatus;
  j_Payload : JobPayload;
  j_WorkerID : option string;
  j_WorkerIP : option string;
  j_VolumeID : option string;
  j_Error : option string;
  j_StartedAt : option Z;
  j_Completed : option Z;
  j_ClaimedBy : option string;
  j_LeaseUntil : option Z;
  j_Attempts : Z;
  j_CreatedAt : Z }.

Record Server := mkServer {
  s_ID : string;
  s_Name : string;
  s_IP : string;
  s_Status : string }.

(** The requests the client makes, and the bodies it can parse out of an answer. *)
Inductive request :=
| ReqCreate (name cloudInit serverType : string)
| ReqGet (id : string)
| ReqList (page : Z)
| ReqDelete (id : string)
| ReqVolume (id : string)
| ReqAttach (volume : string) (server : Z)
| ReqDetach (volume : string).

Inductive reply :=
| RServer (id : Z) (name ip status : string)
| RServers (l : list (Z * string * string * string)) (page lastPage : Z)
| RVolume (server : option Z)
| ROther.

(** What comes back: no response, or a status code with a body that is both text
    and, when it parses, a value. *)
Inductive http := NoResponse (msg : string) | Answer (code : Z) (text : string) (value : reply).

(** The Hetzner Cloud API. *)
Class Hcloud := {
  cloud : Type;
  hc_do : request → cloud → http * cloud;
  hc_elapsed : request → cloud → N }.

Section provisioner.
Context {H : Hcloud}.

Record World := mkWorld {
  db : gmap string Job;
  dbscript : list outcome;
  cl : cloud;
  clock : Z;
  calls : list (request * http) }.

Definition set_db d w := mkWorld d (dbscript w) (cl w) (clock w) (calls w).
Definition set_dbscript l w := mkWorld (db w) l (cl w) (clock w) (calls w).
Definition set_clock t w := mkWorld (db w) (dbscript w) (cl w) t (calls w).

Abbreviation W := (goM World string).

(** ** The job table *)

(** One statement: what it returns and what it makes of the table. A statement
    can fail before it ran, and after it was committed. *)
Definition sql {A} (f : Z → gmap string Job → A * gmap string Job) : W A := λ w,
  let '(o, l) := next_outcome (dbscript w) in
  let '(x, d) := f (clock w) (db w) in
  match o with
  | Done => (Ok x, set_db d (set_dbscript l w))
  | Lost => (Err "database error", set_dbscript l w)
  | Unknown => (Err "database error", set_db d (set_dbscript l w))
  end.

(** An UPDATE of one row under a condition, RETURNING it. *)
Definition update_where (id : string) (cond : Z → Job → bool) (upd : Z → Job → Job)
    : W (option Job) :=
  sql (λ t d,
    match d !! id with
    | Some j => if cond t j then (Some (upd t j), <[id := upd t j]> d) else (None, d)
    | None => (None, d)
    end).

Definition Get (id : string) : W (option Job) := sql (λ _ d, (d !! id, d)).

Definition expired (t : Z) (j : Job) : bool :=
  match j_LeaseUntil j with Some l => (l <? t)%Z | None => false end.
Definition unleased (t : Z) (j : Job) : bool :=
  match j_LeaseUntil j with Some l => (l <? t)%Z | None => true end.

Definition ClaimPending (id claimedBy : string) (leaseSeconds : Z) : W (option Job) :=
  update_where id
    (λ t j, bool_decide (j_Status j = StatusPending) && unleased t j)
    (λ t j, mkJob (j_ID j) StatusProvisioning (j_Payload j) (j_WorkerID j) (j_WorkerIP j)
      (j_VolumeID j) (j_Error j) (Some t) (j_Completed j) (Some claimedBy)
      (Some (t + leaseSeconds * second)%Z) (j_Attempts j + 1)%Z (j_CreatedAt j)).

Definition ReclaimExpiredLease (id claimedBy : string) (fromStatuses : list JobStatus)
    (leaseSeconds : Z) : W (option Job) :=
  update_where id
    (λ t j, bool_decide (j_Status j ∈ fromStatuses) && expired t j)
    (λ t j, mkJob (j_ID j) (j_Status j) (j_Payload j) (j_WorkerID j) (j_WorkerIP j)
      (j_VolumeID j) (j_Error j) (j_StartedAt j) (j_Completed j) (Some claimedBy)
      (Some (t + leaseSeconds * second)%Z) (j_Attempts j + 1)%Z (j_CreatedAt j)).

Definition RenewLease (id claimedBy : string) (leaseSeconds : Z) : W (option Job) :=
  update_where id
    (λ _ j, bool_decide (j_ClaimedBy j = Some claimedBy))
    (λ t j, mkJob (j_ID j) (j_Status j) (j_Payload j) (j_WorkerID j) (j_WorkerIP j)
      (j_VolumeID j) (j_Error j) (j_StartedAt j) (j_Completed j) (j_ClaimedBy j)
      (Some (t + leaseSeconds * second)%Z) (j_Attempts j) (j_CreatedAt j)).

Record Patch := mkPatch {
  pt_Status : option JobStatus;
  pt_WorkerID : option string;
  pt_WorkerIP : option string;
  pt_VolumeID : option string;
  pt_Error : option string }.

Definition orElse {A} (x y : option A) : option A := match x with Some _ => x | None => y end.

(** UpdateDetails: the columns whose pointer is not nil; a Get when none is. *)
Definition UpdateDetails (id : string) (p : Patch) : W (option Job) :=
  match p with
  | mkPatch None None None None None => Get id
  | _ =>
      update_where id (λ _ _, true)
        (λ _ j, mkJob (j_ID j) (default (j_Status j) (pt_Status p)) (j_Payload j)
          (orElse (pt_WorkerID p) (j_WorkerID j)) (orElse (pt_WorkerIP p) (j_WorkerIP j))
          (orElse (pt_VolumeID p) (j_VolumeID j)) (orElse (pt_Error p) (j_Error j))
          (j_StartedAt j) (j_Completed j) (j_ClaimedBy j) (j_LeaseUntil j) (j_Attempts j)
          (j_CreatedAt j))
  end.

Definition MarkTerminal (id : string) (status : JobStatus) (errMsg : string) : W (option Job) :=
  update_where id (λ _ _, true)
    (λ t j, mkJob (j_ID j) status (j_Payload j) (j_WorkerID j) (j_WorkerIP j) (j_VolumeID j)
      (if String.eqb errMsg "" then None else Some errMsg) (j_StartedAt j) (Some t)
      (j_ClaimedBy j) None (j_Attempts j) (j_CreatedAt j)).

Definition ClearWorkerID (id : string) : W (option Job) :=
  update_where id (λ _ _, true)
    (λ _ j, mkJob (j_ID j) (j_Status j) (j_Payload j) None (j_WorkerIP j) (j_VolumeID j)
      (j_Error j) (j_StartedAt j) (j_Completed j) (j_ClaimedBy j) (j_LeaseUntil j)
      (j_Attempts j) (j_CreatedAt j)).

Definition worker_ids (d : gmap string Job) : gset string :=
  list_to_set (filter (λ w, w ≠ "") (omap j_WorkerID (map_to_list d).*2)).
Definition ListWorkerIDs : W (gset string) := sql (λ _ d, (worker_ids d, d)).

Definition created_le (x y : Job) : Prop := (j_CreatedAt x ≤ j_CreatedAt y)%Z.
#[local] Instance created_le_dec : RelDecision created_le :=
  λ x y, decide (j_CreatedAt x ≤ j_CreatedAt y)%Z.

Definition by_status (statuses : list JobStatus) (expiredLeaseOnly : bool) (t : Z)
    (d : gmap string Job) : list Job :=
  merge_sort created_le
    (filter (λ j, (bool_decide (j_Status j ∈ statuses)
                   && (negb expiredLeaseOnly || expired t j)) = true) (map_to_list d).*2).
Definition ListByStatus (statuses : list JobStatus) (expiredLeaseOnly : bool) : W (list Job) :=
  sql (λ t d, (by_status statuses expiredLeaseOnly t d, d)).

(** ** The Hetzner client *)

Definition doRequest (r : request) : W (string * reply) := λ w,
  let '(a, c) := hc_do r (cl w) in
  let w' := mkWorld (db w) (dbscript w) c (clock w + Z.of_N (hc_elapsed r (cl w)))%Z
              (calls w ++ [(r, a)])%list in
  match a with
  | NoResponse msg => (Err ("request failed: " +:+ msg), w')
  | Answer code text v =>
      if ((code <? 200) || (300 <=? code))%Z
      then (Err ("API error " +:+ pretty code +:+ ": " +:+ text), w')
      else (Ok (text, v), w')
  end.

(** [fmt.Errorf("...: %w", err)]: errors are their messages. *)
Definition errorf {A} (what : string) (m : W A) : W A := λ w,
  match m w with
  | (Err e, w') => (Err (what +:+ ": " +:+ e), w')
  | r => r
  end.
Definition parse_error {A} : W A := throw "failed to parse response".

Definition CreateServer (name cloudInit serverType : string) : W Server :=
  let serverType := if String.eqb serverType "" then "cpx22" else serverType in
  x ← errorf "failed to create server" (doRequest (ReqCreate name cloudInit serverType));
  match x.2 with
  | RServer id n ip _ => mret (mkServer (pretty id) n ip "creating")
  | _ => parse_error
  end.

Definition GetServer (id : string) : W Server :=
  x ← errorf "failed to get server" (doRequest (ReqGet id));
  match x.2 with
  | RServer id n ip st => mret (mkServer (pretty id) n ip st)
  | _ => parse_error
  end.

(** ListServers: page after page until the one reported last. *)
Fixpoint list_pages (fuel : nat) (page : Z) (acc : list Server) : W (list Server) :=
  match fuel with
  | O => throw "out of fuel"
  | S fuel =>
      x ← errorf "failed to list servers" (doRequest (ReqList page));
      match x.2 with
      | RServers l p lastp =>
          let acc := (acc ++ ((λ '(id, n, ip, st), mkServer (pretty id) n ip st) <$> l))%list in
          if ((lastp <=? p) || (lastp =? 0))%Z then mret acc
          else list_pages fuel (page + 1) acc
      | _ => parse_error
      end
  end.
Definition ListServers (fuel : nat) : W (list Server) := list_pages fuel 1 [].

Definition DeleteServer (id : string) : W unit :=
  errorf "failed to delete server" (doRequest (ReqDelete id)) ≫= λ _, mret ().

(** GetVolume: the server it is attached to, as a string, "" for none. *)
Definition GetVolume (id : string) : W string :=
  x ← errorf "failed to get volume" (doRequest (ReqVolume id));
  match x.2 with
  | RVolume (Some srv) => mret (pretty srv)
  | RVolume None => mret ""
  | _ => parse_error
  end.

(** WaitForVolumeAttached and WaitForVolumeDetached: the volume's server is polled
    every second until it is the one wanted or the deadline has passed. *)
Fixpoint wait_volume (fuel : nat) (id want : string) (deadline : Z) : W unit :=
  t ← gets clock;
  if (t <? deadline)%Z then
    match fuel with
    | O => throw "out of fuel"
    | S fuel =>
        srv ← GetVolume id;
        if String.eqb srv want then mret ()
        else modify (λ w, set_clock (clock w + second)%Z w) ≫= λ _, wait_volume fuel id want deadline
    end
  else throw "timed out waiting for volume".
Definition waitTimeout : Z := (30 * second)%Z.
Definition wait_fuel : nat := 30.
Definition WaitForVolume (id want : string) : W unit :=
  t ← gets clock; wait_volume wait_fuel id want (t + waitTimeout)%Z.

Definition AttachVolume (volumeID serverID : string) : W unit :=
  match Atoi serverID with
  | None => throw "invalid server ID"
  | Some n =>
      errorf "failed to attach volume" (doRequest (ReqAttach volumeID n)) ≫= λ _,
      errorf "failed waiting for volume" (WaitForVolume volumeID serverID)
  end.

Definition DetachVolume (volumeID : string) : W unit :=
  errorf "failed to detach volume" (doRequest (ReqDetach volumeID)) ≫= λ _,
  errorf "failed waiting for volume" (WaitForVolume volumeID "").

(** ** Error classes *)

Definition unrecoverableHcloudError (msg : string) : bool :=
  existsb (Contains msg)
    ["API error 400"; "API error 401"; "API error 403"; "API error 409"; "API error 422"].

Definition isGone (msg : string) : bool :=
  Contains msg "API error 404" || Contains msg "volume not attached to a server".

(** ** The reconciler *)

Context (hostname : string) (getenv : string → string)
  (marshal_spec : WorkerJobSpec → result string string) (fuel : nat).

Definition leaseSeconds : Z := 300.

(** The two halves of [cleanup]: the worker VM, and the model volume. *)
Definition delete_worker (id : string) (worker : option string) : W unit :=
  match nonempty worker with
  | None => mret ()
  | Some wid =>
      r ← attempt (DeleteServer wid);
      match r with
      | Ok _ => attempt (ClearWorkerID id) ≫= λ _, mret ()
      | Err e => if isGone e then attempt (ClearWorkerID id) ≫= λ _, mret () else mret ()
      end
  end.
Definition detach_volume (volume : option string) : W unit :=
  match nonempty volume with
  | None => mret ()
  | Some vol =>
      if String.eqb vol (getenv "VOLUME_ID") then mret ()
      else attempt (DetachVolume vol) ≫= λ _, mret ()
  end.

Definition cleanup (jobID : string) : W unit :=
  job ← Get jobID;
  match job with
  | None => mret ()
  | Some job =>
      delete_worker (j_ID job) (j_WorkerID job) ≫= λ _, detach_volume (j_VolumeID job)
  end.

Definition fail (job : Job) (reason : string) : W unit :=
  MarkTerminal (j_ID job) StatusFailed reason ≫= λ _, cleanup (j_ID job).

Definition provision (job : Job) : W unit :=
  if decide (nonempty (j_WorkerID job) ≠ None) then mret () else
  match GenerateCloudInit getenv marshal_spec (j_Payload job) (j_ID job) with
  | Err e => fail job ("failed to generate cloud-init: " +:+ e)
  | Ok cloudInit =>
      r ← attempt (CreateServer (j_ID job) cloudInit (default "" (p_ServerType (j_Payload job))));
      match r with
      | Err e =>
          if unrecoverableHcloudError e then fail job ("failed to create server: " +:+ e)
          else throw e
      | Ok server =>
          let volumeID := model_volume getenv (j_Payload job) in
          UpdateDetails (j_ID job) (mkPatch None (Some (s_ID server)) (Some (s_IP server))
            (if String.eqb volumeID "" then None else Some volumeID) None) ≫= λ _,
          if String.eqb volumeID "" then mret ()
          else attempt (AttachVolume volumeID (s_ID server)) ≫= λ _, mret ()
      end
  end.

Definition claimAndProvision (job : Job) : W unit :=
  claimed ← ClaimPending (j_ID job) hostname leaseSeconds;
  match claimed with
  | None => mret ()
  | Some j => provision j
  end.

Definition renew_if_ours (job : Job) : W unit :=
  if bool_decide (j_ClaimedBy job = Some hostname)
  then RenewLease (j_ID job) hostname leaseSeconds ≫= λ _, mret () else mret ().

Definition provisioningTimedOut (job : Job) (t : Z) : bool :=
  match j_StartedAt job with
  | Some t0 => (15 * 60 * second <? t - t0)%Z
  | None => false
  end.

Definition reconcileProvisioning (job : Job) : W unit :=
  renew_if_ours job ≫= λ _,
  match j_WorkerID job with
  | None => provision job
  | Some wid =>
      t ← gets clock;
      if provisioningTimedOut job t
      then fail job "VM did not become ready before the provisioning timeout" else
      server ← GetServer wid;
      if String.eqb (s_Status server) "off" || String.eqb (s_Status server) "stopped"
      then fail job "worker VM powered off during provisioning"
      else if String.eqb (s_Status server) "running"
      then UpdateDetails (j_ID job) (mkPatch (Some StatusRunning) None None None None) ≫= λ _, mret ()
      else mret ()
  end.

(** The global timeout, in the 64-bit arithmetic of time.Duration. *)
Definition timedOut (job : Job) (t : Z) : bool :=
  match j_StartedAt job, p_TimeoutSeconds (j_Payload job) with
  | Some t0, Some n => (0 <? n)%Z && (wrap64 (n * second) <? t - t0)%Z
  | _, _ => false
  end.

Definition reconcileRunning (job : Job) : W unit :=
  renew_if_ours job ≫= λ _,
  t ← gets clock;
  if timedOut job t then fail job "job timed out" else
  match nonempty (j_WorkerID job) with
  | None => mret ()
  | Some wid =>
      r ← attempt (GetServer wid);
      match r with
      | Err e => if isGone e then fail job ("worker VM no longer reachable: " +:+ e) else throw e
      | Ok server =>
          if existsb (String.eqb (s_Status server)) ["deleting"; "deleted"; "off"; "stopped"]
          then fail job "worker VM powered off or deleted while the job was running"
          else mret ()
      end
  end.

Definition reconcileJob (jobID : string) : W unit :=
  job ← Get jobID;
  match job with
  | None => mret ()
  | Some job =>
      match j_Status job with
      | StatusPending => claimAndProvision job
      | StatusProvisioning => reconcileProvisioning job
      | StatusRunning => reconcileRunning job
      | StatusCompleted | StatusFailed => cleanup (j_ID job)
      end
  end.

Definition Trigger (jobID : string) : W unit := attempt (reconcileJob jobID) ≫= λ _, mret ().

(** A listing whose failure is logged, and its jobs, whose failures are logged. *)
Definition each (statuses : list JobStatus) (f : string → W unit) : W unit :=
  l ← attempt (ListByStatus statuses false);
  match l with
  | Err _ => mret ()
  | Ok jobs => forM jobs (λ j, attempt (f (j_ID j)) ≫= λ _, mret ())
  end.

(** The servers of the sweep that no job row referenced when it began. *)
Definition sweep (managed : gset string) (servers : list Server) : W unit :=
  forM servers (λ srv,
    if String.eqb (s_Status srv) "deleting" then mret ()
    else if decide (s_ID srv ∈ managed) then mret ()
    else attempt (DeleteServer (s_ID srv)) ≫= λ _, mret ()).

Definition orphanSweep : W unit :=
  managed ← ListWorkerIDs;
  servers ← ListServers fuel;
  sweep managed servers.

Definition reconcileAll : W unit :=
  each [StatusPending] reconcileJob ≫= λ _,
  each [StatusProvisioning] reconcileJob ≫= λ _,
  each [StatusRunning] reconcileJob ≫= λ _,
  each [StatusCompleted; StatusFailed] cleanup ≫= λ _,
  attempt orphanSweep ≫= λ _, mret ().

(** ** The HTTP ingress *)

(** An answer: the code, and the status it reports, if it reports one. *)
Definition currentStatusNoop : JobStatus := StatusPending.
Definition handle_provision (jobID : option string) : W (Z * option JobStatus) :=
  match jobID with
  | None => mret (400%Z, None)
  | Some id =>
      if String.eqb (TrimSpace id) "" then mret (400%Z, None) else
      got ← attempt (Get id);
      match got with
      | Err _ => mret (500%Z, None)
      | Ok None => mret (404%Z, None)
      | Ok (Some job) =>
          match j_Status job with
          | StatusCompleted | StatusFailed => mret (200%Z, Some (j_Status job))
          | StatusPending =>
              claimed ← attempt (ClaimPending (j_ID job) hostname leaseSeconds);
              match claimed with
              | Err _ => mret (500%Z, None)
              | Ok None => mret (200%Z, Some currentStatusNoop)
              | Ok (Some _) =>
                  Trigger (j_ID job) ≫= λ _, mret (200%Z, Some StatusProvisioning)
              end
          | StatusProvisioning | StatusRunning =>
              Trigger (j_ID job) ≫= λ _, mret (200%Z, Some (j_Status job))
          end
      end
  end.
End provisioner.
