(* ===== verification/VmProvisionerFacts.v ===== *)
(** * VmProvisionerFacts: what the provisioner guarantees.

    Over every job table, every answer of the Hetzner service and every failure of
    a statement: jobs move only forward through their lifecycle; a job is claimed
    once; a worker is forgotten only when its deletion was confirmed; the sweep
    spares every server a job references; waits end. And the two places where a
    stale read turns a healthy job into a failed one. *)

From S2P Require Import Prelude.
From S2P Require Import WorkspaceStore.
From S2P Require Import CloudInit.
From S2P Require Import VmProvisioner.

Local Open Scope string_scope.

(** ** Lifecycle *)

Definition terminal (st : JobStatus) : bool :=
  match st with StatusCompleted | StatusFailed => true | _ => false end.

(** The moves a provisioner makes. *)
Inductive edge : JobStatus → JobStatus → Prop :=
| edge_claim : edge StatusPending StatusProvisioning
| edge_ready : edge StatusProvisioning StatusRunning
| edge_fail_provisioning : edge StatusProvisioning StatusFailed
| edge_fail_running : edge StatusRunning StatusFailed.

Lemma edge_terminal st st' : rtc edge st st' → terminal st = true → st' = st.
Proof. intros Hr Ht. destruct Hr as [|x y z Hxy _]; [done|]. by destruct Hxy. Qed.

Lemma edge_pending st : rtc edge st StatusPending → st = StatusPending.
Proof.
  intros Hr. remember StatusPending as p eqn:Hp. induction Hr as [|x y z Hxy _ IH]; [done|].
  specialize (IH Hp). subst. inversion Hxy.
Qed.

(** The message of an answer the client takes for an error. *)
Definition http_error (a : http) : option string :=
  match a with
  | NoResponse msg => Some ("request failed: " +:+ msg)
  | Answer code text _ =>
      if ((code <? 200) || (300 <=? code))%Z
      then Some ("API error " +:+ pretty code +:+ ": " +:+ text) else None
  end.

(** The service confirmed that the server [wid] is deleted, or gone already. *)
Definition confirmed (wid : string) (log : list (request * http)) : Prop :=
  ∃ a, (ReqDelete wid, a) ∈ log ∧
    match http_error a with
    | None => True
    | Some e => isGone ("failed to delete server: " +:+ e) = true
    end.

Lemma confirmed_app wid l l' : confirmed wid l → confirmed wid (l ++ l')%list.
Proof. intros (a & Ha & Hc). exists a. split; [apply elem_of_app; by left|done]. Qed.

Section facts.
Context {H : Hcloud}.
Abbreviation W := (goM World string).

(** How a row may have changed, given the requests made so far. *)
Definition evolves (log : list (request * http)) (j j' : Job) : Prop :=
  j_ID j' = j_ID j ∧ j_Payload j' = j_Payload j ∧ j_CreatedAt j' = j_CreatedAt j ∧
  rtc edge (j_Status j) (j_Status j') ∧
  (j_Status j ≠ StatusPending → j_StartedAt j' = j_StartedAt j) ∧
  (∀ wid, nonempty (j_WorkerID j) = Some wid →
     j_WorkerID j' = Some wid ∨ confirmed wid log).

Definition wf (d : gmap string Job) : Prop := ∀ id j, d !! id = Some j → j_ID j = id.

Definition rows (d0 : gmap string Job) (w : World) : Prop :=
  ∀ id, match d0 !! id with
        | None => db w !! id = None
        | Some j => ∃ j', db w !! id = Some j' ∧ evolves (calls w) j j'
        end.

Lemma evolves_refl log j : evolves log j j.
Proof.
  split_and!; [done..| | |]; [done|done|]. intros wid Hw. left.
  unfold nonempty in Hw. destruct (j_WorkerID j) as [x|]; [|done].
  destruct (String.eqb x ""); naive_solver.
Qed.

Lemma rows_refl w : rows (db w) w.
Proof. intros id. destruct (db w !! id) eqn:E; [|done]. eauto using evolves_refl. Qed.

(** A statement on one row. *)
Definition safe_update (log : list (request * http)) (j j' : Job) : Prop :=
  j_ID j' = j_ID j ∧ j_Payload j' = j_Payload j ∧ j_CreatedAt j' = j_CreatedAt j ∧
  rtc edge (j_Status j) (j_Status j') ∧
  (j_Status j ≠ StatusPending → j_StartedAt j' = j_StartedAt j) ∧
  (j_WorkerID j' = j_WorkerID j ∨ nonempty (j_WorkerID j) = None ∨
   ∃ wid, j_WorkerID j = Some wid ∧ confirmed wid log).

Lemma evolves_step log j j1 j2 : evolves log j j1 → safe_update log j1 j2 → evolves log j j2.
Proof.
  intros (Hi & Hp & Hc & He & Ht & Hw) (Hi' & Hp' & Hc' & He' & Ht' & Hw').
  split_and!; [congruence..|by etrans| |].
  - intros Hn. rewrite Ht', Ht; [done..|]. intros Hp1. rewrite Hp1 in He.
    by apply edge_pending in He.
  - intros wid Hn. destruct (Hw wid Hn) as [Hs|]; [|by right].
    destruct Hw' as [->|[Hnone|(wid' & Hs' & Hcf)]]; [by left| |].
    + exfalso. rewrite Hs in Hnone. cbn in Hnone.
      unfold nonempty in Hn. destruct (j_WorkerID j) as [x|]; [|done].
      destruct (String.eqb_spec x ""); [done|]. injection Hn as ->.
      by destruct (String.eqb_spec wid "").
    + right. congruence.
Qed.

Lemma rows_update d0 w id j j' l :
  rows d0 w → db w !! id = Some j → safe_update (calls w) j j' →
  rows d0 (set_db (<[id := j']> (db w)) (set_dbscript l w)).
Proof.
  intros Hr Hj Hs id'. specialize (Hr id'). cbn. destruct (decide (id = id')) as [<-|Hne].
  - rewrite lookup_insert_eq. destruct (d0 !! id) as [j0|]; [|congruence].
    destruct Hr as (j1 & Hj1 & He). assert (j1 = j) as -> by congruence.
    eauto using evolves_step.
  - by rewrite lookup_insert_ne.
Qed.

(** *** Statements *)

Lemma rows_update_where d0 id cond upd :
  (∀ w j, rows d0 w → db w !! id = Some j → cond (clock w) j = true →
     safe_update (calls w) j (upd (clock w) j)) →
  keeps (rows d0) (update_where id cond upd).
Proof.
  intros Hu w Hr. unfold update_where, sql.
  destruct (next_outcome (dbscript w)) as [o l].
  destruct (db w !! id) as [j|] eqn:Hj; [destruct (cond (clock w) j) eqn:Hc|];
    destruct o; cbn; try done; eapply rows_update; eauto.
Qed.

Lemma rows_read d0 {A} (f : Z → gmap string Job → A) : keeps (rows d0) (sql (λ t d, (f t d, d))).
Proof.
  intros w Hr. unfold sql. destruct (next_outcome (dbscript w)) as [o l]. by destruct o.
Qed.

Lemma safe_same log j j' :
  j_ID j' = j_ID j → j_Payload j' = j_Payload j → j_CreatedAt j' = j_CreatedAt j →
  j_Status j' = j_Status j → j_StartedAt j' = j_StartedAt j → j_WorkerID j' = j_WorkerID j →
  safe_update log j j'.
Proof. intros ?? ? Hs ??. split_and!; [done..|by rewrite Hs|done|by left]. Qed.

Lemma rows_Get d0 id : keeps (rows d0) (Get id).
Proof. apply (rows_read d0 (λ _ d, d !! id)). Qed.

Lemma rows_RenewLease d0 id c n : keeps (rows d0) (RenewLease id c n).
Proof. apply rows_update_where. intros. by apply safe_same. Qed.

Lemma rows_ClaimPending d0 id c n : keeps (rows d0) (ClaimPending id c n).
Proof.
  apply rows_update_where. intros w j _ _ [Hp%bool_decide_eq_true _]%andb_true_iff.
  split_and!; try done; cbn; [|by left]. rewrite Hp. apply rtc_once. constructor.
Qed.

(** *** Requests *)

Lemma rows_doRequest d0 r : keeps (rows d0) (doRequest r).
Proof.
  intros w Hr. unfold doRequest. destruct (hc_do r (cl w)) as [a c].
  assert (Hr' : rows d0 (mkWorld (db w) (dbscript w) c
    (clock w + Z.of_N (hc_elapsed r (cl w))) (calls w ++ [(r, a)])%list)).
  { intros id. specialize (Hr id). cbn. destruct (d0 !! id); [|done].
    destruct Hr as (j' & Hj' & Hi & Hp & Hc & He & Ht & Hw). exists j'. split; [done|].
    split_and!; [done..|]. intros wid Hn. destruct (Hw wid Hn); [by left|right].
    by apply confirmed_app. }
  destruct a as [msg|code text v]; [done|]. by destruct (_ || _)%Z.
Qed.

Lemma keeps_errorf {A} (I : World → Prop) what (m : W A) :
  keeps I m → keeps I (errorf what m).
Proof. intros Hm w Hw. specialize (Hm w Hw). unfold errorf. by destruct (m w) as [[] ?]. Qed.

(** *** The client, for any property requests and the clock leave alone *)

Section client.
Context (I : World → Prop) (Hreq : ∀ r, keeps I (doRequest r))
  (Hclk : ∀ w t, I w → I (set_clock t w)).

Ltac walk_client :=
  repeat first
    [ progress intros
    | match goal with
      | |- keeps _ (match ?x with _ => _ end) => destruct x eqn:?
      | |- keeps _ (let '(_, _) := ?x in _) => destruct x eqn:?
      end
    | apply Hreq | apply keeps_errorf | apply keeps_bind | apply keeps_attempt
    | solve [eauto with keeps] ].

Lemma keeps_CreateServer n c ty : keeps I (CreateServer n c ty).
Proof. unfold CreateServer, parse_error. walk_client. Qed.
Lemma keeps_GetServer id : keeps I (GetServer id).
Proof. unfold GetServer, parse_error. walk_client. Qed.
Lemma keeps_DeleteServer id : keeps I (DeleteServer id).
Proof. unfold DeleteServer. walk_client. Qed.
Lemma keeps_GetVolume id : keeps I (GetVolume id).
Proof. unfold GetVolume, parse_error. walk_client. Qed.

Lemma keeps_list_pages fuel page acc : keeps I (list_pages fuel page acc).
Proof.
  revert page acc. induction fuel as [|fuel IH]; intros page acc; cbn [list_pages].
  { apply keeps_throw. }
  unfold parse_error. walk_client; apply IH.
Qed.

Lemma keeps_wait_volume fuel id want dl : keeps I (wait_volume fuel id want dl).
Proof.
  induction fuel as [|fuel IH]; cbn [wait_volume];
    (apply keeps_bind; [apply keeps_gets|]; intros t; destruct (t <? dl)%Z; [|apply keeps_throw]).
  - apply keeps_throw.
  - apply keeps_bind; [apply keeps_GetVolume|]. intros srv.
    destruct (String.eqb srv want); [apply keeps_ret|].
    apply keeps_bind; [apply keeps_modify; auto|]. intros _. apply IH.
Qed.

Lemma keeps_WaitForVolume v want : keeps I (WaitForVolume v want).
Proof. apply keeps_bind; [apply keeps_gets|]. intros t. apply keeps_wait_volume. Qed.
Lemma keeps_AttachVolume v srv : keeps I (AttachVolume v srv).
Proof.
  unfold AttachVolume. destruct (Atoi srv); [|apply keeps_throw].
  apply keeps_bind; [apply keeps_errorf, Hreq|]. intros _. apply keeps_errorf, keeps_WaitForVolume.
Qed.
Lemma keeps_DetachVolume v : keeps I (DetachVolume v).
Proof.
  apply keeps_bind; [apply keeps_errorf, Hreq|]. intros _. apply keeps_errorf, keeps_WaitForVolume.
Qed.
End client.
End facts.

#[export] Hint Resolve keeps_CreateServer keeps_GetServer keeps_DeleteServer keeps_GetVolume
  keeps_list_pages keeps_AttachVolume keeps_DetachVolume : keeps.

(** ** The reconciler on one row *)

Section reconcile.
Context {H : Hcloud} (hostname : string) (getenv : string → string)
  (marshal_spec : WorkerJobSpec → result string string) (fuel : nat).
Context (d0 : gmap string Job) (Hwf : wf d0).

(** The row of [id] has this status and this worker. *)
Definition row_is (id : string) (st : JobStatus) (wk : option string) (w : World) : Prop :=
  rows d0 w ∧ ∃ j, db w !! id = Some j ∧ j_Status j = st ∧ j_WorkerID j = wk.

Lemma row_doRequest id st wk r : keeps (row_is id st wk) (doRequest r).
Proof.
  intros w [Hr (j & Hj & Hst & Hwk)]. split; [by apply rows_doRequest|].
  exists j. split_and!; [|done..]. unfold doRequest. destruct (hc_do r (cl w)) as [a c].
  destruct a as [|code]; [done|]. by destruct (_ || _)%Z.
Qed.

Lemma row_clock id st wk w t : row_is id st wk w → row_is id st wk (set_clock t w).
Proof. done. Qed.

Lemma rows_clock w t : rows d0 w → rows d0 (set_clock t w).
Proof. done. Qed.

Lemma rows_ID w id j : rows d0 w → db w !! id = Some j → j_ID j = id.
Proof.
  intros Hr Hj. specialize (Hr id). destruct (d0 !! id) as [j0|] eqn:E; [|congruence].
  destruct Hr as (j' & Hj' & Hi & _). rewrite Hj in Hj'. injection Hj' as <-.
  rewrite Hi. by apply Hwf.
Qed.

(** A statement that keeps status and worker of its row. *)
Lemma row_update_same id st wk cond upd :
  (∀ t j, j_ID (upd t j) = j_ID j ∧ j_Payload (upd t j) = j_Payload j ∧
    j_CreatedAt (upd t j) = j_CreatedAt j ∧ j_Status (upd t j) = j_Status j ∧
    j_StartedAt (upd t j) = j_StartedAt j ∧ j_WorkerID (upd t j) = j_WorkerID j) →
  keeps (row_is id st wk) (update_where id cond upd).
Proof.
  intros Hu w [Hr (j & Hj & Hst & Hwk)]. split.
  - apply rows_update_where; [|done]. intros w' j' _ _ _.
    destruct (Hu (clock w') j') as (?&?&?&?&?&?). by apply safe_same.
  - destruct (Hu (clock w) j) as (?&?&?&?&?&?).
    unfold update_where, sql. destruct (next_outcome (dbscript w)) as [o l]. rewrite Hj.
    destruct (cond (clock w) j), o; cbn; rewrite ?lookup_insert_eq; eauto;
      eexists; split_and!; eauto; congruence.
Qed.

(** A statement that may change both, when the change is safe from here. *)
Lemma row_update_rows id st wk cond upd :
  (∀ w j, row_is id st wk w → db w !! id = Some j → safe_update (calls w) j (upd (clock w) j)) →
  ∀ w, row_is id st wk w → rows d0 (update_where id cond upd w).2.
Proof.
  intros Hu w Hw. pose proof Hw as [Hr (j & Hj & _)].
  unfold update_where, sql. destruct (next_outcome (dbscript w)) as [o l]. rewrite Hj.
  destruct (cond (clock w) j), o; cbn; try done; eapply rows_update; eauto.
Qed.

Lemma row_get id w : rows d0 w →
  rows d0 (Get id w).2 ∧
  ∀ job, (Get id w).1 = Ok (Some job) →
    j_ID job = id ∧ row_is id (j_Status job) (j_WorkerID job) (Get id w).2.
Proof.
  intros Hr. split; [by apply rows_Get|]. unfold Get, sql.
  destruct (next_outcome (dbscript w)) as [o l]. destruct o; cbn; try done.
  intros job [= Hj]. split; [by eapply rows_ID|]. split; [done|]. eauto.
Qed.

Lemma DeleteServer_confirmed wid w :
  match DeleteServer wid w with
  | (Ok _, w') => confirmed wid (calls w')
  | (Err e, w') => isGone e = true → confirmed wid (calls w')
  end.
Proof.
  unfold DeleteServer. rewrite bind_run. unfold errorf, doRequest.
  destruct (hc_do (ReqDelete wid) (cl w)) as [a c].
  assert (Hin : ∀ l, (ReqDelete wid, a) ∈ (l ++ [(ReqDelete wid, a)])%list)
    by (intros; apply elem_of_app; right; by apply list_elem_of_singleton).
  destruct a as [msg|code text v]; cbn.
  - intros Hg. exists (NoResponse msg). split; [done|]. by cbn.
  - destruct (_ || _)%Z eqn:Hc; cbn.
    + intros Hg. exists (Answer code text v). split; [done|]. cbn. by rewrite Hc.
    + exists (Answer code text v). split; [done|]. cbn. by rewrite Hc.
Qed.

Lemma rows_Clear id st wid w :
  row_is id st (Some wid) w → confirmed wid (calls w) → rows d0 (ClearWorkerID id w).2.
Proof.
  intros Hw Hc. unfold ClearWorkerID, update_where, sql.
  destruct (next_outcome (dbscript w)) as [o l]. destruct Hw as [Hr (j & Hj & Hst & Hwk)].
  rewrite Hj. destruct o; cbn; try done; (eapply rows_update; [done..|]);
    (split_and!; try done; cbn; right; right; eauto).
Qed.

(** The first half of [cleanup], on the row it read. *)
Lemma rows_delete_worker id st wk w :
  row_is id st wk w →
  rows d0 (delete_worker id wk w).2.
Proof.
  intros Hrow. unfold delete_worker. destruct wk as [wid|]; [|apply Hrow]. cbn [nonempty].
  destruct (String.eqb wid ""); [apply Hrow|]. rewrite bind_run. unfold attempt at 1.
  pose proof (DeleteServer_confirmed wid w) as Hc.
  pose proof (keeps_DeleteServer (row_is id st (Some wid)) (row_doRequest id st (Some wid)) wid w Hrow) as Hd.
  assert (Hclr : ∀ w', row_is id st (Some wid) w' → confirmed wid (calls w') →
    rows d0 ((attempt (ClearWorkerID id) ≫= λ _, mret ()) w').2).
  { intros w' Hw' Hcf. rewrite bind_run. unfold attempt.
    pose proof (rows_Clear id st wid w' Hw' Hcf) as Hr. by destruct (ClearWorkerID id w'). }
  destruct (DeleteServer wid w) as [[[]|e] w1]; cbn [snd] in Hd; [by apply Hclr|].
  destruct (isGone e); [by apply Hclr; auto|]. apply Hd.
Qed.

Lemma rows_cleanup id : keeps (rows d0) (cleanup getenv id).
Proof.
  intros w Hr. unfold cleanup. rewrite bind_run.
  destruct (row_get id w Hr) as [Hr1 Hj]. destruct (Get id w) as [[[job|]|e] w1]; cbn in *; [|done..].
  destruct (Hj job eq_refl) as [Hid Hrow]. rewrite Hid, bind_run.
  pose proof (rows_delete_worker id _ _ w1 Hrow) as H2.
  destruct (delete_worker _ _ w1) as [[[]|e] w2]; cbn [snd] in H2; [|done].
  revert H2. generalize w2. change (keeps (rows d0) (detach_volume getenv (j_VolumeID job))).
  unfold detach_volume.
  destruct (nonempty (j_VolumeID job)); [|apply keeps_ret].
  destruct (String.eqb _ _); [apply keeps_ret|].
  apply keeps_bind; [|intros; apply keeps_ret].
  apply keeps_attempt, keeps_DetachVolume; auto using rows_doRequest.
Qed.

Lemma rows_fail job st wk reason w :
  row_is (j_ID job) st wk w → edge st StatusFailed → rows d0 (fail getenv job reason w).2.
Proof.
  intros Hrow He. unfold fail. rewrite bind_run.
  assert (Hm : rows d0 (MarkTerminal (j_ID job) StatusFailed reason w).2).
  { eapply row_update_rows; [|done]. intros w' j [_ (j1 & Hj1 & Hst & _)] Hj.
    assert (j1 = j) as -> by congruence. split_and!; try done; cbn; [|by left].
    rewrite Hst. by apply rtc_once. }
  destruct (MarkTerminal _ _ _ w) as [[r|e] w1]; [|done]. by apply rows_cleanup.
Qed.

Lemma rows_record job st wk p w :
  row_is (j_ID job) st wk w → nonempty wk = None → pt_Status p = None →
  rows d0 (UpdateDetails (j_ID job) p w).2.
Proof.
  intros Hrow Hwk Hp. assert (Hu : rows d0 (update_where (j_ID job) (λ _ _, true)
    (λ _ j, mkJob (j_ID j) (default (j_Status j) (pt_Status p)) (j_Payload j)
          (orElse (pt_WorkerID p) (j_WorkerID j)) (orElse (pt_WorkerIP p) (j_WorkerIP j))
          (orElse (pt_VolumeID p) (j_VolumeID j)) (orElse (pt_Error p) (j_Error j))
          (j_StartedAt j) (j_Completed j) (j_ClaimedBy j) (j_LeaseUntil j) (j_Attempts j)
          (j_CreatedAt j)) w).2).
  { eapply row_update_rows; [|done]. intros w' j [_ (j1 & Hj1 & Hst & Hw1)] Hj.
    assert (j1 = j) as -> by congruence. rewrite Hp. split_and!; try done; cbn.
    right. left. by rewrite Hw1. }
  destruct p as [[] [] [] [] []]; try exact Hu. by apply rows_Get, Hrow.
Qed.

Lemma rows_provision job w :
  row_is (j_ID job) StatusProvisioning (j_WorkerID job) w →
  rows d0 (provision getenv marshal_spec job w).2.
Proof.
  intros Hrow. unfold provision. case_decide as Hn; [apply Hrow|].
  destruct (GenerateCloudInit _ _ _ _) as [ci|e].
  2: { eapply rows_fail; [done|constructor]. }
  rewrite bind_run. unfold attempt at 1.
  pose proof (keeps_CreateServer (row_is (j_ID job) StatusProvisioning (j_WorkerID job))
    (row_doRequest _ _ _) (j_ID job) ci (default "" (p_ServerType (j_Payload job))) w Hrow) as H1.
  destruct (CreateServer _ _ _ w) as [[srv|e] w1]; cbn [snd] in H1.
  2: { destruct (unrecoverableHcloudError e); [|apply H1].
       eapply rows_fail; [done|constructor]. }
  rewrite bind_run. set (p := mkPatch _ _ _ _ _).
  pose proof (rows_record job _ _ p w1 H1 Hn eq_refl) as H2.
  destruct (UpdateDetails _ _ w1) as [[r|e] w2]; cbn [snd] in H2; [|done].
  destruct (String.eqb _ _); [done|]. revert H2. generalize w2.
  apply (keeps_bind (rows d0)); [|intros; apply keeps_ret].
  apply keeps_attempt, keeps_AttachVolume; auto using rows_doRequest.
Qed.

Lemma rows_claimAndProvision job id :
  j_ID job = id → keeps (rows d0) (claimAndProvision hostname getenv marshal_spec job).
Proof.
  intros Hid w Hr. unfold claimAndProvision. rewrite Hid, bind_run.
  pose proof (rows_ClaimPending d0 id hostname leaseSeconds w Hr) as H1.
  destruct (ClaimPending id hostname leaseSeconds w) as [[[j|]|e] w1] eqn:E; cbn [snd] in H1; try done.
  apply rows_provision. unfold ClaimPending, update_where, sql in E.
  destruct (next_outcome (dbscript w)) as [o l]. destruct (db w !! id) as [j0|] eqn:Hj0; [|by destruct o].
  destruct (_ && _); [|by destruct o]. destruct o; [|done..]. injection E as <- <-.
  split; [done|]. cbn. rewrite (rows_ID w id j0 Hr Hj0), lookup_insert_eq. eauto.
Qed.

Lemma row_renew job st wk :
  keeps (row_is (j_ID job) st wk) (renew_if_ours hostname job).
Proof.
  unfold renew_if_ours. destruct (bool_decide _); [|apply keeps_ret].
  apply keeps_bind; [|intros; apply keeps_ret]. by apply row_update_same.
Qed.

Lemma rows_reconcileProvisioning job w :
  row_is (j_ID job) StatusProvisioning (j_WorkerID job) w →
  rows d0 (reconcileProvisioning hostname getenv marshal_spec job w).2.
Proof.
  intros Hrow. unfold reconcileProvisioning. rewrite bind_run.
  pose proof (row_renew job _ _ w Hrow) as H1.
  destruct (renew_if_ours hostname job w) as [[[]|e] w1]; cbn [snd] in H1; [|apply H1].
  destruct (j_WorkerID job) as [wid|] eqn:Hwk; [|by apply rows_provision; rewrite Hwk].
  rewrite bind_run. cbn [gets]. destruct (provisioningTimedOut _ _).
  { eapply rows_fail; [done|constructor]. }
  rewrite bind_run.
  pose proof (keeps_GetServer _ (row_doRequest (j_ID job) StatusProvisioning (Some wid)) wid w1 H1) as H2.
  destruct (GetServer wid w1) as [[srv|e] w2]; cbn [snd] in H2; [|apply H2].
  destruct (_ || _). { eapply rows_fail; [done|constructor]. }
  destruct (String.eqb _ _); [|apply H2]. rewrite bind_run.
  assert (H3 : rows d0 (UpdateDetails (j_ID job) (mkPatch (Some StatusRunning) None None None None) w2).2).
  { eapply row_update_rows; [|exact H2]. intros w' j [_ (j1 & Hj1 & Hst & _)] Hj.
    assert (j1 = j) as -> by congruence. split_and!; try done; cbn; [|by left].
    rewrite Hst. apply rtc_once. constructor. }
  by destruct (UpdateDetails _ _ w2) as [[] ?].
Qed.

Lemma rows_reconcileRunning job wk w :
  row_is (j_ID job) StatusRunning wk w →
  rows d0 (reconcileRunning hostname getenv job w).2.
Proof.
  intros Hrow. unfold reconcileRunning. rewrite bind_run.
  pose proof (row_renew job _ _ w Hrow) as H1.
  destruct (renew_if_ours hostname job w) as [[[]|e] w1]; cbn [snd] in H1; [|apply H1].
  rewrite bind_run. cbn [gets]. destruct (timedOut _ _).
  { eapply rows_fail; [done|constructor]. }
  destruct (nonempty (j_WorkerID job)) as [wid|]; [|apply H1].
  rewrite bind_run. unfold attempt at 1.
  pose proof (keeps_GetServer _ (row_doRequest (j_ID job) StatusRunning wk) wid w1 H1) as H2.
  destruct (GetServer wid w1) as [[srv|e] w2]; cbn [snd] in H2.
  - destruct (existsb _ _); [|apply H2]. eapply rows_fail; [done|constructor].
  - destruct (isGone e); [|apply H2]. eapply rows_fail; [done|constructor].
Qed.

Lemma rows_reconcileJob id :
  keeps (rows d0) (reconcileJob hostname getenv marshal_spec id).
Proof.
  intros w Hr. unfold reconcileJob. rewrite bind_run.
  destruct (row_get id w Hr) as [Hr1 Hj]. destruct (Get id w) as [[[job|]|e] w1]; cbn in *; [|done..].
  destruct (Hj job eq_refl) as [Hid Hrow]. rewrite <-Hid in Hrow.
  destruct (j_Status job).
  - by eapply rows_claimAndProvision.
  - by apply rows_reconcileProvisioning.
  - by eapply rows_reconcileRunning.
  - by apply rows_cleanup.
  - by apply rows_cleanup.
Qed.

Lemma rows_each sts f : (∀ id, keeps (rows d0) (f id)) → keeps (rows d0) (each sts f).
Proof.
  intros Hf. unfold each. apply keeps_bind; [apply keeps_attempt, (rows_read d0 (by_status sts false))|].
  intros [jobs|e]; [|apply keeps_ret]. apply keeps_forM. intros j _.
  apply keeps_bind; [apply keeps_attempt, Hf|intros; apply keeps_ret].
Qed.

Lemma rows_orphanSweep : keeps (rows d0) (orphanSweep fuel).
Proof.
  unfold orphanSweep, ListServers. apply keeps_bind; [apply (rows_read d0 (λ _, worker_ids))|].
  intros managed. apply keeps_bind; [apply keeps_list_pages; auto using rows_doRequest|].
  intros servers. apply keeps_forM. intros srv _. destruct (String.eqb _ _); [apply keeps_ret|].
  case_decide; [apply keeps_ret|]. apply keeps_bind; [|intros; apply keeps_ret].
  apply keeps_attempt, keeps_DeleteServer; auto using rows_doRequest.
Qed.

Lemma rows_reconcileAll : keeps (rows d0) (reconcileAll hostname getenv marshal_spec fuel).
Proof.
  unfold reconcileAll. repeat (apply keeps_bind; [|intros _]);
    try (apply rows_each; intros; auto using rows_reconcileJob, rows_cleanup).
  - apply keeps_attempt, rows_orphanSweep.
  - apply keeps_ret.
Qed.

Lemma rows_Trigger id : keeps (rows d0) (Trigger hostname getenv marshal_spec id).
Proof.
  apply keeps_bind; [apply keeps_attempt, rows_reconcileJob|intros; apply keeps_ret].
Qed.

Lemma rows_handle_provision o : keeps (rows d0) (handle_provision hostname getenv marshal_spec o).
Proof.
  unfold handle_provision. destruct o as [id|]; [|apply keeps_ret].
  destruct (String.eqb _ _); [apply keeps_ret|].
  apply keeps_bind; [apply keeps_attempt, rows_Get|]. intros [[job|]|e]; try apply keeps_ret.
  destruct (j_Status job); try apply keeps_ret.
  - apply keeps_bind; [apply keeps_attempt, rows_ClaimPending|].
    intros [[j|]|e]; try apply keeps_ret.
    apply keeps_bind; [apply rows_Trigger|intros; apply keeps_ret].
  - apply keeps_bind; [apply rows_Trigger|intros; apply keeps_ret].
  - apply keeps_bind; [apply rows_Trigger|intros; apply keeps_ret].
Qed.
End reconcile.

(** What drives the provisioner: its ticker, and the requests it serves. *)
Inductive event := EvTick | EvProvision (jobID : option string).

Definition drive {H : Hcloud} (hostname : string) (getenv : string → string)
    (marshal_spec : WorkerJobSpec → result string string) (fuel : nat) (ev : event)
    : goM World string unit :=
  match ev with
  | EvTick => reconcileAll hostname getenv marshal_spec fuel
  | EvProvision o => handle_provision hostname getenv marshal_spec o ≫= λ _, mret ()
  end.


(** ** Claims *)

Section claims.
Context {H : Hcloud} (id : string).

(** The statements any number of provisioners issue on one job, and the passing
    of time between them. *)
Inductive stmt :=
| SClaim (host : string)
| SReclaim (host : string) (from : list JobStatus)
| SRenew (host : string)
| SDetails (p : Patch)
| STerminal (st : JobStatus) (msg : string)
| SClear
| SWait (t : Z).

(** No code of the provisioner writes PENDING, or a terminal mark that is none. *)
Definition allowed (x : stmt) : bool :=
  match x with
  | SDetails p => bool_decide (pt_Status p ≠ Some StatusPending)
  | STerminal st _ => terminal st
  | _ => true
  end.

Definition exec (x : stmt) : goM World string (option Job) :=
  match x with
  | SClaim h => ClaimPending id h leaseSeconds
  | SReclaim h f => ReclaimExpiredLease id h f leaseSeconds
  | SRenew h => RenewLease id h leaseSeconds
  | SDetails p => UpdateDetails id p
  | STerminal st msg => MarkTerminal id st msg
  | SClear => ClearWorkerID id
  | SWait t => λ w, (Ok None, set_clock t w)
  end.

(** How many of the claims among the statements were granted. *)
Fixpoint granted (l : list stmt) (w : World) : nat :=
  match l with
  | [] => 0
  | x :: l =>
      let '(r, w') := exec x w in
      match x, r with SClaim _, Ok (Some _) => 1 | _, _ => 0 end + granted l w'
  end.

Definition claimed_already (w : World) : Prop :=
  ∀ j, db w !! id = Some j → j_Status j ≠ StatusPending.

Lemma claimed_update cond upd :
  (∀ t j, j_Status j ≠ StatusPending → j_Status (upd t j) ≠ StatusPending) →
  keeps claimed_already (update_where id cond upd).
Proof.
  intros Hu w Hw. unfold update_where, sql. destruct (next_outcome (dbscript w)) as [o l].
  destruct (db w !! id) as [j|] eqn:Hj; [destruct (cond (clock w) j)|]; destruct o; cbn; try done;
    (intros j'; cbn; rewrite lookup_insert_eq; intros [= <-]; by apply Hu, Hw).
Qed.

Lemma claimed_exec x : allowed x = true → keeps claimed_already (exec x).
Proof.
  intros Ha. destruct x as [h|h f|h|p|st msg| |t]; cbn [exec].
  - by apply claimed_update.
  - by apply claimed_update.
  - by apply claimed_update.
  - cbn in Ha. apply bool_decide_eq_true in Ha.
    assert (Hu : keeps claimed_already (update_where id (λ _ _, true)
      (λ _ j, mkJob (j_ID j) (default (j_Status j) (pt_Status p)) (j_Payload j)
          (orElse (pt_WorkerID p) (j_WorkerID j)) (orElse (pt_WorkerIP p) (j_WorkerIP j))
          (orElse (pt_VolumeID p) (j_VolumeID j)) (orElse (pt_Error p) (j_Error j))
          (j_StartedAt j) (j_Completed j) (j_ClaimedBy j) (j_LeaseUntil j) (j_Attempts j)
          (j_CreatedAt j)))).
    { apply claimed_update. intros t j Hj. cbn. destruct (pt_Status p); cbn; [congruence|done]. }
    destruct p as [[] [] [] [] []]; try exact Hu. intros w Hw. unfold UpdateDetails, Get, sql.
    destruct (next_outcome (dbscript w)) as [o l]. by destruct o.
  - apply claimed_update. intros t j _. cbn in *. by intros ->.
  - by apply claimed_update.
  - by intros w Hw.
Qed.

Lemma claim_refused w h :
  claimed_already w → ∀ j, (ClaimPending id h leaseSeconds w).1 ≠ Ok (Some j).
Proof.
  intros Hw j. unfold ClaimPending, update_where, sql.
  destruct (next_outcome (dbscript w)) as [o l]. destruct (db w !! id) as [j0|] eqn:Hj; [|by destruct o].
  rewrite bool_decide_eq_false_2 by (by apply Hw). by destruct o.
Qed.

Lemma claim_granted w h j w' :
  ClaimPending id h leaseSeconds w = (Ok (Some j), w') → claimed_already w'.
Proof.
  unfold ClaimPending, update_where, sql. destruct (next_outcome (dbscript w)) as [o l].
  destruct (db w !! id) as [j0|]; [|by destruct o]. destruct (_ && _); [|by destruct o].
  destruct o; [|done..]. intros [= <- <-] j'. cbn. rewrite lookup_insert_eq. by intros [= <-].
Qed.

Lemma granted_none l w : forallb allowed l = true → claimed_already w → granted l w = 0.
Proof.
  revert w. induction l as [|x l IH]; intros w Ha Hw; cbn; [done|].
  cbn in Ha. apply andb_true_iff in Ha as [Hx Hl]. pose proof (claimed_exec x Hx w Hw) as Hw'.
  assert (Hno : ∀ h, x = SClaim h → ∀ j, (exec x w).1 ≠ Ok (Some j))
    by (intros h ->; by apply claim_refused).
  destruct (exec x w) as [r w']. cbn in *. rewrite (IH w') by done.
  destruct x as [h| | | | | |]; try done. destruct r as [[j|]|]; [|done..].
  by destruct (Hno h eq_refl j).
Qed.
End claims.

(** of all the claims that any number of provisioners make on a job, in any
    interleaving with their other statements and the passing of time, and whichever
    statements fail before or after committing, at most one is granted: a job is
    started by one provisioner only. *)
Theorem claim_granted_once {H : Hcloud} (id : string) (l : list stmt) (w : World) :
  forallb allowed l = true → (granted id l w ≤ 1)%nat.
Proof.
  revert w. induction l as [|x l IH]; intros w Ha; cbn; [lia|].
  apply andb_true_iff in Ha as [Hx Hl]. destruct (exec id x w) as [r w'] eqn:E.
  specialize (IH w' Hl). destruct x as [h| | | | | |]; try (cbn; lia).
  destruct r as [[j|]|]; [|cbn; lia..]. apply claim_granted in E.
  rewrite granted_none by done. lia.
Qed.

(** ** The sweep *)

Section sweep.
Context {H : Hcloud}.

(** Every deletion requested beyond [log] is of an id [ok] admits. *)
Definition deletes (log : list (request * http)) (ok : string → Prop) (w : World) : Prop :=
  ∀ x a, (ReqDelete x, a) ∈ calls w → (ReqDelete x, a) ∈ log ∨ ok x.

Lemma deletes_doRequest log ok r :
  (∀ x, r = ReqDelete x → ok x) → keeps (deletes log ok) (doRequest r).
Proof.
  intros Hr w Hw. unfold doRequest. destruct (hc_do r (cl w)) as [a c].
  assert (H1 : deletes log ok (mkWorld (db w) (dbscript w) c
    (clock w + Z.of_N (hc_elapsed r (cl w))) (calls w ++ [(r, a)])%list)).
  { intros x a'. cbn. rewrite elem_of_app, list_elem_of_singleton.
    intros [Hin|[= Hx Ha]]; [by apply Hw|right; by apply Hr]. }
  destruct a as [|code]; [done|]. by destruct (_ || _)%Z.
Qed.

Lemma list_pages_ids log ok fuel page acc w :
  deletes log ok w → deletes log ok (list_pages fuel page acc w).2.
Proof.
  revert page acc w. induction fuel as [|fuel IH]; intros page acc; cbn [list_pages].
  { apply keeps_throw. }
  apply (keeps_bind (deletes log ok)).
  - apply keeps_errorf, deletes_doRequest. by intros x [=].
  - intros [text v]. destruct v; try apply keeps_throw. cbn.
    destruct (_ || _)%Z; [apply keeps_ret|]. intros w. apply IH.
Qed.

Lemma keeps_sweep_deletes managed log servers :
  keeps (deletes log (λ x, x ∉ managed)) (sweep managed servers).
Proof.
  apply keeps_forM. intros srv _. destruct (String.eqb _ _); [apply keeps_ret|].
  case_decide; [apply keeps_ret|]. apply keeps_bind; [|intros; apply keeps_ret].
  unfold DeleteServer. apply keeps_attempt, keeps_bind; [|intros; apply keeps_ret].
  apply keeps_errorf, deletes_doRequest. by intros x [= <-].
Qed.
End sweep.

Lemma elem_of_worker_ids d id j wid :
  d !! id = Some j → j_WorkerID j = Some wid → wid ≠ "" → wid ∈ worker_ids d.
Proof.
  intros Hj Hw Hne. apply elem_of_list_to_set, list_elem_of_filter. split; [done|].
  apply list_elem_of_omap. exists j. split; [|done]. apply list_elem_of_fmap.
  exists (id, j). by rewrite elem_of_map_to_list.
Qed.

(** the orphan sweep requests the deletion of no server that a job row
    referenced when the sweep began, whatever the service lists and answers, and
    changes no row. *)
Theorem orphanSweep_spares_workers {H : Hcloud} (fuel : nat) (w : World)
    (id wid : string) (j : Job) (a : http) :
  db w !! id = Some j → j_WorkerID j = Some wid → wid ≠ "" →
  let w' := (orphanSweep fuel w).2 in
  ((ReqDelete wid, a) ∈ calls w' → (ReqDelete wid, a) ∈ calls w) ∧ db w' = db w.
Proof.
  intros Hj Hw Hne. cbn zeta. split.
  - intros Hin. unfold orphanSweep in Hin. rewrite bind_run in Hin.
    unfold ListWorkerIDs, sql in Hin. destruct (next_outcome (dbscript w)) as [o l].
    destruct o; cbn in Hin; [|done..]. rewrite bind_run in Hin.
    set (w1 := set_db (db w) (set_dbscript l w)) in *. set (managed := worker_ids (db w)) in *.
    assert (H1 : deletes (calls w) (λ x, x ∉ managed) w1) by (intros x a' Hx; by left).
    assert (H2 := list_pages_ids (calls w) (λ x, x ∉ managed) fuel 1 [] w1 H1).
    unfold ListServers in Hin. destruct (list_pages fuel 1 [] w1) as [[srvs|e] w2]; cbn in H2.
    + apply (keeps_sweep_deletes managed (calls w) srvs) in H2.
      destruct (H2 wid a Hin) as [|Hno]; [done|]. destruct Hno. by eapply elem_of_worker_ids.
    + destruct (H2 wid a Hin) as [|Hno]; [done|]. destruct Hno. by eapply elem_of_worker_ids.
  - assert (Hreq : ∀ r, keeps (λ w', db w' = db w) (doRequest r)).
    { intros r w1 H1. unfold doRequest. destruct (hc_do r (cl w1)) as [[|code] c]; [done|].
      by destruct (_ || _)%Z. }
    apply (keeps_bind (λ w', db w' = db w)); [| |done].
    { intros w1 H1. unfold ListWorkerIDs, sql. destruct (next_outcome (dbscript w1)) as [o l].
      by destruct o. }
    intros managed. apply (keeps_bind (λ w', db w' = db w));
      [by apply (keeps_list_pages (λ w', db w' = db w))|].
    intros srvs. apply keeps_forM. intros srv _. destruct (String.eqb _ _); [apply keeps_ret|].
    case_decide; [apply keeps_ret|]. apply keeps_bind; [|intros; apply keeps_ret].
    by apply keeps_attempt, (keeps_DeleteServer (λ w', db w' = db w)).
Qed.

(** ** Waiting for a volume *)

Section wait.
Context {H : Hcloud}.

Lemma GetVolume_spec id w :
  let '(r, w') := GetVolume id w in
  r ≠ Err "out of fuel" ∧ (clock w ≤ clock w')%Z ∧ db w' = db w ∧
  length (calls w') = S (length (calls w)).
Proof.
  unfold GetVolume. rewrite bind_run. unfold errorf, doRequest.
  destruct (hc_do (ReqVolume id) (cl w)) as [[msg|code text v] c]; cbn.
  { rewrite length_app. cbn. split_and!; [done|lia|done|lia]. }
  destruct (_ || _)%Z; cbn; [|destruct v as [| |[]|]]; cbn; rewrite length_app; cbn;
    (split_and!; [done|lia|done|lia]).
Qed.

Lemma wait_volume_spec fuel id want dl w :
  (dl - clock w ≤ Z.of_nat fuel * second)%Z →
  let '(r, w') := wait_volume fuel id want dl w in
  r ≠ Err "out of fuel" ∧ db w' = db w ∧ (length (calls w') ≤ length (calls w) + fuel)%nat.
Proof.
  revert w. induction fuel as [|fuel IH]; intros w Hf; cbn [wait_volume]; rewrite bind_run; cbn [gets];
    destruct (Z.ltb_spec (clock w) dl) as [Hlt|Hge]; try (cbn; split_and!; [done|done|lia]).
  { unfold second in Hf. lia. }
  rewrite bind_run. pose proof (GetVolume_spec id w) as Hg.
  destruct (GetVolume id w) as [[srv|e] w1]; destruct Hg as (Hne & Hck & Hdb & Hc).
  2: { split_and!; [naive_solver|done|lia]. }
  destruct (String.eqb srv want); [cbn; split_and!; [done|done|lia]|].
  rewrite bind_run. cbn [modify]. specialize (IH (set_clock (clock w1 + second)%Z w1)).
  cbn [clock set_clock] in IH. specialize (IH ltac:(unfold second in *; lia)).
  destruct (wait_volume _ _ _ _ _) as [r w2]. cbn [db calls set_clock] in IH.
  destruct IH as (? & ? & ?). split_and!; [done|congruence|lia].
Qed.
End wait.

(** Waiting for a volume to attach or detach always ends: within the deadline
    of 30 s at one poll a second it makes at most 30 requests, and it touches no
    row. *)
Theorem WaitForVolume_ends {H : Hcloud} (id want : string) (w : World) :
  let '(r, w') := WaitForVolume id want w in
  r ≠ Err "out of fuel" ∧ db w' = db w ∧ (length (calls w') ≤ length (calls w) + 30)%nat.
Proof.
  unfold WaitForVolume. rewrite bind_run. cbn [gets]. apply (wait_volume_spec wait_fuel).
  unfold waitTimeout, wait_fuel, second. lia.
Qed.

(** A running job with a timeout of [n] seconds is failed for it exactly when
    more than [n] seconds have passed since it was first claimed, for every [n] up
    to 292 years; past that the product of seconds and nanoseconds leaves the 64
    bits of time.Duration, and the job is failed at once. *)
Theorem timedOut_exact (job : Job) (n t0 t : Z) :
  j_StartedAt job = Some t0 → p_TimeoutSeconds (j_Payload job) = Some n →
  (0 < n)%Z → (t0 ≤ t)%Z →
  ((n ≤ 9223372036)%Z → timedOut job t = true ↔ (n * second < t - t0)%Z) ∧
  ((9223372037 ≤ n < 18446744073)%Z → timedOut job t = true).
Proof.
  intros Hs Hn Hpos Ht. unfold timedOut. rewrite Hs, Hn.
  rewrite (proj2 (Z.ltb_lt 0 n) Hpos). cbn [andb]. unfold wrap64, second. split; intros Hle.
  - rewrite Z.mod_small by lia. rewrite Z.ltb_lt. lia.
  - apply Z.ltb_lt.
    replace (n * 1000000000 + 2 ^ 63)%Z with ((n * 1000000000 - 2 ^ 63) + 1 * 2 ^ 64)%Z by lia.
    rewrite Z.mod_add by lia. rewrite Z.mod_small by lia. lia.
Qed.

(** ** A stale read *)

Section stale.
Context {H : Hcloud} (getenv : string → string)
  (marshal_spec : WorkerJobSpec → result string string).

Lemma sql_quiet {A} (f : Z → gmap string Job → A * gmap string Job) w :
  dbscript w = [] → sql f w = (Ok (f (clock w) (db w)).1, set_db (f (clock w) (db w)).2 w).
Proof. intros Hs. unfold sql. rewrite Hs. destruct w; cbn in *. subst. by destruct (f _ _). Qed.

Lemma create_conflict name ci ty w text v c :
  hc_do (ReqCreate name ci (if String.eqb ty "" then "cpx22" else ty)) (cl w) = (Answer 409 text v, c) →
  ∃ e w', CreateServer name ci ty w = (Err e, w') ∧ unrecoverableHcloudError e = true ∧
    db w' = db w ∧ dbscript w' = dbscript w.
Proof.
  intros Ha. unfold CreateServer. rewrite bind_run. unfold errorf, doRequest. rewrite Ha. cbn.
  eexists _, _. split; [reflexivity|]. split; [|done]. unfold unrecoverableHcloudError.
  change (pretty 409%Z) with "409".
  set (e := _ +:+ _). assert (Hc : Contains e "API error 409" = true).
  { exact (Contains_app "failed to create server: " "API error 409" (": " +:+ text)). }
  cbn [existsb]. rewrite Hc. by rewrite !orb_true_r.
Qed.

Lemma doRequest_logged x r : keeps (λ w, x ∈ calls w) (doRequest r).
Proof.
  intros w Hw. unfold doRequest. destruct (hc_do r (cl w)) as [a c].
  destruct a as [|code]; [|destruct (_ || _)%Z]; cbn; apply elem_of_app; by left.
Qed.

Lemma DeleteServer_logged wid w : ∃ a, (ReqDelete wid, a) ∈ calls (DeleteServer wid w).2.
Proof.
  unfold DeleteServer. rewrite bind_run. unfold errorf, doRequest.
  destruct (hc_do (ReqDelete wid) (cl w)) as [a c]. exists a.
  destruct a as [|code]; [|destruct (_ || _)%Z]; cbn; apply elem_of_app; right;
    by apply list_elem_of_singleton.
Qed.

(** Any property of the row's status that requests and the clearing of a worker
    keep is kept by what [cleanup] does after reading the row. *)
Lemma keeps_cleanup_rest (I : World → Prop) id wk vol :
  (∀ r, keeps I (doRequest r)) → (∀ w t, I w → I (set_clock t w)) → keeps I (ClearWorkerID id) →
  keeps I (delete_worker id wk ≫= λ _, detach_volume getenv vol).
Proof.
  intros Hreq Hclk Hcl. unfold delete_worker, detach_volume.
  assert (Hcl' : keeps I (attempt (ClearWorkerID id) ≫= λ _, mret ()))
    by (apply keeps_bind; [by apply keeps_attempt|intros; apply keeps_ret]).
  apply keeps_bind.
  - destruct (nonempty wk); [|apply keeps_ret].
    apply keeps_bind; [by apply keeps_attempt, keeps_DeleteServer|].
    intros [[]|e]; [apply Hcl'|]. destruct (isGone e); [apply Hcl'|apply keeps_ret].
  - intros _. destruct (nonempty vol); [|apply keeps_ret].
    destruct (String.eqb _ _); [apply keeps_ret|].
    apply keeps_bind; [by apply keeps_attempt, keeps_DetachVolume|intros; apply keeps_ret].
Qed.

Lemma cleanup_logged wid id vol w :
  wid ≠ "" →
  ∃ a, (ReqDelete wid, a) ∈ calls ((delete_worker id (Some wid) ≫= λ _, detach_volume getenv vol) w).2.
Proof.
  intros Hne. destruct (DeleteServer_logged wid w) as [a Ha]. exists a.
  rewrite bind_run. unfold delete_worker. cbn [nonempty].
  destruct (String.eqb_spec wid ""); [done|]. rewrite bind_run. unfold attempt at 1.
  set (I := λ w', (ReqDelete wid, a) ∈ calls w').
  assert (Hcl : keeps I (attempt (ClearWorkerID id) ≫= λ _, mret ())).
  { apply keeps_bind; [apply keeps_attempt|intros; apply keeps_ret].
    intros w4 H4. unfold ClearWorkerID, update_where, sql.
    destruct (next_outcome (dbscript w4)) as [o l]. destruct (db w4 !! _), o; done. }
  destruct (DeleteServer wid w) as [r w4]. cbn [snd] in Ha.
  assert (Hk : keeps I (match r with
    | Ok _ => attempt (ClearWorkerID id) ≫= λ _, mret ()
    | Err e => if isGone e then attempt (ClearWorkerID id) ≫= λ _, mret () else mret ()
    end ≫= λ _, detach_volume getenv vol)).
  { apply keeps_bind.
    - destruct r as [[]|e']; [apply Hcl|]. destruct (isGone e'); [apply Hcl|apply keeps_ret].
    - intros _. unfold detach_volume. destruct (nonempty _); [|apply keeps_ret].
      destruct (String.eqb _ _); [apply keeps_ret|].
      apply keeps_bind; [|intros; apply keeps_ret].
      apply keeps_attempt, keeps_DetachVolume; [apply doRequest_logged|done]. }
  specialize (Hk w4 Ha). rewrite bind_run in Hk. exact Hk.
Qed.
End stale.

(** [provision] acts on the row as it was read, and the HTTP ingress and the
    ticker both run it on PROVISIONING jobs without holding the lease. When one
    has created the VM and recorded it, the other, still holding the row it read
    before, asks for a second server of the same name; the service refuses the
    name with 409, which the code takes for permanent: the job is marked FAILED
    and the deletion of the healthy VM the first run recorded is requested. *)
Theorem stale_provision_fails_job {H : Hcloud} (getenv : string → string)
    (marshal_spec : WorkerJobSpec → result string string) (job j1 : Job) (w : World)
    (wid ci text : string) (v : reply) (c : cloud) :
  db w !! j_ID job = Some j1 → j_ID j1 = j_ID job → j_WorkerID j1 = Some wid → wid ≠ "" →
  dbscript w = [] → nonempty (j_WorkerID job) = None →
  GenerateCloudInit getenv marshal_spec (j_Payload job) (j_ID job) = Ok ci →
  (let ty := default "" (p_ServerType (j_Payload job)) in
   hc_do (ReqCreate (j_ID job) ci (if String.eqb ty "" then "cpx22" else ty)) (cl w)
     = (Answer 409 text v, c)) →
  let w' := (provision getenv marshal_spec job w).2 in
  (∃ j', db w' !! j_ID job = Some j' ∧ j_Status j' = StatusFailed) ∧
  ∃ a, (ReqDelete wid, a) ∈ calls w'.
Proof.
  intros Hj Hid Hw Hne Hs Hnone Hci H409. cbn zeta.
  assert (Hrun : ∃ j2 w3, db w3 !! j_ID job = Some j2 ∧ j_Status j2 = StatusFailed ∧
    provision getenv marshal_spec job w =
      (delete_worker (j_ID job) (Some wid) ≫= λ _, detach_volume getenv (j_VolumeID j2)) w3).
  { unfold provision. case_decide as Hx; [by destruct Hx|]. rewrite Hci, bind_run.
    unfold attempt at 1.
    destruct (create_conflict _ _ _ w text v c H409) as (e & w1 & -> & -> & Hdb & Hsc).
    unfold fail. rewrite bind_run. unfold MarkTerminal, update_where.
    rewrite sql_quiet by congruence. rewrite Hdb, Hj. cbn [fst snd].
    set (j2 := mkJob _ _ _ _ _ _ _ _ _ _ _ _ _). set (w2 := set_db _ w1).
    assert (Hj2 : db w2 !! j_ID job = Some j2) by apply lookup_insert_eq.
    unfold cleanup. rewrite bind_run. unfold Get. rewrite sql_quiet by (cbn; congruence).
    cbn [fst snd]. rewrite Hj2. exists j2, (set_db (db w2) w2). split_and!; [done..|].
    change (j_WorkerID j2) with (j_WorkerID j1). change (j_ID j2) with (j_ID j1).
    by rewrite Hw, Hid. }
  destruct Hrun as (j2 & w3 & Hj2 & Hst2 & ->). split; [|by apply cleanup_logged].
  apply (keeps_cleanup_rest getenv (λ w', ∃ j', db w' !! j_ID job = Some j' ∧ j_Status j' = StatusFailed));
    [| |intros w4 (j4 & Hj4 & Hst)|by exists j2].
  - intros r w4 H4. unfold doRequest. destruct (hc_do r (cl w4)) as [[|code] c']; [done|].
    by destruct (_ || _)%Z.
  - done.
  - unfold ClearWorkerID, update_where, sql.
    destruct (next_outcome (dbscript w4)) as [o l]. rewrite Hj4.
    destruct o; cbn; rewrite ?lookup_insert_eq; eauto.
Qed.
