(* ===== verification/VmWitness.v ===== *)
(** * VmWitness: the provisioner's theorems at concrete inputs.

    A service that keeps named servers, refuses a name in use with 409 and answers
    404 for what it does not have. *)

From S2P Require Import Prelude.
From S2P Require Import WorkspaceStore.
From S2P Require Import CloudInit.
From S2P Require Import CloudInitFacts.
From S2P Require Import VmProvisioner.
From S2P Require Import VmProvisionerFacts.

Local Open Scope string_scope.

Definition demo_do (r : request) (c : list (Z * string)) : http * list (Z * string) :=
  match r with
  | ReqCreate name _ _ =>
      if existsb (λ x, String.eqb (snd x) name) c then (Answer 409 "uniqueness_error" ROther, c)
      else let id := (Z.of_nat (length c) + 1)%Z in
           (Answer 201 "" (RServer id name "10.0.0.1" "initializing"), ((id, name) :: c)%list)
  | ReqGet id =>
      match filter (λ x, pretty (fst x) = id) c with
      | (n, name) :: _ => (Answer 200 "" (RServer n name "10.0.0.1" "running"), c)
      | [] => (Answer 404 "not found" ROther, c)
      end
  | ReqList _ =>
      (Answer 200 "" (RServers ((λ x, (fst x, snd x, "10.0.0.1", "running")) <$> c) 1 1), c)
  | ReqDelete id =>
      if existsb (λ x, String.eqb (pretty (fst x)) id) c
      then (Answer 200 "" ROther, filter (λ x, pretty (fst x) ≠ id) c)
      else (Answer 404 "not found" ROther, c)
  | ReqVolume _ => (Answer 200 "" (RVolume None), c)
  | _ => (Answer 200 "" ROther, c)
  end.

#[export] Instance demo_cloud : Hcloud := {|
  cloud := list (Z * string);
  hc_do := demo_do;
  hc_elapsed _ _ := 1%N |}.

Definition env_image : string → string := λ x,
  if String.eqb x "EPHEMERAL_WORKER_IMAGE" then "ghcr.io/org/worker:v1" else "".
Definition spec_json : WorkerJobSpec → result string string := λ sp, Ok (ws_JobID sp).
Definition payload0 : JobPayload :=
  mkPayload None [] [] [] None None None None None None (Some 60%Z) None.
Definition job0 : Job :=
  mkJob "job-1" StatusPending payload0 None None None None None None None None 0 1.
Definition world0 : World := mkWorld {["job-1" := job0]} [] ([] : cloud) 1000 [].

Abbreviation pass := (drive "host" env_image spec_json 5 EvTick).

Definition world1 : World := (pass world0).2.

Example pass_starts_job :
  (j_Status <$> db world1 !! "job-1") = Some StatusRunning ∧ length (cl world1) = 1%nat.
Proof. vm_compute. split; reflexivity. Qed.


Lemma claim_granted_once_witness :
  (granted "job-1" [SClaim "a"; SWait 5000000000000; SClaim "b"; STerminal StatusFailed "x"; SClaim "c"] world0 ≤ 1)%nat.
Proof.
  apply (claim_granted_once "job-1"
    [SClaim "a"; SWait 5000000000000; SClaim "b"; STerminal StatusFailed "x"; SClaim "c"] world0).
  vm_compute. reflexivity.
Defined.

Definition job1 : Job :=
  mkJob "job-1" StatusRunning payload0 (Some "1") (Some "10.0.0.1") None None (Some 1000%Z) None
    (Some "host") None 1 1.
Definition world2 : World :=
  mkWorld {["job-1" := job1]} [] ([(1%Z, "job-1"); (2%Z, "old")] : cloud) 2000 [].

Example sweep_deletes_orphan : (snd <$> cl (orphanSweep 5 world2).2 : list string) = ["job-1"].
Proof. vm_compute. reflexivity. Qed.

Lemma orphanSweep_spares_workers_witness :
  db (orphanSweep 5 world2).2 = db world2.
Proof.
  destruct (orphanSweep_spares_workers 5 world2 "job-1" "1" job1 (NoResponse "")) as [_ H].
  - reflexivity.
  - reflexivity.
  - discriminate.
  - exact H.
Defined.

Lemma timedOut_exact_witness : timedOut job1 (1000 + 61 * second) = true.
Proof.
  destruct (timedOut_exact job1 60 1000 (1000 + 61 * second)) as [H _].
  - reflexivity.
  - reflexivity.
  - lia.
  - unfold second. lia.
  - apply H; [lia|]. unfold second. lia.
Defined.

(** The row as it was read before the VM of [world2] was recorded. *)
Definition job_read : Job :=
  mkJob "job-1" StatusProvisioning payload0 None None None None (Some 1000%Z) None
    (Some "host") None 1 1.

Lemma stale_provision_fails_job_witness :
  ∃ j', db (provision env_image spec_json job_read world2).2 !! "job-1" = Some j' ∧
    j_Status j' = StatusFailed.
Proof.
  destruct (GenerateCloudInit env_image spec_json (j_Payload job_read) (j_ID job_read)) as [ci|e] eqn:E.
  - destruct (stale_provision_fails_job env_image spec_json job_read job1 world2 "1" ci
      "uniqueness_error" ROther (cl world2)) as [H _].
    + reflexivity.
    + reflexivity.
    + reflexivity.
    + discriminate.
    + reflexivity.
    + reflexivity.
    + exact E.
    + reflexivity.
    + exact H.
  - exfalso. assert (Hok : match GenerateCloudInit env_image spec_json (j_Payload job_read) (j_ID job_read)
      with Ok _ => True | Err _ => False end) by (vm_compute; exact I).
    rewrite E in Hok. exact Hok.
Defined.

Lemma validImage_safe_witness : all_chars safe_char "ghcr.io/org/worker:v1" = true.
Proof. apply (validImage_safe "ghcr.io/org/worker:v1"). vm_compute. reflexivity. Defined.

Lemma request_json_secret_free_witness :
  match cloudInitData env_image spec_json payload0 "j",
        cloudInitData (λ x, if String.eqb x "GHCR_TOKEN" then "s3cret" else env_image x) spec_json payload0 "j" with
  | Ok d, Ok d' => d_RequestJSON d = d_RequestJSON d'
  | _, _ => False
  end.
Proof.
  assert (Hg : ∀ x, x ∉ secrets → env_image x = (if String.eqb x "GHCR_TOKEN" then "s3cret" else env_image x)).
  { intros x Hx. destruct (String.eqb_spec x "GHCR_TOKEN") as [->|]; [|reflexivity].
    exfalso. apply Hx. apply (bool_decide_unpack _). vm_compute. exact I. }
  pose proof (request_json_secret_free env_image
    (λ x, if String.eqb x "GHCR_TOKEN" then "s3cret" else env_image x) spec_json payload0 "j" Hg) as H.
  assert (H1 : match cloudInitData env_image spec_json payload0 "j" with Ok _ => True | Err _ => False end)
    by (vm_compute; exact I).
  destruct (cloudInitData env_image spec_json payload0 "j") as [d|e]; [|exact H1].
  destruct (cloudInitData (λ x, if String.eqb x "GHCR_TOKEN" then "s3cret" else env_image x) spec_json payload0 "j")
    as [d'|e']; [exact (proj1 H)|exact H].
Defined.

Lemma GenerateCloudInit_ok_witness :
  match GenerateCloudInit env_image spec_json payload0 "j" with
  | Ok s => (String.length s ≤ userDataLimit)%nat
  | Err _ => False
  end.
Proof.
  assert (H1 : match GenerateCloudInit env_image spec_json payload0 "j" with Ok _ => True | Err _ => False end)
    by (vm_compute; exact I).
  destruct (GenerateCloudInit env_image spec_json payload0 "j") as [s|e] eqn:E; [|exact H1].
  exact (proj1 (GenerateCloudInit_ok env_image spec_json payload0 "j" s E)).
Defined.
