(* ===== verification/PreviewCluster.v ===== *)
(** * PreviewCluster: preview records, and what decides which one serves.

    Models operators/ephemeral-job-operator/internal/previewaccess: the record
    and the lookups of state.go, the controller of reconciler.go and the admission
    webhook of webhook.go.

    The process reads the cluster through a cache: a map of each kind of object,
    where a read may fail ([faults]) and a list comes back in no particular order
    ([arrange], counted by [nlists]). Time is in nanoseconds since the epoch; each
    look at the clock may find it later ([ticks]). The memory of the process that
    its mutexes guard is [mem]. *)

From S2P Require Import Prelude.

Local Open Scope string_scope.

(** ** The cluster *)

Record Condition := mkCondition {
  cd_Status : bool;
  cd_Reason : string;
  cd_Message : string;
  cd_ObservedGeneration : Z }.

Record PreviewAccessSpec := mkPASpec {
  JobRef : string;
  Port : Z;
  OwnerSubject : string;
  SharedWith : list string;
  EmbeddableBy : list string;
  ExpiresAt : option Z }.

(** Of the conditions only Ready is ever written. *)
Record PreviewAccessStatus := mkPAStatus {
  Host : string;
  Ready : option Condition;
  ObservedGeneration : Z }.

#[export] Instance PreviewAccessStatus_eq_dec : EqDecision PreviewAccessStatus.
Proof.
  assert (EqDecision Condition) by solve_decision. solve_decision.
Defined.

Record PreviewAccess := mkPA {
  Namespace : string;
  Name : string;
  UID : string;
  Generation : Z;
  CreationTimestamp : Z;
  Deleting : bool;
  OwnerReferences : list string;
  Spec : PreviewAccessSpec;
  Status : PreviewAccessStatus }.

Record NamespaceObj := mkNs {
  Labels : gmap string string;
  Annotations : gmap string string }.

Record EphemeralJob := mkEJ {
  ej_UID : string;
  Phase : string;
  PodName : string }.

Record Pod := mkPod {
  PodIP : string;
  pod_Labels : gmap string string }.

(** A CiliumNetworkPolicy: who owns it, and its spec (the pods it selects, the
    labels of the peers let in, and the port). *)
Record PolicySpec := mkPolicySpec {
  endpointSelector : string;
  fromEndpoints : gmap string string;
  toPort : string }.
#[export] Instance PolicySpec_eq_dec : EqDecision PolicySpec.
Proof. solve_decision. Defined.
Record Policy := mkPolicy {
  pol_Owner : string;
  pol_OwnerUID : string;
  pol_Spec : PolicySpec }.

Record Cluster := mkCluster {
  records : gmap (string * string) PreviewAccess;
  namespaces : gmap string NamespaceObj;
  jobs : gmap (string * string) EphemeralJob;
  pods : gmap (string * string) Pod;
  policies : gmap (string * string) Policy }.

(** ** The process *)

Record ticket := mkTicket {
  t_Record : string;
  t_Host : string;
  t_Subject : string;
  t_Expiry : Z;
  t_Origin : string }.
Definition zero_ticket : ticket := mkTicket "" "" "" 0 "".

(** A handoff code's ticket, and when it was issued. *)
Record code := mkCode { c_ticket : ticket; c_issued : Z }.

Record endedHost := mkEnded {
  eh_namespace : string;
  eh_embeddableBy : list string;
  eh_at : Z }.

Record rsaKey := mkRSA { modulus : Z; exponent : Z }.

Record Mem := mkMem {
  codes : gmap string code;
  redeemed : gmap (string * string) Z;
  ended : gmap string endedHost;
  byIP : gmap string string;
  keys : option (gmap string rsaKey);
  fetchedAt : Z }.

Record JWK := mkJWK { Kty : string; Kid : string; Use : string; jN : string; jE : string }.

(** What the issuer's key-set URL answers. *)
Inductive jwks_reply :=
| NoReply (why : string)
| StatusCode (n : Z)
| BadBody
| KeySet (l : list JWK).

Record Env := mkEnv {
  cluster : Cluster;
  faults : list outcome;
  nlists : nat;
  clk : Z;
  ticks : list N;
  rnd : list (option string);
  replies : list jwks_reply;
  fetches : list Z;
  mem : Mem }.

Inductive perr :=
| NotFound (what : string)
| CallFailed (what : string)
| ErrAmbiguous
| ErrRefused (status : Z) (reason : string)
| ErrMsg (msg : string).

Abbreviation PM := (goM Env perr).

Definition set_cluster c e := mkEnv c (faults e) (nlists e) (clk e) (ticks e) (rnd e) (replies e) (fetches e) (mem e).
Definition set_faults l e := mkEnv (cluster e) l (nlists e) (clk e) (ticks e) (rnd e) (replies e) (fetches e) (mem e).
Definition set_nlists n e := mkEnv (cluster e) (faults e) n (clk e) (ticks e) (rnd e) (replies e) (fetches e) (mem e).
Definition set_time t l e := mkEnv (cluster e) (faults e) (nlists e) t l (rnd e) (replies e) (fetches e) (mem e).
Definition set_rnd l e := mkEnv (cluster e) (faults e) (nlists e) (clk e) (ticks e) l (replies e) (fetches e) (mem e).
Definition set_replies l f e := mkEnv (cluster e) (faults e) (nlists e) (clk e) (ticks e) (rnd e) l f (mem e).
Definition set_mem m e := mkEnv (cluster e) (faults e) (nlists e) (clk e) (ticks e) (rnd e) (replies e) (fetches e) m.

Definition set_codes x m := mkMem x (redeemed m) (ended m) (byIP m) (keys m) (fetchedAt m).
Definition set_redeemed x m := mkMem (codes m) x (ended m) (byIP m) (keys m) (fetchedAt m).
Definition set_ended x m := mkMem (codes m) (redeemed m) x (byIP m) (keys m) (fetchedAt m).
Definition set_byIP x m := mkMem (codes m) (redeemed m) (ended m) x (keys m) (fetchedAt m).
Definition set_keys x t m := mkMem (codes m) (redeemed m) (ended m) (byIP m) x t.

Definition set_records r c := mkCluster r (namespaces c) (jobs c) (pods c) (policies c).
Definition set_policies p c := mkCluster (records c) (namespaces c) (jobs c) (pods c) p.

Definition ns_second : Z := 1000000000.
(** The zero time.Time, 1 January of year 1. *)
Definition zero_time : Z := (-62135596800 * ns_second)%Z.
(** time.Time.Sub saturates at the limits of time.Duration. *)
Definition Sub (t u : Z) : Z := Z.max (- 2 ^ 63) (Z.min (2 ^ 63 - 1) (t - u)).
Definition Now : PM Z := λ e,
  let t := (clk e + Z.of_N (default 0%N (head (ticks e))))%Z in
  (Ok t, set_time t (tail (ticks e)) e).

Definition remember (f : Mem → Mem) : PM unit := modify (λ e, set_mem (f (mem e)) e).

(** ** Reads and writes of the cluster *)

(** What the libraries provide. [arrange n l] is the order the [n]th list of the
    process comes back in. *)
Class Library := {
  arrange : nat → list PreviewAccess → list PreviewAccess;
  sha256_hex : string → string;
  hmac_sha256 : string → string → string;
  b64 : string → string;
  unb64 : string → option string;
  ticket_json : ticket → string;
  json_ticket : string → ticket * option string;
  QueryEscape : string → string }.

Definition ticket_utf8 (t : ticket) : bool :=
  ValidString (t_Record t) && ValidString (t_Host t) && ValidString (t_Subject t)
  && ValidString (t_Origin t).

(** The URL-safe base64 alphabet. *)
Definition b64_char (c : Ascii.ascii) : bool :=
  let n := Ascii.nat_of_ascii c in
  ((48 <=? n) && (n <=? 57) || (65 <=? n) && (n <=? 90) || (97 <=? n) && (n <=? 122)
   || (n =? 45) || (n =? 95))%nat.

(** A list holds each object once, in some order; base64 encodes into its alphabet
    and decodes what it encoded; JSON decodes what it encoded of valid text. *)
Class LibraryLaws (L : Library) := {
  arrange_perm n l : arrange n l ≡ₚ l;
  unb64_b64 s : unb64 (b64 s) = Some s;
  b64_alphabet s : all_chars b64_char (b64 s) = true;
  json_ticket_json t : ticket_utf8 t = true → json_ticket (ticket_json t) = (t, None) }.

Definition pop_fault : PM outcome := λ e,
  let '(o, l) := next_outcome (faults e) in (Ok o, set_faults l e).

Definition call (what : string) : PM unit :=
  o ← pop_fault;
  if decide (o = Done) then mret () else throw (CallFailed what).

Definition lookup_in {A} (what : string) (f : Cluster → option A) : PM A :=
  call what ≫= λ _,
  o ← gets (λ e, f (cluster e));
  match o with Some a => mret a | None => throw (NotFound what) end.

Definition get_record (ns name : string) : PM PreviewAccess :=
  lookup_in name (λ c, records c !! (ns, name)).
Definition get_namespace (name : string) : PM NamespaceObj :=
  lookup_in name (λ c, namespaces c !! name).
Definition get_job (ns name : string) : PM EphemeralJob :=
  lookup_in name (λ c, jobs c !! (ns, name)).
Definition get_pod (ns name : string) : PM Pod :=
  lookup_in name (λ c, pods c !! (ns, name)).
Definition get_policy (ns name : string) : PM Policy :=
  lookup_in name (λ c, policies c !! (ns, name)).

(** A write may fail before or after the API server has acted on it. *)
Definition write (what : string) (f : Cluster → Cluster) : PM unit :=
  o ← pop_fault;
  let act := modify (λ e, set_cluster (f (cluster e)) e) in
  match o with
  | Done => act
  | Lost => throw (CallFailed what)
  | Unknown => act ≫= λ _, throw (CallFailed what)
  end.

(** client.IgnoreNotFound on the error of [m]. *)
Definition found {A} (m : PM A) : PM (option A) :=
  r ← attempt m;
  match r with
  | Ok a => mret (Some a)
  | Err (NotFound _) => mret None
  | Err e => throw e
  end.

(** ** state.go *)

Definition StateActive := "active".
Definition StateExpired := "expired".
Definition StateDenied := "denied".
Definition StateRevoked := "revoked".
Definition StateEnded := "ended".
Definition StateUnavailable := "unavailable".
Definition LabelTenant := "tenant-id".
Definition LabelApp := "app-id".
Definition AppOriginAnnotation := "preview-access.zero-ops.io/app-origin".
Definition labelJobUID := "compute.nutgraf.in/ephemeraljob-uid".

Definition label (m : gmap string string) (k : string) : string := default "" (m !! k).

Definition EmbedKey (app name : string) : string := app +:+ "/" +:+ name.
Definition TargetKey (jobRef : string) (port : Z) : string := jobRef +:+ "/" +:+ pretty port.

(** The indexes of SetupWithManager: the values a record is found under. *)
Definition index_host (r : PreviewAccess) : list string :=
  if String.eqb (Host (Status r)) "" then [] else [Host (Status r)].
Definition index_target (r : PreviewAccess) : list string :=
  [TargetKey (JobRef (Spec r)) (Port (Spec r))].
Definition index_embeddableBy (r : PreviewAccess) : list string :=
  (λ app, EmbedKey app (Name r)) <$> EmbeddableBy (Spec r).

Definition Allowed (r : PreviewAccess) (subject : string) : bool :=
  negb (String.eqb subject "")
  && (String.eqb (OwnerSubject (Spec r)) subject
      || bool_decide (subject ∈ SharedWith (Spec r))).

Definition RecordEnded (r : PreviewAccess) (t : Z) : bool :=
  match ExpiresAt (Spec r) with
  | None => false
  | Some x => negb (t <? x)%Z
  end.

Definition tombstoneTTL : Z := (24 * 3600 * ns_second)%Z.

(** noteEnded also drops the tombstones older than a day. *)
Definition noteEnded (host namespace : string) (embeddableBy : list string) : PM unit :=
  t ← Now;
  remember (λ m, set_ended
    (<[host := mkEnded namespace embeddableBy t]>
       (filter (λ x, ¬ (tombstoneTTL < Sub t (eh_at x.2))%Z) (ended m))) m).

Section state.
Context {L : Library}.

Definition HostFor (uid domain : string) : string :=
  "p" +:+ str_take 24 (sha256_hex uid) +:+ "." +:+ domain.

Definition matching (f : PreviewAccess → bool) (c : Cluster) : list PreviewAccess :=
  filter (λ r, f r = true) ((map_to_list (records c)).*2).
Definition arranged (f : PreviewAccess → bool) : PM (list PreviewAccess) := λ e,
  (Ok (arrange (nlists e) (matching f (cluster e))), set_nlists (S (nlists e)) e).
Definition list_records (what : string) (f : PreviewAccess → bool) : PM (list PreviewAccess) :=
  call what ≫= λ _, arranged f.

Definition app_namespaces (c : Cluster) (tenant app : string) : list string :=
  (filter (λ x, Labels x.2 !! LabelTenant = Some tenant ∧ Labels x.2 !! LabelApp = Some app)
     (map_to_list (namespaces c))).*1.

Definition AppNamespace (tenant app : string) : PM string :=
  call "namespaces" ≫= λ _,
  l ← gets (λ e, app_namespaces (cluster e) tenant app);
  match l with
  | [] => mret ""
  | [n] => mret n
  | _ => throw (ErrMsg ("tenant " +:+ quoted tenant +:+ " has " +:+ pretty (length l)
                      +:+ " namespaces labelled app " +:+ quoted app
                      +:+ "; ADR-088 gives an application one"))
  end.

(** The body of Reachable's loop over the records that name [app]. *)
Definition sibling (tenant own : string) (acc : list PreviewAccess) (r : PreviewAccess)
    : PM (list PreviewAccess) :=
  if String.eqb (Namespace r) own then mret acc
  else n ← found (get_namespace (Namespace r));
       match n with
       | Some n => mret (if String.eqb (label (Labels n) LabelTenant) tenant
                         then (acc ++ [r])%list else acc)
       | None => mret acc
       end.

Definition Reachable (tenant app name : string) : PM (list PreviewAccess) :=
  own ← AppNamespace tenant app;
  acc ← (if String.eqb own "" then mret []
         else r ← found (get_record own name);
              mret (match r with Some r => [r] | None => [] end));
  l ← list_records "previewaccesses"
        (λ r, bool_decide (EmbedKey app name ∈ index_embeddableBy r));
  foldM (sibling tenant own) l acc.

Definition ByHost (host : string) : PM (option PreviewAccess) :=
  l ← list_records "previewaccesses" (λ r, bool_decide (host ∈ index_host r));
  mret (head l).

Definition IsReady (r : PreviewAccess) : bool :=
  match Ready (Status r) with Some c => cd_Status c | None => false end.

(** Resolve: the address of the running sandbox behind a record, if any. *)
Definition Resolve (r : PreviewAccess) : PM (option string) :=
  if negb (IsReady r) then mret None else
  j ← found (get_job (Namespace r) (JobRef (Spec r)));
  match j with
  | None => mret None
  | Some j =>
      if negb (String.eqb (Phase j) "Running") || String.eqb (PodName j) "" then mret None else
      p ← found (get_pod (Namespace r) (PodName j));
      match p with
      | None => mret None
      | Some p =>
          if String.eqb (PodIP p) ""
             || negb (String.eqb (label (pod_Labels p) labelJobUID) (ej_UID j))
          then mret None
          else mret (Some (PodIP p +:+ ":" +:+ pretty (Port (Spec r))))
      end
  end.

(** ** reconciler.go *)

Definition ReasonTargetInUse := "PreviewTargetInUse".
Definition ReasonNameInUse := "PreviewNameInUse".
Definition ReasonServing := "Serving".

(** The order of sort.Slice in targetOwner: oldest first, then by name. *)
Definition rank_le (x y : PreviewAccess) : Prop :=
  (CreationTimestamp x < CreationTimestamp y)%Z ∨
  CreationTimestamp x = CreationTimestamp y ∧ String.le (Name x) (Name y).
#[export] Instance rank_le_dec : RelDecision rank_le := λ x y, _.

Definition same_target (ns key : string) (r : PreviewAccess) : bool :=
  String.eqb (Namespace r) ns && bool_decide (key ∈ index_target r).

Definition targetOwner (r : PreviewAccess) : PM string :=
  l ← list_records "previewaccesses"
        (same_target (Namespace r) (TargetKey (JobRef (Spec r)) (Port (Spec r))));
  match merge_sort rank_le l with
  | [] => mret (Name r)
  | x :: _ => mret (Name x)
  end.

(** The reconciler's configuration. *)
Record Reconciler := mkReconciler {
  Domain : string;
  rc_Namespace : string;
  PodLabels : gmap string string;
  RenderPolicies : bool }.

Context (c : Reconciler).

Definition want_policy (r : PreviewAccess) (j : EphemeralJob) : Policy :=
  mkPolicy (Name r) (UID r)
    (mkPolicySpec (ej_UID j)
       (PodLabels c ∪ {["k8s:io.kubernetes.pod.namespace" := rc_Namespace c]})
       (pretty (Port (Spec r)))).

Definition reconcileIngress (r : PreviewAccess) (serving : bool) : PM unit :=
  let k := (Namespace r, Name r +:+ "-preview") in
  j ← found (get_job (Namespace r) (JobRef (Spec r)));
  match j, serving with
  | Some j, true =>
      let want := want_policy r j in
      let put := write k.2 (λ cl, set_policies (<[k := want]> (policies cl)) cl) in
      got ← found (get_policy k.1 k.2);
      match got with
      | None => put
      | Some got => if decide (pol_Spec got = pol_Spec want) then mret () else put
      end
  | _, _ => write k.2 (λ cl, set_policies (delete k (policies cl)) cl)
  end.

Definition with_status (st : PreviewAccessStatus) (r : PreviewAccess) : PreviewAccess :=
  mkPA (Namespace r) (Name r) (UID r) (Generation r) (CreationTimestamp r) (Deleting r)
    (OwnerReferences r) (Spec r) st.

(** The status Reconcile wants for a record, given who owns its target. *)
Definition want_status (r : PreviewAccess) (winner : string) : PreviewAccessStatus :=
  if String.eqb winner (Name r) then
    let host := HostFor (UID r) (Domain c) in
    mkPAStatus host
      (Some (mkCondition true ReasonServing ("served at https://" +:+ host) (Generation r)))
      (Generation r)
  else
    mkPAStatus (Host (Status r))
      (Some (mkCondition false ReasonTargetInUse
         ("PreviewAccess " +:+ quoted winner +:+ " already serves " +:+ JobRef (Spec r) +:+ " port "
          +:+ pretty (Port (Spec r))) (Generation r)))
      (Generation r).

Definition Reconcile (ns name : string) : PM unit :=
  r ← found (get_record ns name);
  match r with
  | None => mret ()
  | Some r =>
      if Deleting r then mret () else
      winner ← targetOwner r;
      let want := want_status r winner in
      (if RenderPolicies c then reconcileIngress r (String.eqb winner (Name r)) else mret ())
        ≫= λ _,
      if decide (Status r = want) then mret ()
      else write name (λ cl, set_records (alter (with_status want) (ns, name) (records cl)) cl)
  end.

(** The tombstone handler: a record that is deleted leaves its host behind. *)
Definition on_delete (r : PreviewAccess) : PM unit :=
  if String.eqb (Host (Status r)) "" then mret ()
  else noteEnded (Host (Status r)) (Namespace r) (EmbeddableBy (Spec r)).

(** ** webhook.go *)

Inductive operation := Create | Update | Delete | Connect.
Inductive verdict :=
| Accept
| Deny (status : Z) (reason message : string)
| Errored (status : Z).

(** The inner loop of checkEmbedding: the first of the records found that is not
    the one under admission. *)
Definition other_record (ns name : string) (l : list PreviewAccess) : option PreviewAccess :=
  head (filter (λ o, ¬ (Namespace o = ns ∧ Name o = name)) l).

Fixpoint check_embedders (tenant ns name : string) (embedders : list string) : PM verdict :=
  match embedders with
  | [] => mret Accept
  | e :: es =>
      l ← attempt (Reachable tenant e name);
      match l with
      | Err _ => mret (Errored 500)
      | Ok l =>
          match other_record ns name l with
          | Some o => mret (Deny 409 ReasonNameInUse
              ("application " +:+ quoted e +:+ " already embeds PreviewAccess "
               +:+ Namespace o +:+ "/" +:+ Name o +:+ " under the name " +:+ quoted name
               +:+ "; a record's name must be unique among the previews each app that may embed it can reach"))
          | None => check_embedders tenant ns name es
          end
      end
  end.

Definition checkEmbedding (ns : string) (r : PreviewAccess) : PM verdict :=
  n ← attempt (get_namespace ns);
  match n with
  | Err _ => mret (Errored 500)
  | Ok n =>
      let tenant := label (Labels n) LabelTenant in
      let app := label (Labels n) LabelApp in
      if String.eqb tenant "" || String.eqb app "" then
        match EmbeddableBy (Spec r) with
        | [] => mret Accept
        | _ :: _ => mret (Deny 422 "Invalid"
            ("spec.embeddableBy needs an application namespace; " +:+ ns +:+ " has no "
             +:+ LabelTenant +:+ " and " +:+ LabelApp +:+ " labels"))
        end
      else if bool_decide (app ∈ EmbeddableBy (Spec r))
      then mret (Deny 422 "Invalid"
        ("spec.embeddableBy names " +:+ quoted app
         +:+ ", the record's own application, which always may embed it"))
      else check_embedders tenant ns (Name r) (app :: EmbeddableBy (Spec r))
  end.

(** Handle: [obj] is the object under admission, [None] if it does not decode. *)
Definition Handle (op : operation) (ns : string) (obj : option PreviewAccess) : PM verdict :=
  match op with
  | Create | Update =>
      match obj with
      | None => mret (Errored 400)
      | Some r =>
          match OwnerReferences r, ExpiresAt (Spec r) with
          | [], None => mret (Deny 422 "Invalid"
              "spec.expiresAt is required when the PreviewAccess has no ownerReference: nothing else would ever end it")
          | _, _ =>
              l ← attempt (list_records "previewaccesses"
                    (same_target ns (TargetKey (JobRef (Spec r)) (Port (Spec r)))));
              match l with
              | Err _ => mret (Errored 500)
              | Ok l =>
                  match filter (λ o, Name o ≠ Name r) l with
                  | o :: _ => mret (Deny 409 ReasonTargetInUse
                      ("PreviewAccess " +:+ quoted (Name o) +:+ " already serves "
                       +:+ JobRef (Spec r) +:+ " port " +:+ pretty (Port (Spec r))
                       +:+ "; one record per (jobRef, port)"))
                  | [] => checkEmbedding ns r
                  end
              end
          end
      end
  | Delete | Connect => mret Accept
  end.
End state.
