(* ===== verification/PreviewSession.v ===== *)
(** * PreviewSession: who is calling, and how a browser is admitted.

    Models operators/ephemeral-job-operator/internal/previewaccess: the signed
    cookie and the handoff codes (cookie.go), the verification of the caller's
    token (jwt.go), the two interfaces [Identity] and [Session] (mechanism.go)
    with the platform's implementations (platform.go, and the gateway map of
    cmd/preview-access/main.go) and the local ones (localmode), and the HTTP
    surface (server.go).

    A request arrives decoded the way net/http decodes it; the raw Cookie lines
    are kept, because the proxy edits them. *)

From S2P Require Import Prelude.
From S2P Require Import PreviewCluster.

Local Open Scope string_scope.

(** ** Requests and answers *)

Record Request := mkRequest {
  rq_ip : string;
  rq_Host : string;
  rq_Path : string;
  rq_code : string;
  rq_Authorization : string;
  rq_Origin : string;
  rq_mediaType : string;
  rq_previewId : option string;
  rq_id : string;
  rq_Dest : string;
  rq_Cookie : list string }.

Record Cookie := mkCookie {
  ck_Name : string;
  ck_Value : string;
  ck_Path : string;
  ck_MaxAge : Z;
  ck_Secure : bool;
  ck_HttpOnly : bool;
  ck_SameSite : string;
  ck_Partitioned : bool }.

Inductive jval := JString (s : string) | JInt (z : Z) | JTime (t : Z) | JNull.

(** What a handler answers: a JSON body; a plain error; a refusal, whose state is
    also its X-Preview-Access header, with the page a document gets (the preview
    and the origins it posts to); the handoff's redirect with its Set-Cookie; or
    the request passed on to an address with these Cookie lines. *)
Inductive answer :=
| WriteJSON (status : Z) (fields : list (string * jval))
| Error (status : Z) (msg : string)
| Refusal (status : Z) (state : string) (page : option (string * list string))
| Handoff (location : string) (ck : Cookie)
| Proxied (addr : string) (cookies : list string).

(** ** cookie.go *)

Definition CookieName := "__Host-zo-preview".
Definition CookieMaxAge : Z := (8 * 3600 * ns_second)%Z.
Definition CodeTTL : Z := (10 * ns_second)%Z.

Definition NewSigner (key : string) : result string string :=
  if (String.length key <? 32)%nat
  then Err ("preview signing key is " +:+ pretty (String.length key)
            +:+ " bytes; at least 32 are required")
  else Ok key.

Section session.
Context {L : Library}.

Definition mac (key payload : string) : string := b64 (hmac_sha256 key payload).

Definition seal (key : string) (t : ticket) : string :=
  let p := b64 (ticket_json t) in p +:+ "." +:+ mac key p.

Definition open (key v : string) : ticket * option string :=
  let '(p, sig, ok) := Cut v "."%char in
  if negb ok || negb (String.eqb sig (mac key p))
  then (zero_ticket, Some "not a cookie this service issued")
  else match unb64 p with
       | None => (zero_ticket, Some "illegal base64 data")
       | Some b => json_ticket b
       end.

Definition cookie (key : string) (t : ticket) (maxAge : Z) : Cookie :=
  mkCookie CookieName (seal key t) "/" (Z.quot maxAge ns_second) true true "None" true.

(** Issue: a fresh random code for a ticket; expired codes are dropped. *)
Definition Issue (t : ticket) : PM string := λ e,
  match rnd e with
  | Some b :: l =>
      let k := b64 b in
      (at_ ← Now;
       remember (λ m, set_codes
         (<[k := mkCode t at_]>
            (filter (λ x, ¬ (CodeTTL < Sub at_ (c_issued x.2))%Z) (codes m))) m) ≫= λ _,
       mret k) (set_rnd l e)
  | None :: l => (Err (ErrMsg "rand.Read failed"), set_rnd l e)
  | [] => (Err (ErrMsg "rand.Read failed"), e)
  end.

(** Redeem: the code is gone after its first redemption attempt. *)
Definition Redeem (k host : string) : PM ticket :=
  v ← gets (λ e, codes (mem e) !! k);
  remember (λ m, set_codes (delete k (codes m)) m) ≫= λ _,
  match v with
  | None => throw (ErrMsg "unknown or already used code")
  | Some v =>
      t ← Now;
      if (CodeTTL <? Sub t (c_issued v))%Z then throw (ErrMsg "code expired")
      else if negb (String.eqb (t_Host (c_ticket v)) host)
      then throw (ErrMsg "code was issued for another host")
      else mret (c_ticket v)
  end.

(** ** jwt.go *)

Record Header := mkHeader { Alg : string; hKid : string }.
Record TokenClaims := mkClaims {
  Iss : string;
  Sub_ : string;
  Exp : option Z;
  Nbf : option Z }.

(** The decoders of a token's segments, and the RSA check of a signature. *)
Class TokenLib := {
  json_header : string → option Header;
  json_claims : string → option TokenClaims;
  rsa_verify : rsaKey → string → string → bool }.
Context {T : TokenLib}.

Definition clockSkew : Z := (60 * ns_second)%Z.
Definition jwksMinRefetchGap : Z := (30 * ns_second)%Z.

Fixpoint SetBytes (acc : Z) (s : string) : Z :=
  match s with
  | EmptyString => acc
  | String c s => SetBytes (acc * 256 + Z.of_N (Ascii.N_of_ascii c))%Z s
  end.

(** The keys of a set that can verify, the later of two with one kid winning. *)
Definition add_key (out : gmap string rsaKey) (k : JWK) : gmap string rsaKey :=
  if negb (String.eqb (Kty k) "RSA")
     || (negb (String.eqb (Use k) "") && negb (String.eqb (Use k) "sig")) then out
  else match unb64 (jN k), unb64 (jE k) with
       | Some n, Some e =>
           if (String.length e =? 0)%nat || (4 <? String.length e)%nat then out
           else <[Kid k := mkRSA (SetBytes 0 n) (SetBytes 0 e)]> out
       | _, _ => out
       end.

Definition fetch (url : string) : PM (gmap string rsaKey) := λ e,
  let e' := set_replies (tail (replies e)) (clk e :: fetches e) e in
  match default (NoReply "no reply") (head (replies e)) with
  | NoReply why => (Err (ErrMsg why), e')
  | StatusCode n =>
      (Err (ErrMsg (url +:+ " answered " +:+ pretty n)), e')
  | BadBody => (Err (ErrMsg "invalid character in the key set"), e')
  | KeySet l =>
      let out := fold_left add_key l ∅ in
      if decide (out = ∅) then (Err (ErrMsg "the key set holds no RSA signing key"), e')
      else (Ok out, e')
  end.

(** The platform's token settings. *)
Record Verifier := mkVerifier { Issuer : string; JWKSURL : string }.

Definition no_key {A} (kid : string) : PM A :=
  throw (ErrMsg ("signing key " +:+ quoted kid +:+ " is not in the issuer's key set")).

Definition key_for (v : Verifier) (kid : string) : PM rsaKey :=
  ks ← gets (λ e, keys (mem e));
  match ks ≫= (λ m, m !! kid) with
  | Some k => mret k
  | None =>
      t ← Now;
      at_ ← gets (λ e, fetchedAt (mem e));
      if (Sub t at_ <? jwksMinRefetchGap)%Z && bool_decide (ks ≠ None) then no_key kid
      else
        got ← attempt (fetch (JWKSURL v));
        t' ← Now;
        match got with
        | Err _ =>
            remember (λ m, set_keys (keys m) t' m) ≫= λ _,
            throw (ErrMsg "fetching the issuer's key set")
        | Ok out =>
            remember (λ m, set_keys (Some out) t' m) ≫= λ _,
            match out !! kid with
            | Some k => mret k
            | None => no_key kid
            end
        end
  end.

Definition decodeSegment {A} (f : string → option A) (seg : string) : option A :=
  unb64 seg ≫= f.

(** Verify: the token's subject. *)
Definition Verify (v : Verifier) (raw : string) : PM string :=
  match Split raw "."%char with
  | [h; p; s] =>
      match decodeSegment json_header h with
      | None => throw (ErrMsg "header")
      | Some hdr =>
          if negb (String.eqb (Alg hdr) "RS256")
          then throw (ErrMsg ("algorithm " +:+ quoted (Alg hdr) +:+ " is not accepted"))
          else
            k ← key_for v (hKid hdr);
            match unb64 s with
            | None => throw (ErrMsg "signature encoding")
            | Some sig =>
                if negb (rsa_verify k (sha256_hex (h +:+ "." +:+ p)) sig)
                then throw (ErrMsg "signature does not verify")
                else match decodeSegment json_claims p with
                | None => throw (ErrMsg "claims")
                | Some c =>
                    t ← Now;
                    if negb (String.eqb (Iss c) (Issuer v))
                    then throw (ErrMsg ("issuer " +:+ quoted (Iss c) +:+ " is not the platform's"))
                    else if String.eqb (Sub_ c) "" then throw (ErrMsg "token names no subject")
                    else match Exp c with
                    | None => throw (ErrMsg "token has no expiry")
                    | Some x =>
                        if (x * ns_second + clockSkew <? t)%Z
                        then throw (ErrMsg "token has expired")
                        else if match Nbf c with
                                | Some b => (t + clockSkew <? b * ns_second)%Z
                                | None => false
                                end
                        then throw (ErrMsg "token is not valid yet")
                        else mret (Sub_ c)
                    end
                end
            end
      end
  | _ => throw (ErrMsg "not a compact JWS")
  end.

(** ** mechanism.go *)

Record Caller := mkCaller {
  ca_Namespace : string;
  ca_Tenant : string;
  ca_App : string;
  ca_Origin : string;
  ca_Subject : string }.

Record Identity := mkIdentity {
  id_Caller : Request → PM Caller;
  AppOrigins : string → list string → PM (list string) }.

Record Session := mkSession {
  Begin : PreviewAccess → Caller → Z → PM (string * Z);
  ServeOwn : Request → string → (string → string → PM answer) → PM (option answer);
  Admit : Request → PreviewAccess → PM (string * string * string);
  Holds : PreviewAccess → string → Z → PM (bool * option Z);
  WasAdmitted : PreviewAccess → string → PM bool }.

Definition SessionLifetime (r : PreviewAccess) (t : Z) : Z :=
  match ExpiresAt (Spec r) with
  | None => CookieMaxAge
  | Some x =>
      let left := (Z.quot (Sub x t) ns_second * ns_second)%Z in
      if (left <? CookieMaxAge)%Z then left else CookieMaxAge
  end.

(** ** platform.go: the gateway identity *)

(** A tenant gateway pod, as the relist sees it. *)
Record GatewayPod := mkGateway { gw_Namespace : string; gw_IP : string; gw_Deleting : bool }.

(** rebuild: [None] is a relist that failed. *)
Definition rebuild (l : option (list GatewayPod)) : PM unit :=
  match l with
  | None => mret ()
  | Some l =>
      remember (set_byIP (fold_left (λ m p,
        if negb (String.eqb (gw_IP p) "") && negb (gw_Deleting p)
        then <[gw_IP p := gw_Namespace p]> m else m) l ∅))
  end.

Definition NamespaceFor (ip : string) : PM (option string) :=
  gets (λ e, byIP (mem e) !! ip).

Definition CutPrefix (s p : string) : option string :=
  if HasPrefix s p then Some (TrimPrefix s p) else None.

Definition gateway_Caller (v : Verifier) (r : Request) : PM Caller :=
  ns ← NamespaceFor (rq_ip r);
  match ns with
  | None => throw (ErrRefused 403 "not a tenant gateway")
  | Some ns =>
      n ← attempt (get_namespace ns);
      match n with
      | Err _ => throw (ErrMsg ("reading the caller's namespace " +:+ ns))
      | Ok n =>
          let origin := label (Annotations n) AppOriginAnnotation in
          let tenant := label (Labels n) LabelTenant in
          let app := label (Labels n) LabelApp in
          if String.eqb origin "" || String.eqb tenant "" || String.eqb app ""
          then throw (ErrRefused 403 "namespace declares no app origin, tenant or app")
          else match CutPrefix (rq_Authorization r) "Bearer " with
          | None => throw (ErrRefused 401 "no session credential")
          | Some raw =>
              c ← attempt (Verify v raw);
              match c with
              | Err (ErrMsg m) => throw (ErrRefused 401 m)
              | Err _ => throw (ErrRefused 401 "")
              | Ok subject => mret (mkCaller ns tenant app origin subject)
              end
          end
      end
  end.

Definition add_origin (origins : list string) (n : NamespaceObj) : list string :=
  let o := label (Annotations n) AppOriginAnnotation in
  if negb (String.eqb o "") && bool_decide (o ∉ origins) then (origins ++ [o])%list else origins.

Definition sibling_origin (tenant : string) (origins : list string) (app : string)
    : PM (list string) :=
  ns ← AppNamespace tenant app;
  if String.eqb ns "" then mret origins
  else sib ← found (get_namespace ns);
       mret (match sib with Some n => add_origin origins n | None => origins end).

Definition gateway_AppOrigins (namespace : string) (embeddableBy : list string)
    : PM (list string) :=
  n ← found (get_namespace namespace);
  match n with
  | None => mret []
  | Some n =>
      let origins := add_origin [] n in
      let tenant := label (Labels n) LabelTenant in
      if String.eqb tenant "" then mret origins
      else foldM (sibling_origin tenant) embeddableBy origins
  end.

Definition GatewayIdentity (v : Verifier) : Identity :=
  mkIdentity (gateway_Caller v) gateway_AppOrigins.

(** ** platform.go: the cookie session *)

Definition cookie_Begin (r : PreviewAccess) (c : Caller) (t : Z) : PM (string * Z) :=
  let lifetime := SessionLifetime r t in
  k ← Issue (mkTicket (UID r) (Host (Status r)) (ca_Subject c)
               ((t + lifetime) / ns_second)%Z (ca_Origin c));
  mret ("https://" +:+ Host (Status r) +:+ "/_handoff?code=" +:+ QueryEscape k, lifetime).

(** noteRedeemed keeps the newest cookie expiry per record and subject. *)
Definition noteRedeemed (uid subject : string) (exp : Z) : PM unit :=
  remember (λ m,
    if (default zero_time (redeemed m !! (uid, subject)) <? exp)%Z
    then set_redeemed (<[(uid, subject) := exp]> (redeemed m)) m else m).

Definition cookie_ServeOwn (key : string) (r : Request) (host : string)
    (refuse : string → string → PM answer) : PM (option answer) :=
  if negb (String.eqb (rq_Path r) "/_handoff") then mret None else
  t ← attempt (Redeem (rq_code r) host);
  match t with
  | Err _ => a ← refuse StateExpired ""; mret (Some a)
  | Ok t =>
      rec ← attempt (ByHost host);
      match rec with
      | Ok (Some rec) =>
          if String.eqb (UID rec) (t_Record t) && Allowed rec (t_Subject t) then
            let exp := (t_Expiry t * ns_second)%Z in
            now ← Now;
            noteRedeemed (UID rec) (t_Subject t) exp ≫= λ _,
            mret (Some (Handoff "/" (cookie key t (Sub exp now))))
          else a ← refuse StateRevoked (t_Origin t); mret (Some a)
      | _ => a ← refuse StateRevoked (t_Origin t); mret (Some a)
      end
  end.

(** net/http's readCookies, for one name: the parts of the Cookie lines whose
    trimmed name is it and whose value is made of cookie octets, quotes off. *)
Definition is_blank (c : Ascii.ascii) : bool :=
  Ascii.eqb c " "%char || (Ascii.nat_of_ascii c =? 9)%nat.
Fixpoint TrimLeftBlank (s : string) : string :=
  match s with
  | String c s' => if is_blank c then TrimLeftBlank s' else s
  | EmptyString => EmptyString
  end.
Definition TrimString (s : string) : string :=
  String.rev (TrimLeftBlank (String.rev (TrimLeftBlank s))).

Definition value_byte (c : Ascii.ascii) : bool :=
  let n := Ascii.nat_of_ascii c in
  (32 <=? n)%nat && (n <? 127)%nat && negb (n =? 34)%nat && negb (n =? 59)%nat && negb (n =? 92)%nat.
Definition dquote : string := String (Ascii.ascii_of_nat 34) EmptyString.
Definition cookie_value (v : string) : option string :=
  let v := if (1 <? String.length v)%nat && HasPrefix v dquote && HasSuffix v dquote
           then str_take (String.length v - 2) (str_drop 1 v) else v in
  if all_chars value_byte v then Some v else None.

Definition read_part (name part : string) : option string :=
  let '(n, v, _) := Cut (TrimString part) "="%char in
  if String.eqb (TrimString n) name then cookie_value v else None.

(** r.Cookie: the first such value. [name] is a token, so that the parts whose
    name is not one are not the ones looked for. *)
Definition CookieOf (r : Request) (name : string) : option string :=
  head (omap (read_part name) (concat ((λ line, Split line ";"%char) <$> rq_Cookie r))).

Definition cookie_Admit (key : string) (r : Request) (rec : PreviewAccess)
    : PM (string * string * string) :=
  match CookieOf r CookieName with
  | None => mret ("", "", StateExpired)
  | Some v =>
      match open key v with
      | (t, Some _) => mret (t_Subject t, t_Origin t, StateExpired)
      | (t, None) =>
          if String.eqb (t_Record t) (UID rec) && String.eqb (t_Host t) (Host (Status rec)) then
            now ← Now;
            if negb (now <? t_Expiry t * ns_second)%Z
            then mret (t_Subject t, t_Origin t, StateExpired)
            else if negb (Allowed rec (t_Subject t))
            then mret (t_Subject t, t_Origin t, StateRevoked)
            else mret (t_Subject t, t_Origin t, "")
          else mret (t_Subject t, t_Origin t, StateExpired)
      end
  end.

Definition cookie_Holds (r : PreviewAccess) (subject : string) (t : Z) : PM (bool * option Z) :=
  u ← gets (λ e, redeemed (mem e) !! (UID r, subject));
  mret match u with
       | Some u => if (t <? u)%Z then (true, Some u) else (false, None)
       | None => (false, None)
       end.

Definition cookie_WasAdmitted (r : PreviewAccess) (subject : string) : PM bool :=
  gets (λ e, bool_decide (is_Some (redeemed (mem e) !! (UID r, subject)))).

Definition CookieSession (key : string) : Session :=
  mkSession cookie_Begin (cookie_ServeOwn key) (cookie_Admit key) cookie_Holds cookie_WasAdmitted.

(** ** localmode *)

Record Config := mkLocal {
  lc_Namespace : string;
  lc_AppOrigins : list string;
  lc_Subject : string;
  lc_PreviewBase : string }.

(** strings.ReplaceAll, for a pattern that is not empty. *)
Fixpoint replace_from (skip : nat) (s old new : string) : string :=
  match s with
  | EmptyString => EmptyString
  | String c s' =>
      match skip with
      | S n => replace_from n s' old new
      | O => if HasPrefix s old then new +:+ replace_from (String.length old - 1) s' old new
             else String c (replace_from 0 s' old new)
      end
  end.
Definition ReplaceAll (s old new : string) : string := replace_from 0 s old new.

(** ConfigFromEnv: [is_origin] is what url.Parse makes of an origin: an http or
    https scheme, a host, and nothing else. *)
Fixpoint read_origins (is_origin : string → bool) (seen : list string) (l : list string)
    : result string (list string) :=
  match l with
  | [] => Ok seen
  | o :: l =>
      let o := TrimSpace o in
      if negb (is_origin o)
      then Err ("LOCAL_APP_ORIGINS: " +:+ quoted o
                +:+ " is not an origin (scheme://host[:port], nothing after)")
      else if bool_decide (o ∈ seen)
      then Err ("LOCAL_APP_ORIGINS lists " +:+ quoted o +:+ " twice")
      else read_origins is_origin (seen ++ [o])%list l
  end.

Definition ConfigFromEnv (is_origin : string → bool) (getenv : string → string)
    : result string Config :=
  if existsb (λ v, String.eqb (getenv v) "")
       ["LOCAL_NAMESPACE"; "LOCAL_APP_ORIGINS"; "LOCAL_SUBJECT"; "LOCAL_PREVIEW_BASE"]
  then Err "local mode requires a variable that is not set"
  else match read_origins is_origin [] (Split (getenv "LOCAL_APP_ORIGINS") ","%char) with
       | Err e => Err e
       | Ok origins =>
           if negb (Contains (getenv "LOCAL_PREVIEW_BASE") "{host}")
           then Err ("LOCAL_PREVIEW_BASE " +:+ quoted (getenv "LOCAL_PREVIEW_BASE")
                     +:+ " must contain {host}")
           else Ok (mkLocal (getenv "LOCAL_NAMESPACE") origins (getenv "LOCAL_SUBJECT")
                      (getenv "LOCAL_PREVIEW_BASE"))
       end.

(** RequireKind, on the nodes listed: each a name and a provider id. *)
Definition RequireKind (nodes : option (list (string * string))) : result string unit :=
  match nodes with
  | None => Err "listing nodes to confirm this is a Kind cluster"
  | Some [] => Err "local mode runs only on a Kind cluster; this cluster reports no nodes"
  | Some l =>
      match filter (λ n, HasPrefix n.2 "kind://" = false) l with
      | n :: _ => Err ("local mode runs only on a Kind cluster; node " +:+ n.1 +:+ " is " +:+ quoted n.2)
      | [] => Ok ()
      end
  end.

Definition LocalIdentity (c : Config) : Identity :=
  mkIdentity
    (λ r, mret (mkCaller (lc_Namespace c) "" ""
                  (if bool_decide (rq_Origin r ∈ lc_AppOrigins c) then rq_Origin r else "")
                  (lc_Subject c)))
    (λ _ _, mret (lc_AppOrigins c)).

Definition local_Admit (c : Config) (r : Request) (rec : PreviewAccess)
    : PM (string * string * string) :=
  if negb (Allowed rec (lc_Subject c)) then mret (lc_Subject c, "", StateDenied)
  else mret (lc_Subject c, "", "").

Definition LocalSession (c : Config) : Session :=
  mkSession
    (λ r _ t, mret (ReplaceAll (lc_PreviewBase c) "{host}" (Host (Status r)) +:+ "/",
                    SessionLifetime r t))
    (λ _ _ _, mret None)
    (local_Admit c)
    (λ _ _ _, mret (true, None))
    (λ _ _, mret false).

(** ** state.go: the caller's state for one preview *)

Definition StateFor (s : Session) (rec : option PreviewAccess) (subject : string)
    : PM (string * option Z) :=
  t ← Now;
  match rec with
  | None => mret (StateEnded, None)
  | Some r =>
      if RecordEnded r t then mret (StateEnded, None)
      else if negb (Allowed r subject) then
        was ← WasAdmitted s r subject;
        mret (if (was : bool) then StateRevoked else StateDenied, None)
      else
        target ← Resolve r;
        match target with
        | None => mret (StateUnavailable, None)
        | Some _ =>
            held ← Holds s r subject t;
            mret (if (fst held : bool) then (StateActive, snd held) else (StateExpired, None))
        end
  end.

(** ** server.go *)

Definition stripCookie (lines : list string) (name : string) : list string :=
  let kept := filter (λ p, p ≠ "" ∧ HasPrefix p (name +:+ "=") = false)
                (TrimSpace <$> concat ((λ line, Split line ";"%char) <$> lines)) in
  match kept with
  | [] => []
  | _ => [Join kept "; "]
  end.

(** ModifyResponse, on the Set-Cookie headers of the sandbox's answer. *)
Definition keep_set_cookie (l : list string) : list string :=
  filter (λ v, HasPrefix (TrimSpace v) (CookieName +:+ "=") = false) l.

Section server.
Context (idn : Identity) (s : Session).

Definition record_of (ns name : string) : PM (option PreviewAccess) := found (get_record ns name).

Definition lookup (c : Caller) (name : string) : PM (option PreviewAccess) :=
  if String.eqb (ca_App c) "" then record_of (ca_Namespace c) name
  else
    l ← Reachable (ca_Tenant c) (ca_App c) name;
    match l with
    | [] => mret None
    | [r] => mret (Some r)
    | _ => throw ErrAmbiguous
    end.

Definition lookupFailed (e : perr) : answer :=
  match e with
  | ErrAmbiguous => WriteJSON 409
      [("error", JString "previewId names more than one preview this application may embed")]
  | _ => Error 503 "record lookup failed"
  end.

Definition denied (status : Z) : answer := WriteJSON status [("previewAccess", JString StateDenied)].

(** caller, as the wrapper of a handler: the refusal, or the handler's answer. *)
Definition with_caller (r : Request) (f : Caller → PM answer) : PM answer :=
  c ← attempt (id_Caller idn r);
  match c with
  | Ok c => f c
  | Err (ErrRefused status _) => mret (denied status)
  | Err _ => mret (Error 503 "caller lookup failed")
  end.

Definition handleCodes (r : Request) : PM answer :=
  with_caller r (λ c,
    if negb (String.eqb (rq_mediaType r) "application/json") || String.eqb (ca_Origin c) ""
       || negb (String.eqb (rq_Origin r) (ca_Origin c)) then mret (denied 403)
    else match rq_previewId r with
    | None | Some "" => mret (Error 400 "previewId is required")
    | Some id =>
        rec ← attempt (lookup c id);
        match rec with
        | Err e => mret (lookupFailed e)
        | Ok rec =>
            t ← Now;
            match rec with
            | None => mret (WriteJSON 404 [("previewAccess", JString "not-found")])
            | Some rec =>
                if RecordEnded rec t
                then mret (WriteJSON 404 [("previewAccess", JString "not-found")])
                else if negb (Allowed rec (ca_Subject c)) then mret (denied 403)
                else if String.eqb (Host (Status rec)) ""
                then mret (WriteJSON 503 [("previewAccess", JString StateUnavailable)])
                else
                  b ← attempt (Begin s rec c t);
                  mret match b with
                  | Err _ => Error 500 "could not start the preview session"
                  | Ok (url, lifetime) =>
                      WriteJSON 200
                        [("handoffUrl", JString url);
                         ("codeExpiresInSeconds", JInt (Z.quot CodeTTL ns_second));
                         ("cookieMaxAgeSeconds", JInt (Z.quot lifetime ns_second))]
                  end
            end
        end
    end).

Definition handleState (r : Request) : PM answer :=
  with_caller r (λ c,
    rec ← attempt (lookup c (rq_id r));
    match rec with
    | Err e => mret (lookupFailed e)
    | Ok rec =>
        st ← attempt (StateFor s rec (ca_Subject c));
        mret match st with
        | Err _ => Error 503 "state lookup failed"
        | Ok (state, until) =>
            WriteJSON 200
              [("previewId", JString (rq_id r)); ("state", JString state);
               ("host", match rec with
                        | Some rec => if String.eqb state StateEnded then JNull
                                      else JString (Host (Status rec))
                        | None => JNull
                        end);
               ("cookieExpiresAt", match until with Some u => JTime u | None => JNull end)]
        end
    end).

Definition refusal_code (state : string) : Z :=
  if String.eqb state StateExpired then 401
  else if String.eqb state StateUnavailable then 503 else 403.

Definition endedRecord (host : string) : PM (option endedHost) :=
  gets (λ e, ended (mem e) !! host).

Definition refuse (r : Request) (host state origin : string) : PM answer :=
  rec ← attempt (ByHost host);
  match rec with
  | Err _ => mret (Error 503 "preview lookup failed")
  | Ok rec =>
      tomb ← endedRecord host;
      let '(preview, ns, by_) :=
        match rec, tomb with
        | Some rec, _ => (Name rec, Namespace rec, EmbeddableBy (Spec rec))
        | None, Some t => ("", eh_namespace t, eh_embeddableBy t)
        | None, None => ("", "", [])
        end in
      origins ← ((if negb (String.eqb origin "") then mret (Ok [origin])
                  else if String.eqb ns "" then mret (Ok [])
                  else attempt (AppOrigins idn ns by_)) : PM (result perr (list string)));
      mret match origins with
      | Err _ => Error 503 "preview lookup failed"
      | Ok origins =>
          Refusal (refusal_code state) state
            (if String.eqb (rq_Dest r) "document" || String.eqb (rq_Dest r) "iframe"
             then Some (preview, origins) else None)
      end
  end.

(** proxy: the request goes out without the preview cookie. *)
Definition proxy (addr : string) (r : Request) : answer :=
  Proxied addr (stripCookie (rq_Cookie r) CookieName).

Definition handlePreview (r : Request) (host : string) : PM answer :=
  rec ← attempt (ByHost host);
  match rec with
  | Err _ => mret (Error 503 "preview lookup failed")
  | Ok None => refuse r host StateEnded ""
  | Ok (Some rec) =>
      t ← Now;
      if RecordEnded rec t then refuse r host StateEnded ""
      else
        adm ← Admit s r rec;
        let '(_, origin, state) := adm in
        if negb (String.eqb state "") then refuse r host state origin
        else
          target ← attempt (Resolve rec);
          match target with
          | Err _ => mret (Error 503 "target lookup failed")
          | Ok None => refuse r host StateUnavailable origin
          | Ok (Some addr) => mret (proxy addr r)
          end
  end.

Definition Previews (r : Request) : PM answer :=
  let host := ToLower (default "" (head (Split (rq_Host r) ":"%char))) in
  own ← ServeOwn s r host (refuse r host);
  match own with
  | Some a => mret a
  | None => handlePreview r host
  end.

(** AppAPI's routes, the health probe apart. *)
Inductive route := PostCodes | GetState.
Definition AppAPI (x : route) (r : Request) : PM answer :=
  match x with
  | PostCodes => handleCodes r
  | GetState => handleState r
  end.
End server.
End session.
