(* ===== verification/PreviewClusterFacts.v ===== *)
(** * PreviewClusterFacts: which preview record serves, and who can reach it.

    Reads leave the cluster and the process's memory alone ([still]); what a read
    returns is what the cluster holds. From these: the reconciler gives every
    target to the oldest record claiming it, the sandbox's network policy follows,
    and the webhook keeps every name an application can use unambiguous. *)

From S2P Require Import Prelude.
From S2P Require Import PreviewCluster.

Local Open Scope string_scope.

(** ** Reads *)

(** Nothing but the clock and the scripts moved on. *)
Definition still (e e' : Env) : Prop :=
  cluster e' = cluster e ∧ mem e' = mem e ∧ (clk e ≤ clk e')%Z.

#[export] Instance still_preorder : PreOrder still.
Proof.
  split; [intros e; by split_and!; try lia|].
  intros x y z (?&?&?) (?&?&?). split_and!; [congruence..|lia].
Qed.

Section reads.
Context {L : Library} (e0 : Env).
Implicit Types e : Env.

Lemma still_pop : keeps (still e0) pop_fault.
Proof. intros e H. unfold pop_fault. destruct (next_outcome (faults e)). exact H. Qed.

Lemma still_Now : keeps (still e0) Now.
Proof. intros e (?&?&?). unfold Now, still. cbn. split_and!; [done..|lia]. Qed.

Lemma still_call what : keeps (still e0) (call what).
Proof. unfold call. apply keeps_bind; [apply still_pop|]. intros o. case_decide; auto with keeps. Qed.

Lemma still_lookup_in {A} what (f : Cluster → option A) : keeps (still e0) (lookup_in what f).
Proof.
  unfold lookup_in. apply keeps_bind; [apply still_call|]. intros _.
  apply keeps_bind; [auto with keeps|]. intros [a|]; auto with keeps.
Qed.

Lemma still_found {A} (m : PM A) : keeps (still e0) m → keeps (still e0) (found m).
Proof.
  intros H. apply keeps_bind; [by apply keeps_attempt|]. intros [a|[]]; auto with keeps.
Qed.

Lemma still_arranged f : keeps (still e0) (arranged f).
Proof. intros e H. exact H. Qed.

Lemma still_list_records what f : keeps (still e0) (list_records what f).
Proof. apply keeps_bind; [apply still_call|]. intros _. apply still_arranged. Qed.
End reads.

#[export] Hint Resolve still_pop still_Now still_call still_lookup_in still_found
  still_arranged still_list_records : keeps.
#[export] Hint Extern 0 (keeps _ (get_record _ _)) => apply still_lookup_in : keeps.
#[export] Hint Extern 0 (keeps _ (get_namespace _)) => apply still_lookup_in : keeps.
#[export] Hint Extern 0 (keeps _ (get_job _ _)) => apply still_lookup_in : keeps.
#[export] Hint Extern 0 (keeps _ (get_pod _ _)) => apply still_lookup_in : keeps.
#[export] Hint Extern 0 (keeps _ (get_policy _ _)) => apply still_lookup_in : keeps.

Section lookups.
Context {L : Library} (e0 : Env).

Lemma still_AppNamespace tenant app : keeps (still e0) (AppNamespace tenant app).
Proof. unfold AppNamespace. walk_keeps. Qed.

Lemma still_sibling tenant own acc r : keeps (still e0) (sibling tenant own acc r).
Proof. unfold sibling. walk_keeps. Qed.

Lemma still_Reachable tenant app name : keeps (still e0) (Reachable tenant app name).
Proof.
  unfold Reachable. apply keeps_bind; [apply still_AppNamespace|]. intros own.
  apply keeps_bind; [walk_keeps|]. intros acc.
  apply keeps_bind; [auto with keeps|]. intros l. apply keeps_foldM.
  intros. apply still_sibling.
Qed.

Lemma still_ByHost host : keeps (still e0) (ByHost host).
Proof. unfold ByHost. walk_keeps. Qed.

Lemma still_Resolve r : keeps (still e0) (Resolve r).
Proof. unfold Resolve. walk_keeps. Qed.
End lookups.

#[export] Hint Resolve still_AppNamespace still_Reachable still_ByHost still_Resolve : keeps.

(** [m] read: it leaves the state [still]. *)
Lemma still_run {A} (m : PM A) e r e' :
  (∀ e0, keeps (still e0) m) → m e = (r, e') → still e e'.
Proof. intros H E. specialize (H e e). rewrite E in H. by apply H. Qed.

(** ** What a read returns *)

Section returns.
Context {L : Library} {LL : LibraryLaws L}.

Lemma call_ok what e e' : call what e = (Ok (), e') → cluster e' = cluster e.
Proof. intros H%still_run; [apply H|auto with keeps]. Qed.

Lemma lookup_in_ok {A} what (f : Cluster → option A) e a e' :
  lookup_in what f e = (Ok a, e') → f (cluster e) = Some a.
Proof.
  unfold lookup_in. intros ([] & e1 & H1 & (o & e2 & H2 & H3)%bind_inv_ok)%bind_inv_ok.
  injection H2 as <- <-. rewrite (call_ok _ _ _ H1) in H3.
  destruct (f (cluster e)); inversion H3. done.
Qed.

Lemma found_ok {A} (m : PM A) e a e' : found m e = (Ok (Some a), e') → m e = (Ok a, e').
Proof.
  unfold found. intros (r & e1 & H1 & H2)%bind_inv_ok. unfold attempt in H1.
  destruct (m e) as [r' e2]. injection H1 as <- <-.
  destruct r' as [a'|[]]; inversion H2; subst; done.
Qed.

Lemma found_none {A} what (f : Cluster → option A) e e' :
  found (lookup_in what f) e = (Ok None, e') → f (cluster e) = None.
Proof.
  unfold found, attempt, lookup_in. rewrite !bind_run.
  destruct (call what e) as [[[]|x] e1] eqn:E.
  - rewrite bind_run. cbn. rewrite (call_ok _ _ _ E). by destruct (f (cluster e)).
  - destruct x; try done. unfold call in E. rewrite bind_run in E. unfold pop_fault in E.
    destruct (next_outcome (faults e)). cbn in E. by case_decide.
Qed.

Lemma elem_of_matching f c r :
  r ∈ matching f c ↔ f r = true ∧ ∃ k, records c !! k = Some r.
Proof.
  unfold matching. rewrite list_elem_of_filter, list_elem_of_fmap.
  apply and_iff_compat_l. split.
  - intros ([k r'] & -> & H%elem_of_map_to_list). by exists k.
  - intros (k & H). exists (k, r). by rewrite elem_of_map_to_list.
Qed.

Lemma list_records_ok what f e l e' :
  list_records what f e = (Ok l, e') → l ≡ₚ matching f (cluster e).
Proof.
  intros ([] & e1 & H1 & H2)%bind_inv_ok. injection H2 as <- <-.
  rewrite (call_ok _ _ _ H1). apply arrange_perm.
Qed.

Lemma ByHost_ok host e r e' :
  ByHost host e = (Ok (Some r), e') →
  (∃ k, records (cluster e) !! k = Some r) ∧ Host (Status r) = host ∧ host ≠ "".
Proof.
  intros (l & e1 & H1%list_records_ok & H2)%bind_inv_ok. injection H2 as H2 _.
  destruct l as [|x l]; [done|]. injection H2 as ->.
  assert (Hr : r ∈ matching (λ r, bool_decide (host ∈ index_host r)) (cluster e)).
  { rewrite <-H1. left. }
  apply elem_of_matching in Hr as [Hh%bool_decide_eq_true ?]. split; [done|].
  unfold index_host in Hh. destruct (String.eqb_spec (Host (Status r)) ""); set_solver.
Qed.

(** The record's sandbox: the running job, and its pod. *)
Definition sandbox (c : Cluster) (r : PreviewAccess) (addr : string) : Prop :=
  ∃ j p, jobs c !! (Namespace r, JobRef (Spec r)) = Some j ∧ Phase j = "Running" ∧
    pods c !! (Namespace r, PodName j) = Some p ∧ PodIP p ≠ "" ∧
    label (pod_Labels p) labelJobUID = ej_UID j ∧
    addr = PodIP p +:+ ":" +:+ pretty (Port (Spec r)).

Lemma Resolve_ok r e addr e' :
  Resolve r e = (Ok (Some addr), e') → IsReady r = true ∧ sandbox (cluster e) r addr.
Proof.
  unfold Resolve. destruct (IsReady r); simpl; [|done].
  intros (j & e1 & H1 & H2)%bind_inv_ok. split; [done|].
  destruct j as [j|]; [|done]. apply found_ok in H1.
  assert (Hc : cluster e1 = cluster e).
  { eapply still_run in H1; [apply H1|auto with keeps]. }
  apply lookup_in_ok in H1.
  destruct (String.eqb_spec (Phase j) "Running"), (String.eqb (PodName j) ""); try done.
  simpl in H2. apply bind_inv_ok in H2 as (p & e2 & H2 & H3).
  destruct p as [p|]; [|done]. apply found_ok, lookup_in_ok in H2. rewrite Hc in H2.
  destruct (String.eqb_spec (PodIP p) ""); [done|].
  destruct (String.eqb_spec (label (pod_Labels p) labelJobUID) (ej_UID j)); [|done].
  injection H3 as <- _. exists j, p. done.
Qed.
End returns.

(** ** Runs in which no call fails *)

Section quiet.
Context {L : Library} {LL : LibraryLaws L}.
Implicit Types e : Env.

Lemma read_quiet what e : faults e = [] → call what e = (Ok (), e).
Proof. intros H. destruct e; cbn in *; subst. reflexivity. Qed.

Lemma lookup_quiet {A} what (f : Cluster → option A) e :
  faults e = [] → found (lookup_in what f) e = (Ok (f (cluster e)), e).
Proof.
  intros H. unfold found, attempt, lookup_in. rewrite !bind_run, (read_quiet _ _ H).
  rewrite bind_run. cbn. by destruct (f (cluster e)).
Qed.

Lemma write_quiet what f e :
  faults e = [] → write what f e = (Ok (), set_cluster (f (cluster e)) e).
Proof. intros H. destruct e; cbn in *; subst. reflexivity. Qed.

Lemma list_quiet what f e :
  faults e = [] →
  list_records what f e =
    (Ok (arrange (nlists e) (matching f (cluster e))), set_nlists (S (nlists e)) e).
Proof. intros H. unfold list_records. by rewrite bind_run, (read_quiet _ _ H). Qed.
End quiet.

(** ** Ranking the records of a target *)

(** Every object is stored under its own name. *)
Definition keyed (c : Cluster) : Prop :=
  ∀ k r, records c !! k = Some r → k = (Namespace r, Name r).

(** No record of the same job and port in the namespace is older, or as old with a
    lesser name. *)
Definition leads (c : Cluster) (r : PreviewAccess) : Prop :=
  ∀ k x, records c !! k = Some x → Namespace x = Namespace r →
    JobRef (Spec x) = JobRef (Spec r) → Port (Spec x) = Port (Spec r) → rank_le r x.

(** Decimal numbers hold no slash, so a target key determines job and port. *)
Definition no_slash (s : string) : Prop := all_chars (λ c, negb (Ascii.eqb c "/"%char)) s = true.

Lemma slash_split a b p q :
  no_slash p → no_slash q → a +:+ "/" +:+ p = b +:+ "/" +:+ q → a = b ∧ p = q.
Proof.
  assert (Hno : ∀ x y, no_slash (x +:+ "/" +:+ y) → False).
  { induction x as [|c x IH]; intros y; unfold no_slash;
      rewrite ?str_app_nil_l, ?str_app_cons; simpl; [done|].
    intros [_ H]%andb_true_iff. by apply (IH y). }
  intros Hp Hq. revert b.
  induction a as [|c a IH]; intros [|c' b]; rewrite ?str_app_cons, ?str_app_nil_l, ?str_app_cons, ?str_app_nil_l;
    intros H.
  - split; [done|]. by injection H.
  - injection H as <- H. exfalso. rewrite H in Hp. by apply Hno in Hp.
  - injection H as -> H. exfalso. rewrite <-H in Hq. by apply Hno in Hq.
  - injection H as <- H. destruct (IH b H) as [-> ->]. done.
Qed.

Lemma pretty_no_slash (z : Z) : no_slash (pretty z).
Proof.
  assert (Hgo : ∀ x s, no_slash s → no_slash (pretty_N_go x s)).
  { intros x. induction (N.lt_wf_0 x) as [x _ IH]. intros s Hs.
    destruct (decide (0 < x)%N) as [Hx|Hx].
    - rewrite (pretty_N_go_step x s Hx). apply IH; [apply N.div_lt; lia|].
      unfold no_slash in *. simpl. rewrite Hs, andb_true_r.
      assert (Hd : (x `mod` 10 < 10)%N) by (apply N.mod_lt; lia).
      unfold pretty_N_char. by repeat case_match.
    - replace x with 0%N by lia. by rewrite pretty_N_go_0. }
  assert (HN : ∀ n : N, no_slash (pretty n)).
  { intros n. unfold pretty, pretty_N. case_decide; [done|]. by apply Hgo. }
  destruct z as [|p|p]; [apply (HN 0%N)|apply (HN (N.pos p))|].
  pose proof (HN (N.pos p)) as H. unfold no_slash in *. exact H.
Qed.

Lemma TargetKey_inj j1 p1 j2 p2 : TargetKey j1 p1 = TargetKey j2 p2 → j1 = j2 ∧ p1 = p2.
Proof.
  intros [-> H]%slash_split; [|apply pretty_no_slash..]. by apply (inj _) in H.
Qed.

Section ranking.
Context {L : Library} {LL : LibraryLaws L}.

#[export] Instance rank_le_total : Total rank_le.
Proof.
  intros x y. unfold rank_le.
  destruct (Z.lt_trichotomy (CreationTimestamp x) (CreationTimestamp y)) as [?|[?|?]]; [tauto| |tauto].
  destruct (total String.le (Name x) (Name y)); [left|right]; right; split; congruence.
Qed.

#[export] Instance rank_le_trans : Transitive rank_le.
Proof.
  intros x y z. unfold rank_le.
  intros [?|[? Hxy]] [?|[? Hyz]]; [left; lia|left; lia|left; lia|].
  right. split; [congruence|]. by transitivity (Name y).
Qed.

Lemma rank_le_name x y : rank_le x y → rank_le y x → Name x = Name y.
Proof.
  unfold rank_le. intros [?|[? H1]] [?|[? H2]]; try lia. by apply (anti_symm String.le).
Qed.

Lemma elem_of_same_target c r x :
  x ∈ matching (same_target (Namespace r) (TargetKey (JobRef (Spec r)) (Port (Spec r)))) c ↔
  Namespace x = Namespace r ∧ JobRef (Spec x) = JobRef (Spec r) ∧ Port (Spec x) = Port (Spec r) ∧
  ∃ k, records c !! k = Some x.
Proof.
  rewrite elem_of_matching. unfold same_target, index_target.
  rewrite andb_true_iff, String.eqb_eq, bool_decide_eq_true, list_elem_of_singleton.
  split.
  - intros [[? [? ?]%TargetKey_inj] ?]. done.
  - intros (? & -> & -> & ?). done.
Qed.

(** The head of the sorted list, whatever order the list came back in. *)
Lemma owner_leads c r l :
  keyed c → (∃ k, records c !! k = Some r) →
  l ≡ₚ matching (same_target (Namespace r) (TargetKey (JobRef (Spec r)) (Port (Spec r)))) c →
  ∃ x rest, merge_sort rank_le l = x :: rest ∧ (Name x = Name r ↔ leads c r).
Proof.
  intros Hk [k Hr] Hl. pose proof (merge_sort_Permutation rank_le l) as Hp.
  assert (Hin : ∀ x, x ∈ merge_sort rank_le l ↔ Namespace x = Namespace r ∧
    JobRef (Spec x) = JobRef (Spec r) ∧ Port (Spec x) = Port (Spec r) ∧ ∃ k, records c !! k = Some x).
  { intros x. by rewrite Hp, Hl, elem_of_same_target. }
  pose proof (StronglySorted_merge_sort rank_le l) as Hs.
  destruct (merge_sort rank_le l) as [|x rest].
  { exfalso. apply (not_elem_of_nil r), Hin. eauto. }
  exists x, rest. split; [done|]. apply StronglySorted_inv in Hs as [_ Hx].
  assert (Hmin : ∀ y, y ∈ x :: rest → rank_le x y).
  { intros y [->|Hy]%elem_of_cons; [by destruct (total rank_le x x)|].
    rewrite Forall_forall in Hx. by apply Hx. }
  destruct (proj1 (Hin x) ltac:(left)) as (Hxn & Hxj & Hxp & kx & Hkx). split.
  - intros Hname. assert (x = r) as ->.
    { pose proof (Hk _ _ Hkx). pose proof (Hk _ _ Hr). congruence. }
    intros k' y Hy ???. apply Hmin, Hin. eauto.
  - intros Hlead. apply rank_le_name; [apply Hmin, Hin; eauto|]. by apply (Hlead kx).
Qed.
End ranking.

(** ** Reconciling *)

Section reconcile.
Context {L : Library} {LL : LibraryLaws L} (c : Reconciler).
Implicit Types e : Env.

Definition policy_key (r : PreviewAccess) : string * string :=
  (Namespace r, Name r +:+ "-preview").

(** What a pass has to leave for record [r], judged on the cluster [c0]. *)
Definition settled (c0 : Cluster) (r : PreviewAccess) (c' : Cluster) : Prop :=
  (∃ r', records c' !! (Namespace r, Name r) = Some r' ∧ with_status (Status r) r' = r ∧
     (IsReady r' = true ↔ leads c0 r) ∧
     (leads c0 r → Host (Status r') = HostFor (UID r) (Domain c))) ∧
  (RenderPolicies c = true →
     match policies c' !! policy_key r with
     | Some p => leads c0 r ∧
         ∃ j, jobs c0 !! (Namespace r, JobRef (Spec r)) = Some j ∧
           pol_Spec p = pol_Spec (want_policy c r j)
     | None => leads c0 r → jobs c0 !! (Namespace r, JobRef (Spec r)) = None
     end).

(** The clusters differ in the status of the record at [k] and its policy only. *)
Definition touches (k : string * string) (c0 c' : Cluster) : Prop :=
  jobs c' = jobs c0 ∧
  (∀ k', k' ≠ k → records c' !! k' = records c0 !! k') ∧
  (∀ k' n, k' ≠ k → k'.2 +:+ "-preview" = n → policies c' !! (k'.1, n) = policies c0 !! (k'.1, n)).

Lemma targetOwner_quiet r e :
  faults e = [] → keyed (cluster e) → (∃ k, records (cluster e) !! k = Some r) →
  ∃ w e', targetOwner r e = (Ok w, e') ∧ faults e' = [] ∧ cluster e' = cluster e ∧
    (w = Name r ↔ leads (cluster e) r).
Proof.
  intros Hq Hk Hr. unfold targetOwner. rewrite bind_run, (list_quiet _ _ _ Hq).
  destruct (owner_leads _ r (arrange (nlists e) (matching _ (cluster e))) Hk Hr (arrange_perm _ _))
    as (x & rest & -> & H).
  by eexists (Name x), _.
Qed.

Lemma reconcileIngress_quiet r serving e :
  faults e = [] →
  let P := policies (cluster e) in
  ∃ e' P', reconcileIngress c r serving e = (Ok (), e') ∧ faults e' = [] ∧
    cluster e' = set_policies P' (cluster e) ∧
    (∀ k, k ≠ policy_key r → P' !! k = P !! k) ∧
    match P' !! policy_key r with
    | Some p => serving = true ∧ ∃ j, jobs (cluster e) !! (Namespace r, JobRef (Spec r)) = Some j ∧
        pol_Spec p = pol_Spec (want_policy c r j)
    | None => serving = true → jobs (cluster e) !! (Namespace r, JobRef (Spec r)) = None
    end.
Proof.
  intros Hq P. unfold reconcileIngress.
  rewrite bind_run. unfold get_job. rewrite (lookup_quiet _ _ _ Hq).
  assert (Hdel : ∃ e' P', write (Name r +:+ "-preview") (λ cl, set_policies (delete (policy_key r) (policies cl)) cl) e
    = (Ok (), e') ∧ faults e' = [] ∧ cluster e' = set_policies P' (cluster e) ∧
    (∀ k, k ≠ policy_key r → P' !! k = P !! k) ∧ P' !! policy_key r = None).
  { rewrite (write_quiet _ _ _ Hq). eexists _, _. split_and!; [done|done|done| |apply lookup_delete_eq].
    intros k Hk. by rewrite lookup_delete_ne. }
  destruct Hdel as (e1 & P1 & Hw & Hq1 & Hc1 & Hf1 & Hn1).
  destruct (jobs (cluster e) !! _) as [j|] eqn:Ej; [destruct serving|].
  - rewrite bind_run. unfold get_policy. rewrite (lookup_quiet _ _ _ Hq). cbn [fst snd].
    set (put := write _ _). fold P.
    assert (Hput : ∃ e' P', put e = (Ok (), e') ∧ faults e' = [] ∧
      cluster e' = set_policies P' (cluster e) ∧ (∀ k, k ≠ policy_key r → P' !! k = P !! k) ∧
      P' !! policy_key r = Some (want_policy c r j)).
    { unfold put. rewrite (write_quiet _ _ _ Hq). eexists _, _.
      split_and!; [done|done|done| |apply lookup_insert_eq].
      intros k Hk. by rewrite lookup_insert_ne. }
    destruct Hput as (e2 & P2 & Hp & Hq2 & Hc2 & Hf2 & Hs2).
    change (Namespace r, Name r +:+ "-preview") with (policy_key r).
    destruct (P !! policy_key r) as [got|] eqn:Eg; [case_decide as Hs|].
    + exists e, P. rewrite Eg. split_and!; [done|done|by destruct (cluster e)|done|done|]. eauto.
    + exists e2, P2. rewrite Hs2. split_and!; eauto.
    + exists e2, P2. rewrite Hs2. split_and!; eauto.
  - exists e1, P1. rewrite Hn1. split_and!; try done.
  - exists e1, P1. rewrite Hn1. split_and!; try done.
Qed.

Lemma want_status_ready r w :
  let st := want_status c r w in
  (match Ready st with Some x => cd_Status x | None => false end = true ↔ w = Name r) ∧
  (w = Name r → Host st = HostFor (UID r) (Domain c)).
Proof. unfold want_status. destruct (String.eqb_spec w (Name r)); cbn; naive_solver. Qed.

Lemma ingress_step_quiet r w e :
  faults e = [] →
  ∃ e' P', (if RenderPolicies c then reconcileIngress c r (String.eqb w (Name r)) else mret ()) e
      = (Ok (), e') ∧ faults e' = [] ∧ cluster e' = set_policies P' (cluster e) ∧
    (∀ x, x ≠ policy_key r → P' !! x = policies (cluster e) !! x) ∧
    (RenderPolicies c = true →
     match P' !! policy_key r with
     | Some p => w = Name r ∧ ∃ j, jobs (cluster e) !! (Namespace r, JobRef (Spec r)) = Some j ∧
        pol_Spec p = pol_Spec (want_policy c r j)
     | None => w = Name r → jobs (cluster e) !! (Namespace r, JobRef (Spec r)) = None
     end).
Proof.
  intros Hq. destruct (RenderPolicies c).
  - destruct (reconcileIngress_quiet r (String.eqb w (Name r)) e Hq) as (e2 & P' & H1 & H2 & H3 & H4 & H5).
    exists e2, P'. split_and!; [done..|]. intros _.
    destruct (String.eqb_spec w (Name r)), (P' !! policy_key r); naive_solver.
  - exists e, (policies (cluster e)). split_and!; [done|done|by destruct (cluster e)|done|done].
Qed.

Lemma status_step_quiet r want ns name e :
  faults e = [] → records (cluster e) !! (ns, name) = Some r →
  ∃ e', (if decide (Status r = want) then mret ()
         else write name (λ cl, set_records (alter (with_status want) (ns, name) (records cl)) cl)) e
      = (Ok (), e') ∧ faults e' = [] ∧
    cluster e' = set_records (alter (with_status want) (ns, name) (records (cluster e))) (cluster e).
Proof.
  intros Hq Er. case_decide as Hs.
  - exists e. split_and!; [done..|]. replace (alter _ _ _) with (records (cluster e)); [by destruct (cluster e)|].
    apply map_eq. intros x. destruct (decide (x = (ns, name))) as [->|]; [|by rewrite lookup_alter_ne].
    rewrite lookup_alter_eq, Er. cbn. rewrite <-Hs. by destruct r.
  - rewrite (write_quiet _ _ _ Hq). by eexists.
Qed.

Lemma Reconcile_quiet ns name e :
  faults e = [] → keyed (cluster e) →
  ∃ e', Reconcile c ns name e = (Ok (), e') ∧ faults e' = [] ∧
    touches (ns, name) (cluster e) (cluster e') ∧
    (∀ r, records (cluster e) !! (ns, name) = Some r →
       ∃ st, records (cluster e') !! (ns, name) = Some (with_status st r)) ∧
    (records (cluster e) !! (ns, name) = None → records (cluster e') !! (ns, name) = None) ∧
    (∀ r, records (cluster e) !! (ns, name) = Some r → Deleting r = false →
       settled (cluster e) r (cluster e')).
Proof.
  intros Hq Hk. unfold Reconcile. rewrite bind_run. unfold get_record.
  rewrite (lookup_quiet _ _ _ Hq).
  destruct (records (cluster e) !! (ns, name)) as [r|] eqn:Er.
  2: { exists e. split_and!; [done..| |done|]; intros ? [=]. }
  pose proof (Hk _ _ Er) as Hkr.
  destruct (Deleting r) eqn:Ed.
  { exists e. split_and!; [done..| |done|]; intros ? [= <-]; [|congruence].
    exists (Status r). by destruct r. }
  destruct (targetOwner_quiet r e Hq Hk (ex_intro _ _ Er)) as (w & e1 & Ht & Hq1 & Hc1 & Hlead).
  rewrite bind_run, Ht. cbv zeta. rewrite <-Hc1 in *. clear Hc1.
  destruct (ingress_step_quiet r w e1 Hq1) as (e2 & P' & Hrun & Hq2 & Hc2 & HP & Hpol).
  rewrite bind_run, Hrun. pose proof (want_status_ready r w) as [Hready Hhost].
  destruct (status_step_quiet r (want_status c r w) ns name e2 Hq2) as (e3 & -> & Hq3 & Hc3).
  { by rewrite Hc2. }
  rewrite Hc2 in Hc3. exists e3. rewrite Hc3. cbn.
  split_and!; [done|done| | | |].
  - split_and!; [done|intros k' ?; by apply lookup_alter_ne|].
    intros [n1 n2] n Hk' <-. apply HP. unfold policy_key. cbn.
    intros [= -> H%str_app_inj_r]. apply Hk'. by rewrite Hkr, H.
  - intros ? [= <-]. rewrite lookup_alter_eq, Er. eauto.
  - done.
  - intros ? [= <-] _. unfold settled. cbn. rewrite <-Hkr, lookup_alter_eq, Er. split.
    + eexists. split; [done|]. split; [by destruct r|]. unfold IsReady. cbn. naive_solver.
    + intros HR. specialize (Hpol HR). destruct (P' !! policy_key r); naive_solver.
Qed.

(** The clusters agree up to statuses and policies. *)
Definition like (c0 c1 : Cluster) : Prop :=
  jobs c1 = jobs c0 ∧
  (∀ k r, records c0 !! k = Some r → ∃ st, records c1 !! k = Some (with_status st r)) ∧
  (∀ k, records c0 !! k = None → records c1 !! k = None).

Lemma like_trans c0 c1 c2 : like c0 c1 → like c1 c2 → like c0 c2.
Proof.
  intros (? & H1 & H2) (? & H3 & H4). split_and!; [congruence| |naive_solver].
  intros k r [st Hr]%H1. destruct (H3 _ _ Hr) as [st' ?]. by exists st'.
Qed.

Lemma like_inv c0 c1 k x :
  like c0 c1 → records c1 !! k = Some x → ∃ r st, records c0 !! k = Some r ∧ x = with_status st r.
Proof.
  intros (_ & H1 & H2) Hx. destruct (records c0 !! k) as [r|] eqn:E.
  - destruct (H1 _ _ E) as [st ?]. exists r, st. split; congruence.
  - rewrite (H2 _ E) in Hx. done.
Qed.

Lemma leads_like c0 c1 r st : like c0 c1 → leads c1 (with_status st r) ↔ leads c0 r.
Proof.
  intros Hl. split.
  - intros H k x Hx ???. destruct (proj1 (proj2 Hl) _ _ Hx) as [st' Hx'].
    exact (H k _ Hx' ltac:(done) ltac:(done) ltac:(done)).
  - intros H k x Hx. destruct (like_inv _ _ _ _ Hl Hx) as (x0 & st' & Hx0 & ->).
    intros ???. exact (H k _ Hx0 ltac:(done) ltac:(done) ltac:(done)).
Qed.

Lemma keyed_like c0 c1 : like c0 c1 → keyed c0 → keyed c1.
Proof. intros Hl Hk k x Hx. by destruct (like_inv _ _ _ _ Hl Hx) as (? & ? & ?%Hk & ->). Qed.

Lemma settled_like c0 c1 r st c' :
  like c0 c1 → settled c1 (with_status st r) c' → settled c0 r c'.
Proof.
  intros Hl [(r' & H1 & H2 & H3 & H4) H5]. pose proof (leads_like _ _ r st Hl) as Hlead.
  split.
  - exists r'. split_and!; [done| |by rewrite H3|by rewrite <-Hlead].
    destruct r', r. unfold with_status in *. cbn in *. congruence.
  - intros HR. specialize (H5 HR). change (policy_key (with_status st r)) with (policy_key r) in H5.
    rewrite <-(proj1 Hl). destruct (policies c' !! policy_key r); by rewrite <-Hlead.
Qed.

Lemma settled_touches c0 k r c1 c2 :
  touches k c1 c2 → (Namespace r, Name r) ≠ k → settled c0 r c1 → settled c0 r c2.
Proof.
  intros (_ & Hr & Hp) Hk. unfold settled, policy_key.
  pose proof (Hp (Namespace r, Name r) _ Hk eq_refl) as E. cbn [fst snd] in E.
  by rewrite (Hr _ Hk), E.
Qed.

Lemma reconcile_all_settled l e :
  faults e = [] → keyed (cluster e) →
  ∃ e', forM l (λ k, Reconcile c k.1 k.2) e = (Ok (), e') ∧ faults e' = [] ∧
    like (cluster e) (cluster e') ∧
    (∀ c0 r, (Namespace r, Name r) ∉ l → settled c0 r (cluster e) → settled c0 r (cluster e')) ∧
    (∀ k r, records (cluster e) !! k = Some r → k ∈ l → Deleting r = false →
       settled (cluster e) r (cluster e')).
Proof.
  revert e. induction l as [|[ns name] l IH]; intros e Hq Hk.
  { exists e. split_and!; [done..| | |]; [|done|set_solver].
    split_and!; [done| |done]. intros k r Hr. exists (Status r). by destruct r. }
  destruct (Reconcile_quiet ns name e Hq Hk) as (e1 & H1 & Hq1 & Ht1 & Hs1 & Hn1 & Hset1).
  assert (Hl1 : like (cluster e) (cluster e1)).
  { destruct Ht1 as (Hj & Hr & _). split_and!; [done| |].
    - intros k r Hkr. destruct (decide (k = (ns, name))) as [->|Hne]; [by apply Hs1|].
      exists (Status r). rewrite (Hr _ Hne), Hkr. by destruct r.
    - intros k Hkn. destruct (decide (k = (ns, name))) as [->|Hne]; [by apply Hn1|].
      by rewrite (Hr _ Hne). }
  destruct (IH e1 Hq1 (keyed_like _ _ Hl1 Hk)) as (e' & H2 & Hq2 & Hl2 & Hf2 & Hset2).
  exists e'. simpl. rewrite bind_run, H1. split_and!; [done|done|by eapply like_trans| |].
  - intros c0 r [Hne Hni]%not_elem_of_cons Hs. apply Hf2; [done|]. by eapply settled_touches.
  - intros k r Hkr Hin Hd. destruct (decide (k ∈ l)) as [Hin'|Hni].
    + destruct (proj1 (proj2 Hl1) _ _ Hkr) as [st Hkr'].
      eapply settled_like; [done|]. by apply (Hset2 k).
    + apply elem_of_cons in Hin as [->|?]; [|done]. pose proof (Hk _ _ Hkr) as E.
      apply Hf2; [by rewrite <-E|]. by apply Hset1.
Qed.
End reconcile.

(** C19: one record serves each target. Let no call fail, and let every record be
    reconciled once, in any order and whatever order the cache lists them in. Then
    every reconcile succeeds, and a record is Ready exactly when no record of the
    same job and port in its namespace is older, or as old with a lesser name; its
    host is then the one derived from its UID; no two records of one target are
    both Ready; and, where policies are rendered, the policy that opens the sandbox's
    port exists exactly for a Ready record whose job exists, and selects that job's
    pod, that port and this service's pods only. *)
Theorem reconcile_converges {L : Library} {LL : LibraryLaws L} (c : Reconciler)
    (l : list (string * string)) (e : Env) :
  faults e = [] → keyed (cluster e) →
  let c0 := cluster e in
  ∃ e', forM l (λ k, Reconcile c k.1 k.2) e = (Ok (), e') ∧
  (∀ k r, records c0 !! k = Some r → k ∈ l → Deleting r = false →
     settled c c0 r (cluster e')) ∧
  (∀ k1 k2 r1 r2, k1 ∈ l → k2 ∈ l → records c0 !! k1 = Some r1 → records c0 !! k2 = Some r2 →
     Deleting r1 = false → Deleting r2 = false →
     Namespace r1 = Namespace r2 → JobRef (Spec r1) = JobRef (Spec r2) →
     Port (Spec r1) = Port (Spec r2) →
     ∀ r1' r2', records (cluster e') !! k1 = Some r1' → records (cluster e') !! k2 = Some r2' →
     IsReady r1' = true → IsReady r2' = true → k1 = k2).
Proof.
  intros Hq Hk c0. destruct (reconcile_all_settled c l e Hq Hk) as (e' & H & _ & _ & _ & Hs).
  exists e'. split_and!; [done|done|].
  intros k1 k2 r1 r2 Hi1 Hi2 H1 H2 D1 D2 Hn Hj Hp r1' r2' E1 E2 R1 R2.
  assert (Hlead : ∀ k r r', records c0 !! k = Some r → k ∈ l → Deleting r = false →
    records (cluster e') !! k = Some r' → IsReady r' = true → leads c0 r).
  { intros k r r' Hr Hin Hd Hr' HR. destruct (Hs k r Hr Hin Hd) as [(x & Hx & _ & HL & _) _].
    rewrite <-(Hk _ _ Hr), Hr' in Hx. injection Hx as <-. by apply HL. }
  pose proof (Hlead _ _ _ H1 Hi1 D1 E1 R1) as L1. pose proof (Hlead _ _ _ H2 Hi2 D2 E2 R2) as L2.
  rewrite (Hk _ _ H1), (Hk _ _ H2), Hn. f_equal.
  apply rank_le_name; [by apply (L1 k2)|by apply (L2 k1)].
Qed.

(** ** Who reaches which record under which name *)

Lemma slash_split_l a b p q :
  no_slash a → no_slash b → a +:+ "/" +:+ p = b +:+ "/" +:+ q → a = b ∧ p = q.
Proof.
  revert b. induction a as [|x a IH]; intros [|y b]; unfold no_slash;
    rewrite ?str_app_cons, ?str_app_nil_l, ?str_app_cons, ?str_app_nil_l; cbn; intros Ha Hb H.
  - split; [done|]. by injection H.
  - injection H as <- _. done.
  - injection H as -> _. done.
  - injection H as <- H. apply andb_true_iff in Ha as [_ Ha], Hb as [_ Hb].
    by destruct (IH b Ha Hb H) as [-> ->].
Qed.

(** The application [app] of [tenant] may embed [r] under the name [name]: [r] is in
    the application's namespace, or in one of the tenant's and names it. *)
Definition reaches (c : Cluster) (tenant app name : string) (r : PreviewAccess) : Prop :=
  (∃ k, records c !! k = Some r) ∧ Name r = name ∧
  ∃ n, namespaces c !! Namespace r = Some n ∧
    (Labels n !! LabelTenant = Some tenant ∧ Labels n !! LabelApp = Some app ∨
     app ∈ EmbeddableBy (Spec r) ∧ label (Labels n) LabelTenant = tenant).

(** What the API server guarantees of stored objects: a name per object, namespaces
    that have one, and application ids without a slash. *)
Definition well_formed (c : Cluster) : Prop :=
  keyed c ∧ namespaces c !! "" = None ∧
  (∀ k r app, records c !! k = Some r → app ∈ EmbeddableBy (Spec r) → no_slash app).

Section reachable.
Context {L : Library} {LL : LibraryLaws L}.
Implicit Types e : Env.

Lemma AppNamespace_ok tenant app e own e' :
  namespaces (cluster e) !! "" = None →
  AppNamespace tenant app e = (Ok own, e') →
  ∀ x, (∃ n, namespaces (cluster e) !! x = Some n ∧ Labels n !! LabelTenant = Some tenant ∧
         Labels n !! LabelApp = Some app) ↔ x = own ∧ own ≠ "".
Proof.
  intros Hno ([] & e1 & H1 & (l & e2 & H2 & H3)%bind_inv_ok)%bind_inv_ok x.
  injection H2 as <- <-. rewrite (call_ok _ _ _ H1) in H3.
  assert (Hl : ∀ x, x ∈ app_namespaces (cluster e) tenant app ↔
    ∃ n, namespaces (cluster e) !! x = Some n ∧ Labels n !! LabelTenant = Some tenant ∧
         Labels n !! LabelApp = Some app).
  { intros y. unfold app_namespaces. rewrite list_elem_of_fmap. split.
    - intros ([y' n] & -> & (Hc & Hin%elem_of_map_to_list)%list_elem_of_filter). by exists n.
    - intros (n & Hn & Hc). exists (y, n). split; [done|].
      rewrite list_elem_of_filter, elem_of_map_to_list. done. }
  rewrite <-Hl. destruct (app_namespaces (cluster e) tenant app) as [|z [|? ?]] eqn:E; [| |done].
  - injection H3 as <- _. set_solver.
  - injection H3 as <- _. rewrite list_elem_of_singleton. split; [intros ->|naive_solver].
    split; [done|]. intros ->. destruct (proj1 (Hl "")) as (n & Hn & _); [left|]. congruence.
Qed.

Lemma siblings_ok tenant own l acc e l' e' :
  foldM (sibling tenant own) l acc e = (Ok l', e') →
  ∃ l1, l' = (acc ++ l1)%list ∧ l1 `sublist_of` l ∧
    ∀ r, r ∈ l1 ↔ r ∈ l ∧ Namespace r ≠ own ∧
      ∃ n, namespaces (cluster e) !! Namespace r = Some n ∧ label (Labels n) LabelTenant = tenant.
Proof.
  revert acc e. induction l as [|r l IH]; intros acc e; simpl.
  { intros [= <- <-]. exists []. rewrite app_nil_r. split_and!; [done|done|set_solver]. }
  intros (acc' & e1 & H1 & H2)%bind_inv_ok.
  assert (Hc : cluster e1 = cluster e).
  { eapply still_run in H1; [apply H1|]. intros. apply still_sibling. }
  apply IH in H2 as (l1 & -> & Hsub & Hl1). rewrite Hc in Hl1.
  assert (Hhd : ∃ l0, acc' = (acc ++ l0)%list ∧ l0 `sublist_of` [r] ∧
    ∀ x, x ∈ l0 ↔ x = r ∧ Namespace x ≠ own ∧
      ∃ n, namespaces (cluster e) !! Namespace x = Some n ∧ label (Labels n) LabelTenant = tenant).
  { unfold sibling in H1. destruct (String.eqb_spec (Namespace r) own) as [Heq|Hne].
    { injection H1 as <- <-. exists []. rewrite app_nil_r. split_and!; [done|apply sublist_nil_l|set_solver]. }
    apply bind_inv_ok in H1 as ([n|] & e2 & H1 & H3).
    - apply found_ok, lookup_in_ok in H1.
      destruct (String.eqb_spec (label (Labels n) LabelTenant) tenant); injection H3 as <- _.
      + exists [r]. split_and!; [done|done|set_solver].
      + exists []. rewrite app_nil_r. split_and!; [done|apply sublist_nil_l|]. set_solver.
    - injection H3 as <- _. exists []. rewrite app_nil_r.
      split_and!; [done|apply sublist_nil_l|].
      apply found_none in H1. set_solver. }
  destruct Hhd as (l0 & -> & Hs0 & Hl0). exists (l0 ++ l1)%list. rewrite app_assoc.
  split_and!; [done|by apply (sublist_app l0 [r])|].
  intros x. rewrite elem_of_app, Hl0, Hl1, elem_of_cons. tauto.
Qed.
Lemma elem_of_embeddable c app name r :
  well_formed c → no_slash app →
  r ∈ matching (λ r, bool_decide (EmbedKey app name ∈ index_embeddableBy r)) c ↔
  (∃ k, records c !! k = Some r) ∧ Name r = name ∧ app ∈ EmbeddableBy (Spec r).
Proof.
  intros (_ & _ & Hs) Happ. rewrite elem_of_matching, bool_decide_eq_true.
  unfold index_embeddableBy. rewrite list_elem_of_fmap. split.
  - intros [(a & Hkey & Ha) [k Hr]]. apply slash_split_l in Hkey as [<- <-]; [eauto|done|eauto].
  - intros (Hr & <- & Ha). eauto.
Qed.

Lemma NoDup_matching f c : keyed c → NoDup (matching f c).
Proof.
  intros Hk. apply NoDup_filter, NoDup_fmap_2_strong; [|apply NoDup_map_to_list].
  intros [k1 r1] [k2 r2] H1%elem_of_map_to_list H2%elem_of_map_to_list [=->].
  by rewrite (Hk _ _ H1), (Hk _ _ H2).
Qed.

Lemma own_ok own name e acc e' :
  keyed (cluster e) →
  (if String.eqb own "" then mret []
   else r ← found (get_record own name);
        mret (match r with Some r => [r] | None => [] end)) e = (Ok acc, e') →
  cluster e' = cluster e ∧ NoDup acc ∧
  ∀ r, r ∈ acc ↔ own ≠ "" ∧ Namespace r = own ∧ Name r = name ∧ ∃ k, records (cluster e) !! k = Some r.
Proof.
  intros Hk. destruct (String.eqb_spec own "") as [Heq|Hne].
  { intros [= <- <-]. split_and!; [done|constructor|set_solver]. }
  intros (o & e1 & H1 & [= <- <-])%bind_inv_ok. split.
  { eapply still_run in H1; [apply H1|auto with keeps]. }
  destruct o as [r|].
  - apply found_ok, lookup_in_ok in H1. pose proof (Hk _ _ H1) as [= E1 E2].
    split; [apply NoDup_singleton|]. intros x. rewrite list_elem_of_singleton. split.
    + intros ->. eauto.
    + intros (_ & Hn1 & Hn2 & k & Hx). pose proof (Hk _ _ Hx). subst. congruence.
  - apply found_none in H1. split; [constructor|]. intros x. split; [set_solver|].
    intros (_ & Hn1 & Hn2 & k & Hx). pose proof (Hk _ _ Hx). congruence.
Qed.

Lemma Reachable_ok tenant app name e l e' :
  well_formed (cluster e) → no_slash app →
  Reachable tenant app name e = (Ok l, e') →
  NoDup l ∧ ∀ r, r ∈ l ↔ reaches (cluster e) tenant app name r.
Proof.
  intros Hwf Happ. pose proof Hwf as (Hk & Hno & _).
  intros (own & e1 & H1 & (acc & e2 & H2 & (m & e3 & H3 & H4)%bind_inv_ok)%bind_inv_ok)%bind_inv_ok.
  assert (Hc1 : cluster e1 = cluster e).
  { eapply still_run in H1; [apply H1|auto with keeps]. }
  pose proof (AppNamespace_ok _ _ _ _ _ Hno H1) as Hown.
  rewrite <-Hc1 in *. apply own_ok in H2 as (Hc2 & Hnd & Hacc); [|done].
  assert (Hc3 : cluster e3 = cluster e2).
  { eapply still_run in H3; [apply H3|auto with keeps]. }
  apply list_records_ok in H3. rewrite Hc2 in *.
  apply siblings_ok in H4 as (l1 & -> & Hsub & Hl1). rewrite Hc3 in Hl1. split.
  - apply NoDup_app. split_and!; [done| |].
    + intros r [_ [Hn _]]%Hacc Hr%Hl1. naive_solver.
    + eapply sublist_NoDup; [|done]. rewrite H3. by apply NoDup_matching.
  - intros r. rewrite elem_of_app, Hacc, Hl1, H3, elem_of_embeddable by done.
    unfold reaches. split.
    + intros [(Ho & Hn & Hname & Hr)|((Hr & Hname & Hin) & _ & n & Hn & Ht)].
      * destruct (proj2 (Hown (Namespace r))) as (n & Hn' & ? & ?); [done|]. eauto 10.
      * eauto 10.
    + intros (Hr & Hname & n & Hn & [[Ht Ha]|[Hin Ht]]).
      * destruct (proj1 (Hown (Namespace r))) as [? ?]; [by eauto|]. left. naive_solver.
      * destruct (decide (Namespace r = own)) as [Heq|Hne]; [|right; eauto 10].
        left. split_and!; try done. intros ->. congruence.
Qed.
End reachable.

(** ** Admission *)

(** No application finds two records under one name. *)
Definition unambiguous (c : Cluster) : Prop :=
  ∀ tenant app name r1 r2, tenant ≠ "" → app ≠ "" → no_slash app →
    reaches c tenant app name r1 → reaches c tenant app name r2 → r1 = r2.

(** No two records name one job and port. *)
Definition one_per_target (c : Cluster) : Prop :=
  ∀ k1 k2 r1 r2, records c !! k1 = Some r1 → records c !! k2 = Some r2 →
    Namespace r1 = Namespace r2 → JobRef (Spec r1) = JobRef (Spec r2) →
    Port (Spec r1) = Port (Spec r2) → k1 = k2.

Definition store (r : PreviewAccess) (c : Cluster) : Cluster :=
  set_records (<[(Namespace r, Name r) := r]> (records c)) c.

Section admission.
Context {L : Library} {LL : LibraryLaws L}.
Implicit Types e : Env.

Lemma attempt_inv {A} (m : PM A) e r e' :
  attempt m e = (Ok r, e') → m e = (r, e').
Proof. unfold attempt. by destruct (m e) as [x y]; intros [= -> ->]. Qed.

Lemma check_embedders_ok tenant ns name embedders e e' :
  check_embedders tenant ns name embedders e = (Ok Accept, e') →
  ∀ app, app ∈ embedders → ∃ e1 l e2, cluster e1 = cluster e ∧
    Reachable tenant app name e1 = (Ok l, e2) ∧
    ∀ o, o ∈ l → Namespace o = ns ∧ Name o = name.
Proof.
  revert e. induction embedders as [|a es IH]; intros e; simpl; [set_solver|].
  intros (l & e1 & H1%attempt_inv & H2)%bind_inv_ok app.
  assert (Hc : cluster e1 = cluster e).
  { eapply still_run in H1; [apply H1|auto with keeps]. }
  destruct l as [l|]; [|done]. destruct (other_record ns name l) eqn:Eo; [done|].
  intros [->|Hin]%elem_of_cons.
  - exists e, l, e1. split_and!; [done..|]. intros o Ho. unfold other_record in Eo.
    destruct (filter _ l) as [|x f] eqn:Ef; [|done].
    destruct (decide (Namespace o = ns ∧ Name o = name)) as [?|Hne]; [done|].
    exfalso. apply (not_elem_of_nil o). rewrite <-Ef. apply list_elem_of_filter. done.
  - destruct (IH e1 H2 app Hin) as (e2 & l2 & e3 & Hc2 & H). exists e2, l2, e3.
    rewrite <-Hc. done.
Qed.

(** An admitted record is the only one its embedders find under its name. *)
Lemma checkEmbedding_ok r e e' tenant app x :
  well_formed (cluster e) → checkEmbedding (Namespace r) r e = (Ok Accept, e') →
  tenant ≠ "" → app ≠ "" → no_slash app →
  reaches (store r (cluster e)) tenant app (Name r) r →
  reaches (cluster e) tenant app (Name r) x → Namespace x = Namespace r.
Proof.
  intros Hwf (n & e1 & H1%attempt_inv & H2)%bind_inv_ok Ht Ha Hs (_ & _ & n' & Hn' & Hr) Hx.
  destruct n as [n|]; [|done].
  assert (Hc : cluster e1 = cluster e).
  { eapply still_run in H1; [apply H1|auto with keeps]. }
  apply lookup_in_ok in H1. cbn in Hn'. assert (n' = n) as -> by congruence. clear Hn'. cbv zeta in H2.
  destruct (String.eqb_spec (label (Labels n) LabelTenant) "") as [He|He].
  { unfold label in *. destruct Hr as [[HT _]|[_ HT]]; [rewrite HT in He|]; cbn in *; congruence. }
  destruct (String.eqb_spec (label (Labels n) LabelApp) "") as [Hea|Hea]; cbn [orb] in H2.
  { destruct (EmbeddableBy (Spec r)); [|done]. unfold label in Hea.
    destruct Hr as [[_ HA]|[Hin _]]; [rewrite HA in Hea; cbn in Hea; congruence|set_solver]. }
  case_bool_decide as Hown; [done|].
  assert (Htn : label (Labels n) LabelTenant = tenant).
  { destruct Hr as [[HT _]|[_ HT]]; [unfold label; by rewrite HT|done]. }
  assert (Hin : app ∈ label (Labels n) LabelApp :: EmbeddableBy (Spec r)).
  { apply elem_of_cons. destruct Hr as [[_ HA]|[Hin _]]; [left; unfold label; by rewrite HA|by right]. }
  destruct (check_embedders_ok _ _ _ _ _ _ H2 app Hin) as (e2 & l & e3 & Hc2 & HR & Hall).
  rewrite Hc, Htn in *. rewrite <-Hc2 in Hwf, Hx.
  apply (Reachable_ok _ _ _ _ _ _ Hwf Hs HR) in Hx. by apply Hall.
Qed.

Lemma reaches_store c r tenant app name x :
  keyed c → reaches (store r c) tenant app name x →
  x = r ∨ reaches c tenant app name x ∧ (Namespace x, Name x) ≠ (Namespace r, Name r).
Proof.
  intros Hk ([k Hx] & Hn & Hr). cbn in Hx.
  apply lookup_insert_Some in Hx as [[_ ->]|[Hne Hx]]; [by left|].
  right. split; [|by rewrite <-(Hk _ _ Hx)]. split; [by eauto|]. done.
Qed.
Lemma store_lookup r c k x :
  records (store r c) !! k = Some x →
  k = (Namespace r, Name r) ∧ x = r ∨ k ≠ (Namespace r, Name r) ∧ records c !! k = Some x.
Proof. cbn. rewrite lookup_insert_Some. naive_solver. Qed.

Lemma store_well_formed r c :
  well_formed c → Forall no_slash (EmbeddableBy (Spec r)) → well_formed (store r c).
Proof.
  intros (Hk & Hno & Hsl) Hs. rewrite Forall_forall in Hs. split_and!; [|done|].
  - intros k x [[-> ->]|[_ Hx]]%store_lookup; [done|by apply Hk].
  - intros k x app [[_ ->]|[_ Hx]]%store_lookup; [apply Hs|by eapply Hsl].
Qed.

Lemma store_unambiguous r e e' :
  well_formed (cluster e) → unambiguous (cluster e) →
  checkEmbedding (Namespace r) r e = (Ok Accept, e') → unambiguous (store r (cluster e)).
Proof.
  intros Hwf Hu Hemb tenant app name x y Ht Ha Hsa Hx Hy. pose proof Hwf as (Hk & _).
  assert (Hself : ∀ x, reaches (store r (cluster e)) tenant app name r →
    reaches (cluster e) tenant app name x → (Namespace x, Name x) = (Namespace r, Name r)).
  { intros z Hr Hz. pose proof Hr as (_ & Hnr & _). pose proof Hz as (_ & Hnz & _).
    rewrite Hnz, <-Hnr. f_equal. rewrite <-Hnr in Hr, Hz. exact (checkEmbedding_ok r e e' tenant app z Hwf Hemb Ht Ha Hsa Hr Hz). }
  destruct (reaches_store _ _ _ _ _ _ Hk Hx) as [->|[Hx' Hnex]];
    destruct (reaches_store _ _ _ _ _ _ Hk Hy) as [->|[Hy' Hney]]; 
    [done| | |exact (Hu tenant app name x y Ht Ha Hsa Hx' Hy')].
  - by destruct Hney; apply Hself.
  - by destruct Hnex; apply Hself.
Qed.

Lemma store_one_per_target r c l :
  keyed c → one_per_target c →
  l ≡ₚ matching (same_target (Namespace r) (TargetKey (JobRef (Spec r)) (Port (Spec r)))) c →
  filter (λ o, Name o ≠ Name r) l = [] → one_per_target (store r c).
Proof.
  intros Hk Ho Hl Hf.
  assert (Hother : ∀ k x, records c !! k = Some x → Namespace x = Namespace r →
    JobRef (Spec x) = JobRef (Spec r) → Port (Spec x) = Port (Spec r) → k = (Namespace r, Name r)).
  { intros k x Hx Hn Hj Hp. rewrite (Hk _ _ Hx), Hn. f_equal.
    destruct (decide (Name x = Name r)) as [?|Hne]; [done|].
    exfalso. apply (not_elem_of_nil x). rewrite <-Hf. apply list_elem_of_filter. split; [done|].
    rewrite Hl. apply elem_of_same_target. eauto. }
  intros k1 k2 r1 r2 [[-> ->]|[_ Hx1]]%store_lookup [[-> ->]|[_ Hx2]]%store_lookup
    Hn Hj Hp; [done| |by eapply Hother|by eapply Ho].
  symmetry. by eapply Hother.
Qed.

Lemma Handle_admitted op ns r e e' :
  op = Create ∨ op = Update → Handle op ns (Some r) e = (Ok Accept, e') →
  (OwnerReferences r ≠ [] ∨ is_Some (ExpiresAt (Spec r))) ∧
  ∃ l e1, list_records "previewaccesses"
      (same_target ns (TargetKey (JobRef (Spec r)) (Port (Spec r)))) e = (Ok l, e1) ∧
    filter (λ o, Name o ≠ Name r) l = [] ∧ cluster e1 = cluster e ∧
    checkEmbedding ns r e1 = (Ok Accept, e').
Proof.
  intros Hop HH. split.
  { destruct (OwnerReferences r) eqn:E1; [|by left]. destruct (ExpiresAt (Spec r)) eqn:E2; [by eauto|].
    destruct Hop as [-> | ->]; cbn [Handle] in HH; rewrite E1, E2 in HH; inversion HH. }
  assert (HM : ∃ f, (attempt (list_records "previewaccesses"
        (same_target ns (TargetKey (JobRef (Spec r)) (Port (Spec r))))) ≫= f) e = (Ok Accept, e') ∧
    (∀ x, f (Err x) = mret (Errored 500)) ∧
    ∀ l, match filter (λ o, Name o ≠ Name r) l with
         | [] => f (Ok l) = checkEmbedding ns r
         | _ :: _ => ∀ s, (f (Ok l) s).1 ≠ Ok Accept
         end).
  { destruct Hop as [-> | ->]; cbn [Handle] in HH;
      destruct (OwnerReferences r), (ExpiresAt (Spec r)); try (by inversion HH);
      (eexists; split; [exact HH|]; split; [done|]; intros items; cbn beta iota;
       destruct (filter _ items); [done|]; by intros ?). }
  destruct HM as (f & HM & HErr & HOk).
  apply bind_inv_ok in HM as (l & e1 & H1%attempt_inv & H2). destruct l as [l|x].
  2: { rewrite HErr in H2. done. }
  specialize (HOk l). destruct (filter _ l) eqn:Ef.
  - rewrite HOk in H2. exists l, e1. split_and!; try done.
    eapply still_run in H1; [apply H1|auto with keeps].
  - specialize (HOk e1). by rewrite H2 in HOk.
Qed.
End admission.

