(* ===== verification/PreviewSessionFacts.v ===== *)
(** * PreviewSessionFacts: who gets to a preview.

    What the server relies on of a [Session] is the class [SessionLaws], which the
    cookie session and the local one both satisfy. Against it: a request reaches a
    sandbox only if the record admits its subject at that moment. Then the handoff:
    the codes refine a map that forgets nothing, a code is redeemed once, and a
    handoff ends in a cookie that admits its browser. And the caller of the app
    API: whose token is accepted, how often keys are fetched, to whom codes go. *)

From S2P Require Import Prelude.
From S2P Require Import PreviewCluster.
From S2P Require Import PreviewSession.
From S2P Require Import PreviewClusterFacts.

Local Open Scope string_scope.

(** ** What the server relies on *)

Definition not_proxied (a : answer) : Prop :=
  match a with Proxied _ _ => False | _ => True end.

(** A session admits only subjects the record allows, reads but does not write
    while it decides, and never passes a request on by itself. *)
Class SessionLaws (s : Session) : Prop := {
  admit_still e0 r rec : keeps (still e0) (Admit s r rec);
  admit_allowed r rec e subject origin e' :
    Admit s r rec e = (Ok (subject, origin, ""), e') → Allowed rec subject = true;
  own_none r host refuse e e' : ServeOwn s r host refuse e = (Ok None, e') → still e e';
  own_answer r host refuse e a e' :
    (∀ st o e a e', refuse st o e = (Ok a, e') → not_proxied a) →
    ServeOwn s r host refuse e = (Ok (Some a), e') → not_proxied a }.

Section laws.
Context {L : Library} {LL : LibraryLaws L}.

#[export] Instance LocalSession_laws c : SessionLaws (LocalSession c).
Proof.
  split.
  - intros. simpl. unfold local_Admit. walk_keeps.
  - intros r rec e sub o e'. simpl. unfold local_Admit.
    destruct (Allowed rec (lc_Subject c)) eqn:E; simpl; [|done]. by intros [= <- _ _].
  - intros r host rf e e' [= <-]. reflexivity.
  - intros r host rf e a e' _. simpl. done.
Qed.

Lemma cookie_Admit_ok key r rec e sub o e' :
  cookie_Admit key r rec e = (Ok (sub, o, ""), e') →
  ∃ v t, CookieOf r CookieName = Some v ∧ open key v = (t, None) ∧
    t_Record t = UID rec ∧ t_Host t = Host (Status rec) ∧ t_Subject t = sub ∧ t_Origin t = o ∧
    (clk e' < t_Expiry t * ns_second)%Z ∧ still e e' ∧ Allowed rec sub = true.
Proof.
  unfold cookie_Admit. destruct (CookieOf r CookieName) as [v|]; [|done].
  destruct (open key v) as [t [|]] eqn:Eo; [done|].
  destruct (String.eqb_spec (t_Record t) (UID rec)) as [HR|],
    (String.eqb_spec (t_Host t) (Host (Status rec))) as [HH|]; simpl; try done.
  intros (now & e1 & H1 & H2)%bind_inv_ok.
  assert (Hs : still e e1) by (eapply still_run; [|done]; auto with keeps).
  assert (Hnow : clk e1 = now) by (injection H1 as <- <-; done).
  destruct (Z.ltb_spec now (t_Expiry t * ns_second)); simpl in H2; [|done].
  destruct (Allowed rec (t_Subject t)) eqn:Ea; simpl in H2; [|done].
  injection H2 as <- <- <-. exists v, t. split_and!; try done. lia.
Qed.

#[export] Instance CookieSession_laws key : SessionLaws (CookieSession key).
Proof.
  split.
  - intros. simpl. unfold cookie_Admit. walk_keeps.
  - intros r rec e sub o e' H. simpl in H. apply cookie_Admit_ok in H. naive_solver.
  - intros r host rf e e'. simpl. unfold cookie_ServeOwn.
    destruct (String.eqb (rq_Path r) "/_handoff"); simpl; [|by intros [= <-]].
    intros (t & e1 & _ & H)%bind_inv_ok. exfalso. destruct t as [t|].
    + apply bind_inv_ok in H as (rec & e2 & _ & H). destruct rec as [[rec|]|];
        [destruct (_ && _)|..];
        repeat (apply bind_inv_ok in H as (? & ? & _ & H)); done.
    + apply bind_inv_ok in H as (? & ? & _ & H). done.
  - intros r host rf e a e' Hrf. simpl. unfold cookie_ServeOwn.
    destruct (String.eqb (rq_Path r) "/_handoff"); simpl; [|done].
    intros (t & e1 & _ & H)%bind_inv_ok. destruct t as [t|].
    + apply bind_inv_ok in H as (rec & e2 & _ & H).
      destruct rec as [[rec|]|]; [destruct (_ && _)|..].
      1: { repeat (apply bind_inv_ok in H as (? & ? & _ & H)). by injection H as <- _. }
      all: apply bind_inv_ok in H as (b & e3 & Hb & [= <- _]); by apply Hrf in Hb.
    + apply bind_inv_ok in H as (b & e3 & Hb & [= <- _]). by apply Hrf in Hb.
Qed.
End laws.

Section server.
Context {L : Library} {LL : LibraryLaws L} (idn : Identity) (s : Session).

Lemma refuse_not_proxied r host st o e a e' :
  refuse idn r host st o e = (Ok a, e') → not_proxied a.
Proof.
  unfold refuse. intros (rec & e1 & _ & H)%bind_inv_ok. destruct rec as [rec|]; [|by injection H as <- _].
  apply bind_inv_ok in H as (tomb & e2 & _ & H).
  destruct (match rec with Some _ => _ | None => _ end) as [[preview ns] by_].
  apply bind_inv_ok in H as (origins & e3 & _ & [= <- _]). by destruct origins.
Qed.

Definition host_of (r : Request) : string :=
  ToLower (default "" (head (Split (rq_Host r) ":"%char))).

(** The request went through every check, in the states it was checked in. *)
Lemma proxied_inv `{!SessionLaws s} r e addr ck e' :
  Previews idn s r e = (Ok (Proxied addr ck), e') →
  ∃ k rec sub o e1 e2, records (cluster e) !! k = Some rec ∧
    Host (Status rec) = host_of r ∧ still e e1 ∧ RecordEnded rec (clk e1) = false ∧
    Admit s r rec e1 = (Ok (sub, o, ""), e2) ∧ IsReady rec = true ∧
    sandbox (cluster e) rec addr ∧ ck = stripCookie (rq_Cookie r) CookieName.
Proof.
  unfold Previews. intros (own & e1 & H1 & H)%bind_inv_ok. destruct own as [a|].
  { injection H as -> _. apply own_answer in H1; [done|]. intros. by eapply refuse_not_proxied. }
  apply own_none in H1 as Hs1. fold (host_of r) in H.
  unfold handlePreview in H. apply bind_inv_ok in H as (rec & e2 & H2%attempt_inv & H).
  assert (Hs2 : still e1 e2) by (eapply still_run; [|done]; auto with keeps).
  destruct rec as [[rec|]|]; [| |by injection H].
  2: { exfalso. by apply refuse_not_proxied in H. }
  apply ByHost_ok in H2 as ([k Hr] & Hh & _).
  apply bind_inv_ok in H as (t & e3 & H3 & H).
  assert (Hs3 : still e2 e3) by (eapply still_run; [|done]; auto with keeps).
  assert (Ht : clk e3 = t) by (injection H3 as <- <-; done).
  destruct (RecordEnded rec t) eqn:Een; [exfalso; by apply refuse_not_proxied in H|].
  apply bind_inv_ok in H as ([[sub o] st] & e4 & H4 & H).
  destruct (String.eqb_spec st "") as [->|]; simpl in H; [|exfalso; by apply refuse_not_proxied in H].
  assert (Hs4 : still e3 e4) by (eapply still_run; [|done]; intros; apply admit_still).
  apply bind_inv_ok in H as (tg & e5 & H5%attempt_inv & H).
  destruct tg as [[addr'|]|]; [|exfalso; by apply refuse_not_proxied in H|by injection H].
  injection H as <- <- _. apply Resolve_ok in H5 as [Hrd Hsb].
  assert (Hc : cluster e1 = cluster e) by apply Hs1.
  assert (Hc4 : cluster e4 = cluster e).
  { rewrite (proj1 Hs4), (proj1 Hs3), (proj1 Hs2). done. }
  rewrite Hc in Hr. rewrite Hc4 in Hsb.
  exists k, rec, sub, o, e3, e4. rewrite Ht. split_and!; try done.
  etrans; [done|]. by etrans.
Qed.
End server.


(** on the platform, moreover, the request carries a cookie whose signature
    verifies under the service's key, whose ticket is for this record's UID and
    host and not yet expired, and whose subject is the one allowed. *)
Theorem cookie_authorised {L : Library} {LL : LibraryLaws L} (idn : Identity) (key : string)
    (r : Request) (e e' : Env) (addr : string) (ck : list string) :
  Previews idn (CookieSession key) r e = (Ok (Proxied addr ck), e') →
  ∃ k rec v p sig tk, records (cluster e) !! k = Some rec ∧ Host (Status rec) = host_of r ∧
    CookieOf r CookieName = Some v ∧ Cut v "."%char = (p, sig, true) ∧ sig = mac key p ∧
    open key v = (tk, None) ∧ t_Record tk = UID rec ∧ t_Host tk = host_of r ∧
    (clk e < t_Expiry tk * ns_second)%Z ∧ Allowed rec (t_Subject tk) = true.
Proof.
  intros (k & rec & sub & o & e1 & e2 & Hr & Hh & Hs & _ & Ha & _)%proxied_inv; [|apply _].
  apply cookie_Admit_ok in Ha as (v & t & Hv & Ho & Hrec & Hhost & Hsub & _ & Hexp & Hs2 & Hal).
  destruct (Cut v "."%char) as [[p sig] ok] eqn:Ec.
  assert (Hok : ok = true ∧ sig = mac key p).
  { unfold open in Ho. rewrite Ec in Ho. destruct ok; [|done].
    destruct (String.eqb_spec sig (mac key p)); done. }
  destruct Hok as [-> Hsig]. exists k, rec, v, p, sig, t.
  split_and!; try done; [congruence| |congruence].
  destruct Hs as (_ & _ & ?), Hs2 as (_ & _ & ?). lia.
Qed.

(** ** Handoff codes *)

(** What goroutines do to the table of codes, in the order its mutex serialises:
    codes are issued, redemption is attempted, time passes. *)
Inductive code_event :=
| EvIssue (b : string) (t : ticket)
| EvRedeem (k host : string)
| EvWait (n : N).

(** An event, the ticket it was answered (if any), and the time it was over. *)
Record happened := mkHappened { h_event : code_event; h_ticket : option ticket; h_time : Z }.

Section codes.
Context {L : Library}.

Definition code_step (ev : code_event) (e : Env) : option ticket * Env :=
  match ev with
  | EvIssue b t => (None, (Issue t (set_rnd [Some b] e)).2)
  | EvRedeem k host =>
      match Redeem k host e with
      | (Ok t, e') => (Some t, e')
      | (Err _, e') => (None, e')
      end
  | EvWait n => (None, set_time (clk e + Z.of_N n)%Z (ticks e) e)
  end.

Fixpoint code_run (l : list code_event) (e : Env) : list happened :=
  match l with
  | [] => []
  | ev :: l => let '(r, e') := code_step ev e in mkHappened ev r (clk e') :: code_run l e'
  end.

(** The specification: a code is pending when the last thing that happened to it,
    in a history with the latest first, is that it was issued. *)
Fixpoint pending (h : list happened) (k : string) : option code :=
  match h with
  | [] => None
  | x :: h =>
      match h_event x with
      | EvIssue b t => if decide (b64 b = k) then Some (mkCode t (h_time x)) else pending h k
      | EvRedeem k' _ => if decide (k' = k) then None else pending h k
      | EvWait _ => pending h k
      end
  end.

(** ... and it redeems, for its own host, within ten seconds. *)
Definition redeems (c : option code) (host : string) (t : Z) : option ticket :=
  match c with
  | Some c => if decide (t_Host (c_ticket c) = host ∧ (t - c_issued c ≤ 10 * ns_second)%Z)
              then Some (c_ticket c) else None
  | None => None
  end.

(** The table holds what is pending, but for codes already past their time. *)
Definition holds_pending (e : Env) (h : list happened) : Prop :=
  ∀ k, codes (mem e) !! k = pending h k ∨
    codes (mem e) !! k = None ∧ ∃ c, pending h k = Some c ∧ (10 * ns_second < clk e - c_issued c)%Z.

Lemma stale_Sub t i : (CodeTTL <? Sub t i)%Z = true ↔ (10 * ns_second < t - i)%Z.
Proof.
  unfold CodeTTL, Sub, ns_second. rewrite Z.ltb_lt.
  change (2 ^ 63)%Z with 9223372036854775808%Z. lia.
Qed.

Lemma redeem_step k host e h :
  holds_pending e h →
  let '(r, e') := code_step (EvRedeem k host) e in
  r = redeems (pending h k) host (clk e') ∧
  holds_pending e' (mkHappened (EvRedeem k host) r (clk e') :: h).
Proof.
  intros Hh. unfold code_step, Redeem. rewrite bind_run. cbn [gets].
  rewrite bind_run. unfold remember, modify.
  set (e1 := set_mem (set_codes (delete k (codes (mem e))) (mem e)) e).
  assert (Hkeep : ∀ e2 r, codes (mem e2) = delete k (codes (mem e)) → (clk e ≤ clk e2)%Z →
    holds_pending e2 (mkHappened (EvRedeem k host) r (clk e2) :: h)).
  { intros e2 r Hc Ht k'. cbn. rewrite Hc. case_decide as Ek; [subst; left; apply lookup_delete_eq|].
    rewrite lookup_delete_ne by done. destruct (Hh k') as [->|(-> & c & -> & ?)]; [by left|right].
    split; [done|]. exists c. split; [done|lia]. }
  destruct (codes (mem e) !! k) as [v|] eqn:Ev.
  - rewrite bind_run. cbn [Now]. set (t := (clk e1 + _)%Z). set (e2 := set_time t _ e1).
    assert (Hp : pending h k = Some v) by (destruct (Hh k) as [H|[H _]]; congruence).
    assert (Hle : (clk e ≤ clk e2)%Z) by (unfold e2, t, e1; cbn; lia).
    pose proof (stale_Sub t (c_issued v)) as Hst. rewrite Hp.
    destruct (CodeTTL <? Sub t (c_issued v))%Z; cbn.
    + split; [|by apply Hkeep]. rewrite decide_False; [done|]. intros [_ ?].
      pose proof (proj1 Hst eq_refl). unfold t, e1 in *. cbn in *. lia.
    + assert (Hfr : (t - c_issued v ≤ 10 * ns_second)%Z).
      { destruct (Z.le_gt_cases (t - c_issued v) (10 * ns_second)); [done|].
        exfalso. by discriminate (proj2 Hst ltac:(lia)). }
      destruct (String.eqb_spec (t_Host (c_ticket v)) host); cbn.
      * split; [|by apply Hkeep]. by rewrite decide_True.
      * split; [|by apply Hkeep]. rewrite decide_False; [done|]. by intros [? _].
  - split; [|apply Hkeep; [done|cbn; lia]].
    destruct (Hh k) as [H|(_ & c & -> & Hc)]; [by rewrite <-H, Ev|].
    cbn. rewrite decide_False; [done|]. intros [_ ?]. cbn in *. lia.
Qed.

Lemma issue_step b t e h :
  holds_pending e h →
  let e' := (Issue t (set_rnd [Some b] e)).2 in
  holds_pending e' (mkHappened (EvIssue b t) None (clk e') :: h).
Proof.
  intros Hh. unfold Issue. cbn [rnd set_rnd]. rewrite bind_run. cbn [Now].
  set (now := (clk _ + _)%Z). rewrite bind_run. unfold remember, modify. cbn.
  intros k. cbn. case_decide as Ek; [subst; left; apply lookup_insert_eq|].
  rewrite lookup_insert_ne by done.
  assert (Hle : (clk e ≤ now)%Z) by (unfold now; cbn; lia).
  rewrite map_lookup_filter.
  destruct (Hh k) as [Hk|(-> & c & -> & Hc)].
  2: { right. split; [done|]. exists c. split; [done|cbn; lia]. }
  rewrite Hk. destruct (pending h k) as [c|]; [|by left]. cbn.
  case_guard as Hg; [by left|right]. split; [done|]. exists c. split; [done|].
  by apply stale_Sub, Z.ltb_lt.
Qed.

Lemma code_run_exact l e h pre x post :
  holds_pending e h → code_run l e = (pre ++ x :: post)%list →
  match h_event x with
  | EvRedeem k host => h_ticket x = redeems (pending (rev pre ++ h)%list k) host (h_time x)
  | _ => h_ticket x = None
  end.
Proof.
  revert e h pre. induction l as [|ev l IH]; intros e h pre Hh; simpl; [by destruct pre|].
  destruct (code_step ev e) as [r e'] eqn:Es. intros Hrun.
  assert (Hhd : (match ev with
    | EvRedeem k host => r = redeems (pending h k) host (clk e')
    | _ => r = None end) ∧ holds_pending e' (mkHappened ev r (clk e') :: h)).
  { destruct ev as [b t|k host|n].
    - pose proof (issue_step b t e h Hh) as Hi. injection Es as <- <-. done.
    - pose proof (redeem_step k host e h Hh) as Hr. by rewrite Es in Hr.
    - injection Es as <- <-. split; [done|]. intros k. cbn.
      destruct (Hh k) as [?|(? & c & ? & ?)]; [by left|right]. split; [done|]. exists c.
      split; [done|lia]. }
  destruct Hhd as [Hr Hh'], pre as [|y pre]; injection Hrun as <- Hrun.
  - exact Hr.
  - specialize (IH _ _ _ Hh' Hrun). simpl. rewrite <-app_assoc. exact IH.
Qed.

Lemma pending_since h1 k host r t h2 c :
  pending (h1 ++ mkHappened (EvRedeem k host) r t :: h2)%list k = Some c →
  ∃ b tk t', mkHappened (EvIssue b tk) None t' ∈ (λ x, mkHappened (h_event x) None (h_time x)) <$> h1
    ∧ b64 b = k.
Proof.
  induction h1 as [|[ev tk' t'] h1 IH]; simpl.
  { by rewrite decide_True. }
  destruct ev as [b tk|k' host'|n]; intros H.
  - case_decide as Hb; [exists b, tk, t'; split; [left|done]|].
    destruct (IH H) as (?&?&?&?&?). eexists _, _, _. split; [by right|done].
  - case_decide; [done|]. destruct (IH H) as (?&?&?&?&?). eexists _, _, _. split; [by right|done].
  - destruct (IH H) as (?&?&?&?&?). eexists _, _, _. split; [by right|done].
Qed.
End codes.

(** C20: the table of codes, which forgets codes as it goes, answers as if it forgot
    none. From an empty table, through any interleaving of issues, redemptions and
    waits, a redemption of a code for a host succeeds exactly when the last thing
    that happened to that code is that it was issued, for that host, at most ten
    seconds before; and it then yields the ticket it was issued for. *)
Theorem redeem_exact {L : Library} (l : list code_event) (e : Env) (pre post : list happened)
    (k host : string) (r : option ticket) (t : Z) :
  codes (mem e) = ∅ →
  code_run l e = (pre ++ mkHappened (EvRedeem k host) r t :: post)%list →
  r = redeems (pending (rev pre) k) host t.
Proof.
  intros He Hrun. pose proof (code_run_exact l e [] pre (mkHappened (EvRedeem k host) r t) post) as H.
  cbn in H. rewrite app_nil_r in H. apply H; [|done]. intros k'. left. by rewrite He.
Qed.

(** A code is redeemed once. Between two successful redemptions of one code,
    by whatever browsers and for whatever hosts, that code was issued again -- which
    takes the same 256 random bits a second time. *)
Theorem code_single_use {L : Library} (l : list code_event) (e : Env)
    (pre mid post : list happened) (k host1 host2 : string) (t1 t2 : ticket) (z1 z2 : Z) :
  codes (mem e) = ∅ →
  code_run l e = (pre ++ mkHappened (EvRedeem k host1) (Some t1) z1 :: mid
                   ++ mkHappened (EvRedeem k host2) (Some t2) z2 :: post)%list →
  ∃ x b t, x ∈ mid ∧ h_event x = EvIssue b t ∧ b64 b = k.
Proof.
  intros He Hrun.
  pose proof (code_run_exact l e [] (pre ++ mkHappened (EvRedeem k host1) (Some t1) z1 :: mid)
                (mkHappened (EvRedeem k host2) (Some t2) z2) post) as H.
  cbn in H. rewrite app_nil_r in H.
  assert (Hp : Some t2 = redeems (pending
    (rev (pre ++ mkHappened (EvRedeem k host1) (Some t1) z1 :: mid)) k) host2 z2).
  { apply H; [|by rewrite Hrun, <-app_assoc]. intros k'. left. by rewrite He. }
  clear H. rewrite rev_app_distr in Hp. simpl in Hp. rewrite <-app_assoc in Hp.
  destruct (pending _ k) as [c|] eqn:Ep; [|done].
  apply pending_since in Ep as (b & tk & t' & Hin & Hb).
  apply list_elem_of_fmap in Hin as (x & [= Hx _] & Hin). exists x, b, tk.
  split_and!; [|done|done].
  apply list_elem_of_In, in_rev, list_elem_of_In. done.
Qed.

(** an admission lasts at most eight hours and never past the record's own
    expiry, in whole seconds, and is not negative for a record that has not ended:
    no overflow of the 64-bit duration, however far the expiry is. *)
Theorem SessionLifetime_bounds (r : PreviewAccess) (t : Z) :
  RecordEnded r t = false →
  let d := SessionLifetime r t in
  (0 ≤ d ≤ 8 * 3600 * ns_second)%Z ∧ (d mod ns_second = 0)%Z ∧
  (∀ x, ExpiresAt (Spec r) = Some x → (t + d ≤ x)%Z ∧
     ((x - t < 8 * 3600 * ns_second)%Z → (x - t < d + ns_second)%Z)) ∧
  (ExpiresAt (Spec r) = None → d = (8 * 3600 * ns_second)%Z).
Proof.
  unfold RecordEnded, SessionLifetime, CookieMaxAge, Sub.
  change (2 ^ 63)%Z with 9223372036854775808%Z.
  destruct (ExpiresAt (Spec r)) as [x|].
  - intros Hx%negb_false_iff%Z.ltb_lt. set (s := Z.max _ _).
    assert (Hs : (0 ≤ s ≤ x - t)%Z) by lia.
    assert (Hs' : (x - t < 8 * 3600 * ns_second)%Z → s = (x - t)%Z) by (unfold ns_second; lia).
    unfold ns_second in *. rewrite Z.quot_div_nonneg by lia. clearbody s.
    case_match eqn:Hlt; [apply Z.ltb_lt in Hlt|apply Z.ltb_ge in Hlt].
    all: split_and!; [..|done]; try (Z.div_mod_to_equations; lia).
    all: intros ? [= <-]; split; [|intros Hn; specialize (Hs' Hn)]; Z.div_mod_to_equations; lia.
  - intros _. split_and!; done.
Qed.

(** ** The handoff, end to end *)

Section handoff.
Context {L : Library} {LL : LibraryLaws L}.
Implicit Types e : Env.

Lemma b64_free c0 s : b64_char c0 = false → all_chars (λ c, negb (Ascii.eqb c c0)) (b64 s) = true.
Proof.
  intros H. eapply all_chars_mono; [|apply b64_alphabet]. intros c Hc. cbn.
  destruct (Ascii.eqb_spec c c0) as [->|]; [congruence|done].
Qed.

(** A sealed ticket opens to itself. *)
Lemma open_seal key t : ticket_utf8 t = true → open key (seal key t) = (t, None).
Proof.
  intros Ht. unfold open, seal. cbv zeta. set (p := b64 (ticket_json t)).
  change (p +:+ "." +:+ mac key p) with (p +:+ String "."%char (mac key p)).
  rewrite Cut_app by (by apply b64_free). cbn. rewrite String.eqb_refl. cbn.
  unfold p. by rewrite unb64_b64, json_ticket_json.
Qed.

Definition no_semi (s : string) : bool := all_chars (λ c, negb (Ascii.eqb c ";"%char)) s.

(** The bytes of a sealed ticket. *)
Definition seal_char (c : Ascii.ascii) : bool := b64_char c || Ascii.eqb c "."%char.

Lemma seal_chars key t : all_chars seal_char (seal key t) = true.
Proof.
  unfold seal, mac. cbv zeta. rewrite !all_chars_app. cbn.
  assert (H : ∀ s, all_chars seal_char (b64 s) = true).
  { intros s. eapply all_chars_mono; [|apply b64_alphabet]. intros c Hc. unfold seal_char. by rewrite Hc. }
  by rewrite !H.
Qed.

Lemma TrimString_id s : all_chars (λ c, negb (is_blank c)) s = true → TrimString s = s.
Proof.
  assert (Hl : ∀ s, all_chars (λ c, negb (is_blank c)) s = true → TrimLeftBlank s = s).
  { intros [|c t]; cbn; [done|]. intros [Hc%negb_true_iff _]%andb_true_iff. by rewrite Hc. }
  intros Hs. unfold TrimString. rewrite (Hl s Hs), Hl; [apply str_rev_involutive|].
  by rewrite all_chars_rev.
Qed.

Lemma seal_char_class c :
  seal_char c = true →
  negb (Ascii.eqb c ";"%char) = true ∧ negb (is_blank c) = true ∧ negb (is_space c) = true ∧
  value_byte c = true.
Proof. destruct c as [[] [] [] [] [] [] [] []]; by vm_compute. Qed.

Lemma seal_free (f : Ascii.ascii → bool) v :
  (∀ c, seal_char c = true → f c = true) → all_chars seal_char v = true → all_chars f v = true.
Proof. apply all_chars_mono. Qed.

Lemma cookie_value_id v : all_chars seal_char v = true → cookie_value v = Some v.
Proof.
  intros Hv. unfold cookie_value.
  assert (Hq : HasPrefix v dquote = false).
  { destruct v as [|c w]; [done|]. unfold HasPrefix. cbn. destruct (Ascii.ascii_dec _ c) as [<-|]; [|done].
    exfalso. cbn in Hv. done. }
  rewrite Hq, andb_false_r. cbn.
  rewrite (seal_free value_byte v); [done|intros c Hc; by apply seal_char_class|done].
Qed.

(** One cookie in one line, its name written [CookieName] or with a blank after it. *)
Lemma CookieOf_named r n v :
  all_chars seal_char v = true → no_semi (n +:+ "=") = true → TrimString n = CookieName →
  all_chars (λ c, negb (Ascii.eqb c "="%char)) n = true →
  TrimString (n +:+ "=" +:+ v) = n +:+ "=" +:+ v → rq_Cookie r = [n +:+ "=" +:+ v] →
  CookieOf r CookieName = Some v.
Proof.
  intros Hv Hn Hname Heq Htrim Hr. unfold CookieOf. rewrite Hr. cbn [fmap list_fmap concat].
  rewrite app_nil_r, Split_one.
  2: { rewrite str_app_assoc, all_chars_app. unfold no_semi in Hn. rewrite Hn.
       apply (seal_free _ v); [intros c Hc; by apply seal_char_class|done]. }
  cbn [omap list_omap]. unfold read_part. rewrite Htrim.
  change (n +:+ "=" +:+ v) with (n +:+ String "="%char v).
  by rewrite Cut_app, Hname, String.eqb_refl, cookie_value_id.
Qed.

(** A browser that sends the cookie back is read back. *)
Lemma CookieOf_line r v :
  all_chars seal_char v = true → rq_Cookie r = [CookieName +:+ "=" +:+ v] →
  CookieOf r CookieName = Some v.
Proof.
  intros Hv Hr. apply (CookieOf_named r CookieName); try done. apply TrimString_id.
  rewrite str_app_assoc, all_chars_app.
  apply (seal_free _ v); [intros c Hc; by apply seal_char_class|done].
Qed.

Lemma ByHost_unique host rec e :
  faults e = [] → (∃ k, records (cluster e) !! k = Some rec) → Host (Status rec) = host → host ≠ "" →
  (∀ k r, records (cluster e) !! k = Some r → Host (Status r) = host → r = rec) →
  ∃ e', ByHost host e = (Ok (Some rec), e') ∧ still e e' ∧ ticks e' = ticks e ∧ clk e' = clk e.
Proof.
  intros Hq Hr Hh Hne Hu. unfold ByHost. rewrite bind_run, (list_quiet _ _ _ Hq).
  set (l := arrange _ _).
  assert (Hl : ∀ x, x ∈ l → x = rec).
  { intros x. unfold l. rewrite arrange_perm, elem_of_matching, bool_decide_eq_true. unfold index_host.
    intros [Hx [k Hk]]. destruct (String.eqb_spec (Host (Status x)) ""); [set_solver|].
    apply (Hu k); [done|set_solver]. }
  assert (Hin : rec ∈ l).
  { unfold l. rewrite arrange_perm, elem_of_matching, bool_decide_eq_true. unfold index_host. subst host.
    split; [|done]. destruct (String.eqb_spec (Host (Status rec)) ""); [done|set_solver]. }
  destruct l as [|x l]; [set_solver|]. rewrite (Hl x) by left.
  eexists. split; [done|]. by split_and!; try (cbn; lia).
Qed.
Lemma Begin_issues rec c t e b rest x e1 :
  rnd e = Some b :: rest → cookie_Begin rec c t e = (Ok x, e1) →
  codes (mem e1) !! b64 b = Some (mkCode
    (mkTicket (UID rec) (Host (Status rec)) (ca_Subject c)
       ((t + SessionLifetime rec t) / ns_second)%Z (ca_Origin c)) (clk e1)).
Proof.
  intros Hb. unfold cookie_Begin. intros (k & e2 & H1 & [= _ <-])%bind_inv_ok.
  unfold Issue in H1. rewrite Hb in H1. injection H1 as _ <-. cbn. apply lookup_insert_eq.
Qed.

Lemma Redeem_fresh k host v e :
  codes (mem e) !! k = Some v → t_Host (c_ticket v) = host → ticks e = [] →
  (clk e - c_issued v ≤ 10 * ns_second)%Z →
  ∃ e', Redeem k host e = (Ok (c_ticket v), e') ∧ cluster e' = cluster e ∧ faults e' = faults e ∧
    codes (mem e') = delete k (codes (mem e)) ∧ ticks e' = [] ∧ clk e' = clk e.
Proof.
  intros Hv Hh Ht Hf. unfold Redeem. rewrite bind_run. cbn [gets]. rewrite bind_run.
  unfold remember, modify. rewrite Hv, bind_run. cbn. rewrite Ht. cbn. rewrite Z.add_0_r.
  destruct (CodeTTL <? Sub (clk e) (c_issued v))%Z eqn:Es; [apply stale_Sub in Es; lia|].
  rewrite Hh, String.eqb_refl. cbn. by eexists.
Qed.

Lemma Admit_sealed key r rec tk e :
  rq_Cookie r = [CookieName +:+ "=" +:+ seal key tk] → ticket_utf8 tk = true →
  t_Record tk = UID rec → t_Host tk = Host (Status rec) → Allowed rec (t_Subject tk) = true →
  ticks e = [] → (clk e < t_Expiry tk * ns_second)%Z →
  ∃ e', cookie_Admit key r rec e = (Ok (t_Subject tk, t_Origin tk, ""), e').
Proof.
  intros Hr Hu HR HH Ha Ht Hx. unfold cookie_Admit.
  rewrite (CookieOf_line r (seal key tk) (seal_chars _ _) Hr), (open_seal _ _ Hu).
  rewrite HR, HH, !String.eqb_refl. cbn. rewrite bind_run. cbn. rewrite Ht. cbn. rewrite Z.add_0_r.
  apply Z.ltb_lt in Hx. rewrite Hx. cbn. rewrite Ha. cbn. by eexists.
Qed.
End handoff.

(** a handoff ends in an admitted browser. Let a code have been issued for an
    allowed subject and a record whose host is its own. When the browser follows it
    to that host within ten seconds, with the record still there, it is answered the
    redirect with the preview cookie -- Secure, HttpOnly, partitioned, on no domain
    but this host -- and the code is gone; and every later request that sends the
    cookie back before the ticket's expiry, while the record still allows the
    subject, is admitted as that subject. *)
Theorem handoff_admits {L : Library} {LL : LibraryLaws L} (idn : Identity) (key : string)
    (rec : PreviewAccess) (c : Caller) (t : Z) (e e1 e2 : Env) (b : string)
    (rest : list (option string)) (x : string * Z) (r : Request) :
  let tk := mkTicket (UID rec) (Host (Status rec)) (ca_Subject c)
              ((t + SessionLifetime rec t) / ns_second)%Z (ca_Origin c) in
  rnd e = Some b :: rest → cookie_Begin rec c t e = (Ok x, e1) →
  ticket_utf8 tk = true → Host (Status rec) ≠ "" → Allowed rec (ca_Subject c) = true →
  mem e2 = mem e1 → faults e2 = [] → ticks e2 = [] →
  (clk e2 - clk e1 ≤ 10 * ns_second)%Z →
  (∃ k, records (cluster e2) !! k = Some rec) →
  (∀ k y, records (cluster e2) !! k = Some y → Host (Status y) = Host (Status rec) → y = rec) →
  rq_Path r = "/_handoff" → rq_code r = b64 b → host_of r = Host (Status rec) →
  ∃ ck e3, Previews idn (CookieSession key) r e2 = (Ok (Handoff "/" ck), e3) ∧
    ck_Name ck = CookieName ∧ ck_Secure ck = true ∧ ck_HttpOnly ck = true ∧
    ck_Partitioned ck = true ∧ ck_Path ck = "/" ∧
    codes (mem e3) !! b64 b = None ∧
    ∀ r' rec' e4, rq_Cookie r' = [CookieName +:+ "=" +:+ ck_Value ck] → ticks e4 = [] →
      (clk e4 < t_Expiry tk * ns_second)%Z → UID rec' = UID rec →
      Host (Status rec') = Host (Status rec) → Allowed rec' (ca_Subject c) = true →
      ∃ e5, cookie_Admit key r' rec' e4 = (Ok (ca_Subject c, ca_Origin c, ""), e5).
Proof.
  intros tk Hb HB Hu Hne Ha Hm Hq Hti Hfr Hr Huniq Hp Hcode Hh.
  pose proof (Begin_issues _ _ _ _ _ _ _ _ Hb HB) as Hcd. fold tk in Hcd. rewrite <-Hm in Hcd.
  destruct (Redeem_fresh _ (host_of r) _ _ Hcd (eq_sym Hh) Hti Hfr)
    as (e3 & HR & Hc3 & Hq3 & Hcd3 & Ht3 & Hk3).
  rewrite <-Hc3 in Hr, Huniq. rewrite Hq in Hq3.
  destruct (ByHost_unique (host_of r) rec e3 Hq3 Hr (eq_sym Hh)) as (e4 & HBy & Hs4 & _ & _).
  { by rewrite Hh. }
  { intros k y Hy Hyh. apply (Huniq k); [done|]. by rewrite Hyh. }
  unfold Previews. fold (host_of r). rewrite bind_run. cbn [ServeOwn CookieSession].
  unfold cookie_ServeOwn. rewrite Hp, String.eqb_refl. cbn [negb].
  rewrite Hcode, bind_run. unfold attempt at 1. rewrite HR. cbn [c_ticket].
  rewrite bind_run. unfold attempt at 1. rewrite HBy. cbn [tk t_Record t_Subject].
  rewrite String.eqb_refl, Ha. cbn [andb]. rewrite !bind_run.
  eexists _, _. split; [reflexivity|]. cbn. split_and!; try done.
  - case_match; cbn; rewrite (proj1 (proj2 Hs4)), Hcd3; apply lookup_delete_eq.
  - intros r' rec' e5 Hr' Ht5 Hx HU HH Ha'.
    eapply (Admit_sealed key r' rec' tk e5 Hr'); done.
Qed.

(** ** The caller's token *)

Section token.
Context {L : Library} {T : TokenLib}.
Implicit Types e : Env.

Lemma key_for_ok v kid e k e' :
  key_for v kid e = (Ok k, e') →
  (∃ m, keys (mem e') = Some m ∧ m !! kid = Some k) ∧ (clk e ≤ clk e')%Z.
Proof.
  unfold key_for. intros (ks & e1 & [= <- <-] & H)%bind_inv_ok.
  destruct (keys (mem e) ≫= λ m, m !! kid) as [k0|] eqn:Ek.
  { injection H as <- <-. destruct (keys (mem e)) as [m|]; [|done]. split; [eauto|lia]. }
  apply bind_inv_ok in H as (t & e2 & [= <- <-] & H).
  apply bind_inv_ok in H as (at_ & e3 & [= <- <-] & H). case_match; [done|].
  apply bind_inv_ok in H as (got & e4 & H4%attempt_inv & H).
  assert (Hc4 : clk e4 = (clk e + Z.of_N (default 0%N (head (ticks e))))%Z).
  { unfold fetch in H4. repeat case_match; by injection H4 as _ <-. }
  apply bind_inv_ok in H as (t' & e5 & [= <- <-] & H). destruct got as [out|].
  - apply bind_inv_ok in H as ([] & e6 & [= <-] & H).
    destruct (out !! kid) as [k1|] eqn:Eo; [|done]. injection H as <- <-. cbn. split; [eauto|lia].
  - apply bind_inv_ok in H as ([] & e6 & [= <-] & H). done.
Qed.
End token.

(** a token is accepted only if it has three segments, names RS256, its
    signature over header and claims verifies under the key of its kid in the key
    set last fetched from the issuer, and its claims name the platform's issuer, a
    subject, an expiry not more than a minute past, and no start more than a minute
    ahead. *)
Theorem Verify_accepts {L : Library} {T : TokenLib} (v : Verifier) (raw : string)
    (e e' : Env) (subject : string) :
  Verify v raw e = (Ok subject, e') →
  ∃ h p s hdr m k sig cl x t, Split raw "."%char = [h; p; s] ∧
    decodeSegment json_header h = Some hdr ∧ Alg hdr = "RS256" ∧
    keys (mem e') = Some m ∧ m !! hKid hdr = Some k ∧ unb64 s = Some sig ∧
    rsa_verify k (sha256_hex (h +:+ "." +:+ p)) sig = true ∧
    decodeSegment json_claims p = Some cl ∧ Iss cl = Issuer v ∧
    Sub_ cl = subject ∧ subject ≠ "" ∧ (clk e ≤ t)%Z ∧
    Exp cl = Some x ∧ (t ≤ (x + 60) * ns_second)%Z ∧
    ∀ b, Nbf cl = Some b → ((b - 60) * ns_second ≤ t)%Z.
Proof.
  unfold Verify. destruct (Split raw "."%char) as [|h [|p [|s [|? ?]]]]; try done.
  destruct (decodeSegment json_header h) as [hdr|] eqn:Eh; [|done].
  destruct (String.eqb_spec (Alg hdr) "RS256") as [Ealg|]; simpl; [|done].
  intros (k & e1 & ([m [Hm Hk]] & Hle)%key_for_ok & H)%bind_inv_ok.
  destruct (unb64 s) as [sig|] eqn:Es; [|done].
  destruct (rsa_verify k _ sig) eqn:Ev; simpl in H; [|done].
  destruct (decodeSegment json_claims p) as [cl|] eqn:Ec; [|done].
  apply bind_inv_ok in H as (t & e2 & [= <- <-] & H).
  destruct (String.eqb_spec (Iss cl) (Issuer v)) as [Ei|]; simpl in H; [|done].
  destruct (String.eqb_spec (Sub_ cl) "") as [|Esub]; [done|].
  destruct (Exp cl) as [x|] eqn:Ex; [|done]. unfold clockSkew in H.
  set (t := (clk e1 + _)%Z) in H.
  destruct (Z.ltb_spec (x * ns_second + 60 * ns_second) t) as [|Hx]; [done|].
  destruct (match Nbf cl with Some b => _ | None => _ end) eqn:En; [done|].
  injection H as <- <-. exists h, p, s, hdr, m, k, sig, cl, x, t.
  split_and!; try done; [unfold t; lia|unfold ns_second in *; lia|].
  intros b Hb. rewrite Hb in En. apply Z.ltb_ge in En. unfold ns_second in *. lia.
Qed.

(** ** How often the key set is fetched *)

Section rate.
Context {L : Library} {T : TokenLib} (v : Verifier).
Implicit Types e : Env.

(** Requests that name key ids, each some time after the one before. *)
Fixpoint kid_run (l : list (N * string)) (e : Env) : Env :=
  match l with
  | [] => e
  | (n, kid) :: l => kid_run l (key_for v kid (set_time (clk e + Z.of_N n)%Z (ticks e) e)).2
  end.

(** Latest first, each at least [gap] after the one before. *)
Fixpoint spaced (gap : Z) (l : list Z) : Prop :=
  match l with
  | x :: ((y :: _) as l') => (y + gap ≤ x)%Z ∧ spaced gap l'
  | _ => True
  end.

Definition rate_inv (n : nat) (e : Env) : Prop :=
  keys (mem e) ≠ None ∧ (fetchedAt (mem e) ≤ clk e)%Z ∧
  let l := take (length (fetches e) - n) (fetches e) in
  spaced jwksMinRefetchGap l ∧ match l with x :: _ => (x ≤ fetchedAt (mem e))%Z | [] => True end.

Lemma rate_fetch n e url r e1 t :
  (n ≤ length (fetches e))%nat → rate_inv n e → (clk e ≤ t)%Z →
  (fetchedAt (mem e) + jwksMinRefetchGap ≤ t)%Z →
  fetch url (set_time t (tail (ticks e)) e) = (r, e1) →
  mem e1 = mem e ∧ clk e1 = t ∧ (n ≤ length (fetches e1))%nat ∧
  let l := take (length (fetches e1) - n) (fetches e1) in
  spaced jwksMinRefetchGap l ∧ head l = Some t.
Proof.
  intros Hn (Hk & Hle & Hsp & Hx) Ht Hgap Hf.
  assert (He1 : fetches e1 = t :: fetches e ∧ mem e1 = mem e ∧ clk e1 = t).
  { unfold fetch in Hf. repeat case_match; by injection Hf as _ <-. }
  destruct He1 as (-> & -> & ->). cbn [length].
  replace (S (length (fetches e)) - n)%nat with (S (length (fetches e) - n)) by lia. cbn [take].
  split_and!; [done|done|lia| |done].
  destruct (take _ (fetches e)) as [|y l]; [done|]. split; [lia|done].
Qed.

Lemma rate_step n kid e :
  (n ≤ length (fetches e))%nat → rate_inv n e →
  (n ≤ length (fetches (key_for v kid e).2))%nat ∧ rate_inv n (key_for v kid e).2.
Proof.
  intros Hn Hinv. pose proof Hinv as (Hk & Hle & Hsp & Hx).
  unfold key_for. rewrite bind_run. cbn [gets].
  destruct (keys (mem e) ≫= λ m, m !! kid) as [k0|]; [done|].
  rewrite bind_run. cbn [Now]. set (t := (clk e + _)%Z). rewrite bind_run. cbn [gets].
  assert (Ht : (clk e ≤ t)%Z) by (unfold t; lia).
  destruct (_ && _) eqn:Ec.
  { split; [exact Hn|]. split_and!; [exact Hk|cbn; lia|exact (conj Hsp Hx)]. }
  apply andb_false_iff in Ec as [Ec|Ec]; [|by rewrite bool_decide_eq_false in Ec].
  apply Z.ltb_ge in Ec. unfold Sub, jwksMinRefetchGap, ns_second in Ec.
  change (2 ^ 63)%Z with 9223372036854775808%Z in Ec. cbn [mem set_time] in Ec.
  rewrite bind_run. unfold attempt. destruct (fetch _ _) as [r e1] eqn:Ef.
  destruct (rate_fetch n e (JWKSURL v) r e1 t Hn Hinv Ht) as (Hm & Hc & Hn1 & Hs1 & Hh1);
    [unfold jwksMinRefetchGap, ns_second; lia|exact Ef|].
  rewrite bind_run. cbn [Now]. destruct r as [out|].
  all: rewrite bind_run; cbn [remember modify].
  1: destruct (out !! kid).
  all: cbn; (split; [done|]); unfold rate_inv; cbn.
  all: (split; [rewrite ?Hm; done|]); (split; [lia|]); (split; [done|]).
  all: destruct (take _ (fetches e1)) as [|y l]; [done|]; injection Hh1 as ->; lia.
Qed.

Lemma rate_run l n e :
  (n ≤ length (fetches e))%nat → rate_inv n e → rate_inv n (kid_run l e).
Proof.
  revert e. induction l as [|[d kid] l IH]; intros e Hn (Hk & Hle & Hsp & Hx); [done|]. simpl.
  destruct (rate_step n kid (set_time (clk e + Z.of_N d)%Z (ticks e) e)) as [Hn' Hinv]; [done| |].
  - split_and!; [exact Hk|cbn; lia|exact (conj Hsp Hx)].
  - by apply IH.
Qed.
End rate.

(** Once a key set is held, however many requests name unknown key ids, two
    fetches of the set are never less than thirty seconds apart. *)
Theorem refetch_spaced {L : Library} {T : TokenLib} (v : Verifier) (l : list (N * string))
    (e : Env) :
  keys (mem e) ≠ None → (fetchedAt (mem e) ≤ clk e)%Z → fetches e = [] →
  spaced (30 * ns_second) (fetches (kid_run v l e)).
Proof.
  intros Hk Ht Hf. destruct (rate_run v l 0 e) as (_ & _ & H & _); [lia| |].
  - split_and!; try done. cbn. by rewrite Hf.
  - rewrite Nat.sub_0_r, take_ge in H by done. exact H.
Qed.

(** Until the first fetch succeeds there is no such bound: while the issuer
    does not answer, every request fetches, however close to the one before. *)
Theorem refetch_unbounded {L : Library} {T : TokenLib} (v : Verifier) (kid : string) (n : nat)
    (e : Env) :
  keys (mem e) = None → replies e = [] →
  length (fetches (kid_run v (replicate n (0%N, kid)) e)) = (length (fetches e) + n)%nat.
Proof.
  revert e. induction n as [|n IH]; intros e Hk Hr; [cbn; lia|]. cbn [replicate kid_run].
  assert (Hstep : ∀ e, keys (mem e) = None → replies e = [] →
    let e' := (key_for v kid e).2 in
    keys (mem e') = None ∧ replies e' = [] ∧ length (fetches e') = S (length (fetches e))).
  { intros e0 Hk0 Hr0. unfold key_for. rewrite bind_run. cbn [gets]. rewrite Hk0. cbn [mbind option_bind].
    rewrite bind_run. cbn [Now]. rewrite bind_run. cbn [gets]. rewrite bool_decide_eq_false_2 by tauto.
    rewrite andb_false_r, bind_run. unfold attempt, fetch. cbn. rewrite Hr0. cbn. done. }
  destruct (Hstep (set_time (clk e + Z.of_N 0)%Z (ticks e) e) Hk Hr) as (Hk' & Hr' & Hl).
  rewrite IH by done. rewrite Hl. cbn. lia.
Qed.

(** ** To whom codes are issued *)

(** The cluster and the codes are as they were. *)
Definition no_codes (e e' : Env) : Prop :=
  cluster e' = cluster e ∧ codes (mem e') = codes (mem e).

#[export] Instance no_codes_preorder : PreOrder no_codes.
Proof. split; [done|]. intros x y z [? ?] [? ?]. split; congruence. Qed.

Section issuing.
Context {L : Library} {LL : LibraryLaws L} {T : TokenLib}.
Implicit Types e : Env.

Lemma no_codes_still {A} (m : PM A) e0 :
  (∀ e1, keeps (still e1) m) → keeps (no_codes e0) m.
Proof.
  intros H e He. specialize (H e e (reflexivity _)) as (Hc & Hm & _).
  etrans; [exact He|]. split; congruence.
Qed.

Lemma no_codes_Now e0 : keeps (no_codes e0) Now.
Proof. apply no_codes_still. auto with keeps. Qed.

Lemma no_codes_fetch url e0 : keeps (no_codes e0) (fetch url).
Proof. intros e He. unfold fetch. repeat case_match; exact He. Qed.

Lemma no_codes_set_keys ks t e0 : keeps (no_codes e0) (remember (λ m, set_keys (ks m) t m)).
Proof. intros e He. exact He. Qed.

#[local] Hint Resolve no_codes_Now no_codes_fetch no_codes_set_keys : keeps.
#[local] Hint Extern 1 (keeps (no_codes _) (remember (λ m, set_keys ?x _ m))) =>
  apply (no_codes_set_keys (λ _, x)) : keeps.

Lemma no_codes_Verify v raw e0 : keeps (no_codes e0) (Verify v raw).
Proof. unfold Verify. walk_keeps. Qed.

(** The caller is the namespace of the gateway the connection came from, and the
    subject of a token that verified. *)
Definition identified (v : Verifier) (r : Request) (e : Env) (c : Caller) : Prop :=
  ∃ n raw e1 e2, byIP (mem e) !! rq_ip r = Some (ca_Namespace c) ∧
    namespaces (cluster e) !! ca_Namespace c = Some n ∧
    ca_Origin c = label (Annotations n) AppOriginAnnotation ∧ ca_Origin c ≠ "" ∧
    ca_Tenant c = label (Labels n) LabelTenant ∧ ca_Tenant c ≠ "" ∧
    ca_App c = label (Labels n) LabelApp ∧ ca_App c ≠ "" ∧
    CutPrefix (rq_Authorization r) "Bearer " = Some raw ∧
    Verify v raw e1 = (Ok (ca_Subject c), e2) ∧ still e e1.

Lemma gateway_Caller_ok v r e c e' :
  gateway_Caller v r e = (Ok c, e') → identified v r e c.
Proof.
  unfold gateway_Caller. intros (ns & e0 & [= <- <-] & H)%bind_inv_ok.
  destruct (byIP (mem e) !! rq_ip r) as [ns|] eqn:Eip; [|done].
  apply bind_inv_ok in H as (n & e1 & H1%attempt_inv & H). destruct n as [n|]; [|done].
  assert (Hs : still e e1) by (eapply still_run; [|done]; auto with keeps).
  apply lookup_in_ok in H1. cbv zeta in H.
  destruct (String.eqb_spec (label (Annotations n) AppOriginAnnotation) "") as [|Ho]; [done|].
  destruct (String.eqb_spec (label (Labels n) LabelTenant) "") as [|Ht]; [done|].
  destruct (String.eqb_spec (label (Labels n) LabelApp) "") as [|Ha]; [done|]. cbn [orb] in H.
  destruct (CutPrefix (rq_Authorization r) "Bearer ") as [raw|] eqn:Eraw; [|done].
  apply bind_inv_ok in H as (s & e2 & H2%attempt_inv & H).
  destruct s as [s|[]]; [|done..]. injection H as <- _.
  exists n, raw, e1, e2. cbn. split_and!; done.
Qed.

Lemma no_codes_gateway_Caller v r e0 : keeps (no_codes e0) (gateway_Caller v r).
Proof.
  unfold gateway_Caller. apply keeps_bind; [unfold NamespaceFor; auto with keeps|]. intros [ns|]; [|auto with keeps].
  apply keeps_bind; [apply keeps_attempt, no_codes_still; auto with keeps|].
  intros [n|]; [|auto with keeps]. case_match; [auto with keeps|]. case_match; [|auto with keeps].
  apply keeps_bind; [apply keeps_attempt, no_codes_Verify|]. intros [|[]]; auto with keeps.
Qed.

Lemma still_lookup c name e0 : keeps (still e0) (lookup c name).
Proof.
  unfold lookup, record_of. case_match; [auto with keeps|].
  apply keeps_bind; [auto with keeps|]. intros l. repeat case_match; auto with keeps.
Qed.

Lemma lookup_reaches c name e rec e' :
  well_formed (cluster e) → ca_App c ≠ "" → no_slash (ca_App c) →
  lookup c name e = (Ok (Some rec), e') →
  reaches (cluster e) (ca_Tenant c) (ca_App c) name rec.
Proof.
  intros Hwf Ha Hs. unfold lookup. destruct (String.eqb_spec (ca_App c) ""); [done|].
  intros (l & e1 & H1 & H2)%bind_inv_ok.
  destruct (Reachable_ok _ _ _ _ _ _ Hwf Hs H1) as [_ Hin].
  destruct l as [|x [|? ?]]; [done| |done]. injection H2 as -> _. apply Hin. left.
Qed.

Lemma Begin_codes rec c t e r e' :
  cookie_Begin rec c t e = (r, e') →
  match r with
  | Err _ => codes (mem e') = codes (mem e)
  | Ok _ => ∃ b, codes (mem e') !! b64 b = Some (mkCode
      (mkTicket (UID rec) (Host (Status rec)) (ca_Subject c)
         ((t + SessionLifetime rec t) / ns_second)%Z (ca_Origin c)) (clk e'))
  end.
Proof.
  intros HB. destruct r as [x|x].
  - destruct (rnd e) as [|[b|] rest] eqn:Eb.
    2: { exists b. by eapply Begin_issues. }
    all: unfold cookie_Begin in HB; rewrite bind_run in HB; unfold Issue in HB; rewrite Eb in HB; done.
  - unfold cookie_Begin in HB. rewrite bind_run in HB. unfold Issue in HB.
    destruct (rnd e) as [|[b|] rest]; [by inversion HB|done|by inversion HB].
Qed.

Lemma handleCodes_cases key r c e a e' :
  (λ idn, handleCodes idn (CookieSession key) r) (mkIdentity (λ _, mret c) gateway_AppOrigins) e = (Ok a, e') →
  codes (mem e') = codes (mem e) ∨
  rq_mediaType r = "application/json" ∧ rq_Origin r = ca_Origin c ∧
  ∃ id rec e1 t b, rq_previewId r = Some id ∧ still e e1 ∧
    (∃ e2, lookup c id e1 = (Ok (Some rec), e2)) ∧ RecordEnded rec t = false ∧ (clk e ≤ t)%Z ∧
    Allowed rec (ca_Subject c) = true ∧
    codes (mem e') !! b64 b = Some (mkCode
      (mkTicket (UID rec) (Host (Status rec)) (ca_Subject c)
         ((t + SessionLifetime rec t) / ns_second)%Z (ca_Origin c)) (clk e')).
Proof.
  cbn beta. unfold handleCodes, with_caller. rewrite bind_run. cbn.
  destruct (String.eqb_spec (rq_mediaType r) "application/json") as [Hmt|]; cbn; [|intros [= _ <-]; by left].
  destruct (String.eqb (ca_Origin c) ""); cbn; [intros [= _ <-]; by left|].
  destruct (String.eqb_spec (rq_Origin r) (ca_Origin c)) as [Ho|]; cbn; [|intros [= _ <-]; by left].
  destruct (rq_previewId r) as [[|ch id]|] eqn:Eid; [intros [= _ <-]; by left| |intros [= _ <-]; by left].
  intros (o & e1 & H1%attempt_inv & H)%bind_inv_ok.
  assert (Hs1 : still e e1) by (eapply still_run; [|done]; intros; apply still_lookup).
  destruct o as [o|]; [|injection H as _ <-; left; by rewrite (proj1 (proj2 Hs1))].
  apply bind_inv_ok in H as (t & e2 & H2 & H).
  assert (Hs2 : still e e2) by (etrans; [exact Hs1|]; eapply still_run; [|done]; auto with keeps).
  assert (Ht : clk e2 = t) by (injection H2 as <- <-; done).
  assert (Hsame : codes (mem e2) = codes (mem e)) by (by rewrite (proj1 (proj2 Hs2))).
  destruct o as [rec|]; [|injection H as _ <-; by left].
  destruct (RecordEnded rec t) eqn:Een; [injection H as _ <-; by left|].
  destruct (Allowed rec (ca_Subject c)) eqn:Ea; cbn [negb] in H; [|injection H as _ <-; by left].
  destruct (String.eqb (Host (Status rec)) ""); [injection H as _ <-; by left|].
  apply bind_inv_ok in H as (b & e3 & H3%attempt_inv & [= _ <-]).
  apply Begin_codes in H3. destruct b as [x|]; [|left; congruence].
  destruct H3 as [b Hb]. right. split_and!; [done|done|].
  exists (String ch id), rec, e, t, b. split_and!; try done; [by eexists|].
  destruct Hs2 as (_ & _ & ?). lia.
Qed.
End issuing.

(** the codes endpoint issues a code only to the application and the person it
    is for. Whatever a request is answered, either no code was added, or the
    connection came from the gateway of an application namespace, the request is
    JSON from that application's own origin with a token that verified, and the
    code is for a record that application may embed under the name given, that has
    not ended and that allows the token's subject -- for that record, its host, that
    subject and origin, and no other. *)
Theorem codes_issued_only {L : Library} {LL : LibraryLaws L} {T : TokenLib} (v : Verifier)
    (key : string) (r : Request) (e e' : Env) (a : answer) :
  well_formed (cluster e) →
  (∀ ns n, namespaces (cluster e) !! ns = Some n → no_slash (label (Labels n) LabelApp)) →
  handleCodes (GatewayIdentity v) (CookieSession key) r e = (Ok a, e') →
  codes (mem e') = codes (mem e) ∨
  ∃ c id rec t b, identified v r e c ∧
    rq_mediaType r = "application/json" ∧ rq_Origin r = ca_Origin c ∧
    rq_previewId r = Some id ∧ reaches (cluster e) (ca_Tenant c) (ca_App c) id rec ∧
    RecordEnded rec t = false ∧ Allowed rec (ca_Subject c) = true ∧
    codes (mem e') !! b64 b = Some (mkCode
      (mkTicket (UID rec) (Host (Status rec)) (ca_Subject c)
         ((t + SessionLifetime rec t) / ns_second)%Z (ca_Origin c)) (clk e')).
Proof.
  intros Hwf Hlab. unfold handleCodes, with_caller.
  intros (c & e1 & H1%attempt_inv & H)%bind_inv_ok.
  assert (Hn : no_codes e e1).
  { pose proof (no_codes_gateway_Caller v r e e (reflexivity _)) as Hk. cbn in H1. by rewrite H1 in Hk. }
  destruct Hn as [Hc Hcd].
  destruct c as [c|[]]; [|left; by injection H as _ <-..].
  apply gateway_Caller_ok in H1 as Hid. rewrite <-Hcd.
  destruct (handleCodes_cases key r c e1 a e' H) as [?|(Hmt & Ho & id & rec & e2 & t & b & Hpid & Hs & (e3 & Hlk) & Hen & _ & Hal & Hcode)];
    [by left|right].
  pose proof Hid as (n & raw & e4 & e5 & _ & Hns & _ & _ & _ & _ & Happ & Hne & _).
  exists c, id, rec, t, b. split_and!; try done. rewrite <-Hc, <-(proj1 Hs).
  eapply lookup_reaches; [by rewrite (proj1 Hs), Hc|done| |exact Hlk].
  rewrite Happ. by eapply Hlab.
Qed.

(** ** The cookie on its way through the proxy *)

(** The cookies a server reads from a request's Cookie lines. *)
Definition parts (lines : list string) : list string :=
  filter (λ p, p ≠ "") (TrimSpace <$> concat ((λ line, Split line ";"%char) <$> lines)).

Lemma TrimLeft_idem s : TrimLeft (TrimLeft s) = TrimLeft s.
Proof. induction s as [|c s IH]; cbn; [done|]. destruct (is_space c) eqn:E; [done|]. cbn. by rewrite E. Qed.

Lemma TrimLeft_suffix s : ∃ u, s = u +:+ TrimLeft s.
Proof.
  induction s as [|c s [u IH]]; [by exists ""|]. cbn. destruct (is_space c).
  - exists (String c u). by rewrite str_app_cons, <-IH.
  - by exists "".
Qed.

(** A prefix of a string that does not start with a space does not either. *)
Lemma TrimLeft_prefix s u v : s = u +:+ v → TrimLeft s = s → TrimLeft u = u.
Proof.
  intros ->. destruct u as [|c u]; [done|]. rewrite str_app_cons. cbn. destruct (is_space c) eqn:E; [|done].
  generalize (u +:+ v). intros x H. exfalso. destruct (TrimLeft_suffix x) as [w Hw].
  rewrite H in Hw. apply (f_equal String.length) in Hw. rewrite str_length_app in Hw. cbn in Hw. lia.
Qed.

Lemma TrimSpace_idem s : TrimSpace (TrimSpace s) = TrimSpace s.
Proof.
  unfold TrimSpace. set (u := TrimLeft s). set (w := TrimLeft (String.rev u)).
  assert (Hw : TrimLeft (String.rev w) = String.rev w).
  { destruct (TrimLeft_suffix (String.rev u)) as [x Hx]. fold w in Hx.
    apply (TrimLeft_prefix u _ (String.rev x)); [|apply TrimLeft_idem].
    by rewrite <-str_rev_app, <-Hx, str_rev_involutive. }
  rewrite Hw, str_rev_involutive. unfold w. by rewrite TrimLeft_idem.
Qed.

Lemma TrimSpace_blank s : TrimSpace (String " "%char s) = TrimSpace s.
Proof. reflexivity. Qed.

Lemma Split_no_semi s p : p ∈ Split s ";"%char → no_semi p = true.
Proof.
  revert p. induction s as [|c s IH]; intros p; cbn; [set_solver|].
  destruct (Ascii.eqb c ";"%char) eqn:E; [set_solver|].
  destruct (Split s ";"%char) as [|w ws].
  - intros ->%list_elem_of_singleton. cbn. by rewrite E.
  - intros [->|Hp]%elem_of_cons; [|apply IH; by right]. cbn. rewrite E. apply IH. left.
Qed.

Lemma TrimSpace_no_semi s : no_semi s = true → no_semi (TrimSpace s) = true.
Proof.
  assert (Hl : ∀ s, no_semi s = true → no_semi (TrimLeft s) = true).
  { intros x Hx. destruct (TrimLeft_suffix x) as [u Hu]. rewrite Hu in Hx. unfold no_semi in *.
    rewrite all_chars_app in Hx. by apply andb_true_iff in Hx as [_ ?]. }
  intros Hs. unfold TrimSpace, no_semi. rewrite all_chars_rev. apply Hl. unfold no_semi.
  rewrite all_chars_rev. by apply Hl.
Qed.

(** Joining trimmed parts and reading them back gives the parts. *)
Lemma read_joined kept :
  Forall (λ p, no_semi p = true ∧ TrimSpace p = p) kept → kept ≠ [] →
  TrimSpace <$> Split (Join kept "; ") ";"%char = kept.
Proof.
  assert (Hgo : ∀ kept p, Forall (λ p, no_semi p = true ∧ TrimSpace p = p) kept →
    no_semi p = true → TrimSpace <$> Split (String.concat "; " (p :: kept)) ";"%char = TrimSpace p :: kept).
  { clear kept. intros kept. induction kept as [|q kept IH]; intros p Hk Hp.
    - cbn. by rewrite (Split_one p).
    - apply Forall_cons in Hk as [[Hq Hqt] Hk].
      change (String.concat "; " (p :: q :: kept)) with
        (p +:+ String ";"%char (String " "%char (String.concat "; " (q :: kept)))).
      rewrite Split_app by done. cbn [fmap list_fmap]. f_equal.
      specialize (IH q Hk Hq). rewrite Hqt in IH.
      destruct (Split (String.concat "; " (q :: kept)) ";"%char) as [|w ws] eqn:Ew; [done|].
      assert (Es : Split (String " "%char (String.concat "; " (q :: kept))) ";"%char
        = String " "%char w :: ws) by (cbn [Split]; by rewrite Ew).
      rewrite Es. cbn [fmap list_fmap] in *. by rewrite TrimSpace_blank. }
  destruct kept as [|p kept]; [done|]. intros [[Hp Hpt] Hk]%Forall_cons _. unfold Join.
  rewrite Hgo by done. by rewrite Hpt.
Qed.

(** What the sandbox is sent of a request's cookies is every cookie in order,
    as it was, but for those written with the preview cookie's name and an equals
    sign: these are never forwarded, wherever in the Cookie lines they stand. *)
Theorem stripCookie_exact (lines : list string) (name : string) :
  parts (stripCookie lines name)
  = filter (λ p, HasPrefix p (name +:+ "=") = false) (parts lines).
Proof.
  unfold parts at 2, stripCookie. set (all := TrimSpace <$> _).
  assert (Hall : Forall (λ p, no_semi p = true ∧ TrimSpace p = p) all).
  { apply Forall_forall. intros p (q & -> & Hq)%list_elem_of_fmap.
    apply list_elem_of_In, in_concat in Hq as (l & Hl & Hq).
    apply list_elem_of_In, list_elem_of_fmap in Hl as (line & -> & _).
    split; [|apply TrimSpace_idem]. by eapply TrimSpace_no_semi, Split_no_semi, list_elem_of_In. }
  assert (Hff : filter (λ p, HasPrefix p (name +:+ "=") = false) (filter (λ p, p ≠ "") all)
    = filter (λ p, p ≠ "" ∧ HasPrefix p (name +:+ "=") = false) all).
  { rewrite list_filter_filter. apply list_filter_iff. intros; tauto. }
  rewrite Hff. set (kept := filter _ all).
  assert (Hk : Forall (λ p, (no_semi p = true ∧ TrimSpace p = p) ∧ p ≠ "") kept).
  { apply Forall_forall. intros p [[? _] Hp]%list_elem_of_filter. rewrite Forall_forall in Hall. auto. }
  clearbody kept. destruct kept as [|p l]; [done|]. unfold parts. cbn [fmap list_fmap concat].
  rewrite app_nil_r, read_joined; [|by eapply Forall_impl; [exact Hk|]; naive_solver|done].
  clear -Hk. induction Hk as [|x xs [_ Hx] _ IH]; [done|].
  rewrite filter_cons_True by done. by rewrite IH.
Qed.

Lemma TrimLeft_end (b : Ascii.ascii → bool) (trim : string → string) v :
  (∀ c s, b c = false → trim (String c s) = String c s) →
  all_chars (λ c, negb (b c)) v = true → b "="%char = false → b "_"%char = false →
  let line := CookieName +:+ " =" +:+ v in
  String.rev (trim (String.rev (trim line))) = line.
Proof.
  intros Htrim Hv He Hu line. assert (H1 : trim line = line) by (by apply Htrim).
  assert (H2 : trim (String.rev line) = String.rev line).
  { unfold line. rewrite str_rev_app, str_rev_app, <-str_app_assoc.
    destruct (String.rev v) as [|c w] eqn:Ev.
    - by apply Htrim.
    - rewrite str_app_cons. apply Htrim. rewrite <-all_chars_rev, Ev in Hv. cbn in Hv.
      apply andb_true_iff in Hv as [Hc%negb_true_iff _]. done. }
  by rewrite H1, H2, str_rev_involutive.
Qed.

(** The reader of cookies trims their names and the filter does not: a request
    whose Cookie line has a blank before the equals sign is admitted by its preview
    cookie and forwarded to the sandbox with it. *)
Theorem blank_cookie_forwarded (r : Request) (v : string) :
  all_chars seal_char v = true → rq_Cookie r = [CookieName +:+ " =" +:+ v] →
  CookieOf r CookieName = Some v ∧ stripCookie (rq_Cookie r) CookieName = rq_Cookie r.
Proof.
  intros Hv Hr. split.
  - apply (CookieOf_named r (CookieName +:+ " ")); try done.
    apply (TrimLeft_end is_blank); try done; [intros c s Hc; cbn; by rewrite Hc|].
    apply (seal_free _ v); [intros c Hc; by apply seal_char_class|done].
  - rewrite Hr. unfold stripCookie. cbn [fmap list_fmap concat]. rewrite app_nil_r, Split_one.
    2: { rewrite !all_chars_app. apply (seal_free _ v); [intros c Hc; by apply seal_char_class|done]. }
    assert (HT : TrimSpace (CookieName +:+ " =" +:+ v) = CookieName +:+ " =" +:+ v).
    { apply (TrimLeft_end is_space TrimLeft); try done; [intros c s Hc; cbn; by rewrite Hc|].
      apply (seal_free _ v); [intros c Hc; by apply seal_char_class|done]. }
    cbn [fmap list_fmap]. rewrite HT, filter_cons_True by (by split). done.
Qed.
