(* ===== verification/PreviewWitness.v ===== *)
(** * PreviewWitness: the preview theorems at concrete inputs.

    A library that satisfies [LibraryLaws] -- lists that come back reversed every
    other time, text printed in the digits 0 and 1 for base64 and JSON -- and one
    tenant with two applications, a preview and its sandbox, on which each theorem
    with hypotheses is applied. *)

From S2P Require Import Prelude.
From S2P Require Import PreviewCluster.
From S2P Require Import PreviewSession.
From S2P Require Import PreviewClusterFacts.
From S2P Require Import PreviewSessionFacts.

Local Open Scope string_scope.

(** ** A concrete library *)

#[export] Instance ticket_eq_dec : EqDecision ticket.
Proof. solve_decision. Defined.
#[export] Instance ticket_countable : Countable ticket.
Proof.
  refine (inj_countable' (λ t, (t_Record t, t_Host t, t_Subject t, t_Expiry t, t_Origin t))
    (λ '(a, b, c, d, e), mkTicket a b c d e) _). by intros [].
Defined.

#[export] Instance demo_library : Library := {|
  arrange n l := if Nat.even n then l else reverse l;
  sha256_hex s := s;
  hmac_sha256 key p := key +:+ p;
  b64 s := pos_string (encode s);
  unb64 s := decode (string_pos s);
  ticket_json t := pos_string (encode t);
  json_ticket s := match decode (string_pos s) with
                   | Some t => (t, None)
                   | None => (zero_ticket, Some "not a ticket")
                   end;
  QueryEscape s := s |}.

Lemma pos_string_b64 p : all_chars b64_char (pos_string p) = true.
Proof. induction p; cbn; done. Qed.

#[export] Instance demo_library_laws : LibraryLaws demo_library.
Proof.
  split.
  - intros n l. cbn. destruct (Nat.even n); [done|apply reverse_Permutation].
  - intros s. cbn. by rewrite string_pos_string, decode_encode.
  - intros s. apply pos_string_b64.
  - intros t _. cbn. by rewrite string_pos_string, decode_encode.
Qed.

(** A token library that reads every header and claims the same. *)
#[export] Instance demo_tokens : TokenLib := {|
  json_header _ := Some (mkHeader "RS256" "k1");
  json_claims _ := Some (mkClaims "https://issuer" "alice" (Some 2000%Z) (Some 900%Z));
  rsa_verify _ _ _ := true |}.

(** ** One tenant *)

Definition sec (n : Z) : Z := (n * ns_second)%Z.
Definition app_ns (app : string) : NamespaceObj :=
  mkNs {[LabelTenant := "t"; LabelApp := app]}
    {[AppOriginAnnotation := "https://" +:+ app +:+ ".example"]}.
Definition status (ready : bool) (host : string) : PreviewAccessStatus :=
  mkPAStatus host (Some (mkCondition ready "" "" 1)) 1.
Definition shop : PreviewAccess :=
  mkPA "app-a" "shop" "uid-1" 1 (sec 100) false ["job1"]
    (mkPASpec "job1" 3000 "alice" ["bob"] ["b"] (Some (sec 5000))) (status true "p1.previews.dev").
Definition rival : PreviewAccess :=
  mkPA "app-a" "rival" "uid-2" 1 (sec 101) false ["job1"]
    (mkPASpec "job1" 3000 "carol" [] [] None) (status true "p2.previews.dev").
Definition admin : PreviewAccess :=
  mkPA "app-a" "admin" "uid-3" 1 (sec 102) false []
    (mkPASpec "job1" 4000 "alice" [] ["b"] (Some (sec 5000))) (mkPAStatus "" None 0).

Definition tenant_of (rs : list PreviewAccess) : Cluster := {|
  records := list_to_map ((λ r, ((Namespace r, Name r), r)) <$> rs);
  namespaces := {["app-a" := app_ns "a"; "app-b" := app_ns "b"]};
  jobs := {[("app-a", "job1") := mkEJ "u1" "Running" "pod1"]};
  pods := {[("app-a", "pod1") := mkPod "10.0.0.5" {[labelJobUID := "u1"]}]};
  policies := ∅ |}.

Definition mem0 : Mem :=
  mkMem ∅ ∅ ∅ {["10.1.0.1" := "app-a"]} (Some {["k1" := mkRSA 35 5]}) 0.
Definition env (rs : list PreviewAccess) : Env :=
  mkEnv (tenant_of rs) [] 0 (sec 1000) [] [Some "random"] [] [] mem0.

Lemma keyed_check c :
  bool_decide (map_Forall (λ k r, k = (Namespace r, Name r)) (records c)) = true → keyed c.
Proof. intros H%bool_decide_eq_true k r Hr. exact (H k r Hr). Qed.

Lemma well_formed_check c :
  bool_decide (map_Forall (λ k r, k = (Namespace r, Name r) ∧
    Forall (λ app, all_chars (λ c, negb (Ascii.eqb c "/"%char)) app = true) (EmbeddableBy (Spec r)))
    (records c)) = true →
  namespaces c !! "" = None → well_formed c.
Proof.
  intros H%bool_decide_eq_true Hn. split_and!; [|done|].
  - intros k r Hr. apply (H k r Hr).
  - intros k r app Hr. destruct (H k r Hr) as [_ Hf]. rewrite Forall_forall in Hf. apply Hf.
Qed.

(** ** Records *)

Definition reconciler : Reconciler :=
  mkReconciler "previews.dev" "preview-access" {["app" := "preview-access"]} true.

Lemma reconcile_converges_witness :
  ∃ e', forM [("app-a", "rival"); ("app-a", "shop")] (λ k, Reconcile reconciler k.1 k.2)
          (env [shop; rival]) = (Ok (), e') ∧
    settled reconciler (tenant_of [shop; rival]) rival (cluster e').
Proof.
  destruct (reconcile_converges reconciler [("app-a", "rival"); ("app-a", "shop")] (env [shop; rival]))
    as (e' & H & Hs & _).
  - reflexivity.
  - apply keyed_check. vm_compute. reflexivity.
  - exists e'. split; [exact H|]. apply (Hs ("app-a", "rival")).
    + vm_compute. reflexivity.
    + left.
    + reflexivity.
Defined.

Lemma single_record c r :
  records c = {[(Namespace r, Name r) := r]} → unambiguous c ∧ one_per_target c.
Proof.
  intros Hc. split.
  - intros tenant app name r1 r2 _ _ _ ([k1 H1] & _) ([k2 H2] & _). rewrite Hc in H1, H2.
    apply lookup_singleton_Some in H1 as [_ <-], H2 as [_ <-]. done.
  - intros k1 k2 r1 r2 H1 H2 _ _ _. rewrite Hc in H1, H2.
    apply lookup_singleton_Some in H1 as [<- _], H2 as [<- _]. done.
Qed.


(** ** Requests *)

Definition signing : string := "0123456789abcdef0123456789abcdef".
Definition verifier : Verifier := mkVerifier "https://issuer" "https://issuer/keys".
Definition alice : Caller := mkCaller "app-a" "t" "a" "https://a.example" "alice".

(** The ticket issued for alice at 1000 s: eight hours would pass the record's end. *)
Definition pass : ticket := mkTicket "uid-1" "p1.previews.dev" "alice" 5000 "https://a.example".

Definition request0 : Request :=
  mkRequest "10.1.0.1" "P1.previews.dev:443" "/" "" "" "" "" None "" "iframe" [].
Definition with_cookie (line : string) : Request :=
  mkRequest "10.1.0.1" "P1.previews.dev:443" "/" "" "" "" "" None "" "iframe" [line].
Definition visit_request : Request :=
  with_cookie ("theme=dark; " +:+ CookieName +:+ "=" +:+ seal signing pass).
Definition platform : Identity := GatewayIdentity verifier.

Lemma visit_proxied :
  (Previews platform (CookieSession signing) visit_request (env [shop])).1
  = Ok (Proxied "10.0.0.5:3000" ["theme=dark"]).
Proof. vm_compute. reflexivity. Qed.


Lemma cookie_authorised_witness :
  ∃ rec tk, t_Record tk = UID rec ∧ Allowed rec (t_Subject tk) = true.
Proof.
  pose proof visit_proxied as Hp.
  destruct (Previews platform (CookieSession signing) visit_request (env [shop])) as [a e'] eqn:E.
  cbn in Hp. subst a.
  destruct (cookie_authorised platform signing visit_request (env [shop]) e' "10.0.0.5:3000" ["theme=dark"] E)
    as (k & rec & v & p & sig & tk & _ & _ & _ & _ & _ & _ & Hr & _ & _ & Ha).
  exists rec, tk. exact (conj Hr Ha).
Defined.

(** ** Codes *)

Definition issue := EvIssue "random" pass.
Definition redeem := EvRedeem (b64 "random") "p1.previews.dev".

Lemma redeem_exact_witness :
  Some pass = redeems (pending (rev
    [mkHappened issue None (sec 1000); mkHappened (EvWait 9000000000) None (sec 1009)])
    (b64 "random")) "p1.previews.dev" (sec 1009).
Proof.
  apply (redeem_exact [issue; EvWait 9000000000; redeem] (env [shop])
    [mkHappened issue None (sec 1000); mkHappened (EvWait 9000000000) None (sec 1009)] []).
  - reflexivity.
  - vm_compute. reflexivity.
Defined.

Lemma code_single_use_witness :
  ∃ x b t, x ∈ [mkHappened redeem None (sec 1000); mkHappened issue None (sec 1000)] ∧
    h_event x = EvIssue b t ∧ b64 b = b64 "random".
Proof.
  apply (code_single_use [issue; redeem; redeem; issue; redeem] (env [shop])
    [mkHappened issue None (sec 1000)]
    [mkHappened redeem None (sec 1000); mkHappened issue None (sec 1000)] []
    (b64 "random") "p1.previews.dev" "p1.previews.dev" pass pass (sec 1000) (sec 1000)).
  - reflexivity.
  - vm_compute. reflexivity.
Defined.

Lemma SessionLifetime_bounds_witness : (SessionLifetime shop (sec 1000) mod ns_second = 0)%Z.
Proof.
  destruct (SessionLifetime_bounds shop (sec 1000)) as (_ & H & _).
  - reflexivity.
  - exact H.
Defined.

(** The environment after alice's code was issued. *)
Definition begun : Env := (cookie_Begin shop alice (sec 1000) (env [shop])).2.
Definition handoff : Request :=
  mkRequest "203.0.113.9" "p1.previews.dev" "/_handoff" (b64 "random") "" "" "" None "" "iframe" [].

Lemma handoff_admits_witness :
  ∃ ck e3, Previews platform (CookieSession signing) handoff begun = (Ok (Handoff "/" ck), e3) ∧
    codes (mem e3) !! b64 "random" = None.
Proof.
  assert (HB : ∃ x, (cookie_Begin shop alice (sec 1000) (env [shop])).1 = Ok x).
  { eexists. vm_compute. reflexivity. }
  destruct HB as [x HB].
  destruct (handoff_admits platform signing shop alice (sec 1000) (env [shop]) begun begun
    "random" [] x handoff) as (ck & e3 & H & _ & _ & _ & _ & _ & Hc & _).
  - reflexivity.
  - rewrite <-HB. unfold begun. apply surjective_pairing.
  - vm_compute. reflexivity.
  - discriminate.
  - vm_compute. reflexivity.
  - reflexivity.
  - vm_compute. reflexivity.
  - vm_compute. reflexivity.
  - vm_compute. discriminate.
  - exists ("app-a", "shop"). vm_compute. reflexivity.
  - intros k y Hy _.
    assert (Hr : records (cluster begun) = {[("app-a", "shop") := shop]}) by (vm_compute; reflexivity).
    rewrite Hr in Hy. apply lookup_singleton_Some in Hy as [_ <-]. reflexivity.
  - reflexivity.
  - reflexivity.
  - vm_compute. reflexivity.
  - exists ck, e3. exact (conj H Hc).
Defined.

(** ** Tokens and the codes endpoint *)

Definition jws : string := b64 "h" +:+ "." +:+ b64 "p" +:+ "." +:+ b64 "s".

Lemma Verify_accepts_witness : ∃ cl, json_claims "p" = Some cl ∧ Sub_ cl = "alice".
Proof.
  assert (HV : (Verify verifier jws (env [shop])).1 = Ok "alice") by (vm_compute; reflexivity).
  destruct (Verify verifier jws (env [shop])) as [s e'] eqn:E. cbn in HV. subst s.
  destruct (Verify_accepts verifier jws (env [shop]) e' "alice" E)
    as (h & p & s & hdr & m & k & sig & cl & x & t & _ & _ & _ & _ & _ & _ & _ & Hd & _ & Hs & _).
  exists cl. split; [|exact Hs]. unfold decodeSegment in Hd. destruct (unb64 p); [exact Hd|discriminate].
Defined.

Definition forged : list (N * string) :=
  [(0%N, "x"); (1%N, "y"); (31000000000%N, "x"); (5%N, "z")].

Lemma refetch_spaced_witness : spaced (30 * ns_second) (fetches (kid_run verifier forged (env [shop]))).
Proof.
  apply (refetch_spaced verifier forged (env [shop])).
  - discriminate.
  - vm_compute. discriminate.
  - reflexivity.
Defined.

Definition keyless : Env :=
  set_mem (set_keys None zero_time mem0) (env [shop]).

Lemma refetch_unbounded_witness :
  length (fetches (kid_run verifier (replicate 3 (0%N, "x")) keyless)) = 3.
Proof. apply (refetch_unbounded verifier "x" 3 keyless); reflexivity. Defined.

Definition ask : Request :=
  mkRequest "10.1.0.1" "a.example" "" "" ("Bearer " +:+ jws) "https://a.example"
    "application/json" (Some "shop") "" "" [].

Lemma codes_issued_only_witness :
  ∃ c rec, ca_Origin c = "https://a.example" ∧ Allowed rec (ca_Subject c) = true ∧
    ∃ k, records (tenant_of [shop]) !! k = Some rec.
Proof.
  assert (Hrun : ∃ a, (handleCodes platform (CookieSession signing) ask (env [shop])).1 = Ok a ∧
    is_Some (codes (mem (handleCodes platform (CookieSession signing) ask (env [shop])).2) !! b64 "random")).
  { eexists. split; vm_compute; [reflexivity|]. eexists. reflexivity. }
  destruct Hrun as (a & Ha & Hk).
  destruct (handleCodes platform (CookieSession signing) ask (env [shop])) as [x e'] eqn:E.
  cbn [fst snd] in Ha, Hk. subst x.
  destruct (codes_issued_only verifier signing ask (env [shop]) e' a) as [H|H].
  - apply well_formed_check; vm_compute; reflexivity.
  - intros ns n Hn.
    assert (Hall : map_Forall (λ _ n, no_slash (label (Labels n) LabelApp)) (namespaces (tenant_of [shop]))).
    { apply map_Forall_insert_2; [vm_compute; reflexivity|].
      apply map_Forall_singleton. vm_compute. reflexivity. }
    exact (Hall ns n Hn).
  - exact E.
  - exfalso. rewrite H in Hk. destruct Hk as [v Hv].
    change (codes (mem (env [shop]))) with (∅ : gmap string code) in Hv. rewrite lookup_empty in Hv. discriminate Hv.
  - destruct H as (c & id & rec & t & b & _ & _ & Ho & _ & Hreach & _ & Hal & _).
    exists c, rec. exact (conj (eq_sym Ho) (conj Hal (proj1 Hreach))).
Defined.

Lemma blank_cookie_forwarded_witness :
  stripCookie [CookieName +:+ " =" +:+ seal signing pass] CookieName
  = [CookieName +:+ " =" +:+ seal signing pass].
Proof.
  apply (blank_cookie_forwarded (with_cookie (CookieName +:+ " =" +:+ seal signing pass))
    (seal signing pass)).
  - vm_compute. reflexivity.
  - reflexivity.
Defined.
