(* ===== verification/JobTypes.v ===== *)
(** * JobTypes: EphemeralJobs, the cluster objects they become, and the client.

    Models the types of operators/ephemeral-job-operator/api/v1alpha1 and the state
    the controller of internal/controller works on. [World] is the cluster (a map of
    each kind of object), the copy of the EphemeralJob the pass works on, which every
    function of the controller shares and writes through a pointer, the clock, and
    the log of callbacks posted. A call to the API server takes its outcome from a
    script ([faults]); a server may act on a call it then reports as failed.

    Of the Kubernetes types the fields the controller reads or writes are kept; a
    field it only copies is a string. A resource quantity is its text. Times are
    nanoseconds since the epoch; the API server keeps whole seconds. *)

From S2P Require Import Prelude.

Local Open Scope string_scope.

(** ** Pods as the controller describes them *)

Inductive EnvSource :=
| EnvLiteral (value : string)
| EnvConfigMap (name key : string) (optional : bool)
| EnvSecret (name key : string) (optional : bool).
Record EnvVar := mkEnvVar { ev_Name : string; ev_Source : EnvSource }.

Record Mount := mkMount {
  mt_Name : string;
  mt_Path : string;
  mt_ReadOnly : bool;
  mt_HostToContainer : bool }.

Inductive VolumeSource :=
| EmptyDir
| ServiceAccountToken (audience : string) (expirationSeconds : Z) (path : string)
| OtherSource (text : string).
Record Volume := mkVolume { vol_Name : string; vol_Source : VolumeSource }.

Record SecurityContext := mkSecurityContext {
  sc_AllowPrivilegeEscalation : option bool;
  sc_RunAsNonRoot : option bool;
  sc_RunAsUser : option Z;
  sc_ReadOnlyRootFilesystem : option bool;
  sc_DropCapabilities : list string;
  sc_Privileged : option bool;
  sc_SeccompRuntimeDefault : bool }.

Record Probe := mkProbe {
  pr_Exec : list string;
  pr_InitialDelaySeconds : Z;
  pr_PeriodSeconds : Z;
  pr_FailureThreshold : Z;
  pr_Rest : string }.

Abbreviation ResourceList := (gmap string string).
Record Container := mkContainer {
  c_Name : string;
  c_Image : string;
  c_Command : list string;
  c_Args : list string;
  c_Env : list EnvVar;
  c_Requests : ResourceList;
  c_Limits : ResourceList;
  c_Mounts : list Mount;
  c_Security : option SecurityContext;
  c_Ports : list Z;
  c_WorkingDir : string;
  c_ImagePullPolicy : string;
  c_ReadinessProbe : option Probe;
  c_LivenessProbe : option Probe;
  c_StartupProbe : option Probe;
  c_RestartAlways : bool }.
Definition set_c_Env x r := mkContainer (c_Name r) (c_Image r) (c_Command r) (c_Args r) x (c_Requests r) (c_Limits r) (c_Mounts r) (c_Security r) (c_Ports r) (c_WorkingDir r) (c_ImagePullPolicy r) (c_ReadinessProbe r) (c_LivenessProbe r) (c_StartupProbe r) (c_RestartAlways r).
Definition set_c_Requests x r := mkContainer (c_Name r) (c_Image r) (c_Command r) (c_Args r) (c_Env r) x (c_Limits r) (c_Mounts r) (c_Security r) (c_Ports r) (c_WorkingDir r) (c_ImagePullPolicy r) (c_ReadinessProbe r) (c_LivenessProbe r) (c_StartupProbe r) (c_RestartAlways r).
Definition set_c_Limits x r := mkContainer (c_Name r) (c_Image r) (c_Command r) (c_Args r) (c_Env r) (c_Requests r) x (c_Mounts r) (c_Security r) (c_Ports r) (c_WorkingDir r) (c_ImagePullPolicy r) (c_ReadinessProbe r) (c_LivenessProbe r) (c_StartupProbe r) (c_RestartAlways r).
Definition set_c_Mounts x r := mkContainer (c_Name r) (c_Image r) (c_Command r) (c_Args r) (c_Env r) (c_Requests r) (c_Limits r) x (c_Security r) (c_Ports r) (c_WorkingDir r) (c_ImagePullPolicy r) (c_ReadinessProbe r) (c_LivenessProbe r) (c_StartupProbe r) (c_RestartAlways r).

Record Toleration := mkToleration {
  tol_Key : string;
  tol_Operator : string;
  tol_Value : string;
  tol_Effect : string }.
Record PodSpec := mkPodSpec {
  ps_RestartPolicy : string;
  ps_AutomountServiceAccountToken : option bool;
  ps_NodeSelector : gmap string string;
  ps_Tolerations : list Toleration;
  ps_PriorityClassName : string;
  ps_Ndots : string;
  ps_RunAsNonRoot : option bool;
  ps_RunAsUser : option Z;
  ps_SeccompRuntimeDefault : bool;
  ps_InitContainers : list Container;
  ps_Containers : list Container;
  ps_Volumes : list Volume;
  ps_ImagePullSecrets : list string;
  ps_TerminationGracePeriodSeconds : option Z;
  ps_RuntimeClassName : option string }.

(** ** The EphemeralJob *)

(** The phase is a string; these are the values the operator knows. *)
Definition PhaseProvisioning := "Provisioning".
Definition PhaseRunning := "Running".
Definition PhaseSucceeded := "Succeeded".
Definition PhaseFailed := "Failed".
Definition PhaseTimedOut := "TimedOut".
Definition PhaseCancelled := "Cancelled".

Definition ConditionCapacity := "CapacityAvailable".
Definition ConditionComplete := "Complete".
Definition ConditionCallbackDelivered := "CallbackDelivered".
Definition ConditionReadyNotified := "ReadyNotified".

Definition ReasonQuotaRejected := "QuotaRejected".
Definition ReasonWaitingForCapacity := "WaitingForCapacity".
Definition ReasonCapacityUnavailable := "CapacityUnavailable".
Definition ReasonScheduled := "Scheduled".
Definition ReasonPlacementUnsatisfiable := "PlacementUnsatisfiable".
Definition ReasonCapacityTimeout := "CapacityTimeout".
Definition ReasonAdmissionRejected := "AdmissionRejected".

Definition ModeService := "Service".
Definition IsolationSandboxed := "Sandboxed".
Definition DefaultKeepCheckpoints : Z := 5.

Record IdentityToken := mkIdentityToken { it_Audience : string; it_ExpirationSeconds : option Z }.
Record PeerSpec := mkPeerSpec { pe_JobName : string; pe_TargetPort : Z; pe_ListenPort : Z }.
Record ServiceSpec := mkServiceSpec { sv_Ports : list Z; sv_Type : string }.
Record OutputSpec := mkOutputSpec { ObjectPrefix : string }.

Record WorkspacePersistenceSpec := mkWorkspacePersistence {
  WorkspaceID : string;
  AppID : string;
  CheckpointIntervalSeconds : option Z;
  CheckpointOnShutdown : option bool;
  SharedWorkspaceID : string;
  KeepCheckpoints : option Z;
  RetainAllCheckpoints : bool;
  CheckpointID : string;
  ReadOnly : bool;
  SharedWorkspaceReadOnly : bool;
  SharedWorkspaceRefresh : bool;
  PinnedCheckpoints : list string }.

(** [Resources] is the requests and the limits; [Input] the raw JSON. *)
Record EphemeralJobSpec := mkEJSpec {
  Image : string;
  Command : list string;
  Args : list string;
  Env : gmap string string;
  sp_IdentityToken : option IdentityToken;
  Resources : option (ResourceList * ResourceList);
  Input : option string;
  Output : option OutputSpec;
  CallbackURL : string;
  TimeoutSeconds : Z;
  CapacityWaitSeconds : option Z;
  TTLSecondsAfterFinished : Z;
  PlacementClass : string;
  Mode : string;
  Ports : list Z;
  WorkingDir : string;
  ReadinessProbe : option Probe;
  LivenessProbe : option Probe;
  ImagePullPolicy : string;
  Sidecars : list Container;
  Volumes : list Volume;
  VolumeMounts : list Mount;
  ImagePullSecrets : list string;
  sp_Service : option ServiceSpec;
  IdleTimeoutSeconds : Z;
  ReadinessDeadlineSeconds : Z;
  MaxLifetimeSeconds : Z;
  TerminationGracePeriodSeconds : option Z;
  RequestID : string;
  Cancelled : bool;
  RetryLimit : Z;
  WorkspacePersistence : option WorkspacePersistenceSpec;
  sp_Isolation : string;
  Peer : option PeerSpec }.

Record Condition := mkCondition {
  cd_Status : bool;
  cd_Reason : string;
  cd_Message : string;
  cd_ObservedGeneration : Z }.

(** Conditions are keyed by their type, as the API declares them. *)
Record EphemeralJobStatus := mkEJStatus {
  Phase : string;
  Conditions : gmap string Condition;
  TerminalEventID : string;
  RetryCount : Z;
  JobName : string;
  PodName : string;
  ServiceName : string;
  LastActivityTime : option Z;
  StartTime : option Z;
  CompletionTime : option Z;
  ExitCode : option Z;
  Message : string;
  ObservedGeneration : Z }.
Definition set_Phase x r := mkEJStatus x (Conditions r) (TerminalEventID r) (RetryCount r) (JobName r) (PodName r) (ServiceName r) (LastActivityTime r) (StartTime r) (CompletionTime r) (ExitCode r) (Message r) (ObservedGeneration r).
Definition set_Conditions x r := mkEJStatus (Phase r) x (TerminalEventID r) (RetryCount r) (JobName r) (PodName r) (ServiceName r) (LastActivityTime r) (StartTime r) (CompletionTime r) (ExitCode r) (Message r) (ObservedGeneration r).
Definition set_TerminalEventID x r := mkEJStatus (Phase r) (Conditions r) x (RetryCount r) (JobName r) (PodName r) (ServiceName r) (LastActivityTime r) (StartTime r) (CompletionTime r) (ExitCode r) (Message r) (ObservedGeneration r).
Definition set_JobName x r := mkEJStatus (Phase r) (Conditions r) (TerminalEventID r) (RetryCount r) x (PodName r) (ServiceName r) (LastActivityTime r) (StartTime r) (CompletionTime r) (ExitCode r) (Message r) (ObservedGeneration r).
Definition set_PodName x r := mkEJStatus (Phase r) (Conditions r) (TerminalEventID r) (RetryCount r) (JobName r) x (ServiceName r) (LastActivityTime r) (StartTime r) (CompletionTime r) (ExitCode r) (Message r) (ObservedGeneration r).
Definition set_ServiceName x r := mkEJStatus (Phase r) (Conditions r) (TerminalEventID r) (RetryCount r) (JobName r) (PodName r) x (LastActivityTime r) (StartTime r) (CompletionTime r) (ExitCode r) (Message r) (ObservedGeneration r).
Definition set_LastActivityTime x r := mkEJStatus (Phase r) (Conditions r) (TerminalEventID r) (RetryCount r) (JobName r) (PodName r) (ServiceName r) x (StartTime r) (CompletionTime r) (ExitCode r) (Message r) (ObservedGeneration r).
Definition set_StartTime x r := mkEJStatus (Phase r) (Conditions r) (TerminalEventID r) (RetryCount r) (JobName r) (PodName r) (ServiceName r) (LastActivityTime r) x (CompletionTime r) (ExitCode r) (Message r) (ObservedGeneration r).
Definition set_CompletionTime x r := mkEJStatus (Phase r) (Conditions r) (TerminalEventID r) (RetryCount r) (JobName r) (PodName r) (ServiceName r) (LastActivityTime r) (StartTime r) x (ExitCode r) (Message r) (ObservedGeneration r).
Definition set_ExitCode x r := mkEJStatus (Phase r) (Conditions r) (TerminalEventID r) (RetryCount r) (JobName r) (PodName r) (ServiceName r) (LastActivityTime r) (StartTime r) (CompletionTime r) x (Message r) (ObservedGeneration r).
Definition set_Message x r := mkEJStatus (Phase r) (Conditions r) (TerminalEventID r) (RetryCount r) (JobName r) (PodName r) (ServiceName r) (LastActivityTime r) (StartTime r) (CompletionTime r) (ExitCode r) x (ObservedGeneration r).
Definition set_ObservedGeneration x r := mkEJStatus (Phase r) (Conditions r) (TerminalEventID r) (RetryCount r) (JobName r) (PodName r) (ServiceName r) (LastActivityTime r) (StartTime r) (CompletionTime r) (ExitCode r) (Message r) x.

Record EphemeralJob := mkEphemeralJob {
  Namespace : string;
  Name : string;
  UID : string;
  Labels : gmap string string;
  Generation : Z;
  CreationTimestamp : Z;
  Deleting : bool;
  Spec : EphemeralJobSpec;
  Status : EphemeralJobStatus }.
Definition set_Status x r := mkEphemeralJob (Namespace r) (Name r) (UID r) (Labels r) (Generation r) (CreationTimestamp r) (Deleting r) (Spec r) x.

#[export] Instance Condition_eq_dec : EqDecision Condition.
Proof. solve_decision. Defined.
#[export] Instance EphemeralJobStatus_eq_dec : EqDecision EphemeralJobStatus.
Proof. solve_decision. Defined.

(** ** The objects of the cluster *)

Record JobCondition := mkJobCondition {
  jc_Type : string;
  jc_Status : string;
  jc_Reason : string;
  jc_Message : string }.
Definition JobComplete := "Complete".
Definition JobFailed := "Failed".

(** A batch/v1 Job. [j_IgnoreDisruption]: its pod failure policy ignores disruptions. *)
Record Job := mkJob {
  j_Namespace : string;
  j_Name : string;
  j_UID : string;
  j_Labels : gmap string string;
  j_Owner : option string;
  j_Deleting : bool;
  j_BackoffLimit : Z;
  j_IgnoreDisruption : bool;
  j_TTL : Z;
  j_TemplateLabels : gmap string string;
  j_Template : PodSpec;
  j_Conditions : list JobCondition }.
Definition set_j_UID x r := mkJob (j_Namespace r) (j_Name r) x (j_Labels r) (j_Owner r) (j_Deleting r) (j_BackoffLimit r) (j_IgnoreDisruption r) (j_TTL r) (j_TemplateLabels r) (j_Template r) (j_Conditions r).
Definition set_j_Owner x r := mkJob (j_Namespace r) (j_Name r) (j_UID r) (j_Labels r) x (j_Deleting r) (j_BackoffLimit r) (j_IgnoreDisruption r) (j_TTL r) (j_TemplateLabels r) (j_Template r) (j_Conditions r).
Definition set_j_Deleting x r := mkJob (j_Namespace r) (j_Name r) (j_UID r) (j_Labels r) (j_Owner r) x (j_BackoffLimit r) (j_IgnoreDisruption r) (j_TTL r) (j_TemplateLabels r) (j_Template r) (j_Conditions r).

Record Waiting := mkWaiting { wt_Reason : string; wt_Message : string }.
Record Terminated := mkTerminated { tm_ExitCode : Z; tm_Reason : string; tm_Message : string }.
Record ContainerStatus := mkContainerStatus {
  cs_Name : string;
  cs_Ready : bool;
  cs_Waiting : option Waiting;
  cs_Terminated : option Terminated;
  cs_LastTerminated : option Terminated }.
Record PodCondition := mkPodCondition {
  pc_Type : string;
  pc_Status : string;
  pc_Reason : string;
  pc_Message : string }.

Record Pod := mkPod {
  p_Namespace : string;
  p_Name : string;
  p_Labels : gmap string string;
  p_Owner : option string;
  p_Deleting : bool;
  p_Spec : PodSpec;
  p_Phase : string;
  p_Conditions : list PodCondition;
  p_InitStatuses : list ContainerStatus;
  p_Statuses : list ContainerStatus;
  p_Reason : string }.
Definition set_p_Name x r := mkPod (p_Namespace r) x (p_Labels r) (p_Owner r) (p_Deleting r) (p_Spec r) (p_Phase r) (p_Conditions r) (p_InitStatuses r) (p_Statuses r) (p_Reason r).
Definition set_p_Owner x r := mkPod (p_Namespace r) (p_Name r) (p_Labels r) x (p_Deleting r) (p_Spec r) (p_Phase r) (p_Conditions r) (p_InitStatuses r) (p_Statuses r) (p_Reason r).
Definition set_p_Deleting x r := mkPod (p_Namespace r) (p_Name r) (p_Labels r) (p_Owner r) x (p_Spec r) (p_Phase r) (p_Conditions r) (p_InitStatuses r) (p_Statuses r) (p_Reason r).

Record Service := mkService {
  s_Labels : gmap string string;
  s_Owner : option string;
  s_Type : string;
  s_Selector : gmap string string;
  s_Ports : list Z }.
Definition set_s_Owner x r := mkService (s_Labels r) x (s_Type r) (s_Selector r) (s_Ports r).

Record Event := mkEvent {
  e_Namespace : string;
  e_InvolvedName : string;
  e_InvolvedUID : string;
  e_Reason : string;
  e_Message : string;
  e_Count : Z }.

(** A CiliumNetworkPolicy: the pods it selects by their UID label, and the traffic it
    adds. *)
Inductive Rule :=
| FromPod (uid port : string)
| ToPod (uid port : string)
| ToHost (name port : string).
Record Policy := mkPolicy {
  pol_Labels : gmap string string;
  pol_Owner : option string;
  pol_Selector : string;
  pol_Ingress : list Rule;
  pol_Egress : list Rule }.
#[export] Instance Rule_eq_dec : EqDecision Rule.
Proof. solve_decision. Defined.

(** Namespaces and nodes are kept for their labels, ConfigMaps for their data. *)
Record Cluster := mkCluster {
  ejs : gmap (string * string) EphemeralJob;
  jobs : gmap (string * string) Job;
  pods : gmap (string * string) Pod;
  services : gmap (string * string) Service;
  policies : gmap (string * string) Policy;
  nodes : list (gmap string string);
  events : list Event;
  namespaces : gmap string (gmap string string);
  configmaps : gmap (string * string) (gmap string string) }.
Definition set_ejs x r := mkCluster x (jobs r) (pods r) (services r) (policies r) (nodes r) (events r) (namespaces r) (configmaps r).
Definition set_jobs x r := mkCluster (ejs r) x (pods r) (services r) (policies r) (nodes r) (events r) (namespaces r) (configmaps r).
Definition set_pods x r := mkCluster (ejs r) (jobs r) x (services r) (policies r) (nodes r) (events r) (namespaces r) (configmaps r).
Definition set_services x r := mkCluster (ejs r) (jobs r) (pods r) x (policies r) (nodes r) (events r) (namespaces r) (configmaps r).
Definition set_policies x r := mkCluster (ejs r) (jobs r) (pods r) (services r) x (nodes r) (events r) (namespaces r) (configmaps r).

(** ** The client *)

Inductive ErrKind :=
| NotFound | AlreadyExists | Conflict | BadRequest | Forbidden | Invalid | OtherError.
Record error := mkError { er_Kind : ErrKind; er_Text : string }.
#[export] Instance ErrKind_eq_dec : EqDecision ErrKind.
Proof. solve_decision. Defined.

Inductive fault :=
| Fine
| FailBefore (e : error)
| FailAfter (e : error).

(** What the receiver of a callback answers. *)
Inductive reply :=
| NoAnswer (why : string)
| StatusCode (n : Z).

(** The body of a callback. *)
Record Payload := mkPayload {
  pl_jobId : string;
  pl_status : string;
  pl_exitCode : option Z;
  pl_output : option OutputSpec;
  pl_message : string;
  pl_eventId : string;
  pl_requestId : string;
  pl_uid : string;
  pl_timestamp : string;
  pl_labels : gmap string string;
  pl_reason : option string }.

(** [serial] counts the names and UIDs the API server has made up, and the lists it
    has answered. *)
Record World := mkWorld {
  cluster : Cluster;
  ej : EphemeralJob;
  clk : Z;
  ticks : list N;
  faults : list fault;
  replies : list reply;
  posts : list (string * Payload);
  serial : nat }.
Definition set_cluster x r := mkWorld x (ej r) (clk r) (ticks r) (faults r) (replies r) (posts r) (serial r).
Definition set_ej x r := mkWorld (cluster r) x (clk r) (ticks r) (faults r) (replies r) (posts r) (serial r).
Definition set_faults x r := mkWorld (cluster r) (ej r) (clk r) (ticks r) x (replies r) (posts r) (serial r).
Definition set_serial x r := mkWorld (cluster r) (ej r) (clk r) (ticks r) (faults r) (replies r) (posts r) x.
Definition set_time t l w :=
  mkWorld (cluster w) (ej w) t l (faults w) (replies w) (posts w) (serial w).
Definition set_posts r l w :=
  mkWorld (cluster w) (ej w) (clk w) (ticks w) (faults w) r l (serial w).

Abbreviation JM := (goM World error).

(** What the libraries provide: the order of a list or of a map, a comparison of
    quantities, SHA-256 in hexadecimal, JSON, URLs, times, and the names the API
    server makes up. [logs] is what a pod's workload container last printed, up to
    the limits of the request. *)
Class JobLibrary := {
  order_pods : nat → list Pod → list Pod;
  order_events : nat → list Event → list Event;
  order_env : gmap string string → list (string * string);
  Cmp : string → string → comparison;
  sha256_hex : string → string;
  json_output : OutputSpec → option string;
  json_payload : Payload → option string;
  url_hostname : string → option string;
  valid_url : string → bool;
  rfc3339 : Z → string;
  made_up : nat → string;
  logs : Pod → option string }.

(** An order is a permutation; comparison is reflexive; a digest has 64 digits. *)
Class JobLibraryLaws (L : JobLibrary) := {
  order_pods_perm n l : order_pods n l ≡ₚ l;
  order_events_perm n l : order_events n l ≡ₚ l;
  order_env_perm m : order_env m ≡ₚ map_to_list m;
  Cmp_refl q : Cmp q q = Eq;
  sha256_hex_length s : String.length (sha256_hex s) = 64%nat }.

Definition ns_second : Z := 1000000000.
Definition seconds (n : Z) : Z := (n * ns_second)%Z.
Definition Now : JM Z := λ w,
  let t := (clk w + Z.of_N (default 0%N (head (ticks w))))%Z in
  (Ok t, set_time t (tail (ticks w)) w).
(** time.Since: the difference of two times saturates. *)
Definition Sub (t u : Z) : Z := (Z.max (- 2 ^ 63) (Z.min (2 ^ 63 - 1) (t - u)))%Z.
Definition Since (t : Z) : JM Z := now ← Now; mret (Sub now t).
(** Duration.Truncate to a second; the server keeps whole seconds of a time. *)
Definition Truncate (d : Z) : Z := (Z.quot d ns_second * ns_second)%Z.
Definition wire_time (t : Z) : Z := (t / ns_second * ns_second)%Z.
Definition wire (s : EphemeralJobStatus) : EphemeralJobStatus :=
  set_LastActivityTime (wire_time <$> LastActivityTime s)
    (set_StartTime (wire_time <$> StartTime s)
      (set_CompletionTime (wire_time <$> CompletionTime s) s)).

Definition pop_fault : JM fault := λ w,
  match faults w with
  | [] => (Ok Fine, w)
  | f :: l => (Ok f, set_faults l w)
  end.
Definition fresh : JM nat := λ w, (Ok (serial w), set_serial (S (serial w)) w).

(** A read of the cluster. *)
Definition read {A} (what : string) (f : Cluster → option A) : JM A :=
  o ← pop_fault;
  match o with
  | Fine =>
      r ← gets (λ w, f (cluster w));
      match r with Some a => mret a | None => throw (mkError NotFound (what +:+ " not found")) end
  | FailBefore e | FailAfter e => throw e
  end.

(** A write: [f] is what the server does, or the error it refuses with. *)
Definition write (f : Cluster → result error Cluster) : JM unit :=
  let act : JM unit := λ w,
    match f (cluster w) with
    | Ok c => (Ok (), set_cluster c w)
    | Err e => (Err e, w)
    end in
  o ← pop_fault;
  match o with
  | Fine => act
  | FailBefore e => throw e
  | FailAfter e => act ≫= λ _, throw e
  end.

(** client.IgnoreNotFound of the error of [m]. *)
Definition ignoring (k : ErrKind) (m : JM unit) : JM unit :=
  r ← attempt m;
  match r with
  | Ok _ => mret ()
  | Err e => if decide (er_Kind e = k) then mret () else throw e
  end.

Definition absent (what : string) : error := mkError NotFound (what +:+ " not found").
Definition present (what : string) : error := mkError AlreadyExists (what +:+ " already exists").

Definition GetJob (ns name : string) : JM Job := read name (λ c, jobs c !! (ns, name)).
Definition GetEphemeralJob (ns name : string) : JM EphemeralJob := read name (λ c, ejs c !! (ns, name)).
Definition GetService (ns name : string) : JM Service := read name (λ c, services c !! (ns, name)).
Definition GetPolicy (ns name : string) : JM Policy := read name (λ c, policies c !! (ns, name)).
Definition GetNamespace (name : string) : JM (gmap string string) := read name (λ c, namespaces c !! name).
Definition GetConfigMap (ns name : string) : JM (gmap string string) :=
  read name (λ c, configmaps c !! (ns, name)).

Definition has_labels (sel labels : gmap string string) : bool :=
  forallb (λ kv, bool_decide (labels !! kv.1 = Some kv.2)) (map_to_list sel).

Section client.
Context {L : JobLibrary}.

Definition ListPods (ns : string) (sel : gmap string string) : JM (list Pod) :=
  l ← read "pods" (λ c, Some (filter
    (λ p, p_Namespace p = ns ∧ has_labels sel (p_Labels p) = true) (map_to_list (pods c)).*2));
  n ← fresh; mret (order_pods n l).
Definition ListEvents (sel : Event → bool) : JM (list Event) :=
  l ← read "events" (λ c, Some (filter (λ e, sel e = true) (events c)));
  n ← fresh; mret (order_events n l).
Definition ListNodes : JM (list (gmap string string)) := read "nodes" (λ c, Some (nodes c)).

Definition CreateJob (j : Job) : JM Job :=
  n ← fresh;
  let j := set_j_UID (made_up n) j in
  let key := (j_Namespace j, j_Name j) in
  write (λ c, match jobs c !! key with
              | Some _ => Err (present (j_Name j))
              | None => Ok (set_jobs (<[key := j]> (jobs c)) c)
              end) ≫= λ _, mret j.
(** The server completes the name. *)
Definition CreatePod (generateName : string) (p : Pod) : JM Pod :=
  n ← fresh;
  let p := set_p_Name (generateName +:+ made_up n) p in
  let key := (p_Namespace p, p_Name p) in
  write (λ c, match pods c !! key with
              | Some _ => Err (present (p_Name p))
              | None => Ok (set_pods (<[key := p]> (pods c)) c)
              end) ≫= λ _, mret p.
End client.

Definition CreateService (ns name : string) (s : Service) : JM unit :=
  write (λ c, match services c !! (ns, name) with
              | Some _ => Err (present name)
              | None => Ok (set_services (<[(ns, name) := s]> (services c)) c)
              end).
Definition CreatePolicy (ns name : string) (p : Policy) : JM unit :=
  write (λ c, match policies c !! (ns, name) with
              | Some _ => Err (present name)
              | None => Ok (set_policies (<[(ns, name) := p]> (policies c)) c)
              end).
Definition UpdatePolicy (ns name : string) (p : Policy) : JM unit :=
  write (λ c, match policies c !! (ns, name) with
              | None => Err (absent name)
              | Some _ => Ok (set_policies (<[(ns, name) := p]> (policies c)) c)
              end).

(** A Job deleted in the background is gone at once, and its pods after it; in the
    foreground it stays until they are. *)
Inductive Propagation := Background | Foreground.
Definition DeleteJob (p : Propagation) (ns name : string) : JM unit :=
  write (λ c, match jobs c !! (ns, name) with
              | None => Err (absent name)
              | Some j => Ok (set_jobs (match p with
                  | Background => delete (ns, name) (jobs c)
                  | Foreground => <[(ns, name) := set_j_Deleting true j]> (jobs c)
                  end) c)
              end).
(** A pod goes when the kubelet has stopped it. *)
Definition DeletePod (ns name : string) : JM unit :=
  write (λ c, match pods c !! (ns, name) with
              | None => Err (absent name)
              | Some p => Ok (set_pods (<[(ns, name) := set_p_Deleting true p]> (pods c)) c)
              end).
Definition DeleteEphemeralJob (ns name : string) : JM unit :=
  write (λ c, match ejs c !! (ns, name) with
              | None => Err (absent name)
              | Some _ => Ok (set_ejs (delete (ns, name) (ejs c)) c)
              end).

(** The status subresource: the server takes the status of the working copy and
    nothing else of it, and answers with what it stored. *)
Definition StatusUpdate : JM unit :=
  e ← gets ej;
  let key := (Namespace e, Name e) in
  write (λ c, match ejs c !! key with
              | None => Err (absent (Name e))
              | Some old => Ok (set_ejs (<[key := set_Status (wire (Status e)) old]> (ejs c)) c)
              end) ≫= λ _,
  modify (set_ej (set_Status (wire (Status e)) e)).

(** Assigning to a field of the status of the working copy. *)
Definition assign (f : EphemeralJobStatus → EphemeralJobStatus) : JM unit :=
  modify (λ w, set_ej (set_Status (f (Status (ej w))) (ej w)) w).

Record Result := mkResult { Requeue : bool; RequeueAfter : Z }.
Definition no_requeue : Result := mkResult false 0.
Definition requeue_after (d : Z) : Result := mkResult false d.
