(* ===== verification/JobPod.v ===== *)
(** * JobPod: the pods an EphemeralJob becomes.

    Models, of operators/ephemeral-job-operator/internal/controller, the pod
    description of ephemeraljob_controller.go (both modes go through
    [buildPodSpec]), placement.go, output_storage.go and workspace_sync.go. *)

From S2P Require Import Prelude.
From S2P Require Import JobTypes.

Local Open Scope string_scope.

(** ** placement.go *)

Record Placement := mkPlacement {
  NodeSelector : gmap string string;
  Tolerations : list Toleration;
  PriorityClassName : string }.

Definition BurstTaintKey := "workload-class".
Definition BurstTaintValue := "burst".
Definition WorkloadLocationKey := "workload-location".
Definition WorkloadLocationValue := "hetzner".
Definition WorkloadLocationHome := "on-prem".
Definition NodeRoleWorkerKey := "node-role.kubernetes.io/worker".
Definition BurstPriorityClass := "burst-tenant".
Definition minWorkspaceGraceSeconds : Z := 120.
Definition WorkspaceMountPath := "/workspace".
Definition WorkspaceVolumeName := "workspace".

Definition placements : gmap string Placement :=
  <["home" := mkPlacement
      (<[WorkloadLocationKey := WorkloadLocationHome]> (<[NodeRoleWorkerKey := ""]> ∅))
      [] BurstPriorityClass]>
  (<["burst" := mkPlacement
      (<[WorkloadLocationKey := WorkloadLocationValue]> (<[NodeRoleWorkerKey := ""]> ∅))
      [mkToleration BurstTaintKey "Equal" BurstTaintValue "NoSchedule"]
      BurstPriorityClass]> ∅).

Definition ResolvePlacement (class : string) : option Placement :=
  placements !! (if String.eqb class "" then "burst" else class).

(** ** Names and labels *)

Definition labelJobUID := "compute.nutgraf.in/ephemeraljob-uid".
Definition labelJobName := "compute.nutgraf.in/ephemeraljob-name".
Definition labelSessionPeer := "compute.nutgraf.in/session-peer".
Definition labelSandbox := "agents.x-k8s.io/sandbox".
Definition fleetIDLabel := "app-id".
Definition sandboxedRuntimeClass := "sandboxed".
Definition workloadContainerName := "workload".

Definition jobNameFor (e : EphemeralJob) : string := "ej-" +:+ Name e.
Definition serviceNameFor (e : EphemeralJob) : string := Name e +:+ "-svc".
Definition tenantFromNamespace (ns : string) : string := TrimPrefix ns "tenant-".

Definition authoredLabels (e : EphemeralJob) (own : gmap string string) : gmap string string :=
  let merged := own ∪ Labels e in
  match Peer (Spec e) with
  | Some _ => <[labelSessionPeer := "true"]> merged
  | None => merged
  end.

Definition runtimeClassFor (e : EphemeralJob) : option string :=
  match Peer (Spec e) with
  | Some _ => Some sandboxedRuntimeClass
  | None => if String.eqb (sp_Isolation (Spec e)) IsolationSandboxed
            then Some sandboxedRuntimeClass else None
  end.

(** ** Requests and limits *)

Definition defaultRequestCPU := "2".
Definition defaultRequestMemory := "4Gi".
Definition defaultSidecarRequestCPU := "50m".
Definition defaultSidecarRequestMemory := "64Mi".
Definition defaultLimitCPU := "4".
Definition defaultLimitMemory := "8Gi".
Definition defaultLimitEphemeralStorage := "20Gi".
Definition defaultSidecarLimitCPU := "1".
Definition defaultSidecarLimitMemory := "1Gi".
Definition defaultSidecarLimitEphemeralStorage := "1Gi".
Definition ResourceCPU := "cpu".
Definition ResourceMemory := "memory".
Definition ResourceEphemeralStorage := "ephemeral-storage".

Definition with_request (c : Container) (name q : string) : Container :=
  match c_Requests c !! name with
  | Some _ => c
  | None => set_c_Requests (<[name := q]> (c_Requests c)) c
  end.
Definition withRequests (c : Container) (cpu memory : string) : Container :=
  with_request (with_request c ResourceCPU cpu) ResourceMemory memory.

(** ** Volumes and mounts *)

Definition hasVolume (vs : list Volume) (name : string) : bool :=
  existsb (λ v, String.eqb (vol_Name v) name) vs.
Definition appendVolumeIfAbsent (vs : list Volume) (v : Volume) : list Volume :=
  if hasVolume vs (vol_Name v) then vs else (vs ++ [v])%list.
Definition appendMountIfAbsent (ms : list Mount) (m : Mount) : list Mount :=
  if existsb (λ x, String.eqb (mt_Path x) (mt_Path m) || String.eqb (mt_Name x) (mt_Name m)) ms
  then ms else (ms ++ [m])%list.

(** The workspace volume becomes an emptyDir, and is added where there is none. *)
Fixpoint set_workspace_volume (vs : list Volume) : list Volume :=
  match vs with
  | [] => [mkVolume WorkspaceVolumeName EmptyDir]
  | v :: vs =>
      if String.eqb (vol_Name v) WorkspaceVolumeName
      then mkVolume (vol_Name v) EmptyDir :: vs
      else v :: set_workspace_volume vs
  end.

Definition identityTokenVolumeName := "platform-identity-token".
Definition identityTokenFileName := "token".
Definition IdentityTokenMountPath := "/var/run/secrets/platform.soloz.io/identity".
Definition identityTokenDefaultExpirySeconds : Z := 600.

(** ** workspace_sync.go *)

Definition minKeepCheckpoints : Z := 1.
Definition maxKeepCheckpoints : Z := 50.
Definition unboundedKeepCheckpoints : Z := 0.
Definition workspaceStagingPath := "/ws-staging".
Definition workspaceSyncPort := "7070".
Definition sharedWorkspaceSyncPort := "7071".
Definition sharedWorkspaceDirName := ".global".

Definition resolveKeepCheckpoints (ws : WorkspacePersistenceSpec) : Z :=
  if RetainAllCheckpoints ws then unboundedKeepCheckpoints
  else match KeepCheckpoints ws with
       | None => DefaultKeepCheckpoints
       | Some n => if (n <? minKeepCheckpoints)%Z then minKeepCheckpoints
                   else if (maxKeepCheckpoints <? n)%Z then maxKeepCheckpoints
                   else n
       end.
Definition keepCheckpointsEnv (keep : Z) : string :=
  if (keep =? unboundedKeepCheckpoints)%Z then "unbounded" else pretty keep.

Record workspaceSyncTarget := mkTarget {
  tg_name : string;
  tg_workspaceID : string;
  tg_root : string;
  tg_staging : string;
  tg_port : string;
  tg_readOnly : bool;
  tg_noArchive : bool;
  tg_refresh : bool }.

Definition expandWorkspaceSyncRef (template namespace fleetID : string) : string :=
  ReplaceAll (ReplaceAll template "{namespace}" namespace) "{fleetId}" (ToLower fleetID).

Definition literal (name value : string) : EnvVar := mkEnvVar name (EnvLiteral value).

(** The context every operator-authored container runs in. *)
Definition restricted (uid : option Z) : SecurityContext :=
  mkSecurityContext (Some false) (Some true) uid (Some true) ["ALL"] None true.

Section pods.
Context {L : JobLibrary} (getenv : string → string).

Definition envOr (k def : string) : string :=
  if String.eqb (getenv k) "" then def else getenv k.
Definition workspaceSyncImage : string := envOr "WORKSPACE_SYNC_IMAGE" "workspace-sync:dev".
Definition workspaceSyncSecretTemplate : string := envOr "WORKSPACE_SYNC_SECRET" "{fleetId}-sdk-secrets".
Definition workspaceSyncConfigTemplate : string := envOr "WORKSPACE_SYNC_CONFIG" "{fleetId}-config".
Definition resolveWorkspaceSyncSecret (namespace fleetID : string) : string :=
  expandWorkspaceSyncRef workspaceSyncSecretTemplate namespace fleetID.
Definition resolveWorkspaceSyncConfig (namespace fleetID : string) : string :=
  expandWorkspaceSyncRef workspaceSyncConfigTemplate namespace fleetID.

(** A resource left without a limit gets the default, or its own request where that is
    larger. *)
Definition with_limit (c : Container) (nd : string * string) : Container :=
  let '(name, def) := nd in
  match c_Limits c !! name with
  | Some _ => c
  | None =>
      let limit := match c_Requests c !! name with
                   | Some req => if decide (Cmp req def = Gt) then req else def
                   | None => def
                   end in
      set_c_Limits (<[name := limit]> (c_Limits c)) c
  end.
Definition withLimits (c : Container) (cpu memory ephemeralStorage : string) : Container :=
  foldl with_limit c [(ResourceCPU, cpu); (ResourceMemory, memory);
                      (ResourceEphemeralStorage, ephemeralStorage)].

(** The variables of a sync container, in the order they are appended. *)
Definition sync_env (ws : WorkspacePersistenceSpec) (keep : Z) (namespace fleetID : string)
    (target : workspaceSyncTarget) : list EnvVar :=
  let secret key := mkEnvVar key (EnvSecret (resolveWorkspaceSyncSecret namespace fleetID) key true) in
  let config key := mkEnvVar key (EnvConfigMap (resolveWorkspaceSyncConfig namespace fleetID) key true) in
  ([literal "WORKSPACE_ID" (tg_workspaceID target);
    literal "WORKSPACE_ROOT" (tg_root target);
    literal "STAGING_ROOT" (tg_staging target);
    literal "WORKSPACE_SYNC_PORT" (tg_port target);
    literal "APP_ID" (AppID ws);
    config "S3_ENDPOINT_URL"; config "S3_BUCKET_NAME";
    secret "S3_ACCESS_KEY_ID"; secret "S3_SECRET_ACCESS_KEY";
    config "S3_REGION";
    literal "WORKSPACE_UID" "1000";
    literal "KEEP_CHECKPOINTS" (keepCheckpointsEnv keep)]
   ++ (if String.eqb (CheckpointID ws) "" then [] else [literal "CHECKPOINT_ID" (CheckpointID ws)])
   ++ (if ReadOnly ws || tg_readOnly target then [literal "WORKSPACE_READ_ONLY" "true"] else [])
   ++ (if tg_refresh target then [literal "WORKSPACE_REFRESH" "true"] else [])
   ++ [literal "WORKSPACE_NO_ARCHIVE" "true"]
   ++ (match CheckpointOnShutdown ws with
       | Some false => [literal "WORKSPACE_SYNC_TEARDOWN" "false"]
       | _ => []
       end)
   ++ (match CheckpointIntervalSeconds ws with
       | Some n => if (0 <? n)%Z then [literal "WORKSPACE_SYNC_INTERVAL_SECONDS" (pretty n)] else []
       | None => []
       end)
   ++ (match PinnedCheckpoints ws with
       | [] => []
       | pins => [literal "PINNED_CHECKPOINTS" (Join pins ",")]
       end))%list.

Definition workspaceSyncContainerFor (ws : WorkspacePersistenceSpec) (keep : Z)
    (namespace fleetID : string) (target : workspaceSyncTarget) : Container :=
  {| c_Name := tg_name target;
     c_Image := workspaceSyncImage;
     c_Command := [];
     c_Args := ["serve"];
     c_Env := sync_env ws keep namespace fleetID target;
     c_Requests := ∅;
     c_Limits := ∅;
     c_Mounts := [mkMount WorkspaceVolumeName WorkspaceMountPath false false;
                  mkMount "ws-staging" workspaceStagingPath false false];
     c_Security := Some (restricted (Some 1000%Z));
     c_Ports := [];
     c_WorkingDir := "";
     c_ImagePullPolicy := "IfNotPresent";
     c_ReadinessProbe := None;
     c_LivenessProbe := None;
     c_StartupProbe := Some (mkProbe ["test"; "-f"; tg_staging target +:+ "/.ready"] 1 2 300 "");
     c_RestartAlways := true |}.

Definition session_target (ws : WorkspacePersistenceSpec) : workspaceSyncTarget :=
  mkTarget "workspace-sync" (WorkspaceID ws) WorkspaceMountPath workspaceStagingPath
    workspaceSyncPort false false false.
Definition workspaceSyncContainer (ws : WorkspacePersistenceSpec) (keep : Z)
    (namespace fleetID : string) : Container :=
  workspaceSyncContainerFor ws keep namespace fleetID (session_target ws).

(** ** output_storage.go *)

Definition withOutputStorageEnv (e : EphemeralJob) (env : list EnvVar) (fleetID : string) :
    list EnvVar :=
  match Output (Spec e) with
  | None => env
  | Some _ =>
      let config key optional :=
        mkEnvVar key (EnvConfigMap (resolveWorkspaceSyncConfig (Namespace e) fleetID) key optional) in
      let secret key :=
        mkEnvVar key (EnvSecret (resolveWorkspaceSyncSecret (Namespace e) fleetID) key false) in
      (env ++ filter (λ v, Env (Spec e) !! ev_Name v = None)
        [config "S3_ENDPOINT_URL" false; config "S3_BUCKET_NAME" false;
         secret "S3_ACCESS_KEY_ID"; secret "S3_SECRET_ACCESS_KEY"; config "S3_REGION" true])%list
  end.

(** ** The workload container *)

Definition envJobInput := "EPHEMERAL_JOB_INPUT".
Definition envJobOutput := "EPHEMERAL_JOB_OUTPUT".

Definition workload_env (e : EphemeralJob) : list EnvVar :=
  ((λ '(k, v), literal k v) <$> order_env (Env (Spec e)))
  ++ match Input (Spec e), Env (Spec e) !! envJobInput with
     | Some raw, None => if String.eqb raw "" then [] else [literal envJobInput raw]
     | _, _ => []
     end
  ++ match Output (Spec e), Env (Spec e) !! envJobOutput with
     | Some out, None =>
         match json_output out with Some s => [literal envJobOutput s] | None => [] end
     | _, _ => []
     end.

Definition buildWorkloadContainer (e : EphemeralJob) : Container :=
  let '(requests, limits) := default (∅, ∅) (Resources (Spec e)) in
  let container := {|
     c_Name := workloadContainerName;
     c_Image := Image (Spec e);
     c_Command := Command (Spec e);
     c_Args := Args (Spec e);
     c_Env := workload_env e;
     c_Requests := requests;
     c_Limits := limits;
     c_Mounts := match VolumeMounts (Spec e) with
                 | [] => [mkMount "workspace" "/workspace" false false;
                          mkMount "result" "/result" false false]
                 | ms => ms
                 end;
     c_Security := Some (restricted None);
     c_Ports := Ports (Spec e);
     c_WorkingDir := WorkingDir (Spec e);
     c_ImagePullPolicy := ImagePullPolicy (Spec e);
     c_ReadinessProbe := ReadinessProbe (Spec e);
     c_LivenessProbe := LivenessProbe (Spec e);
     c_StartupProbe := None;
     c_RestartAlways := false |} in
  withLimits (withRequests container defaultRequestCPU defaultRequestMemory)
    defaultLimitCPU defaultLimitMemory defaultLimitEphemeralStorage.

(** ** The pod *)

Definition default_volumes (vs : list Volume) : list Volume :=
  match vs with
  | [] => [mkVolume WorkspaceVolumeName EmptyDir; mkVolume "result" EmptyDir]
  | vs => vs
  end.

Definition shared_target (ws : WorkspacePersistenceSpec) : workspaceSyncTarget :=
  mkTarget "workspace-sync-shared" (SharedWorkspaceID ws)
    (WorkspaceMountPath +:+ "/" +:+ sharedWorkspaceDirName)
    (workspaceStagingPath +:+ "/" +:+ sharedWorkspaceDirName)
    sharedWorkspaceSyncPort (SharedWorkspaceReadOnly ws) true (SharedWorkspaceRefresh ws).

Definition sync_containers (ws : WorkspacePersistenceSpec) (namespace fleetID : string) :
    list Container :=
  let keep := resolveKeepCheckpoints ws in
  workspaceSyncContainer ws keep namespace fleetID
  :: (if String.eqb (SharedWorkspaceID ws) "" then []
      else [workspaceSyncContainerFor ws keep namespace fleetID (shared_target ws)]).

Definition as_sidecar (c : Container) : Container :=
  withLimits (withRequests c defaultSidecarRequestCPU defaultSidecarRequestMemory)
    defaultSidecarLimitCPU defaultSidecarLimitMemory defaultSidecarLimitEphemeralStorage.

(** The three places a persisted workspace shows in the pod. *)
Definition workspace_part (e : EphemeralJob) (fleetID : string) (vs : list Volume) (ms : list Mount) :
    list Volume * list Mount * list Container :=
  match WorkspacePersistence (Spec e) with
  | None => (vs, ms, [])
  | Some ws =>
      (appendVolumeIfAbsent (set_workspace_volume vs) (mkVolume "ws-staging" EmptyDir),
       appendMountIfAbsent ms (mkMount WorkspaceVolumeName WorkspaceMountPath false true),
       sync_containers ws (Namespace e) fleetID)
  end.

Definition identity_part (e : EphemeralJob) (vs : list Volume) (ms : list Mount) :
    list Volume * list Mount :=
  match sp_IdentityToken (Spec e) with
  | None => (vs, ms)
  | Some it =>
      let exp := default identityTokenDefaultExpirySeconds (it_ExpirationSeconds it) in
      (appendVolumeIfAbsent vs (mkVolume identityTokenVolumeName
         (ServiceAccountToken (it_Audience it) exp identityTokenFileName)),
       appendMountIfAbsent ms (mkMount identityTokenVolumeName IdentityTokenMountPath true false))
  end.

Definition grace_period (e : EphemeralJob) : option Z :=
  match WorkspacePersistence (Spec e), TerminationGracePeriodSeconds (Spec e) with
  | None, g => g
  | Some _, Some g => Some (if (g <? minWorkspaceGraceSeconds)%Z then minWorkspaceGraceSeconds else g)
  | Some _, None => Some minWorkspaceGraceSeconds
  end.

(** buildPodSpec, given the fleet id it reads. *)
Definition pod_spec (e : EphemeralJob) (p : Placement) (container : Container) (fleetID : string) :
    PodSpec :=
  let env := withOutputStorageEnv e (c_Env container) fleetID in
  let '(vs, ms, inits) :=
    workspace_part e fleetID (default_volumes (Volumes (Spec e))) (c_Mounts container) in
  let vs := appendVolumeIfAbsent vs (mkVolume "tmp" EmptyDir) in
  let ms := appendMountIfAbsent ms (mkMount "tmp" "/tmp" false false) in
  let '(vs, ms) := identity_part e vs ms in
  let container := set_c_Mounts ms (set_c_Env env container) in
  {| ps_RestartPolicy := if String.eqb (Mode (Spec e)) ModeService then "Always" else "Never";
     ps_AutomountServiceAccountToken := Some false;
     ps_NodeSelector := NodeSelector p;
     ps_Tolerations := Tolerations p;
     ps_PriorityClassName := PriorityClassName p;
     ps_Ndots := "2";
     ps_RunAsNonRoot := Some true;
     ps_RunAsUser := Some 1000%Z;
     ps_SeccompRuntimeDefault := true;
     ps_InitContainers := as_sidecar <$> inits;
     ps_Containers := container :: (as_sidecar <$> Sidecars (Spec e));
     ps_Volumes := vs;
     ps_ImagePullSecrets := ImagePullSecrets (Spec e);
     ps_TerminationGracePeriodSeconds := grace_period e;
     ps_RuntimeClassName := runtimeClassFor e |}.

(** The fleet id is the app-id label of the namespace; a failed read is logged and the
    id left empty. *)
Definition resolveFleetID (namespace : string) : JM string :=
  r ← attempt (GetNamespace namespace);
  match r with
  | Ok labels => mret (default "" (labels !! fleetIDLabel))
  | Err _ => mret ""
  end.

Definition buildPodSpec (e : EphemeralJob) (p : Placement) (container : Container) : JM PodSpec :=
  fleetID ← resolveFleetID (Namespace e);
  mret (pod_spec e p container fleetID).

Definition job_labels (e : EphemeralJob) (fleetID : string) : gmap string string :=
  <[labelJobUID := UID e]> (<["tenant-id" := tenantFromNamespace (Namespace e)]>
  (<["app-id" := fleetID]> (<["cost-center" := "platform"]> ∅))).

Definition buildJob (e : EphemeralJob) (name : string) (p : Placement) : JM Job :=
  fleetID ← resolveFleetID (Namespace e);
  spec ← buildPodSpec e p (buildWorkloadContainer e);
  mret {| j_Namespace := Namespace e;
          j_Name := name;
          j_UID := "";
          j_Labels := authoredLabels e (job_labels e fleetID);
          j_Owner := None;
          j_Deleting := false;
          j_BackoffLimit := 0;
          j_IgnoreDisruption := true;
          j_TTL := TTLSecondsAfterFinished (Spec e);
          j_TemplateLabels := authoredLabels e (<[labelJobUID := UID e]> (<["app-id" := fleetID]> ∅));
          j_Template := spec;
          j_Conditions := [] |}.

(** A bare pod; the API server completes its name and starts it Pending. *)
Definition buildPod (e : EphemeralJob) (p : Placement) : JM Pod :=
  let container := buildWorkloadContainer e in
  fleetID ← resolveFleetID (Namespace e);
  spec ← buildPodSpec e p container;
  mret {| p_Namespace := Namespace e;
          p_Name := "";
          p_Labels := authoredLabels e (<[labelJobName := Name e]> (job_labels e fleetID));
          p_Owner := None;
          p_Deleting := false;
          p_Spec := spec;
          p_Phase := "Pending";
          p_Conditions := [];
          p_InitStatuses := [];
          p_Statuses := [];
          p_Reason := "" |}.

Definition buildService (e : EphemeralJob) (s : ServiceSpec) : Service :=
  {| s_Labels := authoredLabels e (<[labelJobUID := UID e]>
       (<["tenant-id" := tenantFromNamespace (Namespace e)]> ∅));
     s_Owner := None;
     s_Type := if String.eqb (sv_Type s) "" then "ClusterIP" else sv_Type s;
     s_Selector := <[labelJobUID := UID e]> ∅;
     s_Ports := sv_Ports s |}.
End pods.
