(* ===== verification/JobClientFacts.v ===== *)
(** * JobClientFacts: how the calls of the controller act on the world.

    Each call in one equation over the script of failures; and the invariants that
    look only at the cluster, the working copy and the callbacks posted ([Steady]),
    which no read, clock or list can break. *)

From S2P Require Import Prelude.
From S2P Require Import JobTypes.

(** ** One equation per call *)

(** What the script says of the next call. *)
Definition next_fault (w : World) : fault := default Fine (head (faults w)).
Definition spent (w : World) : World := set_faults (tail (faults w)) w.

Lemma pop_fault_run w : pop_fault w = (Ok (next_fault w), spent w).
Proof. destruct w as [c x t l [|f fs] rs ps n]; reflexivity. Qed.

Lemma read_run {A} what (f : Cluster → option A) w :
  read what f w =
  (match next_fault w with
   | Fine => match f (cluster w) with Some a => Ok a | None => Err (absent what) end
   | FailBefore e | FailAfter e => Err e
   end, spent w).
Proof.
  unfold read. rewrite bind_run, pop_fault_run. destruct (next_fault w); [|done..].
  rewrite bind_run. cbn. by destruct (f (cluster w)).
Qed.

Lemma write_run f w :
  write f w =
  match next_fault w, f (cluster w) with
  | Fine, Ok c => (Ok (), set_cluster c (spent w))
  | FailAfter e, Ok c => (Err e, set_cluster c (spent w))
  | FailBefore e, _ => (Err e, spent w)
  | _, Err e => (Err e, spent w)
  end.
Proof.
  unfold write. rewrite bind_run, pop_fault_run.
  destruct (next_fault w); cbn; [..|rewrite bind_run]; cbn; by destruct (f (cluster w)).
Qed.

Lemma attempt_run {S E A} (m : goM S E A) s : attempt m s = (Ok (m s).1, (m s).2).
Proof. unfold attempt. by destruct (m s). Qed.

Lemma ignoring_run k m w :
  ignoring k m w =
  (match (m w).1 with
   | Ok _ => Ok ()
   | Err e => if decide (er_Kind e = k) then Ok () else Err e
   end, (m w).2).
Proof.
  unfold ignoring. rewrite bind_run, attempt_run. destruct (m w) as [[a|e] w']; cbn; [done|].
  by case_decide.
Qed.

(** A look at the clock. *)
Definition now_of (w : World) : Z := (clk w + Z.of_N (default 0%N (head (ticks w))))%Z.
Definition ticked (w : World) : World := set_time (now_of w) (tail (ticks w)) w.
Lemma Now_run w : Now w = (Ok (now_of w), ticked w).
Proof. reflexivity. Qed.
Lemma Since_run t w : Since t w = (Ok (Sub (now_of w) t), ticked w).
Proof. reflexivity. Qed.

Lemma assign_run f w : assign f w = (Ok (), set_ej (set_Status (f (Status (ej w))) (ej w)) w).
Proof. reflexivity. Qed.

Lemma fresh_run w : fresh w = (Ok (serial w), set_serial (S (serial w)) w).
Proof. reflexivity. Qed.

(** Storing the status when the call goes through. *)
Definition stored (w : World) (old : EphemeralJob) : World :=
  let s := wire (Status (ej w)) in
  set_ej (set_Status s (ej w))
    (set_cluster (set_ejs (<[(Namespace (ej w), Name (ej w)) := set_Status s old]> (ejs (cluster w)))
                    (cluster w)) (spent w)).
Lemma StatusUpdate_fine w old :
  next_fault w = Fine → ejs (cluster w) !! (Namespace (ej w), Name (ej w)) = Some old →
  StatusUpdate w = (Ok (), stored w old).
Proof.
  intros Hf Ho. unfold StatusUpdate. rewrite bind_run. cbn [gets].
  by rewrite bind_run, write_run, Hf, Ho.
Qed.

(** ** Worlds in which nothing fails *)

Definition calm (w : World) : Prop := faults w = [].

Lemma calm_next w : calm w → next_fault w = Fine.
Proof. unfold calm, next_fault. by intros ->. Qed.
Lemma calm_spent w : calm w → spent w = w.
Proof. destruct w. unfold calm. cbn. by intros ->. Qed.

Lemma read_calm {A} what (f : Cluster → option A) w :
  calm w →
  read what f w = (match f (cluster w) with Some a => Ok a | None => Err (absent what) end, w).
Proof. intros Hw. by rewrite read_run, calm_next, calm_spent. Qed.
Lemma write_calm f w :
  calm w →
  write f w = match f (cluster w) with Ok c => (Ok (), set_cluster c w) | Err e => (Err e, w) end.
Proof. intros Hw. rewrite write_run, calm_next, calm_spent by done. by destruct (f _). Qed.

(** ** Invariants that reads cannot break *)

(** [w'] differs from [w] in the clock, the replies to come and the names made up, and
    has used up some of the script. *)
Definition unmoved (w w' : World) : Prop :=
  cluster w' = cluster w ∧ ej w' = ej w ∧ posts w' = posts w ∧ faults w' `suffix_of` faults w.
Class Steady (I : World → Prop) := steady w w' : unmoved w w' → I w → I w'.

Lemma unmoved_refl w : unmoved w w.
Proof. by split_and!. Qed.
Lemma unmoved_spent w : unmoved w (spent w).
Proof. split_and!; [done..|]. destruct w as [? ? ? ? [|f l]]; cbn; [done|]. by apply suffix_cons_r. Qed.
Lemma unmoved_trans w1 w2 w3 : unmoved w1 w2 → unmoved w2 w3 → unmoved w1 w3.
Proof.
  intros (H1 & H2 & H3 & H4) (H5 & H6 & H7 & H8). split_and!; [congruence..|]. by transitivity (faults w2).
Qed.
#[export] Hint Resolve unmoved_refl unmoved_spent : core.

Section steady.
Context (I : World → Prop) {HI : Steady I}.

Lemma keeps_read {A} what (f : Cluster → option A) : keeps I (read what f).
Proof. intros w Hw. rewrite read_run. by apply (@steady I HI w); auto. Qed.

Lemma keeps_pop_fault : keeps I pop_fault.
Proof. intros w Hw. rewrite pop_fault_run. by apply (@steady I HI w); auto. Qed.

Lemma keeps_fresh : keeps I fresh.
Proof. intros w Hw. apply (@steady I HI w); [by split_and!|done]. Qed.

Lemma keeps_Now : keeps I Now.
Proof. intros w Hw. apply (@steady I HI w); [by split_and!|done]. Qed.

Lemma keeps_Since t : keeps I (Since t).
Proof. apply keeps_bind; [apply keeps_Now|intros a; apply keeps_ret]. Qed.

Lemma keeps_call f :
  (∀ w c, I w → f (cluster w) = Ok c → I (set_cluster c w)) → keeps I (write f).
Proof.
  intros Hf w Hw. rewrite write_run. assert (Hs : I (spent w)) by (by apply (@steady I HI w); auto).
  destruct (next_fault w), (f (cluster w)) eqn:E; cbn; try done; by apply (Hf (spent w)).
Qed.

Lemma keeps_ignoring k m : keeps I m → keeps I (ignoring k m).
Proof. intros Hm w Hw. rewrite ignoring_run. by apply Hm. Qed.

Lemma keeps_ListPods `{JobLibrary} ns sel : keeps I (ListPods ns sel).
Proof.
  apply keeps_bind; [apply keeps_read|intros l].
  apply keeps_bind; [apply keeps_fresh|intros n; apply keeps_ret].
Qed.

Lemma keeps_ListEvents `{JobLibrary} sel : keeps I (ListEvents sel).
Proof.
  apply keeps_bind; [apply keeps_read|intros l].
  apply keeps_bind; [apply keeps_fresh|intros n; apply keeps_ret].
Qed.
End steady.

#[export] Hint Resolve keeps_read keeps_Now keeps_Since keeps_fresh keeps_ListPods
  keeps_ListEvents keeps_ignoring : keeps.

(** A program that only reads. *)
#[export] Instance unmoved_steady w : Steady (unmoved w).
Proof. intros w1 w2 H12 H1. by eapply unmoved_trans. Qed.

Lemma reads_unmoved {A} (m : JM A) w : keeps (unmoved w) m → unmoved w (m w).2.
Proof. intros Hm. by apply Hm. Qed.

(** ** Parts of the cluster a program leaves alone *)

Definition fixed {A} (part : Cluster → A) (x : A) (w : World) : Prop := part (cluster w) = x.

#[export] Instance fixed_steady {A} (part : Cluster → A) x : Steady (fixed part x).
Proof. intros w w' (Hc & _) H. unfold fixed. by rewrite Hc. Qed.

Section fixed.
Context {A : Type} (part : Cluster → A) (x : A).

Lemma keeps_fixed_write f :
  (∀ c c', f c = Ok c' → part c' = part c) → keeps (fixed part x) (write f).
Proof. intros Hf. apply keeps_call; [apply _|]. unfold fixed. intros w c <- E. by apply Hf. Qed.

Lemma keeps_fixed_assign f : keeps (fixed part x) (assign f).
Proof. by intros w. Qed.

Lemma keeps_fixed_StatusUpdate :
  (∀ c m, part (set_ejs m c) = part c) → keeps (fixed part x) StatusUpdate.
Proof.
  intros Hp. apply keeps_bind; [by intros w|intros e]. apply keeps_bind; [|by intros _ w].
  apply keeps_fixed_write. intros c c'. destruct (ejs c !! _); [|done]. intros [= <-]. apply Hp.
Qed.
End fixed.

(** The time of the last look, and the ticks to come: programs that do not look at the
    clock keep them. *)
Definition at_time (t : Z) (l : list N) (w : World) : Prop := clk w = t ∧ ticks w = l.

Lemma keeps_at_time_read {A} t l what (f : Cluster → option A) : keeps (at_time t l) (read what f).
Proof. intros w Hw. by rewrite read_run. Qed.
Lemma keeps_at_time_write t l f : keeps (at_time t l) (write f).
Proof. intros w Hw. rewrite write_run. by repeat case_match. Qed.
Lemma keeps_at_time_fresh t l : keeps (at_time t l) fresh.
Proof. by intros w. Qed.
#[export] Hint Resolve keeps_at_time_read keeps_at_time_write keeps_at_time_fresh : keeps.

(** The working copy, which only assignments and stores touch. *)
Definition working (e : EphemeralJob) (w : World) : Prop := ej w = e.
#[export] Instance working_steady e : Steady (working e).
Proof. intros w w' (_ & He & _) H. unfold working. by rewrite He. Qed.
Lemma keeps_working_write e f : keeps (working e) (write f).
Proof. apply keeps_call; [apply _|]. by intros w c. Qed.
#[export] Hint Resolve keeps_working_write keeps_fixed_assign : keeps.
