(* ===== verification/JobPodFacts.v ===== *)
(** * JobPodFacts: what every pod of an EphemeralJob has, whatever was asked for.

    - every container carries requests and limits, and no default limit is below the
      request it goes with;
    - placement comes from the class alone, the security posture is fixed, and the
      labels other components select on are the operator's;
    - what a request states in its environment wins, and credentials come by
      reference only;
    - the workspace-sync agent reads back, from the environment the operator writes
      for it, the configuration the request asked for. *)

From S2P Require Import Prelude.
From S2P Require Import JobTypes.
From S2P Require Import JobPod.
From S2P Require Import JobClientFacts.
From S2P Require WorkspaceStore.

Local Open Scope string_scope.

(** ** Requests and limits *)

Section resources.
Context {L : JobLibrary} {LL : JobLibraryLaws L}.

(** [c] is a container that stated [req0] and [lim0], filled in. *)
Record filled (req0 lim0 : ResourceList) (c : Container) : Prop := {
  filled_requests n q : req0 !! n = Some q → c_Requests c !! n = Some q;
  filled_limits n q : lim0 !! n = Some q → c_Limits c !! n = Some q;
  filled_request n : n ∈ [ResourceCPU; ResourceMemory] → is_Some (c_Requests c !! n);
  filled_limit n : n ∈ [ResourceCPU; ResourceMemory; ResourceEphemeralStorage] →
    is_Some (c_Limits c !! n);
  filled_order n req lim : lim0 !! n = None → c_Requests c !! n = Some req →
    c_Limits c !! n = Some lim → Cmp req lim ≠ Gt }.

Lemma with_request_lookup c name q n :
  c_Requests (with_request c name q) !! n =
  if decide (n = name) then Some (default q (c_Requests c !! name)) else c_Requests c !! n.
Proof.
  unfold with_request. destruct (c_Requests c !! name) eqn:E; cbn; case_decide; subst;
    [done..|by rewrite lookup_insert_eq|by rewrite lookup_insert_ne].
Qed.

Lemma with_request_limits c name q : c_Limits (with_request c name q) = c_Limits c.
Proof. unfold with_request. by destruct (_ !! _). Qed.

(** The limit a resource is given: the stated one, or the default raised to the
    request. *)
Definition limit_for (c : Container) (n def : string) : string :=
  default (match c_Requests c !! n with
           | Some req => if decide (Cmp req def = Gt) then req else def
           | None => def
           end) (c_Limits c !! n).

Lemma with_limit_requests c nd : c_Requests (with_limit c nd) = c_Requests c.
Proof. destruct nd. unfold with_limit. by destruct (c_Limits c !! _). Qed.

Lemma with_limit_lookup c name def n :
  c_Limits (with_limit c (name, def)) !! n =
  if decide (n = name) then Some (limit_for c name def) else c_Limits c !! n.
Proof.
  unfold with_limit, limit_for. destruct (c_Limits c !! name) eqn:E; cbn; case_decide; subst;
    [done..|by rewrite lookup_insert_eq|by rewrite lookup_insert_ne].
Qed.

Lemma limit_for_order c n def req :
  c_Limits c !! n = None → c_Requests c !! n = Some req → Cmp req (limit_for c n def) ≠ Gt.
Proof.
  unfold limit_for. intros -> ->. cbn. case_decide as Hc; [by rewrite Cmp_refl|done].
Qed.

Lemma withLimits_lookup c cpu mem eph n :
  c_Limits (withLimits c cpu mem eph) !! n =
  if decide (n = ResourceEphemeralStorage) then Some (limit_for c n eph)
  else if decide (n = ResourceMemory) then Some (limit_for c n mem)
  else if decide (n = ResourceCPU) then Some (limit_for c n cpu)
  else c_Limits c !! n.
Proof.
  unfold withLimits. cbn [foldl]. rewrite !with_limit_lookup.
  repeat case_decide; subst; try done; unfold limit_for;
    by rewrite ?with_limit_requests, ?with_limit_lookup.
Qed.

(** Neither pass touches anything else. *)
Lemma filled_env c cpu mem lcpu lmem leph :
  c_Env (withLimits (withRequests c cpu mem) lcpu lmem leph) = c_Env c.
Proof.
  assert (Hl : ∀ c nd, c_Env (with_limit c nd) = c_Env c)
    by (intros c' []; unfold with_limit; by destruct (c_Limits c' !! _)).
  assert (Hr : ∀ c n q, c_Env (with_request c n q) = c_Env c)
    by (intros c' n q; unfold with_request; by destruct (c_Requests c' !! _)).
  unfold withLimits, withRequests. cbn [foldl]. by rewrite !Hl, !Hr.
Qed.

Lemma filled_security c cpu mem lcpu lmem leph :
  c_Security (withLimits (withRequests c cpu mem) lcpu lmem leph) = c_Security c.
Proof.
  assert (Hl : ∀ c nd, c_Security (with_limit c nd) = c_Security c)
    by (intros c' []; unfold with_limit; by destruct (c_Limits c' !! _)).
  assert (Hr : ∀ c n q, c_Security (with_request c n q) = c_Security c)
    by (intros c' n q; unfold with_request; by destruct (c_Requests c' !! _)).
  unfold withLimits, withRequests. cbn [foldl]. by rewrite !Hl, !Hr.
Qed.

(** The two passes together fill a container. *)
Lemma filled_in c cpu mem lcpu lmem leph :
  filled (c_Requests c) (c_Limits c) (withLimits (withRequests c cpu mem) lcpu lmem leph).
Proof.
  set (c' := withRequests c cpu mem).
  assert (HL : c_Limits c' = c_Limits c) by (unfold c', withRequests; by rewrite !with_request_limits).
  assert (HR : c_Requests (withLimits c' lcpu lmem leph) = c_Requests c').
  { unfold withLimits. cbn [foldl]. by rewrite !with_limit_requests. }
  assert (Hr : ∀ n, c_Requests c' !! n =
    if decide (n = ResourceMemory) then Some (default mem (c_Requests c !! n))
    else if decide (n = ResourceCPU) then Some (default cpu (c_Requests c !! n))
    else c_Requests c !! n).
  { intros n. unfold c', withRequests. rewrite !with_request_lookup.
    repeat case_decide; by subst. }
  split.
  - intros n q Hq. rewrite HR, Hr, Hq. by repeat case_decide.
  - intros n q Hq. rewrite withLimits_lookup. unfold limit_for. rewrite HL, Hq. by repeat case_decide.
  - intros n Hn. rewrite HR, Hr. set_unfold. repeat case_decide; [by eexists..|naive_solver].
  - intros n Hn. rewrite withLimits_lookup. set_unfold. repeat case_decide; [by eexists..|naive_solver].
  - intros n req lim Hn Hreq. rewrite HR in Hreq. rewrite withLimits_lookup, HL.
    rewrite <-HL in Hn. repeat case_decide; intros Hl;
      [injection Hl as <-; by apply limit_for_order..|by rewrite HL, Hl in Hn].
Qed.
End resources.

(** ** Volumes, mounts and environments *)

Lemma elem_of_appendMount ms m x :
  x ∈ appendMountIfAbsent ms m → x ∈ ms ∨ x = m.
Proof. unfold appendMountIfAbsent. destruct (existsb _ _); set_solver. Qed.

Lemma elem_of_appendVolume vs v x :
  x ∈ appendVolumeIfAbsent vs v → x ∈ vs ∨ x = v.
Proof. unfold appendVolumeIfAbsent. destruct (hasVolume _ _); set_solver. Qed.

Lemma hasVolume_iff vs name : hasVolume vs name = true ↔ name ∈ vol_Name <$> vs.
Proof.
  unfold hasVolume. rewrite existsb_exists, list_elem_of_fmap. split.
  - intros (v & Hv & E%String.eqb_eq). exists v. by rewrite list_elem_of_In.
  - intros (v & -> & Hv). exists v. by rewrite <-list_elem_of_In, String.eqb_refl.
Qed.

Lemma appendVolume_names vs v :
  NoDup (vol_Name <$> vs) → NoDup (vol_Name <$> appendVolumeIfAbsent vs v).
Proof.
  intros H. unfold appendVolumeIfAbsent.
  destruct (hasVolume vs (vol_Name v)) eqn:E; [done|].
  rewrite fmap_app. apply NoDup_app. split; [done|]. split; [|apply NoDup_singleton].
  intros x Hx Hv. apply not_true_iff_false in E. apply E, hasVolume_iff. set_solver.
Qed.

Lemma set_workspace_volume_names vs :
  ∃ l, vol_Name <$> set_workspace_volume vs = ((vol_Name <$> vs) ++ l)%list ∧
       (l = [] ∨ l = [WorkspaceVolumeName] ∧ WorkspaceVolumeName ∉ vol_Name <$> vs).
Proof.
  induction vs as [|v vs IH]; cbn.
  { eexists [_]. split; [done|]. right. set_solver. }
  destruct (String.eqb_spec (vol_Name v) WorkspaceVolumeName) as [E|Hn].
  - exists []. rewrite app_nil_r. split; [done|by left].
  - destruct IH as (l & Hl & Hn'). exists l. cbn. rewrite Hl. split; [done|]. set_solver.
Qed.

Lemma set_workspace_volume_empty vs v :
  NoDup (vol_Name <$> vs) → v ∈ set_workspace_volume vs → vol_Name v = WorkspaceVolumeName →
  vol_Source v = EmptyDir.
Proof.
  induction vs as [|v' vs IH]; cbn; intros Hd; [intros ->%list_elem_of_singleton; done|].
  apply NoDup_cons in Hd as [Hnew Hd].
  destruct (String.eqb_spec (vol_Name v') WorkspaceVolumeName) as [E|Hn].
  - intros [->|Hv]%elem_of_cons Hname; [done|]. destruct Hnew. rewrite E, <-Hname.
    apply list_elem_of_fmap. eauto.
  - intros [->|Hv]%elem_of_cons Hname; [done|]. by apply IH.
Qed.

(** ** The pod *)

Section pod.
Context {L : JobLibrary} {LL : JobLibraryLaws L} (getenv : string → string).
Implicit Types (e : EphemeralJob) (p : Placement).

(** The pod of a request. *)
Definition pod_of e p fleetID : PodSpec := pod_spec getenv e p (buildWorkloadContainer e) fleetID.

Lemma pod_of_workload e p fleetID :
  ∃ c, head (ps_Containers (pod_of e p fleetID)) = Some c ∧
       c_Requests c = c_Requests (buildWorkloadContainer e) ∧
       c_Limits c = c_Limits (buildWorkloadContainer e) ∧
       c_Env c = withOutputStorageEnv getenv e (workload_env e) fleetID ∧
       c_Security c = Some (restricted None).
Proof.
  assert (Hb : c_Env (buildWorkloadContainer e) = workload_env e ∧
    c_Security (buildWorkloadContainer e) = Some (restricted None)).
  { unfold buildWorkloadContainer. destruct (default _ _) as [req lim].
    by rewrite !filled_env, !filled_security. }
  unfold pod_of, pod_spec. destruct (workspace_part _ _ _ _ _) as [[vs ms] inits].
  destruct (identity_part _ _ _). eexists. split; [reflexivity|].
  cbn. by destruct Hb as [-> ->].
Qed.

(** However a request is written, every container of its pod has requests for
    cpu and memory and limits for cpu, memory and ephemeral storage; what it stated
    is kept, and a limit it did not state is never below its request. *)
Theorem pod_resources_filled e p fleetID :
  let spec := pod_of e p fleetID in
  let '(requests, limits) := default (∅, ∅) (Resources (Spec e)) in
  (∃ workload, head (ps_Containers spec) = Some workload ∧ filled requests limits workload) ∧
  Forall2 (λ stated c, filled (c_Requests stated) (c_Limits stated) c)
    (Sidecars (Spec e)) (tail (ps_Containers spec)) ∧
  Forall (filled ∅ ∅) (ps_InitContainers spec).
Proof.
  cbn zeta. destruct (default _ _) as [req lim] eqn:E. split_and!.
  - destruct (pod_of_workload e p fleetID) as (c & Hc & Hr & Hl & _). exists c. split; [done|].
    unfold buildWorkloadContainer in Hr, Hl. rewrite E in Hr, Hl.
    match type of Hr with _ = c_Requests (withLimits (withRequests ?c0 ?a ?b) ?x ?y ?z) =>
      destruct (filled_in c0 a b x y z) as [H1 H2 H3 H4 H5] end.
    cbn in H1, H2, H5. split; rewrite ?Hr, ?Hl; auto.
  - assert (tail (ps_Containers (pod_of e p fleetID)) = as_sidecar <$> Sidecars (Spec e)) as ->.
    { unfold pod_of, pod_spec. destruct (workspace_part _ _ _ _ _) as [[vs ms] inits].
      by destruct (identity_part _ _ _). }
    apply Forall2_fmap_r, Forall_Forall2_diag, Forall_true. intros c. apply filled_in.
  - unfold pod_of, pod_spec, workspace_part. destruct (WorkspacePersistence (Spec e)) as [ws|].
    2: { destruct (identity_part _ _ _). constructor. }
    destruct (identity_part _ _ _). cbn [ps_InitContainers]. apply Forall_fmap.
    unfold sync_containers. destruct (String.eqb _ _);
      repeat first [apply Forall_nil_2|apply Forall_cons_2];
      unfold compose; match goal with |- context [as_sidecar ?c] => exact (filled_in c _ _ _ _ _) end.
Qed.

(** What is fixed in every pod. *)
Record hardened (spec : PodSpec) : Prop := {
  hardened_token : ps_AutomountServiceAccountToken spec = Some false;
  hardened_root : ps_RunAsNonRoot spec = Some true;
  hardened_user : ps_RunAsUser spec = Some 1000%Z;
  hardened_seccomp : ps_SeccompRuntimeDefault spec = true;
  hardened_workload : ∃ c, head (ps_Containers spec) = Some c ∧ c_Security c = Some (restricted None);
  hardened_inits : Forall (λ c, c_Security c = Some (restricted (Some 1000%Z))) (ps_InitContainers spec) }.

Lemma pod_of_hardened e p fleetID : hardened (pod_of e p fleetID).
Proof.
  split; [unfold pod_of, pod_spec; destruct (workspace_part _ _ _ _ _) as [[vs ms] inits];
          by destruct (identity_part _ _ _)..| |].
  - destruct (pod_of_workload e p fleetID) as (c & Hc & _ & _ & _ & Hs). eauto.
  - unfold pod_of, pod_spec, workspace_part. destruct (WorkspacePersistence (Spec e)) as [ws|];
      destruct (identity_part _ _ _); cbn [ps_InitContainers]; [|constructor].
    apply Forall_fmap. unfold sync_containers, compose, as_sidecar.
    destruct (String.eqb _ _);
      repeat first [apply Forall_nil_2|apply Forall_cons_2]; by rewrite filled_security.
Qed.

Lemma pod_of_placed e p fleetID :
  ps_NodeSelector (pod_of e p fleetID) = NodeSelector p ∧
  ps_Tolerations (pod_of e p fleetID) = Tolerations p ∧
  ps_PriorityClassName (pod_of e p fleetID) = PriorityClassName p ∧
  ps_RuntimeClassName (pod_of e p fleetID) = runtimeClassFor e.
Proof.
  unfold pod_of, pod_spec. destruct (workspace_part _ _ _ _ _) as [[vs ms] inits].
  by destruct (identity_part _ _ _).
Qed.

(** Every placement asks for a worker, ranks below the platform, and tolerates at most
    the burst taint, on burst nodes. *)
Lemma ResolvePlacement_cases class p :
  ResolvePlacement class = Some p →
  NodeSelector p !! NodeRoleWorkerKey = Some "" ∧ PriorityClassName p = BurstPriorityClass ∧
  ((class = "home" ∧ NodeSelector p !! WorkloadLocationKey = Some WorkloadLocationHome ∧
    Tolerations p = []) ∨
   ((class = "" ∨ class = "burst") ∧
    NodeSelector p !! WorkloadLocationKey = Some WorkloadLocationValue ∧
    Tolerations p = [mkToleration BurstTaintKey "Equal" BurstTaintValue "NoSchedule"])).
Proof.
  unfold ResolvePlacement, placements. intros [[E <-]|[Hn H]]%lookup_insert_Some.
  { destruct (String.eqb_spec class ""); [done|]. subst class. split_and!; [done..|]. by left. }
  apply lookup_insert_Some in H as [[E <-]|[_ H]]; [|by rewrite lookup_empty in H].
  split_and!; [done..|]. right. destruct (String.eqb_spec class ""); subst; auto.
Qed.

(** ** Labels and placement *)

(** The fleet id is the namespace's label, or nothing. *)
Lemma resolveFleetID_run ns w :
  ∃ id w', resolveFleetID ns w = (Ok id, w') ∧ cluster w' = cluster w ∧ ej w' = ej w ∧
    (id = "" ∨ ∃ labels, namespaces (cluster w) !! ns = Some labels ∧ labels !! fleetIDLabel = Some id).
Proof.
  unfold resolveFleetID, GetNamespace. rewrite bind_run, attempt_run, read_run. cbn [fst snd].
  destruct (next_fault w); [|by do 2 eexists; split_and!; [..|left]..].
  destruct (namespaces (cluster w) !! ns) as [labels|] eqn:E; [|by do 2 eexists; split_and!; [..|left]].
  do 2 eexists. split_and!; [done..|].
  destruct (labels !! fleetIDLabel) eqn:E'; cbn; [right; eauto|by left].
Qed.

(** The labels of a pod or Job that other components select on or account by. *)
Record attributed (e : EphemeralJob) (c : Cluster) (labels : gmap string string) : Prop := {
  attributed_uid : labels !! labelJobUID = Some (UID e);
  attributed_app : ∃ id, labels !! "app-id" = Some id ∧
    (id = "" ∨ ∃ nl, namespaces c !! Namespace e = Some nl ∧ nl !! fleetIDLabel = Some id);
  attributed_peer : is_Some (Peer (Spec e)) → labels !! labelSessionPeer = Some "true" }.

Definition accounted (e : EphemeralJob) (labels : gmap string string) : Prop :=
  labels !! "tenant-id" = Some (tenantFromNamespace (Namespace e)) ∧
  labels !! "cost-center" = Some "platform".

Lemma authoredLabels_own e own k v :
  own !! k = Some v → k ≠ labelSessionPeer → authoredLabels e own !! k = Some v.
Proof.
  intros Hk Hn. unfold authoredLabels. destruct (Peer (Spec e)); [rewrite lookup_insert_ne by done|];
    by apply lookup_union_Some_l.
Qed.

Lemma authoredLabels_attributed e c own id :
  own !! labelJobUID = Some (UID e) → own !! "app-id" = Some id →
  (id = "" ∨ ∃ nl, namespaces c !! Namespace e = Some nl ∧ nl !! fleetIDLabel = Some id) →
  attributed e c (authoredLabels e own).
Proof.
  intros Hu Ha Hid. split.
  - by apply authoredLabels_own.
  - exists id. split; [by apply authoredLabels_own|done].
  - unfold authoredLabels. intros [pe ->]. by rewrite lookup_insert_eq.
Qed.

(** The placement and the runtime of a pod. *)
Definition placed (e : EphemeralJob) (spec : PodSpec) : Prop :=
  ps_NodeSelector spec !! NodeRoleWorkerKey = Some "" ∧
  ps_PriorityClassName spec = BurstPriorityClass ∧
  (is_Some (Peer (Spec e)) → ps_RuntimeClassName spec = Some sandboxedRuntimeClass) ∧
  (ps_Tolerations spec = [] ∨
   ps_NodeSelector spec !! WorkloadLocationKey = Some WorkloadLocationValue ∧
   ps_Tolerations spec = [mkToleration BurstTaintKey "Equal" BurstTaintValue "NoSchedule"]).

Lemma pod_of_placed_class e p fleetID class :
  ResolvePlacement class = Some p → placed e (pod_of e p fleetID).
Proof.
  intros (Hw & Hp & Hl)%ResolvePlacement_cases.
  destruct (pod_of_placed e p fleetID) as (H1 & H2 & H3 & H4).
  unfold placed. rewrite H1, H2, H3, H4. split_and!; [done..| |].
  - unfold runtimeClassFor. by intros [pe ->].
  - destruct Hl as [(_ & _ & Ht)|(_ & Hl & Ht)]; [by left|by right].
Qed.

(** Whatever a fleet writes in its request, the Job and the pod built for it run on a
    worker node of the class it named, below the platform's priority, as a
    non-root user with no API token and every capability dropped, sandboxed when a
    peer; and the labels that identify, attribute and isolate them are the
    operator's, the application read from the namespace. *)
Theorem pod_posture e name p w :
  ResolvePlacement (PlacementClass (Spec e)) = Some p →
  (∃ pod w', buildPod getenv e p w = (Ok pod, w') ∧
     hardened (p_Spec pod) ∧ placed e (p_Spec pod) ∧
     attributed e (cluster w) (p_Labels pod) ∧ accounted e (p_Labels pod)) ∧
  (∃ job w', buildJob getenv e name p w = (Ok job, w') ∧
     hardened (j_Template job) ∧ placed e (j_Template job) ∧
     attributed e (cluster w) (j_TemplateLabels job) ∧
     attributed e (cluster w) (j_Labels job) ∧ accounted e (j_Labels job)).
Proof.
  intros Hp.
  destruct (resolveFleetID_run (Namespace e) w) as (id & w1 & E1 & Hc1 & _ & Hid).
  destruct (resolveFleetID_run (Namespace e) w1) as (id' & w2 & E2 & Hc2 & _ & _).
  split.
  - eexists _, w2. split.
    { unfold buildPod, buildPodSpec. rewrite bind_run, E1, !bind_run, E2. reflexivity. }
    cbn. split_and!; [apply pod_of_hardened|by eapply pod_of_placed_class| |].
    + eapply authoredLabels_attributed; [reflexivity..|done].
    + split; by apply authoredLabels_own.
  - eexists _, w2. split.
    { unfold buildJob, buildPodSpec. rewrite bind_run, E1, !bind_run, E2. reflexivity. }
    cbn. split_and!; [apply pod_of_hardened|by eapply pod_of_placed_class| | |].
    + eapply authoredLabels_attributed; [reflexivity..|done].
    + eapply authoredLabels_attributed; [reflexivity..|done].
    + split; by apply authoredLabels_own.
Qed.

(** ** The environment of the workload *)

Definition storage_names : list string :=
  ["S3_ENDPOINT_URL"; "S3_BUCKET_NAME"; "S3_ACCESS_KEY_ID"; "S3_SECRET_ACCESS_KEY"; "S3_REGION"].

Lemma order_env_keys m : ((order_env m).*1 : list string) ≡ₚ (map_to_list m).*1.
Proof. apply fmap_Permutation, order_env_perm. Qed.

Lemma workload_env_names e :
  ∃ extra, ev_Name <$> workload_env e = ((order_env (Env (Spec e))).*1 ++ extra)%list ∧
    NoDup extra ∧ Forall (λ k, Env (Spec e) !! k = None ∧ k ∉ storage_names) extra.
Proof.
  unfold workload_env. rewrite !fmap_app.
  replace (ev_Name <$> ((λ '(k, v), literal k v) <$> order_env (Env (Spec e))))
    with ((order_env (Env (Spec e))).*1)
    by (rewrite <-list_fmap_compose; by apply list_fmap_ext; intros ? []).
  eexists. split; [reflexivity|].
  destruct (Env (Spec e) !! envJobInput) eqn:Ei, (Env (Spec e) !! envJobOutput) eqn:Eo,
    (Input (Spec e)) as [raw|], (Output (Spec e)) as [out|];
    try destruct (String.eqb raw ""); try destruct (json_output out);
    cbn; (split; [repeat first [apply NoDup_nil_2|apply NoDup_cons; split]; set_solver|]);
    repeat first [apply Forall_nil_2|apply Forall_cons_2]; (split; [done|set_solver]).
Qed.

(** What a request states in its environment is what its workload sees: no name
    occurs twice, and a stated one has the stated value. A secret reaches the
    workload only by reference, only for a request with an output, and only as the
    two storage credentials of its own fleet. *)
Theorem workload_env_stated e p fleetID workload :
  head (ps_Containers (pod_of e p fleetID)) = Some workload →
  NoDup (ev_Name <$> c_Env workload) ∧
  (∀ k v, Env (Spec e) !! k = Some v → literal k v ∈ c_Env workload) ∧
  (∀ k name key optional, mkEnvVar k (EnvSecret name key optional) ∈ c_Env workload →
     is_Some (Output (Spec e)) ∧ Env (Spec e) !! k = None ∧ key = k ∧ optional = false ∧
     name = resolveWorkspaceSyncSecret getenv (Namespace e) fleetID ∧
     k ∈ ["S3_ACCESS_KEY_ID"; "S3_SECRET_ACCESS_KEY"]).
Proof.
  intros Hw. destruct (pod_of_workload e p fleetID) as (c & Hc & _ & _ & He & _).
  rewrite Hw in Hc. injection Hc as <-. rewrite He. clear Hw He workload.
  destruct (workload_env_names e) as (extra & Hn & Hd & Hx). rewrite Forall_forall in Hx.
  assert (Hkeys : NoDup (ev_Name <$> workload_env e)).
  { rewrite Hn. apply NoDup_app. split; [|split; [|done]].
    - rewrite order_env_keys. apply NoDup_fst_map_to_list.
    - intros k Hk Hk'. rewrite order_env_keys in Hk.
      apply list_elem_of_fmap in Hk as ([k' v] & E & Hk%elem_of_map_to_list). cbn in E. subst k'.
      by rewrite (proj1 (Hx _ Hk')) in Hk. }
  assert (Hlit : ∀ v, v ∈ workload_env e → ∃ s, ev_Source v = EnvLiteral s).
  { unfold workload_env. intros v. rewrite !elem_of_app, list_elem_of_fmap.
    intros [([k s] & -> & _)|[H|H]]; [by eexists|repeat case_match; set_solver..]. }
  assert (Hst : ∀ k v, Env (Spec e) !! k = Some v → literal k v ∈ workload_env e).
  { intros k v Hk. unfold workload_env. apply elem_of_app. left. apply list_elem_of_fmap.
    exists (k, v). split; [done|]. by rewrite order_env_perm, elem_of_map_to_list. }
  unfold withOutputStorageEnv. destruct (Output (Spec e)) as [out|].
  2: { split_and!; [done..|]. intros k name key o Hk. by destruct (Hlit _ Hk). }
  split_and!.
  - rewrite fmap_app. apply NoDup_app. split; [done|]. split.
    + intros k Hk (v & -> & [Hv Hin]%list_elem_of_filter)%list_elem_of_fmap.
      rewrite Hn in Hk. apply elem_of_app in Hk as [Hk|Hk].
      * rewrite order_env_keys in Hk.
        apply list_elem_of_fmap in Hk as ([k' v'] & E & Hk%elem_of_map_to_list). cbn in E. subst k'.
        by rewrite Hv in Hk.
      * apply (proj2 (Hx _ Hk)). set_solver.
    + eapply sublist_NoDup; [|apply fmap_sublist, sublist_filter].
      by apply (bool_decide_unpack _).
  - intros k v Hk. apply elem_of_app. left. by apply Hst.
  - intros k name key o [Hk|Hk]%elem_of_app; [by destruct (Hlit _ Hk)|].
    apply list_elem_of_filter in Hk as [Hk Hin]. cbn in Hk.
    repeat (apply elem_of_cons in Hin as [[=]|Hin]); subst; [..|by apply elem_of_nil in Hin];
      split_and!; try done; set_solver.
Qed.
End pod.

(** ** The agent's configuration *)

(** What a process reads from the environment of its container, where the kubelet
    gives [objects] for a reference; a later entry overrides an earlier one. *)
Fixpoint lookup_env (env : list EnvVar) (name : string) : option EnvSource :=
  match env with
  | [] => None
  | v :: env =>
      match lookup_env env name with
      | Some s => Some s
      | None => if String.eqb (ev_Name v) name then Some (ev_Source v) else None
      end
  end.
Definition container_getenv (objects : EnvSource → option string) (env : list EnvVar)
    (name : string) : string :=
  match lookup_env env name with
  | Some (EnvLiteral s) => s
  | Some s => default "" (objects s)
  | None => ""
  end.

Lemma lookup_env_app a b name :
  lookup_env (a ++ b)%list name =
  match lookup_env b name with Some s => Some s | None => lookup_env a name end.
Proof. induction a as [|v a IH]; cbn; [by destruct (lookup_env b name)|]. rewrite IH. by destruct (lookup_env b name). Qed.

(** The number of checkpoints to keep survives being written and read. *)
Lemma keep_roundtrip n :
  (minKeepCheckpoints ≤ n ≤ maxKeepCheckpoints)%Z →
  WorkspaceStore.Atoi (pretty n) = Some n ∧ pretty n ≠ "" ∧ pretty n ≠ "unbounded".
Proof.
  intros Hn. unfold minKeepCheckpoints, maxKeepCheckpoints in Hn.
  assert (∀ k : nat, (k < 51)%nat → WorkspaceStore.Atoi (pretty (Z.of_nat k)) = Some (Z.of_nat k)
    ∧ pretty (Z.of_nat k) ≠ "" ∧ pretty (Z.of_nat k) ≠ "unbounded") as H.
  { assert (forallb (λ k, bool_decide (WorkspaceStore.Atoi (pretty (Z.of_nat k)) = Some (Z.of_nat k)
      ∧ pretty (Z.of_nat k) ≠ "" ∧ pretty (Z.of_nat k) ≠ "unbounded")) (seq 0 51) = true) as H
      by (vm_compute; reflexivity).
    rewrite forallb_forall in H. intros k Hk.
    eapply bool_decide_eq_true_1, (H k), in_seq. lia. }
  specialize (H (Z.to_nat n) ltac:(lia)). by rewrite Z2Nat.id in H by lia.
Qed.

Lemma resolveKeepCheckpoints_range ws :
  if RetainAllCheckpoints ws then resolveKeepCheckpoints ws = unboundedKeepCheckpoints
  else (minKeepCheckpoints ≤ resolveKeepCheckpoints ws ≤ maxKeepCheckpoints)%Z.
Proof.
  unfold resolveKeepCheckpoints. destruct (RetainAllCheckpoints ws); [done|].
  unfold minKeepCheckpoints, maxKeepCheckpoints, DefaultKeepCheckpoints.
  destruct (KeepCheckpoints ws) as [n|]; [|lia].
  destruct (Z.ltb_spec n 1); [lia|]. destruct (Z.ltb_spec 50 n); lia.
Qed.

(** Splitting what was joined. *)
Lemma TrimLeft_nil s : TrimLeft s = "" → all_chars is_space s = true.
Proof. induction s as [|c s IH]; cbn; [done|]. destruct (is_space c); [apply IH|done]. Qed.

Lemma TrimLeft_head s : match TrimLeft s with String c _ => is_space c = false | _ => True end.
Proof. induction s as [|c s IH]; cbn; [done|]. by destruct (is_space c) eqn:E. Qed.

Lemma TrimSpace_nil s : TrimSpace s = "" → all_chars is_space s = true.
Proof.
  unfold TrimSpace. intros H. apply (f_equal String.rev) in H. rewrite str_rev_involutive in H.
  apply TrimLeft_nil in H. rewrite all_chars_rev in H. apply TrimLeft_nil.
  pose proof (TrimLeft_head s) as Hh. destruct (TrimLeft s); [done|].
  cbn in H. by rewrite Hh in H.
Qed.

Lemma TrimSpace_space s : all_chars is_space s = true → TrimSpace s = "".
Proof.
  intros H. unfold TrimSpace. replace (TrimLeft s) with ""; [done|].
  induction s as [|c s IH]; cbn in *; [done|]. apply andb_true_iff in H as [-> H]. by apply IH.
Qed.

Definition comma := ","%char.
Lemma Split_Join l :
  l ≠ [] → Forall (λ s, all_chars (λ c, negb (Ascii.eqb c comma)) s = true) l →
  Split (Join l ",") comma = l.
Proof.
  intros Hl H. induction H as [|a l Ha H IH]; [done|]. destruct l as [|b l].
  - unfold Join. cbn. by apply Split_one.
  - change (Join (a :: b :: l) ",") with (a +:+ String comma (Join (b :: l) ",")).
    rewrite Split_app by done. by rewrite IH.
Qed.

(** An id that a comma-separated list can carry. *)
Definition listable (s : string) : Prop :=
  s ≠ "" ∧ TrimSpace s = s ∧ all_chars (λ c, negb (Ascii.eqb c comma)) s = true.

Lemma splitList_Join l : Forall listable l → WorkspaceStore.splitList (Join l ",") = l.
Proof.
  intros H. destruct l as [|a l]; [done|]. unfold WorkspaceStore.splitList.
  destruct (String.eqb_spec (TrimSpace (Join (a :: l) ",")) "") as [E|_].
  { exfalso. apply TrimSpace_nil in E. apply Forall_cons in H as [(Ha & Ht & _) _].
    apply Ha. rewrite <-Ht. apply TrimSpace_space. destruct l as [|b l]; [done|].
    change (Join (a :: b :: l) ",") with (a +:+ String comma (Join (b :: l) ",")) in E.
    rewrite all_chars_app in E. by apply andb_true_iff in E as [E _]. }
  change ","%char with comma. rewrite Split_Join; [|done|].
  2: { eapply Forall_impl; [done|]. by intros s (_ & _ & ?). }
  induction H as [|x k (Hx & Ht & _) H IH]; [done|]. rewrite fmap_cons, Ht.
  rewrite filter_cons_True by done. by rewrite IH.
Qed.

Section config.
Context {L : JobLibrary} (getenv : string → string).

(** The configuration is returned with or without an error. *)
Lemma FromEnv_fst g :
  (WorkspaceStore.FromEnv g).1 =
  {| WorkspaceStore.c_Endpoint := g "S3_ENDPOINT_URL";
     WorkspaceStore.c_Bucket := g "S3_BUCKET_NAME";
     WorkspaceStore.c_AccessKey := g "S3_ACCESS_KEY_ID";
     WorkspaceStore.c_SecretKey := g "S3_SECRET_ACCESS_KEY";
     WorkspaceStore.c_Region := if String.eqb (g "S3_REGION") "" then "us-east-1" else g "S3_REGION";
     WorkspaceStore.c_WorkspaceID := g "WORKSPACE_ID";
     WorkspaceStore.c_AppID := g "APP_ID";
     WorkspaceStore.c_Staging :=
       if String.eqb (g "STAGING_ROOT") "" then "/ws-staging" else g "STAGING_ROOT";
     WorkspaceStore.c_KeepCheckpoints :=
       if String.eqb (g "KEEP_CHECKPOINTS") "" then WorkspaceStore.DefaultKeepCheckpoints
       else if String.eqb (g "KEEP_CHECKPOINTS") WorkspaceStore.UnboundedEnvValue
       then WorkspaceStore.UnboundedKeepCheckpoints
       else match WorkspaceStore.Atoi (g "KEEP_CHECKPOINTS") with
            | Some n => if (0 <? n)%Z then n else WorkspaceStore.DefaultKeepCheckpoints
            | None => WorkspaceStore.DefaultKeepCheckpoints
            end;
     WorkspaceStore.c_CheckpointID := g "CHECKPOINT_ID";
     WorkspaceStore.c_ReadOnly := String.eqb (g "WORKSPACE_READ_ONLY") "true";
     WorkspaceStore.c_NoArchive := String.eqb (g "WORKSPACE_NO_ARCHIVE") "true";
     WorkspaceStore.c_PinnedCheckpoints := WorkspaceStore.splitList (g "PINNED_CHECKPOINTS") |}.
Proof. unfold WorkspaceStore.FromEnv. cbv zeta. by repeat case_match. Qed.

(** Reading one name: the parts that cannot answer are dropped first. *)
Ltac read_env :=
  unfold container_getenv, sync_env; rewrite !lookup_env_app;
  repeat match goal with
  | |- context [lookup_env ?part ?n] =>
      replace (lookup_env part n) with (@None EnvSource) by (clear; repeat case_match; reflexivity)
  end;
  repeat match goal with
  | |- context [lookup_env (if ?b then _ else _)] => destruct b eqn:?
  | |- context [lookup_env (match ?x with _ => _ end)] => destruct x eqn:?
  end; try reflexivity.

Lemma sync_reads ws keep ns fleetID target objects :
  let read := container_getenv objects (sync_env getenv ws keep ns fleetID target) in
  read "WORKSPACE_ID" = tg_workspaceID target ∧ read "APP_ID" = AppID ws ∧
  read "STAGING_ROOT" = tg_staging target ∧ read "CHECKPOINT_ID" = CheckpointID ws ∧
  read "WORKSPACE_READ_ONLY" = (if ReadOnly ws || tg_readOnly target then "true" else "") ∧
  read "WORKSPACE_NO_ARCHIVE" = "true" ∧
  read "PINNED_CHECKPOINTS" = Join (PinnedCheckpoints ws) "," ∧
  read "KEEP_CHECKPOINTS" = keepCheckpointsEnv keep ∧
  read "S3_SECRET_ACCESS_KEY" = default "" (objects
    (EnvSecret (resolveWorkspaceSyncSecret getenv ns fleetID) "S3_SECRET_ACCESS_KEY" true)).
Proof.
  cbn zeta. split_and!; read_env;
    match goal with H : String.eqb _ "" = true |- _ => apply String.eqb_eq in H as -> end; reflexivity.
Qed.

(** The workspace-sync agent started in a container this operator describes reads
    back the configuration the request asked for: its workspace and application, the
    retention bound (none for retainAllCheckpoints, else the request's clamped to
    1..50, five by default), the pinned ids, and read-only exactly when the request
    or this instance is. *)
Theorem sync_config_roundtrip ws ns fleetID target objects :
  tg_workspaceID target ≠ "" → AppID ws ≠ "" → tg_staging target ≠ "" →
  Forall listable (PinnedCheckpoints ws) →
  let env := c_Env (workspaceSyncContainerFor getenv ws (resolveKeepCheckpoints ws) ns fleetID target) in
  let c := (WorkspaceStore.FromEnv (container_getenv objects env)).1 in
  WorkspaceStore.c_WorkspaceID c = tg_workspaceID target ∧
  WorkspaceStore.c_AppID c = AppID ws ∧
  WorkspaceStore.c_Staging c = tg_staging target ∧
  WorkspaceStore.c_CheckpointID c = CheckpointID ws ∧
  WorkspaceStore.c_ReadOnly c = (ReadOnly ws || tg_readOnly target) ∧
  WorkspaceStore.c_NoArchive c = true ∧
  WorkspaceStore.c_PinnedCheckpoints c = PinnedCheckpoints ws ∧
  WorkspaceStore.keep (WorkspaceStore.New c) =
    (if RetainAllCheckpoints ws then WorkspaceStore.UnboundedKeepCheckpoints
     else Z.max 1 (Z.min 50 (default 5%Z (KeepCheckpoints ws)))) ∧
  WorkspaceStore.c_SecretKey c = default "" (objects
    (EnvSecret (resolveWorkspaceSyncSecret getenv ns fleetID) "S3_SECRET_ACCESS_KEY" true)).
Proof.
  intros Hw Ha Hs Hp env c. subst env. cbn [c_Env workspaceSyncContainerFor] in c.
  destruct (sync_reads ws (resolveKeepCheckpoints ws) ns fleetID target objects)
    as (E1 & E2 & E3 & E4 & E5 & E6 & E7 & E8 & E9).
  revert E1 E2 E3 E4 E5 E6 E7 E8 E9. subst c.
  generalize (container_getenv objects (sync_env getenv ws (resolveKeepCheckpoints ws) ns fleetID target)).
  intros g E1 E2 E3 E4 E5 E6 E7 E8 E9.
  rewrite FromEnv_fst. cbn. unfold WorkspaceStore.New. cbn. rewrite E1, E2, E3, E4, E5, E6, E7, E8, E9.
  rewrite splitList_Join by done.
  assert (String.eqb (tg_staging target) "" = false) as -> by by apply String.eqb_neq.
  split_and!; try done; [by destruct (_ || _)|].
  pose proof (resolveKeepCheckpoints_range ws) as Hk. unfold keepCheckpointsEnv.
  destruct (RetainAllCheckpoints ws) eqn:Er; [by rewrite Hk|].
  destruct (keep_roundtrip _ Hk) as (Hr & Hne & Hnu).
  unfold minKeepCheckpoints, maxKeepCheckpoints, unboundedKeepCheckpoints in *.
  destruct (Z.eqb_spec (resolveKeepCheckpoints ws) 0) as [?|_]; [lia|].
  apply String.eqb_neq in Hne, Hnu. rewrite Hne. unfold WorkspaceStore.UnboundedEnvValue.
  rewrite Hnu, Hr. destruct (Z.ltb_spec 0 (resolveKeepCheckpoints ws)) as [_|?]; [|lia].
  destruct (Z.eqb_spec (resolveKeepCheckpoints ws) 0) as [?|_]; [lia|].
  unfold resolveKeepCheckpoints. rewrite Er. unfold minKeepCheckpoints, maxKeepCheckpoints, DefaultKeepCheckpoints.
  destruct (KeepCheckpoints ws) as [n|]; cbn; [|lia].
  destruct (Z.ltb_spec n 1), (Z.ltb_spec 50 n); lia.
Qed.
End config.
