(* ===== verification/JobController.v ===== *)
(** * JobController: the lifecycle of an EphemeralJob.

    Models the controller of operators/ephemeral-job-operator/internal/controller:
    helpers.go, capacity.go, session_peer.go, job_storage.go and
    ephemeraljob_controller.go. [Reconcile] is one pass; a pass reads the request
    into the working copy and ends by storing the status of that copy. *)

From S2P Require Import Prelude.
From S2P Require Import JobTypes.
From S2P Require Import JobPod.

Local Open Scope string_scope.

(** ** helpers.go *)

Definition isTerminal (p : string) : bool :=
  String.eqb p PhaseSucceeded || String.eqb p PhaseFailed || String.eqb p PhaseTimedOut.

Definition meta_SetStatusCondition (t : string) (c : Condition) (s : EphemeralJobStatus) :
    EphemeralJobStatus := set_Conditions (<[t := c]> (Conditions s)) s.
Definition meta_IsStatusConditionTrue (s : EphemeralJobStatus) (t : string) : bool :=
  match Conditions s !! t with Some c => cd_Status c | None => false end.

Definition conditionDetail (c : JobCondition) : string :=
  if String.eqb (jc_Message c) "" then jc_Reason c
  else if String.eqb (jc_Reason c) "" then jc_Message c
  else jc_Reason c +:+ ": " +:+ jc_Message c.

(** The phase a finished Job gives, its exit code and the words of its condition. *)
Fixpoint finished_by (cs : list JobCondition) : option (string * option Z * string) :=
  match cs with
  | [] => None
  | c :: cs =>
      if negb (String.eqb (jc_Status c) "True") then finished_by cs
      else if String.eqb (jc_Type c) JobComplete
      then Some (PhaseSucceeded, Some 0%Z, conditionDetail c)
      else if String.eqb (jc_Type c) JobFailed then
        if String.eqb (jc_Reason c) "DeadlineExceeded"
        then Some (PhaseTimedOut, None, conditionDetail c)
        else Some (PhaseFailed, None, conditionDetail c)
      else finished_by cs
  end.
Definition jobFinished (j : Job) : option (string * option Z * string) := finished_by (j_Conditions j).

Definition jobIsFinished (j : Job) : bool :=
  existsb (λ c, (String.eqb (jc_Type c) JobComplete || String.eqb (jc_Type c) JobFailed)
                && String.eqb (jc_Status c) "True") (j_Conditions j).

Definition jobAdmissionRejected (j : Job) : option (string * string) :=
  (λ c, (jc_Reason c, jc_Message c)) <$>
  head (filter (λ c, String.eqb (jc_Type c) JobFailed && String.eqb (jc_Status c) "True"
    && (String.eqb (jc_Reason c) "FailedCreate" || Contains (jc_Message c) "exceeded quota") = true)
    (j_Conditions j)).

Definition admissionRejectionThreshold : Z := 3.

Definition jobRefusedAtAdmission (e : error) : bool :=
  bool_decide (er_Kind e = BadRequest) || bool_decide (er_Kind e = Forbidden)
  || bool_decide (er_Kind e = Invalid).

Definition minDuration (a b : Z) : Z := if (a <? b)%Z then a else b.
Definition defaultRequeue : Z := seconds 10.

(** ** Pods *)

Definition podCondition (p : Pod) (t : string) : option PodCondition :=
  head (filter (λ c, pc_Type c = t) (p_Conditions p)).

Definition unschedulableMessage (c : option PodCondition) : string :=
  match c with
  | None => "pod is not yet scheduled"
  | Some c => if String.eqb (pc_Message c) "" then pc_Reason c else pc_Message c
  end.

Definition workloadReady (p : Pod) : bool :=
  match filter (λ s, cs_Name s = workloadContainerName) (p_Statuses p) with
  | s :: _ => cs_Ready s
  | [] => false
  end.

Definition podExitCode (p : Pod) : option Z :=
  tm_ExitCode <$> head (omap cs_Terminated (p_Statuses p)).

Definition own_words (s : ContainerStatus) : option string :=
  t ← cs_Terminated s;
  if (tm_ExitCode t =? 0)%Z then None
  else if String.eqb (TrimSpace (tm_Message t)) "" then None else Some (TrimSpace (tm_Message t)).
Definition kubelet_words (s : ContainerStatus) : option string :=
  t ← cs_Terminated s;
  if String.eqb (tm_Reason t) "" then None
  else Some ("container " +:+ cs_Name s +:+ " terminated: " +:+ tm_Reason t).
Definition podTerminationMessage (p : Pod) : string :=
  match head (omap own_words (p_Statuses p)), head (omap kubelet_words (p_Statuses p)) with
  | Some m, _ => m
  | None, Some m => m
  | None, None => if String.eqb (p_Reason p) "" then "pod failed" else p_Reason p
  end.

Definition blocking : list string :=
  ["CrashLoopBackOff"; "ImagePullBackOff"; "ErrImagePull"; "CreateContainerConfigError";
   "CreateContainerError"; "RunContainerError"; "InvalidImageName"].
Definition blocked_by (kind : string) (s : ContainerStatus) : option string :=
  w ← cs_Waiting s;
  if existsb (String.eqb (wt_Reason w)) blocking then
    Some (kind +:+ " " +:+ quoted (cs_Name s) +:+ " is " +:+ wt_Reason w
      +:+ (if String.eqb (wt_Message w) "" then "" else ": " +:+ wt_Message w)
      +:+ match cs_LastTerminated s with
          | None => ""
          | Some t =>
              if negb (String.eqb (tm_Message t) "")
              then " (last exit: " +:+ TrimSpace (tm_Message t) +:+ ")"
              else if negb (tm_ExitCode t =? 0)%Z
              then " (last exit code " +:+ pretty (tm_ExitCode t) +:+ ")"
              else ""
          end)
  else None.
Definition podStartupBlocker (p : Pod) : option string :=
  match head (omap (blocked_by "init container") (p_InitStatuses p)) with
  | Some m => Some m
  | None => head (omap (blocked_by "container") (p_Statuses p))
  end.

Record CapacityState := mkCapacity {
  cap_Reason : string;
  cap_Message : string;
  cap_Terminal : bool;
  cap_Ready : bool }.

(** A label that is absent reads as the empty string. *)
Definition node_matches (sel labels : gmap string string) : bool :=
  forallb (λ kv, String.eqb (default "" (labels !! kv.1)) kv.2) (map_to_list sel).

Definition eventTriggeredScaleUp := "TriggeredScaleUp".
Definition eventNotTriggerScaleUp := "NotTriggerScaleUp".
(** What the autoscaler said, in the first of its events that decides. *)
Fixpoint autoscaler_says (es : list Event) : option CapacityState :=
  match es with
  | [] => None
  | e :: es =>
      if String.eqb (e_Reason e) eventTriggeredScaleUp then
        Some (mkCapacity ReasonWaitingForCapacity
          ("burst capacity is being provisioned: " +:+ e_Message e) false false)
      else if String.eqb (e_Reason e) eventNotTriggerScaleUp then
        Some (mkCapacity ReasonCapacityUnavailable
          ("burst capacity ceiling reached: " +:+ e_Message e) true false)
      else autoscaler_says es
  end.

(** The reconciler's own configuration. *)
Record EphemeralJobReconciler := mkReconciler {
  ProvisioningBudget : Z;
  NetworkPolicy : string;
  HasClientset : bool }.
Definition NetworkPolicyCilium := "cilium".
Definition NetworkPolicyNone := "none".
Definition ParseNetworkPolicyMode (s : string) : result string string :=
  if String.eqb s NetworkPolicyCilium || String.eqb s NetworkPolicyNone then Ok s
  else if String.eqb s "" then Err "--network-policy is required: cilium or none (ADR-106)"
  else Err ("--network-policy=" +:+ quoted s +:+ ": must be cilium or none (ADR-106)").

Definition hasContainerPort (ports : list Z) (port : Z) : bool := existsb (Z.eqb port) ports.

Definition validateSpec (e : EphemeralJob) : option (string * string) :=
  if String.eqb (Mode (Spec e)) ModeService && (IdleTimeoutSeconds (Spec e) <=? 0)%Z
  then Some ("InvalidSpec",
    "mode=Service requires idleTimeoutSeconds: without it the workload would never be reaped")
  else None.

(** The two sides of a session peer and its owner. *)
Definition sessionPeerPolicies (peer owner : EphemeralJob) (pe : PeerSpec) (storageHost : string) :
    list (string * Policy) :=
  let listen := pretty (pe_ListenPort pe) in
  let target := pretty (pe_TargetPort pe) in
  let labels := <[labelJobUID := UID peer]> (<[labelJobName := Name peer]> ∅) in
  [(Name peer +:+ "-peer",
    mkPolicy labels None (UID peer) [FromPod (UID owner) listen]
      [ToPod (UID owner) target; ToHost storageHost "443"]);
   (Name peer +:+ "-peer-owner",
    mkPolicy labels None (UID owner) [FromPod (UID peer) target] [ToPod (UID peer) listen])].

Definition storage_policy (e : EphemeralJob) (host : string) : Policy :=
  mkPolicy (<[labelJobUID := UID e]> (<[labelJobName := Name e]> ∅)) None (UID e) []
    [ToHost host "443"].

Section controller.
Context {L : JobLibrary} (getenv : string → string) (r : EphemeralJobReconciler).

(** ** capacity.go *)

Definition noNodeMatchesSelector (p : Pod) : JM bool :=
  if decide (ps_NodeSelector (p_Spec p) = ∅) then mret false
  else l ← ListNodes;
       mret (negb (existsb (node_matches (ps_NodeSelector (p_Spec p))) l)).

(** An unschedulable pod: what its events say, and if nothing, the nodes. *)
Definition assess_unscheduled (ns : string) (p : Pod) (scheduled : option PodCondition) :
    JM CapacityState :=
  let waiting := mkCapacity ReasonWaitingForCapacity (unschedulableMessage scheduled) false false in
  evs ← attempt (ListEvents (λ e, bool_decide (e_Namespace e = ns)
                                  && bool_decide (e_InvolvedName e = p_Name p)));
  match evs with
  | Err _ => mret waiting
  | Ok evs =>
      match autoscaler_says evs with
      | Some c => mret c
      | None =>
          none ← attempt (noNodeMatchesSelector p);
          mret match none with
               | Ok true => mkCapacity ReasonPlacementUnsatisfiable
                              (unschedulableMessage scheduled) true false
               | _ => waiting
               end
      end
  end.

Definition scheduled_now : CapacityState := mkCapacity ReasonScheduled "" false true.

(** [key]=[value] is the label the pods are found by. *)
Definition AssessCapacityBySelector (ns key value : string) : JM CapacityState :=
  l ← attempt (ListPods ns {[key := value]});
  match l with
  | Err e => throw (mkError (er_Kind e) ("listing pods in " +:+ ns +:+ " for map[" +:+ key +:+ ":"
                                         +:+ value +:+ "]: " +:+ er_Text e))
  | Ok [] => mret (mkCapacity ReasonWaitingForCapacity "pod not yet created" false false)
  | Ok (p :: _) =>
      if String.eqb (p_Phase p) "Running" || String.eqb (p_Phase p) "Succeeded"
      then mret scheduled_now
      else
        let scheduled := podCondition p "PodScheduled" in
        match scheduled with
        | Some c => if String.eqb (pc_Status c) "True" then mret scheduled_now
                    else assess_unscheduled ns p scheduled
        | None => assess_unscheduled ns p scheduled
        end
  end.
Definition AssessCapacity (ns jobName : string) : JM CapacityState :=
  AssessCapacityBySelector ns "job-name" jobName.

Definition jobPodCreationBlocked (j : Job) : JM (option (string * string)) :=
  evs ← attempt (ListEvents (λ e, bool_decide (e_Namespace e = j_Namespace j)
                                  && bool_decide (e_InvolvedUID e = j_UID j)));
  mret match evs with
       | Err _ => None
       | Ok evs =>
           (λ e, (e_Reason e, e_Message e)) <$>
           head (filter (λ e, String.eqb (e_Reason e) "FailedCreate"
                              && (admissionRejectionThreshold <=? e_Count e)%Z = true) evs)
       end.

(** ** Callbacks *)

Definition terminalEventID (e : EphemeralJob) (phase : string) : string :=
  let id := if String.eqb (RequestID (Spec e)) "" then UID e else RequestID (Spec e) in
  str_take 32 (sha256_hex (id +:+ "|" +:+ phase)).
Definition readyEventID (e : EphemeralJob) (podName : string) : string :=
  str_take 32 (sha256_hex (UID e +:+ "|" +:+ podName +:+ "|ready")).

Definition callbackReason (s : EphemeralJobStatus) : option string :=
  match Conditions s !! ConditionCapacity with
  | Some c =>
      if String.eqb (cd_Reason c) ReasonCapacityTimeout then Some (cd_Reason c)
      else match Conditions s !! ConditionComplete with
           | Some c => if String.eqb (cd_Reason c) "" then None else Some (cd_Reason c)
           | None => None
           end
  | None =>
      match Conditions s !! ConditionComplete with
      | Some c => if String.eqb (cd_Reason c) "" then None else Some (cd_Reason c)
      | None => None
      end
  end.

(** The POST, and what comes back. *)
Definition post (url : string) (p : Payload) : JM Z := λ w,
  let '(a, rest) := match replies w with
                    | [] => (StatusCode 200, [])
                    | a :: rest => (a, rest)
                    end in
  let w := set_posts rest (posts w ++ [(url, p)])%list w in
  match a with
  | NoAnswer why => (Err (mkError OtherError why), w)
  | StatusCode n => (Ok n, w)
  end.

Definition fireLifecycleCallback (phase : string) (exit : option Z) (gate eventID : string) : JM unit :=
  e ← gets ej;
  if String.eqb (CallbackURL (Spec e)) "" then mret ()
  else if meta_IsStatusConditionTrue (Status e) gate then mret ()
  else
    now ← Now;
    let payload := {|
      pl_jobId := Name e;
      pl_status := phase;
      pl_exitCode := exit;
      pl_output := Output (Spec e);
      pl_message := Message (Status e);
      pl_eventId := eventID;
      pl_requestId := RequestID (Spec e);
      pl_uid := UID e;
      pl_timestamp := rfc3339 now;
      pl_labels := Labels e;
      pl_reason := callbackReason (Status e) |} in
    match json_payload payload with
    | None => mret ()
    | Some _ =>
        if negb (valid_url (CallbackURL (Spec e))) then mret ()
        else
          code ← post (CallbackURL (Spec e)) payload;
          if (500 <=? code)%Z
          then throw (mkError OtherError ("callback to " +:+ CallbackURL (Spec e) +:+ " returned "
                                          +:+ pretty code))
          else
            assign (meta_SetStatusCondition gate
              (mkCondition true phase ("callback responded " +:+ pretty code) (Generation e))) ≫= λ _,
            ignoring NotFound StatusUpdate
    end.

Definition fireCallback (phase : string) (exit : option Z) : JM unit :=
  e ← gets ej;
  fireLifecycleCallback phase exit ConditionCallbackDelivered (terminalEventID e phase).

(** ** The ends of a job *)

Definition finished_status (e : EphemeralJob) (now : Z) (phase reason : string) (exit : option Z)
    (s : EphemeralJobStatus) : EphemeralJobStatus :=
  meta_SetStatusCondition ConditionComplete
    (mkCondition (String.eqb phase PhaseSucceeded) reason (Message s) (Generation e))
    (set_TerminalEventID (terminalEventID e phase)
      (set_ObservedGeneration (Generation e)
        (set_ExitCode exit (set_CompletionTime (Some now) (set_Phase phase s))))).

Definition markFinishedWithReason (phase reason : string) (exit : option Z) : JM unit :=
  now ← Now;
  e ← gets ej;
  assign (finished_status e now phase reason exit) ≫= λ _,
  ignoring NotFound StatusUpdate ≫= λ _,
  fireCallback phase exit.
Definition markFinished (phase : string) (exit : option Z) : JM unit :=
  markFinishedWithReason phase phase exit.

Definition terminal_status (e : EphemeralJob) (now : Z) (phase reason msg : string)
    (s : EphemeralJobStatus) : EphemeralJobStatus :=
  meta_SetStatusCondition ConditionCapacity (mkCondition false reason msg (Generation e))
    (set_TerminalEventID (terminalEventID e phase)
      (set_ObservedGeneration (Generation e)
        (set_Message msg (set_CompletionTime (Some now) (set_Phase phase s))))).

Definition markTerminal (phase reason msg : string) : JM unit :=
  now ← Now;
  e ← gets ej;
  assign (terminal_status e now phase reason msg) ≫= λ _,
  ignoring NotFound StatusUpdate.

Definition phase_status (e : EphemeralJob) (phase : string) (c : CapacityState)
    (s : EphemeralJobStatus) : EphemeralJobStatus :=
  meta_SetStatusCondition ConditionCapacity
    (mkCondition (cap_Ready c) (cap_Reason c) (cap_Message c) (Generation e))
    (set_ObservedGeneration (Generation e) (set_Message (cap_Message c) (set_Phase phase s))).
Definition setPhase (phase : string) (c : CapacityState) : JM unit :=
  e ← gets ej; assign (phase_status e phase c).

(** [return ctrl.Result{}, err] *)
Definition ending (m : JM unit) : JM Result := m ≫= λ _, mret no_requeue.

Definition reconcileTTL : JM Result :=
  e ← gets ej;
  match CompletionTime (Status e) with
  | None => mret no_requeue
  | Some done =>
      let ttl := seconds (TTLSecondsAfterFinished (Spec e)) in
      elapsed ← Since done;
      if (elapsed <? ttl)%Z then mret (requeue_after (ttl - elapsed))
      else ending (ignoring NotFound (DeleteEphemeralJob (Namespace e) (Name e)))
  end.

(** ** session_peer.go *)

Definition sessionStorageHost (namespace : string) : JM string :=
  fleetID ← resolveFleetID namespace;
  let name := resolveWorkspaceSyncConfig getenv namespace fleetID in
  cm ← attempt (GetConfigMap namespace name);
  match cm with
  | Err e => throw (mkError (er_Kind e) ("reading " +:+ namespace +:+ "/" +:+ name
                      +:+ " for the session's storage endpoint: " +:+ er_Text e))
  | Ok data =>
      let raw := default "" (data !! "S3_ENDPOINT_URL") in
      match url_hostname raw with
      | Some host =>
          if String.eqb host ""
          then throw (mkError OtherError (namespace +:+ "/" +:+ name +:+ " S3_ENDPOINT_URL "
                                          +:+ quoted raw +:+ " has no host"))
          else mret host
      | None => throw (mkError OtherError (namespace +:+ "/" +:+ name +:+ " S3_ENDPOINT_URL "
                                           +:+ quoted raw +:+ " has no host"))
      end
  end.

(** [owner] is the controller reference set on the policy before it is applied. *)
Definition owned (uid : string) (p : Policy) : Policy :=
  mkPolicy (pol_Labels p) (Some uid) (pol_Selector p) (pol_Ingress p) (pol_Egress p).
Definition same_policy (a b : Policy) : bool :=
  bool_decide (pol_Selector a = pol_Selector b) && bool_decide (pol_Ingress a = pol_Ingress b)
  && bool_decide (pol_Egress a = pol_Egress b) && bool_decide (pol_Labels a = pol_Labels b).
Definition applyPolicy (ns name : string) (want : Policy) : JM unit :=
  got ← attempt (GetPolicy ns name);
  match got with
  | Err e => if decide (er_Kind e = NotFound) then CreatePolicy ns name want else throw e
  | Ok got => if same_policy got want then mret () else UpdatePolicy ns name want
  end.

(** What makes a peer's owner unusable. *)
Definition bad_owner (pe : PeerSpec) (owner : EphemeralJob) : option (string * string) :=
  match Peer (Spec owner) with
  | Some _ => Some ("InvalidPeer", quoted (Name owner)
      +:+ " is itself a session peer; a peer must belong to the session's own job")
  | None =>
      if isTerminal (Phase (Status owner))
      then Some ("PeerOwnerFinished",
        quoted (Name owner) +:+ " has finished (" +:+ Phase (Status owner) +:+ ")")
      else if negb (hasContainerPort (Ports (Spec owner)) (pe_TargetPort pe))
      then Some ("InvalidPeer", "spec.peer.targetPort " +:+ pretty (pe_TargetPort pe)
        +:+ " is not one of " +:+ quoted (Name owner) +:+ "'s spec.ports")
      else None
  end.

(** [Some (reason, message)]: a peer that can never work. *)
Definition reconcileSessionPeer : JM (option (string * string)) :=
  e ← gets ej;
  match Peer (Spec e) with
  | None => mret None
  | Some pe =>
      match Labels e !! labelSandbox with
      | Some _ => mret (Some ("InvalidPeer", "a session peer must not carry the " +:+ labelSandbox
          +:+ " label: it would inherit the external hosts declared for sandboxes, which a peer must not reach"))
      | None =>
      if negb (hasContainerPort (Ports (Spec e)) (pe_ListenPort pe))
      then mret (Some ("InvalidPeer", "spec.peer.listenPort " +:+ pretty (pe_ListenPort pe)
          +:+ " is not one of this job's spec.ports"))
      else
      owner ← attempt (GetEphemeralJob (Namespace e) (pe_JobName pe));
      match owner with
      | Err err =>
          if decide (er_Kind err = NotFound)
          then mret (Some ("PeerOwnerNotFound", "spec.peer.jobName " +:+ quoted (pe_JobName pe)
              +:+ " is not an EphemeralJob in " +:+ Namespace e))
          else throw err
      | Ok owner =>
          match bad_owner pe owner with
          | Some bad => mret (Some bad)
          | None =>
              host ← sessionStorageHost (Namespace e);
              if negb (String.eqb (NetworkPolicy r) NetworkPolicyCilium) then mret None
              else forM (sessionPeerPolicies e owner pe host)
                     (λ '(name, p), applyPolicy (Namespace e) name (owned (UID e) p)) ≫= λ _,
                   mret None
          end
      end
      end
  end.

Definition reconcileStorageEgress : JM unit :=
  e ← gets ej;
  match Peer (Spec e), Output (Spec e), WorkspacePersistence (Spec e) with
  | Some _, _, _ => mret ()
  | None, None, None => mret ()
  | None, _, _ =>
      if negb (String.eqb (NetworkPolicy r) NetworkPolicyCilium) then mret ()
      else
        host ← sessionStorageHost (Namespace e);
        applyPolicy (Namespace e) (Name e +:+ "-storage") (owned (UID e) (storage_policy e host))
  end.

(** ** Jobs and pods *)

Definition deleteJob : JM unit :=
  e ← gets ej; ignoring NotFound (DeleteJob Background (Namespace e) (jobNameFor e)).
Definition deletePod (p : Pod) : JM unit := ignoring NotFound (DeletePod (p_Namespace p) (p_Name p)).

Definition podForJob (j : Job) : JM (option Pod) :=
  l ← ListPods (j_Namespace j) {["job-name" := j_Name j]}; mret (head l).

Definition IsControlledBy (j : Job) (e : EphemeralJob) : bool := bool_decide (j_Owner j = Some (UID e)).

(** The Job of a request that has none. *)
Definition create_job (e : EphemeralJob) : JM (option Job) :=
  let name := jobNameFor e in
  match ResolvePlacement (PlacementClass (Spec e)) with
  | None => throw (mkError OtherError ("unknown placement class " +:+ quoted (PlacementClass (Spec e))))
  | Some p =>
      j ← buildJob getenv e name p;
      created ← attempt (CreateJob (set_j_Owner (Some (UID e)) j));
      match created with
      | Err err =>
          if decide (er_Kind err = AlreadyExists)
          then j ← GetJob (Namespace e) name; mret (Some j)
          else throw err
      | Ok j => assign (set_JobName name) ≫= λ _, mret (Some j)
      end
  end.
(** [None]: a finished Job of an earlier request is being deleted. *)
Definition ensureJob : JM (option Job) :=
  e ← gets ej;
  let name := jobNameFor e in
  existing ← attempt (GetJob (Namespace e) name);
  match existing with
  | Ok j =>
      if negb (jobIsFinished j) then mret (Some j)
      else if IsControlledBy j e then mret (Some j)
      else ignoring NotFound (DeleteJob Foreground (Namespace e) name) ≫= λ _, mret None
  | Err err => if negb (bool_decide (er_Kind err = NotFound)) then throw err else create_job e
  end.

Definition ensurePod (p : Placement) : JM Pod :=
  e ← gets ej;
  l ← ListPods (Namespace e) {[labelJobUID := UID e]};
  match filter (λ p, p_Deleting p = false) l with
  | pod :: _ => mret pod
  | [] =>
      pod ← buildPod getenv e p;
      CreatePod (jobNameFor e +:+ "-") (set_p_Owner (Some (UID e)) pod)
  end.

Definition ensureService (s : ServiceSpec) : JM unit :=
  e ← gets ej;
  let name := serviceNameFor e in
  got ← attempt (GetService (Namespace e) name);
  match got with
  | Ok _ => mret ()
  | Err err =>
      if negb (bool_decide (er_Kind err = NotFound)) then throw err
      else ignoring AlreadyExists
             (CreateService (Namespace e) name (set_s_Owner (Some (UID e)) (buildService e s)))
  end.

(** ** Why a Job failed *)

Definition containerLogTail (p : Pod) : string :=
  if HasClientset r then default "" (TrimSpace <$> logs p) else "".

Definition failureDetail (j : Job) (jobDetail : string) : JM (string * option Z) :=
  let parts := if String.eqb jobDetail "" then [] else [jobDetail] in
  pod ← attempt (podForJob j);
  match pod with
  | Ok (Some p) =>
      let m := podTerminationMessage p in
      let exit := podExitCode p in
      let tail := containerLogTail p in
      mret (Join (parts
        ++ (if String.eqb m "" || String.eqb m "pod failed" then [] else [m])
        ++ (match exit with Some n => ["exit code " +:+ pretty n] | None => [] end)
        ++ (if String.eqb tail "" then [] else ["last output: " +:+ tail]))%list "; ", exit)
  | _ => mret (Join parts "; ", None)
  end.

(** ** Job mode *)

Definition over_budget (waited : Z) (c : CapacityState) : string :=
  "waiting " +:+ dur_string (Truncate waited) +:+ " for burst capacity, over the "
  +:+ dur_string (ProvisioningBudget r) +:+ " budget for this placement class: " +:+ cap_Message c.

(** The wait for capacity against its deadline; [stop] gives up the compute. *)
Definition capacity_deadline (c : CapacityState) (stop : JM unit) : JM bool :=
  e ← gets ej;
  match CapacityWaitSeconds (Spec e) with
  | None => mret false
  | Some n =>
      if (n <=? 0)%Z then mret false
      else
        waited ← Since (CreationTimestamp e);
        if (waited <=? seconds n)%Z then mret false
        else
          stop ≫= λ _,
          let msg := "capacity wait deadline exceeded: waiting " +:+ dur_string (Truncate waited)
            +:+ " for capacity, over " +:+ pretty n +:+ "s limit: " +:+ cap_Message c in
          assign (set_Message msg) ≫= λ _,
          assign (meta_SetStatusCondition ConditionCapacity
            (mkCondition false ReasonCapacityTimeout msg (Generation e))) ≫= λ _,
          markFinishedWithReason PhaseTimedOut ReasonCapacityTimeout None ≫= λ _,
          mret true
  end.

(** The last lines of Reconcile. *)
Definition store_status : JM Result :=
  u ← attempt StatusUpdate;
  match u with
  | Ok _ => mret (requeue_after defaultRequeue)
  | Err err => if decide (er_Kind err = NotFound) then mret no_requeue else throw err
  end.

Definition job_running (j : Job) (c : CapacityState) : JM Result :=
  e ← gets ej;
  started ← (match StartTime (Status e) with
             | Some t => mret (Some t)
             | None =>
                 now ← Now;
                 assign (set_StartTime (Some now)) ≫= λ _,
                 u ← attempt StatusUpdate;
                 match u with
                 | Ok _ => e ← gets ej; mret (StartTime (Status e))
                 | Err err => if decide (er_Kind err = NotFound) then mret None else throw err
                 end
             end : JM (option Z));
  match started with
  | None => mret no_requeue
  | Some t =>
      ran ← Since t;
      if (seconds (TimeoutSeconds (Spec e)) <? ran)%Z then
        ignoring NotFound (DeleteJob Background (j_Namespace j) (j_Name j)) ≫= λ _,
        assign (set_Message ("workload ran " +:+ dur_string (Truncate ran) +:+ ", exceeding its "
                             +:+ pretty (TimeoutSeconds (Spec e)) +:+ "s execution budget")) ≫= λ _,
        ending (markFinished PhaseTimedOut None)
      else setPhase PhaseRunning c ≫= λ _, store_status
  end.

Definition job_unplaceable (j : Job) (c : CapacityState) : JM Result :=
  pod ← attempt (podForJob j);
  match pod with
  | Ok (Some p) => deletePod p
  | _ => mret ()
  end ≫= λ _,
  assign (set_Message (cap_Message c)) ≫= λ _,
  ending (markFinished PhaseFailed None).

Definition job_waiting (j : Job) (c : CapacityState) : JM Result :=
  over ← capacity_deadline c (ignoring NotFound (DeleteJob Background (j_Namespace j) (j_Name j)));
  if (over : bool) then mret no_requeue
  else
    setPhase PhaseProvisioning c ≫= λ _,
    if cap_Terminal c then store_status
    else
      pod ← attempt (podForJob j);
      match (match pod with Ok (Some p) => podStartupBlocker p | _ => None end) with
      | Some blocker => assign (set_Message blocker) ≫= λ _, store_status
      | None =>
          e ← gets ej;
          waited ← Since (CreationTimestamp e);
          (if (ProvisioningBudget r <? waited)%Z then assign (set_Message (over_budget waited c))
           else mret ()) ≫= λ _,
          store_status
      end.

Definition job_observed (j : Job) : JM Result :=
  match jobAdmissionRejected j with
  | Some (reason, msg) =>
      ending (markTerminal PhaseFailed ReasonQuotaRejected (reason +:+ ": " +:+ msg))
  | None =>
  blocked ← jobPodCreationBlocked j;
  match blocked with
  | Some (reason, msg) =>
      ending (markTerminal PhaseFailed ReasonQuotaRejected (reason +:+ ": " +:+ msg))
  | None =>
  match jobFinished j with
  | Some (phase, exit, detail) =>
      exit ← (if String.eqb phase PhaseSucceeded then mret exit
              else
                d ← failureDetail j detail;
                if String.eqb d.1 "" then mret exit
                else assign (set_Message d.1) ≫= λ _,
                     mret (match exit with None => d.2 | Some _ => exit end));
      ending (markFinished phase exit)
  | None =>
      e ← gets ej;
      c ← AssessCapacity (Namespace e) (j_Name j);
      if cap_Ready c then job_running j c
      else if String.eqb (cap_Reason c) ReasonPlacementUnsatisfiable then job_unplaceable j c
      else job_waiting j c
  end
  end
  end.

Definition reconcileJobMode : JM Result :=
  e ← gets ej;
  expired ← (if (0 <? MaxLifetimeSeconds (Spec e))%Z then
               lived ← Since (CreationTimestamp e);
               mret (seconds (MaxLifetimeSeconds (Spec e)) <? lived)%Z
             else mret false);
  if (expired : bool) then
    deleteJob ≫= λ _,
    assign (set_Message ("reached the " +:+ pretty (MaxLifetimeSeconds (Spec e))
                         +:+ "s maximum lifetime without finishing")) ≫= λ _,
    ending (markFinished PhaseTimedOut None)
  else
    got ← attempt ensureJob;
    match got with
    | Err err =>
        if jobRefusedAtAdmission err then
          assign (set_Message (er_Text err)) ≫= λ _,
          ending (markFinishedWithReason PhaseFailed ReasonAdmissionRejected None)
        else throw err
    | Ok None => mret (requeue_after defaultRequeue)
    | Ok (Some j) => job_observed j
    end.

(** ** Service mode *)

Definition updateServiceStatus : JM Result :=
  u ← attempt StatusUpdate;
  match u with
  | Ok _ => mret no_requeue
  | Err err =>
      if decide (er_Kind err = Conflict) then mret (mkResult true 0)
      else if decide (er_Kind err = NotFound) then mret no_requeue
      else throw err
  end.
(** [if res, err := updateServiceStatus(); err != nil || res.Requeue { return res, err }] *)
Definition store_service (after : Result) : JM Result :=
  res ← updateServiceStatus;
  mret (if Requeue res then res else after).

Definition service_expired (pod : Pod) (c : CapacityState) : JM Result :=
  e ← gets ej;
  deletePod pod ≫= λ _,
  assign (set_Message ("reached the " +:+ pretty (MaxLifetimeSeconds (Spec e))
                       +:+ "s maximum lifetime")) ≫= λ _,
  (match Conditions (Status e) !! ConditionCapacity with
   | Some _ => mret ()
   | None => assign (meta_SetStatusCondition ConditionCapacity
       (mkCondition false (cap_Reason c) (cap_Message c) (Generation e)))
   end) ≫= λ _,
  ending (markFinished PhaseSucceeded None).

Definition service_waiting (pod : Pod) (c : CapacityState) : JM Result :=
  over ← capacity_deadline c (deletePod pod);
  if (over : bool) then mret no_requeue
  else
    setPhase PhaseProvisioning c ≫= λ _,
    e ← gets ej;
    waited ← Since (CreationTimestamp e);
    (if (ProvisioningBudget r <? waited)%Z then assign (set_Message (over_budget waited c))
     else mret ()) ≫= λ _,
    store_service (requeue_after defaultRequeue).

(** The pod runs and its workload is not ready; [started] is when it began. *)
Definition service_not_ready (pod : Pod) (c : CapacityState) (started : Z) : JM Result :=
  e ← gets ej;
  waited ← Since started;
  if (seconds (ReadinessDeadlineSeconds (Spec e)) <? waited)%Z then
    deletePod pod ≫= λ _,
    assign (set_Message ("workload did not become ready within "
      +:+ pretty (ReadinessDeadlineSeconds (Spec e)) +:+ "s of starting")) ≫= λ _,
    ending (markFinished PhaseFailed None)
  else
    setPhase PhaseProvisioning c ≫= λ _,
    assign (set_Message (default "workload container is not ready" (podStartupBlocker pod))) ≫= λ _,
    assign (set_PodName (p_Name pod)) ≫= λ _,
    store_service (requeue_after defaultRequeue).

(** Serving: the caller is told once per pod, and the idle clock runs. *)
Definition service_serving (pod : Pod) (c : CapacityState) (now : Z) : JM Result :=
  e ← gets ej;
  (if String.eqb (PodName (Status e)) (p_Name pod) then mret ()
   else assign (meta_SetStatusCondition ConditionReadyNotified
     (mkCondition false "PodReplaced" "a new pod is serving; the caller is told again"
        (Generation e)))) ≫= λ _,
  (match LastActivityTime (Status e) with
   | Some _ => mret ()
   | None => assign (set_LastActivityTime (Some now))
   end) ≫= λ _,
  attempt (fireLifecycleCallback PhaseRunning None ConditionReadyNotified
             (readyEventID e (p_Name pod))) ≫= λ _,
  e ← gets ej;
  idle ← Since (default 0%Z (LastActivityTime (Status e)));
  let budget := seconds (IdleTimeoutSeconds (Spec e)) in
  if (budget <? idle)%Z then
    deletePod pod ≫= λ _,
    assign (set_Message ("idle for " +:+ dur_string (Truncate idle) +:+ ", exceeding the "
      +:+ pretty (IdleTimeoutSeconds (Spec e)) +:+ "s idle budget")) ≫= λ _,
    ending (markFinished PhaseSucceeded None)
  else
    setPhase PhaseRunning c ≫= λ _,
    assign (set_PodName (p_Name pod)) ≫= λ _,
    (match sp_Service (Spec e) with
     | Some _ => assign (set_ServiceName (serviceNameFor e))
     | None => mret ()
     end) ≫= λ _,
    store_service (requeue_after (minDuration (budget - idle) defaultRequeue)).

Definition service_observed (pod : Pod) : JM Result :=
  if String.eqb (p_Phase pod) "Failed" then
    assign (set_Message (podTerminationMessage pod)) ≫= λ _,
    ending (markFinished PhaseFailed (podExitCode pod))
  else if String.eqb (p_Phase pod) "Succeeded" then
    ending (markFinished PhaseSucceeded (podExitCode pod))
  else
    e ← gets ej;
    c ← AssessCapacityBySelector (Namespace e) labelJobUID (UID e);
    expired ← (if (0 <? MaxLifetimeSeconds (Spec e))%Z then
                 lived ← Since (CreationTimestamp e);
                 mret (seconds (MaxLifetimeSeconds (Spec e)) <? lived)%Z
               else mret false);
    if (expired : bool) then service_expired pod c
    else if negb (cap_Ready c) then service_waiting pod c
    else
      now ← Now;
      (match StartTime (Status e) with
       | Some _ => mret ()
       | None => assign (set_StartTime (Some now))
       end) ≫= λ _,
      if negb (workloadReady pod)
      then service_not_ready pod c (default now (StartTime (Status e)))
      else service_serving pod c now.

Definition reconcileServiceMode : JM Result :=
  e ← gets ej;
  match ResolvePlacement (PlacementClass (Spec e)) with
  | None => throw (mkError OtherError ("unknown placement class " +:+ quoted (PlacementClass (Spec e))))
  | Some p =>
      (match sp_Service (Spec e) with
       | Some s => ensureService s
       | None => mret ()
       end) ≫= λ _,
      got ← attempt (ensurePod p);
      match got with
      | Err err =>
          if jobRefusedAtAdmission err then
            assign (set_Message (er_Text err)) ≫= λ _,
            ending (markFinishedWithReason PhaseFailed ReasonAdmissionRejected None)
          else throw err
      | Ok pod => service_observed pod
      end
  end.

(** ** A pass *)

(** What follows once the request is known to be live. *)
Definition reconcile_live : JM Result :=
  e ← gets ej;
  if Cancelled (Spec e)
  then ending (markTerminal PhaseCancelled "Cancelled" "cancelled by the submitter")
  else
  match validateSpec e with
  | Some (reason, msg) => ending (markTerminal PhaseFailed reason msg)
  | None =>
  peer ← reconcileSessionPeer;
  match peer with
  | Some (reason, msg) => ending (markTerminal PhaseFailed reason msg)
  | None =>
  reconcileStorageEgress ≫= λ _,
  if String.eqb (Mode (Spec e)) ModeService then reconcileServiceMode else reconcileJobMode
  end
  end.

Definition Reconcile (ns name : string) : JM Result :=
  got ← attempt (GetEphemeralJob ns name);
  match got with
  | Err err => if decide (er_Kind err = NotFound) then mret no_requeue else throw err
  | Ok e =>
      modify (set_ej e) ≫= λ _,
      if Deleting e then mret no_requeue
      else if isTerminal (Phase (Status e)) then reconcileTTL
      else reconcile_live
  end.
End controller.
