(* ===== verification/JobLifecycleFacts.v ===== *)
(** * JobLifecycleFacts: what a pass does to the stored requests.

    The invariant of the stored statuses ([sound]) is carried through a pass by two
    predicates on the world: [Before], that no terminal callback has been posted in
    this pass, and [After], that exactly one has, for the status that is stored. A
    program is [lively] when it leads from the first to either; every branch of
    [reconcile_live] is walked with the rules below. *)

From S2P Require Import Prelude.
From S2P Require Import JobTypes.
From S2P Require Import JobPod.
From S2P Require Import JobClientFacts.
From S2P Require Import JobController.

Local Open Scope string_scope.

Definition key (e : EphemeralJob) : string * string := (Namespace e, Name e).

(** An API server reports as not found only what is not there. *)
Definition honest (f : fault) : Prop :=
  match f with Fine => True | FailBefore e | FailAfter e => er_Kind e ≠ NotFound end.

Definition ended (p : string) : bool := isTerminal p || String.eqb p PhaseCancelled.
Definition known_phases : list string :=
  [""; "Pending"; "Queued"; "Admitted"; PhaseProvisioning; PhaseRunning; PhaseSucceeded;
   PhaseFailed; PhaseTimedOut; PhaseCancelled].

Lemma isTerminal_known p : isTerminal p = true → p ∈ known_phases.
Proof.
  unfold isTerminal. rewrite !orb_true_iff, !String.eqb_eq. unfold known_phases. set_solver.
Qed.

Lemma ended_terminal p : isTerminal p = true → ended p = true.
Proof. unfold ended. by intros ->. Qed.

Section lifecycle.
Context {L : JobLibrary} (getenv : string → string) (r : EphemeralJobReconciler).

(** A status of [e] the controller may store. *)
Record sound (e : EphemeralJob) (s : EphemeralJobStatus) : Prop := {
  sound_phase : Phase s ∈ known_phases;
  sound_end : ended (Phase s) = true →
    is_Some (CompletionTime s) ∧ TerminalEventID s = terminalEventID e (Phase s) }.

Lemma sound_wire e s : sound e s → sound e (wire s).
Proof.
  intros [Hp He]. split; [done|]. intros H. destruct (He H) as [[t Ht] Hid]. split; [|done].
  cbn. rewrite Ht. by eexists.
Qed.

(** Updates that leave the phase and what goes with it alone. *)
Definition quiet (f : EphemeralJobStatus → EphemeralJobStatus) : Prop :=
  ∀ s, Phase (f s) = Phase s ∧ CompletionTime (f s) = CompletionTime s ∧
       TerminalEventID (f s) = TerminalEventID s.

Lemma sound_quiet e f s : quiet f → sound e s → sound e (f s).
Proof. intros H [Hp He]. destruct (H s) as (E1 & E2 & E3). split; by rewrite E1, ?E2, ?E3. Qed.

Lemma sound_phase_status e e' phase c s :
  phase ∈ [PhaseProvisioning; PhaseRunning] → sound e s → sound e (phase_status e' phase c s).
Proof.
  intros Hp _. split; cbn; [unfold known_phases; set_solver|]. set_unfold in Hp.
  by destruct Hp as [->|[->|[]]].
Qed.

Lemma sound_finished e s0 now phase reason exit s :
  isTerminal phase = true → sound e (finished_status (set_Status s0 e) now phase reason exit s).
Proof.
  intros Hp. split; cbn; [by apply isTerminal_known|]. by split.
Qed.

Lemma sound_terminal e s0 now phase reason msg s :
  ended phase = true → sound e (terminal_status (set_Status s0 e) now phase reason msg s).
Proof.
  intros Hp. split; cbn; [|by split]. apply orb_true_iff in Hp as [Hp| ->%String.eqb_eq];
    [by apply isTerminal_known|unfold known_phases; set_solver].
Qed.

(** ** A pass on one request *)

Section pass.
Context (e0 : EphemeralJob) (ejs0 : gmap (string * string) EphemeralJob)
        (posts0 : list (string * Payload)).

(** A callback that says the workload of [e0] serves. *)
Definition ready_post (x : string * Payload) : Prop :=
  pl_status x.2 = PhaseRunning ∧ pl_uid x.2 = UID e0.

(** The working copy has status [s], the stored request [s']. *)
Record Holds (s s' : EphemeralJobStatus) (w : World) : Prop := {
  holds_ej : ej w = set_Status s e0;
  holds_ejs : ejs (cluster w) = <[key e0 := set_Status s' e0]> ejs0;
  holds_sound : sound e0 s;
  holds_sound' : sound e0 s';
  holds_honest : Forall honest (faults w) }.

Definition Before (w : World) : Prop :=
  (∃ s s', Holds s s' w) ∧ ∃ l, posts w = (posts0 ++ l)%list ∧ Forall ready_post l.

Definition After (w : World) : Prop :=
  ∃ s s' l u p, Holds s s' w ∧ posts w = (posts0 ++ l ++ [(u, p)])%list ∧ Forall ready_post l ∧
    Phase s = Phase s' ∧ isTerminal (Phase s') = true ∧ pl_status p = Phase s' ∧
    pl_eventId p = TerminalEventID s' ∧ pl_uid p = UID e0 ∧ u = CallbackURL (Spec e0).

Lemma Holds_unmoved s s' w w' : unmoved w w' → Holds s s' w → Holds s s' w'.
Proof.
  intros (Hc & He & _ & [l Hf]) [H1 H2 H3 H4 H5]. split; [congruence..|done|done|].
  rewrite Hf in H5. by apply Forall_app in H5 as [_ H5].
Qed.

Global Instance Before_steady : Steady Before.
Proof.
  intros w w' Hm [(s & s' & Hh) (l & Hl & Hr)]. split.
  - exists s, s'. by eapply Holds_unmoved.
  - exists l. destruct Hm as (_ & _ & -> & _). done.
Qed.

(** *** Rules *)

Lemma keeps_ej {A} (f : EphemeralJob → JM A) :
  (∀ s, keeps Before (f (set_Status s e0))) → keeps Before (gets ej ≫= f).
Proof.
  intros Hf w Hw. rewrite bind_run. cbn. pose proof Hw as [(s & s' & Hh) _].
  rewrite (holds_ej _ _ _ Hh). by apply Hf.
Qed.

Lemma Before_assign f w s s' :
  Holds s s' w → sound e0 (f s) →
  Holds (f s) s' (set_ej (set_Status (f (Status (ej w))) (ej w)) w).
Proof. intros [H1 H2 H3 H4 H5] Hs. split; cbn; [by rewrite H1|done..]. Qed.

Lemma keeps_assign_sound f : (∀ s, sound e0 s → sound e0 (f s)) → keeps Before (assign f).
Proof.
  intros Hf w [(s & s' & Hh) Hp]. split; [|done]. exists (f s), s'.
  apply Before_assign; [done|]. apply Hf, Hh.
Qed.
Lemma keeps_assign_quiet f : quiet f → keeps Before (assign f).
Proof. intros Hf. apply keeps_assign_sound. intros s. by apply sound_quiet. Qed.

(** A write to any other kind of object. *)
Lemma keeps_write_elsewhere f :
  (∀ c c', f c = Ok c' → ejs c' = ejs c) → keeps Before (write f).
Proof.
  intros Hf. apply keeps_call; [apply _|]. intros w c [(s & s' & [H1 H2 H3 H4 H5]) Hp] E.
  split; [|done]. exists s, s'. split; try done. cbn. by rewrite (Hf _ _ E).
Qed.

(** Storing the status. *)
Lemma StatusUpdate_run s s' w :
  Holds s s' w →
  match StatusUpdate w with
  | (Ok _, w') => Holds (wire s) (wire s) w' ∧ posts w' = posts w
  | (Err e, w') => er_Kind e ≠ NotFound ∧ posts w' = posts w ∧ ∃ s2, Holds s s2 w' ∧ (s2 = s' ∨ s2 = wire s)
  end.
Proof.
  intros Hh. pose proof Hh as [H1 H2 H3 H4 H5]. unfold StatusUpdate.
  rewrite !bind_run. cbn [gets fst snd]. rewrite H1.
  change (Namespace (set_Status s e0), Name (set_Status s e0)) with (key e0).
  rewrite bind_run, write_run.
  assert (Hs : Holds s s' (spent w)) by (eapply Holds_unmoved; [apply unmoved_spent|done]).
  rewrite H2, lookup_insert_eq.
  assert (Hst : Holds s (wire s) (set_cluster (set_ejs (<[key e0:=set_Status (wire (Status (set_Status s e0)))
    (set_Status s' e0)]> (ejs (cluster w))) (cluster w)) (spent w))).
  { destruct Hs as [J1 J2 J3 J4 J5]. split; try done; [|by apply sound_wire].
    cbn. by rewrite H2, insert_insert_eq. }
  assert (Hf : honest (next_fault w)).
  { unfold next_fault. destruct (faults w) as [|f fs]; [done|]. by apply Forall_cons in H5 as [? _]. }
  rewrite H2 in Hst. destruct (next_fault w) eqn:Ef; cbn in Hf |- *.
  - split; [|done]. by destruct Hst.
  - split_and!; [done..|]. exists s'. auto.
  - split_and!; [done..|]. exists (wire s). split; [apply Hst|auto].
Qed.

Lemma keeps_StatusUpdate : keeps Before StatusUpdate.
Proof.
  intros w [(s & s' & Hh) (l & Hl & Hr)]. pose proof (StatusUpdate_run s s' w Hh) as H.
  destruct (StatusUpdate w) as [[u|e] w']; cbn.
  - destruct H as [H E]. split; [eauto|]. exists l. by rewrite E.
  - destruct H as (_ & E & s2 & H & _). split; [eauto|]. exists l. by rewrite E.
Qed.

Lemma post_run url p w :
  ∃ w', (post url p w).2 = w' ∧ cluster w' = cluster w ∧ ej w' = ej w ∧ faults w' = faults w ∧
        posts w' = (posts w ++ [(url, p)])%list.
Proof.
  eexists. split; [reflexivity|]. unfold post. by destruct (replies w) as [|[why|n] rest].
Qed.

Lemma Holds_post s s' url p w : Holds s s' w → Holds s s' (post url p w).2.
Proof.
  destruct (post_run url p w) as (w' & -> & Hc & He & Hf & _). intros [H1 H2 H3 H4 H5].
  split; rewrite ?Hc, ?He, ?Hf; done.
Qed.

(** *** Callbacks *)

(** Statuses that agree on the outcome. *)
Definition alike (s s' : EphemeralJobStatus) : Prop :=
  Phase s = Phase s' ∧ TerminalEventID s = TerminalEventID s'.

Lemma callback_run s s' phase exit gate id w :
  Holds s s' w →
  let w' := (fireLifecycleCallback phase exit gate id w).2 in
  (Holds s s' w' ∧ posts w' = posts w) ∨
  (∃ p s2 s2', posts w' = (posts w ++ [(CallbackURL (Spec e0), p)])%list ∧
     pl_status p = phase ∧ pl_eventId p = id ∧ pl_uid p = UID e0 ∧
     Holds s2 s2' w' ∧ alike s2 s ∧ (s2' = s' ∨ alike s2' s)).
Proof.
  intros Hh. pose proof (holds_ej _ _ _ Hh) as He. unfold fireLifecycleCallback.
  rewrite bind_run. cbn [gets]. rewrite He.
  destruct (String.eqb _ _); [by left|]. destruct (meta_IsStatusConditionTrue _ _); [by left|].
  rewrite bind_run. cbn [Now].
  set (w1 := set_time _ _ w). assert (Hh1 : Holds s s' w1)
    by (eapply Holds_unmoved; [|done]; by split_and!).
  destruct (json_payload _) as [body|]; [|by left]. destruct (negb _); [by left|]. right.
  match goal with |- context [post ?u ?p] => set (pl := p); destruct (post_run u pl w1) as (w2 & E & Hc & Hj & Hf & Hp);
    pose proof (Holds_post _ _ u pl w1 Hh1) as Hh2 end.
  exists pl. rewrite E in Hh2.
  destruct (post _ pl w1) as [[code|err] w2'] eqn:Epost; cbn in E; subst w2'.
  2: { rewrite (bind_err _ _ _ _ _ Epost). exists s, s'. split_and!; try done; first [by left|by split]. }
  rewrite (bind_ok _ _ _ _ _ Epost). cbn beta. destruct (_ <=? _)%Z.
  { exists s, s'. split_and!; try done; first [by left|by split]. }
  rewrite bind_run, assign_run.
  set (f := meta_SetStatusCondition _ _).
  assert (Hq : quiet f) by done.
  pose proof (Before_assign f w2 s s' Hh2 (sound_quiet _ _ _ Hq (holds_sound _ _ _ Hh2))) as Hh3.
  set (w3 := set_ej _ w2) in *. rewrite ignoring_run. cbn [snd].
  pose proof (StatusUpdate_run _ _ _ Hh3) as Hu.
  assert (Hpw : posts w3 = (posts w ++ [(CallbackURL (Spec e0), pl)])%list) by exact Hp.
  destruct (StatusUpdate w3) as [[u|e] w4]; cbn [snd].
  - destruct Hu as [Hu Hpo]. exists (wire (f s)), (wire (f s)). rewrite Hpo, Hpw.
    split_and!; try done; first [by right|by split].
  - destruct Hu as (_ & Hpo & s2 & Hu & Hs2). exists (f s), s2. rewrite Hpo, Hpw.
    destruct Hs2 as [-> | ->]; split_and!; try done; first [by left|by right|by split].
Qed.

Lemma keeps_ready_callback gate id :
  keeps Before (fireLifecycleCallback PhaseRunning None gate id).
Proof.
  intros w [(s & s' & Hh) (l & Hl & Hr)].
  destruct (callback_run s s' PhaseRunning None gate id w Hh)
    as [[H E]|(p & s2 & s2' & E & Hs & _ & Hu & H & _)]; (split; [eauto|]).
  - exists l. by rewrite E.
  - exists (l ++ [(CallbackURL (Spec e0), p)])%list. rewrite E, Hl, <-app_assoc. split; [done|].
    apply Forall_app. split; [done|]. by apply Forall_singleton.
Qed.

(** *** The ends *)

(** [m] leads from [Before] to [Before] or [After]. *)
Definition lively {A} (m : JM A) : Prop := ∀ w, Before w → Before (m w).2 ∨ After (m w).2.

Lemma lively_keeps {A} (m : JM A) : keeps Before m → lively m.
Proof. intros Hm w Hw. left. by apply Hm. Qed.

Lemma lively_bind {A B} (m : JM A) (f : A → JM B) :
  keeps Before m → (∀ a, lively (f a)) → lively (m ≫= f).
Proof.
  intros Hm Hf w Hw. specialize (Hm w Hw). rewrite bind_run.
  destruct (m w) as [[a|e] w']; [by apply Hf|by left].
Qed.

Lemma lively_ej {A} (f : EphemeralJob → JM A) :
  (∀ s, lively (f (set_Status s e0))) → lively (gets ej ≫= f).
Proof.
  intros Hf w Hw. rewrite bind_run. cbn. pose proof Hw as [(s & s' & Hh) _].
  rewrite (holds_ej _ _ _ Hh). by apply Hf.
Qed.

Lemma lively_ending m : lively m → lively (ending m).
Proof.
  intros Hm w Hw. specialize (Hm w Hw). unfold ending. rewrite bind_run.
  by destruct (m w) as [[a|e] w'].
Qed.

Lemma lively_markFinished phase reason exit :
  isTerminal phase = true → lively (markFinishedWithReason phase reason exit).
Proof.
  intros Ht w [(s & s' & Hh) (l & Hl & Hr)]. unfold markFinishedWithReason.
  rewrite bind_run. cbn [Now]. set (w1 := set_time _ _ w). set (now := (clk w + _)%Z).
  assert (Hh1 : Holds s s' w1) by (eapply Holds_unmoved; [|done]; by split_and!).
  rewrite bind_run. cbn [gets]. rewrite (holds_ej _ _ _ Hh1), bind_run, assign_run.
  set (f := finished_status _ _ _ _ _).
  assert (Hs : sound e0 (f s)) by by apply sound_finished.
  pose proof (Before_assign f w1 s s' Hh1 Hs) as Hh2. set (w2 := set_ej _ w1) in *.
  rewrite bind_run, ignoring_run. pose proof (StatusUpdate_run _ _ _ Hh2) as Hu.
  destruct (StatusUpdate w2) as [[u|e] w3]; cbn [fst snd].
  2: { destruct Hu as (Hk & Hp & s2 & Hu & _). rewrite decide_False by done. left.
       split; [eauto|]. exists l. split; [|done]. cbn. by rewrite Hp. }
  destruct Hu as [Hu Hp]. unfold fireCallback. rewrite bind_run. cbn [gets].
  rewrite (holds_ej _ _ _ Hu).
  destruct (callback_run _ _ phase exit ConditionCallbackDelivered
    (terminalEventID (set_Status (wire (f s)) e0) phase) w3 Hu)
    as [[H E]|(p & s2 & s2' & E & Hs1 & Hs2 & Hs3 & H & [Ha1 Ha2] & Ha')]; [left|right].
  - split; [eauto|]. exists l. rewrite E, Hp. done.
  - assert (alike s2' (wire (f s))) as [Hb1 Hb2] by (destruct Ha' as [->|?]; done).
    exists s2, s2', l, (CallbackURL (Spec e0)), p. rewrite E, Hp.
    split_and!; try done.
    + change (posts w2) with (posts w). by rewrite Hl, <-app_assoc.
    + congruence.
    + by rewrite Hb1.
    + by rewrite Hb1, Hs1.
    + by rewrite Hb2, Hs2.
Qed.

Lemma keeps_markTerminal phase reason msg :
  ended phase = true → keeps Before (markTerminal phase reason msg).
Proof.
  intros He. apply keeps_bind; [apply keeps_Now, _|intros now]. apply keeps_ej. intros s.
  apply keeps_bind; [|intros _; apply keeps_ignoring, keeps_StatusUpdate].
  apply keeps_assign_sound. intros s1 _. by apply sound_terminal.
Qed.

(** *** The walk *)

Lemma keeps_DeleteJob p ns name : keeps Before (DeleteJob p ns name).
Proof. apply keeps_write_elsewhere. intros c c'. destruct (jobs c !! _); [|done]. by intros [= <-]. Qed.
Lemma keeps_DeletePod ns name : keeps Before (DeletePod ns name).
Proof. apply keeps_write_elsewhere. intros c c'. destruct (pods c !! _); [|done]. by intros [= <-]. Qed.
Lemma keeps_CreateService ns name s : keeps Before (CreateService ns name s).
Proof. apply keeps_write_elsewhere. intros c c'. destruct (services c !! _); [done|]. by intros [= <-]. Qed.
Lemma keeps_CreatePolicy ns name s : keeps Before (CreatePolicy ns name s).
Proof. apply keeps_write_elsewhere. intros c c'. destruct (policies c !! _); [done|]. by intros [= <-]. Qed.
Lemma keeps_UpdatePolicy ns name s : keeps Before (UpdatePolicy ns name s).
Proof. apply keeps_write_elsewhere. intros c c'. destruct (policies c !! _); [|done]. by intros [= <-]. Qed.
Lemma keeps_CreateJob j : keeps Before (CreateJob j).
Proof.
  apply keeps_bind; [apply keeps_fresh, _|intros n]. apply keeps_bind; [|intros; apply keeps_ret].
  apply keeps_write_elsewhere. intros c c'. destruct (jobs c !! _); [done|]. by intros [= <-].
Qed.
Lemma keeps_CreatePod g p : keeps Before (CreatePod g p).
Proof.
  apply keeps_bind; [apply keeps_fresh, _|intros n]. apply keeps_bind; [|intros; apply keeps_ret].
  apply keeps_write_elsewhere. intros c c'. destruct (pods c !! _); [done|]. by intros [= <-].
Qed.
End pass.

#[local] Hint Resolve keeps_StatusUpdate keeps_DeleteJob keeps_DeletePod keeps_CreateService
  keeps_CreatePolicy keeps_UpdatePolicy keeps_CreateJob keeps_CreatePod keeps_ready_callback
  keeps_markTerminal : keeps.

(** Walks a program under [Before]; assignments are quiet or set a phase that is not
    an end. *)
Ltac walk_before :=
  repeat first
    [ progress intros
    | progress cbn beta iota
    | match goal with
      | |- keeps _ (match ?x with _ => _ end) => destruct x eqn:?
      | |- keeps _ (let (_, _) := ?x in _) => destruct x eqn:?
      end
    | match goal with
      | |- keeps _ (gets ej ≫= _) => apply keeps_ej
      | |- keeps _ (_ ≫= _) => apply keeps_bind
      | |- keeps _ (attempt _) => apply keeps_attempt
      | |- keeps _ (setPhase _ _) => unfold setPhase
      end
    | apply keeps_assign_quiet; done
    | apply keeps_assign_sound; intros ? ?; apply sound_phase_status; [set_solver|done]
    | solve [eauto with keeps typeclass_instances] ].

Section walk.
Context (e0 : EphemeralJob) (ejs0 : gmap (string * string) EphemeralJob)
        (posts0 : list (string * Payload)).
Abbreviation B := (Before e0 ejs0 posts0).

Lemma keeps_resolveFleetID ns : keeps B (resolveFleetID ns).
Proof. unfold resolveFleetID, GetNamespace. walk_before. Qed.
Hint Resolve keeps_resolveFleetID : keeps.

Lemma keeps_ensureJob : keeps B (ensureJob getenv).
Proof. unfold ensureJob, create_job, GetJob, buildJob, buildPodSpec. walk_before. Qed.
Lemma keeps_ensurePod p : keeps B (ensurePod getenv p).
Proof. unfold ensurePod, buildPod, buildPodSpec. walk_before. Qed.
Lemma keeps_ensureService s : keeps B (ensureService s).
Proof. unfold ensureService, GetService. walk_before. Qed.
Lemma keeps_sessionStorageHost ns : keeps B (sessionStorageHost getenv ns).
Proof. unfold sessionStorageHost, GetConfigMap. walk_before. Qed.
Lemma keeps_applyPolicy ns name p : keeps B (applyPolicy ns name p).
Proof. unfold applyPolicy, GetPolicy. walk_before. Qed.
Hint Resolve keeps_ensureJob keeps_ensurePod keeps_ensureService keeps_sessionStorageHost
  keeps_applyPolicy : keeps.
Lemma keeps_reconcileSessionPeer : keeps B (reconcileSessionPeer getenv r).
Proof.
  unfold reconcileSessionPeer, GetEphemeralJob. walk_before.
  apply keeps_forM. intros [? ?] _. apply keeps_applyPolicy.
Qed.
Lemma keeps_reconcileStorageEgress : keeps B (reconcileStorageEgress getenv r).
Proof. unfold reconcileStorageEgress. walk_before. Qed.
Lemma keeps_AssessCapacity ns k v : keeps B (AssessCapacityBySelector ns k v).
Proof.
  unfold AssessCapacityBySelector, assess_unscheduled, noNodeMatchesSelector, ListNodes. walk_before.
Qed.
Lemma keeps_jobPodCreationBlocked j : keeps B (jobPodCreationBlocked j).
Proof. unfold jobPodCreationBlocked. walk_before. Qed.
Lemma keeps_podForJob j : keeps B (podForJob j).
Proof. unfold podForJob. walk_before. Qed.
Lemma keeps_deletePod p : keeps B (deletePod p).
Proof. unfold deletePod. walk_before. Qed.
Lemma keeps_store_status : keeps B store_status.
Proof. unfold store_status. walk_before. Qed.
Lemma keeps_store_service after : keeps B (store_service after).
Proof. unfold store_service, updateServiceStatus. walk_before. Qed.
Lemma keeps_failureDetail j d : keeps B (failureDetail r j d).
Proof. unfold failureDetail, podForJob. walk_before. Qed.
End walk.

#[local] Hint Resolve keeps_ensureJob keeps_ensurePod keeps_ensureService keeps_reconcileSessionPeer
  keeps_reconcileStorageEgress keeps_AssessCapacity keeps_jobPodCreationBlocked keeps_podForJob
  keeps_deletePod keeps_store_status keeps_store_service keeps_failureDetail : keeps.

Ltac walk_lively :=
  repeat first
    [ progress intros
    | progress cbn beta iota
    | match goal with
      | |- lively _ _ _ (match ?x with _ => _ end) => destruct x eqn:?
      | |- lively _ _ _ (gets ej ≫= _) => apply lively_ej
      | |- lively _ _ _ (ending _) => apply lively_ending
      | |- lively _ _ _ (markFinished _ _) => apply lively_markFinished
      | |- lively _ _ _ (markFinishedWithReason _ _ _) => apply lively_markFinished
      | |- lively _ _ _ (_ ≫= _) => apply lively_bind; [solve [walk_before]|]
      end
    | reflexivity
    | apply lively_keeps; solve [walk_before] ].

Section live.
Context (e0 : EphemeralJob) (ejs0 : gmap (string * string) EphemeralJob)
        (posts0 : list (string * Payload)).
Abbreviation B := (Before e0 ejs0 posts0).
Abbreviation live := (lively e0 ejs0 posts0).

(** Giving up the wait: told or not, a [false] means nothing was done. *)
Lemma capacity_deadline_run c stop w :
  keeps B stop → B w →
  match capacity_deadline c stop w with
  | (Ok false, w') => B w'
  | (_, w') => B w' ∨ After e0 ejs0 posts0 w'
  end.
Proof.
  intros Hstop Hw. unfold capacity_deadline. rewrite bind_run. cbn [gets].
  assert (∃ s, ej w = set_Status s e0) as [s ->]
    by (destruct Hw as [(s & s' & Hh) _]; exists s; apply Hh).
  destruct (CapacityWaitSeconds _) as [n|]; [|done]. destruct (n <=? 0)%Z; [done|].
  rewrite bind_run. pose proof (keeps_Since B (CreationTimestamp (set_Status s e0)) w Hw) as Hs.
  destruct (Since _ w) as [[waited|e] w1]; [|by left]. destruct (waited <=? _)%Z; [done|].
  rewrite bind_run. pose proof (Hstop w1 Hs) as H1. destruct (stop w1) as [[[]|e] w2]; [|by left].
  rewrite !bind_run, !assign_run, bind_run, assign_run, bind_run.
  match goal with |- context [markFinishedWithReason ?p ?q ?x ?w] =>
    assert (Hl : lively e0 ejs0 posts0 (markFinishedWithReason p q x)) by (by apply lively_markFinished);
    assert (B w) as Hw2 end.
  { apply (keeps_assign_quiet e0 ejs0 posts0 (meta_SetStatusCondition _ _)); [done|].
    by apply (keeps_assign_quiet e0 ejs0 posts0 (set_Message _)). }
  specialize (Hl _ Hw2). destruct (markFinishedWithReason _ _ _ _) as [[[]|e] w3]; exact Hl.
Qed.

Lemma lively_deadline c stop (f : bool → JM Result) :
  keeps B stop → live (f false) → f true = mret no_requeue → live (capacity_deadline c stop ≫= f).
Proof.
  intros Hs Hf Ht w Hw. pose proof (capacity_deadline_run c stop w Hs Hw) as H. rewrite bind_run.
  destruct (capacity_deadline c stop w) as [[[|]|e] w']; [by rewrite Ht|by apply Hf|done].
Qed.

Lemma jobFinished_terminal j phase exit d :
  jobFinished j = Some (phase, exit, d) → isTerminal phase = true.
Proof.
  unfold jobFinished. induction (j_Conditions j) as [|c cs IH]; cbn; [done|].
  repeat case_match; naive_solver.
Qed.

Lemma lively_job_running j c : live (job_running j c).
Proof. unfold job_running. walk_lively. Qed.
Lemma lively_job_unplaceable j c : live (job_unplaceable j c).
Proof. unfold job_unplaceable. walk_lively. Qed.
Lemma lively_job_waiting j c : live (job_waiting r j c).
Proof. unfold job_waiting. apply lively_deadline; [walk_before| |done]. walk_lively. Qed.
Lemma lively_job_observed j : live (job_observed r j).
Proof.
  unfold job_observed, AssessCapacity. walk_lively;
    eauto using jobFinished_terminal, lively_job_running, lively_job_unplaceable, lively_job_waiting.
Qed.
Lemma lively_reconcileJobMode : live (reconcileJobMode getenv r).
Proof. unfold reconcileJobMode, deleteJob. walk_lively. apply lively_job_observed. Qed.

Lemma lively_service_expired p c : live (service_expired p c).
Proof. unfold service_expired. walk_lively. Qed.
Lemma lively_service_waiting p c : live (service_waiting r p c).
Proof. unfold service_waiting. apply lively_deadline; [walk_before| |done]. walk_lively. Qed.
Lemma lively_service_not_ready p c t : live (service_not_ready p c t).
Proof. unfold service_not_ready. walk_lively. Qed.
Lemma lively_service_serving p c now : live (service_serving p c now).
Proof. unfold service_serving. walk_lively. Qed.
Lemma lively_service_observed p : live (service_observed r p).
Proof.
  unfold service_observed. walk_lively;
    eauto using lively_service_expired, lively_service_waiting, lively_service_not_ready,
      lively_service_serving.
Qed.
Lemma lively_reconcileServiceMode : live (reconcileServiceMode getenv r).
Proof. unfold reconcileServiceMode. walk_lively. apply lively_service_observed. Qed.

Lemma lively_reconcile_live : live (reconcile_live getenv r).
Proof.
  unfold reconcile_live. walk_lively;
    eauto using lively_reconcileJobMode, lively_reconcileServiceMode.
Qed.
End live.

(** ** A pass *)

(** Every stored request is under its own name and has a sound status. *)
Definition well_kept (c : Cluster) : Prop :=
  ∀ k e, ejs c !! k = Some e → key e = k ∧ sound e (Status e).

Lemma set_Status_id e : set_Status (Status e) e = e.
Proof. by destruct e. Qed.

(** A pass that finds the request over may only collect it, when its time has come. *)
Definition collected (e : EphemeralJob) (w w' : World) : Prop :=
  isTerminal (Phase (Status e)) = true ∧ ejs (cluster w') = delete (key e) (ejs (cluster w)) ∧
  ∃ done, CompletionTime (Status e) = Some done ∧
    (seconds (TTLSecondsAfterFinished (Spec e)) ≤ Sub (clk w') done)%Z.

Lemma reconcileTTL_run e w :
  ej w = e → Forall honest (faults w) → isTerminal (Phase (Status e)) = true →
  let w' := (reconcileTTL w).2 in
  Forall honest (faults w') ∧ posts w' = posts w ∧
  (ejs (cluster w') = ejs (cluster w) ∨ collected e w w').
Proof.
  intros <- Hf Ht. unfold reconcileTTL. rewrite bind_run. cbn [gets].
  destruct (CompletionTime (Status (ej w))) as [done|] eqn:Ed; [|by auto].
  unfold Since. rewrite !bind_run. cbn [Now mret goM_ret]. set (now := (clk w + _)%Z).
  set (w1 := set_time now _ w). destruct (Z.ltb_spec (Sub now done) (seconds (TTLSecondsAfterFinished (Spec (ej w))))) as [|Hge]; [by auto|].
  unfold ending. rewrite bind_run, ignoring_run. unfold DeleteEphemeralJob. rewrite write_run.
  change (cluster w1) with (cluster w).
  assert (Hf1 : Forall honest (faults (spent w1))) by (apply Forall_tail; exact Hf).
  destruct (next_fault w1) as [|err|err], (ejs (cluster w) !! (Namespace (ej w), Name (ej w))) eqn:El; cbn;
    try case_decide; cbn; (split_and!; [exact Hf1|done|]); try (by left).
  all: right; split_and!; [done..|]; by exists done.
Qed.

(** The announcements a live pass makes: readiness, and at most one end, that of the
    status [s] it has stored. *)
Definition announces (e : EphemeralJob) (s : EphemeralJobStatus) (l : list (string * Payload)) : Prop :=
  Forall (ready_post e) l ∨
  ∃ l' u p, l = (l' ++ [(u, p)])%list ∧ Forall (ready_post e) l' ∧ isTerminal (Phase s) = true ∧
    pl_status p = Phase s ∧ pl_eventId p = TerminalEventID s ∧ pl_uid p = UID e ∧
    u = CallbackURL (Spec e).

Inductive passed (ns name : string) (w w' : World) : Prop :=
| passed_idle :
    ejs (cluster w') = ejs (cluster w) → posts w' = posts w → passed ns name w w'
| passed_collected e :
    ejs (cluster w) !! (ns, name) = Some e → key e = (ns, name) → collected e w w' →
    posts w' = posts w → passed ns name w w'
| passed_live e s l :
    ejs (cluster w) !! (ns, name) = Some e → key e = (ns, name) → Deleting e = false →
    isTerminal (Phase (Status e)) = false → sound e s →
    ejs (cluster w') = <[(ns, name) := set_Status s e]> (ejs (cluster w)) →
    posts w' = (posts w ++ l)%list → announces e s l → passed ns name w w'.

Lemma Reconcile_passed ns name w :
  Forall honest (faults w) → well_kept (cluster w) →
  let w' := (Reconcile getenv r ns name w).2 in
  Forall honest (faults w') ∧ passed ns name w w'.
Proof.
  intros Hf Hk. cbn zeta. unfold Reconcile. rewrite bind_run, attempt_run. unfold GetEphemeralJob.
  rewrite read_run. cbn [fst snd].
  assert (Hf1 : Forall honest (faults (spent w))) by (apply Forall_tail; exact Hf).
  destruct (next_fault w) as [|err|err] eqn:En;
    [|case_decide; (split; [exact Hf1|by apply passed_idle])..].
  destruct (ejs (cluster w) !! (ns, name)) as [e|] eqn:El;
    [|case_decide; (split; [exact Hf1|by apply passed_idle])].
  destruct (Hk _ _ El) as [Hkey Hs]. rewrite bind_run. cbn [modify].
  destruct (Deleting e) eqn:Ed; [split; [exact Hf1|by apply passed_idle]|].
  destruct (isTerminal (Phase (Status e))) eqn:Et.
  - destruct (reconcileTTL_run e (set_ej e (spent w)) eq_refl Hf1 Et) as (H1 & H2 & H3).
    split; [done|]. destruct H3 as [H3|H3]; [by apply passed_idle|by eapply passed_collected].
  - assert (Hb : Before e (ejs (cluster w)) (posts w) (set_ej e (spent w))).
    { split; [|exists []; by rewrite app_nil_r]. exists (Status e), (Status e).
      split; try done; cbn; rewrite ?Hkey, set_Status_id, ?insert_id; done. }
    destruct (lively_reconcile_live e (ejs (cluster w)) (posts w) _ Hb)
      as [[(s & s' & Hh) (l & Hl & Hr)]|(s & s' & l & u & p & Hh & Hl & Hr & _ & Ht & H1 & H2 & H3 & H4)];
      (split; [apply Hh|]);
      (eapply passed_live with (s := s'); [done..|apply Hh|rewrite <-Hkey; apply Hh|exact Hl|]);
      [by left|right; by exists l, u, p].
Qed.

Lemma passed_kept ns name w w' :
  well_kept (cluster w) → passed ns name w w' → well_kept (cluster w').
Proof.
  intros Hk [Hc _|e He Hn (_ & Hc & _) _|e s l He Hn _ _ Hs Hc _ _] k x; rewrite Hc.
  - apply Hk.
  - intros [_ Hx]%lookup_delete_Some. by apply Hk.
  - rewrite lookup_insert_Some. intros [[<- <-]|[_ Hx]]; [|by apply Hk].
    split; [done|]. by destruct Hs.
Qed.

End lifecycle.
