(* ===== verification/JobCallbackFacts.v ===== *)
(** * JobCallbackFacts: what the waiting caller is told, over every history.

    A history interleaves passes over any requests with what others do: they create
    requests under new UIDs, delete them, change specs and refresh the activity time.
    The end of a request is announced at most once, and only as it is stored; and an
    announcement that fails is not made again. *)

From S2P Require Import Prelude.
From S2P Require Import JobTypes.
From S2P Require Import JobPod.
From S2P Require Import JobClientFacts.
From S2P Require Import JobController.
From S2P Require Import JobLifecycleFacts.

Local Open Scope string_scope.

Section history.
Context {L : JobLibrary} (getenv : string → string) (r : EphemeralJobReconciler).

Definition uids_distinct (c : Cluster) : Prop :=
  ∀ k k' e e', ejs c !! k = Some e → ejs c !! k' = Some e' → UID e = UID e' → k = k'.

(** What others may do between two passes. *)
Record outside (w w' : World) : Prop := {
  outside_posts : posts w' = posts w;
  outside_honest : Forall honest (faults w');
  outside_kept : well_kept (cluster w');
  outside_distinct : uids_distinct (cluster w');
  outside_ejs k e' : ejs (cluster w') !! k = Some e' →
    (∃ e t, ejs (cluster w) !! k = Some e ∧ UID e' = UID e ∧
            Status e' = set_LastActivityTime t (Status e)) ∨
    (∀ x, x ∈ posts w → pl_uid x.2 ≠ UID e') }.

Inductive step (w w' : World) : Prop :=
| step_pass ns name : w' = (Reconcile getenv r ns name w).2 → step w w'
| step_outside : outside w w' → step w w'.

(** The announcements of an end made for [uid]. *)
Definition announced (uid : string) (w : World) : list (string * Payload) :=
  filter (λ x, isTerminal (pl_status x.2) = true ∧ pl_uid x.2 = uid) (posts w).

(** [x] announces the status stored for [uid]. *)
Definition as_stored (uid : string) (w : World) (x : string * Payload) : Prop :=
  ∀ k e, ejs (cluster w) !! k = Some e → UID e = uid →
    isTerminal (Phase (Status e)) = true ∧
    pl_status x.2 = Phase (Status e) ∧ pl_eventId x.2 = TerminalEventID (Status e).

Record orderly (w : World) : Prop := {
  orderly_honest : Forall honest (faults w);
  orderly_kept : well_kept (cluster w);
  orderly_distinct : uids_distinct (cluster w);
  orderly_once uid : (length (announced uid w) ≤ 1)%nat;
  orderly_stored uid x : x ∈ announced uid w → as_stored uid w x }.

Lemma announced_ready e l uid :
  Forall (ready_post e) l →
  filter (λ x : string * Payload, isTerminal (pl_status x.2) = true ∧ pl_uid x.2 = uid) l = [].
Proof.
  induction 1 as [|x l [Hx _] Hl IH]; [done|]. rewrite filter_cons_False; [done|].
  rewrite Hx. by intros [? _].
Qed.

Lemma orderly_outside w w' : orderly w → outside w w' → orderly w'.
Proof.
  intros [H1 H2 H3 H4 H5] [O1 O2 O3 O4 O5].
  assert (Ha : ∀ uid, announced uid w' = announced uid w) by (intros; unfold announced; by rewrite O1).
  split; [done..|intros; by rewrite Ha|]. intros uid x Hx k e' Hk Hu. rewrite Ha in Hx.
  destruct (O5 k e' Hk) as [(e & t & He & Hue & Hst)|Hnew].
  - rewrite Hst. apply (H5 uid x Hx k e He). congruence.
  - exfalso. apply list_elem_of_filter in Hx as [[_ Hx] Hin]. apply (Hnew x Hin). congruence.
Qed.

(** A live pass adds at most one announcement, for its own request. *)
Lemma announces_filter e s l uid :
  announces e s l →
  filter (λ x : string * Payload, isTerminal (pl_status x.2) = true ∧ pl_uid x.2 = uid) l = [] ∨
  (uid = UID e ∧ isTerminal (Phase s) = true ∧
   ∃ x, filter (λ x : string * Payload, isTerminal (pl_status x.2) = true ∧ pl_uid x.2 = uid) l = [x] ∧
        pl_status x.2 = Phase s ∧ pl_eventId x.2 = TerminalEventID s).
Proof.
  intros [Hr|(l' & u & p & -> & Hr & Ht & Hp & He & Hu & _)]; [left; by eapply announced_ready|].
  rewrite filter_app, (announced_ready e l' uid Hr), app_nil_l.
  destruct (decide (UID e = uid)) as [<-|Hne].
  - right. split_and!; [done..|]. exists (u, p). rewrite filter_cons_True; [done|].
    cbn. by rewrite Hp, Hu.
  - left. rewrite filter_cons_False; [done|]. cbn. rewrite Hu. by intros [_ ?].
Qed.

Lemma orderly_pass w ns name : orderly w → orderly (Reconcile getenv r ns name w).2.
Proof.
  intros [H1 H2 H3 H4 H5]. set (w' := (Reconcile getenv r ns name w).2).
  destruct (Reconcile_passed getenv r ns name w H1 H2) as [Hf Hp]. fold w' in Hf, Hp.
  pose proof (passed_kept _ _ _ _ H2 Hp) as Hk.
  destruct Hp as [Hc Hpo|e He Hn (_ & Hc & _) Hpo|e s l He Hn _ Ht Hs Hc Hpo Hl].
  - assert (Ha : ∀ uid, announced uid w' = announced uid w) by (intros; unfold announced; by rewrite Hpo).
    split; [done..|intros ????; rewrite Hc; apply H3|intros; by rewrite Ha|].
    intros uid x Hx k y. rewrite Hc. rewrite Ha in Hx. by apply H5.
  - assert (Ha : ∀ uid, announced uid w' = announced uid w) by (intros; unfold announced; by rewrite Hpo).
    split; [done..| |intros; by rewrite Ha|].
    + intros ????; rewrite Hc. intros [_ ?]%lookup_delete_Some [_ ?]%lookup_delete_Some. by eapply H3.
    + intros uid x Hx k y. rewrite Hc. intros [_ Hy]%lookup_delete_Some. rewrite Ha in Hx. by apply (H5 uid x Hx k).
  - (* before this pass nothing was announced for this request *)
    assert (Hnone : announced (UID e) w = []).
    { destruct (announced (UID e) w) as [|x l'] eqn:E; [done|].
      destruct (H5 (UID e) x) with (k := (ns, name)) (e := e) as [? _]; [rewrite E; left|done..|congruence]. }
    assert (Hget : ∀ k y, ejs (cluster w') !! k = Some y →
      (k = (ns, name) ∧ y = set_Status s e) ∨ (k ≠ (ns, name) ∧ ejs (cluster w) !! k = Some y)).
    { intros k y. rewrite Hc, lookup_insert_Some. naive_solver. }
    assert (Hsplit : ∀ uid, announced uid w' = (announced uid w ++ filter (λ x : string * Payload,
      isTerminal (pl_status x.2) = true ∧ pl_uid x.2 = uid) l)%list).
    { intros uid. unfold announced. by rewrite Hpo, filter_app. }
    split; [done..| | |].
    + intros k k' y y' [[-> ->]|[_ Hy]]%Hget [[-> ->]|[_ Hy']]%Hget; cbn; [done|..].
      * intros Hu. by apply (H3 _ _ _ _ He Hy').
      * intros Hu. by apply (H3 _ _ _ _ Hy He).
      * by apply (H3 _ _ _ _ Hy Hy').
    + intros uid. rewrite Hsplit, length_app.
      destruct (announces_filter e s l uid Hl) as [->|(-> & _ & x & -> & _)]; cbn;
        [specialize (H4 uid); lia|rewrite Hnone; cbn; lia].
    + intros uid x Hx k y Hk' Hu. rewrite Hsplit in Hx.
      destruct (announces_filter e s l uid Hl) as [E|(-> & Hts & x' & E & Hx1 & Hx2)]; rewrite E in Hx.
      * rewrite app_nil_r in Hx. destruct (Hget k y Hk') as [[-> ->]|[_ Hy]]; [|by apply (H5 uid x Hx k y)].
        cbn in Hu. subst uid. rewrite Hnone in Hx. by apply elem_of_nil in Hx.
      * rewrite Hnone in Hx. apply list_elem_of_singleton in Hx as ->.
        destruct (Hget k y Hk') as [[-> ->]|[Hne Hy]]; [done|].
        destruct Hne. by apply (H3 _ _ _ _ Hy He).
Qed.

Lemma orderly_history w w' : rtc step w w' → orderly w → orderly w'.
Proof.
  induction 1 as [|w1 w2 w3 [ns name ->|Ho] _ IH]; [done|..]; intros Hw; apply IH;
    [by apply orderly_pass|by eapply orderly_outside].
Qed.


(** ** An announcement that fails *)

Lemma terminal_silent ns name w e :
  ejs (cluster w) !! (ns, name) = Some e → isTerminal (Phase (Status e)) = true →
  posts (Reconcile getenv r ns name w).2 = posts w.
Proof.
  intros He Ht. unfold Reconcile. rewrite bind_run, attempt_run. unfold GetEphemeralJob.
  rewrite read_run. cbn [fst snd]. rewrite He.
  destruct (next_fault w); [|by case_decide..]. rewrite bind_run. cbn [modify].
  destruct (Deleting e); [done|]. rewrite Ht. unfold reconcileTTL. rewrite bind_run. cbn [gets].
  destruct (CompletionTime _); [|done]. rewrite bind_run, Since_run.
  destruct (_ <? _)%Z; [done|]. unfold ending. rewrite bind_run, ignoring_run.
  unfold DeleteEphemeralJob. rewrite write_run. by repeat case_match; simplify_eq/=.
Qed.

Lemma callback_refused phase exit gate id w code rest :
  replies w = StatusCode code :: rest → (500 ≤ code)%Z →
  CallbackURL (Spec (ej w)) ≠ "" → valid_url (CallbackURL (Spec (ej w))) = true →
  (∀ p, is_Some (json_payload p)) → meta_IsStatusConditionTrue (Status (ej w)) gate = false →
  ∃ err w', fireLifecycleCallback phase exit gate id w = (Err err, w') ∧ cluster w' = cluster w ∧
    length (posts w') = S (length (posts w)).
Proof.
  intros Hr Hcode Hurl Hv Hj Hg. unfold fireLifecycleCallback. rewrite bind_run. cbn [gets].
  rewrite (proj2 (String.eqb_neq _ _) Hurl), Hg, bind_run, Now_run.
  match goal with |- context [json_payload ?p] => destruct (Hj p) as [body ->] end.
  rewrite Hv. cbn [negb]. rewrite bind_run. unfold post. change (replies (ticked w)) with (replies w).
  rewrite Hr, (proj2 (Z.leb_le 500 code) Hcode). do 2 eexists. split_and!; [reflexivity..|].
  cbn. rewrite length_app. cbn. lia.
Qed.

(** When the receiver answers the announcement of an end with a server error, the pass
    fails so as to be retried, with the end already stored and not marked delivered;
    but no later pass announces it again. *)
Theorem failed_announcement_lost phase exit w code rest :
  isTerminal phase = true → faults w = [] → replies w = StatusCode code :: rest → (500 ≤ code)%Z →
  ejs (cluster w) !! key (ej w) = Some (ej w) →
  CallbackURL (Spec (ej w)) ≠ "" → valid_url (CallbackURL (Spec (ej w))) = true →
  (∀ p, is_Some (json_payload p)) →
  meta_IsStatusConditionTrue (Status (ej w)) ConditionCallbackDelivered = false →
  ∃ err w' e', markFinished phase exit w = (Err err, w') ∧
    length (posts w') = S (length (posts w)) ∧
    ejs (cluster w') !! key (ej w) = Some e' ∧ Phase (Status e') = phase ∧
    meta_IsStatusConditionTrue (Status e') ConditionCallbackDelivered = false ∧
    ∀ later, cluster later = cluster w' →
      posts (Reconcile getenv r (Namespace (ej w)) (Name (ej w)) later).2 = posts later.
Proof.
  intros Ht Hf Hr Hcode He Hurl Hv Hj Hgate. destruct w as [c e clock tk fs rs ps n]. cbn in *. subst.
  unfold markFinished, markFinishedWithReason. rewrite bind_run, Now_run, bind_run. cbn [gets].
  rewrite bind_run, assign_run, bind_run, ignoring_run.
  rewrite (StatusUpdate_fine _ e) by done. cbn [fst snd]. unfold fireCallback. rewrite bind_run.
  cbn [gets]. match goal with |- context [fireLifecycleCallback _ _ _ ?i ?w] => 
    destruct (callback_refused phase exit ConditionCallbackDelivered i w code rest)
      as (err & w' & E & Hc & Hp) end; [done..| |].
  { unfold meta_IsStatusConditionTrue in *. cbn. by rewrite lookup_insert_ne. }
  do 3 eexists. split; [exact E|]. rewrite Hc. split_and!; [by rewrite Hp| |..].
  - cbn. apply lookup_insert_eq.
  - done.
  - cbn. unfold meta_IsStatusConditionTrue in *. cbn. by rewrite lookup_insert_ne.
  - intros later Hl. eapply terminal_silent; [rewrite Hl; cbn; apply lookup_insert_eq|done].
Qed.
End history.
