(* ===== verification/JobComputeFacts.v ===== *)
(** * JobComputeFacts: the Jobs, pods and policies a pass makes and unmakes.

    - the verdicts on capacity say what the cluster shows;
    - the tests for a finished Job agree, and a finished Job of a request is reported
      and never run again;
    - a session peer has no pod before both policies of the pair are in place;
    - cancelling leaves the compute running. *)

From S2P Require Import Prelude.
From S2P Require Import JobTypes.
From S2P Require Import JobPod.
From S2P Require Import JobClientFacts.
From S2P Require Import JobPodFacts.
From S2P Require Import JobController.

Local Open Scope string_scope.

(** Walks a program of reads. *)
Ltac walk_reads :=
  apply reads_unmoved;
  repeat first
    [ progress intros
    | progress cbn beta iota
    | match goal with
      | |- keeps _ (match ?x with _ => _ end) => destruct x eqn:?
      | |- keeps _ (_ ≫= _) => apply keeps_bind
      | |- keeps _ (attempt _) => apply keeps_attempt
      end
    | solve [eauto with keeps typeclass_instances] ].

(** Walks a program that leaves a part of the cluster alone. *)
Ltac elsewhere :=
  apply keeps_fixed_write; let c := fresh in intros c ?; case_match; [try done|try done];
  by intros [= <-].
Ltac walk_fixed :=
  repeat first
    [ progress intros
    | progress cbn beta iota
    | match goal with
      | |- keeps _ (match ?x with _ => _ end) => destruct x eqn:?
      | |- keeps _ (_ ≫= _) => apply keeps_bind
      | |- keeps _ (attempt _) => apply keeps_attempt
      | |- keeps _ (ignoring _ _) => apply keeps_ignoring
      | |- keeps _ (ending _) => unfold ending
      | |- keeps _ (forM _ _) => apply keeps_forM
      | |- keeps _ StatusUpdate => apply keeps_fixed_StatusUpdate; done
      | |- keeps _ (write _) => elsewhere
      end
    | solve [eauto with keeps typeclass_instances] ].

(** ** Finished Jobs *)

(** The three tests of a Job agree: it is finished for the replacement rule exactly
    when it yields an outcome, the outcome is an end, and a Job rejected by quota is
    among the finished ones. *)
Theorem finished_tests_agree j :
  (jobIsFinished j = true ↔ is_Some (jobFinished j)) ∧
  (∀ phase exit d, jobFinished j = Some (phase, exit, d) → isTerminal phase = true) ∧
  (is_Some (jobAdmissionRejected j) → jobIsFinished j = true).
Proof.
  unfold jobIsFinished, jobFinished, jobAdmissionRejected.
  induction (j_Conditions j) as [|c cs (IH1 & IH2 & IH3)].
  { split_and!; [split; [done|by intros []]|done|by intros []]. }
  cbn [existsb finished_by]. rewrite filter_cons.
  destruct (String.eqb (jc_Status c) "True"); cbn [negb andb].
  2: { rewrite !andb_false_r. by case_decide. }
  rewrite !andb_true_r.
  destruct (String.eqb_spec (jc_Type c) JobComplete) as [E|_]; cbn [orb].
  { split_and!; [done|by intros ??? [= <- _ _]|done]. }
  destruct (String.eqb (jc_Type c) JobFailed); cbn [andb orb].
  2: { by case_decide. }
  destruct (String.eqb (jc_Reason c) "DeadlineExceeded");
    (split_and!; [done|by intros ??? [= <- _ _]|done]).
Qed.

(** ** Capacity *)

Section capacity.
Context {L : JobLibrary} {LL : JobLibraryLaws L}.

(** The pods of a namespace that carry a label. *)
Definition labelled (c : Cluster) (ns k v : string) (p : Pod) : Prop :=
  (∃ key, pods c !! key = Some p) ∧ p_Namespace p = ns ∧ p_Labels p !! k = Some v.

Lemma has_labels_singleton k v labels :
  has_labels {[k := v]} labels = true ↔ labels !! k = Some v.
Proof.
  unfold has_labels. rewrite map_to_list_singleton. cbn. rewrite andb_true_r. apply bool_decide_eq_true.
Qed.

Lemma ListPods_spec ns k v w l w' :
  ListPods ns {[k := v]} w = (Ok l, w') →
  unmoved w w' ∧ ∀ p, p ∈ l ↔ labelled (cluster w) ns k v p.
Proof.
  unfold ListPods. rewrite bind_run, read_run. destruct (next_fault w); [|done..].
  rewrite bind_run, fresh_run. intros [= <- <-]. split.
  { eapply unmoved_trans; [apply unmoved_spent|]. by split_and!. }
  intros p. rewrite order_pods_perm, list_elem_of_filter, has_labels_singleton, list_elem_of_fmap.
  unfold labelled. split.
  - intros ([Hn Hk] & [key q] & -> & Hq%elem_of_map_to_list). eauto.
  - intros ([key Hq] & Hn & Hk). split; [done|]. exists (key, p). by rewrite elem_of_map_to_list.
Qed.

Lemma ListEvents_spec sel w l w' :
  ListEvents sel w = (Ok l, w') →
  unmoved w w' ∧ ∀ e, e ∈ l ↔ e ∈ events (cluster w) ∧ sel e = true.
Proof.
  unfold ListEvents. rewrite bind_run, read_run. destruct (next_fault w); [|done..].
  rewrite bind_run, fresh_run. intros [= <- <-]. split.
  { eapply unmoved_trans; [apply unmoved_spent|]. by split_and!. }
  intros e. rewrite order_events_perm, list_elem_of_filter. tauto.
Qed.

(** The autoscaler's events on a pod. *)
Definition scale_event (c : Cluster) (ns : string) (p : Pod) (reason : string) : Prop :=
  ∃ e, e ∈ events c ∧ e_Namespace e = ns ∧ e_InvolvedName e = p_Name p ∧ e_Reason e = reason.

Lemma autoscaler_says_spec es :
  match autoscaler_says es with
  | None => ∀ e, e ∈ es → e_Reason e ≠ eventTriggeredScaleUp ∧ e_Reason e ≠ eventNotTriggerScaleUp
  | Some c =>
      cap_Ready c = false ∧ ∃ e, e ∈ es ∧
      ((e_Reason e = eventTriggeredScaleUp ∧ cap_Reason c = ReasonWaitingForCapacity ∧ cap_Terminal c = false) ∨
       (e_Reason e = eventNotTriggerScaleUp ∧ cap_Reason c = ReasonCapacityUnavailable ∧ cap_Terminal c = true))
  end.
Proof.
  induction es as [|e es IH]; cbn; [by intros e ?%elem_of_nil|].
  destruct (String.eqb_spec (e_Reason e) eventTriggeredScaleUp) as [E1|N1].
  { split; [done|]. exists e. split; [left|]. auto. }
  destruct (String.eqb_spec (e_Reason e) eventNotTriggerScaleUp) as [E2|N2].
  { split; [done|]. exists e. split; [left|]. auto. }
  destruct (autoscaler_says es).
  - destruct IH as (Hr & x & Hx & H). split; [done|]. exists x. split; [by right|done].
  - intros x [->|Hx]%elem_of_cons; [done|by apply IH].
Qed.

(** The pod runs, or has been given a node. *)
Definition has_node (p : Pod) : Prop :=
  p_Phase p ∈ ["Running"; "Succeeded"] ∨
  ∃ c, podCondition p "PodScheduled" = Some c ∧ pc_Status c = "True".

(** What each verdict on a pod without a node is grounded in. *)
Definition grounded (c : Cluster) (ns : string) (p : Pod) (v : CapacityState) : Prop :=
  cap_Ready v = false ∧
  ((cap_Reason v = ReasonWaitingForCapacity ∧ cap_Terminal v = false) ∨
   (cap_Reason v = ReasonCapacityUnavailable ∧ cap_Terminal v = true ∧
    scale_event c ns p eventNotTriggerScaleUp) ∨
   (cap_Reason v = ReasonPlacementUnsatisfiable ∧ cap_Terminal v = true ∧
    ps_NodeSelector (p_Spec p) ≠ ∅ ∧
    (∀ n, n ∈ nodes c → node_matches (ps_NodeSelector (p_Spec p)) n = false) ∧
    ¬ scale_event c ns p eventTriggeredScaleUp ∧ ¬ scale_event c ns p eventNotTriggerScaleUp)).

Lemma noNodeMatchesSelector_spec p w b w' :
  noNodeMatchesSelector p w = (Ok b, w') → unmoved w w' ∧
  (b = true → ps_NodeSelector (p_Spec p) ≠ ∅ ∧
     ∀ n, n ∈ nodes (cluster w) → node_matches (ps_NodeSelector (p_Spec p)) n = false).
Proof.
  unfold noNodeMatchesSelector. case_decide as Hs; [by intros [= <- <-]|].
  unfold ListNodes. rewrite bind_run, read_run. destruct (next_fault w); [|done..].
  intros [= <- <-]. split; [apply unmoved_spent|]. intros Hb%negb_true_iff. split; [done|].
  intros n Hn. apply not_true_iff_false. intros Hm. apply not_true_iff_false in Hb. apply Hb.
  apply existsb_exists. exists n. by rewrite <-list_elem_of_In.
Qed.

Lemma assess_unscheduled_spec ns p s w v w' :
  assess_unscheduled ns p s w = (Ok v, w') → grounded (cluster w) ns p v.
Proof.
  unfold assess_unscheduled. rewrite bind_run, attempt_run.
  destruct (ListEvents _ w) as [[es|e] w1] eqn:El; cbn [fst snd].
  2: { intros [= <- <-]. split; [done|]. by left. }
  apply ListEvents_spec in El as [(Hc & _) Hes].
  assert (Hsc : ∀ e, e ∈ es → scale_event (cluster w) ns p (e_Reason e)).
  { intros e [He Hs]%Hes. apply andb_true_iff in Hs as [H1%bool_decide_eq_true H2%bool_decide_eq_true].
    by exists e. }
  pose proof (autoscaler_says_spec es) as Ha. destruct (autoscaler_says es) as [c|].
  { intros [= <- _]. destruct Ha as (Hr & e & He & [(E & H)|(E & H1 & H2)]); (split; [done|]).
    - by left.
    - right. left. split_and!; [done..|]. rewrite <-E. by apply Hsc. }
  assert (Hns : ∀ reason, reason ∈ [eventTriggeredScaleUp; eventNotTriggerScaleUp] →
    ¬ scale_event (cluster w) ns p reason).
  { intros reason Hr (e & He & H1 & H2 & <-). destruct (Ha e) as [N1 N2]; [|set_solver].
    apply Hes. split; [done|]. by rewrite !bool_decide_true. }
  rewrite bind_run, attempt_run.
  destruct (noNodeMatchesSelector p w1) as [[[|]|err] w2] eqn:En; cbn [fst snd];
    intros [= <- _]; (split; [done|]); [|by left..].
  apply noNodeMatchesSelector_spec in En as [_ En]. rewrite Hc in En. destruct (En eq_refl).
  right. right. split_and!; try done; apply Hns; set_solver.
Qed.

(** A verdict on capacity says what the cluster shows. With no pod there is nothing to
    say but to wait; a pod that runs or has a node is ready; otherwise the verdict
    is final only if the autoscaler refused to scale for it, or if it said nothing
    and no node carries the labels the pod requires. The assessment changes nothing. *)
Theorem AssessCapacity_grounded ns k v w c w' :
  AssessCapacityBySelector ns k v w = (Ok c, w') →
  unmoved w w' ∧
  ((¬ (∃ p, labelled (cluster w) ns k v p) ∧
    c = mkCapacity ReasonWaitingForCapacity "pod not yet created" false false) ∨
   ∃ p, labelled (cluster w) ns k v p ∧
     ((has_node p ∧ c = scheduled_now) ∨ (¬ has_node p ∧ grounded (cluster w) ns p c))).
Proof.
  intros H. split.
  { replace w' with (AssessCapacityBySelector ns k v w).2 by (by rewrite H). clear H.
    unfold AssessCapacityBySelector, assess_unscheduled, noNodeMatchesSelector, ListNodes. walk_reads. }
  revert H. unfold AssessCapacityBySelector. rewrite bind_run, attempt_run.
  destruct (ListPods _ _ w) as [[l|e] w1] eqn:El; cbn [fst snd]; [|done].
  apply ListPods_spec in El as [(Hc & _) Hl]. destruct l as [|p l].
  { intros [= <- _]. left. split; [|done]. intros [p Hp]. by apply Hl, elem_of_nil in Hp. }
  assert (Hp : labelled (cluster w) ns k v p) by (apply Hl; left).
  destruct (String.eqb (p_Phase p) "Running" || String.eqb (p_Phase p) "Succeeded") eqn:Eph.
  { intros [= <- _]. right. exists p. split; [done|]. left. split; [|done]. left.
    apply orb_true_iff in Eph as [->%String.eqb_eq| ->%String.eqb_eq]; set_solver. }
  assert (Hph : p_Phase p ∉ ["Running"; "Succeeded"]).
  { apply orb_false_iff in Eph as [?%String.eqb_neq ?%String.eqb_neq]. set_solver. }
  intros H. right. exists p. split; [done|]. revert H.
  destruct (podCondition p "PodScheduled") as [cond|] eqn:Ec.
  - destruct (String.eqb_spec (pc_Status cond) "True") as [E|N]; intros H.
    + left. injection H as <- _. split; [|done]. right. eauto.
    + right. apply assess_unscheduled_spec in H. rewrite Hc in H. split; [|done].
      intros [?|(c' & Hc' & ?)]; [done|]. rewrite Ec in Hc'. naive_solver.
  - intros H. right. apply assess_unscheduled_spec in H. rewrite Hc in H. split; [|done].
    intros [?|(c' & Hc' & ?)]; [done|]. by rewrite Ec in Hc'.
Qed.

(** A selector that asks for a label with an empty value is met by a node without it:
    the worker role of every placement class is such a label. *)
Theorem unlabelled_node_matches class p labels :
  ResolvePlacement class = Some p → labels !! NodeRoleWorkerKey = None →
  labels !! WorkloadLocationKey = NodeSelector p !! WorkloadLocationKey →
  node_matches (NodeSelector p) labels = true ∧ NodeSelector p !! NodeRoleWorkerKey = Some "".
Proof.
  unfold ResolvePlacement, placements. intros Hp Hr Hl.
  assert (p ∈ [mkPlacement (<[WorkloadLocationKey := WorkloadLocationHome]> (<[NodeRoleWorkerKey := ""]> ∅)) [] BurstPriorityClass;
               mkPlacement (<[WorkloadLocationKey := WorkloadLocationValue]> (<[NodeRoleWorkerKey := ""]> ∅))
                 [mkToleration BurstTaintKey "Equal" BurstTaintValue "NoSchedule"] BurstPriorityClass]) as Hin.
  { apply lookup_insert_Some in Hp as [[_ <-]|[_ Hp]]; [set_solver|].
    apply lookup_insert_Some in Hp as [[_ <-]|[_ Hp]]; [set_solver|]. by rewrite lookup_empty in Hp. }
  apply elem_of_cons in Hin as [->|Hin]; [|apply list_elem_of_singleton in Hin as ->];
    (split; [|done]); unfold node_matches; apply forallb_forall; intros [k v] Hkv;
    apply list_elem_of_In, elem_of_map_to_list in Hkv; cbn [fst snd NodeSelector] in *;
    (apply lookup_insert_Some in Hkv as [[<- <-]|[_ Hkv]]; [rewrite Hl; done|]);
    (apply lookup_insert_Some in Hkv as [[<- <-]|[_ Hkv]]; [by rewrite Hr|by rewrite lookup_empty in Hkv]).
Qed.

End capacity.

(** ** What a pass leaves alone *)

Section compute.
Context {L : JobLibrary} {LL : JobLibraryLaws L} (getenv : string → string)
        (r : EphemeralJobReconciler).

Section left_alone.
Context {A : Type} (part : Cluster → A) (Hejs : ∀ c m, part (set_ejs m c) = part c) (x : A).
Abbreviation I := (fixed part x).

Lemma keeps_fixed_callback phase exit gate id : keeps I (fireLifecycleCallback phase exit gate id).
Proof.
  unfold fireLifecycleCallback. walk_fixed.
  intros w Hw. unfold post. by destruct (replies w) as [|[]].
Qed.
Hint Resolve keeps_fixed_callback : keeps.

Lemma keeps_fixed_markFinished phase reason exit : keeps I (markFinishedWithReason phase reason exit).
Proof. unfold markFinishedWithReason, fireCallback. walk_fixed. Qed.
Lemma keeps_fixed_markTerminal phase reason msg : keeps I (markTerminal phase reason msg).
Proof. unfold markTerminal. walk_fixed. Qed.
End left_alone.

Hint Resolve keeps_fixed_callback keeps_fixed_markFinished keeps_fixed_markTerminal : keeps.

(** What precedes the branch on the mode touches policies alone. *)
Lemma keeps_fixed_peer {A} (part : Cluster → A) x :
  (∀ c m, part (set_policies m c) = part c) → keeps (fixed part x) (reconcileSessionPeer getenv r).
Proof.
  intros Hp. unfold reconcileSessionPeer, sessionStorageHost, resolveFleetID, applyPolicy, GetPolicy,
    CreatePolicy, UpdatePolicy, GetConfigMap, GetNamespace, GetEphemeralJob. walk_fixed; elsewhere.
Qed.
Lemma keeps_fixed_egress {A} (part : Cluster → A) x :
  (∀ c m, part (set_policies m c) = part c) → keeps (fixed part x) (reconcileStorageEgress getenv r).
Proof.
  intros Hp. unfold reconcileStorageEgress, sessionStorageHost, resolveFleetID, applyPolicy, GetPolicy,
    CreatePolicy, UpdatePolicy, GetConfigMap, GetNamespace. walk_fixed.
Qed.

(** [m] touches neither the working copy nor the clock. *)
Definition aside {A} (m : JM A) : Prop :=
  ∀ w, ej (m w).2 = ej w ∧ clk (m w).2 = clk w ∧ ticks (m w).2 = ticks w.
Lemma aside_intro {A} (m : JM A) :
  (∀ e, keeps (working e) m) → (∀ t l, keeps (at_time t l) m) → aside m.
Proof. intros H1 H2 w. split; [by apply H1|]. by apply (H2 (clk w) (ticks w)). Qed.

Lemma aside_peer : aside (reconcileSessionPeer getenv r).
Proof.
  apply aside_intro; intros; unfold reconcileSessionPeer, sessionStorageHost, resolveFleetID,
    applyPolicy, GetPolicy, CreatePolicy, UpdatePolicy, GetConfigMap, GetNamespace, GetEphemeralJob;
    walk_fixed; apply keeps_call; try apply _; by intros w c.
Qed.
Lemma aside_egress : aside (reconcileStorageEgress getenv r).
Proof.
  apply aside_intro; intros; unfold reconcileStorageEgress, sessionStorageHost, resolveFleetID,
    applyPolicy, GetPolicy, CreatePolicy, UpdatePolicy, GetConfigMap, GetNamespace; walk_fixed.
Qed.

(** ** A finished Job *)

Lemma buildJob_run e name p w :
  ∃ job w', buildJob getenv e name p w = (Ok job, w') ∧ cluster w' = cluster w ∧ ej w' = ej w ∧
    j_Namespace job = Namespace e ∧ j_Name job = name ∧ j_Conditions job = [].
Proof.
  destruct (resolveFleetID_run (Namespace e) w) as (id & w1 & E1 & Hc1 & He1 & _).
  destruct (resolveFleetID_run (Namespace e) w1) as (id' & w2 & E2 & Hc2 & He2 & _).
  eexists _, w2. split; [unfold buildJob, buildPodSpec; rewrite bind_run, E1, !bind_run, E2; reflexivity|].
  split_and!; [congruence..|done|done|done].
Qed.

(** Where the name is taken, creating a Job changes nothing. *)
Lemma CreateJob_taken j w :
  is_Some (jobs (cluster w) !! (j_Namespace j, j_Name j)) →
  ∃ err w', CreateJob j w = (Err err, w') ∧ cluster w' = cluster w ∧ ej w' = ej w.
Proof.
  intros [j' Hj]. unfold CreateJob. rewrite bind_run, fresh_run, bind_run, write_run. cbn.
  rewrite Hj. by destruct (next_fault _); do 2 eexists.
Qed.

Definition own_key (e : EphemeralJob) : string * string := (Namespace e, jobNameFor e).

Lemma create_job_taken e j w :
  jobs (cluster w) !! own_key e = Some j →
  let w' := (create_job getenv e w).2 in
  cluster w' = cluster w ∧ ej w' = ej w ∧
  match (create_job getenv e w).1 with Ok o => o = Some j | Err _ => True end.
Proof.
  intros Hj. cbn zeta. unfold create_job. destruct (ResolvePlacement _) as [p|]; [|done].
  destruct (buildJob_run e (jobNameFor e) p w) as (job & w1 & E & Hc1 & He1 & Hn & Hm & _).
  rewrite bind_run, E, bind_run, attempt_run.
  destruct (CreateJob_taken (set_j_Owner (Some (UID e)) job) w1) as (err' & w2 & E2 & Hc2 & He2).
  { cbn. rewrite Hc1, Hn, Hm. exists j. exact Hj. }
  rewrite E2. cbn [fst snd]. case_decide; [|cbn; split_and!; try done; congruence].
  unfold GetJob. rewrite bind_run, read_run, Hc2, Hc1. fold (own_key e). rewrite Hj.
  destruct (next_fault w2); cbn; split_and!; try done; congruence.
Qed.

(** A request's own Job is handed back. *)
Lemma ensureJob_own j w :
  jobs (cluster w) !! own_key (ej w) = Some j → IsControlledBy j (ej w) = true →
  let w' := (ensureJob getenv w).2 in
  cluster w' = cluster w ∧ ej w' = ej w ∧
  match (ensureJob getenv w).1 with Ok o => o = Some j | Err _ => True end.
Proof.
  intros Hj Hc. unfold ensureJob. cbn zeta. rewrite bind_run. cbn [gets]. rewrite bind_run, attempt_run.
  unfold GetJob. rewrite read_run. cbn [fst snd]. fold (own_key (ej w)). rewrite Hj.
  destruct (next_fault w); [rewrite Hc; destruct (jobIsFinished j); by split_and!|..];
    (destruct (negb _); [done|]); exact (create_job_taken (ej w) j (spent w) Hj).
Qed.

(** The deadline of a request at a look at the clock. *)
Definition expired_at (e : EphemeralJob) (now : Z) : bool :=
  (0 <? MaxLifetimeSeconds (Spec e))%Z
  && (seconds (MaxLifetimeSeconds (Spec e)) <? Sub now (CreationTimestamp e))%Z.

Lemma keeps_fixed_job_done {A} (part : Cluster → A) x j :
  (∀ c m, part (set_ejs m c) = part c) → is_Some (jobFinished j) →
  keeps (fixed part x) (job_observed r j).
Proof.
  intros Hp [[[phase exit] d] Hd]. unfold job_observed, jobPodCreationBlocked, failureDetail, podForJob, markFinished.
  rewrite Hd. walk_fixed.
Qed.

Lemma reconcileJobMode_own e w j :
  ej w = e → jobs (cluster w) !! own_key e = Some j → IsControlledBy j e = true →
  jobIsFinished j = true → expired_at e (now_of w) = false →
  jobs (cluster (reconcileJobMode getenv r w).2) = jobs (cluster w).
Proof.
  intros He Hj Hc Hd Hx. unfold reconcileJobMode. rewrite bind_run. cbn [gets]. rewrite He, bind_run.
  set (w1 := if (0 <? MaxLifetimeSeconds (Spec e))%Z then ticked w else w).
  match goal with |- context [(if (0 <? _)%Z then ?m else ?m') w] =>
    assert ((if (0 <? MaxLifetimeSeconds (Spec e))%Z then m else m') w = (Ok false, w1)) as -> end.
  { unfold expired_at in Hx. unfold w1. destruct (0 <? _)%Z; [|done]. cbn [andb] in Hx.
    by rewrite bind_run, Since_run, Hx. }
  assert (cluster w1 = cluster w ∧ ej w1 = e) as [Hc1 He1]
    by (unfold w1; destruct (0 <? _)%Z; by rewrite <-He).
  rewrite bind_run, attempt_run.
  destruct (ensureJob_own j w1) as (E1 & E2 & E3); [by rewrite Hc1, He1|by rewrite He1|].
  rewrite Hc1 in E1. destruct (ensureJob getenv w1) as [[o|err] w2]; cbn [fst snd] in *.
  - subst o. change (fixed jobs (jobs (cluster w)) (job_observed r j w2).2).
    apply keeps_fixed_job_done; [done|by apply finished_tests_agree|]. unfold fixed. by rewrite E1.
  - assert (keeps (fixed jobs (jobs (cluster w)))
      (if jobRefusedAtAdmission err then
         assign (set_Message (er_Text err)) ≫= λ _,
         ending (markFinishedWithReason PhaseFailed ReasonAdmissionRejected None)
       else throw err)) as Hk by walk_fixed.
    apply Hk. unfold fixed. by rewrite E1.
Qed.

(** Service mode touches the request, its pod and its Service. *)
Lemma keeps_fixed_service {A} (part : Cluster → A) x :
  (∀ c m, part (set_ejs m c) = part c) → (∀ c m, part (set_pods m c) = part c) →
  (∀ c m, part (set_services m c) = part c) → keeps (fixed part x) (reconcileServiceMode getenv r).
Proof.
  intros H1 H2 H3.
  unfold reconcileServiceMode, ensureService, ensurePod, GetService, CreateService, buildPod, buildPodSpec,
    resolveFleetID, GetNamespace, CreatePod, service_observed, service_expired, service_waiting,
    service_not_ready, service_serving, capacity_deadline, deletePod, DeletePod, AssessCapacityBySelector,
    assess_unscheduled, noNodeMatchesSelector, ListNodes, store_service, updateServiceStatus, setPhase,
    markFinished.
  walk_fixed.
Qed.

(** ** A pass over a live request *)

Lemma Reconcile_opens ns name w e :
  ejs (cluster w) !! (ns, name) = Some e → Deleting e = false →
  isTerminal (Phase (Status e)) = false →
  (Reconcile getenv r ns name w = reconcile_live getenv r (set_ej e (spent w)) ∧ next_fault w = Fine) ∨
  (∃ res, Reconcile getenv r ns name w = (res, spent w) ∧ next_fault w ≠ Fine).
Proof.
  intros He Hd Ht. unfold Reconcile. rewrite bind_run, attempt_run. unfold GetEphemeralJob.
  rewrite read_run, He. cbn [fst snd].
  destruct (next_fault w); [left|right; case_decide; by eexists..].
  rewrite bind_run. cbn [modify]. by rewrite Hd, Ht.
Qed.

Lemma reconcile_live_own e w j :
  ej w = e → jobs (cluster w) !! own_key e = Some j → IsControlledBy j e = true →
  jobIsFinished j = true → expired_at e (now_of w) = false →
  jobs (cluster (reconcile_live getenv r w).2) = jobs (cluster w).
Proof.
  intros He Hj Hc Hf Hx. unfold reconcile_live. rewrite bind_run. cbn [gets]. rewrite He.
  set (I := fixed jobs (jobs (cluster w))).
  assert (Hend : ∀ p q m, keeps I (ending (markTerminal p q m))) by (intros; unfold I; walk_fixed).
  destruct (Cancelled (Spec e)); [by apply Hend|].
  destruct (validateSpec e) as [[reason msg]|]; [by apply Hend|].
  destruct (aside_peer w) as (E1 & E2 & E3).
  assert (HI : I (reconcileSessionPeer getenv r w).2) by by apply keeps_fixed_peer.
  rewrite bind_run. destruct (reconcileSessionPeer getenv r w) as [[[[reason msg]|]|err] w1];
    cbn [snd] in *; [by apply Hend| |done].
  destruct (aside_egress w1) as (F1 & F2 & F3).
  assert (HI1 : I (reconcileStorageEgress getenv r w1).2) by by apply keeps_fixed_egress.
  rewrite bind_run. destruct (reconcileStorageEgress getenv r w1) as [[[]|err] w2]; cbn [snd] in *; [|done].
  destruct (String.eqb _ _); [by apply keeps_fixed_service|].
  rewrite (reconcileJobMode_own e w2 j); [done|congruence|by rewrite HI1|done|done|].
  unfold now_of in *. by rewrite F2, F3, E2, E3.
Qed.

(** Whatever fails in a pass, and however often a status update is lost, the finished
    Job of a request is kept as it is, so that its work is never run again, unless
    the request has outlived its maximum lifetime. *)
Theorem finished_work_kept ns name w e j :
  ejs (cluster w) !! (ns, name) = Some e → Deleting e = false →
  jobs (cluster w) !! own_key e = Some j → j_Owner j = Some (UID e) → jobIsFinished j = true →
  expired_at e (now_of w) = false →
  jobs (cluster (Reconcile getenv r ns name w).2) = jobs (cluster w).
Proof.
  intros He Hd Hj Ho Hf Hx.
  destruct (isTerminal (Phase (Status e))) eqn:Ht.
  - assert (keeps (fixed jobs (jobs (cluster w))) reconcileTTL) as Hk
      by (unfold reconcileTTL, DeleteEphemeralJob; walk_fixed).
    unfold Reconcile. rewrite bind_run, attempt_run. unfold GetEphemeralJob.
    rewrite read_run, He. cbn [fst snd]. destruct (next_fault w); [|by case_decide..].
    rewrite bind_run. cbn [modify]. rewrite Hd, Ht. by apply Hk.
  - destruct (Reconcile_opens ns name w e He Hd Ht) as [[-> _]|(res & -> & _)]; [|done].
    rewrite (reconcile_live_own e (set_ej e (spent w)) j); try done.
    unfold IsControlledBy. by rewrite bool_decide_true.
Qed.

(** ** A session peer's policies *)

Lemma same_policy_refl p : same_policy p p = true.
Proof. unfold same_policy. by rewrite !bool_decide_true. Qed.

(** [p] is in place under its name. *)
Definition in_place (c : Cluster) (ns : string) (np : string * Policy) : Prop :=
  ∃ p', policies c !! (ns, np.1) = Some p' ∧ same_policy p' np.2 = true.

Lemma applyPolicy_spec ns name p w w' :
  applyPolicy ns name p w = (Ok (), w') →
  in_place (cluster w') ns (name, p) ∧ ejs (cluster w') = ejs (cluster w) ∧
  ∀ k, k ≠ (ns, name) → policies (cluster w') !! k = policies (cluster w) !! k.
Proof.
  assert (Hput : ∀ c, in_place (set_policies (<[(ns, name) := p]> (policies c)) c) ns (name, p) ∧
    ejs (set_policies (<[(ns, name) := p]> (policies c)) c) = ejs c ∧ ∀ k, k ≠ (ns, name) →
    policies (set_policies (<[(ns, name) := p]> (policies c)) c) !! k = policies c !! k).
  { intros c. split_and!; [|done|intros k Hk; cbn; by rewrite lookup_insert_ne].
    exists p. cbn. split; [apply lookup_insert_eq|apply same_policy_refl]. }
  unfold applyPolicy. rewrite bind_run, attempt_run. unfold GetPolicy. rewrite read_run. cbn [fst snd].
  destruct (next_fault w), (policies (cluster w) !! (ns, name)) as [got|] eqn:Eg;
    cbn [er_Kind absent]; try (case_decide; [|done]).
  1: { destruct (same_policy got p) eqn:Es.
       - intros [= <-]. split_and!; [|done..]. by exists got.
       - unfold UpdatePolicy. rewrite write_run. cbn. rewrite Eg.
         destruct (next_fault _); [intros [= <-]; apply Hput|done..]. }
  all: unfold CreatePolicy; rewrite write_run; cbn; rewrite Eg; destruct (next_fault _); try done;
    intros [= <-]; apply Hput.
Qed.

Lemma peer_names_differ (s : string) : s +:+ "-peer" ≠ s +:+ "-peer-owner".
Proof. intros H. apply (f_equal String.length) in H. rewrite !str_length_app in H. cbn in H. lia. Qed.

(** The pair a peer is given, with its owner reference. *)
Definition peer_pair (e owner : EphemeralJob) (pe : PeerSpec) (host : string) : list (string * Policy) :=
  (λ '(n, p), (n, owned (UID e) p)) <$> sessionPeerPolicies e owner pe host.

(** A usable owner. *)
Definition proper_owner (c : Cluster) (e : EphemeralJob) (pe : PeerSpec) (owner : EphemeralJob) : Prop :=
  ejs c !! (Namespace e, pe_JobName pe) = Some owner ∧ bad_owner pe owner = None.

Lemma reconcileSessionPeer_spec e pe w w' :
  ej w = e → Peer (Spec e) = Some pe → NetworkPolicy r = NetworkPolicyCilium →
  reconcileSessionPeer getenv r w = (Ok None, w') →
  ∃ owner host, proper_owner (cluster w) e pe owner ∧
    Forall (in_place (cluster w') (Namespace e)) (peer_pair e owner pe host).
Proof.
  intros He Hp Hn. unfold reconcileSessionPeer. rewrite bind_run. cbn [gets]. rewrite He, Hp.
  destruct (Labels e !! labelSandbox); [done|]. destruct (negb _); [done|].
  rewrite bind_run, attempt_run. unfold GetEphemeralJob. rewrite read_run. cbn [fst snd].
  destruct (next_fault w); [|case_decide; done..].
  destruct (ejs (cluster w) !! (Namespace e, pe_JobName pe)) as [owner|] eqn:Eo; [|case_decide; done].
  destruct (bad_owner pe owner) as [?|] eqn:Eb; [done|]. rewrite bind_run.
  destruct (sessionStorageHost getenv (Namespace e) (spent w)) as [[host|err] w1]; [|done].
  rewrite Hn, String.eqb_refl. cbn [negb]. rewrite bind_run. unfold sessionPeerPolicies. cbn [forM].
  rewrite bind_run.
  destruct (applyPolicy (Namespace e) (Name e +:+ "-peer") _ w1) as [[[]|err] w2] eqn:E1; [|done].
  rewrite bind_run.
  destruct (applyPolicy (Namespace e) (Name e +:+ "-peer-owner") _ w2) as [[[]|err] w3] eqn:E2; [|done].
  intros [= <-]. exists owner, host. split; [done|].
  apply applyPolicy_spec in E1 as [(p1 & H1 & S1) _], E2 as ((p2 & H2 & S2) & _ & Hsame).
  repeat constructor; [exists p1|by exists p2]. cbn in *. split; [|done].
  rewrite Hsame; [done|]. intros [= H]. by apply peer_names_differ in H.
Qed.

Lemma keeps_fixed_jobmode_policies x : keeps (fixed policies x) (reconcileJobMode getenv r).
Proof.
  unfold reconcileJobMode, ensureJob, create_job, GetJob, CreateJob, deleteJob, buildJob, buildPodSpec,
    resolveFleetID, GetNamespace, job_observed, job_running, job_unplaceable, job_waiting, capacity_deadline,
    deletePod, DeletePod, AssessCapacity, AssessCapacityBySelector, assess_unscheduled, noNodeMatchesSelector,
    ListNodes, store_status, setPhase, markFinished, podForJob, failureDetail, jobPodCreationBlocked, DeleteJob.
  walk_fixed.
Qed.
(** Where network policy is enforced, a session peer gets no pod and no Job before both
    policies of its pair are in place: after any pass, however it fails, either
    nothing was created, or its owner is a live job of the session that is not a peer
    itself and the cluster holds the two policies, which let in the owner on the listen
    port and let out to the owner's target port and the session's storage. *)
Theorem peer_policies_first ns name w e pe :
  ejs (cluster w) !! (ns, name) = Some e → Deleting e = false → isTerminal (Phase (Status e)) = false →
  Peer (Spec e) = Some pe → NetworkPolicy r = NetworkPolicyCilium →
  let w' := (Reconcile getenv r ns name w).2 in
  (pods (cluster w') = pods (cluster w) ∧ jobs (cluster w') = jobs (cluster w)) ∨
  ∃ owner host, proper_owner (cluster w) e pe owner ∧
    Forall (in_place (cluster w') (Namespace e)) (peer_pair e owner pe host).
Proof.
  intros He Hd Ht Hp Hn w'. unfold w'. clear w'.
  destruct (Reconcile_opens ns name w e He Hd Ht) as [[-> _]|(res & -> & _)]; [|by left].
  set (w0 := set_ej e (spent w)). unfold reconcile_live. rewrite bind_run. cbn [gets].
  set (I := λ w', pods (cluster w') = pods (cluster w) ∧ jobs (cluster w') = jobs (cluster w)).
  assert (Hend : ∀ p q m w1, I w1 → I (ending (markTerminal p q m) w1).2).
  { intros p q m w1 [H1 H2]. split.
    - assert (keeps (fixed pods (pods (cluster w))) (ending (markTerminal p q m))) as Hk by walk_fixed.
      by apply Hk.
    - assert (keeps (fixed jobs (jobs (cluster w))) (ending (markTerminal p q m))) as Hk by walk_fixed.
      by apply Hk. }
  destruct (Cancelled (Spec (ej w0))); [left; by apply Hend|].
  destruct (validateSpec (ej w0)) as [[reason msg]|]; [left; by apply Hend|].
  assert (HI : I (reconcileSessionPeer getenv r w0).2).
  { split; [apply (keeps_fixed_peer pods (pods (cluster w)))|apply (keeps_fixed_peer jobs (jobs (cluster w)))];
      done. }
  destruct (aside_peer w0) as (Hej & _). rewrite bind_run.
  destruct (reconcileSessionPeer getenv r w0) as [[[[reason msg]|]|err] w1] eqn:E;
    cbn [snd] in *; [left; by apply Hend| |by left].
  destruct (reconcileSessionPeer_spec e pe w0 w1 eq_refl Hp Hn E) as (owner & host & Ho & Hin).
  right. exists owner, host. split; [done|]. rewrite bind_run.
  assert (reconcileStorageEgress getenv r w1 = (Ok (), w1)) as ->.
  { unfold reconcileStorageEgress. rewrite bind_run. cbn [gets]. rewrite Hej. cbn. by rewrite Hp. }
  assert (fixed policies (policies (cluster w1))
    ((if String.eqb (Mode (Spec (ej w0))) ModeService then reconcileServiceMode getenv r
      else reconcileJobMode getenv r) w1).2) as Hf.
  { destruct (String.eqb _ _); [by apply keeps_fixed_service|by apply keeps_fixed_jobmode_policies]. }
  eapply Forall_impl; [exact Hin|]. intros np (p' & H1 & H2). exists p'. by rewrite Hf.
Qed.
End compute.
