(* ===== verification/JobLivenessFacts.v ===== *)
(** * JobLivenessFacts: a request comes to its end, and where it does not.

    With nothing failing, a request with a maximum lifetime reaches an end once that
    lifetime has passed, in both modes, however the cluster around it changes. The
    exceptions the code makes are stated too: a request whose storage endpoint cannot
    be read stalls before the bound is looked at; a cancelled request is never
    collected and its compute never stopped; and a replacement pod has no time of its
    own to become ready. *)

From S2P Require Import Prelude.
From S2P Require Import JobTypes.
From S2P Require Import JobPod.
From S2P Require Import JobClientFacts.
From S2P Require Import JobPodFacts.
From S2P Require Import JobController.
From S2P Require Import JobLifecycleFacts.
From S2P Require Import JobComputeFacts.

Local Open Scope string_scope.

#[export] Instance calm_steady : Steady calm.
Proof.
  intros w w' (_ & _ & _ & Hf) Hw. unfold calm in *. rewrite Hw in Hf. by apply suffix_nil_inv.
Qed.

Section liveness.
Context {L : JobLibrary} {LL : JobLibraryLaws L} (getenv : string → string)
        (r : EphemeralJobReconciler).

(** ** An end is stored and stays *)

(** The working copy and the stored request [k] are both at [phase]. *)
Definition told (phase : string) (k : string * string) (w : World) : Prop :=
  key (ej w) = k ∧ Phase (Status (ej w)) = phase ∧
  ∃ e, ejs (cluster w) !! k = Some e ∧ Phase (Status e) = phase.

Global Instance told_steady phase k : Steady (told phase k).
Proof. intros w w' (Hc & He & _) H. unfold told. by rewrite Hc, He. Qed.

Lemma keeps_told_assign phase k f : (∀ s, Phase (f s) = Phase s) → keeps (told phase k) (assign f).
Proof. intros Hf w (H1 & H2 & H3). split_and!; [done| |done]. cbn. by rewrite Hf. Qed.

Lemma keeps_told_StatusUpdate phase k : keeps (told phase k) StatusUpdate.
Proof.
  intros w (H1 & H2 & e & He & Hp). unfold StatusUpdate. rewrite bind_run. cbn [gets].
  fold (key (ej w)). rewrite bind_run, write_run, H1, He.
  destruct (next_fault w); cbn; (split_and!; [done..|]);
    [|by exists e|]; eexists; (split; [apply lookup_insert_eq|done]).
Qed.

Lemma keeps_told_callback phase k p x gate id :
  keeps (told phase k) (fireLifecycleCallback p x gate id).
Proof.
  unfold fireLifecycleCallback.
  repeat first
    [ progress intros
    | match goal with
      | |- keeps _ (match ?x with _ => _ end) => destruct x eqn:?
      | |- keeps _ (_ ≫= _) => apply keeps_bind
      | |- keeps _ (ignoring _ _) => apply keeps_ignoring, keeps_told_StatusUpdate
      | |- keeps _ (assign _) => apply keeps_told_assign; done
      end
    | solve [eauto with keeps typeclass_instances] ].
  intros w Hw. unfold post. by destruct (replies w) as [|[]].
Qed.

Lemma markFinished_ends phase reason exit w :
  calm w → is_Some (ejs (cluster w) !! key (ej w)) →
  told phase (key (ej w)) (markFinishedWithReason phase reason exit w).2.
Proof.
  intros Hw [old Ho]. unfold markFinishedWithReason. rewrite bind_run, Now_run, bind_run. cbn [gets].
  rewrite bind_run, assign_run, bind_run, ignoring_run.
  rewrite (StatusUpdate_fine _ old) by (try done; by apply calm_next). cbn [fst snd].
  unfold fireCallback. rewrite bind_run. cbn [gets]. apply keeps_told_callback.
  split_and!; [done..|]. eexists. cbn. split; [apply lookup_insert_eq|done].
Qed.

(** Nothing failed, and the request and the clock are as they were. *)
Definition aloof (w w' : World) : Prop :=
  calm w' ∧ ej w' = ej w ∧ ejs (cluster w') = ejs (cluster w) ∧ clk w' = clk w ∧ ticks w' = ticks w.
Lemma aloof_refl w : calm w → aloof w w.
Proof. intros Hw. by split_and!. Qed.
Lemma aloof_trans w1 w2 w3 : aloof w1 w2 → aloof w2 w3 → aloof w1 w3.
Proof. intros (?&?&?&?&?) (?&?&?&?&?). split_and!; [done|congruence..]. Qed.

(** Deleting compute when nothing fails. *)
Lemma ignoring_write_calm f w :
  calm w → (∀ c, match f c with
                 | Ok c' => ejs c' = ejs c
                 | Err e => er_Kind e = NotFound
                 end) →
  ∃ w', ignoring NotFound (write f) w = (Ok (), w') ∧ aloof w w'.
Proof.
  intros Hw Hf. rewrite ignoring_run, write_calm by done. specialize (Hf (cluster w)).
  destruct (f (cluster w)) as [c|e]; cbn; [|rewrite decide_True by done];
    eexists; (split; [done|]); by split_and!.
Qed.

Lemma DeleteJob_calm p ns name w :
  calm w → ∃ w', ignoring NotFound (DeleteJob p ns name) w = (Ok (), w') ∧ aloof w w'.
Proof. intros Hw. apply ignoring_write_calm; [done|]. intros c. by destruct (jobs c !! _). Qed.

Lemma deletePod_calm p w :
  calm w → ∃ w', deletePod p w = (Ok (), w') ∧ aloof w w'.
Proof. intros Hw. apply ignoring_write_calm; [done|]. intros c. by destruct (pods c !! _). Qed.

(** ** Past the lifetime *)

Lemma expired_check e w :
  expired_at e (now_of w) = true →
  (if (0 <? MaxLifetimeSeconds (Spec e))%Z then
     lived ← Since (CreationTimestamp e);
     mret (seconds (MaxLifetimeSeconds (Spec e)) <? lived)%Z
   else mret false) w = (Ok true, ticked w).
Proof.
  unfold expired_at. intros [H1 H2]%andb_true_iff. by rewrite H1, bind_run, Since_run, H2.
Qed.

Lemma job_expires e w :
  calm w → ej w = e → is_Some (ejs (cluster w) !! key e) → expired_at e (now_of w) = true →
  told PhaseTimedOut (key e) (reconcileJobMode getenv r w).2.
Proof.
  intros Hw <- Hs Hx. unfold reconcileJobMode. rewrite bind_run. cbn [gets].
  rewrite bind_run, (expired_check _ _ Hx), bind_run. unfold deleteJob. rewrite bind_run. cbn [gets].
  destruct (DeleteJob_calm Background (Namespace (ej w)) (jobNameFor (ej w)) (ticked w))
    as (w1 & E & Hw1 & He1 & Hc1 & _); [done|].
  change (ej (ticked w)) with (ej w). rewrite E, bind_run, assign_run. unfold ending, markFinished.
  rewrite bind_run. set (w2 := set_ej _ w1).
  assert (key (ej w2) = key (ej w)) as Hk by (cbn; by rewrite He1).
  pose proof (markFinished_ends PhaseTimedOut PhaseTimedOut None w2) as H.
  rewrite Hk in H. specialize (H Hw1).
  assert (is_Some (ejs (cluster w2) !! key (ej w))) as Hs2 by (cbn; by rewrite Hc1).
  specialize (H Hs2). by destruct (markFinishedWithReason _ _ _ w2) as [[]].
Qed.

(** What is asked of a cluster for a pod to be creatable: the names the API server makes
    up are free. *)
Definition names_free (w : World) : Prop :=
  ∀ n ns pre, (serial w ≤ n)%nat → pods (cluster w) !! (ns, pre +:+ made_up n) = None.

Lemma ListPods_calm ns sel w :
  calm w → ∃ l, ListPods ns sel w = (Ok l, set_serial (S (serial w)) w).
Proof. intros Hw. unfold ListPods. rewrite bind_run, read_calm by done. by eexists. Qed.

Lemma resolveFleetID_calm ns w :
  calm w →
  resolveFleetID ns w = (Ok (default "" (namespaces (cluster w) !! ns ≫= λ l, l !! fleetIDLabel)), w).
Proof.
  intros Hw. unfold resolveFleetID, GetNamespace. rewrite bind_run, attempt_run, read_calm by done. cbn.
  by destruct (namespaces (cluster w) !! ns).
Qed.

Lemma ensureService_calm s w :
  calm w → ∃ w', ensureService s w = (Ok (), w') ∧ aloof w w' ∧ pods (cluster w') = pods (cluster w) ∧
                 serial w' = serial w.
Proof.
  intros Hw. unfold ensureService. rewrite bind_run. cbn [gets]. rewrite bind_run, attempt_run.
  unfold GetService. rewrite read_calm by done. cbn [fst snd].
  destruct (services (cluster w) !! (Namespace (ej w), serviceNameFor (ej w))) eqn:E.
  { eexists. split_and!; [done|by apply aloof_refl|done..]. }
  rewrite bool_decide_true by done. cbn [negb]. rewrite ignoring_run. unfold CreateService. rewrite write_calm, E by done. cbn.
  eexists. split_and!; [done|by split_and!|done..].
Qed.

Lemma ensurePod_calm p w :
  calm w → names_free w → ∃ pod w', ensurePod getenv p w = (Ok pod, w') ∧ aloof w w'.
Proof.
  intros Hw Hn. unfold ensurePod. rewrite bind_run. cbn [gets]. rewrite bind_run.
  destruct (ListPods_calm (Namespace (ej w)) {[labelJobUID := UID (ej w)]} w Hw) as [l ->].
  set (w1 := set_serial _ w). destruct (filter _ l) as [|pod rest].
  2: { do 2 eexists. split; [done|]. by split_and!. }
  rewrite bind_run. unfold buildPod, buildPodSpec. rewrite bind_run, resolveFleetID_calm by done.
  rewrite !bind_run, resolveFleetID_calm by done. cbn [mret goM_ret]. unfold CreatePod.
  rewrite bind_run, fresh_run, bind_run, write_calm by done. cbn.
  rewrite Hn by lia. do 2 eexists. split; [done|]. by split_and!.
Qed.

Lemma AssessCapacity_calm ns k v w :
  calm w → ∃ c w', AssessCapacityBySelector ns k v w = (Ok c, w') ∧ aloof w w'.
Proof.
  intros Hw.
  assert (Ha : aside (AssessCapacityBySelector ns k v)).
  { apply aside_intro; intros; unfold AssessCapacityBySelector, assess_unscheduled, noNodeMatchesSelector,
      ListNodes, ListPods, ListEvents; walk_fixed. }
  assert (Hu : unmoved w (AssessCapacityBySelector ns k v w).2).
  { unfold AssessCapacityBySelector, assess_unscheduled, noNodeMatchesSelector, ListNodes. walk_reads. }
  assert (∃ c, (AssessCapacityBySelector ns k v w).1 = Ok c) as [c Hc].
  { unfold AssessCapacityBySelector. rewrite bind_run, attempt_run.
    destruct (ListPods_calm ns {[k := v]} w Hw) as [l ->]. cbn [fst snd].
    destruct l as [|p l]; [by eexists|]. destruct (_ || _); [by eexists|].
    assert (∀ s w1, ∃ c, (assess_unscheduled ns p s w1).1 = Ok c) as Hun.
    { intros s w1. unfold assess_unscheduled. rewrite bind_run, attempt_run.
      destruct (ListEvents _ w1) as [[es|err] w2]; cbn [fst snd]; [|by eexists].
      destruct (autoscaler_says es); [by eexists|]. rewrite bind_run, attempt_run.
      by eexists. }
    destruct (podCondition p "PodScheduled") as [c|]; [|apply Hun].
    destruct (String.eqb _ _); [by eexists|apply Hun]. }
  exists c, (AssessCapacityBySelector ns k v w).2. split; [by rewrite <-Hc, <-surjective_pairing|].
  destruct (Ha w) as (H1 & H2 & H3). pose proof Hu as (H4 & _).
  split_and!; [by apply (@steady calm _ w)|done|by rewrite H4|done..].
Qed.

Lemma ending_told phase k m w : told phase k (m w).2 → told phase k (ending m w).2.
Proof. unfold ending. rewrite bind_run. by destruct (m w) as [[]]. Qed.

Lemma assign_stored f e w :
  ej w = e → is_Some (ejs (cluster w) !! key e) →
  let w' := (assign f w).2 in key (ej w') = key e ∧ is_Some (ejs (cluster w') !! key (ej w')).
Proof. intros <- Hs. done. Qed.

Lemma service_expires e pod w :
  calm w → ej w = e → is_Some (ejs (cluster w) !! key e) → expired_at e (now_of w) = true →
  ∃ phase, isTerminal phase = true ∧ told phase (key e) (service_observed r pod w).2.
Proof.
  intros Hw <- Hs Hx. unfold service_observed.
  destruct (String.eqb (p_Phase pod) "Failed").
  { exists PhaseFailed. split; [done|]. rewrite bind_run, assign_run. apply ending_told.
    match goal with |- told _ _ (markFinished _ _ ?w2).2 =>
      exact (markFinished_ends PhaseFailed PhaseFailed _ w2 Hw Hs) end. }
  destruct (String.eqb (p_Phase pod) "Succeeded").
  { exists PhaseSucceeded. split; [done|]. apply ending_told.
    exact (markFinished_ends PhaseSucceeded PhaseSucceeded _ w Hw Hs). }
  exists PhaseSucceeded. split; [done|]. rewrite bind_run. cbn [gets]. rewrite bind_run.
  destruct (AssessCapacity_calm (Namespace (ej w)) labelJobUID (UID (ej w)) w Hw)
    as (c & w1 & -> & Hw1 & He1 & Hc1 & Ht1 & Hl1).
  assert (Hx1 : expired_at (ej w) (now_of w1) = true) by (unfold now_of; by rewrite Ht1, Hl1).
  rewrite bind_run, (expired_check _ _ Hx1). unfold service_expired. rewrite bind_run. cbn [gets].
  destruct (deletePod_calm pod (ticked w1)) as (w2 & E2 & Hw2 & He2 & Hc2 & _); [done|].
  rewrite bind_run, E2, bind_run, assign_run, bind_run.
  match goal with |- context [(match ?o with Some _ => mret () | None => assign ?f end) ?w0] =>
    assert (∃ w3, (match o with Some _ => mret () | None => assign f end : JM unit) w0 = (Ok (), w3) ∧
      calm w3 ∧ key (ej w3) = key (ej w) ∧ ejs (cluster w3) = ejs (cluster w)) as (w3 & E3 & Hw3 & Hk3 & Hc3)
  end.
  { assert (key (ej w2) = key (ej w)) by (rewrite He2; change (ej (ticked w1)) with (ej w1); by rewrite He1).
    assert (ejs (cluster w2) = ejs (cluster w)) by (rewrite Hc2; exact Hc1).
    destruct (_ !! ConditionCapacity); (eexists; split_and!; [done..]). }
  rewrite E3. apply ending_told. rewrite <-Hk3. apply markFinished_ends; [done|]. by rewrite Hk3, Hc3.
Qed.

Lemma service_mode_expires e w :
  calm w → names_free w → ej w = e → is_Some (ejs (cluster w) !! key e) →
  is_Some (ResolvePlacement (PlacementClass (Spec e))) → expired_at e (now_of w) = true →
  ∃ phase, isTerminal phase = true ∧ told phase (key e) (reconcileServiceMode getenv r w).2.
Proof.
  intros Hw Hn <- Hs [p Hp] Hx. unfold reconcileServiceMode. rewrite bind_run. cbn [gets]. rewrite Hp, bind_run.
  assert (∃ w1, (match sp_Service (Spec (ej w)) with Some s => ensureService s | None => mret () end : JM unit) w
    = (Ok (), w1) ∧ aloof w w1 ∧ names_free w1) as (w1 & -> & Ha1 & Hn1).
  { destruct (sp_Service _) as [s|]; [|eexists; split_and!; [done|by apply aloof_refl|done]].
    destruct (ensureService_calm s w Hw) as (w1 & -> & Ha & Hp1 & Hs1). exists w1. split_and!; [done..|].
    intros n ns pre. rewrite Hp1, Hs1. apply Hn. }
  rewrite bind_run, attempt_run.
  destruct (ensurePod_calm p w1) as (pod & w2 & -> & Ha2); [apply Ha1|done|]. cbn [fst snd].
  destruct (aloof_trans _ _ _ Ha1 Ha2) as (Hw2 & He2 & Hc2 & Ht2 & Hl2).
  apply (service_expires (ej w)); [done..|by rewrite Hc2|]. unfold now_of. by rewrite Ht2, Hl2.
Qed.

(** ** The storage endpoint *)

(** [aloof], and no pod nor name was made either. *)
Definition apart (w w' : World) : Prop :=
  aloof w w' ∧ pods (cluster w') = pods (cluster w) ∧ configmaps (cluster w') = configmaps (cluster w) ∧
  namespaces (cluster w') = namespaces (cluster w) ∧ serial w' = serial w.
Lemma apart_refl w : calm w → apart w w.
Proof. intros Hw. by split_and!; [apply aloof_refl|..]. Qed.
Lemma apart_trans w1 w2 w3 : apart w1 w2 → apart w2 w3 → apart w1 w3.
Proof. intros (?&?&?&?&?) (?&?&?&?&?). split_and!; [by eapply aloof_trans|congruence..]. Qed.
Lemma names_free_apart w w' : apart w w' → names_free w → names_free w'.
Proof. intros (_ & Hp & _ & _ & Hs) Hn n ns pre. rewrite Hp, Hs. apply Hn. Qed.

(** The ConfigMap of [ns] names a host. *)
Definition endpoint (ns : string) (c : Cluster) : option string :=
  let fleet := default "" (namespaces c !! ns ≫= λ l, l !! fleetIDLabel) in
  data ← configmaps c !! (ns, resolveWorkspaceSyncConfig getenv ns fleet);
  host ← url_hostname (default "" (data !! "S3_ENDPOINT_URL"));
  if String.eqb host "" then None else Some host.

Lemma sessionStorageHost_calm ns w :
  calm w →
  (sessionStorageHost getenv ns w).2 = w ∧
  match endpoint ns (cluster w) with
  | Some host => (sessionStorageHost getenv ns w).1 = Ok host
  | None => ∃ err, (sessionStorageHost getenv ns w).1 = Err err
  end.
Proof.
  intros Hw. unfold sessionStorageHost, endpoint. rewrite bind_run, resolveFleetID_calm by done.
  rewrite bind_run, attempt_run. unfold GetConfigMap. rewrite read_calm by done. cbn [fst snd].
  destruct (configmaps (cluster w) !! _) as [data|]; [|cbn; eauto]. cbn [mbind option_bind].
  destruct (url_hostname _) as [h|]; [|cbn; eauto]. cbn [mbind option_bind].
  destruct (String.eqb h ""); cbn; eauto.
Qed.

Lemma applyPolicy_calm ns name p w :
  calm w → ∃ w', applyPolicy ns name p w = (Ok (), w') ∧ apart w w'.
Proof.
  intros Hw. unfold applyPolicy. rewrite bind_run, attempt_run. unfold GetPolicy.
  rewrite read_calm by done. cbn [fst snd].
  destruct (policies (cluster w) !! (ns, name)) as [got|] eqn:E; cbn [er_Kind absent].
  - destruct (same_policy got p); [eexists; split; [done|by apply apart_refl]|].
    unfold UpdatePolicy. rewrite write_calm, E by done. eexists. by split_and!.
  - rewrite decide_True by done. unfold CreatePolicy. rewrite write_calm, E by done.
    eexists. by split_and!.
Qed.

Lemma applyPolicies_calm ns (f : Policy → Policy) l w :
  calm w →
  ∃ w', forM l (λ '(name, p), applyPolicy ns name (f p)) w = (Ok (), w') ∧ apart w w'.
Proof.
  revert w. induction l as [|[name p] l IH]; intros w Hw; cbn [forM].
  { eexists. split; [done|by apply apart_refl]. }
  destruct (applyPolicy_calm ns name (f p) w Hw) as (w1 & E & Ha). rewrite bind_run, E.
  destruct (IH w1) as (w2 & E2 & Ha2); [apply Ha|]. exists w2. split; [done|]. by eapply apart_trans.
Qed.

(** The requests whose pass reads the storage endpoint. *)
Definition needs_storage (e : EphemeralJob) : bool :=
  match Peer (Spec e), Output (Spec e), WorkspacePersistence (Spec e) with
  | Some _, _, _ => true
  | None, None, None => false
  | None, _, _ => String.eqb (NetworkPolicy r) NetworkPolicyCilium
  end.

Lemma reconcileSessionPeer_calm w :
  calm w → (needs_storage (ej w) = true → is_Some (endpoint (Namespace (ej w)) (cluster w))) →
  ∃ x w', reconcileSessionPeer getenv r w = (Ok x, w') ∧ apart w w'.
Proof.
  intros Hw Hs. unfold reconcileSessionPeer. rewrite bind_run. cbn [gets].
  assert (Hd : ∀ x : option (string * string),
    ∃ y w', (mret x : JM _) w = (Ok y, w') ∧ apart w w').
  { intros x. exists x, w. split; [done|by apply apart_refl]. }
  unfold needs_storage in Hs. destruct (Peer (Spec (ej w))) as [pe|]; [|apply Hd].
  destruct (Hs eq_refl) as [host Hh].
  destruct (Labels (ej w) !! labelSandbox); [apply Hd|]. destruct (negb _); [apply Hd|].
  rewrite bind_run, attempt_run. unfold GetEphemeralJob. rewrite read_calm by done. cbn [fst snd].
  destruct (ejs (cluster w) !! _) as [owner|]; [|rewrite decide_True by done; apply Hd].
  destruct (bad_owner pe owner); [apply Hd|]. rewrite bind_run.
  destruct (sessionStorageHost_calm (Namespace (ej w)) w Hw) as [E1 E2]. rewrite Hh in E2.
  rewrite (surjective_pairing (sessionStorageHost _ _ w)), E1, E2. destruct (negb _); [apply Hd|].
  rewrite bind_run.
  destruct (applyPolicies_calm (Namespace (ej w)) (owned (UID (ej w)))
    (sessionPeerPolicies (ej w) owner pe host) w Hw) as (w1 & -> & Ha1). by do 2 eexists.
Qed.

Lemma reconcileStorageEgress_calm w :
  calm w → (needs_storage (ej w) = true → is_Some (endpoint (Namespace (ej w)) (cluster w))) →
  ∃ w', reconcileStorageEgress getenv r w = (Ok (), w') ∧ apart w w'.
Proof.
  intros Hw Hs. unfold reconcileStorageEgress. rewrite bind_run. cbn [gets].
  assert (Hd : ∃ w', (mret () : JM unit) w = (Ok (), w') ∧ apart w w').
  { exists w. split; [done|by apply apart_refl]. }
  assert (Hb : (String.eqb (NetworkPolicy r) NetworkPolicyCilium = true →
                is_Some (endpoint (Namespace (ej w)) (cluster w))) →
    ∃ w', (if negb (String.eqb (NetworkPolicy r) NetworkPolicyCilium) then mret ()
           else host ← sessionStorageHost getenv (Namespace (ej w));
                applyPolicy (Namespace (ej w)) (Name (ej w) +:+ "-storage")
                  (owned (UID (ej w)) (storage_policy (ej w) host)) : JM unit) w = (Ok (), w') ∧ apart w w').
  { intros Hh. destruct (String.eqb (NetworkPolicy r) _); [|apply Hd]. destruct Hh as [host Hh]; [done|].
    cbn [negb]. rewrite bind_run. destruct (sessionStorageHost_calm (Namespace (ej w)) w Hw) as [E1 E2].
    rewrite Hh in E2. rewrite (surjective_pairing (sessionStorageHost _ _ w)), E1, E2.
    by apply applyPolicy_calm. }
  unfold needs_storage in Hs.
  destruct (Peer (Spec (ej w))); [apply Hd|].
  destruct (Output (Spec (ej w))), (WorkspacePersistence (Spec (ej w))); solve [apply Hd | apply Hb, Hs].
Qed.

(** ** A pass past the lifetime *)

(** The request is finished with: gone, going, cancelled or at an end. *)
Definition over (k : string * string) (c : Cluster) : Prop :=
  match ejs c !! k with
  | None => True
  | Some e => Deleting e = true ∨ Cancelled (Spec e) = true ∨ isTerminal (Phase (Status e)) = true
  end.

(** What a pass over [e] asks of the cluster around it to get through. *)
Definition able (e : EphemeralJob) (w : World) : Prop :=
  calm w ∧ names_free w ∧
  (needs_storage e = true → is_Some (endpoint (Namespace e) (cluster w))) ∧
  (Mode (Spec e) = ModeService → is_Some (ResolvePlacement (PlacementClass (Spec e)))).

Lemma told_over phase k w : isTerminal phase = true → told phase k w → over k (cluster w).
Proof. intros Ht (_ & _ & e & He & <-). unfold over. rewrite He. auto. Qed.

Lemma markTerminal_ends phase reason msg w :
  calm w → is_Some (ejs (cluster w) !! key (ej w)) →
  told phase (key (ej w)) (markTerminal phase reason msg w).2.
Proof.
  intros Hw [old Ho]. unfold markTerminal. rewrite bind_run, Now_run, bind_run. cbn [gets].
  rewrite bind_run, assign_run, ignoring_run.
  rewrite (StatusUpdate_fine _ old) by (try done; by apply calm_next). cbn [fst snd].
  split_and!; [done..|]. eexists. cbn. split; [apply lookup_insert_eq|done].
Qed.

Lemma live_expires e w :
  ej w = e → is_Some (ejs (cluster w) !! key e) → able e w → Cancelled (Spec e) = false →
  expired_at e (now_of w) = true → over (key e) (cluster (reconcile_live getenv r w).2).
Proof.
  intros <- Hs (Hw & Hn & Hst & Hm) Hc Hx. unfold reconcile_live. rewrite bind_run. cbn [gets]. rewrite Hc.
  destruct (validateSpec _) as [[reason msg]|].
  { apply (told_over PhaseFailed); [done|]. by apply ending_told, markTerminal_ends. }
  rewrite bind_run. destruct (reconcileSessionPeer_calm w Hw Hst) as (x & w1 & -> & Ha1).
  pose proof Ha1 as ((Hw1 & He1 & Hj1 & Ht1 & Hl1) & _ & Hcm1 & Hns1 & _).
  destruct x as [[reason msg]|].
  { apply (told_over PhaseFailed); [done|]. rewrite <-He1. apply ending_told, markTerminal_ends; [done|].
    by rewrite He1, Hj1. }
  rewrite bind_run. destruct (reconcileStorageEgress_calm w1) as (w2 & -> & Ha2); [done| |].
  { rewrite He1. unfold endpoint. rewrite Hcm1, Hns1. exact Hst. }
  pose proof (apart_trans _ _ _ Ha1 Ha2) as Ha. pose proof Ha as ((Hw2 & He2 & Hj2 & Ht2 & Hl2) & _).
  assert (Hx2 : expired_at (ej w) (now_of w2) = true) by (unfold now_of; by rewrite Ht2, Hl2).
  assert (Hs2 : is_Some (ejs (cluster w2) !! key (ej w))) by by rewrite Hj2.
  destruct (String.eqb_spec (Mode (Spec (ej w))) ModeService) as [E|_].
  - destruct (service_mode_expires (ej w) w2) as (phase & Ht & Hp);
      [done|by eapply names_free_apart|done..|by apply Hm|done|]. by eapply told_over.
  - eapply told_over; [|by apply job_expires]. done.
Qed.

Lemma pass_expires ns name e w :
  ejs (cluster w) !! (ns, name) = Some e → key e = (ns, name) → able e w →
  expired_at e (now_of w) = true → over (ns, name) (cluster w) ∨
  over (ns, name) (cluster (Reconcile getenv r ns name w).2).
Proof.
  intros He Hk Ha Hx. unfold over at 1. rewrite He.
  destruct (Deleting e) eqn:Hd; [by auto|]. destruct (Cancelled (Spec e)) eqn:Hc; [by auto|].
  destruct (isTerminal _) eqn:Ht; [by auto|]. right. destruct Ha as (Hw & Hrest). unfold Reconcile.
  rewrite bind_run, attempt_run. unfold GetEphemeralJob. rewrite read_calm, He by done. cbn [fst snd].
  rewrite bind_run. cbn [modify]. rewrite Hd, Ht, <-Hk. apply live_expires; try done.
  cbn. rewrite Hk. by eexists.
Qed.

(** ** Liveness *)

(** C17: a request with a maximum lifetime comes to an end. Along any run of the cluster
    in which, however late it is, a pass over the request that can get through is still
    to come, and whatever the steps in between do, there is a moment at which the
    request is gone, being deleted, cancelled, or in a terminal phase. *)
Theorem lifetime_bounds_request (W : nat → World) ns name born lifetime :
  (∀ n e, ejs (cluster (W n)) !! (ns, name) = Some e →
     key e = (ns, name) ∧ (CreationTimestamp e ≤ born)%Z ∧
     (0 < MaxLifetimeSeconds (Spec e) ≤ lifetime)%Z) →
  (seconds lifetime < 2 ^ 63 - 1)%Z →
  (∀ t, ∃ n, (t ≤ clk (W n))%Z ∧ W (S n) = (Reconcile getenv r ns name (W n)).2 ∧
     ∀ e, ejs (cluster (W n)) !! (ns, name) = Some e → able e (W n)) →
  ∃ n, over (ns, name) (cluster (W n)).
Proof.
  intros Hinv Hmax Hfair. destruct (Hfair (born + seconds lifetime + 1)%Z) as (n & Hn & Hstep & Hable).
  destruct (ejs (cluster (W n)) !! (ns, name)) as [e|] eqn:He.
  2: { exists n. unfold over. by rewrite He. }
  destruct (Hinv n e He) as (Hk & Hb & Hl).
  assert (Hx : expired_at e (now_of (W n)) = true).
  { unfold expired_at, Sub, now_of, seconds, ns_second in *. apply andb_true_iff.
    split; [lia|]. apply Z.ltb_lt. lia. }
  destruct (pass_expires ns name e (W n)) as [H|H]; [done..|by apply Hable|done| |].
  - by exists n.
  - exists (S n). by rewrite Hstep.
Qed.

(** ** Where a request does not come to its end *)

Lemma Reconcile_calm ns name e w :
  calm w → ejs (cluster w) !! (ns, name) = Some e → Deleting e = false →
  isTerminal (Phase (Status e)) = false →
  Reconcile getenv r ns name w = reconcile_live getenv r (set_ej e w).
Proof.
  intros Hw He Hd Ht. unfold Reconcile. rewrite bind_run, attempt_run. unfold GetEphemeralJob.
  rewrite read_calm, He by done. cbn [fst snd]. rewrite bind_run. cbn [modify]. by rewrite Hd, Ht.
Qed.

(** the lifetime bound is not checked before everything that can stall: while the
    storage endpoint of a request that stores something cannot be read, every pass
    fails before it looks at the clock, and changes nothing. *)
Theorem storage_endpoint_stalls ns name e w :
  calm w → ejs (cluster w) !! (ns, name) = Some e → Namespace e = ns →
  Deleting e = false → isTerminal (Phase (Status e)) = false → Cancelled (Spec e) = false →
  validateSpec e = None → Peer (Spec e) = None → needs_storage e = true →
  endpoint ns (cluster w) = None →
  ∃ err w', Reconcile getenv r ns name w = (Err err, w') ∧ cluster w' = cluster w ∧ posts w' = posts w.
Proof.
  intros Hw He <- Hd Ht Hc Hv Hp Hn Hs. rewrite (Reconcile_calm _ _ e) by done.
  unfold reconcile_live. rewrite bind_run. cbn [gets ej set_ej]. rewrite Hc, Hv, bind_run.
  unfold reconcileSessionPeer. rewrite bind_run. cbn [gets ej set_ej]. rewrite Hp.
  cbn [mret goM_ret]. rewrite bind_run. unfold reconcileStorageEgress. rewrite bind_run.
  cbn [gets ej set_ej]. unfold needs_storage in Hn. rewrite Hp in *.
  assert (∃ err, (host ← sessionStorageHost getenv (Namespace e);
    applyPolicy (Namespace e) (Name e +:+ "-storage") (owned (UID e) (storage_policy e host)) : JM unit)
    (set_ej e w) = (Err err, set_ej e w)) as [err Hf].
  { destruct (sessionStorageHost_calm (Namespace e) (set_ej e w)) as [E1 E2]; [done|].
    cbn [cluster set_ej] in E2. rewrite Hs in E2. destruct E2 as [err E2]. exists err.
    by rewrite bind_run, (surjective_pairing (sessionStorageHost _ _ _)), E1, E2. }
  exists err, (set_ej e w). split_and!; [|done..].
  destruct (Output (Spec e)), (WorkspacePersistence (Spec e)); try discriminate;
    rewrite Hn; cbn [negb]; by rewrite Hf.
Qed.

(** One pass over a cancelled request. *)
Definition cancelled (ns name : string) (js : gmap (string * string) Job)
    (ps : gmap (string * string) Pod) (w : World) : Prop :=
  calm w ∧ jobs (cluster w) = js ∧ pods (cluster w) = ps ∧
  ∃ e, ejs (cluster w) !! (ns, name) = Some e ∧ key e = (ns, name) ∧
       Deleting e = false ∧ isTerminal (Phase (Status e)) = false ∧ Cancelled (Spec e) = true.

Lemma cancelled_pass ns name js ps w :
  cancelled ns name js ps w →
  let w' := (Reconcile getenv r ns name w).2 in
  cancelled ns name js ps w' ∧
  ∃ e, ejs (cluster w') !! (ns, name) = Some e ∧ Phase (Status e) = PhaseCancelled ∧
       CompletionTime (Status e) = Some (wire_time (now_of w)).
Proof.
  intros (Hw & Hj & Hp & e & He & Hk & Hd & Ht & Hc). cbn zeta. rewrite (Reconcile_calm _ _ e) by done.
  unfold reconcile_live. rewrite bind_run. cbn [gets ej set_ej]. rewrite Hc. unfold ending, markTerminal.
  rewrite bind_run, bind_run, Now_run, bind_run. cbn [gets]. rewrite bind_run, assign_run, ignoring_run.
  rewrite (StatusUpdate_fine _ e); [|by apply calm_next|by rewrite <-He, <-Hk]. cbn [fst snd mret goM_ret].
  unfold stored, key in *. cbn. rewrite Hk, calm_spent by done. cbn.
  rewrite lookup_insert_eq. split; [|by eexists]. split_and!; [done..|]. eexists.
  cbn. rewrite lookup_insert_eq. by split_and!.
Qed.

(** cancelling stops nothing. However many passes follow, with nothing failing, the
    Jobs and the pods are as they were, and the request is still there, at Cancelled,
    which is no end for the code that collects: each pass dates the completion anew. *)
Theorem cancel_keeps_compute ns name js ps n w :
  cancelled ns name js ps w →
  let pass w := (Reconcile getenv r ns name w).2 in
  let before := Nat.iter n pass w in
  let after := pass before in
  jobs (cluster after) = js ∧ pods (cluster after) = ps ∧
  ∃ e, ejs (cluster after) !! (ns, name) = Some e ∧ Phase (Status e) = PhaseCancelled ∧
       CompletionTime (Status e) = Some (wire_time (now_of before)).
Proof.
  intros Hw. cbn zeta.
  assert (Hn : cancelled ns name js ps (Nat.iter n (λ w, (Reconcile getenv r ns name w).2) w)).
  { induction n as [|n IH]; [done|]. by apply (cancelled_pass _ _ _ _ _ IH). }
  destruct (cancelled_pass _ _ _ _ _ Hn) as ((_ & H1 & H2 & _) & H3). by split_and!.
Qed.

Lemma AssessCapacity_running ns k v w :
  calm w → (∃ p, labelled (cluster w) ns k v p) →
  (∀ p, labelled (cluster w) ns k v p → p_Phase p = "Running") →
  (AssessCapacityBySelector ns k v w).1 = Ok scheduled_now.
Proof.
  intros Hw [p Hp] Hr. unfold AssessCapacityBySelector. rewrite bind_run, attempt_run.
  destruct (ListPods_calm ns {[k := v]} w Hw) as [l E]. destruct (ListPods_spec _ _ _ _ _ _ E) as [_ Hl].
  rewrite E. cbn [fst snd]. destruct l as [|q l]; [by apply Hl, elem_of_nil in Hp|].
  by rewrite (Hr q) by (apply Hl, list_elem_of_here).
Qed.

(** A stopped clock, and the lifetime not over. *)
Lemma unexpired_check e w :
  ticks w = [] → expired_at e (clk w) = false →
  ∃ w', (if (0 <? MaxLifetimeSeconds (Spec e))%Z then
           lived ← Since (CreationTimestamp e);
           mret (seconds (MaxLifetimeSeconds (Spec e)) <? lived)%Z
         else mret false) w = (Ok false, w') ∧ unmoved w w' ∧ clk w' = clk w ∧ ticks w' = [].
Proof.
  intros Ht Hx. assert (Hn : now_of w = clk w) by (unfold now_of; rewrite Ht; cbn; lia).
  unfold expired_at in Hx. destruct (0 <? _)%Z; cbn [andb] in Hx; [|by eexists].
  rewrite bind_run, Since_run, Hn, Hx. eexists. split; [done|]. cbn. rewrite Ht. by split_and!.
Qed.

Lemma not_ready_ends pod c t w :
  calm w → is_Some (ejs (cluster w) !! key (ej w)) →
  pods (cluster w) !! (p_Namespace pod, p_Name pod) = Some pod →
  (seconds (ReadinessDeadlineSeconds (Spec (ej w))) < Sub (now_of w) t)%Z →
  let w' := (service_not_ready pod c t w).2 in
  pods (cluster w') !! (p_Namespace pod, p_Name pod) = Some (set_p_Deleting true pod) ∧
  told PhaseFailed (key (ej w)) w'.
Proof.
  intros Hw Hs Hpod Hdl. cbn zeta. unfold service_not_ready. rewrite bind_run. cbn [gets].
  rewrite bind_run, Since_run, (proj2 (Z.ltb_lt _ _) Hdl), bind_run. unfold deletePod, DeletePod.
  rewrite ignoring_run, write_calm by done. cbn [cluster ticked set_time]. rewrite Hpod. cbn [fst snd].
  rewrite bind_run, assign_run. match goal with |- context [ending ?m ?w0] => set (w3 := w0) end. split.
  - pose proof (keeps_fixed_markFinished pods (λ _ _, eq_refl) (pods (cluster w3)) PhaseFailed PhaseFailed
      None w3 eq_refl) as Hf. unfold ending. rewrite bind_run.
    unfold markFinished. destruct (markFinishedWithReason _ _ _ w3) as [[] w4]; cbn in *; rewrite Hf; cbn;
      apply lookup_insert_eq.
  - apply ending_told. exact (markFinished_ends PhaseFailed PhaseFailed None w3 Hw Hs).
Qed.

(** A replacement has no time of its own to become ready. A pod of a Service-mode
    request that runs and is not ready yet is deleted, and the request failed, when the
    readiness deadline has passed since the first pod of the request started. *)
Theorem replacement_has_no_grace pod t w :
  calm w → is_Some (ejs (cluster w) !! key (ej w)) →
  labelled (cluster w) (Namespace (ej w)) labelJobUID (UID (ej w)) pod →
  pods (cluster w) !! (p_Namespace pod, p_Name pod) = Some pod →
  (∀ p, labelled (cluster w) (Namespace (ej w)) labelJobUID (UID (ej w)) p → p_Phase p = "Running") →
  PodName (Status (ej w)) ≠ p_Name pod → workloadReady pod = false →
  ticks w = [] → expired_at (ej w) (clk w) = false →
  StartTime (Status (ej w)) = Some t →
  (seconds (ReadinessDeadlineSeconds (Spec (ej w))) < Sub (clk w) t)%Z →
  let w' := (service_observed r pod w).2 in
  pods (cluster w') !! (p_Namespace pod, p_Name pod) = Some (set_p_Deleting true pod) ∧
  ∃ e, ejs (cluster w') !! key (ej w) = Some e ∧ Phase (Status e) = PhaseFailed.
Proof.
  intros Hw Hs Hl Hpod Hr _ Hready Ht Hx Hst Hdl. cbn zeta. unfold service_observed. rewrite (Hr pod Hl).
  change (String.eqb "Running" "Failed") with false. change (String.eqb "Running" "Succeeded") with false.
  cbv iota. rewrite bind_run. cbn [gets]. rewrite bind_run.
  destruct (AssessCapacity_calm (Namespace (ej w)) labelJobUID (UID (ej w)) w Hw)
    as (c & w1 & E1 & Hw1 & He1 & Hc1 & Ht1 & Hl1).
  assert (Hu : unmoved w (AssessCapacityBySelector (Namespace (ej w)) labelJobUID (UID (ej w)) w).2).
  { unfold AssessCapacityBySelector, assess_unscheduled, noNodeMatchesSelector, ListNodes. walk_reads. }
  pose proof (AssessCapacity_running (Namespace (ej w)) labelJobUID (UID (ej w)) w Hw
    (ex_intro _ pod Hl) Hr) as E2.
  rewrite E1 in E2, Hu |- *. cbn [fst snd] in E2, Hu. injection E2 as ->. destruct Hu as (Hcl & _).
  destruct (unexpired_check (ej w) w1) as (w2 & E3 & Hu2 & Hk2 & Ht2); [by rewrite Hl1|by rewrite Ht1|].
  rewrite bind_run, E3. cbn [cap_Ready scheduled_now negb]. pose proof Hu2 as (Hc2 & He2 & _).
  rewrite bind_run, Now_run, bind_run, Hst, Hready. cbn [mret goM_ret negb default from_option].
  assert (He3 : ej (ticked w2) = ej w) by (cbn; by rewrite He2). rewrite <-He3.
  assert (Hc3 : cluster (ticked w2) = cluster w) by (cbn; by rewrite Hc2).
  destruct (not_ready_ends pod scheduled_now t (ticked w2)) as (H1 & _ & _ & H2);
    [by apply (@steady calm _ w1)|by rewrite Hc3, He3|by rewrite Hc3| |by split].
  rewrite He3. unfold now_of. cbn. rewrite Ht2. unfold now_of. cbn. rewrite Hk2, Ht2, Ht1. cbn.
  by rewrite !Z.add_0_r.
Qed.
End liveness.
