(* ===== verification/JobWitness.v ===== *)
(** * JobWitness: the theorems on the job controller at concrete inputs.

    A library that satisfies [JobLibraryLaws], and a few clusters: a job that has
    finished, a service, a session peer and its owner, a cancelled request, a request
    without its storage endpoint. *)

From S2P Require Import Prelude.
From S2P Require Import WorkspaceStore.
From S2P Require Import JobTypes.
From S2P Require Import JobPod.
From S2P Require Import JobClientFacts.
From S2P Require Import JobPodFacts.
From S2P Require Import JobController.
From S2P Require Import JobLifecycleFacts.
From S2P Require Import JobCallbackFacts.
From S2P Require Import JobComputeFacts.
From S2P Require Import JobLivenessFacts.

Local Open Scope string_scope.

Definition digits64 : string := "0000000000000000000000000000000000000000000000000000000000000000".
#[export] Instance job_demo : JobLibrary := {|
  order_pods _ l := l;
  order_events _ l := l;
  order_env m := map_to_list m;
  Cmp a b := String.compare a b;
  sha256_hex s := str_take 64 (s +:+ digits64);
  json_output o := Some (ObjectPrefix o);
  json_payload p := Some (pl_jobId p);
  url_hostname u := Some u;
  valid_url _ := true;
  rfc3339 t := pretty t;
  made_up n := "n" +:+ pretty (Z.of_nat n);
  logs _ := None |}.

#[export] Instance job_demo_laws : JobLibraryLaws job_demo.
Proof.
  split; try done.
  - intros q. cbn. pose proof (String.compare_antisym q q) as H. by destruct (String.compare q q).
  - intros s. apply str_take_length. rewrite str_length_app. cbn. lia.
Qed.

Definition no_env (_ : string) : string := "".
Definition reconciler : EphemeralJobReconciler := mkReconciler (seconds 300) NetworkPolicyCilium false.

(** ** Requests *)

Definition a_spec (mode : string) (peer : option PeerSpec) (output : option OutputSpec)
    (cancel : bool) : EphemeralJobSpec :=
  mkEJSpec "img" [] [] {["FOO" := "bar"]} None None None output "http://caller/cb" 60 None 10 "burst" mode
    [8080%Z] "" None None "" [] [] [] [] None 600 30 3600 None "" cancel 0 None "" peer.
Definition no_status : EphemeralJobStatus :=
  mkEJStatus "" ∅ "" 0 "" "" "" None None None None "" 0.
Definition a_request (name uid : string) (sp : EphemeralJobSpec) (st : EphemeralJobStatus) : EphemeralJob :=
  mkEphemeralJob "tenant" name uid ∅ 1 0 false sp st.
Definition a_job := a_request "job" "u1" (a_spec "Job" None None false) no_status.

Definition cluster_of (l : list EphemeralJob) (js : list Job) (ps : list Pod) : Cluster :=
  mkCluster (list_to_map ((λ e, (key e, e)) <$> l))
    (list_to_map ((λ j, ((j_Namespace j, j_Name j), j)) <$> js))
    (list_to_map ((λ p, ((p_Namespace p, p_Name p), p)) <$> ps)) ∅ ∅ [] []
    {["tenant" := {[fleetIDLabel := "acme"]}]} ∅.
Definition world_of (e : EphemeralJob) (c : Cluster) (t : Z) : World := mkWorld c e t [] [] [] [] 0.

Lemma pod_posture_witness :
  ∃ p, ResolvePlacement (PlacementClass (Spec a_job)) = Some p ∧
  ∃ pod w', buildPod no_env a_job p (world_of a_job (cluster_of [a_job] [] []) 0) = (Ok pod, w') ∧
    hardened (p_Spec pod).
Proof.
  eexists. split; [vm_compute; reflexivity|].
  destruct (pod_posture no_env a_job "job" _ (world_of a_job (cluster_of [a_job] [] []) 0) eq_refl)
    as [(pod & w' & E & Hh & _) _]. by exists pod, w'.
Defined.

Lemma pod_resources_filled_witness :
  ∃ p workload, ResolvePlacement "burst" = Some p ∧
    head (ps_Containers (pod_of no_env a_job p "acme")) = Some workload ∧ filled ∅ ∅ workload.
Proof.
  assert (∃ p, ResolvePlacement "burst" = Some p) as [p Hp] by (vm_compute; by eexists).
  destruct (pod_resources_filled no_env a_job p "acme") as ((workload & H1 & H2) & _).
  by exists p, workload.
Defined.

Lemma workload_env_stated_witness :
  ∃ p workload, ResolvePlacement "burst" = Some p ∧
    head (ps_Containers (pod_of no_env a_job p "acme")) = Some workload ∧
    literal "FOO" "bar" ∈ c_Env workload.
Proof.
  assert (∃ p, ResolvePlacement "burst" = Some p) as [p Hp] by (vm_compute; by eexists).
  destruct (head (ps_Containers (pod_of no_env a_job p "acme"))) as [workload|] eqn:E; [|discriminate E].
  exists p, workload. split_and!; [done|exact E|].
  apply (workload_env_stated no_env a_job p "acme" workload E). vm_compute. reflexivity.
Defined.

(** ** The sync agent *)

Definition a_persistence : WorkspacePersistenceSpec :=
  mkWorkspacePersistence "ws" "app" None None "" (Some 70%Z) false "" true false false ["a"; "b"].
Definition no_objects (_ : EnvSource) : option string := None.

Lemma sync_config_roundtrip_witness :
  let env := c_Env (workspaceSyncContainerFor no_env a_persistence (resolveKeepCheckpoints a_persistence)
                      "tenant" "acme" (session_target a_persistence)) in
  let c := (WorkspaceStore.FromEnv (container_getenv no_objects env)).1 in
  WorkspaceStore.c_WorkspaceID c = "ws" ∧ WorkspaceStore.c_PinnedCheckpoints c = ["a"; "b"] ∧
  WorkspaceStore.keep (WorkspaceStore.New c) = 50%Z.
Proof.
  cbn zeta.
  destruct (sync_config_roundtrip no_env a_persistence "tenant" "acme" (session_target a_persistence)
              no_objects) as (H1 & _ & _ & _ & _ & _ & H2 & H3 & _); [done..| |].
  { repeat constructor; done. }
  rewrite H1, H2, H3. by split_and!.
Defined.

(** ** A job that has finished *)

Definition finished_job : Job :=
  mkJob "tenant" (jobNameFor a_job) "j1" ∅ (Some "u1") false 0 true 0 ∅
    (mkPodSpec "" None ∅ [] "" "" None None false [] [] [] [] None None)
    [mkJobCondition JobComplete "True" "" ""].
Definition finished_world : World :=
  world_of a_job (cluster_of [a_job] [finished_job] []) (seconds 100).

Lemma well_kept_one (e : EphemeralJob) js ps :
  sound e (Status e) → well_kept (cluster_of [e] js ps).
Proof.
  intros Hs k e' Hk. cbn in Hk. rewrite lookup_insert in Hk. case_decide; [|by rewrite lookup_empty in Hk].
  by simplify_eq.
Qed.
Lemma no_status_sound e : sound e no_status.
Proof. split; [|done]. vm_compute. repeat constructor. Qed.



Definition refusing : World :=
  mkWorld (cluster_of [a_job] [finished_job] []) a_job (seconds 100) [] [] [StatusCode 503] [] 0.
Lemma failed_announcement_lost_witness :
  ∃ err w', markFinished PhaseSucceeded (Some 0%Z) refusing = (Err err, w') ∧
    length (posts w') = 1%nat ∧
    posts (Reconcile no_env reconciler "tenant" "job" w').2 = posts w'.
Proof.
  assert (Hs : ejs (cluster refusing) !! key (ej refusing) = Some (ej refusing)) by (vm_compute; reflexivity).
  destruct (failed_announcement_lost no_env reconciler PhaseSucceeded (Some 0%Z) refusing 503 []
    eq_refl eq_refl eq_refl ltac:(lia) Hs ltac:(discriminate) eq_refl (λ p, ex_intro _ _ eq_refl) eq_refl)
    as (err & w' & e' & H1 & H2 & _ & _ & _ & H3).
  exists err, w'. split_and!; [done..|]. by apply H3.
Defined.

Lemma finished_work_kept_witness :
  jobs (cluster (Reconcile no_env reconciler "tenant" "job"
    (mkWorld (cluster finished_world) a_job (seconds 100) [1%N]
       [Fine; Fine; FailBefore (mkError OtherError "timeout")] [] [] 0)).2) !! own_key a_job
  = Some finished_job.
Proof.
  rewrite (finished_work_kept no_env reconciler "tenant" "job" _ a_job finished_job);
    vm_compute; reflexivity.
Defined.

(** ** Capacity *)

Definition burst_pod_spec : PodSpec :=
  mkPodSpec "" None {["pool" := "burst"]} [] "" "" None None false [] [] [] [] None None.
Definition waiting_pod : Pod :=
  mkPod "tenant" "p1" {["job-name" := "job"]} None false burst_pod_spec "Pending" [] [] [] "".
Definition waiting_world : World := world_of a_job (cluster_of [a_job] [] [waiting_pod]) 0.
Lemma AssessCapacity_grounded_witness :
  ∃ c w', AssessCapacityBySelector "tenant" "job-name" "job" waiting_world = (Ok c, w') ∧
    cap_Reason c = ReasonPlacementUnsatisfiable ∧ unmoved waiting_world w'.
Proof.
  eexists. eexists. split; [vm_compute; reflexivity|]. split; [reflexivity|].
  refine (proj1 (AssessCapacity_grounded "tenant" "job-name" "job" waiting_world _ _ _)).
  vm_compute. reflexivity.
Defined.

(** ** A session peer *)

Definition an_owner := a_request "owner" "u2" (a_spec "Service" None None false) no_status.
Definition a_peer := a_request "peer" "u3"
  (a_spec "Job" (Some (mkPeerSpec "owner" 8080 8080)) None false) no_status.
Definition with_storage (c : Cluster) : Cluster :=
  mkCluster (ejs c) (jobs c) (pods c) (services c) (policies c) (nodes c) (events c) (namespaces c)
    {[("tenant", resolveWorkspaceSyncConfig no_env "tenant" "acme") := {["S3_ENDPOINT_URL" := "s3.example"]}]}.
Definition peer_world : World :=
  world_of a_peer (with_storage (cluster_of [a_peer; an_owner] [] [])) 0.
Lemma peer_policies_first_witness :
  let w' := (Reconcile no_env reconciler "tenant" "peer" peer_world).2 in
  size (jobs (cluster w')) = 1%nat ∧
  ∃ owner host, Forall (in_place (cluster w') "tenant") (peer_pair a_peer owner (mkPeerSpec "owner" 8080 8080) host).
Proof.
  cbn zeta. split; [vm_compute; reflexivity|].
  assert (Hs : ejs (cluster peer_world) !! ("tenant", "peer") = Some a_peer) by (vm_compute; reflexivity).
  destruct (peer_policies_first no_env reconciler "tenant" "peer" peer_world a_peer
    (mkPeerSpec "owner" 8080 8080) Hs eq_refl eq_refl eq_refl eq_refl)
    as [[_ H]|(owner & host & _ & H)]; [|by exists owner, host].
  exfalso. apply (f_equal size) in H. vm_compute in H. discriminate H.
Defined.

(** ** The lifetime *)

(** A run that goes back to the live request every other step, each time later. *)
Definition run_base (k : nat) : World := world_of a_job (cluster_of [a_job] [] []) (Z.of_nat k).
Definition a_run (n : nat) : World :=
  if Nat.even n then run_base (Nat.div2 n)
  else (Reconcile no_env reconciler "tenant" "job" (run_base (Nat.div2 n))).2.

Lemma run_base_stored k e :
  ejs (cluster (run_base k)) !! ("tenant", "job") = Some e → e = a_job.
Proof. intros H. assert (ejs (cluster (run_base k)) !! ("tenant", "job") = Some a_job) by done. congruence. Qed.

Lemma a_run_stored n e :
  ejs (cluster (a_run n)) !! ("tenant", "job") = Some e → e = set_Status (Status e) a_job.
Proof.
  unfold a_run. destruct (Nat.even n); [intros ->%run_base_stored; reflexivity|].
  destruct (Reconcile_passed no_env reconciler "tenant" "job" (run_base (Nat.div2 n))) as [_ Hp]; [done| |].
  { apply (well_kept_one a_job), no_status_sound. }
  destruct Hp as [-> _|x Hx Hk (_ & -> & _) _|x s l Hx Hk _ _ _ -> _ _].
  - intros ->%run_base_stored. reflexivity.
  - rewrite <-Hk, lookup_delete_eq. done.
  - rewrite lookup_insert_eq. intros [= <-]. apply run_base_stored in Hx as ->. reflexivity.
Qed.

Lemma lifetime_bounds_request_witness : ∃ n, over ("tenant", "job") (cluster (a_run n)).
Proof.
  apply (lifetime_bounds_request no_env reconciler a_run "tenant" "job" 0 3600).
  - intros n e He. rewrite (a_run_stored n e He). by split_and!.
  - done.
  - intros t. exists (2 * Z.to_nat t)%nat. unfold a_run.
    rewrite Nat.even_succ, <-Nat.negb_even, Nat.even_mul, Nat.div2_succ_double, Nat.div2_double. cbn [orb negb Nat.even].
    split_and!; [cbn; lia|done|]. intros e ->%run_base_stored. split_and!; [done| |done..].
    intros n ns pre _. apply lookup_empty.
Defined.

(** ** Where a request does not come to its end *)

Definition storing := a_request "job" "u1" (a_spec "Job" None (Some (mkOutputSpec "out")) false) no_status.
Definition stalled_world : World := world_of storing (cluster_of [storing] [] []) (seconds 360000).
Lemma storage_endpoint_stalls_witness :
  ∃ err w', Reconcile no_env reconciler "tenant" "job" stalled_world = (Err err, w') ∧
    cluster w' = cluster stalled_world.
Proof.
  destruct (storage_endpoint_stalls no_env reconciler "tenant" "job" storing stalled_world)
    as (err & w' & H1 & H2 & _); [done..|]. by exists err, w'.
Defined.

Definition cancelling := a_request "job" "u1" (a_spec "Service" None None true) no_status.
Definition serving_pod : Pod :=
  mkPod "tenant" "p2" {[labelJobUID := "u1"]} (Some "u1") false burst_pod_spec "Running" [] [] [] "".
Definition cancelled_world : World := world_of cancelling (cluster_of [cancelling] [] [serving_pod]) 0.
Lemma cancel_keeps_compute_witness :
  pods (cluster (Reconcile no_env reconciler "tenant" "job"
    (Nat.iter 5 (λ w, (Reconcile no_env reconciler "tenant" "job" w).2) cancelled_world)).2)
  !! ("tenant", "p2") = Some serving_pod.
Proof.
  destruct (cancel_keeps_compute no_env reconciler "tenant" "job" ∅ (pods (cluster cancelled_world)) 5
              cancelled_world) as (_ & H & _).
  - split_and!; [done..|]. exists cancelling. by split_and!.
  - rewrite H. reflexivity.
Defined.

Definition served_before := a_request "job" "u1" (a_spec "Service" None None false)
  (mkEJStatus PhaseRunning ∅ "" 0 "" "p1" "" (Some (seconds 50)) (Some (seconds 10)) None None "" 1).
Definition replaced_world : World :=
  world_of served_before (cluster_of [served_before] [] [serving_pod]) (seconds 60).
Lemma replacement_has_no_grace_witness :
  ∃ e, ejs (cluster (service_observed reconciler serving_pod replaced_world).2) !! ("tenant", "job") = Some e ∧
       Phase (Status e) = PhaseFailed.
Proof.
  assert (Hp : ∀ p, labelled (cluster replaced_world) "tenant" labelJobUID "u1" p ↔ p = serving_pod).
  { intros p. split; [|intros ->; split_and!; [by exists ("tenant", "p2")|done..]].
    intros ([k Hk] & _). cbn in Hk. rewrite lookup_insert in Hk. case_decide; [by simplify_eq|].
    by rewrite lookup_empty in Hk. }
  refine (proj2 (replacement_has_no_grace reconciler serving_pod (seconds 10) replaced_world
    eq_refl (ex_intro _ served_before eq_refl) (proj2 (Hp _) eq_refl) eq_refl _ _ eq_refl eq_refl eq_refl
    eq_refl _)).
  - intros p ->%Hp. reflexivity.
  - discriminate.
  - vm_compute. reflexivity.
Defined.
