(* ===== verification/BootstrapGraph.v ===== *)
(** * BootstrapGraph: the boundaries of Day-0 and what they need of each other.

    Models internal/kakt-cli/bootstrap/boundaries.go (the contracts, their table and
    its validation) and boundary_graph.go (the graph of capabilities and the search
    for a cycle). The work of a step is of a type [R] of its own: what a table must
    satisfy does not depend on what its steps do. *)

From S2P Require Import Prelude.

Local Open Scope string_scope.

(** ** boundaries.go *)

Record namedStep (R : Type) := mkStep { capability : string; what : string; run : R }.
Arguments mkStep {R}.
Arguments capability {R}.
Arguments what {R}.
Arguments run {R}.

Record readiness (R : Type) := mkReadiness {
  checks : list (namedStep R);
  because : string;
  declared : bool }.
Arguments mkReadiness {R}.
Arguments checks {R}.
Arguments because {R}.
Arguments declared {R}.

Record boundaryContract (R : Type) := mkContract {
  number : Z;
  label : string;
  activates : bool;
  refreshesSchema : bool;
  prepare : option (namedStep R);
  c_requires : readiness R;
  c_readiness : readiness R }.
Arguments mkContract {R}.
Arguments number {R}.
Arguments label {R}.
Arguments activates {R}.
Arguments refreshesSchema {R}.
Arguments prepare {R}.
Arguments c_requires {R}.
Arguments c_readiness {R}.

Definition asserts {R} (cs : list (namedStep R)) : readiness R := mkReadiness cs "" true.
Definition assertsNothingBecause {R} (reason : string) : readiness R := mkReadiness [] reason true.
Definition requires {R} (cs : list (namedStep R)) : readiness R := mkReadiness cs "" true.
Definition requiresNothingBecause {R} (reason : string) : readiness R := mkReadiness [] reason true.
Definition checkNamed {R} (w : string) (r : R) : namedStep R := mkStep "" w r.
Definition check {R} (c : string) (r : R) : namedStep R := mkStep c c r.

Definition capOperatorsReady := "platform operators and CRDs".
Definition capBootstrapDatabase := "the bootstrap database accepts connections".
Definition capDatabaseRoles := "the platform's database roles exist".
Definition capIdentityProvider := "the identity provider serves".

(** The steps the table names. *)
Record BoundarySteps (R : Type) := mkSteps {
  st_waitForOperators : R;
  st_waitForCRDs : R;
  st_waitForOperatorPods : R;
  st_awaitBootstrapDatabaseReady : R;
  st_prepareZitadelForRetry : R;
  st_awaitDatabaseRolesProvisioned : R;
  st_awaitZitadelReady : R }.
Arguments mkSteps {R}.
Arguments st_waitForOperators {R}.
Arguments st_waitForCRDs {R}.
Arguments st_waitForOperatorPods {R}.
Arguments st_awaitBootstrapDatabaseReady {R}.
Arguments st_prepareZitadelForRetry {R}.
Arguments st_awaitDatabaseRolesProvisioned {R}.
Arguments st_awaitZitadelReady {R}.

Definition boundaryContracts {R} (s : BoundarySteps R) : list (boundaryContract R) :=
  [mkContract 1 "01-platform-infra" false false None
     (requiresNothingBecause "the first boundary. The seed has activated it and the phases before it created the cluster; there is no earlier boundary to depend on.")
     (asserts [check capOperatorsReady (st_waitForOperators s);
               checkNamed "CRDs are queryable" (st_waitForCRDs s);
               checkNamed "operator pods are Ready" (st_waitForOperatorPods s)]);
   mkContract 2 "02-platform-data" true false None
     (requiresNothingBecause "boundary 01 guarantees the operators and CRDs this boundary's objects are reconciled by; nothing else is needed to start.")
     (asserts [check capBootstrapDatabase (st_awaitBootstrapDatabaseReady s)]);
   mkContract 3 "03-platform-services" true true None
     (requiresNothingBecause "boundary 02 guarantees the database these services connect to. What they then DO with it is gated by phase 11f, not here.")
     (assertsNothingBecause "the services this boundary deploys cannot complete their own work until phase 11f supplies the Infisical credential they authenticate with. Their deployment is what this boundary guarantees; what they produce is required by boundary 04 and waited for there.");
   mkContract 4 "04-tenant-services" true false
     (Some (mkStep "" "clear anything blocking Zitadel's hooks" (st_prepareZitadelForRetry s)))
     (requires [check capDatabaseRoles (st_awaitDatabaseRolesProvisioned s)])
     (asserts [check capIdentityProvider (st_awaitZitadelReady s)]);
   mkContract 5 "05-tenant-app" true true None
     (requiresNothingBecause "the application's provisioning reads the credentials and CRDs earlier boundaries guarantee; nothing further is needed to begin.")
     (assertsNothingBecause "spoke provisioning is asynchronous by design (ADR-047): a spoke takes longer to build than Day-0 runs, and the fleet converges after bootstrap rather than within it. Gating here would make every bootstrap wait for machines that the tenant can watch converge.");
   mkContract 6 "06-tenant-public-tls" true false None
     (requiresNothingBecause "issuance depends on DNS and the ACME issuer, both outside this sequence; no earlier boundary gates it.")
     (assertsNothingBecause "public certificates are issued by ACME against DNS this box has just published, on the issuer's schedule and not the platform's. A box serves on its internal PKI meanwhile, so nothing downstream of Day-0 waits on them.")].

Definition contractFor {R} (cs : list (boundaryContract R)) (n : Z) : result string (boundaryContract R) :=
  match head (filter (λ c, number c = n) cs) with
  | Some c => Ok c
  | None => Err ("boundary " +:+ pretty n +:+ " has no declared contract")
  end.

(** What is wrong with one contract, the first fault in the order of the cases. *)
Definition contract_fault {R} (seen : gset Z) (c : boundaryContract R) : option string :=
  let b := "boundary " +:+ pretty (number c) in
  let req := c_requires c in
  let rdy := c_readiness c in
  if (number c <? 1)%Z then Some "boundary contract with no number"
  else if decide (number c ∈ seen) then Some (b +:+ " declared twice")
  else if String.eqb (label c) "" then Some (b +:+ " has no label")
  else if negb (declared req)
  then Some (b +:+ " declares no precondition: use requires(...) or requiresNothingBecause(...)")
  else if bool_decide (checks req = []) && String.eqb (because req) ""
  then Some (b +:+ " requires nothing and gives no reason")
  else if negb (bool_decide (checks req = [])) && negb (String.eqb (because req) "")
  then Some (b +:+ " both requires and waives; pick one")
  else if negb (declared rdy)
  then Some (b +:+ " declares no readiness: use asserts(...) or assertsNothingBecause(...)")
  else if bool_decide (checks rdy = []) && String.eqb (because rdy) ""
  then Some (b +:+ " asserts nothing and gives no reason")
  else if negb (bool_decide (checks rdy = [])) && negb (String.eqb (because rdy) "")
  then Some (b +:+ " both asserts and waives; pick one")
  else None.
(** The loop over the table: the numbers seen, or the first fault. *)
Fixpoint contracts_seen {R} (seen : gset Z) (cs : list (boundaryContract R)) : result string (gset Z) :=
  match cs with
  | [] => Ok seen
  | c :: cs =>
      match contract_fault seen c with
      | Some e => Err e
      | None => contracts_seen ({[number c]} ∪ seen) cs
      end
  end.
Definition validateBoundaryContracts {R} (cs : list (boundaryContract R)) : result string unit :=
  match contracts_seen ∅ cs with
  | Err e => Err e
  | Ok seen =>
      match filter (λ n, n ∉ seen) (seqZ 1 (Z.of_nat (length cs))) with
      | [] => Ok ()
      | n :: _ => Err ("boundary " +:+ pretty n +:+ " is not declared; every boundary the platform activates must answer this contract")
      end
  end.

(** ** boundary_graph.go *)

Record boundaryEdge := mkEdge { from : Z; to : Z; via : string }.

(** [producer]: the boundary that yields a capability; the last one declared. *)
Definition producer {R} (cs : list (boundaryContract R)) : gmap string Z :=
  foldl (λ m c, foldl (λ m k, if String.eqb (capability k) "" then m
                              else <[capability k := number c]> m)
                  m (checks (c_readiness c))) ∅ cs.

Definition required_edges {R} (p : gmap string Z) (c : boundaryContract R) : list boundaryEdge :=
  omap (λ k, if String.eqb (capability k) "" then None
             else (λ n, mkEdge n (number c) (capability k)) <$> p !! capability k)
    (checks (c_requires c)).

Definition edge_le (a b : boundaryEdge) : Prop :=
  (from a < from b)%Z ∨ (from a = from b ∧ (to a ≤ to b)%Z).

(** sort.Slice is not stable: what it does with edges of equal ends is its own. *)
Class EdgeSort := sort_edges : list boundaryEdge → list boundaryEdge.
Class EdgeSortLaws (S : EdgeSort) := {
  sort_edges_perm l : sort_edges l ≡ₚ l;
  sort_edges_sorted l : Sorted edge_le (sort_edges l) }.

Section graph.
Context {S : EdgeSort} {R : Type}.

Definition dependencyEdges (cs : list (boundaryContract R)) : list boundaryEdge :=
  sort_edges (cs ≫= required_edges (producer cs)).
End graph.

Inductive colour := White | Grey | Black.
#[export] Instance colour_eq_dec : EqDecision colour.
Proof. solve_decision. Defined.
Definition colour_of (m : gmap Z colour) (n : Z) : colour := default White (m !! n).

(** The stack from the first [m] on. *)
Fixpoint stack_from (m : Z) (stack : list Z) : list Z :=
  match stack with
  | [] => []
  | x :: rest => if (x =? m)%Z then stack else stack_from m rest
  end.

(** The neighbours of a node; [visit] is the call on a white one. *)
Fixpoint visit_each (visit : Z → gmap Z colour → option (list Z) * gmap Z colour)
    (stack ms : list Z) (c : gmap Z colour) : option (list Z) * gmap Z colour :=
  match ms with
  | [] => (None, c)
  | m :: ms =>
      match colour_of c m with
      | Grey => (Some (stack_from m stack), c)
      | White =>
          match visit m c with
          | (Some found, c) => (Some found, c)
          | (None, c) => visit_each visit stack ms c
          end
      | Black => visit_each visit stack ms c
      end
  end.

Section search.
Context (edges : list boundaryEdge).

Definition adj (n : Z) : list Z := to <$> filter (λ e, from e = n) edges.

(** [fuel] bounds the depth, which is at most the number of nodes. *)
Fixpoint visit (fuel : nat) (stack : list Z) (n : Z) (c : gmap Z colour) :
    option (list Z) * gmap Z colour :=
  match fuel with
  | O => (None, c)
  | S fuel =>
      let stack := (stack ++ [n])%list in
      match visit_each (visit fuel stack) stack (adj n) (<[n := Grey]> c) with
      | (Some found, c) => (Some found, c)
      | (None, c) => (None, <[n := Black]> c)
      end
  end.

Definition graph_nodes : gset Z := list_to_set ((from <$> edges) ++ (to <$> edges)).
Fixpoint visit_roots (ns : list Z) (c : gmap Z colour) : option (list Z) :=
  match ns with
  | [] => None
  | n :: ns =>
      if decide (colour_of c n = White) then
        match visit (size graph_nodes) [] n c with
        | (Some found, _) => Some found
        | (None, c) => visit_roots ns c
        end
      else visit_roots ns c
  end.
Definition findCycle : option (list Z) :=
  visit_roots (merge_sort Z.le (elements graph_nodes)) ∅.

(** The capability on the hop from [a] to [b]. *)
Definition hop (a b : Z) : string :=
  match head (filter (λ e, from e = a ∧ to e = b) edges) with Some e => via e | None => "" end.
Definition renderCycle (cycle : list Z) : string :=
  let first := default 0%Z (head cycle) in
  String.concat "" (zip_with (λ a b,
      "boundary " +:+ pretty a +:+ " ──(" +:+ hop a b +:+ ")──> ") cycle (tail cycle ++ [first])%list)
  +:+ "boundary " +:+ pretty first.
End search.

Definition validateBoundaryGraph `{EdgeSort} {R} (cs : list (boundaryContract R)) : result string unit :=
  let edges := dependencyEdges cs in
  match findCycle edges with
  | Some cycle =>
      Err ("the boundaries depend on each other in a cycle that no ordering can satisfy: "
           +:+ renderCycle edges cycle)
  | None =>
      match head (filter (λ e, (to e ≤ from e)%Z) edges) with
      | Some e =>
          Err ("boundary " +:+ pretty (to e) +:+ " requires " +:+ quoted (via e) +:+ ", which boundary "
               +:+ pretty (from e) +:+ " produces. Boundaries run in order, so " +:+ pretty (from e)
               +:+ " has not run when " +:+ pretty (to e) +:+ " starts")
      | None => Ok ()
      end
  end.
