(* ===== verification/BootstrapGraphFacts.v ===== *)
(** * BootstrapGraphFacts: the checks of the boundary table decide what they mean to.

    The depth-first search of [findCycle] against the definition of a cycle, and what a
    table that passes both validations guarantees of the order of the boundaries. *)

From S2P Require Import Prelude.
From S2P Require Import BootstrapGraph.

(** ** Cycles *)

Section cycles.
Context (edges : list boundaryEdge).
Implicit Types (c : gmap Z colour) (stack : list Z).

Definition edge_to (a b : Z) : Prop := b ∈ adj edges a.

(** [ns] goes round: each node has an edge to the next and the last one to the first. *)
Definition is_cycle (ns : list Z) : Prop :=
  ∃ x rest, ns = x :: rest ∧ Sorted edge_to (ns ++ [x])%list.

Lemma edge_to_edge a b : edge_to a b ↔ ∃ e, e ∈ edges ∧ from e = a ∧ to e = b.
Proof.
  unfold edge_to, adj. rewrite list_elem_of_fmap.
  setoid_rewrite list_elem_of_filter. naive_solver.
Qed.

Lemma edge_to_node a b : edge_to a b → b ∈ graph_nodes edges.
Proof.
  intros (e & He & _ & <-)%edge_to_edge. unfold graph_nodes.
  rewrite elem_of_list_to_set, elem_of_app. right. by apply list_elem_of_fmap_2.
Qed.
Lemma edge_from_node a b : edge_to a b → a ∈ graph_nodes edges.
Proof.
  intros (e & He & <- & _)%edge_to_edge. unfold graph_nodes.
  rewrite elem_of_list_to_set, elem_of_app. left. by apply list_elem_of_fmap_2.
Qed.

(** A path followed by one more node. *)
Lemma Sorted_snoc (R : relation Z) l x y :
  Sorted R (l ++ [x]) → R x y → Sorted R ((l ++ [x]) ++ [y]).
Proof.
  induction l as [|z l IH]; cbn; intros Hs Hxy.
  - repeat constructor; done.
  - inversion Hs as [|? ? Hs' Hhd]; subst. constructor; [by apply IH|].
    destruct l; cbn in *; inversion Hhd; by constructor.
Qed.

Lemma Sorted_app_r (R : relation Z) l k : Sorted R (l ++ k) → Sorted R k.
Proof. induction l; cbn; [done|]. inversion 1; auto. Qed.

Lemma stack_from_suffix m stack :
  m ∈ stack → ∃ pre rest, stack = (pre ++ m :: rest)%list ∧ stack_from m stack = m :: rest.
Proof.
  induction stack as [|x stack IH]; [by intros ?%not_elem_of_nil|].
  intros Hm. cbn. destruct (x =? m)%Z eqn:E.
  - apply Z.eqb_eq in E as ->. by exists [], stack.
  - apply Z.eqb_neq in E. apply elem_of_cons in Hm as [-> | Hm]; [done|].
    destruct (IH Hm) as (pre & rest & -> & Hs). exists (x :: pre), rest. by rewrite Hs.
Qed.

(** ** The invariant of the search *)

Definition white_nodes c : gset Z := filter (λ n, colour_of c n = White) (graph_nodes edges).

Record search_inv stack c : Prop := {
  si_grey n : colour_of c n = Grey ↔ n ∈ stack;
  si_nodup : NoDup stack;
  si_path : Sorted edge_to stack;
  si_black n : colour_of c n = Black → Acc (flip edge_to) n }.

(** What a call that found nothing leaves: what was black stays so, nothing turns white. *)
Record quiet c c' : Prop := {
  q_black n : colour_of c n = Black → colour_of c' n = Black;
  q_white n : colour_of c' n = White → colour_of c n = White }.

Lemma quiet_refl c : quiet c c.
Proof. by split. Qed.
Lemma quiet_trans c1 c2 c3 : quiet c1 c2 → quiet c2 c3 → quiet c1 c3.
Proof. intros [] []. split; auto. Qed.

Lemma white_nodes_mono c c' : quiet c c' → white_nodes c' ⊆ white_nodes c.
Proof. intros Hq n. unfold white_nodes. rewrite !elem_of_filter. intros [? ?]. split; [by apply Hq|done]. Qed.

Definition cycle_found (ns : list Z) : Prop := is_cycle ns ∧ NoDup ns.

(** The contract of a call on the node [n] below [stack]. *)
Definition visit_ok stack n c (r : option (list Z) * gmap Z colour) : Prop :=
  match r with
  | (Some ns, _) => cycle_found ns
  | (None, c') => search_inv stack c' ∧ quiet c c' ∧ colour_of c' n = Black
  end.

Lemma colour_of_insert c n k m :
  colour_of (<[n := k]> c) m = if decide (m = n) then k else colour_of c m.
Proof.
  unfold colour_of. destruct (decide (m = n)) as [-> | Hne].
  - by rewrite lookup_insert_eq.
  - by rewrite lookup_insert_ne.
Qed.

Lemma back_edge_cycle stack n m c :
  search_inv (stack ++ [n])%list c → edge_to n m → colour_of c m = Grey →
  cycle_found (stack_from m (stack ++ [n])%list).
Proof.
  intros [Hg Hnd Hp _] Hnm Hm%Hg.
  destruct (stack_from_suffix _ _ Hm) as (pre & rest & Heq & ->).
  assert (Hs : Sorted edge_to ((pre ++ m :: rest) ++ [m])%list).
  { rewrite <-Heq. apply Sorted_snoc; done. }
  split.
  - exists m, rest. split; [done|]. rewrite <-app_assoc in Hs. by eapply Sorted_app_r.
  - rewrite Heq in Hnd. by apply NoDup_app in Hnd as (_ & _ & ?).
Qed.

(** The loop over the successors [ms] of [n], given the contract of the calls it makes. *)
Lemma visit_each_ok (v : Z → gmap Z colour → option (list Z) * gmap Z colour) stack n k ms c :
  (∀ m c, edge_to n m → colour_of c m = White → size (white_nodes c) ≤ k →
     search_inv (stack ++ [n])%list c → visit_ok (stack ++ [n])%list m c (v m c)) →
  (∀ m, m ∈ ms → edge_to n m) →
  size (white_nodes c) ≤ k →
  search_inv (stack ++ [n])%list c →
  match visit_each v (stack ++ [n])%list ms c with
  | (Some ns, _) => cycle_found ns
  | (None, c') => search_inv (stack ++ [n])%list c' ∧ quiet c c'
                  ∧ (∀ m, m ∈ ms → colour_of c' m = Black)
  end.
Proof.
  intros Hv. revert c. induction ms as [|m ms IH]; intros c Hms Hk Hi; cbn [visit_each].
  { split_and!; [done|apply quiet_refl|by intros ? ?%not_elem_of_nil]. }
  assert (Hnm : edge_to n m) by (apply Hms; left).
  assert (Hms' : ∀ m', m' ∈ ms → edge_to n m') by (intros; apply Hms; by right).
  destruct (colour_of c m) eqn:Hc.
  - pose proof (Hv m c Hnm Hc Hk Hi) as Hm.
    destruct (v m c) as [[ns|] c1]; [done|]. destruct Hm as (Hi1 & Hq1 & Hb1).
    assert (Hk1 : size (white_nodes c1) ≤ k).
    { etrans; [apply subseteq_size, (white_nodes_mono _ _ Hq1)|done]. }
    specialize (IH c1 Hms' Hk1 Hi1).
    destruct (visit_each v _ ms c1) as [[ns|] c2]; [done|].
    destruct IH as (Hi2 & Hq2 & Hb2). split_and!; [done|by eapply quiet_trans|].
    intros m' [-> | ?]%elem_of_cons; [by apply Hq2|auto].
  - by eapply back_edge_cycle.
  - specialize (IH c Hms' Hk Hi).
    destruct (visit_each v _ ms c) as [[ns|] c2]; [done|].
    destruct IH as (Hi2 & Hq2 & Hb2). split_and!; [done|done|].
    intros m' [-> | ?]%elem_of_cons; [by apply Hq2|auto].
Qed.

(** Entering a white node. *)
Lemma search_inv_enter stack n c :
  search_inv stack c → colour_of c n = White →
  (∀ p, last stack = Some p → edge_to p n) →
  search_inv (stack ++ [n])%list (<[n := Grey]> c).
Proof.
  intros [Hg Hnd Hp Hb] Hn Hlast. split.
  - intros m. rewrite colour_of_insert, elem_of_app, list_elem_of_singleton.
    case_decide; [naive_solver|]. rewrite Hg. naive_solver.
  - apply NoDup_app. split_and!; [done| |apply NoDup_singleton].
    intros m Hm%Hg ->%list_elem_of_singleton. congruence.
  - destruct stack as [|p stack _] using rev_ind; [repeat constructor|].
    apply Sorted_snoc; [done|]. apply Hlast. by rewrite last_snoc.
  - intros m. rewrite colour_of_insert. case_decide; [done|]. apply Hb.
Qed.

(** Leaving it with every successor black. *)
Lemma search_inv_leave stack n c :
  search_inv (stack ++ [n])%list c → (∀ m, edge_to n m → colour_of c m = Black) →
  search_inv stack (<[n := Black]> c).
Proof.
  intros [Hg Hnd Hp Hb] Hsucc. apply NoDup_app in Hnd as (Hnd & Hdis & _). split.
  - intros m. rewrite colour_of_insert. case_decide as E.
    + subst. split; [done|]. intros Hm. destruct (Hdis _ Hm). by apply list_elem_of_singleton.
    + rewrite Hg, elem_of_app, list_elem_of_singleton. naive_solver.
  - done.
  - clear -Hp. induction stack as [|x stack IH]; [constructor|].
    cbn in Hp. inversion Hp as [|? ? Hs Hhd]; subst. constructor; [auto|].
    destruct stack; [constructor|]. cbn in Hhd. inversion Hhd. by constructor.
  - intros m. rewrite colour_of_insert. case_decide; [|apply Hb]. subst.
    intros _. constructor. intros m Hm. apply Hb. by apply Hsucc.
Qed.

Lemma white_nodes_enter n c :
  colour_of c n = White → n ∈ graph_nodes edges →
  size (white_nodes (<[n := Grey]> c)) < size (white_nodes c).
Proof.
  intros Hc Hn. apply subset_size. split.
  - intros m. unfold white_nodes. rewrite !elem_of_filter, colour_of_insert.
    case_decide; naive_solver.
  - intros Hsub. assert (n ∈ white_nodes (<[n:=Grey]> c)) as Hin.
    { apply Hsub. unfold white_nodes. by rewrite elem_of_filter. }
    unfold white_nodes in Hin. rewrite elem_of_filter, colour_of_insert, decide_True in Hin by done.
    by destruct Hin.
Qed.

(** Fuel for the white nodes is fuel enough. *)
Lemma visit_ok_holds fuel stack n c :
  search_inv stack c → colour_of c n = White → n ∈ graph_nodes edges →
  (∀ p, last stack = Some p → edge_to p n) →
  size (white_nodes c) ≤ fuel →
  visit_ok stack n c (visit edges fuel stack n c).
Proof.
  revert stack n c. induction fuel as [|fuel IH]; intros stack n c Hi Hc Hn Hl Hk.
  { pose proof (white_nodes_enter n c Hc Hn). lia. }
  pose proof (white_nodes_enter n c Hc Hn) as Hlt. cbn [visit].
  pose proof (search_inv_enter stack n c Hi Hc Hl) as Hi1.
  assert (Hv : ∀ m c', edge_to n m → colour_of c' m = White → size (white_nodes c') ≤ fuel →
    search_inv (stack ++ [n])%list c' →
    visit_ok (stack ++ [n])%list m c' (visit edges fuel (stack ++ [n])%list m c')).
  { intros m c' Hnm Hc' Hk' Hi'. apply IH; try done; [by eapply edge_to_node|].
    intros p. rewrite last_snoc. by intros [= <-]. }
  pose proof (visit_each_ok _ stack n fuel (adj edges n) (<[n := Grey]> c) Hv
    (λ m Hm, Hm) ltac:(lia) Hi1) as H.
  destruct (visit_each _ _ _ _) as [[ns|] c2]; [done|].
  destruct H as (Hi2 & Hq2 & Hb2). split_and!.
  - by apply search_inv_leave.
  - split; intros m; rewrite colour_of_insert.
    + intros Hm. case_decide; [done|]. apply Hq2. by rewrite colour_of_insert, decide_False.
    + case_decide; [done|]. intros Hm%Hq2. by rewrite colour_of_insert, decide_False in Hm.
  - by rewrite colour_of_insert, decide_True.
Qed.

(** The roots in turn: a cycle, or every node has been blackened. *)
Lemma visit_roots_ok ns c :
  (∀ n, n ∈ ns → n ∈ graph_nodes edges) → search_inv [] c →
  match visit_roots edges ns c with
  | Some found => cycle_found found
  | None => ∀ n, n ∈ ns ∨ colour_of c n = Black → Acc (flip edge_to) n
  end.
Proof.
  revert c. induction ns as [|n ns IH]; intros c Hns Hi; cbn [visit_roots].
  { intros n [Hn | Hn]; [by apply not_elem_of_nil in Hn|by eapply si_black]. }
  assert (Hns' : ∀ m, m ∈ ns → m ∈ graph_nodes edges) by (intros; apply Hns; by right).
  case_decide as Hc.
  - pose proof (visit_ok_holds (size (graph_nodes edges)) [] n c Hi Hc (Hns n ltac:(left))
      ltac:(done) ltac:(apply subseteq_size; unfold white_nodes; intros m; rewrite elem_of_filter; tauto)) as H.
    destruct (visit _ _ _ _ _) as [[found|] c1]; [done|]. destruct H as (Hi1 & Hq & Hb).
    specialize (IH c1 Hns' Hi1). destruct (visit_roots _ _ _); [done|].
    intros m [[-> | Hm]%elem_of_cons | Hm]; apply IH; [by right|by left|right; by apply Hq].
  - specialize (IH c Hns' Hi). destruct (visit_roots _ _ _); [done|].
    intros m [[-> | Hm]%elem_of_cons | Hm]; apply IH; [|by left|by right].
    right. destruct (colour_of c n) eqn:E; [done| |done].
    apply (si_grey _ _ Hi) in E. by apply not_elem_of_nil in E.
Qed.

(** ** The search decides *)

Lemma Sorted_tc (R : relation Z) x l y : Sorted R (x :: l ++ [y]) → tc R x y.
Proof.
  revert x. induction l as [|z l IH]; cbn; intros x Hs;
    inversion Hs as [|? ? Hs' Hhd]; subst; inversion Hhd; subst; [by apply tc_once|].
  eapply tc_l; [done|auto].
Qed.

Lemma Acc_no_loop x : Acc (flip edge_to) x → ¬ tc edge_to x x.
Proof.
  induction 1 as [x _ IH]. intros Hx.
  inversion Hx as [? ? H1 | ? y ? H1 Hyx]; subst; [by eapply IH; [|apply tc_once]|].
  eapply (IH y); [done|]. by eapply tc_r.
Qed.

Lemma is_cycle_loop ns : is_cycle ns → ∃ x, x ∈ graph_nodes edges ∧ tc edge_to x x.
Proof.
  intros (x & rest & -> & Hs). cbn in Hs. exists x. apply Sorted_tc in Hs. split; [|done].
  inversion Hs; subst; by eapply edge_from_node.
Qed.

Lemma search_inv_start : search_inv [] ∅.
Proof.
  split; [|constructor|constructor|]; intros n; unfold colour_of; rewrite lookup_empty; [|done].
  split; [done|]. by intros ?%not_elem_of_nil.
Qed.

Lemma findCycle_sound ns : findCycle edges = Some ns → is_cycle ns ∧ NoDup ns.
Proof.
  intros H. pose proof (visit_roots_ok (merge_sort Z.le (elements (graph_nodes edges))) ∅) as Hr.
  unfold findCycle in H. rewrite H in Hr. apply Hr; [|apply search_inv_start].
  intros n. by rewrite merge_sort_Permutation, elem_of_elements.
Qed.

Lemma findCycle_none : findCycle edges = None → ∀ n, n ∈ graph_nodes edges → Acc (flip edge_to) n.
Proof.
  intros H n Hn. pose proof (visit_roots_ok (merge_sort Z.le (elements (graph_nodes edges))) ∅) as Hr.
  unfold findCycle in H. rewrite H in Hr. apply Hr; [|apply search_inv_start|left].
  - intros m. by rewrite merge_sort_Permutation, elem_of_elements.
  - by rewrite merge_sort_Permutation, elem_of_elements.
Qed.

(** C23: The colouring search of [findCycle] agrees with the definition of a cycle: it
    answers with a list exactly when the edges have a cycle, and the list it answers with
    is one, each boundary having an edge to the next and the last to the first, without
    passing through a boundary twice. *)
Theorem findCycle_correct :
  (findCycle edges = None ↔ ¬ ∃ ns, is_cycle ns)
  ∧ ∀ ns, findCycle edges = Some ns → is_cycle ns ∧ NoDup ns.
Proof.
  split; [|apply findCycle_sound]. split.
  - intros H (ns & (x & Hx & Hloop)%is_cycle_loop).
    by eapply Acc_no_loop; [by eapply findCycle_none|].
  - intros Hno. destruct (findCycle edges) as [ns|] eqn:E; [|done].
    destruct Hno. exists ns. by apply findCycle_sound.
Qed.
End cycles.

(** ** What the table validations guarantee *)

Section producers.
Context {R : Type}.
Implicit Types (cs : list (boundaryContract R)) (c : boundaryContract R).

(** [c] asserts, or requires, the capability [k]. *)
Definition yields c (k : string) : Prop := k ≠ "" ∧ k ∈ capability <$> checks (c_readiness c).
Definition needs c (k : string) : Prop := k ≠ "" ∧ k ∈ capability <$> checks (c_requires c).
#[export] Instance yields_dec c k : Decision (yields c k).
Proof. unfold yields. apply _. Defined.

Definition record_checks (m : gmap string Z) (n : Z) (ks : list (namedStep R)) : gmap string Z :=
  foldl (λ m k, if String.eqb (capability k) "" then m else <[capability k := n]> m) m ks.

Lemma record_checks_lookup m n ks k :
  record_checks m n ks !! k =
  if decide (k ≠ "" ∧ k ∈ capability <$> ks) then Some n else m !! k.
Proof.
  revert m. induction ks as [|x ks IH]; intros m; cbn [record_checks foldl].
  - rewrite decide_False; [done|]. by intros (_ & ?%not_elem_of_nil).
  - fold (record_checks (if String.eqb (capability x) "" then m else <[capability x:=n]> m) n ks).
    rewrite IH, fmap_cons. destruct (String.eqb_spec (capability x) "") as [Hx | Hx].
    + apply decide_ext. rewrite elem_of_cons. naive_solver.
    + destruct (decide (k = capability x)) as [-> | Hk].
      * rewrite lookup_insert_eq. rewrite (decide_True (P := _ ∧ _ ∈ _ :: _)); [by case_decide|].
        split; [done|left].
      * rewrite lookup_insert_ne by done. apply decide_ext.
        rewrite elem_of_cons. naive_solver.
Qed.

Lemma producer_snoc cs c : producer (cs ++ [c]) = record_checks (producer cs) (number c) (checks (c_readiness c)).
Proof. unfold producer. by rewrite foldl_app. Qed.

(** The producer of a capability is the last boundary declared that asserts it. *)
Lemma producer_lookup cs k n :
  producer cs !! k = Some n ↔
  ∃ pre c post, cs = (pre ++ c :: post)%list ∧ number c = n ∧ yields c k ∧ ∀ c', c' ∈ post → ¬ yields c' k.
Proof.
  induction cs as [|c cs IH] using rev_ind.
  { split; [done|]. intros ([] & ? & ? & ? & _); done. }
  rewrite producer_snoc, record_checks_lookup. fold (yields c k). case_decide as Hy.
  - split.
    + intros [= <-]. exists cs, c, []. split_and!; try done. by intros ? ?%not_elem_of_nil.
    + intros (pre & c1 & post & Heq & <- & Hy1 & Hpost).
      destruct post as [|c2 post _] using rev_ind.
      * by apply app_inj_tail in Heq as [_ ->].
      * rewrite app_comm_cons, app_assoc in Heq. apply app_inj_tail in Heq as [_ <-].
        destruct (Hpost c); [|done]. apply elem_of_app. right. by left.
  - rewrite IH. split.
    + intros (pre & c1 & post & -> & Hn & Hy1 & Hpost). exists pre, c1, (post ++ [c])%list.
      rewrite <-app_assoc. split_and!; try done.
      intros c' [?| ->%list_elem_of_singleton]%elem_of_app; auto.
    + intros (pre & c1 & post & Heq & Hn & Hy1 & Hpost).
      destruct post as [|c2 post _] using rev_ind.
      * apply app_inj_tail in Heq as [_ ->]. done.
      * rewrite app_comm_cons, app_assoc in Heq. apply app_inj_tail in Heq as [-> ->].
        exists pre, c1, post. split_and!; try done. intros c' Hc'. apply Hpost, elem_of_app. by left.
Qed.

Lemma producer_some cs c k : c ∈ cs → yields c k → is_Some (producer cs !! k).
Proof.
  revert c. induction cs as [|c1 cs IH] using rev_ind; [by intros ? ?%not_elem_of_nil|].
  intros c Hc Hy. rewrite producer_snoc, record_checks_lookup. case_decide as Hd; [by eexists|].
  apply elem_of_app in Hc as [Hc | ->%list_elem_of_singleton]; [by eapply IH|done].
Qed.

Lemma required_edges_elem p c e :
  e ∈ required_edges p c ↔ needs c (via e) ∧ p !! via e = Some (from e) ∧ to e = number c.
Proof.
  unfold required_edges, needs. rewrite list_elem_of_omap, list_elem_of_fmap. split.
  - intros (k & Hk & He). destruct (String.eqb_spec (capability k) "") as [|Hne]; [done|].
    destruct (p !! capability k) as [n|] eqn:Hp; [|done]. injection He as <-. cbn. eauto 6.
  - intros ((Hne & k & Hvia & Hk) & Hp & Hto). exists k. split; [done|].
    rewrite <-Hvia. destruct (String.eqb_spec (via e) "") as [|_]; [done|]. rewrite Hp. cbn.
    rewrite <-Hto. by destruct e.
Qed.
End producers.

Section validation.
Context {S : EdgeSort} {SL : EdgeSortLaws S} {R : Type}.
Implicit Types (cs : list (boundaryContract R)) (c : boundaryContract R).

Lemma dependencyEdges_elem cs e :
  e ∈ dependencyEdges cs ↔
  ∃ c, c ∈ cs ∧ needs c (via e) ∧ producer cs !! via e = Some (from e) ∧ to e = number c.
Proof.
  unfold dependencyEdges. rewrite sort_edges_perm, list_elem_of_bind.
  setoid_rewrite required_edges_elem. naive_solver.
Qed.

(** Edges that all go up form no cycle. *)
Lemma forward_no_cycle es :
  (∀ e, e ∈ es → (from e < to e)%Z) → findCycle es = None.
Proof.
  intros Hup. destruct (findCycle es) as [ns|] eqn:E; [|done]. exfalso.
  apply findCycle_sound in E as [(x & _ & Hx)%is_cycle_loop _].
  enough (∀ a b, tc (edge_to es) a b → (a < b)%Z) as Hlt by (specialize (Hlt _ _ Hx); lia).
  clear x Hx. induction 1 as [a b (e & He & <- & <-)%edge_to_edge | a b d (e & He & <- & <-)%edge_to_edge _ IH];
    specialize (Hup _ He); lia.
Qed.

Lemma validateBoundaryGraph_edges cs :
  validateBoundaryGraph cs = Ok () ↔ ∀ e, e ∈ dependencyEdges cs → (from e < to e)%Z.
Proof.
  unfold validateBoundaryGraph. split.
  - destruct (findCycle _); [done|]. destruct (filter _ _) as [|e0 l] eqn:Hf; [|done].
    intros _ e He. destruct (decide (to e ≤ from e)%Z) as [Hle|]; [|lia].
    assert (Hin : e ∈ filter (λ e, (to e ≤ from e)%Z) (dependencyEdges cs))
      by by apply list_elem_of_filter.
    rewrite Hf in Hin. by apply not_elem_of_nil in Hin.
  - intros Hup. rewrite forward_no_cycle by done.
    destruct (filter _ _) as [|e l] eqn:Hf; [done|].
    assert (Hin : e ∈ filter (λ e, (to e ≤ from e)%Z) (dependencyEdges cs)) by (rewrite Hf; left).
    apply list_elem_of_filter in Hin as [Hle He]. specialize (Hup _ He). lia.
Qed.

(** The graph check accepts a table exactly when every capability a boundary requires
    and some boundary asserts has its producer, the last boundary declared that asserts
    it, before the boundary that requires it. A capability nobody asserts, which is
    produced outside the sequence, constrains nothing. *)
Theorem validateBoundaryGraph_spec cs :
  validateBoundaryGraph cs = Ok () ↔
  ∀ pre p post c k,
    cs = (pre ++ p :: post)%list → yields p k → (∀ c', c' ∈ post → ¬ yields c' k) →
    c ∈ cs → needs c k → (number p < number c)%Z.
Proof.
  rewrite validateBoundaryGraph_edges. split.
  - intros Hup pre p post c k Hcs Hy Hpost Hc Hn.
    apply (Hup (mkEdge (number p) (number c) k)), dependencyEdges_elem. exists c.
    split_and!; try done. apply producer_lookup. by exists pre, p, post.
  - intros H e (c & Hc & Hn & (pre & p & post & Hcs & <- & Hy & Hpost)%producer_lookup & ->)%dependencyEdges_elem.
    by eapply H.
Qed.
End validation.

(** ** The contracts *)

Section contracts.
Context {R : Type}.
Implicit Types (cs : list (boundaryContract R)) (c : boundaryContract R) (seen : gset Z).

(** A declaration either checks something or says why it does not. *)
Definition answered (r : readiness R) : Prop :=
  declared r = true ∧ (checks r = [] ↔ because r ≠ "").
Definition well_declared c : Prop :=
  label c ≠ "" ∧ answered (c_requires c) ∧ answered (c_readiness c).

Lemma contract_fault_none seen c :
  contract_fault seen c = None ↔ (1 ≤ number c)%Z ∧ number c ∉ seen ∧ well_declared c.
Proof.
  unfold contract_fault, well_declared, answered.
  destruct (Z.ltb_spec (number c) 1); [split; [done|lia]|].
  case_decide; [split; [done|tauto]|].
  destruct (String.eqb_spec (label c) ""); [split; [done|tauto]|].
  destruct (declared (c_requires c)); [|split; [done|naive_solver]].
  destruct (declared (c_readiness c)); [|split; [|naive_solver]];
    destruct (String.eqb_spec (because (c_requires c)) ""), (checks (c_requires c));
    destruct (String.eqb_spec (because (c_readiness c)) ""), (checks (c_readiness c));
    cbn; naive_solver.
Qed.

Lemma contracts_seen_ok seen cs seen' :
  contracts_seen seen cs = Ok seen' ↔
  seen' = list_to_set (number <$> cs) ∪ seen ∧ NoDup (number <$> cs)
  ∧ Forall (λ c, (1 ≤ number c)%Z ∧ number c ∉ seen ∧ well_declared c) cs.
Proof.
  revert seen. induction cs as [|c cs IH]; intros seen; cbn [contracts_seen].
  - cbn. rewrite (left_id_L ∅ (∪)). split; [intros [= ->]; split_and!; constructor|by intros (-> & _)].
  - rewrite fmap_cons, NoDup_cons, Forall_cons, list_to_set_cons.
    destruct (contract_fault seen c) as [e|] eqn:E.
    + split; [done|]. intros (_ & _ & Hc%contract_fault_none & _). congruence.
    + apply contract_fault_none in E. rewrite IH.
      assert (Hset : list_to_set (number <$> cs) ∪ ({[number c]} ∪ seen)
                     = {[number c]} ∪ list_to_set (number <$> cs) ∪ seen) by set_solver.
      rewrite Hset, !Forall_forall. split.
      * intros (-> & Hnd & Hall). destruct E as (? & ? & ?). split_and!; try done.
        -- intros (x & Hx & Hin)%list_elem_of_fmap. destruct (Hall x Hin) as (_ & Hno & _). set_solver.
        -- intros x Hx. destruct (Hall x Hx) as (? & ? & ?). set_solver.
      * intros (-> & [Hno Hnd] & _ & Hall). split_and!; try done.
        intros x Hx. destruct (Hall x Hx) as (? & ? & ?). split_and!; try done.
        intros [Heq%elem_of_singleton | ?]%elem_of_union; [|done]. apply Hno, list_elem_of_fmap. by exists x.
Qed.

(** The contract check accepts a table exactly when its boundaries are numbered 1 to n,
    each number once, in any order, every one has a label, and both what it requires and
    what it asserts are declared, as checks or as a reason for having none and never both. *)
Theorem validateBoundaryContracts_spec cs :
  validateBoundaryContracts cs = Ok () ↔
  number <$> cs ≡ₚ seqZ 1 (Z.of_nat (length cs)) ∧ Forall well_declared cs.
Proof.
  unfold validateBoundaryContracts. destruct (contracts_seen ∅ cs) as [seen|e] eqn:E.
  - apply contracts_seen_ok in E as (-> & Hnd & Hall).
    assert (Hwd : Forall well_declared cs) by (eapply Forall_impl; [done|naive_solver]).
    transitivity (seqZ 1 (Z.of_nat (length cs)) ⊆ number <$> cs).
    + destruct (filter _ _) as [|n l] eqn:Hf.
      * split; [intros _ n Hn|done]. destruct (decide (n ∈ number <$> cs)) as [|Hno]; [done|].
        exfalso. assert (Hin : n ∈ @nil Z); [|by apply not_elem_of_nil in Hin].
        rewrite <-Hf. apply list_elem_of_filter. set_solver.
      * split; [done|]. intros Hsub. assert (Hin : n ∈ n :: l) by left.
        rewrite <-Hf in Hin. apply list_elem_of_filter in Hin as [Hno Hn]. set_solver.
    + split; [|by intros [-> _]]. intros Hsub. split; [|done]. symmetry.
      apply submseteq_length_Permutation; [|by rewrite length_seqZ, length_fmap, Nat2Z.id].
      apply NoDup_submseteq; [apply NoDup_seqZ|done].
  - split; [done|]. intros [Hp Hwd]. exfalso.
    assert (Hok : contracts_seen ∅ cs = Ok (list_to_set (number <$> cs) ∪ ∅)); [|congruence].
    apply contracts_seen_ok. split_and!; [done|rewrite Hp; apply NoDup_seqZ|].
    rewrite Forall_forall in *. intros c Hc. split_and!; [|set_solver|auto].
    assert (Hn : number c ∈ number <$> cs) by by apply list_elem_of_fmap_2.
    rewrite Hp in Hn. apply elem_of_seqZ in Hn. lia.
Qed.
End contracts.
