(* ===== verification/Bootstrap.v ===== *)
(** * Bootstrap: the process of Day-0, its record on disk and the world it drives.

    Models internal/kakt-cli/state/manager.go and recovery.go, and the ground the other
    files of the component stand on. [Outside] is everything the process talks to:
    the commands it runs, the files other than its own record, the clock, the context.
    [Stable] is what survives the process; [past] keeps every stable state a run went
    through, since the process may be killed between any two of them. Text printed for
    the operator is left out, and so is the advice after the first sentence of an error;
    what runPhase reports of a phase is kept as [events]. *)

From S2P Require Import Prelude.

Local Open Scope string_scope.

(** ** state/manager.go: the record *)

Definition BootstrapPhase := string.
Definition PhasePreFlight : BootstrapPhase := "preflight".
Definition PhaseBootstrapCreate : BootstrapPhase := "bootstrap-create".
Definition PhaseDayZero : BootstrapPhase := "day0-infra".
Definition PhaseCAPIInit : BootstrapPhase := "capi-init".
Definition PhaseClusterProvision : BootstrapPhase := "cluster-provision".
Definition PhaseArgoCDInstall : BootstrapPhase := "argocd-install".
Definition PhasePivotMove : BootstrapPhase := "pivot-move".
Definition PhasePivotReady : BootstrapPhase := "pivot-ready".
Definition PhaseCleanup : BootstrapPhase := "cleanup".
Definition PhaseClusterClassDeploy : BootstrapPhase := "clusterclass-deploy".
Definition PhasePlatformPreReqs : BootstrapPhase := "platform-pre-reqs".
Definition PhaseOnPremJoin : BootstrapPhase := "on-prem-join".
Definition PhaseBoundary01 : BootstrapPhase := "boundary-01".
Definition PhaseGenerateLocalSecrets : BootstrapPhase := "generate-local-secrets".
Definition PhaseBoundary02 : BootstrapPhase := "boundary-02".
Definition PhaseInjectCACert : BootstrapPhase := "inject-ca-cert".
Definition PhaseBoundary03 : BootstrapPhase := "boundary-03".
Definition PhaseBootstrapInfisicalAPI : BootstrapPhase := "bootstrap-infisical-api".
Definition PhaseBoundary04 : BootstrapPhase := "boundary-04".
Definition PhaseBoundary05 : BootstrapPhase := "boundary-05".
Definition PhaseBoundary06 : BootstrapPhase := "boundary-06".
Definition PhaseFinalize : BootstrapPhase := "finalize".
Definition PhaseComplete : BootstrapPhase := "complete".

(** Times are nanoseconds; the seconds of a timing are kept as whole milliseconds, to
    which the code rounds them. *)
Record PhaseTiming := mkTiming { tPhase : BootstrapPhase; tStartedAt : Z; tCompletedAt : Z; Seconds : Z }.

Record BootstrapState := mkState {
  Version : string;
  sClusterName : string;
  sProvider : string;
  Region : string;
  BootstrapID : string;
  CurrentPhase : BootstrapPhase;
  CompletedPhases : list BootstrapPhase;
  sBootstrapContext : string;
  BootstrapKubeconfig : string;
  MgmtKubeconfig : string;
  NetworkCIDR : string;
  SSHKeys : list string;
  Timestamp : Z;
  Metadata : list (string * string);
  StartedAt : option Z;
  CompletedAt : option Z;
  PhaseTimings : list PhaseTiming }.
Definition set_CurrentPhase x r := mkState (Version r) (sClusterName r) (sProvider r) (Region r) (BootstrapID r) x (CompletedPhases r) (sBootstrapContext r) (BootstrapKubeconfig r) (MgmtKubeconfig r) (NetworkCIDR r) (SSHKeys r) (Timestamp r) (Metadata r) (StartedAt r) (CompletedAt r) (PhaseTimings r).
Definition set_CompletedPhases x r := mkState (Version r) (sClusterName r) (sProvider r) (Region r) (BootstrapID r) (CurrentPhase r) x (sBootstrapContext r) (BootstrapKubeconfig r) (MgmtKubeconfig r) (NetworkCIDR r) (SSHKeys r) (Timestamp r) (Metadata r) (StartedAt r) (CompletedAt r) (PhaseTimings r).
Definition set_sBootstrapContext x r := mkState (Version r) (sClusterName r) (sProvider r) (Region r) (BootstrapID r) (CurrentPhase r) (CompletedPhases r) x (BootstrapKubeconfig r) (MgmtKubeconfig r) (NetworkCIDR r) (SSHKeys r) (Timestamp r) (Metadata r) (StartedAt r) (CompletedAt r) (PhaseTimings r).
Definition set_BootstrapKubeconfig x r := mkState (Version r) (sClusterName r) (sProvider r) (Region r) (BootstrapID r) (CurrentPhase r) (CompletedPhases r) (sBootstrapContext r) x (MgmtKubeconfig r) (NetworkCIDR r) (SSHKeys r) (Timestamp r) (Metadata r) (StartedAt r) (CompletedAt r) (PhaseTimings r).
Definition set_MgmtKubeconfig x r := mkState (Version r) (sClusterName r) (sProvider r) (Region r) (BootstrapID r) (CurrentPhase r) (CompletedPhases r) (sBootstrapContext r) (BootstrapKubeconfig r) x (NetworkCIDR r) (SSHKeys r) (Timestamp r) (Metadata r) (StartedAt r) (CompletedAt r) (PhaseTimings r).
Definition set_Timestamp x r := mkState (Version r) (sClusterName r) (sProvider r) (Region r) (BootstrapID r) (CurrentPhase r) (CompletedPhases r) (sBootstrapContext r) (BootstrapKubeconfig r) (MgmtKubeconfig r) (NetworkCIDR r) (SSHKeys r) x (Metadata r) (StartedAt r) (CompletedAt r) (PhaseTimings r).
Definition set_StartedAt x r := mkState (Version r) (sClusterName r) (sProvider r) (Region r) (BootstrapID r) (CurrentPhase r) (CompletedPhases r) (sBootstrapContext r) (BootstrapKubeconfig r) (MgmtKubeconfig r) (NetworkCIDR r) (SSHKeys r) (Timestamp r) (Metadata r) x (CompletedAt r) (PhaseTimings r).
Definition set_CompletedAt x r := mkState (Version r) (sClusterName r) (sProvider r) (Region r) (BootstrapID r) (CurrentPhase r) (CompletedPhases r) (sBootstrapContext r) (BootstrapKubeconfig r) (MgmtKubeconfig r) (NetworkCIDR r) (SSHKeys r) (Timestamp r) (Metadata r) (StartedAt r) x (PhaseTimings r).
Definition set_PhaseTimings x r := mkState (Version r) (sClusterName r) (sProvider r) (Region r) (BootstrapID r) (CurrentPhase r) (CompletedPhases r) (sBootstrapContext r) (BootstrapKubeconfig r) (MgmtKubeconfig r) (NetworkCIDR r) (SSHKeys r) (Timestamp r) (Metadata r) (StartedAt r) (CompletedAt r) x.

(** encoding/json on the record. *)
Class StateJson := {
  encode_state : BootstrapState → string;
  decode_state : string → option BootstrapState }.
Class StateJsonLaws (J : StateJson) :=
  decode_encode_state b : decode_state (encode_state b) = Some b.

(** ** The world *)

(** One run of a command. [exit] is the error of a command that failed. *)
Record Output := mkOutput { stdout : string; stderr : string; combined : string; exit : option string; took : N }.
(** A command: its arguments, its directory, its input and the variables added to its
    environment. *)
Record Cmd := mkCmd { args : list string; dir : string; stdin : string; vars : list string }.
Inductive FsError := NotExist | FsFailed (e : string).
(** The operations on the record's own file that can fail. *)
Inductive FsOp := OpMkdir | OpWrite | OpRename | OpRead | OpRemove.

Class Outside := {
  Env : Type;
  exec : Cmd → Env → Output * Env;
  stat : string → Env → bool;
  readFile : string → Env → result FsError string;
  writeFile : string → string → Env → option string * Env;
  mkdirAll : string → Env → option string * Env;
  getenv : string → Env → string;
  tempDir : Env → string;
  homeDir : Env → string;
  absPath : string → Env → result string string;
  executable : Env → option string;       (* os.Executable, its links followed *)
  lookPath : string → Env → option string;
  ctxErr : Env → option string;           (* ctx.Err() *)
  (* A sleep of the given length, unless the context ends first; and how late it wakes. *)
  sleep : Z → Env → option string * Env * N;
  (* A file operation on the record: its error, and what a torn write leaves. *)
  fault : FsOp → Env → option string * Env;
  torn : string → Env → string }.

(** A call into code outside the component: its answer, the world after, and the time. *)
Definition Outcall `{Outside} (A : Type) : Type := Env → result string A * Env * N.

Inductive Event :=
| Skipped (p : BootstrapPhase)
| Holds (p : BootstrapPhase)
| Withdrew (p : BootstrapPhase) (reason : string)
| Began (p : BootstrapPhase) (recorded : list BootstrapPhase)
| FailedAfter (p : BootstrapPhase)
| Returned (p : BootstrapPhase).

Section machine.
Context {Out : Outside}.

(** What outlives the process: the world, the record's file and its temporary copy, the
    clock, what was reported of the phases and the commands run so far. *)
Record Stable := mkStable {
  env : Env;
  disk : option string;
  tmp : option string;
  clk : Z;
  events : list Event;
  ran : list Cmd }.
Definition set_env x r := mkStable x (disk r) (tmp r) (clk r) (events r) (ran r).
Definition set_disk x r := mkStable (env r) x (tmp r) (clk r) (events r) (ran r).
Definition set_tmp x r := mkStable (env r) (disk r) x (clk r) (events r) (ran r).
Definition set_clk x r := mkStable (env r) (disk r) (tmp r) x (events r) (ran r).
Definition set_events x r := mkStable (env r) (disk r) (tmp r) (clk r) x (ran r).
Definition set_ran x r := mkStable (env r) (disk r) (tmp r) (clk r) (events r) x.
(** The process: the record in memory, and every stable state it went through. *)
Record Machine := mkMachine {
  now : Stable;
  past : list Stable;
  bs : BootstrapState }.
Definition set_bs x r := mkMachine (now r) (past r) x.

Abbreviation M A := (goM Machine string A).

(** One step of the world; the state before it is one the process may be killed in. *)
Definition becomes (f : Stable → Stable) : M unit :=
  λ m, (Ok tt, mkMachine (f (now m)) (now m :: past m) (bs m)).
Definition emit (e : Event) : M unit := becomes (λ s, set_events (events s ++ [e])%list s).

Definition after (e : Env) (t : N) (s : Stable) : Stable := set_clk (clk s + Z.of_N t)%Z (set_env e s).
Definition outside {A} (c : Outcall A) : M A := λ m,
  let '(r, e, t) := c (env (now m)) in
  (r, mkMachine (after e t (now m)) (now m :: past m) (bs m)).
Definition peek {A} (f : Env → A) : M A := gets (λ m, f (env (now m))).
Definition Now : M Z := gets (λ m, clk (now m)).
Definition state : M BootstrapState := gets bs.
Definition update (f : BootstrapState → BootstrapState) : M unit := modify (λ m, set_bs (f (bs m)) m).

(** exec.CommandContext(...) with Output(), CombinedOutput() or Run(). *)
Definition run_command (c : Cmd) : M Output := λ m,
  let '(out, e) := exec c (env (now m)) in
  (Ok out, mkMachine (set_ran (ran (now m) ++ [c])%list (after e (took out) (now m))) (now m :: past m) (bs m)).
Definition command (args : list string) : M Output := run_command (mkCmd args "" "" []).
Definition kubectl (kubeconfig : string) (args : list string) : M Output :=
  command ("kubectl" :: "--kubeconfig" :: kubeconfig :: args).
Definition write_file (path data : string) : M (option string) :=
  outside (λ e, let '(r, e) := writeFile path data e in (Ok r, e, 0%N)).
Definition mkdir_all (path : string) : M (option string) :=
  outside (λ e, let '(r, e) := mkdirAll path e in (Ok r, e, 0%N)).
(** select { case <-ctx.Done(): return ctx.Err(); case <-time.After(d): } *)
Definition pause (d : Z) : M unit :=
  outside (λ e, let '(r, e, lag) := sleep d e in
                match r with Some err => (Err err, e, lag) | None => (Ok tt, e, (Z.to_N d + lag)%N) end).

(** A loop that sleeps between its turns; a turn ends it with [inr]. *)
Fixpoint poll {L A} (fuel : nat) (every : Z) (body : L → M (L + A)) (l : L) : M A :=
  match fuel with
  | O => throw "out of fuel"
  | S fuel =>
      r ← body l;
      match r with
      | inr a => mret a
      | inl l => pause every ;; poll fuel every body l
      end
  end.

(** ** state/manager.go: the file *)

Context {J : StateJson}.

Definition fs (op : FsOp) : M (option string) :=
  outside (λ e, let '(r, e) := fault op e in (Ok r, e, 0%N)).

(** The timestamps every save sets. *)
Definition stamp : M unit :=
  t ← Now;
  update (λ b, let b := set_Timestamp t b in
               match StartedAt b with Some _ => b | None => set_StartedAt (Some t) b end).
(** Atomic write: to a temporary file, then a rename. *)
Definition write_tmp (data : string) : M unit :=
  r ← fs OpMkdir;
  match r with Some e => throw ("failed to create state directory: " +:+ e) | None =>
  partial ← peek (torn data);
  becomes (set_tmp (Some partial)) ;;
  r ← fs OpWrite;
  match r with Some e => throw ("failed to write temp state file: " +:+ e) | None =>
  becomes (set_tmp (Some data))
  end end.
Definition rename_tmp : M unit :=
  r ← fs OpRename;
  match r with Some e => throw ("failed to rename state file: " +:+ e) | None =>
  becomes (λ s, set_disk (tmp s) (set_tmp None s))
  end.
Definition write_record (data : string) : M unit := write_tmp data ;; rename_tmp.
Definition Save : M unit :=
  stamp ;; b ← state; write_record (encode_state b).

Definition Load : M (option BootstrapState) :=
  r ← fs OpRead;
  d ← gets (λ m, disk (now m));
  match d, r with
  | None, _ => mret None
  | Some _, Some e => throw ("failed to read state file: " +:+ e)
  | Some data, None =>
      match decode_state data with
      | Some b => mret (Some b)
      | None => throw "failed to unmarshal state"
      end
  end.

Definition Delete : M unit :=
  r ← fs OpRemove;
  d ← gets (λ m, disk (now m));
  match d, r with
  | None, _ => mret tt
  | Some _, Some e => throw ("failed to delete state file: " +:+ e)
  | Some _, None => becomes (set_disk None)
  end.

Definition Exists : M bool := gets (λ m, bool_decide (is_Some (disk (now m)))).

(** ** state/recovery.go *)

Definition stale : Z := 24 * 3600 * 1000000000.
Definition CheckRecoverable (clusterName : string) : M (option BootstrapState * bool * option string) :=
  r ← attempt Load;
  match r with
  | Err e => mret (None, false, Some ("failed to load state: " +:+ e))
  | Ok None => mret (None, false, None)
  | Ok (Some st) =>
      if String.eqb (CurrentPhase st) PhaseComplete
      then mret (Some st, false, Some ("cluster '" +:+ clusterName +:+ "' already exists and is complete"))
      else
        t ← Now;
        if (stale <? t - Timestamp st)%Z
        then mret (Some st, false, Some "state is stale (older than 24 hours), manual cleanup required")
        else mret (Some st, true, None)
  end.
Definition GetRecoveryPhase (st : BootstrapState) : BootstrapPhase := CurrentPhase st.
Definition UpdatePhase (newPhase : BootstrapPhase) : M unit :=
  t ← Now;
  update (λ st,
    let st := if negb (String.eqb (CurrentPhase st) "") && negb (String.eqb (CurrentPhase st) newPhase)
              then set_CompletedPhases (CompletedPhases st ++ [CurrentPhase st])%list st else st in
    set_Timestamp t (set_CurrentPhase newPhase st)) ;;
  Save.
Definition IsPhaseCompleted (st : BootstrapState) (phase : BootstrapPhase) : bool :=
  existsb (String.eqb phase) (CompletedPhases st).
Definition MarkComplete : M unit :=
  t ← Now;
  update (λ st, set_Timestamp t (set_CompletedPhases (CompletedPhases st ++ [PhaseComplete])%list
                                   (set_CurrentPhase PhaseComplete st))) ;;
  Save.
Definition Cleanup : M unit := Delete.
End machine.
