(* ===== verification/BootstrapCluster.v ===== *)
(** * BootstrapCluster: what Day-0 asks of the hub and does to it.

    Models, of internal/kakt-cli, health/waiter.go; bootstrap/seed.go and
    zitadel_reset.go; the probes, waits and joins of bootstrap/orchestrator.go;
    runBoundary and awaitBootstrapDatabaseReady of boundaries.go; box_values.go,
    fleet_pki_values.go, gateway_dns_target.go and hubdomain.go. [Provider] is the
    interface of provider.go; the packages these files only call are [Parts]. *)

From S2P Require Import Prelude.
From S2P Require Import BootstrapGraph.
From S2P Require Import Bootstrap.

Local Open Scope string_scope.

(** ** The orchestrator and what it calls *)

Inductive GatingMode := GatingUnset | GatingSequenced | GatingConverged.

Record ProvisionConfig := mkProvision {
  pcClusterName : string; pcBootstrapKubeconfig : string; pcBootstrapContext : string; pcDebug : bool;
  pcGitopsDir : string; pcOIDCIssuerURL : string; pcOIDCClientID : string; pcEncryption : string }.
Record PivotConfig := mkPivot {
  pvClusterName : string; pvBootstrapKubeconfig : string; pvBootstrapContext : string; pvDebug : bool;
  pvEncryption : string }.
Record FinalizeConfig := mkFinalize {
  fcMgmtKubeconfig : string; fcClusterName : string; fcNamespace : string; fcMergeKubeconfig : bool;
  fcDebug : bool }.

(** One readiness check; its error says whether waiting is pointless (IsTerminal). *)
Record HealthChecker `{Outside} := mkChecker {
  hName : string;
  Check : string → Env → result (bool * string) unit * Env * N }.

(** The two methods reached by a type assertion are absent where it fails. *)
Record Provider `{Outside} := mkProvider {
  Name : string;
  PreflightValidators : list (Outcall unit);
  KindConfigPath : string;
  ProvisionDayZero : string → Outcall unit;
  OnCAPIInit : string → string → string → Outcall unit;
  ProvisionManagementCluster : ProvisionConfig → Outcall unit;
  PivotMove : PivotConfig → Outcall string;
  PivotReady : string → Outcall unit;
  ClusterClassPaths : list string;
  OnPlatformPreReqs : string → Outcall unit;
  Finalize : FinalizeConfig → Outcall string;
  OperatorWebhookPatterns : list string;
  OnPremRequested : option bool;
  PlannedWorkerReplicas : option Z }.

Record Orchestrator `{Outside} := mkOrchestrator {
  oProvider : Provider;
  ClusterName : string;
  OIDCIssuerURL : string;
  OIDCClientID : string;
  GitopsDir : string;
  oBootstrapContext : string;
  KeepBootstrap : bool;
  MergeKubeconfig : bool;
  Debug : bool;
  ManagementScope : string;
  Topology : string;
  Gating : GatingMode;
  Encryption : string;
  BundleVersionOverride : string;
  InstanceRepoURL : string }.

(** A parsed YAML document, as far as the validator looks. *)
Inductive Yaml :=
| YString (s : string)
| YMap (m : list (string * Yaml))
| YList (l : list Yaml)
| YNull
| YOther.

Record adr045Artifact := mkArtifact { File : string; ConsumedBy : string; RequiredFields : list string }.

(** The packages the orchestrator calls: the installers by kubeconfig, kind, the health
    checkers, the files embedded in the binary, and the parsers. *)
Class Parts `{Outside} := {
  InstallArgoCD : string → Outcall unit;
  FixArgoCDGitHubAuth : string → string → string → Outcall unit;
  InstallEscrowCredentials : string → Outcall unit;
  GenerateLocalSecrets : string → Outcall unit;
  InstallPlatformCredentials : string → Outcall unit;
  UpdateInfisicalSecretsWithCNPGCert : string → Outcall unit;
  BootstrapInfisicalAPI : string → Outcall unit;
  GetArgoCDPassword : string → Outcall string;
  capi_Install : string → string → string → Outcall unit;
  clusterclass_Deploy : string → string → list string → Outcall unit;
  kind_Exists : string → Outcall bool;
  kind_Create : string → string → Outcall unit;
  kind_Delete : string → Outcall unit;
  ValidatingWebhookHealth : list string → HealthChecker;
  CRDRegisteredHealth : list string → HealthChecker;
  OperatorPodsHealth : string → string → HealthChecker;
  BoundaryInventoryChecker : string → HealthChecker;
  BundleVersion : string;
  platform_file : string → result FsError string;
  artifacts_yaml : result string (list adr045Artifact);
  parse_yaml : string → option Yaml;
  b64decode : string → option string;
  parse_rfc3339 : string → option Z;
  unsubstituted : string → option string }.    (* <[A-Z_]{3,}> *)

(** ** Helpers of the language *)

Definition newline : string := String (Ascii.ascii_of_nat 10) EmptyString.
Definition is_newline (c : Ascii.ascii) : bool := Ascii.eqb c (Ascii.ascii_of_nat 10).
Definition lines (s : string) : list string := Split s (Ascii.ascii_of_nat 10).

(** strings.Fields *)
Fixpoint Fields (s : string) : list string :=
  match s with
  | EmptyString => []
  | String c s' =>
      if is_space c then Fields s'
      else match s' with
           | String d _ => if is_space d then String c "" :: Fields s'
                           else match Fields s' with
                                | w :: ws => String c w :: ws
                                | [] => [String c ""]
                                end
           | EmptyString => [String c ""]
           end
  end.
(** filepath.Join on clean parts. *)
Definition path_join (parts : list string) : string := Join (filter (λ p, p ≠ "") parts) "/".
(** filepath.Dir on a clean path. *)
Definition dir_of (p : string) : string :=
  match removelast (Split p "/") with
  | [] => "."
  | [EmptyString] => "/"
  | l => Join l "/"
  end.
Definition second : Z := 1000000000.
Definition minute : Z := 60 * second.
(** %02d *)
Definition two_digits (n : Z) : string := (if (n <? 10)%Z then "0" else "") +:+ pretty n.
Definition first_line (prefix out : string) : option string :=
  (λ l, prefix +:+ l) <$> head (filter (λ l, l ≠ "") (TrimSpace <$> lines (TrimSpace out))).

Section cluster.
Context {Out : Outside} {P : Parts}.
Abbreviation M := (goM (@Machine Out) string).

(** return fmt.Errorf(pre %w, err) where the call fails. *)
Definition prefixed {A} (pre : string) (m : M A) : M A :=
  r ← attempt m;
  match r with Ok a => mret a | Err e => throw (pre +:+ e) end.
Definition wrap {A} (what : string) (m : M A) : M A := prefixed (what +:+ ": ") m.

(** ** health/waiter.go *)

Definition condense (msg : string) : string :=
  let msg := Join (Fields (TrimSpace (ReplaceAll msg newline " "))) " " in
  if (160 <? String.length msg)%nat
  then str_take 160 msg +:+ String (Ascii.ascii_of_nat 226) (String (Ascii.ascii_of_nat 128) (String (Ascii.ascii_of_nat 166) ""))
  else msg.

(** One turn of a check. [passed] are the checks before it that passed. *)
Definition wait_turn (c : HealthChecker) (kubeconfig : string) (passed : nat)
    (timeout deadline checkStart : Z) (_ : unit) : M (unit + unit) :=
  e ← peek ctxErr;
  match e with Some e => throw e | None =>
  r ← outside (λ e, let '(r, e, t) := Check c kubeconfig e in (Ok r, e, t));
  match r with
  | Ok _ => mret (inr tt)
  | Err (true, e) => throw ("health check " +:+ quoted (hName c) +:+ " cannot succeed: " +:+ e)
  | Err (false, e) =>
      t ← Now;
      if (deadline <? t)%Z then
        throw (if (0 <? passed)%nat && (t - checkStart <? timeout / 4)%Z
               then "ran out of time before " +:+ quoted (hName c) +:+ " could be judged; last reason: " +:+ condense e
               else "health check " +:+ quoted (hName c) +:+ " failed; last reason: " +:+ condense e)
      else mret (inl tt)
  end end.
Fixpoint wait_checks (cs : list HealthChecker) (kubeconfig : string) (passed : nat)
    (every timeout deadline : Z) : M unit :=
  match cs with
  | [] => mret tt
  | c :: cs =>
      checkStart ← Now;
      poll (Z.to_nat (timeout / every) + 2) every
        (wait_turn c kubeconfig passed timeout deadline checkStart) tt ;;
      wait_checks cs kubeconfig (S passed) every timeout deadline
  end.
(** [Interval] and [Timeout] are the fields, 0 where they are left out. *)
Definition Wait (cs : list HealthChecker) (Interval Timeout : Z) (kubeconfig : string) : M unit :=
  let every := if (Interval =? 0)%Z then (5 * second)%Z else Interval in
  let timeout := if (Timeout =? 0)%Z then (45 * minute)%Z else Timeout in
  t ← Now;
  wait_checks cs kubeconfig 0 every timeout (t + timeout)%Z.

(** ** orchestrator.go: the waits of boundary 01 *)

Context (o : Orchestrator).

Definition waitForOperators (kubeconfig : string) (extraPatterns : list string) : M unit :=
  let patterns := (["capi"; "cert-manager"; "cnpg"; "externalsecret"] ++ extraPatterns)%list in
  Wait [ValidatingWebhookHealth patterns] (10 * second) (20 * minute) kubeconfig.
Definition waitForCRDs (kubeconfig : string) : M unit :=
  Wait [CRDRegisteredHealth ["externalsecrets.external-secrets.io"; "clusters.postgresql.cnpg.io"]]
    (5 * second) (10 * minute) kubeconfig.
Definition waitForOperatorPods (kubeconfig : string) : M unit :=
  Wait [OperatorPodsHealth "cnpg-system" "app.kubernetes.io/name=cloudnative-pg";
        OperatorPodsHealth "platform-ops" "app.kubernetes.io/name=external-secrets"]
    (5 * second) (15 * minute) kubeconfig.

(** ** The on-prem worker *)

Inductive hubWorkerState := hubWorkerUnknown | hubWorkerAbsent | hubWorkerNotReady | hubWorkerReady.
Definition hubWorkerSelector : string := "hub-role=worker,workload-location=on-prem".

(** The loop over the lines kubectl printed. *)
Fixpoint scan_workers (ls : list string) (st : hubWorkerState) (name : string) : hubWorkerState * string :=
  match ls with
  | [] => (st, name)
  | l :: ls =>
      let '(n, status, found) := Cut (TrimSpace l) "=" in
      if negb found || String.eqb n "" then scan_workers ls st name
      else if String.eqb status "True" then (hubWorkerReady, n)
      else scan_workers ls hubWorkerNotReady n
  end.
Definition probeHubWorker (kubeconfig : string) : M (hubWorkerState * string) :=
  out ← kubectl kubeconfig ["get"; "nodes"; "-l"; hubWorkerSelector; "-o";
    "jsonpath={range .items[*]}{.metadata.name}{" +:+ quoted "=" +:+ "}{.status.conditions[?(@.type=="
    +:+ quoted "Ready" +:+ ")].status}{" +:+ quoted "\n" +:+ "}{end}"];
  mret (match exit out with
        | Some _ => (hubWorkerUnknown, "")
        | None => scan_workers (lines (stdout out)) hubWorkerAbsent ""
        end).

Definition onPremRecoveryWindow : Z := 2 * minute.
(** The wait for a registered node; its name, or "" when it did not come back. *)
Definition await_worker_turn (kubeconfig : string) (deadline : Z) (_ : unit) : M (unit + string) :=
  p ← probeHubWorker kubeconfig;
  match p with
  | (hubWorkerReady, name) => mret (inr name)
  | (hubWorkerAbsent, _) => mret (inr "")
  | _ => t ← Now; mret (if (deadline <? t)%Z then inr "" else inl tt)
  end.
Definition awaitHubWorkerReady (kubeconfig : string) (window : Z) : M string :=
  t ← Now;
  r ← attempt (poll (Z.to_nat (window / (15 * second)) + 2) (15 * second)
                 (await_worker_turn kubeconfig (t + window)%Z) tt);
  mret (match r with Ok name => name | Err _ => "" end).

Definition onPremRequested : bool := default false (OnPremRequested (oProvider o)).
Definition checkPlacementCapacityRequested : M unit :=
  if onPremRequested then mret tt
  else if (0 <? default 0 (PlannedWorkerReplicas (oProvider o)))%Z then mret tt
  else throw ("this box would have no worker capacity: " +:+ Name (oProvider o)
              +:+ " provisions no cloud workers, and on-prem nodes were not requested.").

(** The first of the two places a script may be at, else its relative path. *)
Definition resolveScriptPath (rel : string) : M string :=
  root ← peek (λ e, TrimSpace (getenv "ZERO_OPS_DIR" e));
  inRoot ← peek (stat (path_join [root; rel]));
  if negb (String.eqb root "") && inRoot then mret (path_join [root; rel])
  else
    exe ← peek executable;
    match exe with
    | None => mret rel
    | Some exe =>
        let candidates := [path_join [dir_of exe; rel]; path_join [dir_of (dir_of exe); rel]] in
        found ← peek (λ e, head (filter (λ c, stat c e = true) candidates));
        mret (default rel found)
    end.

(** The rebuild: the script, then the cluster's own view. *)
Definition provisionWorker (kubeconfig : string) : M unit :=
  script ← resolveScriptPath (path_join ["scripts"; "hybrid"; "provision-flatcar-worker.sh"]);
  there ← peek (stat script);
  if negb there then
    throw ("home-lab worker is required before boundary-01 but " +:+ script +:+ " is missing.")
  else
    out ← run_command (mkCmd ["bash"; script; "--cluster"; "hub"] "" "" ["HUB_KUBECONFIG=" +:+ kubeconfig]);
    match exit out with
    | Some e => throw ("home-lab worker provisioning failed: " +:+ e)
    | None =>
        p ← probeHubWorker kubeconfig;
        match p with
        | (hubWorkerReady, _) => mret tt
        | _ => throw ("provisioning reported success but no Ready node carries " +:+ hubWorkerSelector)
        end
    end.
Definition joinHomeWorkers (kubeconfig : string) : M unit :=
  if negb onPremRequested then mret tt
  else if String.eqb kubeconfig "" then throw "could not read the hub kubeconfig from the bootstrap cluster"
  else
    p ← probeHubWorker kubeconfig;
    match p with
    | (hubWorkerReady, _) => mret tt
    | (hubWorkerUnknown, _) =>
        throw ("the hub's nodes could not be read from " +:+ kubeconfig
               +:+ ", so whether the on-prem worker is still serving is unknown.")
    | (hubWorkerNotReady, _) =>
        recovered ← awaitHubWorkerReady kubeconfig onPremRecoveryWindow;
        if negb (String.eqb recovered "") then mret tt else provisionWorker kubeconfig
    | (hubWorkerAbsent, _) => provisionWorker kubeconfig
    end.
Definition onPremWorkersPresent (kubeconfig : string) : M unit :=
  if negb onPremRequested then mret tt
  else
    p ← probeHubWorker kubeconfig;
    match p with
    | (hubWorkerReady, _) => mret tt
    | (hubWorkerNotReady, name) => throw (name +:+ " carries the on-prem labels but is NotReady, so nothing the platform pins to it can schedule")
    | (hubWorkerAbsent, _) => throw "this box asked for on-prem nodes and none has joined"
    | (hubWorkerUnknown, _) => throw "the hub's nodes could not be read to confirm on-prem capacity"
    end.
Definition tailnetCredentialStagedOnHub (kubeconfig : string) : M unit :=
  if negb onPremRequested then mret tt
  else
    out ← kubectl kubeconfig ["get"; "secret"; "tailscale-hybrid-psk"; "-n"; "platform-capi"];
    match exit out with
    | None => mret tt
    | Some _ => throw "platform-capi/tailscale-hybrid-psk is not on the hub, so the hub-operator has nothing to upload and the tailnet ExternalSecret cannot sync"
    end.

(** ** The database *)

(** A jsonpath selecting a field of the conditions with a given property. *)
Definition conditions_where (key val field : string) : string :=
  "jsonpath={.status.conditions[?(@." +:+ key +:+ "==" +:+ quoted val +:+ ")]." +:+ field +:+ "}".

Definition cnpgPrimary (kubeconfig : string) : M (result string string) :=
  out ← kubectl kubeconfig ["get"; "pods"; "-n"; "platform-data"; "-l"; "cnpg.io/instanceRole=primary";
    "-o"; "jsonpath={.items[0].metadata.name}"];
  mret (match exit out with Some e => Err e | None => Ok (TrimSpace (stdout out)) end).
Definition psql (kubeconfig pod database statement : string) : M (result string string) :=
  out ← kubectl kubeconfig ["exec"; "-n"; "platform-data"; pod; "-c"; "postgres"; "--";
    "psql"; "-d"; database; "-tAc"; statement];
  mret (match exit out with
        | None => Ok (stdout out)
        | Some e => let msg := TrimSpace (stderr out) in
                    Err (if String.eqb msg "" then e else msg +:+ ": " +:+ e)
        end).

Definition declaredDatabaseRoles (kubeconfig : string) : M (result string (list string)) :=
  out ← kubectl kubeconfig ["get"; "hubenvironment"; "hub-environment"; "-o"; "jsonpath={.spec.database.roles[*].name}"];
  mret (match exit out with
        | Some e => Err ("could not read the declared database roles: " +:+ e)
        | None => Ok (Fields (TrimSpace (stdout out)))
        end).
(** The declared roles the listing [out] of pg_roles does not name. *)
Definition roles_missing (declared : list string) (out : string) : list string :=
  let present := filter (λ n, n ≠ "") (TrimSpace <$> lines out) in
  filter (λ r, r ∉ present) declared.
Definition missingDatabaseRoles (kubeconfig : string) : M (result string (list string)) :=
  declared ← declaredDatabaseRoles kubeconfig;
  match declared with
  | Err e => mret (Err e)
  | Ok [] => mret (Ok [])
  | Ok declared =>
      primary ← cnpgPrimary kubeconfig;
      match primary with
      | Err _ | Ok EmptyString => mret (Err "the platform database has no primary to ask yet")
      | Ok primary =>
          out ← psql kubeconfig primary "postgres" "select rolname from pg_roles";
          mret (match out with
                | Err e => Err ("could not read pg_roles: " +:+ e)
                | Ok out => Ok (roles_missing declared out)
                end)
      end
  end.

Definition nudge_one (kubeconfig stamp line : string) : M unit :=
  match Fields line with
  | [ns; name] =>
      kubectl kubeconfig ["annotate"; "externalsecret"; name; "-n"; ns; "force-sync=" +:+ stamp; "--overwrite"] ;; mret tt
  | _ => mret tt
  end.
Definition nudgeStalledExternalSecrets (kubeconfig : string) : M unit :=
  out ← kubectl kubeconfig ["get"; "externalsecret"; "-A"; "-o";
    "jsonpath={range .items[?(@.status.conditions[0].reason!=" +:+ quoted "SecretSynced"
    +:+ ")]}{.metadata.namespace} {.metadata.name}{" +:+ quoted "\n" +:+ "}{end}"];
  match exit out with
  | Some _ => mret tt
  | None =>
      t ← Now;
      forM (lines (TrimSpace (stdout out))) (nudge_one kubeconfig (pretty (t / second)%Z))
  end.
Definition hubEnvironmentBlocker (kubeconfig : string) : M string :=
  out ← kubectl kubeconfig ["get"; "hubenvironment"; "hub-environment"; "-o";
    "jsonpath={range .status.conditions[?(@.status==" +:+ quoted "False" +:+ ")]}{.type}: {.message}{"
    +:+ quoted "\n" +:+ "}{end}"];
  mret (match exit out with
        | Some _ => "the HubEnvironment could not be read"
        | None => default "the HubEnvironment reports no failing condition; check the hub-operator's logs"
                    (first_line "hub-operator reports: " (stdout out))
        end).
Definition describeMissingRoles (missing : list string) : string :=
  match missing with
  | [r] => "the role " +:+ r +:+ " does not exist"
  | _ => "these roles do not exist: " +:+ Join missing ", "
  end.

(** What awaitDatabaseRolesProvisioned carries from turn to turn. *)
Record RolesWait := mkRolesWait { lastNudge : option Z; seen : bool; probed : bool; lastMissing : list string }.
Definition roles_timed_out (kubeconfig : string) (l : RolesWait) : M (RolesWait + unit) :=
  if negb (seen l) then throw "the DatabaseRolesProvisioned condition was never readable in 45m0s -- not false, ABSENT."
  else if negb (probed l) then throw "the platform databases could not be read in 45m0s to confirm their roles exist."
  else
    blocker ← hubEnvironmentBlocker kubeconfig;
    match lastMissing l with
    | [] => throw ("the hub-operator did not provision the platform's database roles within 45m0s. " +:+ blocker)
    | missing => throw ("the platform database is missing " +:+ describeMissingRoles missing +:+ " after 45m0s. " +:+ blocker)
    end.
Definition roles_turn (kubeconfig : string) (started : Z) (l : RolesWait) : M (RolesWait + unit) :=
  out ← kubectl kubeconfig ["get"; "hubenvironment"; "hub-environment"; "-o";
    conditions_where "type" "DatabaseRolesProvisioned" "status"];
  let status := TrimSpace (stdout out) in
  let ok := bool_decide (exit out = None) in
  let operatorDone := ok && String.eqb status "True" in
  missing ← missingDatabaseRoles kubeconfig;
  let l := mkRolesWait (lastNudge l) (seen l || (ok && negb (String.eqb status "")))
             (probed l || match missing with Ok _ => true | Err _ => false end)
             (match missing with Ok ms => ms | Err _ => lastMissing l end) in
  if operatorDone && match missing with Ok [] => true | _ => false end then mret (inr tt)
  else
    t ← Now;
    let due := match lastNudge l with None => true | Some t0 => (30 * second <? t - t0)%Z end in
    l ← (if due then nudgeStalledExternalSecrets kubeconfig ;;
                     t ← Now; mret (mkRolesWait (Some t) (seen l) (probed l) (lastMissing l))
         else mret l);
    t ← Now;
    if (45 * minute <? t - started)%Z then roles_timed_out kubeconfig l else mret (inl l).
Definition awaitDatabaseRolesProvisioned (kubeconfig : string) : M unit :=
  started ← Now;
  poll (Z.to_nat (45 * minute / (10 * second)) + 2) (10 * second) (roles_turn kubeconfig started)
    (mkRolesWait None false false []).

Definition BootstrapDBCluster : string := "infisical-db".
Definition database_turn (kubeconfig : string) (started : Z) (_ : unit) : M (unit + unit) :=
  let read field := kubectl kubeconfig ["get"; "cluster.postgresql.cnpg.io"; BootstrapDBCluster;
                                        "-n"; "platform-data"; "-o"; "jsonpath={.status." +:+ field +:+ "}"] in
  out ← read "readyInstances";
  let ready := TrimSpace (stdout out) in
  if bool_decide (exit out = None) && negb (String.eqb ready "") && negb (String.eqb ready "0") then mret (inr tt)
  else
    t ← Now;
    if (45 * minute <? t - started)%Z then
      phase ← read "phase";
      throw (BootstrapDBCluster +:+ " had no ready instance within 45m0s (CNPG reports "
             +:+ quoted (TrimSpace (stdout phase)) +:+ ").")
    else mret (inl tt).
Definition awaitBootstrapDatabaseReady (kubeconfig : string) : M unit :=
  started ← Now;
  poll (Z.to_nat (45 * minute / (10 * second)) + 2) (10 * second) (database_turn kubeconfig started) tt.

Definition hubIngressAddressResolved (kubeconfig : string) : M unit :=
  let read field := kubectl kubeconfig ["get"; "hubenvironment"; "hub-environment"; "-o";
                                        conditions_where "type" "IngressAddressResolved" field] in
  out ← read "status";
  match exit out with
  | Some _ => throw "the HubEnvironment could not be read to confirm the hub's ingress address is known"
  | None =>
      if String.eqb (TrimSpace (stdout out)) "True" then mret tt
      else if String.eqb (TrimSpace (stdout out)) "" then
        throw "the hub-operator has not reported IngressAddressResolved."
      else
        msg ← read "message";
        throw ("the hub's ingress address is not resolved: " +:+ TrimSpace (stdout msg))
  end.

(** ** The identity provider *)

Definition zitadelServing (kubeconfig : string) : M unit :=
  out ← kubectl kubeconfig ["get"; "deployment"; "zitadel"; "-n"; "platform-identity"; "-o"; "jsonpath={.status.readyReplicas}"];
  match exit out with
  | Some _ => throw "the zitadel deployment could not be read in platform-identity"
  | None =>
      let ready := TrimSpace (stdout out) in
      if String.eqb ready "" || String.eqb ready "0"
      then throw "the identity provider has no ready replica" else mret tt
  end.

(** A field of the zitadel Application. *)
Definition zitadel_application (kubeconfig : string) (output : list string) : M Output :=
  kubectl kubeconfig (["get"; "application"; "zitadel"; "-n"; "platform-ops"] ++ output)%list.
Definition zitadelApplicationExists (kubeconfig : string) : M bool :=
  out ← zitadel_application kubeconfig [];
  mret (bool_decide (exit out = None)).
Definition zitadelOutOfSync (kubeconfig : string) : M bool :=
  out ← zitadel_application kubeconfig ["-o"; "jsonpath={.status.sync.status}"];
  mret (bool_decide (exit out = None) && negb (String.eqb (TrimSpace (stdout out)) "Synced")).
Definition running_phase (phase : string) : bool := String.eqb phase "Running" || String.eqb phase "Terminating".
Definition zitadelSyncInFlight (kubeconfig : string) : M bool :=
  out ← zitadel_application kubeconfig ["-o"; "jsonpath={.status.operationState.phase}"];
  mret (bool_decide (exit out = None) && running_phase (TrimSpace (stdout out))).
Definition zitadelSyncStaleAfter : Z := 5 * minute.
Definition zitadelSyncIsStuck (kubeconfig : string) : M bool :=
  out ← zitadel_application kubeconfig ["-o"; "jsonpath={.status.operationState.phase} {.status.operationState.startedAt}"];
  t ← Now;
  mret (match exit out, Fields (stdout out) with
        | None, phase :: started :: _ =>
            running_phase phase &&
            match parse_rfc3339 started with
            | Some t0 => (zitadelSyncStaleAfter <? t - t0)%Z
            | None => false
            end
        | _, _ => false
        end).
Definition zitadelSchemaMissing (kubeconfig : string) : M bool :=
  primary ← cnpgPrimary kubeconfig;
  match primary with
  | Err _ | Ok EmptyString => mret false
  | Ok primary =>
      out ← psql kubeconfig primary "zitadel" "SELECT to_regclass('eventstore.events2') IS NULL";
      mret (match out with Ok out => String.eqb (TrimSpace out) "t" | Err _ => false end)
  end.
Definition zitadelOperationStartedAt (kubeconfig : string) : M string :=
  out ← zitadel_application kubeconfig ["-o"; "jsonpath={.status.operationState.startedAt}"];
  mret (match exit out with Some _ => "" | None => TrimSpace (stdout out) end).

Definition patch_zitadel (kubeconfig patch : string) : M Output :=
  kubectl kubeconfig ["patch"; "application"; "zitadel"; "-n"; "platform-ops"; "--type"; "merge"; "-p"; patch].
Definition clearZitadelSync (kubeconfig : string) : M unit :=
  out ← patch_zitadel kubeconfig ("{" +:+ quoted "operation" +:+ ":null}");
  match exit out with
  | Some e => throw ("could not clear the in-flight zitadel sync: " +:+ TrimSpace (combined out) +:+ ": " +:+ e)
  | None => mret tt
  end.

(** Up to 90 seconds, asking every 5, for a sync that is not [before]. *)
Fixpoint await_operation (fuel : nat) (kubeconfig before : string) (deadline : Z) : M bool :=
  match fuel with
  | O => mret false
  | S fuel =>
      t ← Now;
      if (deadline <=? t)%Z then mret false
      else
        pause (5 * second) ;;
        at_ ← zitadelOperationStartedAt kubeconfig;
        if negb (String.eqb at_ "") && negb (String.eqb at_ before) then mret true
        else await_operation fuel kubeconfig before deadline
  end.
Definition awaitNewZitadelOperation (kubeconfig before : string) : M bool :=
  t ← Now;
  await_operation 19 kubeconfig before (t + 90 * second)%Z.

Definition sync_operation : string :=
  "{" +:+ quoted "operation" +:+ ":{" +:+ quoted "initiatedBy" +:+ ":{" +:+ quoted "username" +:+ ":"
  +:+ quoted "soloz-bootstrap" +:+ "}," +:+ quoted "sync" +:+ ":{" +:+ quoted "syncOptions" +:+ ":["
  +:+ quoted "CreateNamespace=true" +:+ "," +:+ quoted "ServerSideApply=true" +:+ "]}}}".
Fixpoint request_sync (attempts : nat) (kubeconfig : string) : M unit :=
  match attempts with
  | O =>
      missing ← zitadelSchemaMissing kubeconfig;
      if negb missing then mret tt
      else throw "asked ArgoCD to sync the zitadel Application 3 times, no new sync began, and the schema is still absent"
  | S attempts =>
      before ← zitadelOperationStartedAt kubeconfig;
      out ← patch_zitadel kubeconfig sync_operation;
      match exit out with
      | Some e => throw ("could not request a zitadel sync: " +:+ TrimSpace (combined out) +:+ ": " +:+ e)
      | None =>
          started ← awaitNewZitadelOperation kubeconfig before;
          if (started : bool) then mret tt
          else
            missing ← zitadelSchemaMissing kubeconfig;
            if negb missing then mret tt else request_sync attempts kubeconfig
      end
  end.
Definition requestZitadelSync (kubeconfig : string) : M unit := request_sync 3 kubeconfig.

Definition prepareZitadelForRetry (kubeconfig : string) : M unit :=
  serving ← attempt (zitadelServing kubeconfig);
  match serving with Ok _ => mret tt | Err _ =>
  there ← zitadelApplicationExists kubeconfig;
  if negb there then mret tt else
  busy ← zitadelSyncInFlight kubeconfig;
  jammed ← (if (busy : bool) then zitadelSyncIsStuck kubeconfig else mret false);
  if busy && negb jammed then mret tt else
  stuckSync ← zitadelSyncIsStuck kubeconfig;
  outOfSync ← zitadelOutOfSync kubeconfig;
  schemaMissing ← zitadelSchemaMissing kubeconfig;
  if negb stuckSync && negb outOfSync && negb schemaMissing then mret tt
  else clearZitadelSync kubeconfig ;; requestZitadelSync kubeconfig
  end.

Definition zitadelHookFailure (kubeconfig : string) : M string :=
  out ← zitadel_application kubeconfig ["-o";
    "jsonpath={range .status.operationState.syncResult.resources[?(@.hookPhase==" +:+ quoted "Failed"
    +:+ ")]}{.name}: {.message}{" +:+ quoted "\n" +:+ "}{end}"];
  mret (match exit out with
        | Some _ => ""
        | None => default "" (first_line "ArgoCD recorded the hook failure: " (stdout out))
        end).
Definition zitadelSetupFailure (kubeconfig : string) : M string :=
  out ← kubectl kubeconfig ["logs"; "-n"; "platform-identity"; "job/zitadel-setup"; "-c"; "zitadel-setup"; "--tail=4"];
  let text := TrimSpace (combined out) in
  if bool_decide (exit out = None) && negb (String.eqb text "")
  then mret ("zitadel-setup last said: " +:+ default "" (last (lines text)))
  else
    msg ← zitadelHookFailure kubeconfig;
    mret (if negb (String.eqb msg "") then msg
          else "zitadel-setup produced no readable logs and ArgoCD recorded no hook failure").
Definition zitadel_turn (kubeconfig : string) (started : Z) (_ : unit) : M (unit + unit) :=
  r ← attempt (zitadelServing kubeconfig);
  match r with
  | Ok _ => mret (inr tt)
  | Err _ =>
      t ← Now;
      if (12 * minute <? t - started)%Z then
        reason ← zitadelSetupFailure kubeconfig;
        throw ("the identity provider did not start within 12m0s. " +:+ reason)
      else mret (inl tt)
  end.
Definition awaitZitadelReady (kubeconfig : string) : M unit :=
  started ← Now;
  poll (Z.to_nat (12 * minute / (15 * second)) + 2) (15 * second) (zitadel_turn kubeconfig started) tt.

(** ** seed.go *)

Definition ValidGatingMode (s : string) : result string GatingMode :=
  let s' := ToLower (TrimSpace s) in
  if String.eqb s' "" || String.eqb s' "sequenced" then Ok GatingSequenced
  else if String.eqb s' "converged" then Ok GatingConverged
  else Err ("invalid gating mode " +:+ quoted s +:+ " (expected sequenced|converged)").
Definition gatingMode : GatingMode :=
  match Gating o with GatingConverged => GatingConverged | _ => GatingSequenced end.
Definition sequenced : bool := match gatingMode with GatingSequenced => true | _ => false end.

Definition seedAppName : string := "platform-boundaries".
Definition boundaryCount : nat := 6.
Definition boundaryProject (n : Z) : string := "boundary-" +:+ two_digits n.
Definition boundaryDescriptions (n : Z) : string :=
  match n with
  | 1 => "Boundary 01 — platform infrastructure (ArgoCD, operators, CRDs)"
  | 2 => "Boundary 02 — platform data workloads (CNPG, Redis)"
  | 3 => "Boundary 03 — platform services (Infisical, hub Gateway, platform APIs)"
  | 4 => "Boundary 04 — tenant services (identity, billing, auth proxy)"
  | 5 => "Boundary 05 — fleet provisioning (ADR-047)"
  | 6 => "Boundary 06 — public tenant TLS (ADR-051)"
  | _ => ""
  end%Z.
Definition unlines (ls : list string) : string := Join ls newline.
Definition denyWindow : string := newline +:+ unlines [
   "  # ADR-055: boundary activation state. Present = inactive. Owned by Day-0 and";
   "  # removed when this boundary's phase opens it. Deliberately NOT reconciled";
   "  # from Git: this field is the Day-0/Day-1 lifecycle boundary (ADR-040).";
   "  # '* * * * *' for 24h is the encoding for " +:+ quoted "always active" +:+ " — a window opens";
   "  # every minute and outlives the next, so the deny never lapses.";
   "  syncWindows:";
   "    - kind: deny";
   "      schedule: '* * * * *'";
   "      duration: 24h";
   "      applications:";
   "        - '*'";
   "      manualSync: false";
   "      timeZone: UTC"].
Definition renderBoundaryAppProject (n : Z) (gated : bool) : string :=
  let window := if gated then denyWindow else "" in
  unlines [
   "apiVersion: argoproj.io/v1alpha1";
   "kind: AppProject";
   "metadata:";
   "  name: " +:+ boundaryProject n;
   "  namespace: platform-ops";
   "spec:";
   "  description: " +:+ boundaryDescriptions n;
   "  sourceRepos:";
   "    - '*'";
   "  destinations:";
   "    - namespace: '*'";
   "      server: '*'";
   "  clusterResourceWhitelist:";
   "    - group: '*'";
   "      kind: '*'";
   "  namespaceResourceWhitelist:";
   "    - group: '*'";
   "      kind: '*'" +:+ window;
   ""].

Definition bundleRegistry : string := "ghcr.io/kamarkat/charts".
Definition DevelopmentBundle : string := "development".
Definition renderSeedApplication (envRevision managementScope provider topology ingress tlsIssuer
    oidcIssuer oidcJwksURL projectID clientID bundleVersion instanceRepo hubDomain : string)
    (oidcScopes : list string) : string :=
  let scopes := String.concat "" ((λ sc, newline +:+ "        - " +:+ quoted sc) <$> oidcScopes) in
  let source :=
    if negb (String.eqb bundleVersion DevelopmentBundle)
    then unlines ["    repoURL: " +:+ quoted bundleRegistry; "    targetRevision: " +:+ quoted bundleVersion;
                  "    chart: environment-manager"]
    else unlines ["    repoURL: https://github.com/kamarkat/kamarkat"; "    targetRevision: " +:+ quoted envRevision;
                  "    path: manifests/argocd/environment-manager"] in
  unlines [
   "apiVersion: argoproj.io/v1alpha1";
   "kind: Application";
   "metadata:";
   "  name: " +:+ seedAppName;
   "  namespace: platform-ops";
   "spec:";
   "  project: default";
   "  source:";
   source;
   "    helm:";
   "      parameters:";
   "        - name: environmentRevision";
   "          value: " +:+ quoted envRevision;
   "        - name: bundleVersion";
   "          value: " +:+ quoted bundleVersion;
   "        - name: bundleRegistry";
   "          value: " +:+ quoted bundleRegistry;
   "        - name: instanceRepoURL";
   "          value: " +:+ quoted instanceRepo;
   "        - name: hubDomain";
   "          value: " +:+ quoted hubDomain;
   "        - name: management.infisicalEnvironmentSlug";
   "          value: " +:+ quoted managementScope;
   "        - name: provider";
   "          value: " +:+ quoted provider;
   "        - name: topology";
   "          value: " +:+ quoted topology;
   "        - name: hubIngressAddress";
   "          value: " +:+ quoted ingress;
   "        - name: publicTlsIssuer";
   "          value: " +:+ quoted tlsIssuer;
   "        - name: oidcIssuer";
   "          value: " +:+ quoted oidcIssuer;
   "        - name: oidcJwksUrl";
   "          value: " +:+ quoted oidcJwksURL;
   "        - name: infisical.fleet.projectId";
   "          value: " +:+ quoted projectID;
   "        - name: infisical.fleet.clientId";
   "          value: " +:+ quoted clientID;
   "      valuesObject:";
   "        oidcScopes:" +:+ scopes;
   "  destination:";
   "    server: https://kubernetes.default.svc";
   "    namespace: platform-ops";
   "  syncPolicy:";
   "    automated:";
   "      prune: true";
   "      selfHeal: true";
   "    syncOptions:";
   "      - ServerSideApply=true";
   ""].

(** *** hubdomain.go and box_values.go *)

(** A string field of a document, "" where it is not set; no other type is accepted. *)
Fixpoint yaml_string (doc : Yaml) (path : list string) : option string :=
  match path, doc with
  | [], YString s => Some s
  | _, YNull => Some ""
  | k :: path, YMap m =>
      match list_find (λ p, p.1 = k) m with
      | Some (_, (_, v)) => yaml_string v path
      | None => Some ""
      end
  | _, _ => None
  end.
Definition read_yaml_fields (path data : string) (fields : list (list string)) : result string (list string) :=
  match parse_yaml data with
  | None => Err ("parse " +:+ path)
  | Some doc =>
      match mapM (yaml_string doc) fields with
      | Some vs => Ok vs
      | None => Err ("parse " +:+ path)
      end
  end.

Definition hub_overlays : list string :=
  ["manifests/environments/management/patch-hubenvironment.yaml"; "manifests/environments/base/hubenvironment.yaml"].
Fixpoint zone_from (candidates : list string) : result string string :=
  match candidates with
  | [] => Err "no spec.domain declared in any hub overlay"
  | path :: rest =>
      match platform_file path with
      | Err NotExist => zone_from rest
      | Err (FsFailed e) => Err ("failed to read " +:+ path +:+ ": " +:+ e)
      | Ok data =>
          match read_yaml_fields path data [["spec"; "domain"]] with
          | Err e => Err ("failed to " +:+ e)
          | Ok vs => let d := TrimSpace (default "" (head vs)) in
                     if String.eqb d "" then zone_from rest else Ok d
          end
      end
  end.
Definition ReadHubZone : result string string := zone_from hub_overlays.
(** DeriveHubEndpoints(zone).ID *)
Definition identity_host (zone : string) : string := "id." +:+ TrimSpace (TrimSuffix zone ".").

Definition cluster_dir (rest : list string) : string :=
  path_join ([GitopsDir o; "registry"; "clusters"; ClusterName o] ++ rest)%list.
Definition ReadBoxValues : M (string * string) :=
  if String.eqb (GitopsDir o) "" then throw "no gitops directory"
  else if String.eqb (ClusterName o) "" then throw "no cluster name"
  else
    let path := cluster_dir ["values.yaml"] in
    data ← peek (readFile path);
    match data with
    | Err _ => throw ("read the box's declarations at " +:+ path)
    | Ok data =>
        match read_yaml_fields path data [["management"; "infisicalEnvironmentSlug"]; ["publicTlsIssuer"]] with
        | Ok [slug; issuer] =>
            if String.eqb slug "" then throw (path +:+ " declares no management.infisicalEnvironmentSlug")
            else if String.eqb issuer "" then throw (path +:+ " declares no publicTlsIssuer")
            else mret (slug, issuer)
        | Ok _ => throw ("parse " +:+ path)
        | Err e => throw e
        end
    end.
Definition publicTlsIssuerFor : M string :=
  v ← wrap "public TLS issuer" ReadBoxValues; mret v.2.

(** *** What the seed is told of the cluster *)

Definition hubIngressAddress (kubeconfig : string) : M string :=
  out ← kubectl kubeconfig ["get"; "hetznercluster"; "-n"; "platform-capi"; "-l";
    "cluster.x-k8s.io/cluster-name=" +:+ ClusterName o; "-o"; "jsonpath={.items[*].spec.controlPlaneEndpoint.host}"];
  mret (match exit out, Fields (TrimSpace (stdout out)) with None, [host] => host | _, _ => "" end).
Definition read_auth (kubeconfig key : string) : M string :=
  out ← kubectl kubeconfig ["get"; "secret"; "infisical-auth"; "-n"; "platform-security"; "-o";
    "jsonpath={.data." +:+ key +:+ "}"];
  mret (match exit out, b64decode (TrimSpace (stdout out)) with None, Some v => TrimSpace v | _, _ => "" end).
Definition infisicalCoordinates (kubeconfig : string) : M (string * string) :=
  projectID ← read_auth kubeconfig "projectId";
  clientID ← read_auth kubeconfig "client-id";
  mret (projectID, clientID).
Definition readSeedBundleVersion (kubeconfig : string) : M string :=
  out ← kubectl kubeconfig ["-n"; "platform-ops"; "get"; "application"; seedAppName; "-o";
    "jsonpath={.spec.source.helm.parameters[?(@.name==" +:+ quoted "bundleVersion" +:+ ")].value}"];
  mret (match exit out with Some _ => "" | None => TrimSpace (stdout out) end).
Definition currentGitBranch : M string :=
  out ← command ["git"; "rev-parse"; "--abbrev-ref"; "HEAD"];
  mret (match exit out with Some _ => "" | None => TrimSpace (stdout out) end).
Definition platformBoxInstanceRepo : string := "https://github.com/kamarkat/fleet-registry".
Definition instanceRepoURL : M string :=
  if negb (String.eqb (InstanceRepoURL o) "") then mret (InstanceRepoURL o)
  else if String.eqb (GitopsDir o) "" then mret platformBoxInstanceRepo
  else
    out ← command ["git"; "-C"; GitopsDir o; "remote"; "get-url"; "origin"];
    match exit out with
    | Some e => throw ("cannot read the origin remote of " +:+ GitopsDir o +:+ ": " +:+ e)
    | None =>
        let repo := TrimSpace (stdout out) in
        if String.eqb repo "" then throw (GitopsDir o +:+ " has no origin remote") else mret repo
    end.
(** The organisation of a repository URL: scheme, host and first path segment. *)
Definition org_of (repo : string) : result string string :=
  let repo := TrimSuffix repo ".git" in
  let repo :=
    if HasPrefix repo "git@" then
      let r := TrimPrefix repo "git@" in
      let '(a, b, found) := Cut r ":" in
      "https://" +:+ (if found then a +:+ "/" +:+ b else r)
    else repo in
  let parts := Split repo "/" in
  if (length parts <? 4)%nat
  then Err ("cannot read an organisation out of " +:+ quoted repo)
  else Ok (Join (take 4 parts) "/").
Definition boxOrgURL : M string :=
  repo ← instanceRepoURL;
  match org_of repo with Ok org => mret org | Err e => throw e end.

(** *** Values written into the tenant's repository *)

Definition record_values (name content what : string) : M unit :=
  let dir := cluster_dir ["generated"; "values"] in
  r ← mkdir_all dir;
  match r with Some e => throw ("cannot create " +:+ dir +:+ ": " +:+ e) | None =>
  let path := path_join [dir; name] in
  r ← write_file path content;
  match r with Some e => throw ("cannot record the " +:+ what +:+ " in " +:+ path +:+ ": " +:+ e) | None => mret tt end
  end.
Definition pki_block (projectID clientID : string) : string := unlines [
   "# This box's own Infisical, and the identity that issues its certificates.";
   "#";
   "# GENERATED BY DAY-0 (ADR-045). Do not edit; it is rewritten on every bootstrap.";
   "#";
   "# Written once Infisical has bootstrapped, because only then do these exist, and";
   "# recorded in the declared state rather than set on the live Application: the";
   "# root Application reconciles this repository with selfHeal, so a value that";
   "# lives only on the cluster is reverted within a sync.";
   "#";
   "# Without them the security boundary emits no ClusterIssuer at all, and every";
   "# certificate naming infisical-fleet-issuer stays pending -- the";
   "# argocd-agent mTLS identities never issue, and the Support Agent can never";
   "# enrol, because its client certificate IS its enrolment (ADR-035, ADR-077).";
   "#";
   "# Both together or neither. The chart refuses one without the other, because an";
   "# issuer built from half of them authenticates as nobody against a project that";
   "# does not exist.";
   "infisical:";
   "  fleet:";
   "    projectId: " +:+ quoted projectID;
   "    clientId: " +:+ quoted clientID;
   ""].
Definition writeFleetPKIValues (kubeconfig : string) : M unit :=
  if String.eqb (GitopsDir o) "" then mret tt
  else
    '(projectID, clientID) ← infisicalCoordinates kubeconfig;
    if String.eqb projectID "" || String.eqb clientID "" then mret tt
    else record_values "platform-pki-values.yaml" (pki_block projectID clientID) "PKI coordinates".
Definition dns_block (address : string) : string := unlines [
   "# The address every public hostname on this box resolves to.";
   "#";
   "# GENERATED BY DAY-0. Do not edit; it is rewritten on every bootstrap. It is the";
   "# CAPH control-plane load balancer (HetznerCluster.spec.controlPlaneEndpoint.host),";
   "# which also carries public ingress on 80/443 (ADR-046 §25.3).";
   "#";
   "# Read as a chart value rather than patched onto the live objects, so Git stays";
   "# the source of truth and ArgoCD has no field to ignore. The hub Gateway and all";
   "# nine HTTPRoutes take the annotation from it, because external-dns's";
   "# gateway-httproute source reads the target from the ROUTE and only falls back to";
   "# the Gateway -- whose address, in hostNetwork mode, is a ClusterIP it will not";
   "# publish.";
   "#";
   "# A stale value here reaches public DNS and every hub hostname resolves to";
   "# whatever it says, so it is regenerated rather than edited.";
   "hubIngressAddress: " +:+ quoted address;
   ""].
Definition writeGatewayDNSTarget (kubeconfig : string) : M unit :=
  if String.eqb (GitopsDir o) "" then mret tt
  else
    address ← hubIngressAddress kubeconfig;
    if String.eqb address "" then mret tt
    else record_values "gateway-dns-target.yaml" (dns_block address) "gateway DNS target".

(** *** Applying the seed *)

Definition kubectlApplyStdin (kubeconfig manifest : string) : M unit :=
  out ← run_command (mkCmd ["kubectl"; "--kubeconfig"; kubeconfig; "apply"; "-f"; "-"] "" manifest []);
  match exit out with Some e => throw (e +:+ newline +:+ combined out) | None => mret tt end.


Definition tenant_manifest (kubeconfig f : string) : M unit :=
  let path := cluster_dir [f] in
  data ← peek (readFile path);
  match data with
  | Err NotExist =>
      if String.eqb f "root.yaml" then mret tt
      else throw ("the tenant repository declares no cluster " +:+ quoted (ClusterName o))
  | Err (FsFailed e) => throw ("the tenant repository declares no cluster " +:+ quoted (ClusterName o) +:+ ": " +:+ e)
  | Ok seed =>
      match unsubstituted seed with
      | Some m => throw (path +:+ " still carries the placeholder " +:+ m)
      | None => wrap ("failed to apply " +:+ path) (kubectlApplyStdin kubeconfig seed)
      end
  end.
Definition applyTenantSeed (kubeconfig : string) : M unit :=
  if String.eqb (ClusterName o) "" then throw ("cannot seed from " +:+ GitopsDir o +:+ ": no cluster name")
  else forM ["bundle.yaml"; "root.yaml"] (tenant_manifest kubeconfig).

Definition oidcScopes : list string :=
  ["urn:zitadel:iam:user:resourceowner"; "urn:zitadel:iam:org:project:roles"].
Definition seed_bundle_version (existing : string) : string :=
  if negb (String.eqb (BundleVersionOverride o) "") then BundleVersionOverride o
  else if negb (String.eqb existing "") then existing
  else BundleVersion.
Definition applySeedApplication (kubeconfig : string) : M unit :=
  match ReadHubZone with
  | Err e => throw ("failed to read hub zone for the OIDC issuer: " +:+ e)
  | Ok zone =>
      let oidcIssuer := "https://" +:+ identity_host zone in
      let oidcJwksURL := oidcIssuer +:+ "/oauth/v2/keys" in
      publicTlsIssuer ← publicTlsIssuerFor;
      ingress ← hubIngressAddress kubeconfig;
      branch ← currentGitBranch;
      let envRevision := if negb (String.eqb branch "") && negb (String.eqb branch "main") then branch else "main" in
      existing ← readSeedBundleVersion kubeconfig;
      let bundleVersion := seed_bundle_version existing in
      '(projectID, clientID) ← infisicalCoordinates kubeconfig;
      if negb (String.eqb (GitopsDir o) "") then
        writeGatewayDNSTarget kubeconfig ;; applyTenantSeed kubeconfig
      else
        instanceRepo ← instanceRepoURL;
        wrap "failed to apply the seed Application"
          (kubectlApplyStdin kubeconfig
             (renderSeedApplication envRevision (ManagementScope o) (Name (oProvider o)) (Topology o) ingress
                publicTlsIssuer oidcIssuer oidcJwksURL projectID clientID bundleVersion instanceRepo zone oidcScopes))
  end.
Definition ReapplySeed (kubeconfig : string) : M unit := applySeedApplication kubeconfig.

Definition boundary_projects : string :=
  String.concat "" ((λ n, "---" +:+ newline +:+ renderBoundaryAppProject n sequenced) <$> seqZ 1 (Z.of_nat boundaryCount)).
Definition applySeed (kubeconfig : string) : M unit :=
  wrap "failed to apply boundary AppProjects" (kubectlApplyStdin kubeconfig boundary_projects) ;;
  applySeedApplication kubeconfig.

(** The name and value of a printed parameter list; the last value of a name wins. *)
Definition seed_parameters (out : string) : gmap string string :=
  foldl (λ m l, let '(name, value, found) := Cut (TrimSpace l) "=" in
                if (found : bool) then <[name := value]> m else m) ∅ (lines out).
Definition ReadSeedIdentity (kubeconfig : string) : M (string * string * string) :=
  out ← kubectl kubeconfig ["-n"; "platform-ops"; "get"; "application"; seedAppName; "-o";
    "jsonpath={range .spec.source.helm.parameters[*]}{.name}={.value}{" +:+ quoted "\n" +:+ "}{end}"];
  match exit out with
  | Some e => throw ("failed to read the seed Application " +:+ quoted seedAppName +:+ ": " +:+ e +:+ ": " +:+ TrimSpace (stderr out))
  | None =>
      let values := seed_parameters (stdout out) in
      let get k := default "" (values !! k) in
      let managementScope := get "management.infisicalEnvironmentSlug" in
      let provider := get "provider" in
      if String.eqb managementScope "" || String.eqb provider ""
      then throw ("the seed Application " +:+ quoted seedAppName +:+ " records no management.infisicalEnvironmentSlug or provider")
      else mret (managementScope, provider, get "topology")
  end.

(** *** Opening a boundary *)

Definition transport_errors : list string :=
  ["TLS handshake timeout"; "Unable to connect to the server"; "connection refused"; "connection reset by peer";
   "i/o timeout"; "EOF"; "no route to host"; "Client.Timeout exceeded"; "context deadline exceeded";
   "etcdserver: request timed out"; "etcdserver: leader changed"; "the server was unable to return a response";
   "apiserver is shutting down"].
Definition transientTransportError (out : string) : bool := existsb (Contains out) transport_errors.

Definition open_window (kubeconfig project : string) : M Output :=
  kubectl kubeconfig ["patch"; "appproject"; project; "-n"; "platform-ops"; "--type"; "merge"; "-p";
    "{" +:+ quoted "spec" +:+ ":{" +:+ quoted "syncWindows" +:+ ":null}}"].
(** [more] attempts are left after the one numbered [attempt_]. *)
Fixpoint patch_attempts (more : nat) (attempt_ : Z) (kubeconfig project : string) : M unit :=
  out ← open_window kubeconfig project;
  match exit out with
  | None => mret tt
  | Some e =>
      match more with
      | S more =>
          if transientTransportError (combined out)
          then pause (attempt_ * attempt_ * second)%Z ;; patch_attempts more (attempt_ + 1)%Z kubeconfig project
          else throw (e +:+ newline +:+ combined out)
      | O => throw (e +:+ newline +:+ combined out)
      end
  end.
Definition patchWithTransportRetry (kubeconfig project : string) : M unit := patch_attempts 4 1 kubeconfig project.

Definition activateBoundary (kubeconfig : string) (n : Z) : M unit :=
  match gatingMode with
  | GatingConverged => mret tt
  | _ => forM (seqZ 1 n) (λ i, wrap ("failed to activate boundary " +:+ two_digits i)
                                 (patchWithTransportRetry kubeconfig (boundaryProject i)))
  end.
Definition deployBoundary (kubeconfig : string) (n : Z) : M unit :=
  applySeed kubeconfig ;; activateBoundary kubeconfig n.
Definition awaitBoundaryInventory (kubeconfig : string) (n : Z) : M unit :=
  Wait [BoundaryInventoryChecker (two_digits n)] (10 * second) (10 * minute) kubeconfig.

Definition argocd_rollout (kubeconfig what : string) (args : list string) : M unit :=
  out ← kubectl kubeconfig ("rollout" :: args);
  match exit out with
  | Some e => throw (what +:+ " argocd-application-controller: " +:+ e +:+ newline +:+ combined out)
  | None => mret tt
  end.
Definition refreshArgoCDSchemaCache (kubeconfig : string) : M unit :=
  argocd_rollout kubeconfig "restart" ["restart"; "statefulset/argocd-application-controller"; "-n"; "platform-ops"] ;;
  argocd_rollout kubeconfig "wait for" ["status"; "statefulset/argocd-application-controller"; "-n"; "platform-ops"; "--timeout=600s"].

(** ** boundaries.go: running a boundary *)

Definition boundary_steps : BoundarySteps (string → M unit) :=
  mkSteps (λ kc, waitForOperators kc (OperatorWebhookPatterns (oProvider o))) waitForCRDs waitForOperatorPods
    awaitBootstrapDatabaseReady prepareZitadelForRetry awaitDatabaseRolesProvisioned awaitZitadelReady.

Definition runBoundary (kubeconfig : string) (c : boundaryContract (string → M unit)) : M unit :=
  let tag := "[boundary" +:+ two_digits (number c) +:+ "]" in
  if negb (declared (c_requires c)) then throw (tag +:+ " declares no precondition contract")
  else
    forM (checks (c_requires c)) (λ req, wrap (tag +:+ " requires " +:+ what req) (run req kubeconfig)) ;;
    (if activates c then deployBoundary kubeconfig (number c) else mret tt) ;;
    (if refreshesSchema c then refreshArgoCDSchemaCache kubeconfig else mret tt) ;;
    awaitBoundaryInventory kubeconfig (number c) ;;
    (match prepare c with
     | Some step => wrap (tag +:+ " " +:+ what step) (run step kubeconfig)
     | None => mret tt
     end) ;;
    if negb (declared (c_readiness c)) then throw (tag +:+ " declares no readiness contract")
    else forM (checks (c_readiness c)) (λ chk, wrap (tag +:+ " " +:+ what chk) (run chk kubeconfig)).
Definition deployBoundaryN (kubeconfig : string) (n : Z) : M unit :=
  match contractFor (boundaryContracts boundary_steps) n with
  | Ok c => runBoundary kubeconfig c
  | Err e => throw e
  end.
End cluster.
