(* ===== verification/BootstrapRun.v ===== *)
(** * BootstrapRun: the phases of Day-0 and the runs that resume them.

    Models the rest of internal/kakt-cli/bootstrap/orchestrator.go and
    phase_postcondition.go: the phase runner, the record it keeps in the tenant's
    repository, the phases in their order, the artifacts committed between them, and
    what a run makes of a record it finds. *)

From S2P Require Import Prelude.
From S2P Require Import BootstrapGraph.
From S2P Require Import Bootstrap.
From S2P Require Import BootstrapCluster.

Local Open Scope string_scope.

(** The order in which Go ranges over a map keyed by phases. *)
Class MapOrder := map_order : list BootstrapPhase → list BootstrapPhase.
Class MapOrderLaws (R : MapOrder) := map_order_perm l : map_order l ≡ₚ l.

(** What follows the first occurrence of [sep], as strings.Cut finds it. *)
Fixpoint cut_at (sep s : string) : option string :=
  if String.prefix sep s then Some (str_drop (String.length sep) s)
  else match s with EmptyString => None | String _ s => cut_at sep s end.
(** The distinct entries, each at its first occurrence. *)
Fixpoint first_seen (seen l : list string) : list string :=
  match l with
  | [] => []
  | x :: l => if decide (x ∈ seen) then first_seen seen l else x :: first_seen (x :: seen) l
  end.

Section run.
Context {Out : Outside} {P : Parts} {J : StateJson} {R : MapOrder}.
Context (o : Orchestrator).
Abbreviation M := (goM (@Machine Out) string).

(** ** The record *)

Definition phaseDone (b : BootstrapState) (phase : BootstrapPhase) : bool :=
  existsb (String.eqb phase) (CompletedPhases b).
Definition markPhaseComplete (phase : BootstrapPhase) (b : BootstrapState) : BootstrapState :=
  set_CurrentPhase phase (set_CompletedPhases (CompletedPhases b ++ [phase])%list b).
Definition removePhase (phases : list BootstrapPhase) (phase : BootstrapPhase) : list BootstrapPhase :=
  filter (λ p, p ≠ phase) phases.
Definition withdraw (phase : BootstrapPhase) (b : BootstrapState) : BootstrapState :=
  set_CompletedPhases (removePhase (CompletedPhases b) phase) b.
(** elapsed.Round(time.Millisecond) *)
Definition milliseconds (d : Z) : Z := ((d + 500000) / 1000000)%Z.
Definition addTiming (phase : BootstrapPhase) (started elapsed : Z) (b : BootstrapState) : BootstrapState :=
  set_PhaseTimings (PhaseTimings b ++ [mkTiming phase started (started + elapsed) (milliseconds elapsed)])%list b.

(** ** Keeping the record in the tenant's repository *)

Definition git (args : list string) : M Output := run_command (mkCmd ("git" :: args) (GitopsDir o) "" []).
Definition succeeds (m : M Output) : M bool := out ← m; mret (bool_decide (exit out = None)).
Definition TenantStateDir : string := ".state".
Definition persistTenantState (label : string) : M unit :=
  if String.eqb (GitopsDir o) "" then mret tt
  else
    ok ← succeeds (git ["add"; TenantStateDir]);
    if negb ok then mret tt else
    same ← succeeds (git ["diff"; "--cached"; "--quiet"]);
    if (same : bool) then mret tt else
    ok ← succeeds (git ["commit"; "-m"; "chore(bootstrap): " +:+ label +:+ " [skip ci]"]);
    if negb ok then mret tt else
    ok ← succeeds (git ["pull"; "--rebase"; "--autostash"]);
    if negb ok then mret tt else
    _ ← git ["push"]; mret tt.

(** ** The phase runner *)

(** Whether the phase is to be run; a record whose postcondition fails is withdrawn. *)
Definition phase_due (phase : BootstrapPhase) (postcondition : option (M unit)) : M bool :=
  b ← state;
  if negb (phaseDone b phase) then mret true
  else
    match postcondition with
    | None => emit (Skipped phase) ;; mret false
    | Some check =>
        r ← attempt check;
        match r with
        | Ok _ => emit (Holds phase) ;; mret false
        | Err e =>
            emit (Withdrew phase e) ;;
            update (withdraw phase) ;;
            Save ;;
            mret true
        end
    end.
Definition perform (phase : BootstrapPhase) (label : string) (action : M unit) : M unit :=
  started ← Now;
  b ← state;
  emit (Began phase (CompletedPhases b)) ;;
  r ← attempt action;
  match r with
  | Err e => emit (FailedAfter phase) ;; throw ("[" +:+ label +:+ "] " +:+ e)
  | Ok _ =>
      t ← Now;
      emit (Returned phase) ;;
      update (λ b, markPhaseComplete phase (addTiming phase started (t - started) b)) ;;
      Save ;;
      persistTenantState label
  end.
Definition runPhase (phase : BootstrapPhase) (label : string) (action : M unit)
    (postcondition : option (M unit)) : M unit :=
  due ← phase_due phase postcondition;
  if (due : bool) then perform phase label action else mret tt.

(** ** phase_postcondition.go *)

Definition phasePostconditions (kubeconfig : string) : list (BootstrapPhase * M unit) :=
  [(PhaseBoundary04, zitadelServing kubeconfig);
   (PhasePivotReady, tailnetCredentialStagedOnHub o kubeconfig);
   (PhaseOnPremJoin, onPremWorkersPresent o kubeconfig);
   (PhaseBoundary06, hubIngressAddressResolved kubeconfig)].
Definition postcondition (kubeconfig : string) (phase : BootstrapPhase) : M unit :=
  match list_find (λ p, p.1 = phase) (phasePostconditions kubeconfig) with
  | Some (_, (_, check)) => check
  | None => mret tt
  end.
Fixpoint unmet_among (phases : list BootstrapPhase) (kubeconfig : string) : M (list (BootstrapPhase * string)) :=
  match phases with
  | [] => mret []
  | phase :: phases =>
      b ← state;
      if negb (phaseDone b phase) then unmet_among phases kubeconfig
      else
        r ← attempt (postcondition kubeconfig phase);
        rest ← unmet_among phases kubeconfig;
        mret (match r with Ok _ => rest | Err e => (phase, e) :: rest end)
  end.
Definition unmetPostconditions (kubeconfig : string) : M (list (BootstrapPhase * string)) :=
  unmet_among (map_order ((phasePostconditions kubeconfig).*1)) kubeconfig.
Definition withdrawCompletion (unmet : list BootstrapPhase) (b : BootstrapState) : BootstrapState :=
  let b := foldl (λ b p, withdraw p b) (withdraw PhaseComplete b) unmet in
  match last (CompletedPhases b) with
  | Some p => set_CurrentPhase p b
  | None => b
  end.

(** ** Kubeconfigs *)

Definition defaultKubeconfigPath : M string :=
  peek (λ e,
    let env := TrimSpace (getenv "KUBECONFIG" e) in
    let first := default "" (head (Split env ":")) in
    if negb (String.eqb env "") && negb (String.eqb first "") then first
    else path_join [homeDir e; ".kube"; "config"]).
(** The path pinKubeconfig writes; it is under the temporary directory of this host. *)
Definition pinned_path (kubeContext : string) : M string :=
  peek (λ e, path_join [tempDir e; "hub-bootstrap-" +:+ kubeContext +:+ ".kubeconfig"]).
Definition pinKubeconfig (kubeconfig kubeContext : string) : M string :=
  out ← command ["kubectl"; "--kubeconfig"; kubeconfig; "--context"; kubeContext;
                 "config"; "view"; "--minify"; "--flatten"; "-o"; "yaml"];
  match exit out with
  | Some e => throw ("context " +:+ quoted kubeContext +:+ " not resolvable in " +:+ kubeconfig +:+ ": " +:+ e)
  | None =>
      path ← pinned_path kubeContext;
      r ← write_file path (stdout out);
      match r with
      | Some e => throw ("failed to write a pinned kubeconfig: " +:+ e)
      | None => mret path
      end
  end.
Definition kubeconfigPaths : M (string * string) :=
  b ← state;
  let recorded := BootstrapKubeconfig b in
  kubeconfig ← (if String.eqb recorded "" then defaultKubeconfigPath else mret recorded);
  let ctx := if negb (String.eqb (sBootstrapContext b) "") then sBootstrapContext b
             else if negb (String.eqb (oBootstrapContext o) "") then oBootstrapContext o
             else "kind-" +:+ ClusterName o in
  pinned ← attempt (pinKubeconfig kubeconfig ctx);
  match pinned with
  | Ok pinned => mret (pinned, ctx)
  | Err e =>
      if negb (String.eqb recorded "")
      then throw ("the bootstrap cluster's kubeconfig no longer resolves context " +:+ quoted ctx
                  +:+ ". state records " +:+ recorded +:+ ": " +:+ e)
      else mret (kubeconfig, ctx)
  end.

(** The hub's kubeconfig out of the bootstrap cluster's secret, or "". *)
Definition hubKubeconfigFromBootstrap (bootstrapKubeconfig : string) : M string :=
  out ← kubectl bootstrapKubeconfig ["-n"; "platform-capi"; "get"; "secret"; ClusterName o +:+ "-kubeconfig";
                                     "-o"; "jsonpath={.data.value}"];
  match exit out with Some _ => mret "" | None =>
  if String.eqb (stdout out) "" then mret "" else
  match b64decode (stdout out) with None => mret "" | Some decoded =>
  let path := path_join ["k8-secrets"; "kubeconfig"; ClusterName o +:+ ".kubeconfig"] in
  r ← mkdir_all (path_join ["k8-secrets"; "kubeconfig"]);
  match r with Some _ => mret "" | None =>
  r ← write_file path decoded;
  match r with Some _ => mret "" | None =>
  a ← peek (absPath path);
  mret (match a with Ok a => a | Err _ => path end)
  end end end end.

(** ** Phases 2, 4 and 5c *)

Definition NamespaceCreate (kubeconfig context ns : string) : M unit :=
  home ← peek homeDir;
  let args := ((if negb (String.eqb kubeconfig "") && negb (String.eqb kubeconfig (path_join [home; ".kube"; "config"]))
                then ["--kubeconfig"; kubeconfig] else [])
               ++ (if negb (String.eqb context "") then ["--context"; context] else [])
               ++ ["create"; "namespace"; ns])%list in
  out ← command ("kubectl" :: args);
  match exit out with
  | None => mret tt
  | Some e =>
      if Contains (combined out) "already exists" || Contains (combined out) "AlreadyExists" then mret tt
      else throw ("failed to create namespace: " +:+ e +:+ newline +:+ combined out)
  end.
Definition createKindCluster : M unit :=
  if negb (String.eqb (oBootstrapContext o) "") then update (set_sBootstrapContext (oBootstrapContext o))
  else
    there ← outside (kind_Exists (ClusterName o));
    (if (there : bool) then mret tt
     else wrap "failed to create Kind cluster" (outside (kind_Create (ClusterName o) (KindConfigPath (oProvider o))))) ;;
    let context := "kind-" +:+ ClusterName o in
    update (set_sBootstrapContext context) ;;
    kubeconfig ← defaultKubeconfigPath;
    pinned ← wrap ("the bootstrap cluster was created but context " +:+ quoted context +:+ " is not in " +:+ kubeconfig)
               (pinKubeconfig kubeconfig context);
    update (set_BootstrapKubeconfig pinned) ;;
    wrap "failed to create namespace" (NamespaceCreate kubeconfig context "platform-capi").
Definition installCAPI (kubeconfig contextName : string) : M unit :=
  wrap "failed to install CAPI operator" (outside (capi_Install kubeconfig contextName "platform-capi")) ;;
  outside (OnCAPIInit (oProvider o) kubeconfig contextName "platform-capi").

Definition ensureArgoCDGitHubAuth (kubeconfig orgURL : string) : M unit :=
  env ← peek (getenv "GITHUB_TOKEN");
  token ← (if negb (String.eqb env "") then mret env
           else
             data ← peek (readFile "k8-secrets/github/github-pat-token");
             match data with
             | Ok data => mret (TrimSpace data)
             | Err _ => throw "GITHUB_TOKEN not set and github-pat-token file unreadable"
             end);
  if String.eqb token "" then throw "GITHUB_TOKEN is empty — ArgoCD cannot read this box's own gitops repository"
  else outside (FixArgoCDGitHubAuth kubeconfig token orgURL).
Definition installArgoCDAndSeed (kubeconfig : string) : M unit :=
  if String.eqb (TrimSpace kubeconfig) "" then throw "no hub kubeconfig"
  else
    wrap "failed to install ArgoCD" (outside (InstallArgoCD kubeconfig)) ;;
    deployBoundary o kubeconfig 1 ;;
    orgURL ← boxOrgURL o;
    wrap "failed to configure ArgoCD GitHub access" (ensureArgoCDGitHubAuth kubeconfig orgURL) ;;
    outside (InstallEscrowCredentials kubeconfig).
Definition preflight : M unit :=
  checkPlacementCapacityRequested o ;;
  forM (PreflightValidators (oProvider o)) (λ v, wrap "preflight validation failed" (outside v)).

(** ** ADR-045 artifacts *)

Definition HubOverlayDir : string := "management".
(** Where a registered artifact is in the tenant's repository. *)
Definition relocate (a : adr045Artifact) : result string adr045Artifact :=
  match cut_at "/generated/" (File a) with
  | None => Err ("ADR-045 artifact " +:+ quoted (File a) +:+ " is not under a generated/ directory")
  | Some below =>
      Ok (mkArtifact (path_join ["registry"; "clusters"; ClusterName o; "generated"; below]) (ConsumedBy a) (RequiredFields a))
  end.

Fixpoint relocate_all (l : list adr045Artifact) : result string (list adr045Artifact) :=
  match l with
  | [] => Ok []
  | a :: l => match relocate a with
              | Err e => Err e
              | Ok a => match relocate_all l with Ok l => Ok (a :: l) | Err e => Err e end
              end
  end.
Definition readADR045Registry : result string (list adr045Artifact) :=
  match artifacts_yaml with
  | Err e => Err ("read ADR-045 registry: " +:+ e)
  | Ok arts =>
      let arts := (λ a, mkArtifact (ReplaceAll (File a) "{env}" HubOverlayDir) (ConsumedBy a) (RequiredFields a)) <$> arts in
      if String.eqb (GitopsDir o) "" then Ok arts
      else if String.eqb (ClusterName o) "" then Err "ADR-045 artifacts belong to one cluster, and no cluster is named"
      else relocate_all arts
  end.
Definition adr045GeneratedDirs : result string (list string) :=
  match readADR045Registry with
  | Err e => Err e
  | Ok arts => Ok (first_seen [] ((λ a, dir_of (File a) +:+ "/") <$> arts))
  end.
Definition adr045Consumers : result string (list string) :=
  match readADR045Registry with
  | Err e => Err e
  | Ok arts => Ok (first_seen [] (filter (λ c, c ≠ "") (ConsumedBy <$> arts)))
  end.

(** Whether the field of a document is there and not empty. *)
Definition populated (v : Yaml) : bool :=
  match v with
  | YString s => negb (String.eqb (TrimSpace s) "")
  | YMap m => negb (bool_decide (length m = 0%nat))
  | YList l => negb (bool_decide (length l = 0%nat))
  | YNull => false
  | YOther => true
  end.
Fixpoint field_found (doc : list (string * Yaml)) (parts : list string) : bool :=
  match parts with
  | [] => true
  | part :: rest =>
      match list_find (λ p, p.1 = part) doc with
      | None => false
      | Some (_, (_, v)) =>
          match rest, v with
          | [], _ => populated v
          | _, YMap m => field_found m rest
          | _, _ => false
          end
      end
  end.
Definition yaml_document (data : string) : option (list (string * Yaml)) :=
  match parse_yaml data with
  | Some (YMap m) => Some m
  | Some YNull => Some []
  | _ => None
  end.
Definition validate_artifact (root : string) (a : adr045Artifact) : M unit :=
  data ← peek (readFile (path_join [root; File a]));
  match data with
  | Err _ => throw ("artifact " +:+ File a +:+ ": file not found")
  | Ok data =>
      match yaml_document data with
      | None => throw ("artifact " +:+ File a +:+ ": invalid YAML")
      | Some doc =>
          forM (RequiredFields a) (λ field,
            if field_found doc (Split field ".") then mret tt
            else throw ("artifact " +:+ File a +:+ ": required field " +:+ field +:+ " is missing or empty"))
      end
  end.
Definition validateADR045Artifacts : M unit :=
  cwd ← peek (absPath ".");
  match cwd with Err e => throw ("get working directory: " +:+ e) | Ok cwd =>
  match readADR045Registry with Err e => throw e | Ok arts =>
  let root := if String.eqb (GitopsDir o) "" then cwd else GitopsDir o in
  forM arts (validate_artifact root)
  end end.

Definition gitCommitArtifacts (paths : list string) : M unit :=
  found ← peek (lookPath "git");
  match found with None => throw "git not found" | Some _ =>
  forM paths (λ p,
    out ← git ["add"; p];
    match exit out with
    | Some e => throw ("git add " +:+ p +:+ ": " +:+ e +:+ newline +:+ combined out)
    | None => mret tt
    end) ;;
  same ← succeeds (git ["diff"; "--cached"; "--quiet"]);
  (if (same : bool) then mret tt
   else
     out ← git ["commit"; "-m"; "chore: bootstrap-generated-gitops-artifacts [skip ci]"];
     match exit out with
     | Some e => throw ("git commit: " +:+ e +:+ newline +:+ combined out)
     | None => mret tt
     end) ;;
  _ ← git ["pull"; "--rebase"];
  out ← git ["push"];
  match exit out with
  | Some e => throw ("git push: " +:+ e +:+ newline +:+ TrimSpace (combined out))
  | None => mret tt
  end
  end.
Definition commitGeneratedArtifacts : M unit :=
  prefixed "[adr045-commit] " validateADR045Artifacts ;;
  match adr045GeneratedDirs with
  | Err e => throw ("[adr045-commit] " +:+ e)
  | Ok paths =>
      wrap "[adr045-commit] the generated artifacts could not be committed, and boundary 04 reads them from git"
        (gitCommitArtifacts paths)
  end.

(** *** Waiting for the consumers *)

Definition app_status (kubeconfig app field : string) : M Output :=
  kubectl kubeconfig ["get"; "application"; app; "-n"; "platform-ops"; "-o"; "jsonpath={.status." +:+ field +:+ ".status}"].
Definition checkApp (kubeconfig app : string) : M (result string (bool * bool)) :=
  sync ← app_status kubeconfig app "sync";
  match exit sync with
  | Some e => mret (Err ("get sync status: " +:+ e))
  | None =>
      health ← app_status kubeconfig app "health";
      mret (match exit health with
            | Some e => Err ("get health status: " +:+ e)
            | None => Ok (String.eqb (TrimSpace (stdout sync)) "Synced", String.eqb (TrimSpace (stdout health)) "Healthy")
            end)
  end.
Definition getStatus (kubeconfig app : string) : M string :=
  sync ← app_status kubeconfig app "sync";
  health ← app_status kubeconfig app "health";
  mret ("sync=" +:+ TrimSpace (stdout sync) +:+ " health=" +:+ TrimSpace (stdout health)).
(** One tick: whether every application is synced and healthy. *)
Fixpoint all_healthy (kubeconfig : string) (apps : list string) : M bool :=
  match apps with
  | [] => mret true
  | app :: apps =>
      r ← checkApp kubeconfig app;
      ok ← (match r with
            | Ok (true, true) => mret true
            | Ok _ => _ ← getStatus kubeconfig app; mret false
            | Err _ => mret false
            end);
      rest ← all_healthy kubeconfig apps;
      mret (ok && rest)
  end.
Definition timed_out (kubeconfig : string) (apps : list string) : M unit :=
  failures ← foldM (λ acc app, st ← getStatus kubeconfig app; mret (acc ++ [app +:+ ": " +:+ st])%list) apps [];
  throw (match failures with
         | [] => "context deadline exceeded"
         | _ => "timeout waiting for ArgoCD apps:" +:+ newline +:+ "  " +:+ Join failures (newline +:+ "  ")
         end).
Fixpoint wait_apps (fuel : nat) (kubeconfig : string) (apps : list string) (deadline : Z) : M unit :=
  match fuel with
  | O => timed_out kubeconfig apps
  | S fuel =>
      r ← attempt (pause (15 * second));
      t ← Now;
      match r with
      | Err _ => timed_out kubeconfig apps
      | Ok _ =>
          if (deadline <=? t)%Z then timed_out kubeconfig apps
          else
            ok ← all_healthy kubeconfig apps;
            if (ok : bool) then mret tt else wait_apps fuel kubeconfig apps deadline
      end
  end.
(** Within 45 minutes, a tick every 15 seconds. *)
Definition waitForArgoCDAppsHealthy (kubeconfig : string) (apps : list string) : M unit :=
  t ← Now;
  wait_apps 180 kubeconfig apps (t + 45 * minute)%Z.

(** ** The phases *)

Definition resolveHubKubeconfig (kubeconfig : string) : M string :=
  kc ← hubKubeconfigFromBootstrap kubeconfig;
  if negb (String.eqb kc "") then mret kc else b ← state; mret (MgmtKubeconfig b).

(** Phases 1 to 5c: up to the pivot. *)
Definition before_pivot : M (string * string) :=
  runPhase PhasePreFlight "preflight" preflight None ;;
  wrap "bootstrap create failed" (runPhase PhaseBootstrapCreate "bootstrap-create" createKindCluster None) ;;
  '(kubeconfig, bootstrapCtx) ← kubeconfigPaths;
  runPhase PhaseDayZero "day0-infra" (outside (ProvisionDayZero (oProvider o) kubeconfig)) None ;;
  runPhase PhaseCAPIInit "capi-init" (installCAPI kubeconfig bootstrapCtx) None ;;
  runPhase PhaseClusterProvision "cluster-provision"
    (outside (ProvisionManagementCluster (oProvider o)
       (mkProvision (ClusterName o) kubeconfig bootstrapCtx (Debug o) (GitopsDir o) (OIDCIssuerURL o) (OIDCClientID o) (Encryption o))))
    None ;;
  runPhase PhaseOnPremJoin "on-prem-join"
    (kc ← resolveHubKubeconfig kubeconfig; joinHomeWorkers o kc)
    (Some (kc ← resolveHubKubeconfig kubeconfig; postcondition kc PhaseOnPremJoin)) ;;
  runPhase PhaseArgoCDInstall "argocd-install"
    (kc ← resolveHubKubeconfig kubeconfig; installArgoCDAndSeed kc) None ;;
  mret (kubeconfig, bootstrapCtx).

(** Phase 8; the deletion may fail, the record is made once. *)
Definition cleanup : M unit :=
  (if KeepBootstrap o then mret tt else _ ← attempt (outside (kind_Delete (ClusterName o))); mret tt) ;;
  b ← state;
  if phaseDone b PhaseCleanup then mret tt
  else update (markPhaseComplete PhaseCleanup) ;; _ ← attempt Save; mret tt.

(** Phases 6 to 8. The local mgmtKubeconfig of the code is the recorded one throughout: it
    starts as it and a pivot that succeeds sets both. *)
Definition pivot (kubeconfig bootstrapCtx : string) : M string :=
  update (λ b, if String.eqb (MgmtKubeconfig b) "" && phaseDone b PhasePivotMove then withdraw PhasePivotMove b else b) ;;
  runPhase PhasePivotMove "pivot-move"
    (kc ← outside (PivotMove (oProvider o) (mkPivot (ClusterName o) kubeconfig bootstrapCtx (Debug o) (Encryption o)));
     update (set_MgmtKubeconfig kc)) None ;;
  b ← state; let mgmtKubeconfig := MgmtKubeconfig b in
  runPhase PhasePivotReady "pivot-ready" (outside (PivotReady (oProvider o) mgmtKubeconfig))
    (Some (postcondition mgmtKubeconfig PhasePivotReady)) ;;
  cleanup ;;
  mret mgmtKubeconfig.

(** Phases 9 to 11f: the platform, up to the vault. *)
Definition platform (mgmtKubeconfig : string) : M unit :=
  runPhase PhaseClusterClassDeploy "clusterclass-deploy"
    (outside (clusterclass_Deploy mgmtKubeconfig "platform-capi" (ClusterClassPaths (oProvider o)))) None ;;
  runPhase PhasePlatformPreReqs "platform-pre-reqs" (outside (OnPlatformPreReqs (oProvider o) mgmtKubeconfig)) None ;;
  runPhase PhaseBoundary01 "boundary01" (deployBoundaryN o mgmtKubeconfig 1) None ;;
  runPhase PhaseGenerateLocalSecrets "generate-local-secrets"
    (outside (GenerateLocalSecrets mgmtKubeconfig) ;; outside (InstallPlatformCredentials mgmtKubeconfig)) None ;;
  runPhase PhaseBoundary02 "boundary02" (deployBoundaryN o mgmtKubeconfig 2) None ;;
  runPhase PhaseInjectCACert "inject-ca-cert" (outside (UpdateInfisicalSecretsWithCNPGCert mgmtKubeconfig)) None ;;
  runPhase PhaseBoundary03 "boundary03" (deployBoundaryN o mgmtKubeconfig 3) None ;;
  runPhase PhaseBootstrapInfisicalAPI "bootstrap-infisical-api" (outside (BootstrapInfisicalAPI mgmtKubeconfig)) None.

(** Phases 11g to 11i. *)
Definition tenant_boundaries (mgmtKubeconfig : string) : M unit :=
  runPhase PhaseBoundary04 "boundary04" (deployBoundaryN o mgmtKubeconfig 4)
    (Some (postcondition mgmtKubeconfig PhaseBoundary04)) ;;
  runPhase PhaseBoundary05 "boundary05" (deployBoundaryN o mgmtKubeconfig 5) None ;;
  runPhase PhaseBoundary06 "boundary06" (deployBoundaryN o mgmtKubeconfig 6) None.

(** The vault's coordinates and the artifacts, between the boundaries. *)
Definition publish_artifacts (mgmtKubeconfig : string) : M unit :=
  writeFleetPKIValues o mgmtKubeconfig ;;
  wrap "re-apply seed with Infisical coordinates" (ReapplySeed o mgmtKubeconfig) ;;
  commitGeneratedArtifacts.
(** Phase 11j *)
Definition verify_consumers (mgmtKubeconfig : string) : M unit :=
  match adr045Consumers with
  | Err e => throw ("[adr045-commit] " +:+ e)
  | Ok apps => prefixed "[adr045-commit] " (waitForArgoCDAppsHealthy mgmtKubeconfig apps)
  end.
Definition complete (mgmtKubeconfig : string) : M unit :=
  t ← Now;
  update (λ b, set_CompletedAt (Some t) (set_CurrentPhase PhaseComplete
                 (set_CompletedPhases (CompletedPhases b ++ [PhaseComplete])%list b))) ;;
  _ ← attempt Save;
  _ ← attempt (outside (GetArgoCDPassword mgmtKubeconfig));
  mret tt.

(** The pipeline on the record in memory. *)
Definition pipeline : M unit :=
  '(kubeconfig, bootstrapCtx) ← before_pivot;
  mgmtKubeconfig ← pivot kubeconfig bootstrapCtx;
  platform mgmtKubeconfig ;;
  publish_artifacts mgmtKubeconfig ;;
  tenant_boundaries mgmtKubeconfig ;;
  verify_consumers mgmtKubeconfig ;;
  runPhase PhaseFinalize "finalize"
    (_ ← outside (Finalize (oProvider o)
            (mkFinalize mgmtKubeconfig (ClusterName o) "platform-capi" (MergeKubeconfig o) (Debug o))); mret tt) None ;;
  complete mgmtKubeconfig.
Definition fresh_state : BootstrapState :=
  mkState "1.0" (ClusterName o) (Name (oProvider o)) "" "" PhasePreFlight [] "" "" "" "" [] 0 [] None None [].
Definition runFresh (existing : option BootstrapState) : M unit :=
  update (λ _, default fresh_state existing) ;; pipeline.

(** ** Runs *)

Definition checkKindClusterExists : M unit :=
  out ← command ["kind"; "get"; "clusters"];
  if bool_decide (exit out = None) && Contains (stdout out) (ClusterName o)
  then throw ("kind cluster '" +:+ ClusterName o +:+ "' already exists. Run teardown first")
  else mret tt.
Definition handleExistingState (b : BootstrapState) : M unit :=
  let recorded := TrimSpace (sProvider b) in
  let asked := TrimSpace (Name (oProvider o)) in
  if negb (String.eqb recorded "") && negb (String.eqb asked "") && negb (String.eqb asked recorded)
  then throw ("this cluster was built with --provider " +:+ recorded +:+ " and this run says --provider " +:+ asked)
  else
    update (λ _, b) ;;
    (if phaseDone b PhaseComplete then
       unmet ← unmetPostconditions (MgmtKubeconfig b);
       match unmet with
       | [] => mret false
       | _ => update (withdrawCompletion unmet.*1) ;; Save ;; mret true
       end
     else mret true) ≫= λ resume,
    if (resume : bool) then b ← state; runFresh (Some b) else mret tt.
Definition Run : M unit :=
  r ← attempt Load;
  match r with
  | Ok (Some b) => handleExistingState b
  | _ => checkKindClusterExists ;; runFresh None
  end.
End run.
