(* ===== verification/BootstrapFacts.v ===== *)
(** * BootstrapFacts: what the calls of a phase leave alone, and the file of the record.

    [calm] programs touch neither the record nor its file nor the report of the phases:
    every action of a phase is one. [Save] replaces the file in one step. *)

From S2P Require Import Prelude.
From S2P Require Import BootstrapGraph.
From S2P Require Import Bootstrap.
From S2P Require Import BootstrapCluster.
From S2P Require Import BootstrapRun.

Section calm.
Context {Out : Outside}.
Implicit Types (m : @Machine Out) (s : @Stable Out).
Abbreviation M := (goM (@Machine Out) string).

Definition same_record s s' : Prop := disk s' = disk s ∧ events s' = events s.

(** From [m0] the world went on, and nothing of the record changed at any point. *)
Record quietly m0 m : Prop := {
  q_now : same_record (now m0) (now m);
  q_phases : CompletedPhases (bs m) = CompletedPhases (bs m0);
  q_clock : (clk (now m0) ≤ clk (now m))%Z;
  q_past : ∃ new, past m = (new ++ past m0)%list ∧ Forall (same_record (now m0)) new }.

Definition calm {A} (c : M A) : Prop := ∀ m0, keeps (quietly m0) c.

Lemma quietly_refl m : quietly m m.
Proof. split; [done|done|lia|]. by exists []. Qed.

Lemma calm_run {A} (c : M A) m : calm c → quietly m (c m).2.
Proof. intros H. apply H, quietly_refl. Qed.

Lemma quietly_trans m1 m2 m3 : quietly m1 m2 → quietly m2 m3 → quietly m1 m3.
Proof.
  intros [[Hd1 He1] Hp1 Hc1 (n1 & Hn1 & Hf1)] [[Hd2 He2] Hp2 Hc2 (n2 & Hn2 & Hf2)].
  split; [split; congruence|congruence|lia|].
  exists (n2 ++ n1)%list. rewrite Hn2, Hn1, app_assoc. split; [done|]. apply Forall_app. split; [|done].
  eapply Forall_impl; [done|]. intros s [Hd He]. split; congruence.
Qed.

(** A step of the world that leaves the record where it is. *)
Lemma quietly_step m0 m s' :
  quietly m0 m → same_record (now m) s' → (clk (now m) ≤ clk s')%Z →
  quietly m0 (mkMachine s' (now m :: past m) (bs m)).
Proof.
  intros [[Hd He] Hp Hc (new & Hn & Hf)] [Hd' He'] Hc'.
  split; cbn; [split; congruence|done|lia|].
  exists (now m :: new). rewrite Hn. split; [done|]. constructor; [by split|done].
Qed.

Lemma keeps_outside m0 {A} (c : Outcall A) : keeps (quietly m0) (outside c).
Proof.
  intros m Hm. unfold outside. destruct (c (env (now m))) as [[r e] t]. cbn.
  apply quietly_step; [done|done|cbn; lia].
Qed.
Lemma keeps_run_command m0 c : keeps (quietly m0) (run_command c).
Proof.
  intros m Hm. unfold run_command. destruct (exec c (env (now m))) as [out e]. cbn.
  apply quietly_step; [done|done|cbn; lia].
Qed.
Lemma keeps_set_tmp m0 t : keeps (quietly m0) (becomes (set_tmp t)).
Proof. intros m Hm. apply quietly_step; [done|done|cbn; lia]. Qed.
Lemma keeps_peek m0 {A} (f : Env → A) : keeps (quietly m0) (peek f).
Proof. apply keeps_gets. Qed.
Lemma quiet_Now m0 : keeps (quietly m0) Now.
Proof. apply keeps_gets. Qed.
Lemma keeps_state m0 : keeps (quietly m0) state.
Proof. apply keeps_gets. Qed.
Lemma keeps_update m0 f :
  (∀ b, CompletedPhases (f b) = CompletedPhases b) → keeps (quietly m0) (update f).
Proof. intros Hf m [Hn Hp Hc Hpast]. split; try done. cbn. by rewrite Hf. Qed.

Lemma keeps_poll m0 {L A} fuel every (body : L → M (L + A)) l :
  (∀ l, keeps (quietly m0) (body l)) → keeps (quietly m0) (poll fuel every body l).
Proof.
  intros Hb. revert l. induction fuel as [|fuel IH]; intros l; cbn [poll]; [apply keeps_throw|].
  apply keeps_bind; [done|]. intros [l'|a]; [|apply keeps_ret].
  apply keeps_bind; [apply keeps_outside|]. done.
Qed.
End calm.

#[export] Hint Resolve keeps_outside keeps_run_command keeps_set_tmp keeps_peek quiet_Now keeps_state : keeps.
#[export] Hint Extern 3 (keeps (quietly _) (update _)) => apply keeps_update; intros []; reflexivity : keeps.

(** Walks a calm program, entering the definitions it calls. *)
Ltac walk_calm :=
  repeat lazymatch goal with
    | |- keeps _ (match ?x with _ => _ end) => destruct x
    | |- keeps _ (_ ≫= _) => apply keeps_bind
    | |- keeps _ (attempt _) => apply keeps_attempt
    | |- keeps _ (poll _ _ _ _) => apply keeps_poll
    | |- keeps _ (forM _ _) => apply keeps_forM
    | |- keeps _ (foldM _ _ _) => apply keeps_foldM
    | |- keeps _ (let x := _ in _) => cbn zeta
    | |- keeps _ ((λ x, _) _) => cbn beta
    | |- keeps _ ?c =>
        first [ solve [eauto 2 with keeps nocore] | let h := head_of c in unfold h | done ]
    | |- _ => intro
    end.

(** ** The actions are calm *)

Section actions.
Context {Out : Outside} {P : Parts} {J : StateJson}.
Context (o : Orchestrator) (m0 : @Machine Out).
Abbreviation calmly := (keeps (quietly m0)).

Lemma calm_wait_checks cs kc passed every timeout deadline :
  calmly (wait_checks cs kc passed every timeout deadline).
Proof. revert passed. induction cs; intros passed; cbn [wait_checks]; walk_calm. Qed.
Hint Resolve calm_wait_checks : keeps.
Lemma calm_await_operation fuel kc before d : calmly (await_operation fuel kc before d).
Proof. induction fuel; cbn [await_operation]; walk_calm. Qed.
Hint Resolve calm_await_operation : keeps.
Lemma calm_request_sync n kc : calmly (request_sync n kc).
Proof. induction n; cbn [request_sync]; walk_calm. Qed.
Hint Resolve calm_request_sync : keeps.
Lemma calm_patch_attempts more n kc p : calmly (patch_attempts more n kc p).
Proof. revert n. induction more; intros n; cbn [patch_attempts]; walk_calm. Qed.
Hint Resolve calm_patch_attempts : keeps.

Lemma calm_probeHubWorker kc : calmly (probeHubWorker kc).
Proof. walk_calm. Qed.
Lemma calm_missingDatabaseRoles kc : calmly (missingDatabaseRoles kc).
Proof. walk_calm. Qed.
Lemma calm_nudgeStalledExternalSecrets kc : calmly (nudgeStalledExternalSecrets kc).
Proof. walk_calm. Qed.
Lemma calm_zitadelServing kc : calmly (zitadelServing kc).
Proof. walk_calm. Qed.
Hint Resolve calm_probeHubWorker calm_missingDatabaseRoles calm_nudgeStalledExternalSecrets
  calm_zitadelServing : keeps.
Lemma calm_awaitHubWorkerReady kc w : calmly (awaitHubWorkerReady kc w).
Proof. walk_calm. Qed.
Lemma calm_provisionWorker kc : calmly (provisionWorker kc).
Proof. walk_calm. Qed.
Hint Resolve calm_awaitHubWorkerReady calm_provisionWorker : keeps.
Lemma calm_joinHomeWorkers kc : calmly (joinHomeWorkers o kc).
Proof. walk_calm. Qed.
Lemma calm_awaitDatabaseRolesProvisioned kc : calmly (awaitDatabaseRolesProvisioned kc).
Proof. walk_calm. Qed.
Lemma calm_prepareZitadelForRetry kc : calmly (prepareZitadelForRetry kc).
Proof. walk_calm. Qed.
Lemma calm_infisicalCoordinates kc : calmly (infisicalCoordinates kc).
Proof. walk_calm. Qed.
Lemma calm_instanceRepoURL : calmly (instanceRepoURL o).
Proof. walk_calm. Qed.
Lemma calm_kubectlApplyStdin kc t : calmly (kubectlApplyStdin kc t).
Proof. walk_calm. Qed.
Hint Resolve calm_joinHomeWorkers calm_awaitDatabaseRolesProvisioned calm_prepareZitadelForRetry
  calm_infisicalCoordinates calm_instanceRepoURL calm_kubectlApplyStdin : keeps.
Lemma calm_writeGatewayDNSTarget kc : calmly (writeGatewayDNSTarget o kc).
Proof. walk_calm. Qed.
Hint Resolve calm_writeGatewayDNSTarget : keeps.
Lemma calm_applySeedApplication kc : calmly (applySeedApplication o kc).
Proof. unfold applySeedApplication. walk_calm. Qed.
Hint Resolve calm_applySeedApplication : keeps.
Lemma calm_deployBoundary kc n : calmly (deployBoundary o kc n).
Proof. walk_calm. Qed.
Hint Resolve calm_deployBoundary : keeps.

Lemma calm_Wait cs i t kc : calmly (Wait cs i t kc).
Proof. walk_calm. Qed.
Hint Resolve calm_Wait : keeps.
(** A boundary is as calm as the steps of its contract. *)
Definition calm_steps (steps : list (namedStep (string → goM (@Machine Out) string unit))) : Prop :=
  ∀ s kc, s ∈ steps → calmly (run s kc).
Lemma calm_runBoundary kc c :
  calm_steps (checks (c_requires c)) → calm_steps (checks (c_readiness c)) → calm_steps (option_list (prepare c)) →
  calmly (runBoundary o kc c).
Proof.
  intros Hreq Hrdy Hprep. unfold runBoundary. walk_calm.
  apply (Hprep n kc). left.
Qed.
Lemma calm_deployBoundaryN kc n : calmly (deployBoundaryN o kc n).
Proof.
  unfold deployBoundaryN, contractFor. destruct (head _) as [c|] eqn:E; [|apply keeps_throw].
  apply head_Some_elem_of, list_elem_of_filter in E as [_ Hc].
  unfold boundaryContracts in Hc.
  repeat (apply elem_of_cons in Hc as [-> | Hc]); try (by apply not_elem_of_nil in Hc); apply calm_runBoundary;
    intros s kc' Hs; repeat (apply elem_of_cons in Hs as [-> | Hs]); try (by apply not_elem_of_nil in Hs);
    cbn; walk_calm.
Qed.
End actions.
#[export] Hint Resolve calm_joinHomeWorkers calm_applySeedApplication calm_deployBoundary calm_deployBoundaryN
  calm_zitadelServing calm_probeHubWorker calm_instanceRepoURL calm_infisicalCoordinates calm_kubectlApplyStdin : keeps.

Section phases.
Context {Out : Outside} {P : Parts} {J : StateJson} {R : MapOrder}.
Context (o : Orchestrator) (m0 : @Machine Out).
Abbreviation calmly := (keeps (quietly m0)).

Lemma calm_persistTenantState label : calmly (persistTenantState o label).
Proof. walk_calm. Qed.
Lemma calm_pinKubeconfig kc ctx : calmly (pinKubeconfig kc ctx).
Proof. walk_calm. Qed.
Hint Resolve calm_pinKubeconfig : keeps.
Lemma calm_kubeconfigPaths : calmly (kubeconfigPaths o).
Proof. walk_calm. Qed.
Lemma calm_resolveHubKubeconfig kc : calmly (resolveHubKubeconfig o kc).
Proof. walk_calm. Qed.
Lemma calm_createKindCluster : calmly (createKindCluster o).
Proof. walk_calm. Qed.
Lemma calm_installCAPI kc ctx : calmly (installCAPI o kc ctx).
Proof. walk_calm. Qed.
Lemma calm_installArgoCDAndSeed kc : calmly (installArgoCDAndSeed o kc).
Proof. walk_calm. Qed.
Lemma calm_preflight : calmly (preflight o).
Proof. walk_calm. Qed.
Lemma calm_commitGeneratedArtifacts : calmly (commitGeneratedArtifacts o).
Proof. walk_calm. Qed.
Hint Resolve calm_commitGeneratedArtifacts : keeps.
Lemma calm_publish_artifacts kc : calmly (publish_artifacts o kc).
Proof. walk_calm. Qed.
Lemma calm_all_healthy kc apps : calmly (all_healthy kc apps).
Proof. induction apps; cbn [all_healthy]; walk_calm. Qed.
Lemma calm_wait_apps fuel kc apps d : calmly (wait_apps fuel kc apps d).
Proof. pose proof (calm_all_healthy kc apps). induction fuel; cbn [wait_apps]; walk_calm. Qed.
Hint Resolve calm_wait_apps : keeps.
Lemma calm_verify_consumers kc : calmly (verify_consumers o kc).
Proof. walk_calm. Qed.
Lemma calm_postcondition kc p : calmly (postcondition o kc p).
Proof.
  unfold postcondition. destruct (list_find _ _) as [[i [q check]]|] eqn:E; [|apply keeps_ret].
  apply list_find_Some in E as [Hq%list_elem_of_lookup_2 _]. unfold phasePostconditions in Hq.
  repeat (apply elem_of_cons in Hq as [[= -> ->]|Hq]); try (by apply not_elem_of_nil in Hq); walk_calm.
Qed.
Lemma calm_checkKindClusterExists : calmly (checkKindClusterExists o).
Proof. walk_calm. Qed.
End phases.
#[export] Hint Resolve calm_persistTenantState calm_kubeconfigPaths calm_resolveHubKubeconfig
  calm_createKindCluster calm_installCAPI calm_installArgoCDAndSeed calm_preflight calm_publish_artifacts
  calm_verify_consumers calm_postcondition calm_checkKindClusterExists : keeps.
