(* ===== verification/BootstrapPhaseFacts.v ===== *)
(** * BootstrapPhaseFacts: the record of the phases over every history of runs.

    Whatever the calls answer, wherever a run is killed and with whatever flags the next
    one is started, a phase begins only when everything before it is recorded, what is
    recorded was earned, and the record on disk can always be read back. *)

From S2P Require Import Prelude.
From S2P Require Import BootstrapGraph.
From S2P Require Import Bootstrap.
From S2P Require Import BootstrapCluster.
From S2P Require Import BootstrapRun.
From S2P Require Import BootstrapFacts.

(** The phases in the order of the pipeline, and those before a phase. *)
Definition day0 : list BootstrapPhase :=
  [PhasePreFlight; PhaseBootstrapCreate; PhaseDayZero; PhaseCAPIInit; PhaseClusterProvision; PhaseOnPremJoin;
   PhaseArgoCDInstall; PhasePivotMove; PhasePivotReady; PhaseCleanup; PhaseClusterClassDeploy; PhasePlatformPreReqs;
   PhaseBoundary01; PhaseGenerateLocalSecrets; PhaseBoundary02; PhaseInjectCACert; PhaseBoundary03;
   PhaseBootstrapInfisicalAPI; PhaseBoundary04; PhaseBoundary05; PhaseBoundary06; PhaseFinalize].
Fixpoint up_to (p : BootstrapPhase) (l : list BootstrapPhase) : list BootstrapPhase :=
  match l with
  | [] => []
  | q :: l => if String.eqb q p then [] else q :: up_to p l
  end.
Definition before (p : BootstrapPhase) : list BootstrapPhase := up_to p day0.

(** What a record may say, given what the runs reported: every phase in it returned
    (the bootstrap cluster's deletion is recorded whatever comes of it), and a record that
    says complete has every phase. *)
Definition earned (evs : list Event) (p : BootstrapPhase) : Prop :=
  p = PhaseCleanup ∨ p = PhaseComplete ∨ Returned p ∈ evs.
Record recorded_ok (evs : list Event) (c : list BootstrapPhase) : Prop := {
  rec_earned p : p ∈ c → earned evs p;
  rec_complete : PhaseComplete ∈ c → day0 ⊆ c }.
(** A phase began with everything before it recorded, and itself not. *)
Definition began_in_order (evs : list Event) : Prop :=
  ∀ p c, Began p c ∈ evs → before p ⊆ c ∧ p ∉ c.

Section record.
Context {Out : Outside} {J : StateJson} {JL : StateJsonLaws J}.
Implicit Types (m : @Machine Out) (s : @Stable Out).
Abbreviation M := (goM (@Machine Out) string).

Record sound s : Prop := {
  so_order : began_in_order (events s);
  so_disk data : disk s = Some data → ∃ b, decode_state data = Some b ∧ recorded_ok (events s) (CompletedPhases b) }.
Definition sound_run m : Prop := sound (now m) ∧ Forall sound (past m).

Lemma recorded_ok_mono evs evs' c : evs ⊆ evs' → recorded_ok evs c → recorded_ok evs' c.
Proof.
  intros Hsub [He Hc]. split; [|done]. intros p Hp. unfold earned.
  destruct (He p Hp) as [? | [? |?]]; auto.
Qed.

Lemma sound_same s s' : same_record s s' → sound s → sound s'.
Proof. intros [Hd He] [Ho Hr]. split; rewrite ?He, ?Hd; done. Qed.

Lemma sound_quietly m m' : quietly m m' → sound_run m → sound_run m'.
Proof.
  intros [Hn _ _ (new & Hp & Hf)] [Hs Hpast]. split; [by eapply sound_same|].
  rewrite Hp. apply Forall_app. split; [|done].
  eapply Forall_impl; [done|]. intros s Hs'. by eapply sound_same.
Qed.

(** The record in memory, before the end of the pipeline: it has the phases [ps] and
    none of [ns]. *)
Record ready (ps ns : list BootstrapPhase) m : Prop := {
  rd_sound : sound_run m;
  rd_record : recorded_ok (events (now m)) (CompletedPhases (bs m));
  rd_open p : p ∈ PhaseComplete :: ns → p ∉ CompletedPhases (bs m);
  rd_done : ps ⊆ CompletedPhases (bs m) }.

Lemma ready_quietly ps ns m m' : quietly m m' → ready ps ns m → ready ps ns m'.
Proof.
  intros Hq [Hs Hr Ho Hd]. pose proof (q_phases _ _ Hq) as Hp.
  destruct (q_now _ _ Hq) as [_ He].
  split; rewrite ?Hp, ?He; [by eapply sound_quietly|done..].
Qed.

(** [c] either fails with the history sound or ends in [ready ps' ns']. *)
Definition leads {A} (ps ns : list BootstrapPhase) (c : M A) (ps' ns' : list BootstrapPhase) : Prop :=
  hoare (ready ps ns) c (λ r m, match r with Ok _ => ready ps' ns' m | Err _ => sound_run m end).

Lemma leads_calm {A} ps ns (c : M A) : calm c → leads ps ns c ps ns.
Proof.
  intros Hc m Hm. pose proof (calm_run c m Hc) as Hq. destruct (c m) as [[a|e] m']; cbn in *.
  - by eapply ready_quietly.
  - eapply sound_quietly; [done|apply Hm].
Qed.
Lemma leads_bind {A B} ps ns ps1 ns1 ps2 ns2 (c : M A) (f : A → M B) :
  leads ps ns c ps1 ns1 → (∀ a, leads ps1 ns1 (f a) ps2 ns2) → leads ps ns (c ≫= f) ps2 ns2.
Proof. intros Hc Hf. eapply hoare_bind; [apply Hc|cbn; intros a; apply Hf|done]. Qed.
Lemma leads_ret {A} ps ns (a : A) : leads ps ns (mret a) ps ns.
Proof. by intros m Hm. Qed.
Lemma leads_throw {A} ps ns e ps' ns' : leads ps ns (throw e : M A) ps' ns'.
Proof. intros m Hm. apply Hm. Qed.
Lemma leads_prefixed {A} ps ns ps' ns' pre (c : M A) : leads ps ns c ps' ns' → leads ps ns (prefixed pre c) ps' ns'.
Proof.
  intros Hc m Hm. specialize (Hc m Hm). unfold prefixed. rewrite bind_run. unfold attempt.
  destruct (c m) as [[a|e] m']; done.
Qed.

(** ** The file *)

Lemma sound_run_step m s' b :
  sound_run m → sound s' → sound_run (mkMachine s' (now m :: past m) b).
Proof. intros [Hn Hp] Hs. split; [done|]. by constructor. Qed.
End record.

Section record2.
Context {Out : Outside} {J : StateJson} {JL : StateJsonLaws J}.
Implicit Types (m : @Machine Out) (s : @Stable Out).
Abbreviation M := (goM (@Machine Out) string).

(** The machine with [data] put in place of the file. *)
Definition replaced (data : string) m : Machine :=
  mkMachine (set_disk (Some data) (set_tmp None (now m))) (now m :: past m) (bs m).

Lemma write_tmp_quiet data m :
  quietly m (write_tmp data m).2 ∧ bs (write_tmp data m).2 = bs m
  ∧ ∀ a, (write_tmp data m).1 = Ok a → tmp (now (write_tmp data m).2) = Some data.
Proof.
  split_and!.
  - apply (calm_run (write_tmp data)). intros m0. walk_calm.
  - unfold write_tmp, fs, outside, peek, gets, becomes. rewrite bind_run.
    destruct (fault OpMkdir _) as [[e|] e1]; [done|]. cbn; rewrite ?bind_run; cbn; rewrite ?bind_run; cbn; rewrite ?bind_run; cbn.
    by destruct (fault OpWrite _) as [[e|] e2].
  - intros a. unfold write_tmp, fs, outside, peek, gets, becomes. rewrite bind_run.
    destruct (fault OpMkdir _) as [[e|] e1]; [done|]. cbn; rewrite ?bind_run; cbn; rewrite ?bind_run; cbn; rewrite ?bind_run; cbn.
    by destruct (fault OpWrite _) as [[e|] e2].
Qed.

(** A write of the record fails with the file as it was, or replaces it in one step. *)
Lemma write_record_atomic data m :
  ∃ m1, quietly m m1 ∧ bs m1 = bs m ∧
    match write_record data m with
    | (Ok _, m') => m' = replaced data m1
    | (Err _, m') => m' = m1
    end.
Proof.
  destruct (write_tmp_quiet data m) as (Hq & Hb & Ht). unfold write_record. rewrite bind_run.
  destruct (write_tmp data m) as [[u|e] m1]; cbn in *; [|by exists m1].
  specialize (Ht u eq_refl). unfold rename_tmp, fs, outside. rewrite bind_run.
  destruct (fault OpRename _) as [r e1]; cbn.
  exists (mkMachine (after e1 0 (now m1)) (now m1 :: past m1) (bs m1)). split_and!.
  - apply quietly_step; [done|done|cbn; lia].
  - done.
  - destruct r as [e|]; [done|]. cbn. unfold replaced. cbn. by rewrite Ht.
Qed.

Lemma calm_stamp : calm (@stamp Out).
Proof.
  intros m0. apply keeps_bind; [apply quiet_Now|intros t].
  apply keeps_update. intros b. cbn. by destruct (StartedAt b).
Qed.

(** Every state of the file on the way through a save is sound. *)
Lemma Save_sound m :
  sound_run m → recorded_ok (events (now m)) (CompletedPhases (bs m)) →
  let m' := (Save m).2 in
  sound_run m' ∧ events (now m') = events (now m) ∧ CompletedPhases (bs m') = CompletedPhases (bs m).
Proof.
  intros Hs Hr.
  change (Save m) with (write_record (encode_state (bs (stamp m).2)) (stamp m).2).
  pose proof (calm_run stamp m calm_stamp) as Hq.
  destruct (write_record_atomic (encode_state (bs (stamp m).2)) (stamp m).2) as (m2 & Hq2 & Hb2 & Hw).
  pose proof (quietly_trans _ _ _ Hq Hq2) as Hq3.
  pose proof (sound_quietly _ _ Hq3 Hs) as Hs3. destruct (q_now _ _ Hq3) as [_ He3].
  pose proof (q_phases _ _ Hq3) as Hp3.
  destruct (write_record _ _) as [[u|e] m3]; subst m3; [|by split_and!].
  split_and!; [|done|done]. apply sound_run_step; [done|]. split; cbn.
  - rewrite He3. apply Hs.
  - intros data [= <-]. eexists. rewrite decode_encode_state. split; [done|].
    rewrite He3. by rewrite <-Hp3, Hb2 in Hr.
Qed.
End record2.

Section runner.
Context {Out : Outside} {P : Parts} {J : StateJson} {JL : StateJsonLaws J}.
Context (o : Orchestrator).
Implicit Types (m : @Machine Out) (s : @Stable Out).
Abbreviation M := (goM (@Machine Out) string).

Lemma up_to_not_in p l : p ∉ up_to p l.
Proof.
  induction l as [|q l IH]; cbn; [apply not_elem_of_nil|]. destruct (String.eqb_spec q p); [apply not_elem_of_nil|].
  rewrite elem_of_cons. naive_solver.
Qed.

Lemma phaseDone_iff b p : phaseDone b p = true ↔ p ∈ CompletedPhases b.
Proof.
  unfold phaseDone. rewrite existsb_exists. setoid_rewrite String.eqb_eq. split.
  - intros (x & Hx & ->). by apply list_elem_of_In.
  - intros Hp. exists p. by rewrite <-list_elem_of_In.
Qed.

(** Reporting something of a phase. *)
Lemma sound_emit m e :
  sound_run m → (∀ p c, e = Began p c → before p ⊆ c ∧ p ∉ c) → sound_run (emit e m).2.
Proof.
  intros Hs He. apply sound_run_step; [done|]. destruct Hs as [[Ho Hd] _]. split; cbn.
  - intros p c [Hb | Hb%list_elem_of_singleton]%elem_of_app; [by apply Ho|by apply He].
  - intros data Hdata. destruct (Hd data Hdata) as (b & Hb & Hr). exists b. split; [done|].
    eapply recorded_ok_mono; [|done]. set_solver.
Qed.
Lemma leads_emit ps ns e :
  (∀ m p c, ready ps ns m → e = Began p c → before p ⊆ c ∧ p ∉ c) → leads ps ns (emit e) ps ns.
Proof.
  intros He m Hm. destruct (Hm) as [Hs Hr Ho Hd]. split; [|cbn|done|done].
  - apply sound_emit; [done|]. intros. by eapply He.
  - eapply recorded_ok_mono; [|done]. set_solver.
Qed.
Lemma hoare_Save ps ns : hoare (ready ps ns) Save (λ _, ready ps ns).
Proof.
  intros m [Hs Hr Ho Hd]. destruct (Save_sound m Hs Hr) as (Hs' & He & Hp).
  destruct (Save m) as [r m']; cbn in *. split; rewrite ?He, ?Hp; done.
Qed.
Lemma leads_Save ps ns : leads ps ns Save ps ns.
Proof. intros m Hm. pose proof (hoare_Save ps ns m Hm) as H. destruct (Save m) as [[]]; [done|apply H]. Qed.

(** Withdrawing a phase, and adding one that was earned. *)
Lemma recorded_ok_withdraw evs c p :
  recorded_ok evs c → PhaseComplete ∉ c → recorded_ok evs (removePhase c p).
Proof.
  intros [He Hc] Ho. unfold removePhase. split.
  - intros q [_ Hq]%list_elem_of_filter. by apply He.
  - by intros [_ Hq]%list_elem_of_filter.
Qed.
Lemma recorded_ok_add evs c p :
  recorded_ok evs c → earned evs p → p ≠ PhaseComplete → recorded_ok evs (c ++ [p]).
Proof.
  intros [He Hc] Hp Hne. split.
  - intros q [Hq | ->%list_elem_of_singleton]%elem_of_app; [by apply He|done].
  - intros [Hq | ?%list_elem_of_singleton]%elem_of_app; [|done].
    intros q Hq'. apply elem_of_app. left. by apply Hc.
Qed.

Lemma leads_withdraw ps p :
  p ∉ ps → leads ps [] (update (withdraw p)) ps [p].
Proof.
  intros Hp m [Hs Hr Ho Hd]. split; cbn; [done|by apply recorded_ok_withdraw; [|apply Ho; left]| |].
  - intros q Hq [Hne Hin]%list_elem_of_filter. apply elem_of_cons in Hq as [-> | ->%list_elem_of_singleton]; [|done].
    apply (Ho PhaseComplete); [left|done].
  - intros q Hq. apply list_elem_of_filter. split; [by intros ->|by apply Hd].
Qed.
End runner.

Section runner2.
Context {Out : Outside} {P : Parts} {J : StateJson} {JL : StateJsonLaws J}.
Context (o : Orchestrator).
Implicit Types (m : @Machine Out) (s : @Stable Out).
Abbreviation M := (goM (@Machine Out) string).

(** Reading the state of the machine changes nothing, and what is read is so. *)
Lemma hoare_read {A B} (Pre : Machine → Prop) (f : Machine → A) (k : A → M B) Q :
  (∀ a, hoare (λ m, Pre m ∧ f m = a) (k a) Q) → hoare Pre (gets f ≫= k) Q.
Proof. intros H m Hm. rewrite bind_run. cbn. by apply (H (f m)). Qed.
Lemma hoare_attempt {A B} (Pre : Machine → Prop) (c : M A) (k : result string A → M B) (Mid : result string A → Machine → Prop) Q :
  hoare Pre c Mid → (∀ r, hoare (Mid r) (k r) Q) → hoare Pre (attempt c ≫= k) Q.
Proof.
  intros Hc Hk m Hm. specialize (Hc m Hm). rewrite bind_run. unfold attempt.
  destruct (c m) as [r m']. by apply Hk.
Qed.
Lemma hoare_calm {A} ps ns (c : M A) : calm c → hoare (ready ps ns) c (λ _, ready ps ns).
Proof. intros Hc m Hm. eapply ready_quietly; [by apply calm_run|done]. Qed.
Lemma hoare_bind_leads {A B} ps ns ps1 ns1 (c : M A) (f : A → M B) Q :
  leads ps ns c ps1 ns1 → (∀ a, hoare (ready ps1 ns1) (f a) Q) → (∀ e m, sound_run m → Q (Err e) m) →
  hoare (ready ps ns) (c ≫= f) Q.
Proof. intros Hc Hf He. eapply hoare_bind; [apply Hc|cbn; apply Hf|cbn; apply He]. Qed.

(** What phase_due answers. *)
Definition due_ok (p : BootstrapPhase) (r : result string bool) m : Prop :=
  match r with
  | Ok true => ready (before p) [p] m
  | Ok false => ready (before p ++ [p]) [] m
  | Err _ => sound_run m
  end.
Lemma phase_due_spec p (post : option (M unit)) :
  (∀ c, post = Some c → calm c) → hoare (ready (before p) []) (phase_due p post) (due_ok p).
Proof.
  intros Hpost. unfold phase_due, state. apply hoare_read. intros b.
  destruct (phaseDone b p) eqn:Hdone; cbn [negb].
  2:{ intros m [[Hs Hr Ho Hd] <-]. split; try done. intros q. rewrite elem_of_cons, list_elem_of_singleton.
      intros [-> | ->]; [apply Ho; left|]. intros Hp%phaseDone_iff. cbn in Hp. congruence. }
  apply phaseDone_iff in Hdone.
  eapply (hoare_conseq (ready (before p ++ [p]) [])); [|
    intros m [[] <-]; split; try done; intros q [?| ->%list_elem_of_singleton]%elem_of_app; auto|done].
  destruct post as [check|].
  2:{ eapply hoare_bind_leads; [by apply leads_emit|intros _; apply (hoare_ret _ _ _); done|done]. }
  eapply hoare_attempt; [apply hoare_calm, Hpost; done|]. intros [u|e].
  { eapply hoare_bind_leads; [by apply leads_emit|intros _; apply (hoare_ret _ _ _); done|done]. }
  eapply (hoare_conseq (ready (before p) [])); [|intros m []; split; set_solver|done].
  eapply hoare_bind_leads; [by apply leads_emit|intros _|done].
  eapply hoare_bind_leads; [apply leads_withdraw, up_to_not_in|intros _|done].
  eapply hoare_bind_leads; [apply leads_Save|intros _; apply (hoare_ret _ _ _); done|done].
Qed.

(** Marking a phase that is earned. *)
Lemma hoare_mark p ns (f : BootstrapState → BootstrapState) :
  p ≠ PhaseComplete → (∀ b, CompletedPhases (f b) = CompletedPhases b ++ [p])%list →
  hoare (λ m, ready (before p) ns m ∧ earned (events (now m)) p) (update f) (λ _, ready (before p ++ [p]) []).
Proof.
  intros Hp Hf m [[Hs Hr Ho Hd] He].
  assert (Hc : CompletedPhases (bs (update f m).2) = (CompletedPhases (bs m) ++ [p])%list) by apply Hf.
  split; [done| | |]; rewrite Hc.
  - by apply recorded_ok_add.
  - intros q ->%list_elem_of_singleton [Hq' | ?%list_elem_of_singleton]%elem_of_app; [|done].
    apply (Ho PhaseComplete); [left|done].
  - intros q [? | ?]%elem_of_app; apply elem_of_app; auto.
Qed.

Lemma perform_spec p label (action : M unit) :
  calm action → p ≠ PhaseComplete →
  leads (before p) [p] (perform o p label action) (before p ++ [p]) [].
Proof.
  intros Hact Hp. unfold perform, Now, state. apply hoare_read. intros started. apply hoare_read. intros b.
  eapply (hoare_bind _ _ (λ r m, match r with Ok _ => ready (before p) [p] m | Err _ => False end)); [| |done].
  { intros m [[Hm _] <-]. apply (leads_emit (before p) [p]); [|done].
    intros m' q c Hm' [= <- <-]. split; [apply (rd_done _ _ _ Hm)|]. apply (rd_open _ _ _ Hm). right. left. }
  intros []. cbn beta iota. eapply hoare_attempt; [apply hoare_calm, Hact|]. intros [u|e].
  2:{ eapply hoare_bind_leads; [by apply leads_emit|intros _; apply leads_throw|done]. }
  apply hoare_read. intros t.
  eapply (hoare_bind _ _ (λ _ m, ready (before p) [p] m ∧ earned (events (now m)) p)); [| |intros e m [Hm _]; apply (rd_sound _ _ _ Hm)].
  { intros m [Hm _]. split; [by apply (leads_emit (before p) [p] (Returned p) ltac:(done) m Hm)|].
    right; right. cbn. apply elem_of_app. right. left. }
  intros []. eapply hoare_bind; [by apply hoare_mark| |intros e m Hm; apply (rd_sound _ _ _ Hm)].
  intros []. eapply leads_bind; [apply leads_Save|intros _].
  apply leads_calm. intros m0. apply calm_persistTenantState.
Qed.

Lemma leads_runPhase p label (action : M unit) post :
  calm action → (∀ c, post = Some c → calm c) → p ≠ PhaseComplete →
  leads (before p) [] (runPhase o p label action post) (before p ++ [p]) [].
Proof.
  intros Hact Hpost Hp. unfold runPhase. eapply hoare_bind; [by apply phase_due_spec| |done].
  intros [|]; cbn; [by apply perform_spec|]. by intros m Hm.
Qed.
End runner2.

Section pipeline.
Context {Out : Outside} {P : Parts} {J : StateJson} {JL : StateJsonLaws J}.
Context (o : Orchestrator).
Implicit Types (m : @Machine Out) (s : @Stable Out).
Abbreviation M := (goM (@Machine Out) string).

Lemma ready_weaken ps ps' ns m : ps' ⊆ ps → ready ps ns m → ready ps' [] m.
Proof. intros Hps []. split; set_solver. Qed.

Lemma leads_heal ps :
  PhasePivotMove ∉ ps →
  leads ps [] (update (λ b, if String.eqb (MgmtKubeconfig b) "" && phaseDone b PhasePivotMove
                            then withdraw PhasePivotMove b else b)) ps [].
Proof.
  intros Hp m Hm. cbn. destruct (_ && _); [|by destruct m].
  eapply ready_weaken; [done|]. by apply (leads_withdraw ps PhasePivotMove Hp m).
Qed.

Lemma leads_cleanup : leads (before PhaseCleanup) [] (cleanup o) (before PhaseCleanup ++ [PhaseCleanup]) [].
Proof.
  unfold cleanup. eapply leads_bind; [apply leads_calm; intros ?; walk_calm|intros _].
  unfold state. apply hoare_read. intros b. destruct (phaseDone b PhaseCleanup) eqn:E.
  - intros m [[Hs Hr Ho Hd] <-]. apply phaseDone_iff in E. split; try done.
    intros q [?| ->%list_elem_of_singleton]%elem_of_app; auto.
  - eapply (hoare_bind _ _ (λ _, ready (before PhaseCleanup ++ [PhaseCleanup]) []));
      [| |intros e m Hm; apply (rd_sound _ _ _ Hm)].
    + intros m [Hm <-]. apply (hoare_mark PhaseCleanup [] (markPhaseComplete PhaseCleanup)); [done|done|].
      split; [done|by left].
    + intros []. eapply hoare_attempt; [apply hoare_Save|]. by intros r m Hm.
Qed.

(** Chains the phases: each ends where the next begins. *)
Ltac lead :=
  repeat lazymatch goal with
    | |- leads _ _ (_ ≫= _) _ _ => eapply leads_bind; [|intros []]
    | |- leads _ _ (wrap _ _) _ _ => apply leads_prefixed
    | |- leads _ _ (runPhase _ ?p _ _ _) _ _ =>
        apply (leads_runPhase o p); [intros ?|intros ? [= <-] ?|done]
    | |- keeps _ _ => walk_calm
    | |- leads _ _ (mret _) _ _ => apply leads_ret
    | |- leads _ _ _ _ _ => apply leads_calm; intros ?
    end.

Lemma leads_before_pivot : leads [] [] (before_pivot o) (before PhasePivotMove) [].
Proof. unfold before_pivot. lead. Qed.
Lemma leads_pivot kc ctx : leads (before PhasePivotMove) [] (pivot o kc ctx) (before PhaseClusterClassDeploy) [].
Proof.
  unfold pivot. eapply leads_bind; [by apply leads_heal, up_to_not_in|intros _].
  eapply leads_bind; [by lead|intros _]. eapply leads_bind; [by lead|intros b].
  eapply leads_bind; [by lead|intros _]. eapply leads_bind; [apply leads_cleanup|intros _]. apply leads_ret.
Qed.
Lemma leads_platform kc : leads (before PhaseClusterClassDeploy) [] (platform o kc) (before PhaseBoundary04) [].
Proof. unfold platform. lead. Qed.
Lemma leads_tenant_boundaries kc : leads (before PhaseBoundary04) [] (tenant_boundaries o kc) (before PhaseFinalize) [].
Proof. unfold tenant_boundaries. lead. Qed.

(** The last record: every phase is there. *)
Lemma complete_sound kc : hoare (ready day0 []) (complete kc) (λ _, sound_run).
Proof.
  unfold complete, Now. apply hoare_read. intros t.
  eapply (hoare_bind _ _ (λ _ m, sound_run m ∧ recorded_ok (events (now m)) (CompletedPhases (bs m)))); [| |by intros e m []].
  { intros m [[Hs Hr Ho Hd] _]. split; [done|]. cbn -[day0]. split.
    - intros q [Hq | ->%list_elem_of_singleton]%elem_of_app; [by apply (rec_earned _ _ Hr)|right; by left].
    - intros _ q Hq. apply elem_of_app. left. by apply Hd. }
  intros []. eapply (hoare_attempt _ _ _ (λ _, sound_run)).
  { intros m [Hs Hr]. by apply Save_sound. }
  intros r. eapply (hoare_attempt _ _ _ (λ _, sound_run)); [|by intros ? m].
  intros m Hm. eapply sound_quietly; [|done]. apply calm_run. intros m0. walk_calm.
Qed.

Lemma pipeline_sound : hoare (ready [] []) (pipeline o) (λ _, sound_run).
Proof.
  unfold pipeline.
  eapply hoare_bind_leads; [apply leads_before_pivot|intros [kc ctx]|done].
  eapply hoare_bind_leads; [apply leads_pivot|intros mkc|done].
  eapply hoare_bind_leads; [apply leads_platform|intros _|done].
  eapply hoare_bind_leads; [by lead|intros _|done].
  eapply hoare_bind_leads; [apply leads_tenant_boundaries|intros _|done].
  eapply hoare_bind_leads; [by lead|intros _|done].
  eapply hoare_bind_leads; [by lead|intros _; apply complete_sound|done].
Qed.
End pipeline.

Section runs.
Context {Out : Outside} {P : Parts} {J : StateJson} {JL : StateJsonLaws J} {R : MapOrder}.
Context (o : Orchestrator).
Implicit Types (m : @Machine Out) (s : @Stable Out).
Abbreviation M := (goM (@Machine Out) string).

Lemma Load_sound :
  hoare sound_run Load (λ r m, sound_run m ∧ ∀ b, r = Ok (Some b) → recorded_ok (events (now m)) (CompletedPhases b)).
Proof.
  unfold Load. eapply (hoare_bind _ _ (λ _, sound_run)); [| |by intros e m].
  { intros m Hm. eapply sound_quietly; [|done]. apply calm_run. intros m0. walk_calm. }
  intros r. apply hoare_read. intros d m [Hm Hd].
  assert (Hn : sound_run m ∧ ∀ b : BootstrapState, @Ok string _ None = Ok (Some b) → recorded_ok (events (now m)) (CompletedPhases b)) by done.
  destruct d as [data|]; [|done]. destruct r as [e|]; [done|].
  destruct (proj1 Hm) as [_ Hdisk]. destruct (Hdisk data Hd) as (b & Hb & Hr). rewrite Hb. split; [done|].
  by intros ? [= <-].
Qed.

Lemma calm_unmet_among m0 ps kc : keeps (quietly m0) (unmet_among o ps kc).
Proof. induction ps; cbn [unmet_among]; walk_calm. Qed.

(** What withdrawing leaves. *)
Lemma withdrawCompletion_phases ps b q :
  q ∈ CompletedPhases (withdrawCompletion ps b) ↔ q ∈ CompletedPhases b ∧ q ≠ PhaseComplete ∧ q ∉ ps.
Proof.
  assert (Hgo : ∀ b, q ∈ CompletedPhases (foldl (λ b p, withdraw p b) b ps) ↔ q ∈ CompletedPhases b ∧ q ∉ ps).
  { induction ps as [|p ps IH]; intros b'; cbn [foldl].
    - split; [intros; split; [done|apply not_elem_of_nil]|by intros []].
    - rewrite IH. cbn. unfold removePhase. rewrite list_elem_of_filter, elem_of_cons. naive_solver. }
  unfold withdrawCompletion.
  transitivity (q ∈ CompletedPhases (foldl (λ b p, withdraw p b) (withdraw PhaseComplete b) ps)).
  { destruct (last _); done. }
  rewrite Hgo. cbn. unfold removePhase. rewrite list_elem_of_filter. naive_solver.
Qed.

Lemma handleExistingState_sound b :
  hoare (λ m, sound_run m ∧ recorded_ok (events (now m)) (CompletedPhases b)) (handleExistingState o b) (λ _, sound_run).
Proof.
  unfold handleExistingState. destruct (_ && _); [by intros m []|].
  eapply (hoare_bind _ _ (λ _ m, sound_run m ∧ recorded_ok (events (now m)) (CompletedPhases (bs m)) ∧ bs m = b));
    [by intros m []| |by intros e m []].
  intros []. eapply (hoare_bind _ _ (λ r m, sound_run m ∧ (r = Ok true → ready [] [] m))); [| |by intros e m []].
  2:{ intros [|]; [|by intros m []]. unfold state. apply hoare_read. intros b'.
      eapply (hoare_bind _ _ (λ _, ready [] [])); [|intros []; apply pipeline_sound|intros e m Hm; apply (rd_sound _ _ _ Hm)].
      intros m [[_ Hm] <-]. specialize (Hm eq_refl). by destruct m, Hm. }
  destruct (phaseDone b PhaseComplete) eqn:Hc.
  2:{ intros m (Hs & Hr & <-). split; [done|]. intros _. split; [done|done| |set_solver].
      intros q ->%list_elem_of_singleton Hq%phaseDone_iff. cbn in Hq. congruence. }
  eapply (hoare_bind _ _ (λ _ m, sound_run m ∧ recorded_ok (events (now m)) (CompletedPhases (bs m)))); [| |by intros e m []].
  { intros m (Hs & Hr & _). assert (Hq : quietly m (unmetPostconditions o (MgmtKubeconfig b) m).2).
    { apply calm_run. intros m0. apply calm_unmet_among. }
    split; [by eapply sound_quietly|]. destruct (q_now _ _ Hq) as [_ ->]. by rewrite (q_phases _ _ Hq). }
  intros [|u unmet]; [by intros m []|].
  eapply (hoare_bind _ _ (λ _, ready [] [])); [| |intros e m Hm; split; [apply (rd_sound _ _ _ Hm)|done]].
  { intros m [Hs Hr]. split; [done| | |set_solver].
    - split; [intros q [Hq _]%withdrawCompletion_phases; by apply (rec_earned _ _ Hr)|].
      by intros (_ & ? & _)%withdrawCompletion_phases.
    - by intros q ->%list_elem_of_singleton (_ & ? & _)%withdrawCompletion_phases. }
  intros []. eapply hoare_bind_leads; [apply leads_Save| |done].
  intros _ m Hm. split; [apply (rd_sound _ _ _ Hm)|done].
Qed.

Lemma Run_sound : hoare sound_run (Run o) (λ _, sound_run).
Proof.
  unfold Run. eapply hoare_attempt; [apply Load_sound|]. intros r.
  destruct r as [[b|]|e].
  { eapply hoare_conseq; [apply (handleExistingState_sound b)| |done]. intros m [Hs Hr]. split; [done|]. by apply Hr. }
  all: eapply (hoare_bind _ _ (λ _, sound_run)); [intros m [Hs _]; eapply (sound_quietly m); [apply calm_run; intros m0; walk_calm|done]| |done].
  all: intros []; unfold runFresh;
    eapply (hoare_bind _ _ (λ _, ready [] []));
      [|intros []; apply pipeline_sound|intros ? m Hm; apply (rd_sound _ _ _ Hm)].
  all: intros m Hm; split; [done| | |]; cbn; [split; set_solver|set_solver|set_solver].
Qed.
End runs.

(** ** Histories *)

Section histories.
Context {Out : Outside} {P : Parts} {J : StateJson} {JL : StateJsonLaws J} {R : MapOrder}.
Implicit Types (s : @Stable Out).

(** What the record and the world can come to: runs with any flags, each cut short
    anywhere, and the world moving on between them. *)
Inductive reachable : Stable → Prop :=
| reach_start e t : reachable (mkStable e None None t [] [])
| reach_world s e t : reachable s → (clk s ≤ t)%Z → reachable (set_clk t (set_env e s))
| reach_run s s' (o : Orchestrator) b :
    reachable s →
    let m := (Run o (mkMachine s [] b)).2 in
    s' ∈ now m :: past m → reachable s'.

Lemma reachable_sound s : reachable s → sound s.
Proof.
  induction 1 as [e t|s e t _ IH _|s s' o b _ IH m Hs'].
  - split; cbn; [intros p c H; by apply not_elem_of_nil in H|done].
  - by apply (sound_same s).
  - assert (Hr : sound_run m) by (apply Run_sound; split; [done|constructor]).
    destruct Hr as [Hn Hp]. apply elem_of_cons in Hs' as [-> | Hs']; [done|].
    rewrite Forall_forall in Hp. auto.
Qed.


End histories.
