(* ===== verification/BootstrapResumeFacts.v ===== *)
(** * BootstrapResumeFacts: a run whose phases succeed ends with the record complete,
    whatever record it starts from; and where a resumed run stops. *)

From S2P Require Import Prelude.
From S2P Require Import BootstrapGraph.
From S2P Require Import Bootstrap.
From S2P Require Import BootstrapCluster.
From S2P Require Import BootstrapRun.
From S2P Require Import BootstrapFacts.
From S2P Require Import BootstrapPhaseFacts.

Section goes.
Context {Out : Outside}.
Implicit Types (m : @Machine Out).
Abbreviation M := (goM (@Machine Out) string).

(** [c] never fails. *)
Definition goes {A} (c : M A) : Prop := ∀ m, ∃ a m', c m = (Ok a, m').

Lemma goes_ret {A} (a : A) : goes (mret a).
Proof. intros m. by eexists _, _. Qed.
Lemma goes_bind {A B} (c : M A) (f : A → M B) : goes c → (∀ a, goes (f a)) → goes (c ≫= f).
Proof. intros Hc Hf m. destruct (Hc m) as (a & m1 & E). rewrite (bind_ok _ _ _ _ _ E). apply Hf. Qed.
Lemma goes_attempt {A} (c : M A) : goes (attempt c).
Proof. intros m. unfold attempt. destruct (c m) as [r m']. by eexists _, _. Qed.
Lemma goes_gets {A} (f : Machine → A) : goes (gets f).
Proof. intros m. by eexists _, _. Qed.
Lemma goes_modify f : goes (modify f).
Proof. intros m. by eexists _, _. Qed.
Lemma goes_becomes f : goes (becomes f).
Proof. intros m. by eexists _, _. Qed.
Lemma goes_run_command c : goes (run_command c).
Proof. intros m. unfold run_command. destruct (exec _ _). by eexists _, _. Qed.
Lemma goes_outside {A} (f : Env → A * Env * N) :
  goes (outside (λ e, let '(r, e, t) := f e in (Ok r, e, t))).
Proof. intros m. unfold outside. destruct (f _) as [[r e] t]. by eexists _, _. Qed.
Lemma goes_fs op : goes (fs op).
Proof. intros m. unfold fs, outside. destruct (fault _ _) as [r e]. by eexists _, _. Qed.
Lemma goes_write path data : goes (write_file path data).
Proof. intros m. unfold write_file, outside. destruct (writeFile _ _ _) as [r e]. by eexists _, _. Qed.
Lemma goes_mkdir path : goes (mkdir_all path).
Proof. intros m. unfold mkdir_all, outside. destruct (mkdirAll _ _) as [r e]. by eexists _, _. Qed.
Lemma goes_prefixed {A} pre (c : M A) : goes c → goes (prefixed pre c).
Proof. intros Hc m. destruct (Hc m) as (a & m' & E). unfold prefixed, attempt. rewrite bind_run, E. by eexists _, _. Qed.
End goes.

Create HintDb goes.
#[export] Hint Resolve goes_ret goes_attempt goes_gets goes_modify goes_becomes goes_run_command goes_outside
  goes_fs goes_write goes_mkdir : goes.
Ltac walk_goes :=
  repeat lazymatch goal with
    | |- goes (match ?x with _ => _ end) => destruct x
    | |- goes (_ ≫= _) => apply goes_bind
    | |- goes (prefixed _ _) => apply goes_prefixed
    | |- goes (let x := _ in _) => cbn zeta
    | |- goes ?c =>
        first [ solve [eauto 2 with goes nocore] | let h := head_of c in unfold h | fail 1 ]
    | |- _ => intro
    end.

(** The provider of a run is the one the record was made with. *)
Definition same_provider `{Outside} (o : Orchestrator) (b : BootstrapState) : Prop :=
  let asked := TrimSpace (Name (oProvider o)) in
  TrimSpace (sProvider b) = "" ∨ asked = "" ∨ asked = TrimSpace (sProvider b).
Lemma same_provider_accepted `{Outside} (o : Orchestrator) b :
  same_provider o b →
  negb (String.eqb (TrimSpace (sProvider b)) "") && negb (String.eqb (TrimSpace (Name (oProvider o))) "")
  && negb (String.eqb (TrimSpace (Name (oProvider o))) (TrimSpace (sProvider b))) = false.
Proof. intros [-> | [-> | ->]]; cbn; [done|by rewrite andb_false_r|]. by rewrite String.eqb_refl, andb_false_r. Qed.

Section resume.
Context {Out : Outside} {P : Parts} {J : StateJson} {JL : StateJsonLaws J} {R : MapOrder}.
Context (o : Orchestrator).
Implicit Types (m : @Machine Out) (s : @Stable Out).
Abbreviation M := (goM (@Machine Out) string).
Abbreviation pr := (oProvider o).

(** Every action of a phase, and every step between the phases, succeeds; no operation on
    the state file fails. Postconditions may fail. *)
Record obliging : Prop := {
  ob_fs op e : (fault op e).1 = None;
  ob_preflight : goes (preflight o);
  ob_create : goes (createKindCluster o);
  ob_kubeconfig : goes (kubeconfigPaths o);
  ob_day0 kc : goes (outside (ProvisionDayZero pr kc));
  ob_capi kc ctx : goes (installCAPI o kc ctx);
  ob_provision cfg : goes (outside (ProvisionManagementCluster pr cfg));
  ob_join kc : goes (kc ← resolveHubKubeconfig o kc; joinHomeWorkers o kc);
  ob_argocd kc : goes (kc ← resolveHubKubeconfig o kc; installArgoCDAndSeed o kc);
  ob_move cfg : goes (outside (PivotMove pr cfg));
  ob_ready kc : goes (outside (PivotReady pr kc));
  ob_class kc ns ps : goes (outside (clusterclass_Deploy kc ns ps));
  ob_prereqs kc : goes (outside (OnPlatformPreReqs pr kc));
  ob_boundary kc n : (1 ≤ n ≤ 6)%Z → goes (deployBoundaryN o kc n);
  ob_secrets kc : goes (outside (GenerateLocalSecrets kc));
  ob_credentials kc : goes (outside (InstallPlatformCredentials kc));
  ob_cert kc : goes (outside (UpdateInfisicalSecretsWithCNPGCert kc));
  ob_vault kc : goes (outside (BootstrapInfisicalAPI kc));
  ob_artifacts kc : goes (publish_artifacts o kc);
  ob_consumers kc : goes (verify_consumers o kc);
  ob_finalize cfg : goes (outside (Finalize pr cfg)) }.

Context (Hob : obliging).

Lemma goes_Save : goes Save.
Proof.
  unfold Save, write_record, write_tmp, rename_tmp. apply goes_bind; [walk_goes|intros _].
  apply goes_bind; [walk_goes|intros b].
  assert (Hfs : ∀ op m, ∃ m', fs op m = (Ok None, m')).
  { intros op m. unfold fs, outside. pose proof (ob_fs Hob op (env (now m))) as Hf.
    destruct (fault _ _) as [r e]. cbn in Hf. subst r. by eexists. }
  assert (Hgo : ∀ {A} op (k : option string → M A), goes (k None) → goes (fs op ≫= k)).
  { intros A op k Hk m. destruct (Hfs op m) as [m' E]. rewrite (bind_ok _ _ _ _ _ E). apply Hk. }
  apply goes_bind; [|intros _; apply Hgo; walk_goes].
  apply Hgo. apply goes_bind; [walk_goes|intros partial]. apply goes_bind; [walk_goes|intros _].
  apply Hgo. walk_goes.
Qed.
Hint Resolve goes_Save : goes.

Lemma goes_runPhase p label action post : goes action → goes (runPhase o p label action post).
Proof.
  intros Ha. unfold runPhase. apply goes_bind; [unfold phase_due; walk_goes|intros [|]; [|apply goes_ret]].
  intros m. unfold perform. unfold Now, state, emit.
  apply goes_bind; [walk_goes|intros t0]. apply goes_bind; [walk_goes|intros b]. apply goes_bind; [walk_goes|intros _].
  intros m1. rewrite bind_run. unfold attempt. destruct (Ha m1) as (a & m2 & ->).
  match goal with |- ∃ a m', ?c ?m = _ => assert (Hg : goes c) by walk_goes; apply Hg end.
Qed.
Hint Resolve goes_runPhase : goes.

(** The phases, each by its own hypothesis. *)
Ltac phases_go :=
  repeat lazymatch goal with
    | |- goes (resolveHubKubeconfig _ _ ≫= λ kc, joinHomeWorkers _ _) => apply (ob_join Hob)
    | |- goes (resolveHubKubeconfig _ _ ≫= λ kc, installArgoCDAndSeed _ _) => apply (ob_argocd Hob)
    | |- goes (_ ≫= _) => apply goes_bind; [|intros ?]
    | |- goes (prefixed _ _) => apply goes_prefixed
    | |- goes (wrap _ _) => apply goes_prefixed
    | |- goes (runPhase _ _ _ _ _) => apply goes_runPhase
    | |- goes (let (_, _) := ?x in _) => destruct x
    | |- goes (preflight _) => apply (ob_preflight Hob)
    | |- goes (createKindCluster _) => apply (ob_create Hob)
    | |- goes (kubeconfigPaths _) => apply (ob_kubeconfig Hob)
    | |- goes (installCAPI _ _ _) => apply (ob_capi Hob)
    | |- goes (deployBoundaryN _ _ _) => apply (ob_boundary Hob); lia
    | |- goes (outside (ProvisionDayZero _ _)) => apply (ob_day0 Hob)
    | |- goes (outside (ProvisionManagementCluster _ _)) => apply (ob_provision Hob)
    | |- goes (outside (PivotMove _ _)) => apply (ob_move Hob)
    | |- goes (outside (PivotReady _ _)) => apply (ob_ready Hob)
    | |- goes (outside (clusterclass_Deploy _ _ _)) => apply (ob_class Hob)
    | |- goes (outside (OnPlatformPreReqs _ _)) => apply (ob_prereqs Hob)
    | |- goes (outside (GenerateLocalSecrets _)) => apply (ob_secrets Hob)
    | |- goes (outside (InstallPlatformCredentials _)) => apply (ob_credentials Hob)
    | |- goes (outside (UpdateInfisicalSecretsWithCNPGCert _)) => apply (ob_cert Hob)
    | |- goes (outside (BootstrapInfisicalAPI _)) => apply (ob_vault Hob)
    | |- goes _ => walk_goes
    end.

Lemma goes_before_pivot : goes (before_pivot o).
Proof. unfold before_pivot. phases_go. Qed.
Lemma goes_pivot kc ctx : goes (pivot o kc ctx).
Proof. unfold pivot. phases_go. Qed.
Lemma goes_platform kc : goes (platform o kc).
Proof. unfold platform. phases_go. Qed.
Lemma goes_tenant_boundaries kc : goes (tenant_boundaries o kc).
Proof. unfold tenant_boundaries. phases_go. Qed.

(** The file says the bootstrap is complete. *)
Definition says_complete s : Prop :=
  ∃ data b, disk s = Some data ∧ decode_state data = Some b ∧ PhaseComplete ∈ CompletedPhases b.
Definition ends_complete {A} (c : M A) : Prop :=
  ∀ m, ∃ a m', c m = (Ok a, m') ∧ says_complete (now m').

Lemma ends_bind {A B} (c : M A) (f : A → M B) : goes c → (∀ a, ends_complete (f a)) → ends_complete (c ≫= f).
Proof. intros Hc Hf m. destruct (Hc m) as (a & m1 & E). rewrite (bind_ok _ _ _ _ _ E). apply Hf. Qed.

(** A save that succeeds puts the record in memory on disk. *)
Lemma Save_stored m a m' :
  Save m = (Ok a, m') → ∃ b, disk (now m') = Some (encode_state b) ∧ CompletedPhases b = CompletedPhases (bs m).
Proof.
  change (Save m) with (write_record (encode_state (bs (stamp m).2)) (stamp m).2). intros E.
  destruct (write_record_atomic (encode_state (bs (stamp m).2)) (stamp m).2) as (m2 & _ & _ & Hw).
  rewrite E in Hw. subst m'. exists (bs (stamp m).2). split; [done|].
  apply (q_phases _ _ (calm_run stamp m calm_stamp)).
Qed.

Lemma complete_ends kc : ends_complete (complete kc).
Proof.
  unfold complete. apply ends_bind; [walk_goes|intros t]. intros m. rewrite bind_run. cbn [update modify].
  match goal with |- context [(attempt Save ≫= _) ?m] => set (m1 := m) end.
  rewrite bind_run. unfold attempt at 1. destruct (goes_Save m1) as (u & m2 & E). rewrite E.
  destruct (Save_stored _ _ _ E) as (b & Hd & Hc).
  set (c := attempt _ ≫= _). assert (Hq : quietly m2 (c m2).2) by (apply calm_run; intros m0; subst c; walk_calm).
  assert (Hg : goes c) by (subst c; walk_goes). destruct (Hg m2) as ([] & m3 & E3). rewrite E3 in *.
  eexists _, _. split; [done|]. destruct (q_now _ _ Hq) as [Hd' _]. cbn in Hd'.
  exists (encode_state b), b. rewrite Hd', decode_encode_state. split_and!; [done|done|].
  rewrite Hc. cbn. apply elem_of_app. right. left.
Qed.

Lemma pipeline_ends : ends_complete (pipeline o).
Proof.
  unfold pipeline. apply ends_bind; [apply goes_before_pivot|intros [kc ctx]].
  apply ends_bind; [apply goes_pivot|intros mkc]. apply ends_bind; [apply goes_platform|intros _].
  apply ends_bind; [apply Hob|intros _]. apply ends_bind; [apply goes_tenant_boundaries|intros _].
  apply ends_bind; [apply Hob|intros _].
  apply ends_bind; [|intros _; apply complete_ends].
  apply goes_runPhase, goes_bind; [apply Hob|intros ?; apply goes_ret].
Qed.

Lemma goes_unmet_among ps kc : goes (unmet_among o ps kc).
Proof. induction ps; cbn [unmet_among]; walk_goes. Qed.

Lemma Load_goes m :
  sound (now m) → ∃ r m', Load m = (Ok r, m') ∧ quietly m m'
    ∧ match r with
      | Some b => ∃ data, disk (now m) = Some data ∧ decode_state data = Some b
      | None => disk (now m) = None
      end.
Proof.
  intros [_ Hd]. unfold Load. rewrite bind_run. unfold fs, outside.
  pose proof (ob_fs Hob OpRead (env (now m))) as Hf. destruct (fault _ _) as [r e]. cbn in Hf. subst r.
  rewrite bind_run. cbn. destruct (disk (now m)) as [data|] eqn:E.
  - destruct (Hd data eq_refl) as (b & Hb & _). rewrite Hb. eexists _, _. split; [done|].
    split; [apply quietly_step; [apply quietly_refl|done|cbn; lia]|]. by exists data.
  - eexists _, _. split; [done|]. split; [apply quietly_step; [apply quietly_refl|done|cbn; lia]|done].
Qed.

Lemma handleExistingState_ends b m data :
  same_provider o b → disk (now m) = Some data → decode_state data = Some b →
  ∃ m', handleExistingState o b m = (Ok tt, m') ∧ says_complete (now m').
Proof.
  intros Hp Hd Hb. unfold handleExistingState.
  rewrite (same_provider_accepted o b Hp).
  rewrite bind_run. cbn [update modify]. set (m1 := set_bs b m). rewrite bind_run.
  assert (Hpipe : ∀ m2, ∃ m', (b ← state; runFresh o (Some b)) m2 = (Ok tt, m') ∧ says_complete (now m')).
  { intros m2. rewrite bind_run. cbn. destruct (pipeline_ends (set_bs (bs m2) m2)) as ([] & m3 & E & Hc). by exists m3. }
  destruct (phaseDone b PhaseComplete) eqn:Hc; [|apply Hpipe].
  apply phaseDone_iff in Hc. rewrite bind_run.
  set (c := unmetPostconditions o (MgmtKubeconfig b)).
  assert (Hq : quietly m1 (c m1).2) by (apply calm_run; intros m0; apply calm_unmet_among).
  assert (Hg : goes c) by apply goes_unmet_among. destruct (Hg m1) as (unmet & m2 & E). rewrite E in *. cbn in Hq.
  destruct unmet as [|u unmet].
  - exists m2. split; [done|]. exists data, b. destruct (q_now _ _ Hq) as [-> _]. done.
  - rewrite bind_run. cbn [update modify]. rewrite bind_run.
    destruct (goes_Save (set_bs (withdrawCompletion ((u :: unmet).*1) (bs m2)) m2)) as (x & m3 & ->). apply Hpipe.
Qed.
End resume.

Section liveness.
Context {Out : Outside} {P : Parts} {J : StateJson} {JL : StateJsonLaws J} {R : MapOrder}.

End liveness.

(** ** Where a resumed run stops *)

Section stops.
Context {Out : Outside} {P : Parts} {J : StateJson} {R : MapOrder}.
Implicit Types (m : @Machine Out) (s : @Stable Out).

Lemma runPhase_skips o p label action m :
  p ∈ CompletedPhases (bs m) → runPhase o p label action None m = (Ok tt, (emit (Skipped p) m).2).
Proof.
  intros Hp%phaseDone_iff. unfold runPhase, phase_due. rewrite bind_run, bind_run. cbn. by rewrite Hp.
Qed.

(** kubectl cannot resolve a context in this file. *)
Definition unresolvable (kubeconfig : string) : Prop :=
  ∀ ctx e, exit (exec (mkCmd ["kubectl"; "--kubeconfig"; kubeconfig; "--context"; ctx; "config"; "view";
                             "--minify"; "--flatten"; "-o"; "yaml"] "" "" []) e).1 ≠ None.

Lemma kubeconfigPaths_fails o m :
  BootstrapKubeconfig (bs m) ≠ "" → unresolvable (BootstrapKubeconfig (bs m)) →
  ∃ err m', kubeconfigPaths o m = (Err err, m').
Proof.
  intros Hne Hun. unfold kubeconfigPaths. rewrite bind_run. cbn.
  rewrite (proj2 (String.eqb_neq _ _) Hne). rewrite bind_run. cbn. rewrite bind_run. unfold attempt, pinKubeconfig.
  rewrite bind_run. unfold command, run_command.
  match goal with |- context [exec (mkCmd [_; _; _; _; ?ctx; _; _; _; _; _; _] _ _ _) ?e] =>
    pose proof (Hun ctx e) as Hx; destruct (exec _ e) as [out e'] end.
  cbn in Hx |- *.
  destruct (exit out) as [err|]; [|done]. cbn. by eexists _, _.
Qed.

(** A record whose bootstrap kubeconfig cannot be resolved where it is resumed stops
    the run before any phase, however far the record has got: the path that is recorded
    is in the temporary directory of the host that made it. *)
Theorem fresh_runner_stops o s b0 data b :
  disk s = Some data → decode_state data = Some b → (fault OpRead (env s)).1 = None → same_provider o b →
  PhaseComplete ∉ CompletedPhases b →
  PhasePreFlight ∈ CompletedPhases b → PhaseBootstrapCreate ∈ CompletedPhases b →
  BootstrapKubeconfig b ≠ "" → unresolvable (BootstrapKubeconfig b) →
  ∃ err m, Run o (mkMachine s [] b0) = (Err err, m)
    ∧ disk (now m) = Some data ∧ ∀ p c, Began p c ∈ events (now m) → Began p c ∈ events s.
Proof.
  intros Hd Hb Hf Hp Hc H1 H2 Hne Hun.
  assert (Hload : ∃ m1, Load (mkMachine s [] b0) = (Ok (Some b), m1) ∧ same_record s (now m1)).
  { unfold Load. rewrite bind_run. unfold fs, outside. cbn in Hf |- *.
    destruct (fault OpRead (env s)) as [r e]. cbn in Hf. subst r. rewrite bind_run. cbn. rewrite Hd, Hb.
    eexists. split; [done|]. by split. }
  destruct Hload as (m1 & Hload & Hd1 & He1). unfold Run. rewrite bind_run. unfold attempt. rewrite Hload.
  unfold handleExistingState.
  rewrite (same_provider_accepted o b Hp).
  rewrite bind_run. cbn [update modify]. rewrite bind_run.
  destruct (phaseDone b PhaseComplete) eqn:E; [by apply phaseDone_iff in E|]. cbn [mret goM_ret].
  rewrite bind_run. cbn [state gets bs set_bs]. unfold runFresh. rewrite bind_run. cbn [update modify].
  set (m2 := set_bs _ _). unfold pipeline, before_pivot. rewrite bind_run, bind_run.
  rewrite runPhase_skips by done. rewrite bind_run. unfold wrap, prefixed. rewrite bind_run. unfold attempt.
  rewrite runPhase_skips by done. cbn [mret goM_ret]. rewrite bind_run.
  match goal with |- context [kubeconfigPaths o ?m] =>
    assert (Hq : quietly m (kubeconfigPaths o m).2) by (apply calm_run; intros ?; apply calm_kubeconfigPaths);
    destruct (kubeconfigPaths_fails o m) as (err & m3 & Hk); [done|done|] end.
  rewrite Hk in *. cbn in Hq |- *. destruct (q_now _ _ Hq) as [Hd3 He3]. cbn in Hd3, He3.
  eexists _, _. split; [done|]. split; [congruence|]. rewrite He3, He1. intros p c. rewrite !elem_of_app, !list_elem_of_singleton.
  naive_solver.
Qed.
End stops.
