(* ===== verification/BootstrapBoundaryFacts.v ===== *)
(** * BootstrapBoundaryFacts: which boundaries are open, and when a worker is rebuilt.

    A boundary is closed while its AppProject carries a deny window. What kubectl does to
    the windows is stated as laws of the world; from them, what a deployment leaves open,
    and that repairing boundary 04 leaves the ones after it closed. *)

From S2P Require Import Prelude.
From S2P Require Import BootstrapGraph.
From S2P Require Import Bootstrap.
From S2P Require Import BootstrapCluster.
From S2P Require Import BootstrapRun.
From S2P Require Import BootstrapFacts.
From S2P Require Import BootstrapPhaseFacts.
From S2P Require Import BootstrapResumeFacts.

(** The commands that act on the AppProjects. *)
Definition apply_cmd (kubeconfig manifest : string) : Cmd :=
  mkCmd ["kubectl"; "--kubeconfig"; kubeconfig; "apply"; "-f"; "-"] "" manifest [].
Definition open_cmd (kubeconfig : string) (n : Z) : Cmd :=
  mkCmd ["kubectl"; "--kubeconfig"; kubeconfig; "patch"; "appproject"; boundaryProject n; "-n"; "platform-ops";
         "--type"; "merge"; "-p"; "{" +:+ quoted "spec" +:+ ":{" +:+ quoted "syncWindows" +:+ ":null}}"] "" "" [].
Definition gated_projects : string :=
  String.concat "" ((λ n, "---" +:+ newline +:+ renderBoundaryAppProject n true) <$> seqZ 1 (Z.of_nat boundaryCount)).
Definition touches_windows (c : Cmd) : Prop := stdin c = gated_projects ∨ args c !! 4 = Some "appproject".

(** [window e n]: the AppProject of boundary [n] has a deny window. *)
Class Windows `{Outside} := window : Env → Z → bool.
Class WindowLaws `{Parts} (W : Windows) := {
  win_apply kc e : exit (exec (apply_cmd kc gated_projects) e).1 = None →
    ∀ n, (1 ≤ n ≤ 6)%Z → window (exec (apply_cmd kc gated_projects) e).2 n = true;
  win_open kc n e : (1 ≤ n ≤ 6)%Z → exit (exec (open_cmd kc n) e).1 = None → window (exec (open_cmd kc n) e).2 n = false;
  win_open_other kc n e i : (1 ≤ n ≤ 6)%Z → i ≠ n → window (exec (open_cmd kc n) e).2 i = window e i;
  win_exec c e : ¬ touches_windows c → window (exec c e).2 = window e;
  win_sleep d e : window (sleep d e).1.2 = window e;
  win_write path data e : window (writeFile path data e).2 = window e;
  win_mkdir path e : window (mkdirAll path e).2 = window e;
  win_fault op e : window (fault op e).2 = window e;
  win_inventory n kc e : window (Check (BoundaryInventoryChecker n) kc e).1.2 = window e }.

Section windows.
Context {Out : Outside} {P : Parts} {W : Windows} {WL : WindowLaws W}.
Implicit Types (m : @Machine Out).
Abbreviation M := (goM (@Machine Out) string).

Definition windows_of m : Z → bool := window (env (now m)).
(** The windows stay as they are. *)
Definition shut (w : Z → bool) m : Prop := windows_of m = w.

Lemma shut_run_command w c : ¬ touches_windows c → keeps (shut w) (run_command c).
Proof.
  intros Hc m Hm. unfold run_command. pose proof (win_exec c (env (now m)) Hc) as He.
  destruct (exec c _) as [out e]. cbn in *. unfold shut, windows_of in *. cbn. congruence.
Qed.
Lemma shut_outside {A} w (f : Outcall A) : (∀ e, window (f e).1.2 = window e) → keeps (shut w) (outside f).
Proof.
  intros Hf m Hm. unfold outside. specialize (Hf (env (now m))). destruct (f _) as [[r e] t]. cbn in *.
  unfold shut, windows_of in *. cbn. congruence.
Qed.
Lemma shut_becomes w f : (∀ s, env (f s) = env s) → keeps (shut w) (becomes f).
Proof. intros Hf m Hm. unfold shut, windows_of in *. cbn. by rewrite Hf. Qed.
Lemma shut_update w f : keeps (shut w) (update f).
Proof. by intros m Hm. Qed.
Lemma shut_pause w d : keeps (shut w) (pause d).
Proof. apply shut_outside. intros e. rewrite <-(win_sleep d e). destruct (sleep d e) as [[[err|] e'] lag]; done. Qed.
Lemma shut_write w path data : keeps (shut w) (write_file path data).
Proof. apply shut_outside. intros e. rewrite <-(win_write path data e). by destruct (writeFile path data e). Qed.
Lemma shut_mkdir w path : keeps (shut w) (mkdir_all path).
Proof. apply shut_outside. intros e. rewrite <-(win_mkdir path e). by destruct (mkdirAll path e). Qed.
Lemma shut_fs w op : keeps (shut w) (fs op).
Proof. apply shut_outside. intros e. rewrite <-(win_fault op e). by destruct (fault op e). Qed.
Lemma shut_inventory w n kc :
  keeps (shut w) (outside (λ e, let '(r, e, t) := Check (BoundaryInventoryChecker n) kc e in (Ok r, e, t))).
Proof.
  apply shut_outside. intros e. rewrite <-(win_inventory n kc e).
  by destruct (Check (BoundaryInventoryChecker n) kc e) as [[r e'] t].
Qed.
Lemma shut_poll {L A} w fuel every (body : L → M (L + A)) l :
  (∀ l, keeps (shut w) (body l)) → keeps (shut w) (poll fuel every body l).
Proof.
  intros Hb. revert l. induction fuel as [|fuel IH]; intros l; cbn [poll]; [apply keeps_throw|].
  apply keeps_bind; [done|]. intros [l'|a]; [|apply keeps_ret]. apply keeps_bind; [apply shut_pause|]. done.
Qed.

Lemma gated_projects_nonempty : "" ≠ gated_projects.
Proof. by vm_compute. Qed.
Lemma shut_plain w args dir vars :
  args !! 4 ≠ Some "appproject" → keeps (shut w) (run_command (mkCmd args dir "" vars)).
Proof. intros Ha. apply shut_run_command. intros [H | H]; [by apply gated_projects_nonempty|done]. Qed.
End windows.

#[export] Hint Resolve shut_pause shut_write shut_mkdir shut_fs shut_inventory shut_update keeps_gets keeps_ret keeps_throw : shut.
#[export] Hint Extern 2 (keeps (shut _) (run_command _)) => apply shut_plain; discriminate : shut.
#[export] Hint Extern 2 (keeps (shut _) (becomes _)) => apply shut_becomes; reflexivity : shut.

(** As [walk_calm], for the windows. *)
Ltac walk_shut :=
  repeat lazymatch goal with
    | |- keeps _ (match ?x with _ => _ end) => destruct x
    | |- keeps _ (_ ≫= _) => apply keeps_bind
    | |- keeps _ (attempt _) => apply keeps_attempt
    | |- keeps _ (poll _ _ _ _) => apply shut_poll
    | |- keeps _ (forM _ _) => apply keeps_forM
    | |- keeps _ (let x := _ in _) => cbn zeta
    | |- keeps _ ((λ x, _) _) => cbn beta
    | |- keeps _ ?c =>
        first [ solve [eauto 2 with shut nocore] | let h := head_of c in unfold h | done ]
    | |- _ => intro
    end.

Section opens.
Context {Out : Outside} {P : Parts} {W : Windows} {WL : WindowLaws W}.
Context (o : Orchestrator).
Implicit Types (m : @Machine Out).
Abbreviation M := (goM (@Machine Out) string).

Lemma shut_await_operation w fuel kc b d : keeps (shut w) (await_operation fuel kc b d).
Proof. induction fuel; cbn [await_operation]; walk_shut. Qed.
Hint Resolve shut_await_operation : shut.
Lemma shut_request_sync w n kc : keeps (shut w) (request_sync n kc).
Proof. induction n; cbn [request_sync]; walk_shut. Qed.
Hint Resolve shut_request_sync : shut.
Lemma shut_prepareZitadelForRetry w kc : keeps (shut w) (prepareZitadelForRetry kc).
Proof. walk_shut. Qed.
Lemma shut_awaitZitadelReady w kc : keeps (shut w) (awaitZitadelReady kc).
Proof. walk_shut. Qed.
Lemma shut_awaitBoundaryInventory w kc n : keeps (shut w) (awaitBoundaryInventory kc n).
Proof. unfold awaitBoundaryInventory, Wait. cbn [wait_checks]. walk_shut. Qed.

(** [c], where it succeeds, takes [I] to [I']. *)
Definition takes {A} (I : Machine → Prop) (c : M A) (I' : Machine → Prop) : Prop :=
  ∀ m a m', I m → c m = (Ok a, m') → I' m'.
Lemma takes_keeps {A} (I : Machine → Prop) (c : M A) : keeps I c → takes I c I.
Proof. intros Hk m a m' Hm E. specialize (Hk m Hm). by rewrite E in Hk. Qed.
Lemma takes_bind {A B} I1 I2 I3 (c : M A) (f : A → M B) :
  takes I1 c I2 → (∀ a, takes I2 (f a) I3) → takes I1 (c ≫= f) I3.
Proof. intros Hc Hf m b m' Hm (a & m1 & E1 & E2)%bind_inv_ok. eapply Hf; [|done]. by eapply Hc. Qed.
Lemma takes_prefixed {A} I I' pre (c : M A) : takes I c I' → takes I (prefixed pre c) I'.
Proof.
  intros Hc m a m' Hm. unfold prefixed. rewrite bind_run. unfold attempt.
  destruct (c m) as [[x|e] m1] eqn:E; [|done]. intros [= <- <-]. by eapply Hc.
Qed.
Lemma takes_ret {A} I (a : A) : takes I (mret a) I.
Proof. apply takes_keeps, keeps_ret. Qed.
Lemma takes_throw {A} I I' e : takes I (throw e : M A) I'.
Proof. by intros m a m'. Qed.
Lemma takes_forM {A} I (l : list A) (f : A → M unit) :
  (∀ x, x ∈ l → takes I (f x) I) → takes I (forM l f) I.
Proof.
  induction l as [|x l IH]; intros Hf; cbn; [apply takes_ret|].
  eapply takes_bind; [apply Hf; left|]. intros _. apply IH. intros; apply Hf; by right.
Qed.

(** Windows that do not depend on what was there before. *)
Definition closed m : Prop := ∀ n, (1 ≤ n ≤ 6)%Z → windows_of m n = true.
Definition opened_to (k : Z) m : Prop := ∀ n, (1 ≤ n ≤ 6)%Z → windows_of m n = negb (n <=? k)%Z.

Lemma takes_shut {A} (I : (Z → bool) → Prop) (c : M A) :
  (∀ w, keeps (shut w) c) → takes (λ m, I (windows_of m)) c (λ m, I (windows_of m)).
Proof.
  intros Hk. apply takes_keeps. intros m Hm. specialize (Hk (windows_of m) m eq_refl).
  unfold shut in Hk. by rewrite Hk.
Qed.
Lemma closed_shut {A} (c : M A) : (∀ w, keeps (shut w) c) → takes closed c closed.
Proof. apply (takes_shut (λ w, ∀ n, (1 ≤ n ≤ 6)%Z → w n = true)). Qed.
Lemma opened_shut {A} k (c : M A) : (∀ w, keeps (shut w) c) → takes (opened_to k) c (opened_to k).
Proof. apply (takes_shut (λ w, ∀ n, (1 ≤ n ≤ 6)%Z → w n = negb (n <=? k)%Z)). Qed.

(** Applying any manifest leaves closed boundaries closed; applying the projects closes them. *)
Lemma apply_closes I kc t :
  (t = gated_projects ∨ ∀ m, I m → closed m) → takes I (kubectlApplyStdin kc t) closed.
Proof.
  intros Ht m [] m' Hm. unfold kubectlApplyStdin. rewrite bind_run. unfold run_command. fold (apply_cmd kc t).
  destruct (exec (apply_cmd kc t) (env (now m))) as [out e] eqn:E.
  destruct (exit out) as [err|] eqn:Ex; [done|]. intros [= <-]. intros n Hn. unfold windows_of. cbn.
  destruct (decide (t = gated_projects)) as [-> | Hne].
  - pose proof (win_apply kc (env (now m))) as Hw. rewrite E in Hw. by apply Hw.
  - destruct Ht as [|Ht]; [done|]. pose proof (win_exec (apply_cmd kc t) (env (now m))) as Hw. rewrite E in Hw.
    cbn in Hw. rewrite Hw; [by apply Ht|]. intros [?|?]; done.
Qed.

Lemma closed_applySeedApplication kc : takes closed (applySeedApplication o kc) closed.
Proof.
  unfold applySeedApplication. destruct ReadHubZone as [zone|e]; [|apply takes_throw].
  eapply takes_bind; [apply closed_shut; intros w; walk_shut|intros issuer].
  eapply takes_bind; [apply closed_shut; intros w; walk_shut|intros ingress].
  eapply takes_bind; [apply closed_shut; intros w; walk_shut|intros branch].
  eapply takes_bind; [apply closed_shut; intros w; walk_shut|intros existing].
  eapply takes_bind; [apply closed_shut; intros w; walk_shut|intros [pid cid]].
  destruct (negb _).
  - eapply takes_bind; [apply closed_shut; intros w; walk_shut|intros _].
    unfold applyTenantSeed. destruct (String.eqb _ _); [apply takes_throw|]. apply takes_forM. intros f _.
    unfold tenant_manifest. eapply takes_bind; [apply closed_shut; intros w; walk_shut|intros [data|[|e]]].
    + destruct (unsubstituted data); [apply takes_throw|]. apply takes_prefixed, apply_closes. by right.
    + destruct (String.eqb _ _); [apply takes_ret|apply takes_throw].
    + apply takes_throw.
  - eapply takes_bind; [apply closed_shut; intros w; walk_shut|intros repo].
    apply takes_prefixed, apply_closes. by right.
Qed.

(** An attempt to open [n] touches no other boundary, and a success opens it. *)
Lemma open_window_run kc n m :
  (1 ≤ n ≤ 6)%Z →
  ∃ out m', open_window kc (boundaryProject n) m = (Ok out, m')
    ∧ (∀ i, i ≠ n → windows_of m' i = windows_of m i) ∧ (exit out = None → windows_of m' n = false).
Proof.
  intros Hn. unfold open_window, kubectl, command, run_command. fold (open_cmd kc n).
  pose proof (win_open kc n (env (now m)) Hn) as Ho. pose proof (λ i, win_open_other kc n (env (now m)) i Hn) as Hi.
  destruct (exec (open_cmd kc n) (env (now m))) as [out e]. eexists _, _. split; [done|]. done.
Qed.
Lemma patch_opens more a kc n m u m' :
  (1 ≤ n ≤ 6)%Z →
  patch_attempts more a kc (boundaryProject n) m = (Ok u, m') →
  windows_of m' n = false ∧ ∀ i, i ≠ n → windows_of m' i = windows_of m i.
Proof.
  intros Hr. revert a m. induction more as [|more IH]; intros a m; cbn [patch_attempts]; rewrite bind_run;
    destruct (open_window_run kc n m Hr) as (out & m1 & -> & Hi & Ho); destruct (exit out) as [e|].
  - done.
  - intros [= <- <-]. auto.
  - destruct (transientTransportError _); [|done]. intros (u1 & m2 & Hp & [Hn Hi2]%IH)%bind_inv_ok.
    assert (Hs : shut (windows_of m1) m2).
    { pose proof (shut_pause (windows_of m1) (a * a * second) m1 eq_refl) as Hs. by rewrite Hp in Hs. }
    split; [done|]. intros i Hin. rewrite Hi2, Hs, Hi by done. done.
  - intros [= <- <-]. auto.
Qed.

Lemma activate_from k n kc :
  (0 ≤ k)%Z → (n ≤ 6)%Z →
  takes (opened_to k) (forM (seqZ (k + 1) (n - k)) (λ i, wrap ("failed to activate boundary " +:+ two_digits i)
                         (patchWithTransportRetry kc (boundaryProject i)))) (opened_to (Z.max k n)).
Proof.
  intros Hk H6. remember (Z.to_nat (n - k)) as d eqn:Hd. revert k Hk Hd. induction d as [|d IH]; intros k Hk Hd.
  - rewrite seqZ_nil by lia. intros m [] m' Hm [= <-]. rewrite Z.max_l by lia. done.
  - rewrite seqZ_cons by lia. cbn [forM].
    eapply (takes_bind _ (opened_to (k + 1))).
    + apply takes_prefixed. intros m u m' Hm E i Hr. apply patch_opens in E as [Hn Hi]; [|lia].
      destruct (decide (i = k + 1)%Z) as [-> | Hne].
      * rewrite Hn. symmetry. apply negb_false_iff, Z.leb_le. lia.
      * rewrite Hi, Hm by done. f_equal. apply eq_iff_eq_true. rewrite !Z.leb_le. lia.
    + intros _. replace (Z.succ (k + 1))%Z with (k + 1 + 1)%Z by lia.
      replace (Z.pred (n - k))%Z with (n - (k + 1))%Z by lia. replace (Z.max k n) with (Z.max (k + 1) n) by lia.
      apply IH; lia.
Qed.

Lemma deploy_takes n kc :
  gatingMode o = GatingSequenced → (0 ≤ n ≤ 6)%Z → takes (λ _, True) (deployBoundary o kc n) (opened_to n).
Proof.
  intros Hg Hn. unfold deployBoundary, applySeed.
  eapply (takes_bind _ closed).
  - eapply (takes_bind _ closed); [|intros _; apply closed_applySeedApplication].
    apply takes_prefixed, apply_closes. left. unfold boundary_projects, sequenced. by rewrite Hg.
  - intros _. unfold activateBoundary. rewrite Hg.
    replace (seqZ 1 n) with (seqZ (0 + 1) (n - 0)) by (f_equal; lia).
    intros m u m' Hm E. rewrite <-(Z.max_r 0 n) by lia. eapply activate_from; [done|lia| |exact E].
    intros i Hi. rewrite Hm by done. symmetry. apply negb_true_iff, Z.leb_gt. lia.
Qed.

End opens.

Section repair.
Context {Out : Outside} {P : Parts} {J : StateJson} {W : Windows} {WL : WindowLaws W}.
Context (o : Orchestrator).
Implicit Types (m : @Machine Out).
Abbreviation M := (goM (@Machine Out) string).

Lemma deployBoundaryN_4 kc :
  gatingMode o = GatingSequenced → takes (λ _, True) (deployBoundaryN o kc 4) (opened_to 4).
Proof.
  intros Hg. change (deployBoundaryN o kc 4) with
    (match contractFor (boundaryContracts (boundary_steps o)) 4 with Ok c => runBoundary o kc c | Err e => throw e end).
  cbn. unfold runBoundary. cbn.
  eapply (takes_bind _ (λ _, True)); [by intros ?|intros _].
  eapply (takes_bind _ (opened_to 4)); [by apply deploy_takes|intros _].
  eapply (takes_bind _ (opened_to 4)); [apply takes_ret|intros _].
  eapply (takes_bind _ (opened_to 4)); [apply opened_shut; intros w; apply shut_awaitBoundaryInventory|intros _].
  eapply (takes_bind _ (opened_to 4)).
  { apply takes_prefixed, opened_shut. intros w. apply shut_prepareZitadelForRetry. }
  intros _. eapply (takes_bind _ (opened_to 4)); [|intros _; apply takes_ret].
  apply takes_prefixed, opened_shut. intros w. apply shut_awaitZitadelReady.
Qed.

(** Recorded phases other than the one that is run stay recorded. *)
Definition has (ps : list BootstrapPhase) m : Prop := ps ⊆ CompletedPhases (bs m).
Lemma has_calm {A} ps (c : M A) : calm c → keeps (has ps) c.
Proof. intros Hc m Hm. unfold has. by rewrite (q_phases _ _ (calm_run c m Hc)). Qed.
Lemma has_Save ps : keeps (has ps) Save.
Proof.
  intros m Hm. change (Save m) with (write_record (encode_state (bs (stamp m).2)) (stamp m).2).
  destruct (write_record_atomic (encode_state (bs (stamp m).2)) (stamp m).2) as (m2 & _ & Hb & Hw).
  assert (Hb' : bs (write_record (encode_state (bs (stamp m).2)) (stamp m).2).2 = bs (stamp m).2).
  { destruct (write_record _ _) as [[]]; cbn; subst; by rewrite <-Hb. }
  unfold has. rewrite Hb'. by rewrite (q_phases _ _ (calm_run stamp m calm_stamp)).
Qed.
Lemma has_emit ps e : keeps (has ps) (emit e).
Proof. by intros m Hm. Qed.
Lemma has_perform ps p label (action : M unit) : calm action → keeps (has ps) (perform o p label action).
Proof.
  intros Ha. unfold perform. apply keeps_bind; [apply keeps_gets|intros t]. apply keeps_bind; [apply keeps_gets|intros b].
  apply keeps_bind; [apply has_emit|intros _]. apply keeps_bind; [by apply keeps_attempt, has_calm|intros [u|e]].
  - apply keeps_bind; [apply keeps_gets|intros t']. apply keeps_bind; [apply has_emit|intros _].
    apply keeps_bind; [|intros _; apply keeps_bind; [apply has_Save|intros _]].
    + intros m Hm q Hq. cbn. apply elem_of_app. left. by apply Hm.
    + apply has_calm. intros m0. apply calm_persistTenantState.
  - apply keeps_bind; [apply has_emit|intros _; apply keeps_throw].
Qed.
Lemma shut_Save w : keeps (shut w) Save.
Proof. walk_shut. Qed.
Lemma shut_persist w label : keeps (shut w) (persistTenantState o label).
Proof. walk_shut. Qed.

(** A phase that is performed without an error leaves what its action does. *)
Lemma perform_takes p label (action : M unit) k :
  takes (λ _, True) action (opened_to k) → takes (λ _, True) (perform o p label action) (opened_to k).
Proof.
  intros Ha. unfold perform. do 3 (eapply (takes_bind _ (λ _, True)); [by intros ?|intros ?]).
  intros m u m' _. rewrite bind_run. unfold attempt. destruct (action m) as [[x|e] m1] eqn:E.
  2:{ intros (? & ? & ? & ?)%bind_inv_ok. done. }
  apply Ha in E; [|done]. revert E.
  match goal with |- _ → ?c m1 = _ → _ => enough (takes (opened_to k) c (opened_to k)) as H by (intros; by eapply H) end.
  eapply takes_bind; [apply takes_keeps, keeps_gets|intros t].
  eapply takes_bind; [apply opened_shut; intros w; by apply shut_becomes|intros _].
  eapply takes_bind; [apply opened_shut; intros w; apply shut_update|intros _].
  eapply takes_bind; [apply opened_shut, shut_Save|intros _]. apply opened_shut. intros w. apply shut_persist.
Qed.

(** A recorded phase whose postcondition fails is performed. *)
Lemma withdrawn_phase_due p (check : M unit) m e m1 :
  p ∈ CompletedPhases (bs m) → calm check → check m = (Err e, m1) →
  ∀ r m2, phase_due p (Some check) m = (Ok r, m2) →
    r = true ∧ ∀ ps, has ps m → p ∉ ps → has ps m2.
Proof.
  intros Hp%phaseDone_iff Hcalm He r m2. unfold phase_due. rewrite bind_run. cbn. rewrite Hp. cbn.
  rewrite bind_run. unfold attempt. rewrite He.
  intros (? & m3 & E3 & (? & m4 & E4 & (? & m5 & E5 & [= <- <-])%bind_inv_ok)%bind_inv_ok)%bind_inv_ok.
  split; [done|]. intros ps Hps Hnp.
  assert (H1 : has ps m1) by (pose proof (has_calm ps check Hcalm m Hps) as H; by rewrite He in H).
  cbn in E3. injection E3 as _ <-. cbn in E4. injection E4 as _ <-.
  pose proof (has_Save ps (set_bs (withdraw p (bs m1)) (emit (Withdrew p e) m1).2)) as Hs.
  cbn in Hs. rewrite E5 in Hs. apply Hs. intros q Hq. cbn. apply list_elem_of_filter.
  split; [by intros ->|by apply H1].
Qed.

(** When boundary 04 is recorded complete but the identity provider does not serve, a
    resumed run repairs it by deploying it again, which closes all six boundaries and
    reopens four: with boundaries 05 and 06 recorded complete, and so skipped, a run that
    ends without an error leaves both of them closed. *)
Theorem repair_leaves_closed kc m e m1 m' :
  gatingMode o = GatingSequenced →
  [PhaseBoundary04; PhaseBoundary05; PhaseBoundary06] ⊆ CompletedPhases (bs m) →
  zitadelServing kc m = (Err e, m1) →
  tenant_boundaries o kc m = (Ok tt, m') →
  window (env (now m')) 5 = true ∧ window (env (now m')) 6 = true
  ∧ [PhaseBoundary05; PhaseBoundary06] ⊆ CompletedPhases (bs m').
Proof.
  intros Hg Hrec Hz. unfold tenant_boundaries.
  intros ([] & m2 & E2 & ([] & m3 & E3 & E4)%bind_inv_ok)%bind_inv_ok.
  assert (H2 : opened_to 4 m2 ∧ has [PhaseBoundary05; PhaseBoundary06] m2).
  { unfold runPhase in E2. apply bind_inv_ok in E2 as (due & md & Ed & E2).
    eapply (withdrawn_phase_due PhaseBoundary04 (postcondition o kc PhaseBoundary04) m e m1) in Ed as [-> Hps];
      [|apply Hrec; left|intros m0; apply calm_postcondition|done].
    split; [eapply (perform_takes PhaseBoundary04 "boundary04" (deployBoundaryN o kc 4)); [by apply deployBoundaryN_4|done|exact E2]|].
    pose proof (has_perform [PhaseBoundary05; PhaseBoundary06] PhaseBoundary04 "boundary04" (deployBoundaryN o kc 4)
      (λ m0, calm_deployBoundaryN o m0 kc 4) md) as Hk. rewrite E2 in Hk. apply Hk, Hps; [|set_solver].
    intros q Hq. apply Hrec. by right. }
  destruct H2 as [Ho Hh]. rewrite runPhase_skips in E3 by (apply Hh; left). injection E3 as <-.
  rewrite runPhase_skips in E4 by (apply Hh; right; left). injection E4 as <-.
  split_and!; [apply (Ho 5%Z); lia|apply (Ho 6%Z); lia|exact Hh].
Qed.
End repair.
