(* ===== verification/BootstrapWaitFacts.v ===== *)
(** * BootstrapWaitFacts: the waits end, what they wait for, and when a worker is rebuilt. *)

From S2P Require Import Prelude.
From S2P Require Import BootstrapGraph.
From S2P Require Import Bootstrap.
From S2P Require Import BootstrapCluster.
From S2P Require Import BootstrapRun.
From S2P Require Import BootstrapFacts.

Section polls.
Context {Out : Outside}.
Implicit Types (m : @Machine Out).
Abbreviation M := (goM (@Machine Out) string).

(** After [deadline] the turn [c] does not ask for another. *)
Definition gives_up {L A} (deadline : Z) (c : M (L + A)) : Prop :=
  ∀ m l' m', (deadline < clk (now m))%Z → c m ≠ (Ok (inl l'), m').
Lemma gives_up_bind {L A B} d (c : M B) (f : B → M (L + A)) :
  calm c → (∀ b, gives_up d (f b)) → gives_up d (c ≫= f).
Proof.
  intros Hc Hf m l' m' Hd (b & m1 & E & H)%bind_inv_ok. eapply (Hf b); [|done].
  pose proof (q_clock _ _ (calm_run c m Hc)) as Hq. rewrite E in Hq. cbn in Hq. lia.
Qed.
Lemma gives_up_now {L A} d (f : Z → M (L + A)) :
  (∀ t, (d < t)%Z → gives_up d (f t)) → gives_up d (Now ≫= f).
Proof. intros Hf m l' m' Hd. rewrite bind_run. cbn. by apply Hf. Qed.
Lemma gives_up_inr {L A} d (a : A) : gives_up (L := L) d (mret (inr a)).
Proof. by intros m l' m' _. Qed.
Lemma gives_up_throw {L A} d e : gives_up (L := L) (A := A) d (throw e).
Proof. by intros m l' m' _. Qed.

Lemma pause_advances d m u m' : (0 ≤ d)%Z → pause d m = (Ok u, m') → (clk (now m) + d ≤ clk (now m'))%Z.
Proof.
  intros Hd. unfold pause, outside. destruct (sleep d _) as [[[err|] e] lag]; [done|]. intros [= <- <-]. cbn. lia.
Qed.

(** Fuel for the turns up to the deadline is fuel enough: more changes nothing. *)
Lemma poll_enough {L A} every deadline (body : L → M (L + A)) :
  (0 < every)%Z → (∀ l, calm (body l)) → (∀ l, gives_up deadline (body l)) →
  ∀ n k l m, (deadline < clk (now m) + every * Z.of_nat n)%Z →
    poll (S n + k) every body l m = poll (S n) every body l m.
Proof.
  intros Hev Hcalm Hup n k. induction n as [|n IH]; intros l m Hm.
  - cbn [poll Nat.add]. rewrite !bind_run. destruct (body l m) as [[[l'|a]|e] m1] eqn:E; try done.
    exfalso. eapply (Hup l m l' m1); [lia|done].
  - cbn [Nat.add]. cbn [poll]. rewrite !bind_run. destruct (body l m) as [[[l'|a]|e] m1] eqn:E; try done.
    rewrite !bind_run. destruct (pause every m1) as [[u|e] m2] eqn:Ep; [|done].
    apply (IH l' m2). apply pause_advances in Ep; [|lia].
    pose proof (q_clock _ _ (calm_run _ m (Hcalm l))) as Hc. rewrite E in Hc. cbn in Hc. lia.
Qed.

(** What a poll answers was answered by one of its turns. *)
Lemma poll_answer {L A} fuel every (body : L → M (L + A)) l m a m' :
  poll fuel every body l m = (Ok a, m') → ∃ l1 m1, body l1 m1 = (Ok (inr a), m').
Proof.
  revert l m. induction fuel as [|fuel IH]; intros l m; cbn [poll]; [done|]. rewrite bind_run.
  destruct (body l m) as [[[l'|a']|e] m1] eqn:E; [| |done].
  - intros (u & m2 & _ & H)%bind_inv_ok. by eapply IH.
  - intros [= <- <-]. eauto.
Qed.
End polls.

Section waits.
Context {Out : Outside} {P : Parts}.
Implicit Types (m : @Machine Out).
Abbreviation M := (goM (@Machine Out) string).

(** Walks a turn whose last reading of the clock is past the deadline. *)
Ltac walk_gives_up :=
  repeat lazymatch goal with
    | |- gives_up _ (Now ≫= _) => apply gives_up_now; intros ? ?
    | |- gives_up _ (_ ≫= _) => apply gives_up_bind; [intros ?; walk_calm|intros ?]
    | |- gives_up _ (mret (inr _)) => apply gives_up_inr
    | |- gives_up _ (throw _) => apply gives_up_throw
    | |- gives_up _ (mret (if (?a <? ?b)%Z then _ else _)) => rewrite (proj2 (Z.ltb_lt a b)) by lia
    | |- gives_up _ (if (?a <? ?b)%Z then _ else _) => rewrite (proj2 (Z.ltb_lt a b)) by lia
    | |- gives_up _ (match ?x with _ => _ end) => destruct x
    | |- gives_up _ (let x := _ in _) => cbn zeta
    end.

Lemma database_gives_up kc started l : gives_up (started + 45 * minute) (database_turn kc started l).
Proof. unfold database_turn. walk_gives_up. Qed.
Lemma zitadel_gives_up kc started l : gives_up (started + 12 * minute) (zitadel_turn kc started l).
Proof. unfold zitadel_turn. walk_gives_up. Qed.
Lemma worker_gives_up kc d l : gives_up d (await_worker_turn kc d l).
Proof. unfold await_worker_turn. walk_gives_up. Qed.
Lemma roles_gives_up kc started l : gives_up (started + 45 * minute) (roles_turn kc started l).
Proof. unfold roles_turn, roles_timed_out. walk_gives_up. Qed.
Lemma check_gives_up c kc passed timeout d t l : gives_up d (wait_turn c kc passed timeout d t l).
Proof. unfold wait_turn. walk_gives_up. Qed.


(** A turn that does not end the wait. *)
Definition goes_on {L A} (c : M (L + A)) : Prop := ∀ m a m', c m ≠ (Ok (inr a), m').
Lemma goes_on_bind {L A B} (c : M B) (f : B → M (L + A)) : (∀ b, goes_on (f b)) → goes_on (c ≫= f).
Proof. intros Hf m a m' (b & m1 & _ & H)%bind_inv_ok. by eapply Hf. Qed.
Lemma goes_on_inl {L A} (l : L) : goes_on (A := A) (mret (inl l)).
Proof. by intros m a m'. Qed.
Lemma goes_on_throw {L A} e : goes_on (L := L) (A := A) (throw e).
Proof. by intros m a m'. Qed.

Lemma roles_turn_done kc t l m m' :
  roles_turn kc t l m = (Ok (inr tt), m') →
  ∃ out m1, kubectl kc ["get"; "hubenvironment"; "hub-environment"; "-o";
                        conditions_where "type" "DatabaseRolesProvisioned" "status"] m = (Ok out, m1)
    ∧ exit out = None ∧ TrimSpace (stdout out) = "True" ∧ missingDatabaseRoles kc m1 = (Ok (Ok []), m').
Proof.
  unfold roles_turn. intros (out & m1 & E1 & (missing & m2 & E2 & H)%bind_inv_ok)%bind_inv_ok.
  exists out, m1. split; [done|].
  destruct (bool_decide (exit out = None) && String.eqb (TrimSpace (stdout out)) "True"
            && match missing with Ok [] => true | _ => false end) eqn:Hd.
  - apply andb_true_iff in Hd as [[Hx%bool_decide_eq_true Hs%String.eqb_eq]%andb_true_iff Hm].
    destruct missing as [[|]|]; [|done|done]. cbn [mret goM_ret] in H. injection H as <-. done.
  - exfalso. revert H.
    match goal with |- ?c m2 = _ → _ => enough (goes_on c) as Hg by (intros E; by eapply Hg) end.
    unfold roles_timed_out. repeat (apply goes_on_bind; intros ?).
    repeat first [ apply goes_on_throw | apply goes_on_inl | apply goes_on_bind; intros ? | case_match ].
Qed.

(** The wait for the database roles succeeds only on a turn in which the operator's
    condition read True and, asked after it, the database listed every declared role. *)
Theorem roles_wait_sound kc m m' :
  awaitDatabaseRolesProvisioned kc m = (Ok tt, m') →
  ∃ m0 out m1, kubectl kc ["get"; "hubenvironment"; "hub-environment"; "-o";
                           conditions_where "type" "DatabaseRolesProvisioned" "status"] m0 = (Ok out, m1)
    ∧ exit out = None ∧ TrimSpace (stdout out) = "True" ∧ missingDatabaseRoles kc m1 = (Ok (Ok []), m').
Proof.
  unfold awaitDatabaseRolesProvisioned. intros (t & m1 & _ & (l & m2 & H)%poll_answer)%bind_inv_ok.
  exists m2. by eapply roles_turn_done.
Qed.
End waits.

(** ** The worker *)

Section worker.
Context {Out : Outside} {P : Parts}.
Context (o : Orchestrator).
Implicit Types (m : @Machine Out).
Abbreviation M := (goM (@Machine Out) string).

(** The commands a program runs all start with one of [names]. *)
Definition runs_only (names : list string) m0 m : Prop :=
  ∃ new, ran (now m) = (ran (now m0) ++ new)%list ∧ ∀ c, c ∈ new → ∃ n, head (args c) = Some n ∧ n ∈ names.
Definition script_run m0 m : Prop :=
  ∃ new, ran (now m) = (ran (now m0) ++ new)%list ∧ ∃ c, c ∈ new ∧ head (args c) = Some "bash".

Lemma runs_only_refl names m : runs_only names m m.
Proof. exists []. rewrite app_nil_r. split; [done|]. by intros c ?%not_elem_of_nil. Qed.
Lemma runs_only_step names m0 m s b past :
  ran s = ran (now m) → runs_only names m0 m → runs_only names m0 (mkMachine s past b).
Proof. intros Hs (new & Hr & Hn). exists new. cbn. by rewrite Hs. Qed.
Lemma runs_only_command names m0 c :
  (∃ n, head (args c) = Some n ∧ n ∈ names) → keeps (runs_only names m0) (run_command c).
Proof.
  intros Hc m (new & Hr & Hn). unfold run_command. destruct (exec c _) as [out e]. cbn.
  exists (new ++ [c])%list. cbn. rewrite Hr, app_assoc. split; [done|].
  intros c' [?| ->%list_elem_of_singleton]%elem_of_app; auto.
Qed.
Lemma runs_only_outside {A} names m0 (f : Outcall A) : keeps (runs_only names m0) (outside f).
Proof. intros m Hm. unfold outside. destruct (f _) as [[r e] t]. by apply (runs_only_step _ _ m). Qed.
Lemma runs_only_poll {L A} names m0 fuel every (body : L → M (L + A)) l :
  (∀ l, keeps (runs_only names m0) (body l)) → keeps (runs_only names m0) (poll fuel every body l).
Proof.
  intros Hb. revert l. induction fuel as [|fuel IH]; intros l; cbn [poll]; [apply keeps_throw|].
  apply keeps_bind; [done|]. intros [l'|a]; [|apply keeps_ret]. apply keeps_bind; [apply runs_only_outside|done].
Qed.
Lemma script_not_kubectl m0 m : runs_only ["kubectl"] m0 m → ¬ script_run m0 m.
Proof.
  intros (new & Hr & Hn) (new' & Hr' & c & Hc & Hh). rewrite Hr in Hr'. apply app_inv_head in Hr' as <-.
  destruct (Hn c Hc) as (n & Hn' & ->%list_elem_of_singleton). congruence.
Qed.

Lemma probe_runs m0 kc : keeps (runs_only ["kubectl"] m0) (probeHubWorker kc).
Proof.
  unfold probeHubWorker, kubectl, command. apply keeps_bind; [|intros; apply keeps_ret].
  apply runs_only_command. exists "kubectl". split; [done|left].
Qed.
Lemma await_runs m0 kc w : keeps (runs_only ["kubectl"] m0) (awaitHubWorkerReady kc w).
Proof.
  unfold awaitHubWorkerReady. apply keeps_bind; [apply keeps_gets|intros t].
  apply keeps_bind; [|intros; apply keeps_ret]. apply keeps_attempt, runs_only_poll. intros [].
  unfold await_worker_turn. apply keeps_bind; [apply probe_runs|intros [[] n]];
    try apply keeps_ret; (apply keeps_bind; [apply keeps_gets|intros; apply keeps_ret]).
Qed.

(** The script that deletes a worker and rebuilds its machine is run only if the hub,
    asked first, said that no worker carries the labels, or that one does without being
    Ready and did not come back within the recovery window. A worker that is Ready, or a
    hub that cannot be asked, is left alone. *)
Theorem rebuild_is_grounded kc m r m' :
  joinHomeWorkers o kc m = (r, m') → script_run m m' →
  ∃ st name m1, probeHubWorker kc m = (Ok (st, name), m1)
    ∧ (st = hubWorkerAbsent
       ∨ st = hubWorkerNotReady ∧ ∃ m2, awaitHubWorkerReady kc onPremRecoveryWindow m1 = (Ok "", m2)).
Proof.
  unfold joinHomeWorkers. intros E Hs. pose proof (runs_only_refl ["kubectl"] m) as Hm.
  destruct (negb (onPremRequested o)); [by injection E as <- <-; destruct (script_not_kubectl m m)|].
  destruct (String.eqb kc ""); [by injection E as <- <-; destruct (script_not_kubectl m m)|].
  rewrite bind_run in E. pose proof (probe_runs m kc m Hm) as H1.
  destruct (probeHubWorker kc m) as [[[st name]|e] m1] eqn:Ep; cbn in H1.
  2:{ injection E as <- <-. by destruct (script_not_kubectl m m1). }
  exists st, name, m1. split; [done|]. destruct st; [| by left | |].
  - injection E as <- <-. by destruct (script_not_kubectl m m1).
  - right. split; [done|]. rewrite bind_run in E. pose proof (await_runs m kc onPremRecoveryWindow m1 H1) as H2.
    destruct (awaitHubWorkerReady kc onPremRecoveryWindow m1) as [[w|e] m2]; cbn in H2.
    2:{ injection E as <- <-. by destruct (script_not_kubectl m m2). }
    destruct (String.eqb_spec w "") as [-> | Hw]; [by exists m2|]. cbn in E.
    injection E as <- <-. by destruct (script_not_kubectl m m2).
  - injection E as <- <-. by destruct (script_not_kubectl m m1).
Qed.

(** ** A hub that goes out of reach *)

Definition probe_cmd (kubeconfig : string) : Cmd :=
  mkCmd ["kubectl"; "--kubeconfig"; kubeconfig; "get"; "nodes"; "-l"; hubWorkerSelector; "-o";
    "jsonpath={range .items[*]}{.metadata.name}{" +:+ quoted "=" +:+ "}{.status.conditions[?(@.type=="
    +:+ quoted "Ready" +:+ ")].status}{" +:+ quoted "\n" +:+ "}{end}"] "" "" [].
(** In [down] worlds, which no command and no wait leaves, the nodes cannot be read. *)
Record out_of_reach (kc : string) (down : Env → Prop) : Prop := {
  or_exec c e : down e → down (exec c e).2;
  or_sleep d e : down e → down (sleep d e).1.2;
  or_probe e : down e → exit (exec (probe_cmd kc) e).1 ≠ None }.

Lemma probe_down kc down m :
  out_of_reach kc down → down (env (now m)) →
  ∃ m', probeHubWorker kc m = (Ok (hubWorkerUnknown, ""), m') ∧ down (env (now m')).
Proof.
  intros [Hexec _ Hprobe] Hm. unfold probeHubWorker, kubectl, command. rewrite bind_run. unfold run_command.
  fold (probe_cmd kc). specialize (Hexec (probe_cmd kc) _ Hm). specialize (Hprobe _ Hm).
  destruct (exec (probe_cmd kc) _) as [out e]. cbn in *. destruct (exit out); [|done]. by eexists.
Qed.
Lemma await_down kc down fuel d m :
  out_of_reach kc down → down (env (now m)) →
  ∃ r m', poll fuel (15 * second) (await_worker_turn kc d) tt m = (r, m') ∧ (r = Ok "" ∨ ∃ e, r = Err e).
Proof.
  intros Hd. revert m. induction fuel as [|fuel IH]; intros m Hm; cbn [poll]; [by eexists _, _; split; [|right; eexists]|].
  rewrite bind_run. unfold await_worker_turn at 1. rewrite bind_run.
  destruct (probe_down kc down m Hd Hm) as (m1 & -> & H1). rewrite bind_run. cbn [Now gets mret goM_ret].
  destruct (_ <? _)%Z; [by eexists _, _; split; [|left]|]. rewrite bind_run. unfold pause, outside.
  pose proof (or_sleep _ _ Hd (15 * second)%Z _ H1) as Hs.
  destruct (sleep _ _) as [[[err|] e] lag]; [by eexists _, _; split; [|right; eexists]|]. by apply IH.
Qed.

Lemma resolveScriptPath_reads rel m : ∃ script, resolveScriptPath rel m = (Ok script, m).
Proof.
  unfold resolveScriptPath. rewrite bind_run. cbn [peek gets]. rewrite bind_run. cbn [peek gets].
  destruct (_ && _); [by eexists|]. rewrite bind_run. cbn [peek gets].
  destruct (executable _); [|by eexists]. rewrite bind_run. by eexists.
Qed.
Lemma provision_runs kc m :
  (∀ path e, stat path e = true) →
  ∃ c new, head (args c) = Some "bash" ∧ ran (now (provisionWorker kc m).2) = (ran (now m) ++ c :: new)%list.
Proof.
  intros Hstat. unfold provisionWorker. rewrite bind_run.
  destruct (resolveScriptPath_reads (path_join ["scripts"; "hybrid"; "provision-flatcar-worker.sh"]) m) as [script ->].
  rewrite bind_run. cbn [peek gets]. rewrite Hstat. cbn [negb]. rewrite bind_run. unfold run_command.
  match goal with |- context [exec ?c _] => exists c; destruct (exec c _) as [out e] end.
  match goal with |- context [mkMachine ?s ?p ?b] => set (m1 := mkMachine s p b) end.
  destruct (exit out) as [err|]; [by exists []|]. rewrite bind_run.
  pose proof (probe_runs m1 kc m1 (runs_only_refl _ m1)) as (new & Hr & _).
  exists new. split; [done|].
  destruct (probeHubWorker kc m1) as [[[[] name]|e'] m2]; cbn in Hr |- *; rewrite Hr; cbn; by rewrite <-app_assoc.
Qed.

(** A worker that is registered without being Ready is rebuilt when the hub then stops
    answering: the probes of the recovery window that cannot reach it neither end the wait
    nor keep the destructive script from being run. *)
Theorem unreachable_hub_rebuilt kc m name m1 down :
  onPremRequested o = true → kc ≠ "" →
  probeHubWorker kc m = (Ok (hubWorkerNotReady, name), m1) →
  down (env (now m1)) → out_of_reach kc down → (∀ path e, stat path e = true) →
  script_run m (joinHomeWorkers o kc m).2.
Proof.
  intros Ho Hkc Hp Hdown Hd Hstat. unfold joinHomeWorkers. rewrite Ho. cbn [negb].
  rewrite (proj2 (String.eqb_neq _ _) Hkc). rewrite bind_run, Hp.
  pose proof (probe_runs m kc m (runs_only_refl _ m)) as H1. rewrite Hp in H1. cbn in H1.
  pose proof (await_runs m kc onPremRecoveryWindow m1 H1) as H2. rewrite bind_run.
  assert (Hw : ∃ m2, awaitHubWorkerReady kc onPremRecoveryWindow m1 = (Ok "", m2)).
  { unfold awaitHubWorkerReady. rewrite bind_run. cbn [Now gets]. rewrite bind_run. unfold attempt.
    match goal with |- context [poll ?f _ (await_worker_turn _ ?d) _ _] =>
      destruct (await_down kc down f d m1 Hd Hdown) as (r & m2 & -> & [-> | [e ->]]) end; by eexists. }
  destruct Hw as [m2 Hw]. rewrite Hw in H2 |- *. cbn in H2 |- *.
  destruct H2 as (new & Hr & _). destruct (provision_runs kc m2 Hstat) as (c & new' & Hc & Hr').
  exists (new ++ c :: new')%list. rewrite Hr', Hr, app_assoc. split; [done|].
  exists c. split; [|done]. apply elem_of_app. right. left.
Qed.

(** Without a tenant repository the seed is never applied: the issuer that every seed is
    given is read from that repository's values before it is asked whether there is one. So
    no boundary can be deployed, the argocd-install phase never succeeds, and the seed the
    platform would render for a box of its own is out of reach. *)
Theorem seed_needs_repository kc n m :
  GitopsDir o = "" →
  (∃ e, (applySeedApplication o kc m).1 = Err e) ∧ (∃ e, (deployBoundary o kc n m).1 = Err e)
  ∧ (∃ e, (installArgoCDAndSeed o kc m).1 = Err e).
Proof.
  intros Hg.
  assert (Hseed : ∀ m, ∃ e, (applySeedApplication o kc m).1 = Err e).
  { intros m1. unfold applySeedApplication. destruct ReadHubZone as [zone|e]; [|by eexists].
    rewrite bind_run. unfold publicTlsIssuerFor. rewrite bind_run. unfold wrap, prefixed. rewrite bind_run.
    unfold attempt, ReadBoxValues. rewrite Hg. by eexists. }
  assert (Hdep : ∀ n m, ∃ e, (deployBoundary o kc n m).1 = Err e).
  { intros n1 m1. unfold deployBoundary, applySeed. rewrite bind_run, bind_run.
    destruct (wrap _ _ m1) as [[u|e] m2]; [|by eexists]. destruct (Hseed m2) as [e He].
    destruct (applySeedApplication o kc m2) as [[]]; cbn in He; [done|]. by eexists. }
  split_and!; [done|done|].
  unfold installArgoCDAndSeed. destruct (String.eqb _ _); [by eexists|]. rewrite bind_run.
  destruct (wrap _ _ m) as [[u|e] m2]; [|by eexists]. rewrite bind_run. destruct (Hdep 1%Z m2) as [e He].
  destruct (deployBoundary o kc 1 m2) as [[]]; cbn in He; [done|]. by eexists.
Qed.
End worker.
