(* ===== verification/BootstrapWitness.v ===== *)
(** * BootstrapWitness: the theorems on Day-0 at concrete inputs.

    A world that satisfies the laws the theorems assume: a hub whose boundaries open and
    close, whose identity provider starts once its sync is asked for, and which may stop
    answering; the record written as a string that reads back; and runs on it. *)

From S2P Require Import Prelude.
From S2P Require Import BootstrapGraph.
From S2P Require Import BootstrapGraphFacts.
From S2P Require Import Bootstrap.
From S2P Require Import BootstrapCluster.
From S2P Require Import BootstrapRun.
From S2P Require Import BootstrapFacts.
From S2P Require Import BootstrapPhaseFacts.
From S2P Require Import BootstrapResumeFacts.
From S2P Require Import BootstrapBoundaryFacts.
From S2P Require Import BootstrapWaitFacts.

Local Open Scope string_scope.

(** ** Sorting *)

#[export] Instance edge_le_dec a b : Decision (edge_le a b).
Proof. unfold edge_le. apply _. Defined.
#[export] Instance edge_le_total : Total edge_le.
Proof. intros a b. unfold edge_le. lia. Qed.
#[export] Instance edges_merged : EdgeSort := merge_sort edge_le.
#[export] Instance edges_merged_laws : EdgeSortLaws edges_merged.
Proof. split; intros l; [apply merge_sort_Permutation|apply (Sorted_merge_sort edge_le)]. Qed.
#[export] Instance as_declared : MapOrder := λ l, l.

(** ** The record as a string *)

Definition state_fields (b : BootstrapState) : list positive :=
  [encode (Version b); encode (sClusterName b); encode (sProvider b); encode (Region b); encode (BootstrapID b);
   encode (CurrentPhase b); encode (CompletedPhases b); encode (sBootstrapContext b); encode (BootstrapKubeconfig b);
   encode (MgmtKubeconfig b); encode (NetworkCIDR b); encode (SSHKeys b); encode (Timestamp b); encode (Metadata b);
   encode (StartedAt b); encode (CompletedAt b);
   encode ((λ t, (tPhase t, tStartedAt t, tCompletedAt t, Seconds t)) <$> PhaseTimings b)].
Definition fields_state (l : list positive) : option BootstrapState :=
  match l with
  | [a; b; c; d; e; f; g; h; i; j; k; l; m; n; p; q; r] =>
      a ← decode a; b ← decode b; c ← decode c; d ← decode d; e ← decode e; f ← decode f; g ← decode g;
      h ← decode h; i ← decode i; j ← decode j; k ← decode k; l ← decode l; m ← decode m; n ← decode n;
      p ← decode p; q ← decode q; r ← decode r;
      Some (mkState a b c d e f g h i j k l m n p q
              ((λ '(p, s, c, d), mkTiming p s c d) <$> r))
  | _ => None
  end.
Lemma fields_state_fields b : fields_state (state_fields b) = Some b.
Proof.
  destruct b as [? ? ? ? ? ? ? ? ? ? ? ? ? ? ? ? ts]. unfold state_fields, fields_state.
  cbn -[encode decode fmap]. rewrite !decode_encode. cbn -[fmap]. do 2 f_equal.
  rewrite <-list_fmap_compose. induction ts as [|[? ? ? ?] ts IH]; [done|]. by rewrite fmap_cons, IH.
Qed.
#[export] Instance in_digits : StateJson := {|
  encode_state b := pos_string (positives_flatten (state_fields b));
  decode_state s := positives_unflatten (string_pos s) ≫= fields_state |}.
#[export] Instance in_digits_laws : StateJsonLaws in_digits.
Proof.
  intros b. change (positives_unflatten (string_pos (pos_string (positives_flatten (state_fields b)))) ≫= fields_state = Some b).
  rewrite string_pos_string, positives_unflatten_flatten. apply fields_state_fields.
Qed.

(** ** A box, and parts of the platform that all do what they are asked *)

Definition well `{Outside} {A} (a : A) : Outcall A := λ e, (Ok a, e, 1%N).
Definition passes `{Outside} : HealthChecker := mkChecker _ "check" (λ _ e, (Ok tt, e, 1%N)).
Definition box_values : Yaml :=
  YMap [("management", YMap [("infisicalEnvironmentSlug", YString "management")]);
        ("publicTlsIssuer", YString "letsencrypt"); ("spec", YMap [("domain", YString "example.test")])].
#[export] Instance all_well `{Outside} : Parts := {|
  InstallArgoCD _ := well tt;
  FixArgoCDGitHubAuth _ _ _ := well tt;
  InstallEscrowCredentials _ := well tt;
  GenerateLocalSecrets _ := well tt;
  InstallPlatformCredentials _ := well tt;
  UpdateInfisicalSecretsWithCNPGCert _ := well tt;
  BootstrapInfisicalAPI _ := well tt;
  GetArgoCDPassword _ := well "secret";
  capi_Install _ _ _ := well tt;
  clusterclass_Deploy _ _ _ := well tt;
  kind_Exists _ := well false;
  kind_Create _ _ := well tt;
  kind_Delete _ := well tt;
  ValidatingWebhookHealth _ := passes;
  CRDRegisteredHealth _ := passes;
  OperatorPodsHealth _ _ := passes;
  BoundaryInventoryChecker _ := passes;
  BundleVersion := "v1";
  platform_file _ := Ok "values";
  artifacts_yaml := Ok [];
  parse_yaml _ := Some box_values;
  b64decode s := Some s;
  parse_rfc3339 _ := None;
  unsubstituted _ := None |}.
Definition a_provider `{Outside} (onPrem : bool) : Provider :=
  mkProvider _ "hetzner" [] "kind.yaml" (λ _, well tt) (λ _ _ _, well tt) (λ _, well tt) (λ _, well "/hub.kubeconfig")
    (λ _, well tt) [] (λ _, well tt) (λ _, well "/hub.kubeconfig") [] (Some onPrem) (Some 1%Z).
Definition a_box `{Outside} (onPrem : bool) (gitops : string) : Orchestrator :=
  mkOrchestrator _ (a_provider onPrem) "box" "" "" gitops "" false false false "management" "ha" GatingSequenced "" ""
    "https://github.com/org/repo".
Definition box `{Outside} := a_box false "/gitops".

(** ** A hub *)

(** The boundaries that are closed; whether the identity provider serves; what the hub
    says of its workers; whether it answers, and whether it will after it was asked. *)
Record Hub := mkHub { gates : list Z; idp : bool; nodes : string; up : bool; last_answer : bool }.
Definition says (s : string) : Output := mkOutput s "" s None 0.
Definition refuses (e : string) : Output := mkOutput "" e e (Some e) 0.
Definition gone : string := "/gone/kubeconfig".

Definition hub_exec (c : Cmd) (e : Hub) : Output * Hub :=
  if String.eqb (stdin c) gated_projects then (says "", mkHub (seqZ 1 6) (idp e) (nodes e) (up e) (last_answer e))
  else if decide (take 2 (drop 2 (args c)) = [gone; "--context"]) then (refuses "no such file", e)
  else if decide (args c !! 4 = Some "appproject") then
    match list_find (λ n, args c !! 5 = Some (boundaryProject n)) (seqZ 1 6) with
    | Some (_, n) => (says "", mkHub (filter (λ i, i ≠ n) (gates e)) (idp e) (nodes e) (up e) (last_answer e))
    | None => (refuses "not found", e)
    end
  else if decide (args c !! 4 = Some "nodes") then
    (if up e then says (nodes e) else refuses "unreachable",
     mkHub (gates e) (idp e) (nodes e) (up e && negb (last_answer e)) (last_answer e))
  else if decide (args c !! 4 = Some "deployment") then (says (if idp e then "1" else ""), e)
  else if decide (args c !! 3 = Some "patch") then (says "", mkHub (gates e) true (nodes e) (up e) (last_answer e))
  else (says "True", e).

(** Every file is there and says the same. *)
#[export] Instance hub_world : Outside := {|
  Env := Hub;
  exec := hub_exec;
  stat _ _ := true;
  readFile _ _ := Ok "values";
  writeFile _ _ e := (None, e);
  mkdirAll _ e := (None, e);
  getenv k _ := if String.eqb k "GITHUB_TOKEN" then "token" else "";
  tempDir _ := "/tmp";
  homeDir _ := "/home/op";
  absPath p _ := Ok p;
  executable _ := None;
  lookPath _ _ := Some "/usr/bin/git";
  ctxErr _ := None;
  sleep _ e := (None, e, 0%N);
  fault _ e := (None, e);
  torn s _ := str_take 3 s |}.

Definition a_hub (open : list Z) (serves : bool) (ns : string) : Hub :=
  mkHub (filter (λ i, i ∉ open) (seqZ 1 6)) serves ns true false.
Definition blank : BootstrapState := fresh_state box.
Definition on (e : Hub) (b : BootstrapState) : Machine := mkMachine (mkStable e None None 1000 [] []) [] b.

#[export] Instance hub_windows : Windows := λ e n, bool_decide (n ∈ gates e).

Lemma project_number n m :
  (1 ≤ n ≤ 6)%Z → (1 ≤ m ≤ 6)%Z → boundaryProject n = boundaryProject m → n = m.
Proof.
  intros Hn Hm. assert (Hi : ∀ k, (1 ≤ k ≤ 6)%Z → k ∈ [1; 2; 3; 4; 5; 6]%Z) by (intros; set_solver by lia).
  specialize (Hi n Hn) as Hn'. specialize (Hi m Hm) as Hm'.
  repeat (apply elem_of_cons in Hn' as [-> | Hn']); try by apply not_elem_of_nil in Hn'.
  all: repeat (apply elem_of_cons in Hm' as [-> | Hm']); try by apply not_elem_of_nil in Hm'.
  all: by vm_compute.
Qed.
Lemma hub_open kc n e :
  (1 ≤ n ≤ 6)%Z →
  exec (open_cmd kc n) e = (says "", mkHub (filter (λ i, i ≠ n) (gates e)) (idp e) (nodes e) (up e) (last_answer e)).
Proof.
  intros Hn. change (exec (open_cmd kc n) e) with (hub_exec (open_cmd kc n) e). unfold hub_exec.
  change (stdin (open_cmd kc n)) with "". rewrite (proj2 (String.eqb_neq _ _) gated_projects_nonempty).
  rewrite decide_False by done. rewrite decide_True by done.
  destruct (list_find _ _) as [[i m]|] eqn:E.
  - apply list_find_Some in E as (Hm%list_elem_of_lookup_2 & Hp & _). apply elem_of_seqZ in Hm.
    injection Hp as Hp. rewrite (project_number n m); [done|lia|lia|]. by unfold boundaryProject; f_equal.
  - apply list_find_None in E. rewrite Forall_forall in E. destruct (E n); [apply elem_of_seqZ; lia|done].
Qed.
#[export] Instance hub_window_laws : WindowLaws hub_windows.
Proof.
  split; try done.
  - intros kc e _ n Hn. apply bool_decide_eq_true_2.
    change (exec (apply_cmd kc gated_projects) e) with (hub_exec (apply_cmd kc gated_projects) e). unfold hub_exec.
    change (stdin (apply_cmd kc gated_projects)) with gated_projects. rewrite String.eqb_refl.
    apply elem_of_seqZ. lia.
  - intros kc n e Hn _. rewrite hub_open by done. apply bool_decide_eq_false_2. cbn. intros H%list_elem_of_filter. naive_solver.
  - intros kc n e i Hn Hi. rewrite hub_open by done. apply bool_decide_ext. cbn. rewrite list_elem_of_filter. naive_solver.
  - intros c e Hc. change (exec c e) with (hub_exec c e). unfold hub_exec. destruct (String.eqb_spec (stdin c) gated_projects) as [H|_]; [by destruct Hc; left|].
    case_decide; [done|]. rewrite decide_False by (intros Ha; apply Hc; by right). by repeat case_decide.
Qed.

(** ** The table of boundaries *)

Lemma validateBoundaryGraph_spec_witness :
  validateBoundaryGraph (boundaryContracts (boundary_steps box)) = Ok ()
  ∧ ∀ pre p post c k,
    boundaryContracts (boundary_steps box) = (pre ++ p :: post)%list → yields p k →
    (∀ c', c' ∈ post → ¬ yields c' k) → c ∈ boundaryContracts (boundary_steps box) → needs c k →
    (number p < number c)%Z.
Proof.
  assert (H : validateBoundaryGraph (boundaryContracts (boundary_steps box)) = Ok ()) by (vm_compute; reflexivity).
  split; [exact H|]. apply (validateBoundaryGraph_spec (boundaryContracts (boundary_steps box))). exact H.
Defined.

(** A run by its answer. *)
Lemma ran_to {S E A} (c : goM S E A) s r : (c s).1 = r → c s = (r, (c s).2).
Proof. intros <-. apply surjective_pairing. Qed.

(** ** Boundaries opened *)


Definition recorded (ps : list BootstrapPhase) (b : BootstrapState) : BootstrapState := set_CompletedPhases ps b.
(** Day-0 is complete, all boundaries are open, and the identity provider has stopped. *)
Definition broken : Machine :=
  on (a_hub [1; 2; 3; 4; 5; 6]%Z false "") (recorded [PhaseBoundary04; PhaseBoundary05; PhaseBoundary06] blank).
Lemma repair_leaves_closed_witness :
  (tenant_boundaries box "/hub" broken).1 = Ok tt
  ∧ window (env (now broken)) 5 = false
  ∧ window (env (now (tenant_boundaries box "/hub" broken).2)) 5 = true
  ∧ window (env (now (tenant_boundaries box "/hub" broken).2)) 6 = true
  ∧ [PhaseBoundary05; PhaseBoundary06] ⊆ CompletedPhases (bs (tenant_boundaries box "/hub" broken).2).
Proof.
  assert (H : (tenant_boundaries box "/hub" broken).1 = Ok tt) by (vm_compute; reflexivity).
  split; [exact H|]. split; [vm_compute; reflexivity|].
  apply (repair_leaves_closed box "/hub" broken "the identity provider has no ready replica"
    (zitadelServing "/hub" broken).2 (tenant_boundaries box "/hub" broken).2).
  - reflexivity.
  - intros p Hp. exact Hp.
  - apply ran_to. vm_compute. reflexivity.
  - apply ran_to, H.
Defined.

(** ** Waits *)


Lemma roles_wait_sound_witness :
  let m := on (a_hub [] true "") blank in
  ∃ m0 out m1, kubectl "/hub" ["get"; "hubenvironment"; "hub-environment"; "-o";
                           conditions_where "type" "DatabaseRolesProvisioned" "status"] m0 = (Ok out, m1)
    ∧ exit out = None ∧ TrimSpace (stdout out) = "True"
    ∧ missingDatabaseRoles "/hub" m1 = (Ok (Ok []), (awaitDatabaseRolesProvisioned "/hub" m).2).
Proof.
  intros m. apply (roles_wait_sound "/hub" m (awaitDatabaseRolesProvisioned "/hub" m).2).
  apply ran_to. vm_compute. reflexivity.
Defined.

(** ** The worker *)

Definition home := a_box true "/gitops".
Definition without_worker : Machine := on (a_hub [] true "") blank.
Definition rebuild_run : result string unit * Machine := joinHomeWorkers home "/hub" without_worker.
Lemma rebuild_is_grounded_witness :
  script_run without_worker rebuild_run.2
  ∧ ∃ st name m1, probeHubWorker "/hub" without_worker = (Ok (st, name), m1)
    ∧ (st = hubWorkerAbsent
       ∨ st = hubWorkerNotReady ∧ ∃ m2, awaitHubWorkerReady "/hub" onPremRecoveryWindow m1 = (Ok "", m2)).
Proof.
  assert (H : script_run without_worker rebuild_run.2).
  { exists (ran (now rebuild_run.2)). split; [reflexivity|]. eexists.
    split; [eapply (list_elem_of_lookup_2 _ 1); vm_compute; reflexivity|reflexivity]. }
  split; [exact H|].
  apply (rebuild_is_grounded home "/hub" without_worker rebuild_run.1 rebuild_run.2); [|exact H].
  apply surjective_pairing.
Defined.

(** A worker that reboots, and a hub that answers once and then no more. *)
Definition rebooting : Machine :=
  on (mkHub [] true "node1=False" true true) blank.
Lemma unreachable_hub_rebuilt_witness : script_run rebooting (joinHomeWorkers home "/hub" rebooting).2.
Proof.
  apply (unreachable_hub_rebuilt home "/hub" rebooting "node1" (probeHubWorker "/hub" rebooting).2 (λ e, up e = false)).
  - reflexivity.
  - discriminate.
  - apply ran_to. vm_compute. reflexivity.
  - vm_compute. reflexivity.
  - split.
    + intros c e He. change (exec c e) with (hub_exec c e). unfold hub_exec.
      repeat first [ case_decide | destruct (String.eqb _ _) | destruct (list_find _ _) as [[? ?]|] ]; cbn; rewrite ?He; done.
    + intros d e He. exact He.
    + intros e He. change (exec (probe_cmd "/hub") e) with (hub_exec (probe_cmd "/hub") e). unfold hub_exec.
      change (stdin (probe_cmd "/hub")) with "". rewrite (proj2 (String.eqb_neq _ _) gated_projects_nonempty).
      rewrite decide_False by done. rewrite decide_False by done. rewrite decide_True by done. cbn. by rewrite He.
  - reflexivity.
Defined.

Lemma seed_needs_repository_witness :
  let m := on (a_hub [] true "") blank in
  let o := a_box false "" in
  (∃ e, (applySeedApplication o "/hub" m).1 = Err e) ∧ (∃ e, (deployBoundary o "/hub" 1 m).1 = Err e)
  ∧ (∃ e, (installArgoCDAndSeed o "/hub" m).1 = Err e).
Proof. intros m o. apply (seed_needs_repository o "/hub" 1 m). reflexivity. Defined.

(** ** Runs *)

(** A first run on an empty hub. *)
Definition first_run : Machine := (Run box (on (a_hub [] true "") blank)).2.
Lemma first_run_reachable : reachable (now first_run).
Proof.
  eapply (reach_run (now (on (a_hub [] true "") blank)) (now first_run) box blank); [apply reach_start|left].
Qed.

(** A world in which every command succeeds and says True. *)
Definition kind_world : Outside := {|
  Env := unit;
  exec _ e := (says "True", e);
  stat _ _ := true;
  readFile _ _ := Ok "values";
  writeFile _ _ e := (None, e);
  mkdirAll _ e := (None, e);
  getenv k _ := if String.eqb k "GITHUB_TOKEN" then "token" else "";
  tempDir _ := "/tmp";
  homeDir _ := "/home/op";
  absPath p _ := Ok p;
  executable _ := None;
  lookPath _ _ := Some "/usr/bin/git";
  ctxErr _ := None;
  sleep _ e := (None, e, 0%N);
  fault _ e := (None, e);
  torn s _ := str_take 3 s |}.
Definition in_kind {A} (c : goM (@Machine kind_world) string A) : Prop := goes c.
Lemma kind_goes {A} (c : goM (@Machine kind_world) string A) : (∀ m, ∃ a, (c m).1 = Ok a) → goes c.
Proof. intros Hc m. destruct (Hc m) as [a Ha]. exists a, (c m).2. by apply ran_to. Qed.
Ltac compute_goes :=
  apply kind_goes; intros [[[] d tm t ev r] past b]; eexists; vm_compute; reflexivity.
(** The consumers are none, so the first tick, within the deadline, finds them all healthy. *)
Lemma kind_consumers kc : in_kind (verify_consumers box kc).
Proof.
  intros [[[] d tm t ev r] past b]. unfold verify_consumers.
  change (adr045Consumers box) with (@Ok string (list string) []). cbv beta iota.
  unfold prefixed, waitForArgoCDAppsHealthy. rewrite bind_run. unfold attempt. rewrite bind_run.
  change 180%nat with (S 179). cbn [Now gets wait_apps]. rewrite bind_run. cbn.
  rewrite bind_run. cbn. rewrite (proj2 (Z.leb_gt _ _)) by (unfold minute, second; lia). by eexists _, _.
Qed.
Lemma kind_boundaries kc n : (1 ≤ n ≤ 6)%Z → in_kind (deployBoundaryN box kc n).
Proof.
  intros Hn. assert (Hi : n ∈ [1; 2; 3; 4; 5; 6]%Z) by (set_solver by lia).
  repeat (apply elem_of_cons in Hi as [-> | Hi]; [compute_goes|]). by apply not_elem_of_nil in Hi.
Qed.
Lemma kind_kubeconfig : in_kind (kubeconfigPaths box).
Proof.
  apply kind_goes. intros m. unfold kubeconfigPaths. rewrite bind_run. cbn [state gets].
  destruct (String.eqb (BootstrapKubeconfig (bs m)) ""); by eexists.
Qed.
Lemma box_obliging : @obliging kind_world _ box.
Proof.
  split; [done|compute_goes|compute_goes|apply kind_kubeconfig|intros..].
  - compute_goes.
  - compute_goes.
  - compute_goes.
  - compute_goes.
  - compute_goes.
  - compute_goes.
  - compute_goes.
  - compute_goes.
  - compute_goes.
  - by apply kind_boundaries.
  - compute_goes.
  - compute_goes.
  - compute_goes.
  - compute_goes.
  - compute_goes.
  - apply kind_consumers.
  - compute_goes.
Qed.
(** A run on the box that is killed on the way, and what it leaves. *)
Definition kind_start : @Stable kind_world := @mkStable kind_world tt None None 0 [] [].
Definition kind_run : @Machine kind_world := (Run box (mkMachine kind_start [] (fresh_state box))).2.
Definition killed : @Stable kind_world := default kind_start (past kind_run !! 100%nat).
Lemma cut_reachable `{Parts, StateJson} (s s' d : Stable) o b k :
  reachable s → let l := past (Run o (mkMachine s [] b)).2 in
  bool_decide (is_Some (l !! k)) = true → default d (l !! k) = s' → reachable s'.
Proof.
  intros Hs l [x Hx]%bool_decide_eq_true Hd. rewrite Hx in Hd. cbn in Hd. subst x.
  eapply (reach_run s s' o b Hs). right. by eapply list_elem_of_lookup_2.
Qed.
Lemma killed_reachable : reachable killed.
Proof.
  apply (cut_reachable kind_start killed kind_start box (fresh_state box) 100); [apply reach_start| |exact eq_refl].
  vm_compute. reflexivity.
Qed.
Definition recorded_provider (s : @Stable kind_world) : option string :=
  data ← disk s; b ← decode_state data; Some (sProvider b).
Lemma recorded_provider_Some s p :
  recorded_provider s = Some p →
  disk s ≠ None ∧ ∀ data b, disk s = Some data → decode_state data = Some b → sProvider b = p.
Proof.
  unfold recorded_provider. destruct (disk s) as [data|]; [|done]. cbn. intros (b & Hb & [= <-])%bind_Some.
  split; [done|]. by intros ? b' [= <-] [= <-]%(eq_trans (eq_sym Hb)).
Qed.

(** A record made on a host that is gone. *)
Definition left_behind : BootstrapState :=
  set_BootstrapKubeconfig gone (recorded [PhasePreFlight; PhaseBootstrapCreate; PhaseDayZero] blank).
Definition other_host : Stable := mkStable (a_hub [] true "") (Some (encode_state left_behind)) None 1000 [] [].
Lemma fresh_runner_stops_witness :
  ∃ err m, Run box (mkMachine other_host [] blank) = (Err err, m)
    ∧ disk (now m) = Some (encode_state left_behind) ∧ ∀ p c, Began p c ∈ events (now m) → Began p c ∈ events other_host.
Proof.
  apply (fresh_runner_stops box other_host blank (encode_state left_behind) left_behind).
  - reflexivity.
  - apply decode_encode_state.
  - reflexivity.
  - right. right. reflexivity.
  - apply (bool_decide_unpack _). vm_compute. exact I.
  - apply (bool_decide_unpack _). vm_compute. exact I.
  - apply (bool_decide_unpack _). vm_compute. exact I.
  - discriminate.
  - intros ctx e. change (exec ?c e) with (hub_exec c e). unfold hub_exec. cbn [stdin].
    rewrite (proj2 (String.eqb_neq _ _) gated_projects_nonempty). rewrite decide_True by done. discriminate.
Defined.
