(* ===== verification/Teardown.v ===== *)
(** * Teardown: the removal of a hub and of what it left with the provider.

    Models internal/kakt-cli/teardown: inventory.go, dns_reclaim.go and orchestrator.go.
    [Site] is everything the command talks to: kubectl, kind and docker, the provider's
    API, the DNS API, the files and the environment, with answers of their own choosing.
    [World] adds the clock, the requests made so far with the listings they followed
    from, and the two fields of the orchestrator that a run writes. A deadline of a
    context is a call that fails; what is only printed is left out, except the inventory
    the operator is shown. *)

From S2P Require Import Prelude.
From S2P Require Import Bootstrap.
From S2P Require Import BootstrapCluster.

Local Open Scope string_scope.

Definition trim_while (f : Ascii.ascii → bool) : string → string :=
  fix go s := match s with
              | String c s' => if f c then go s' else s
              | EmptyString => EmptyString
              end.
(** strings.Trim(s, cutset) *)
Definition trim_set (f : Ascii.ascii → bool) (s : string) : string :=
  String.rev (trim_while f (String.rev (trim_while f s))).
Definition is_bracket (c : Ascii.ascii) : bool := Ascii.eqb c "[" || Ascii.eqb c "]".
Definition is_quote (c : Ascii.ascii) : bool := Ascii.eqb c (Ascii.ascii_of_nat 34).
(** %-ns *)
Fixpoint pad (n : nat) (s : string) : string :=
  match n, s with
  | O, _ => s
  | S n, String c s' => String c (pad n s')
  | S n, EmptyString => String " " (pad n EmptyString)
  end.
(** filepath.Join with a root that may be the working directory. *)
Definition under (root : string) (parts : list string) : string :=
  path_join (if String.eqb root "." then parts else root :: parts).

(** ** inventory.go *)

Definition ownershipLabelPrefix : string := "caph-cluster-".
Definition lifecycleOwned : string := "owned".
Definition lifecycleShared : string := "shared".

Definition Labels := gmap string string.
Record Resource := mkResource { rKind : string; rName : string; rID : Z; rLabels : Labels }.
Record Attribution := mkAttribution {
  aResource : Resource;
  aCluster : string;
  aLifecycle : string;
  aEligible : bool;
  aReason : string }.

(** The kinds of object the provider has, and one object of it. *)
Inductive Kind := Server | LoadBalancer | Volume | PlacementGroup | Firewall | FloatingIP | PrimaryIP | Network.
#[export] Instance Kind_eq_dec : EqDecision Kind.
Proof. solve_decision. Defined.
Record Object := mkObject {
  oID : Z;
  oName : string;
  oLabels : Labels;
  oIPv4 : option string;     (* of a load balancer *)
  oServer : option Z }.      (* the server a volume is attached to *)

Definition targets_set (targets : list string) : gset string :=
  list_to_set (filter (λ t, t ≠ "") (TrimSpace <$> targets)).
(** The range over the labels, in the order [ls]: the clusters named up to the first that
    is a target, and that one with its label. *)
Fixpoint scan_labels (want : gset string) (ls : list (string * string)) (labelled : list string) :
    list string * option (string * string * string) :=
  match ls with
  | [] => (labelled, None)
  | (key, value) :: ls =>
      if negb (HasPrefix key ownershipLabelPrefix) then scan_labels want ls labelled
      else
        let cluster := TrimPrefix key ownershipLabelPrefix in
        let labelled := (labelled ++ [cluster])%list in
        if decide (cluster ∈ want) then (labelled, Some (cluster, key, value))
        else scan_labels want ls labelled
  end.
Definition attribute (want : gset string) (ls : list (string * string)) (r : Resource) : Attribution :=
  match scan_labels want ls [] with
  | (_, Some (cluster, key, value)) =>
      if String.eqb value lifecycleOwned then mkAttribution r cluster value true ""
      else if String.eqb value lifecycleShared
      then mkAttribution r cluster value false ("shared with other clusters (" +:+ key +:+ "=" +:+ value +:+ ")")
      else mkAttribution r cluster value false
             ("unexpected ownership value " +:+ quoted value +:+ " on " +:+ key +:+ "; only "
              +:+ quoted lifecycleOwned +:+ " authorizes deletion")
  | (labelled, None) =>
      mkAttribution r "" "" false
        (match merge_sort String.le labelled with
         | [] => "no CAPH ownership label: the provider cannot attribute it to a cluster"
         | sorted => "owned by " +:+ Join sorted ", " +:+ ", which this operation does not target"
         end)
  end.

Record Inventory := mkInventory {
  Management : string;
  Workload : list string;
  Items : list Attribution;
  Queried : bool }.
Definition Eligible (i : Inventory) : list Attribution := filter (λ a, aEligible a = true) (Items i).
Definition Excluded (i : Inventory) : list Attribution := filter (λ a, aEligible a = false) (Items i).

Inductive State := StateReachable | StateInfrastructureOnly | StateNoOwnedResources | StateUncertain.
#[export] Instance State_eq_dec : EqDecision State.
Proof. solve_decision. Defined.
Definition State_text (s : State) : string :=
  match s with
  | StateReachable => "infrastructure present, Kubernetes reachable"
  | StateInfrastructureOnly => "infrastructure present, Kubernetes unavailable"
  | StateNoOwnedResources => "no owned resources found"
  | StateUncertain => "infrastructure state unknown"
  end.
Definition Classify (inv : Inventory) (kubernetesReachable : bool) : State :=
  if negb (Queried inv) then StateUncertain
  else match Eligible inv with
       | [] => StateNoOwnedResources
       | _ => if kubernetesReachable then StateReachable else StateInfrastructureOnly
       end.

Definition kind_le (x y : Attribution) : Prop :=
  let kx := rKind (aResource x) in
  let ky := rKind (aResource y) in
  if String.eqb kx ky then String.le (rName (aResource x)) (rName (aResource y)) else String.le kx ky.
#[export] Instance kind_le_dec x y : Decision (kind_le x y).
Proof. unfold kind_le. destruct (String.eqb _ _); apply _. Defined.
Definition byKind (l : list Attribution) : list Attribution := merge_sort kind_le l.

Definition render_item (a : Attribution) (last : string) : string :=
  "  " +:+ pad 16 (rKind (aResource a)) +:+ " " +:+ pad 40 (rName (aResource a)) +:+ " id="
  +:+ pad 12 (pretty (rID (aResource a))) +:+ " " +:+ last.
Definition Render (i : Inventory) (state : State) (outstanding : list string) : list string :=
  let eligible := Eligible i in
  let excluded := Excluded i in
  ([""; "Target"; "  management cluster  " +:+ Management i;
    match Workload i with
    | [] => "  workload clusters   none in scope"
    | w => "  workload clusters   " +:+ Join w ", "
    end;
    "  state               " +:+ State_text state;
    ""; "To delete (" +:+ pretty (Z.of_nat (length eligible)) +:+ ")"]
   ++ match eligible with
      | [] => ["  nothing: no resource is positively owned by the clusters above"]
      | _ => (λ a, render_item a (ownershipLabelPrefix +:+ aCluster a +:+ "=" +:+ aLifecycle a)) <$> byKind eligible
      end
   ++ match excluded with
      | [] => []
      | _ => "" :: ("Excluded (" +:+ pretty (Z.of_nat (length excluded)) +:+ ") -- not deleted")
             :: ((λ a, render_item a (aReason a)) <$> byKind excluded)
      end
   ++ match outstanding with
      | [] => []
      | _ => "" :: ("Will NOT be done (" +:+ pretty (Z.of_nat (length outstanding)) +:+ ")")
             :: ((λ item, "  - " +:+ item) <$> outstanding)
      end)%list.

(** ** dns_reclaim.go: what a zone says *)

Record hetznerZone := mkZone { zID : Z; zName : string }.
Record hetznerRRSet := mkRRSet { rrName : string; rrType : string; rrRecords : list string }.
Record dnsOwnership := mkOwnership { token : string; ownerID : string; zoneHost : string; txtPrefix : string }.
Record DNSOverride := mkOverride { dnsOwner : string; dnsZone : string; dnsToken : string }.

Definition better_zone (domain : string) (best z : hetznerZone) : hetznerZone :=
  if negb (String.eqb domain (zName z)) && negb (HasSuffix domain ("." +:+ zName z)) then best
  else if (String.length (zName best) <? String.length (zName z))%nat then z else best.
Definition matchZone (zones : list hetznerZone) (domain : string) : hetznerZone :=
  foldl (better_zone domain) (mkZone 0 "") zones.

Fixpoint owner_field (fields : list string) : string :=
  match fields with
  | [] => ""
  | f :: fields =>
      let f := TrimSpace f in
      if HasPrefix f "external-dns/owner=" then TrimPrefix f "external-dns/owner=" else owner_field fields
  end.
Definition txtOwner (value : string) : string := owner_field (Split (trim_set is_quote value) ",").
(** The hostname an rrset is, or speaks for. *)
Definition rr_host (own : dnsOwnership) (name : string) : string :=
  TrimPrefix (TrimPrefix name (txtPrefix own)) "a-".
Definition claims (own : dnsOwnership) (rr : hetznerRRSet) : bool :=
  String.eqb (rrType rr) "TXT" && existsb (λ v, String.eqb (txtOwner v) (ownerID own)) (rrRecords rr).
Definition ownedRecordNames (rrsets : list hetznerRRSet) (own : dnsOwnership) : gset string :=
  if String.eqb (ownerID own) "" then ∅
  else list_to_set ((λ rr, rr_host own (rrName rr)) <$> filter (λ rr, claims own rr = true) rrsets).

(** The arguments of external-dns that say who it is. *)
Definition read_arg (own : dnsOwnership) (raw : string) : dnsOwnership :=
  let arg := trim_set is_quote (TrimSpace raw) in
  if HasPrefix arg "--txt-owner-id="
  then mkOwnership (token own) (TrimPrefix arg "--txt-owner-id=") (zoneHost own) (txtPrefix own)
  else if HasPrefix arg "--domain-filter="
  then mkOwnership (token own) (ownerID own) (TrimPrefix arg "--domain-filter=") (txtPrefix own)
  else if HasPrefix arg "--txt-prefix="
  then mkOwnership (token own) (ownerID own) (zoneHost own) (TrimPrefix arg "--txt-prefix=")
  else own.
Definition read_args (out : string) : dnsOwnership :=
  foldl read_arg (mkOwnership "" "" "" "extdns-") (Split (trim_set is_bracket out) ",").

(** ** The world *)

Class Site := {
  St : Type;
  (* a command: its output, or the error it failed with *)
  exec : list string → St → result string string * St * N;
  listing : Kind → St → result string (list Object) * St * N;
  delete_object : Kind → Z → St → option string * St * N;
  detach_volume : Z → St → St * N;
  (* method, path and token; status and body, or the error of the transport *)
  http : string → string → string → St → result string (Z * string) * St * N;
  os_remove : string → St → St;
  overslept : St → N;
  getenv : string → St → string;
  parse_zones : string → option (list hetznerZone);
  parse_rrsets : string → option (list hetznerRRSet);
  b64decode : string → option string;
  (* a range over a map, by its number in the run: every one may be in another order *)
  range_labels : nat → Labels → list (string * string) }.
Class SiteLaws (S : Site) :=
  range_labels_perm n m : range_labels n m ≡ₚ map_to_list m.

Inductive Request :=
| Command (args : list string) (out : result string string)
| Listed (k : Kind) (l : list Object)
| Deleted (k : Kind) (id : Z) (err : option string)
| Detached (id : Z)
| Zoned (zone : Z) (l : list hetznerRRSet)
| Released (zone : Z) (name type : string) (err : option string)
| Removed (path : string)
| Displayed (i : Inventory) (s : State).

(** The flags, and what the caller resolved. *)
Record Orchestrator := mkOrchestrator {
  ClusterName : string;
  DNS : DNSOverride;
  DNSOnly : bool;
  InfrastructureOnly : bool;
  Kubeconfig : string;
  ProviderToken : string;
  GitopsDir : string;
  Spokes : list string }.

Section teardown.
Context {S : Site}.

Record World := mkWorld {
  site : St;
  clk : Z;
  log : list Request;
  Outstanding : list string;
  ReleasedDNSRecords : Z;
  ranges : nat }.
Abbreviation M A := (goM World string A).

Definition does (r : list Request) (s : St) (t : N) (w : World) : World :=
  mkWorld s (clk w + Z.of_N t)%Z (log w ++ r)%list (Outstanding w) (ReleasedDNSRecords w) (ranges w).
(** exec.CommandContext(...): Output(), or Run() where only the error is looked at. *)
Definition command (args : list string) : M (result string string) := λ w,
  let '(r, s, t) := exec args (site w) in (Ok r, does [Command args r] s t w).
Definition All (k : Kind) : M (result string (list Object)) := λ w,
  let '(r, s, t) := listing k (site w) in
  (Ok r, does (match r with Ok l => [Listed k l] | Err _ => [] end) s t w).
Definition Delete_ (k : Kind) (id : Z) : M (option string) := λ w,
  let '(r, s, t) := delete_object k id (site w) in (Ok r, does [Deleted k id r] s t w).
Definition Detach (id : Z) : M unit := λ w,
  let '(s, t) := detach_volume id (site w) in (Ok tt, does [Detached id] s t w).
Definition Remove (path : string) : M unit := λ w,
  (Ok tt, does [Removed path] (os_remove path (site w)) 0 w).
Definition display (i : Inventory) (s : State) : M unit := modify (λ w, does [Displayed i s] (site w) 0 w).
Definition Sleep (d : Z) : M unit := modify (λ w, does [] (site w) (Z.to_N d + overslept (site w)) w).
Definition Now : M Z := gets clk.
Definition env (k : string) : M string := gets (λ w, getenv k (site w)).
(** The order of one more range over a map of labels. *)
Definition range (m : Labels) : M (list (string * string)) := λ w,
  (Ok (range_labels (ranges w) m),
   mkWorld (site w) (clk w) (log w) (Outstanding w) (ReleasedDNSRecords w) (ranges w + 1)).
Definition outstanding_add (l : list string) : M unit :=
  modify (λ w, mkWorld (site w) (clk w) (log w) (Outstanding w ++ l)%list (ReleasedDNSRecords w) (ranges w)).
Definition set_released (n : Z) : M unit :=
  modify (λ w, mkWorld (site w) (clk w) (log w) (Outstanding w) n (ranges w)).

Definition Attribute (resources : list Resource) (targets : list string) : M (list Attribution) :=
  foldM (λ out r, ls ← range (rLabels r); mret (out ++ [attribute (targets_set targets) ls r])%list) resources [].

(** The kinds discoverInventory enumerates, as it names them. *)
Definition inventory_kinds : list (Kind * string * string) :=
  [(Server, "server", "servers"); (LoadBalancer, "load-balancer", "load balancers"); (Volume, "volume", "volumes");
   (PlacementGroup, "placement-group", "placement groups"); (Firewall, "firewall", "firewalls");
   (FloatingIP, "floating-ip", "floating IPs"); (PrimaryIP, "primary-ip", "primary IPs")].
Definition has_ownership_label (m : Labels) : bool :=
  existsb (λ kv, HasPrefix kv.1 ownershipLabelPrefix) (map_to_list m).
Definition list_kind (acc : list Resource) (k : Kind * string * string) : M (list Resource) :=
  let '(k, name, plural) := k in
  r ← All k;
  match r with
  | Err e => throw ("list " +:+ plural +:+ ": " +:+ e)
  | Ok l => mret (acc ++ ((λ x, mkResource name (oName x) (oID x) (oLabels x)) <$> l))%list
  end.
Definition discoverInventory (targets : list string) : M Inventory :=
  resources ← foldM list_kind inventory_kinds [];
  items ← Attribute (filter (λ r, has_ownership_label (rLabels r) = true) resources) targets;
  mret (mkInventory "" [] items true).

Context (o : Orchestrator).

(** ** orchestrator.go: what the cluster is asked *)

Definition recordOutstanding (step : string) (cause : option string) : M unit :=
  outstanding_add [match cause with None => step | Some e => step +:+ ": " +:+ e end].
Definition result_ : M unit :=
  out ← gets Outstanding;
  match out with
  | [] => mret tt
  | _ => throw (pretty (Z.of_nat (length out)) +:+ " cleanup operation(s) could not be performed: " +:+ Join out "; ")
  end.

Definition resolveKubectlBaseArgs : option (list string) :=
  if String.eqb (TrimSpace (Kubeconfig o)) "" then None
  else if HasPrefix (Kubeconfig o) "--context="
  then Some ["--context"; TrimPrefix (Kubeconfig o) "--context="]
  else Some ["--kubeconfig"; Kubeconfig o].
Definition kubectl (baseArgs args : list string) : M (result string string) :=
  command ("kubectl" :: baseArgs ++ args)%list.

Definition clusters_query : list string :=
  ["get"; "clusters.cluster.x-k8s.io"; "-A"; "-o";
   "jsonpath={range .items[*]}{.metadata.name}{" +:+ quoted "\n" +:+ "}{end}"].
Definition spokeClusterNames : M (list string) :=
  match resolveKubectlBaseArgs with
  | None => mret []
  | Some baseArgs =>
      out ← kubectl baseArgs clusters_query;
      mret (match out with
            | Err _ => []
            | Ok out => filter (λ n, n ≠ "" ∧ n ≠ ClusterName o) (TrimSpace <$> lines out)
            end)
  end.

Definition services_query : list string :=
  ["get"; "svc"; "--all-namespaces"; "-o";
   "jsonpath={range .items[?(@.spec.type==" +:+ quoted "LoadBalancer" +:+ ")]}{.metadata.namespace}{"
   +:+ quoted " " +:+ "}{.metadata.name}{" +:+ quoted " " +:+ "}{.status.loadBalancer.ingress[*].ip}{"
   +:+ quoted "\n" +:+ "}{end}"].
(** The Services printed, and the addresses after their names. *)
Definition lb_services (out : string) : list (string * string * list string) :=
  omap (λ line, match Fields line with
                | namespace :: name :: ips => Some (namespace, name, ips)
                | _ => None
                end) (lines (TrimSpace out)).
Definition still_there (baseArgs : list string) (svc : string * string * list string) : M bool :=
  let '(namespace, name, _) := svc in
  out ← kubectl baseArgs ["get"; "svc"; name; "-n"; namespace; "--ignore-not-found"; "-o"; "jsonpath={.metadata.name}"];
  mret (match out with Ok out => negb (String.eqb (TrimSpace out) "") | Err _ => false end).
Definition remaining (baseArgs : list string) (services : list (string * string * list string)) : M nat :=
  foldM (λ n svc, b ← still_there baseArgs svc; mret (if (b : bool) then n + 1 else n)%nat) services 0%nat.
Fixpoint await_drained (fuel : nat) (baseArgs : list string) (services : list (string * string * list string))
    (deadline : Z) : M unit :=
  match fuel with
  | O => mret tt
  | Datatypes.S fuel =>
      t ← Now;
      if (deadline <=? t)%Z then mret tt
      else
        n ← remaining baseArgs services;
        if bool_decide (n = 0%nat) then mret tt
        else Sleep (5 * second) ;; await_drained fuel baseArgs services deadline
  end.
Definition drainLoadBalancerServices : M (list string) :=
  match resolveKubectlBaseArgs with
  | None => mret []
  | Some baseArgs =>
      out ← kubectl baseArgs services_query;
      match out with
      | Err _ => mret []
      | Ok out =>
          let services := lb_services out in
          match services with
          | [] => mret []
          | _ =>
              forM services (λ '(namespace, name, _),
                _ ← kubectl baseArgs ["delete"; "svc"; name; "-n"; namespace; "--wait=false"; "--ignore-not-found"];
                mret tt) ;;
              t ← Now;
              await_drained 19 baseArgs services (t + 90 * second)%Z ;;
              mret (services ≫= snd)
          end
      end
  end.

Definition finalizer_namespaces : list string := ["platform-capi"; "hub-platform-capi"; "platform-capi"; "default"].
Definition finalizer_types : list string :=
  ["cluster"; "hetznercluster"; "kubeadmcontrolplane"; "machinedeployment"; "machine"; "hcloudmachine"].
(** Whether the objects of this name are taken for this cluster's. *)
Definition strips (rType name : string) : bool :=
  Contains name (ClusterName o) || (String.eqb rType "cluster" && String.eqb name (ClusterName o)).
Definition strip_one (baseArgs : list string) (rType ns name : string) : M unit :=
  if strips rType name then
    _ ← kubectl baseArgs ["patch"; rType; name; "-n"; ns; "--type=merge"; "-p";
                          "{" +:+ quoted "metadata" +:+ ":{" +:+ quoted "finalizers" +:+ ":[]}}"];
    _ ← kubectl baseArgs ["delete"; rType; name; "-n"; ns; "--wait=false"; "--grace-period=0"; "--force"; "--ignore-not-found"];
    mret tt
  else mret tt.
Definition strip_type (baseArgs : list string) (ns rType : string) : M unit :=
  out ← kubectl baseArgs ["get"; rType; "-n"; ns; "-o"; "jsonpath={.items[*].metadata.name}"];
  match out with
  | Err _ => mret tt
  | Ok out => forM (Fields out) (strip_one baseArgs rType ns)
  end.
Definition stripKubernetesFinalizers : M unit :=
  match resolveKubectlBaseArgs with
  | None => mret tt
  | Some baseArgs => forM finalizer_namespaces (λ ns, forM finalizer_types (strip_type baseArgs ns))
  end.

(** ** What is deleted at the provider *)

Definition ownedByTarget (owned : list string) (labels : Labels) : M bool :=
  got ← Attribute [mkResource "" "" 0 labels] owned;
  mret (match got with [a] => aEligible a | _ => false end).

(** The objects of a kind that are owned, or that [also] picks, each with [act]. A listing
    that fails is passed over. *)
Definition delete_matching (k : Kind) (owned : list string) (also : Object → bool) (act : Object → M unit) : M unit :=
  r ← All k;
  match r with
  | Err _ => mret tt
  | Ok l =>
      forM l (λ x, b ← ownedByTarget owned (oLabels x);
                   if (b : bool) || also x then act x else mret tt)
  end.
Definition delete_plain (k : Kind) (x : Object) : M unit := _ ← Delete_ k (oID x); mret tt.
Definition delete_servers (owned : list string) : M (gset Z) :=
  r ← All Server;
  match r with
  | Err _ => mret ∅
  | Ok l =>
      foldM (λ ids x, b ← ownedByTarget owned (oLabels x);
                      if (b : bool) then _ ← Delete_ Server (oID x); mret ({[oID x]} ∪ ids) else mret ids) l ∅
  end.
Definition matchesDrainedIP (orphanIPs : gset string) (x : Object) : bool :=
  match oIPv4 x with Some ip => bool_decide (ip ∈ orphanIPs) | None => false end.
Definition orphan_ips (ips : list string) : gset string := list_to_set (filter (λ ip, ip ≠ "") (TrimSpace <$> ips)).
Definition attached_to (ids : gset Z) (x : Object) : bool :=
  match oServer x with Some s => bool_decide (s ∈ ids) | None => false end.
Definition delete_volume (x : Object) : M unit :=
  (match oServer x with Some _ => Detach (oID x) | None => mret tt end) ;; delete_plain Volume x.
Definition delete_network (x : Object) : M unit :=
  r ← Delete_ Network (oID x);
  match r with
  | None => mret tt
  | Some _ => Sleep (2 * second) ;; delete_plain Network x
  end.

(** The eight kinds, in the order of the code. *)
Definition delete_all (owned : list string) (ccmLoadBalancerIPs : list string) : M unit :=
  ids ← delete_servers owned;
  delete_matching LoadBalancer owned (matchesDrainedIP (orphan_ips ccmLoadBalancerIPs)) (delete_plain LoadBalancer) ;;
  delete_matching Volume owned (attached_to ids) delete_volume ;;
  delete_matching PlacementGroup owned (λ _, false) (delete_plain PlacementGroup) ;;
  delete_matching Firewall owned (λ _, false) (delete_plain Firewall) ;;
  delete_matching FloatingIP owned (λ _, false) (delete_plain FloatingIP) ;;
  delete_matching PrimaryIP owned (λ _, false) (delete_plain PrimaryIP) ;;
  delete_matching Network owned (λ _, false) delete_network.
Definition deleteHetznerResources (ccmLoadBalancerIPs spokes : list string) : M unit :=
  if String.eqb (TrimSpace (ProviderToken o)) "" then
    throw "no provider credential, so no server can be deleted: the box's servers are still running."
  else
    r ← attempt (discoverInventory (ClusterName o :: spokes));
    match r with
    | Err e => throw ("could not read the provider inventory, so nothing can be established about this box: " +:+ e)
    | Ok inv =>
        let inv := mkInventory (ClusterName o) spokes (Items inv) (Queried inv) in
        let state := Classify inv (negb (InfrastructureOnly o)) in
        display inv state ;;
        if decide (state = StateNoOwnedResources) then mret tt
        else delete_all (ClusterName o :: spokes) ccmLoadBalancerIPs
    end.

(** ** dns_reclaim.go *)

Definition dns_external (baseArgs : list string) : M string :=
  out ← kubectl baseArgs ["get"; "deploy"; "-A"; "-l"; "app.kubernetes.io/name=external-dns";
                          "-o"; "jsonpath={.items[0].metadata.namespace}"];
  let namespace := match out with Ok out => TrimSpace out | Err _ => "" end in
  if negb (String.eqb namespace "") then mret namespace
  else
    foldM (λ found candidate,
             if negb (String.eqb found "") then mret found
             else
               r ← kubectl baseArgs ["get"; "deploy"; "external-dns"; "-n"; candidate; "-o"; "name"];
               mret (match r with Ok _ => candidate | Err _ => "" end))
      ["platform-edge"; "platform-ops"] "".
Definition readDNSOwnership : M (option dnsOwnership) :=
  match resolveKubectlBaseArgs with
  | None => mret None
  | Some baseArgs =>
      namespace ← dns_external baseArgs;
      if String.eqb namespace "" then mret None
      else
        out ← kubectl baseArgs ["get"; "deploy"; "external-dns"; "-n"; namespace;
                                "-o"; "jsonpath={.spec.template.spec.containers[0].args}"];
        match out with
        | Err _ => mret None
        | Ok out =>
            let own := read_args out in
            if String.eqb (ownerID own) "" || String.eqb (zoneHost own) "" then mret None
            else
              sec ← kubectl baseArgs ["get"; "secret"; "hetzner-dns"; "-n"; namespace; "-o"; "jsonpath={.data.api-key}"];
              mret (match sec with
                    | Err _ => None
                    | Ok sec =>
                        match b64decode (TrimSpace sec) with
                        | Some t => if String.eqb t "" then None
                                    else Some (mkOwnership t (ownerID own) (zoneHost own) (txtPrefix own))
                        | None => None
                        end
                    end)
        end
  end.
Definition resolveDNSOwnership : M (option dnsOwnership) :=
  if negb (String.eqb (dnsOwner (DNS o)) "") && negb (String.eqb (dnsZone (DNS o)) "") then
    first ← env "HCLOUD_DNS_TOKEN";
    second ← env "HETZNER_DNS_API_TOKEN";
    let t := if negb (String.eqb (dnsToken (DNS o)) "") then dnsToken (DNS o)
             else if negb (String.eqb (TrimSpace first) "") then TrimSpace first else TrimSpace second in
    mret (if String.eqb t "" then None
          else Some (mkOwnership t (dnsOwner (DNS o)) (dnsZone (DNS o)) "extdns-"))
  else readDNSOwnership.

(** One exchange with the API; the reply's body, if its status is a success. *)
Definition do_ (own : dnsOwnership) (method path : string) : M (result string string) := λ w,
  let '(r, s, t) := http method path (token own) (site w) in
  (Ok (match r with
       | Err e => Err e
       | Ok (status, body) =>
           if (status <? 200)%Z || (300 <=? status)%Z
           then Err (method +:+ " " +:+ path +:+ ": HTTP " +:+ pretty status +:+ ": " +:+ TrimSpace body)
           else Ok body
       end), does [] s t w).
Definition zoneID (own : dnsOwnership) : M (option (Z * string)) :=
  r ← do_ own "GET" "/zones?per_page=100";
  mret (match r with
        | Err _ => None
        | Ok body =>
            zones ← parse_zones body;
            let best := matchZone zones (zoneHost own) in
            if (zID best =? 0)%Z then None else Some (zID best, zName best)
        end).
Definition note (r : Request) : M unit := modify (λ w, does [r] (site w) 0 w).
Definition release_one (own : dnsOwnership) (zone : Z) (owned : gset string) (n : Z) (rr : hetznerRRSet) : M Z :=
  if decide (rr_host own (rrName rr) ∈ owned) then
    r ← do_ own "DELETE" ("/zones/" +:+ pretty zone +:+ "/rrsets/" +:+ rrName rr +:+ "/" +:+ rrType rr);
    note (Released zone (rrName rr) (rrType rr) (match r with Ok _ => None | Err e => Some e end)) ;;
    mret (match r with Ok _ => n + 1 | Err _ => n end)%Z
  else mret n.
Definition releaseDNSRecords (own : dnsOwnership) : M Z :=
  zone ← zoneID own;
  match zone with
  | None => mret 0%Z
  | Some (zone, _) =>
      r ← do_ own "GET" ("/zones/" +:+ pretty zone +:+ "/rrsets?per_page=500");
      match (match r with Ok body => parse_rrsets body | Err _ => None end) with
      | None => mret 0%Z
      | Some rrsets =>
          note (Zoned zone rrsets) ;;
          foldM (release_one own zone (ownedRecordNames rrsets own)) rrsets 0%Z
      end
  end.

(** ** What is on this machine *)

Definition roots : list string :=
  "." :: (if negb (String.eqb (GitopsDir o) "") && negb (String.eqb (GitopsDir o) ".") then [GitopsDir o] else []).
Definition localArtifacts : list string :=
  roots ≫= λ root, [under root ["k8-secrets"; "kubeconfig"; ClusterName o +:+ ".kubeconfig"];
                    under root [ClusterName o +:+ ".kubeconfig"]].
Definition stateArtifacts : list string :=
  roots ≫= λ root,
    [under root [".state"; ClusterName o +:+ ".json"];
     under root [".state"; "bootstrap-mgmt.json"];
     under root [".state"; "bootstrap-workload.json"];
     under root [".state"; "bootstrap-state.json"];
     under root [".state"; "infisical-bootstrap.json"];
     under root [".state"; "kind"; "kind-config-generated.yaml"];
     under root [".zero-ops"; "state"; ClusterName o +:+ ".json"];
     under root [".zero-ops"; "bootstrap-state.json"];
     under root [".zero-ops"; "infisical-bootstrap.json"];
     under root [".zero-ops"; "kind"; "kind-config-generated.yaml"]].
Definition runs (args : list string) : M unit := _ ← command args; mret tt.
Definition localCleanup : M unit :=
  runs ["kind"; "delete"; "cluster"; "--name"; ClusterName o] ;;
  runs ["docker"; "container"; "prune"; "-f"] ;;
  runs ["docker"; "volume"; "prune"; "-f"] ;;
  runs ["docker"; "builder"; "prune"; "-f"] ;;
  runs ["docker"; "network"; "rm"; "kind"] ;;
  forM localArtifacts Remove ;;
  forM stateArtifacts Remove ;;
  forM ["kind-" +:+ ClusterName o; ClusterName o; "admin@" +:+ ClusterName o] (λ c,
    runs ["kubectl"; "config"; "delete-context"; c] ;;
    runs ["kubectl"; "config"; "delete-cluster"; c] ;;
    runs ["kubectl"; "config"; "unset"; "users." +:+ c]).

(** ** A run *)

Definition reachable : bool := match resolveKubectlBaseArgs with Some _ => true | None => false end.
Definition not_performed : list string :=
  ["load balancers the in-cluster controller owns were not deprovisioned by it";
   "Kubernetes finalizers were not stripped";
   "DNS records were not released: the owner id lives in the cluster"].
Definition dismantle : M unit :=
  asked ← spokeClusterNames;
  let spokes := match asked with [] => Spokes o | _ => asked end in
  dns ← resolveDNSOwnership;
  ips ← drainLoadBalancerServices;
  stripKubernetesFinalizers ;;
  r ← attempt (deleteHetznerResources ips spokes);
  (match r with Ok _ => mret tt | Err e => recordOutstanding "provider infrastructure cleanup" (Some e) end) ;;
  (match dns with Some own => _ ← releaseDNSRecords own; mret tt | None => mret tt end) ;;
  localCleanup ;;
  result_.
Definition Run : M unit :=
  if DNSOnly o then
    dns ← resolveDNSOwnership;
    match dns with
    | None => throw "cannot release DNS records: no owner, zone or token."
    | Some own => n ← releaseDNSRecords own; set_released n
    end
  else if reachable && InfrastructureOnly o then
    throw "--infrastructure-only was given, but this box's Kubernetes API IS reachable."
  else if negb reachable && negb (InfrastructureOnly o) then
    throw ("no Kubernetes access to '" +:+ ClusterName o +:+ "', so the cluster's own cleanup cannot run.")
  else
    (if negb reachable then outstanding_add not_performed else mret tt) ;;
    dismantle.
End teardown.
