(* ===== verification/TeardownFacts.v ===== *)
(** * TeardownFacts: what a teardown may delete, and what it reports.

    Every deletion request is traced back, through the log of a run, to a listing in which
    the object carries the ownership label of a cluster in scope, or to one of the two
    exceptions the code makes; the same for the records released in the zone. Then what a
    run reports: what it leaves undone without saying so. *)

From S2P Require Import Prelude.
From S2P Require Import Bootstrap.
From S2P Require Import BootstrapCluster.
From S2P Require Import Teardown.

Local Open Scope string_scope.

(** ** Attribution *)

Lemma scan_labels_found want ls acc acc' c key value :
  scan_labels want ls acc = (acc', Some (c, key, value)) →
  (key, value) ∈ ls ∧ c ∈ want ∧ key = ownershipLabelPrefix +:+ c.
Proof.
  revert acc. induction ls as [|[k v] ls IH]; intros acc; cbn [scan_labels]; [done|].
  destruct (HasPrefix k ownershipLabelPrefix) eqn:Hp; cbn [negb].
  - case_decide as Hw.
    + intros [= <- <- <- <-]. split_and!; [left|done|].
      apply HasPrefix_iff in Hp as [t ->]. by rewrite TrimPrefix_app.
    + intros (? & ? & ?)%IH. split_and!; [by right|done|done].
  - intros (? & ? & ?)%IH. split_and!; [by right|done|done].
Qed.
Lemma attribute_eligible want ls r :
  aEligible (attribute want ls r) = true → ∃ c, c ∈ want ∧ (ownershipLabelPrefix +:+ c, lifecycleOwned) ∈ ls.
Proof.
  unfold attribute. destruct (scan_labels want ls []) as [labelled [[[c key] value]|]] eqn:E; [|done].
  apply scan_labels_found in E as (Hin & Hc & ->).
  destruct (String.eqb_spec value lifecycleOwned) as [-> | Hne]; [by exists c|].
  by destruct (String.eqb value lifecycleShared).
Qed.

(** A resource labelled as owned by one cluster in scope and as shared by another is
    deleted or kept as the iteration over its labels happens to fall, although [shared] is
    documented never to authorize a deletion. *)
Theorem shared_may_be_deleted want r c1 c2 :
  c1 ∈ want → c2 ∈ want → c1 ≠ c2 →
  rLabels r = {[ownershipLabelPrefix +:+ c1 := lifecycleOwned; ownershipLabelPrefix +:+ c2 := lifecycleShared]} →
  ∃ ls1 ls2, ls1 ≡ₚ map_to_list (rLabels r) ∧ ls2 ≡ₚ map_to_list (rLabels r)
    ∧ aEligible (attribute want ls1 r) = true ∧ aEligible (attribute want ls2 r) = false.
Proof.
  intros H1 H2 Hne Hl. set (k1 := ownershipLabelPrefix +:+ c1) in *. set (k2 := ownershipLabelPrefix +:+ c2) in *.
  assert (Hk : k1 ≠ k2).
  { intros Hk. apply Hne. unfold k1, k2 in Hk. apply (f_equal (λ s, TrimPrefix s ownershipLabelPrefix)) in Hk.
    by rewrite !TrimPrefix_app in Hk. }
  assert (Hp : [(k1, lifecycleOwned); (k2, lifecycleShared)] ≡ₚ map_to_list (rLabels r)).
  { rewrite Hl. symmetry. rewrite <-(map_to_list_singleton (M:=gmap string) k2 lifecycleShared).
    apply (map_to_list_insert (M:=gmap string)). by apply lookup_singleton_ne. }
  exists [(k1, lifecycleOwned); (k2, lifecycleShared)], [(k2, lifecycleShared); (k1, lifecycleOwned)].
  split_and!; [done|by rewrite <-Hp; apply Permutation_swap| |].
  - unfold attribute. cbn [scan_labels]. unfold k1, HasPrefix. rewrite prefix_app. cbn [negb].
    rewrite TrimPrefix_app, decide_True by done. done.
  - unfold attribute. cbn [scan_labels]. unfold k2, HasPrefix. rewrite prefix_app. cbn [negb].
    rewrite TrimPrefix_app, decide_True by done. done.
Qed.

(** ** Where a deletion comes from *)

Section provenance.
Context {S : Site} {SL : SiteLaws S}.
Context (o : Orchestrator).
Implicit Types (w : @World S) (F l : list Request).
Abbreviation M A := (goM (@World S) string A).

(** [t] is a cluster this run may take apart: the one named, one declared, or one the
    hub answered with. *)
Definition named_target F (t : string) : Prop :=
  t = ClusterName o ∨ t ∈ Spokes o
  ∨ ∃ base out, resolveKubectlBaseArgs o = Some base
      ∧ Command ("kubectl" :: base ++ clusters_query)%list (Ok out) ∈ F ∧ t ∈ TrimSpace <$> lines out.
Definition in_scope F (c : string) : Prop := ∃ t, named_target F t ∧ c = TrimSpace t ∧ c ≠ "".
Definition claimed F (x : Object) : Prop :=
  ∃ c, in_scope F c ∧ oLabels x !! (ownershipLabelPrefix +:+ c) = Some lifecycleOwned.
(** The address of [x] was that of a LoadBalancer Service of the cluster. *)
Definition drained F (x : Object) : Prop :=
  ∃ base out ip, resolveKubectlBaseArgs o = Some base
    ∧ Command ("kubectl" :: base ++ services_query)%list (Ok out) ∈ F
    ∧ ip ∈ (lb_services out ≫= snd) ∧ oIPv4 x = Some (TrimSpace ip).
Definition seen F (k : Kind) (x : Object) : Prop := ∃ xs, Listed k xs ∈ F ∧ x ∈ xs.
Definition justified F (k : Kind) (id : Z) : Prop :=
  ∃ x, seen F k x ∧ oID x = id
    ∧ (claimed F x ∨ (k = LoadBalancer ∧ drained F x)
       ∨ (k = Volume ∧ ∃ s, seen F Server s ∧ claimed F s ∧ oServer x = Some (oID s))).
Definition fair l : Prop := ∀ k id e, Deleted k id e ∈ l → justified l k id.
Definition known F w : Prop := F ⊆ log w ∧ fair (log w).

Lemma claimed_mono F F' x : F ⊆ F' → claimed F x → claimed F' x.
Proof.
  intros HF (c & (t & Ht & Hc) & Hx). exists c. split; [|done]. exists t. split; [|done].
  destruct Ht as [?|[?|(base & out & ? & ? & ?)]]; [by left|by right; left|]. right; right. exists base, out. auto.
Qed.
Lemma seen_mono F F' k x : F ⊆ F' → seen F k x → seen F' k x.
Proof. intros HF (xs & ? & ?). exists xs. auto. Qed.
Lemma justified_mono F F' k id : F ⊆ F' → justified F k id → justified F' k id.
Proof.
  intros HF (x & Hx & Hid & Hwhy). exists x. split_and!; [by eapply seen_mono|done|].
  destruct Hwhy as [H|[[? (base & out & ip & ? & ? & ?)]|[? (s & ? & ? & ?)]]].
  - left. by eapply claimed_mono.
  - right; left. split; [done|]. exists base, out, ip. auto.
  - right; right. split; [done|]. exists s. split_and!; [by eapply seen_mono|by eapply claimed_mono|done].
Qed.
Lemma known_mono F F' w : F ⊆ F' → known F' w → known F w.
Proof. intros HF [H ?]. split; [set_solver|done]. Qed.
Lemma known_does F r s t w :
  known F w → (∀ k id e, Deleted k id e ∈ r → justified F k id) → known (r ++ F) (does r s t w).
Proof.
  intros [HF Hf] Hr. split; cbn; [set_solver|]. intros k id e [H|H]%elem_of_app.
  - eapply justified_mono; [|by eapply Hf]. set_solver.
  - eapply justified_mono; [|by eapply Hr]. set_solver.
Qed.
Lemma known_plain F r s t w :
  known F w → (∀ k id e, Deleted k id e ∉ r) → known F (does r s t w).
Proof.
  intros Hk Hr. eapply known_mono; [|by apply known_does; [|intros k id e H; destruct (Hr k id e)]]. set_solver.
Qed.

(** A step that only adds to the log, with what its answer tells. *)
Definition tells {A} F (c : M A) (Q : A → list Request → Prop) : Prop :=
  ∀ w, known F w → match c w with
                    | (Ok a, w') => ∃ F', F ⊆ F' ∧ Q a F' ∧ known F' w'
                    | (Err _, w') => known F w'
                    end.
Lemma tells_bind {A B} F (c : M A) (f : A → M B) Q :
  tells F c Q → (∀ a F', F ⊆ F' → Q a F' → keeps (known F') (f a)) → keeps (known F) (c ≫= f).
Proof.
  intros Hc Hf w Hw. rewrite bind_run. specialize (Hc w Hw). destruct (c w) as [[a|e] w']; [|done].
  destruct Hc as (F' & HF & HQ & Hw'). eapply known_mono; [done|]. by apply (Hf a F').
Qed.
Lemma tells_keeps {A} F (c : M A) : keeps (known F) c → tells F c (λ _ F', F' = F).
Proof.
  intros Hc w Hw. specialize (Hc w Hw). destruct (c w) as [[a|e] w']; [|done]. by exists F.
Qed.

Lemma tells_command F args : tells F (command args) (λ r F', Command args r ∈ F').
Proof.
  intros w Hw. unfold command. destruct (exec args (site w)) as [[r s] t].
  exists ([Command args r] ++ F)%list. split_and!; [set_solver|set_solver|].
  apply known_does; [done|]. intros k id e H. set_solver.
Qed.
Lemma tells_All F k : tells F (All k) (λ r F', ∀ xs, r = Ok xs → Listed k xs ∈ F').
Proof.
  intros w Hw. unfold All. destruct (listing k (site w)) as [[r s] t].
  exists ((match r with Ok l => [Listed k l] | Err _ => [] end) ++ F)%list. split_and!; [set_solver| |].
  - intros xs ->. set_solver.
  - apply known_does; [done|]. intros k' id e H. destruct r; set_solver.
Qed.
Lemma keeps_Delete F k id : justified F k id → keeps (known F) (Delete_ k id).
Proof.
  intros Hj w Hw. unfold Delete_. destruct (delete_object k id (site w)) as [[r s] t].
  eapply known_mono; [|apply known_does; [done|]]; [set_solver|]. intros k' id' e H.
  apply list_elem_of_singleton in H as [= -> -> ->]. done.
Qed.
Lemma keeps_command F args : keeps (known F) (command args).
Proof.
  intros w Hw. unfold command. destruct (exec args (site w)) as [[r s] t]. apply known_plain; [done|]. set_solver.
Qed.
Lemma keeps_Detach F id : keeps (known F) (Detach id).
Proof. intros w Hw. unfold Detach. destruct (detach_volume id (site w)). apply known_plain; [done|]. set_solver. Qed.
Lemma keeps_Remove F p : keeps (known F) (Remove p).
Proof. intros w Hw. apply known_plain; [done|]. set_solver. Qed.
Lemma keeps_display F i s : keeps (known F) (display i s).
Proof. intros w Hw. apply known_plain; [done|]. set_solver. Qed.
Lemma keeps_Sleep F d : keeps (known F) (Sleep d).
Proof. intros w Hw. apply known_plain; [done|]. set_solver. Qed.
Lemma keeps_do F own method path : keeps (known F) (do_ own method path).
Proof.
  intros w Hw. unfold do_. destruct (http _ _ _ _) as [[r s] t]. apply known_plain; [done|]. set_solver.
Qed.
Lemma keeps_note F r : (∀ k id e, r ≠ Deleted k id e) → keeps (known F) (note r).
Proof. intros Hr w Hw. apply known_plain; [done|]. intros k id e H%list_elem_of_singleton. by apply (Hr k id e). Qed.
Lemma keeps_range F m : keeps (known F) (range m).
Proof. by intros w Hw. Qed.
Lemma keeps_outstanding F (ss : list string) : keeps (known F) (outstanding_add ss).
Proof. by intros w Hw. Qed.
Lemma keeps_set_released F n : keeps (known F) (set_released n).
Proof. by intros w Hw. Qed.
Lemma tells_gets {A} F (f : World → A) : tells F (gets f) (λ _ F', F' = F).
Proof. apply tells_keeps, keeps_gets. Qed.

Hint Resolve keeps_command keeps_Detach keeps_Remove keeps_display keeps_Sleep keeps_do keeps_range keeps_outstanding
  keeps_set_released keeps_gets keeps_ret keeps_throw keeps_modify : teardown.
(** Programs without deletions, by their text. *)
Ltac walk_known :=
  repeat lazymatch goal with
    | |- keeps _ (match ?x with _ => _ end) => destruct x
    | |- keeps _ (let (_, _) := ?x in _) => destruct x
    | |- keeps _ (_ ≫= _) => apply keeps_bind
    | |- keeps _ (attempt _) => apply keeps_attempt
    | |- keeps _ (forM _ _) => apply keeps_forM
    | |- keeps _ (foldM _ _ _) => apply keeps_foldM
    | |- keeps _ (let x := _ in _) => cbn zeta
    | |- keeps _ ((λ x, _) _) => cbn beta
    | |- keeps _ (note _) => apply keeps_note; done
    | |- keeps _ ?c =>
        first [ solve [eauto 2 with teardown nocore] | let h := head_of c in unfold h | done ]
    | |- _ => intro
    end.

Lemma keeps_await_drained F fuel base svcs d : keeps (known F) (await_drained fuel base svcs d).
Proof. induction fuel; cbn [await_drained]; walk_known. Qed.
Lemma keeps_strip F : keeps (known F) (stripKubernetesFinalizers o).
Proof. walk_known. Qed.
Lemma keeps_discover F targets : keeps (known F) (discoverInventory targets).
Proof.
  unfold discoverInventory. apply keeps_bind; [|walk_known]. apply keeps_foldM. intros b [[k n] p] _. unfold list_kind.
  apply keeps_bind; [|walk_known]. intros w Hw. unfold All. destruct (listing k (site w)) as [[r s] t].
  apply known_plain; [done|]. destruct r; set_solver.
Qed.
Lemma keeps_resolveDNS F : keeps (known F) (resolveDNSOwnership o).
Proof. walk_known. Qed.
Lemma keeps_release F own : keeps (known F) (releaseDNSRecords own).
Proof. walk_known. Qed.
Lemma keeps_localCleanup F : keeps (known F) (localCleanup o).
Proof. walk_known. Qed.

Lemma tells_spokes F : tells F (spokeClusterNames o) (λ ts F', ∀ t, t ∈ ts → named_target F' t).
Proof.
  intros w Hw. unfold spokeClusterNames. destruct (resolveKubectlBaseArgs o) as [base|] eqn:E.
  - rewrite bind_run. unfold kubectl. pose proof (tells_command F ("kubectl" :: base ++ clusters_query)%list w Hw) as Hc.
    destruct (command _ w) as [[r|e] w']; [|done]. destruct Hc as (F' & HF & HQ & Hw').
    exists F'. split_and!; [done| |done]. intros t Ht. destruct r as [out|e]; [|by apply not_elem_of_nil in Ht].
    apply list_elem_of_filter in Ht as [_ Ht]. right; right. by exists base, out.
  - exists F. split_and!; [done| |done]. by intros t ?%not_elem_of_nil.
Qed.
Lemma tells_drain F :
  tells F (drainLoadBalancerServices o) (λ ips F', ∀ ip, ip ∈ ips →
    ∃ base out, resolveKubectlBaseArgs o = Some base
      ∧ Command ("kubectl" :: base ++ services_query)%list (Ok out) ∈ F' ∧ ip ∈ (lb_services out ≫= snd)).
Proof.
  intros w Hw. unfold drainLoadBalancerServices. destruct (resolveKubectlBaseArgs o) as [base|] eqn:E.
  2:{ exists F. split_and!; [done| |done]. by intros ip ?%not_elem_of_nil. }
  rewrite bind_run. unfold kubectl at 1.
  pose proof (tells_command F ("kubectl" :: base ++ services_query)%list w Hw) as Hc.
  destruct (command _ w) as [[r|e] w']; [|done]. destruct Hc as (F' & HF & HQ & Hw').
  destruct r as [out|e]; [|exists F'; split_and!; [done| |done]; by intros ip ?%not_elem_of_nil].
  destruct (lb_services out) as [|svc svcs] eqn:Es.
  { exists F'. split_and!; [done| |done]. by intros ip ?%not_elem_of_nil. }
  rewrite <-Es. clear Es svc svcs. set (svcs := lb_services out).
  match goal with |- context [?c w'] => assert (Hk : tells F' c (λ ips F'', F'' = F' ∧ ips = svcs ≫= snd)) end.
  { intros w1 Hw1. rewrite bind_run.
    match goal with |- context [forM svcs ?g w1] => assert (H1 : keeps (known F') (forM svcs g)) by walk_known end.
    specialize (H1 w1 Hw1). destruct (forM _ _ w1) as [[u|e] w2]; [|done]. rewrite bind_run. cbn [Now gets].
    rewrite bind_run. pose proof (keeps_await_drained F' 19 base svcs (clk w2 + 90 * second) w2 H1) as H2.
    destruct (await_drained _ _ _ _ w2) as [[u'|e] w3]; [|done]. by exists F'. }
  specialize (Hk w' Hw'). match goal with |- context [?c w'] => destruct (c w') as [[ips|e] w2] end.
  - destruct Hk as (F'' & _ & [-> ->] & Hw2). exists F'. split_and!; [done| |done]. intros ip Hip. by exists base, out.
  - by eapply known_mono.
Qed.

(** What the label test establishes; it leaves the log alone. *)
Lemma ownedByTarget_run owned labels w :
  ∃ b w', ownedByTarget owned labels w = (Ok b, w') ∧ log w' = log w
    ∧ (b = true → ∃ c, c ∈ targets_set owned ∧ labels !! (ownershipLabelPrefix +:+ c) = Some lifecycleOwned).
Proof.
  unfold ownedByTarget, Attribute. rewrite bind_run. cbn [foldM rLabels]. rewrite bind_run. unfold range. rewrite bind_run.
  cbn. eexists _, _. split; [done|]. split; [done|]. intros (c & Hc & Hin)%attribute_eligible. exists c. split; [done|].
  rewrite range_labels_perm in Hin. by apply elem_of_map_to_list in Hin.
Qed.
Lemma tells_owned F owned labels :
  tells F (ownedByTarget owned labels) (λ b F', F' = F ∧
    (b = true → ∃ c, c ∈ targets_set owned ∧ labels !! (ownershipLabelPrefix +:+ c) = Some lifecycleOwned)).
Proof.
  intros w [HF Hf]. destruct (ownedByTarget_run owned labels w) as (b & w' & -> & Hl & Hb).
  exists F. split_and!; [done|done|done|]. split; by rewrite Hl.
Qed.
Lemma claimed_by_label F owned x :
  (∀ t, t ∈ owned → named_target F t) →
  (∃ c, c ∈ targets_set owned ∧ oLabels x !! (ownershipLabelPrefix +:+ c) = Some lifecycleOwned) → claimed F x.
Proof.
  intros Ho (c & Hc & Hx). exists c. split; [|done]. unfold targets_set in Hc.
  apply elem_of_list_to_set, list_elem_of_filter in Hc as [Hne (t & -> & Ht)%list_elem_of_fmap]. exists t. auto.
Qed.
Lemma named_mono F F' t : F ⊆ F' → named_target F t → named_target F' t.
Proof. intros HF [?|[?|(base & out & ? & ? & ?)]]; [by left|by right; left|right; right; exists base, out; auto]. Qed.

Lemma tells_delete_servers F owned :
  (∀ t, t ∈ owned → named_target F t) →
  tells F (delete_servers owned) (λ ids F', ∀ i, i ∈ ids → ∃ s, seen F' Server s ∧ claimed F' s ∧ oID s = i).
Proof.
  intros Ho w Hw. unfold delete_servers. rewrite bind_run. pose proof (tells_All F Server w Hw) as H1.
  destruct (All Server w) as [[r|e] w1]; [|done]. destruct H1 as (F1 & HF & Hl & Hw1).
  destruct r as [xs|e]; [|exists F1; split_and!; [done|set_solver|done]]. specialize (Hl xs eq_refl).
  assert (Hgo : ∀ ys ids, ys ⊆ xs → (∀ i, i ∈ ids → ∃ s, seen F1 Server s ∧ claimed F1 s ∧ oID s = i) →
    tells F1 (foldM (λ ids x, b ← ownedByTarget owned (oLabels x);
               if (b : bool) then _ ← Delete_ Server (oID x); mret ({[oID x]} ∪ ids) else mret ids) ys ids)
      (λ ids F', F' = F1 ∧ ∀ i, i ∈ (ids : gset Z) → ∃ s, seen F1 Server s ∧ claimed F1 s ∧ oID s = i)).
  { clear w Hw w1 Hw1. induction ys as [|y ys IH]; intros ids Hys Hids w Hw; cbn [foldM]; [by exists F1|].
    rewrite bind_run, bind_run. pose proof (tells_owned F1 owned (oLabels y) w Hw) as Ht.
    destruct (ownedByTarget owned (oLabels y) w) as [[b|e] w1]; [|done]. destruct Ht as (F2 & _ & [-> Hb] & Hw1).
    destruct b; [|apply IH; [set_solver|done|done]]. rewrite bind_run.
    assert (Hy : ∃ s, seen F1 Server s ∧ claimed F1 s ∧ oID s = oID y).
    { exists y. split_and!; [by exists xs; split; [|apply Hys; left]| |done].
      eapply claimed_by_label; [|by apply Hb]. intros t Ht. eapply named_mono; [done|]. by apply Ho. }
    assert (Hj : justified F1 Server (oID y)).
    { destruct Hy as (s & ? & ? & ?). exists s. split_and!; [done|done|by left]. }
    pose proof (keeps_Delete F1 Server (oID y) Hj w1 Hw1) as Hd.
    destruct (Delete_ Server (oID y) w1) as [[e|e] w2]; [|done]. apply IH; [set_solver| |done].
    intros i [->%elem_of_singleton | Hi]%elem_of_union; [done|by apply Hids]. }
  specialize (Hgo xs ∅ (reflexivity xs) ltac:(set_solver) w1 Hw1).
  destruct (foldM _ xs ∅ w1) as [[ids|e] w2]; [|by eapply known_mono].
  destruct Hgo as (F2 & _ & [-> Hids] & Hw2). by exists F1.
Qed.
Lemma keeps_delete_matching F k owned also act :
  (∀ t, t ∈ owned → named_target F t) →
  (∀ F' x, F ⊆ F' → seen F' k x → claimed F' x ∨ also x = true → keeps (known F') (act x)) →
  keeps (known F) (delete_matching k owned also act).
Proof.
  intros Ho Hact. unfold delete_matching. eapply tells_bind; [apply tells_All|]. intros [xs|e] F' HF Hl; [|apply keeps_ret].
  specialize (Hl xs eq_refl). apply keeps_forM. intros x Hx. eapply tells_bind; [apply tells_owned|].
  intros b F'' _ [-> Hb]. destruct (b || also x) eqn:E; [|apply keeps_ret]. apply Hact; [done|by exists xs|].
  apply orb_true_iff in E as [-> | ?]; [left|by right].
  eapply claimed_by_label; [|by apply Hb]. intros t Ht. eapply named_mono; [done|]. by apply Ho.
Qed.
Lemma keeps_delete_plain F k x : justified F k (oID x) → keeps (known F) (delete_plain k x).
Proof. intros Hj. unfold delete_plain. apply keeps_bind; [by apply keeps_Delete|intros; apply keeps_ret]. Qed.
Lemma justified_claimed F k x : seen F k x → claimed F x → justified F k (oID x).
Proof. intros Hs Hc. exists x. auto. Qed.
Lemma keeps_delete_owned F k owned :
  (∀ t, t ∈ owned → named_target F t) →
  keeps (known F) (delete_matching k owned (λ _, false) (delete_plain k)).
Proof.
  intros Ho. apply keeps_delete_matching; [done|]. intros F' x _ Hs [Hc|?]; [|done].
  by apply keeps_delete_plain, justified_claimed.
Qed.
Lemma keeps_delete_all F owned ips :
  (∀ t, t ∈ owned → named_target F t) →
  (∀ ip, ip ∈ ips → ∃ base out, resolveKubectlBaseArgs o = Some base
     ∧ Command ("kubectl" :: base ++ services_query)%list (Ok out) ∈ F ∧ ip ∈ (lb_services out ≫= snd)) →
  keeps (known F) (delete_all owned ips).
Proof.
  intros Ho Hips. unfold delete_all. eapply tells_bind; [by apply tells_delete_servers|].
  intros ids F' HF Hids.
  assert (Ho' : ∀ t, t ∈ owned → named_target F' t) by (intros t Ht; eapply named_mono; [done|by apply Ho]).
  apply keeps_bind; [|intros _; apply keeps_bind; [|intros _]].
  - apply keeps_delete_matching; [done|]. intros F1 x HF1 Hs Hwhy. apply keeps_delete_plain.
    destruct Hwhy as [?|Hip]; [by apply justified_claimed|]. exists x. split_and!; [done|done|]. right; left. split; [done|].
    unfold matchesDrainedIP in Hip. destruct (oIPv4 x) as [ip|] eqn:Ex; [|done]. apply bool_decide_eq_true in Hip.
    unfold orphan_ips in Hip. apply elem_of_list_to_set, list_elem_of_filter in Hip as [_ (raw & -> & Hraw)%list_elem_of_fmap].
    destruct (Hips raw Hraw) as (base & out & Hb & Hc & Hin). exists base, out, raw. split_and!; [done|set_solver|done|done].
  - apply keeps_delete_matching; [done|]. intros F1 x HF1 Hs Hwhy. unfold delete_volume.
    apply keeps_bind; [destruct (oServer x); eauto with teardown|intros _]. apply keeps_delete_plain.
    destruct Hwhy as [?|Hat]; [by apply justified_claimed|]. exists x. split_and!; [done|done|]. right; right. split; [done|].
    unfold attached_to in Hat. destruct (oServer x) as [i|] eqn:Ex; [|done]. apply bool_decide_eq_true in Hat.
    destruct (Hids i Hat) as (s & Hss & Hsc & <-). exists s. split_and!; [by eapply seen_mono|by eapply claimed_mono|done].
  - do 4 (apply keeps_bind; [by apply keeps_delete_owned|intros _]).
    apply keeps_delete_matching; [done|]. intros F1 x HF1 Hs [Hc|?]; [|done].
    pose proof (justified_claimed _ _ _ Hs Hc) as Hj. unfold delete_network.
    apply keeps_bind; [by apply keeps_Delete|]. intros [e|]; [|apply keeps_ret].
    apply keeps_bind; [apply keeps_Sleep|intros _]. by apply keeps_delete_plain.
Qed.
Lemma keeps_deleteHetzner F ips spokes :
  (∀ t, t ∈ spokes → named_target F t) →
  (∀ ip, ip ∈ ips → ∃ base out, resolveKubectlBaseArgs o = Some base
     ∧ Command ("kubectl" :: base ++ services_query)%list (Ok out) ∈ F ∧ ip ∈ (lb_services out ≫= snd)) →
  keeps (known F) (deleteHetznerResources o ips spokes).
Proof.
  intros Ho Hips. unfold deleteHetznerResources. destruct (String.eqb _ _); [apply keeps_throw|].
  apply keeps_bind; [apply keeps_attempt, keeps_discover|]. intros [inv|e]; [|apply keeps_throw]. cbn zeta.
  apply keeps_bind; [apply keeps_display|intros _]. case_decide; [apply keeps_ret|]. apply keeps_delete_all; [|done].
  intros t [-> | Ht]%elem_of_cons; [by left|by apply Ho].
Qed.

Lemma keeps_Run : keeps (known []) (Run o).
Proof.
  unfold Run. destruct (DNSOnly o).
  { apply keeps_bind; [apply keeps_resolveDNS|]. intros [own|]; [|apply keeps_throw].
    apply keeps_bind; [apply keeps_release|intros n; apply keeps_set_released]. }
  destruct (_ && _); [apply keeps_throw|]. destruct (_ && _); [apply keeps_throw|].
  apply keeps_bind; [destruct (negb _); [apply keeps_outstanding|apply keeps_ret]|intros _]. unfold dismantle.
  eapply tells_bind; [apply tells_spokes|]. intros asked F1 _ Hasked. cbn zeta.
  apply keeps_bind; [apply keeps_resolveDNS|intros dns].
  eapply tells_bind; [apply tells_drain|]. intros ips F2 HF Hips.
  apply keeps_bind; [apply keeps_strip|intros _].
  apply keeps_bind.
  { apply keeps_attempt, keeps_deleteHetzner; [|done]. intros t Ht. destruct asked as [|a asked]; [right; by left|].
    eapply named_mono; [done|by apply Hasked]. }
  intros r. apply keeps_bind; [destruct r; [apply keeps_ret|apply keeps_outstanding]|intros _].
  apply keeps_bind; [destruct dns; [|apply keeps_ret]; apply keeps_bind; [apply keeps_release|intros; apply keeps_ret]|intros _].
  apply keeps_bind; [apply keeps_localCleanup|intros _]. walk_known.
Qed.

(** C37: Every deletion a teardown asks of the provider, whatever anything answers and
    wherever it stops, is of an object that a listing of this run showed with the label
    caph-cluster-<c>=owned, for <c> the cluster named, a spoke declared or a cluster the
    hub listed; or of a load balancer whose address was that of a LoadBalancer Service of
    the cluster; or of a volume attached to a server of the first sort. *)
Theorem deletions_justified w r w' :
  log w = [] → Run o w = (r, w') →
  ∀ k id e, Deleted k id e ∈ log w' →
  ∃ x, seen (log w') k x ∧ oID x = id
    ∧ (claimed (log w') x ∨ (k = LoadBalancer ∧ drained (log w') x)
       ∨ (k = Volume ∧ ∃ s, seen (log w') Server s ∧ claimed (log w') s ∧ oServer x = Some (oID s))).
Proof.
  intros Hw E. assert (Hk : known [] w).
  { split; rewrite Hw; [set_solver|]. by intros k id e ?%not_elem_of_nil. }
  pose proof (keeps_Run w Hk) as [_ Hf]. rewrite E in Hf. exact Hf.
Qed.
End provenance.
