(* ===== verification/TeardownReportFacts.v ===== *)
(** * TeardownReportFacts: what a teardown leaves behind, and what it says of it.

    The zone: which records are released and why, and which of another owner's are. The
    provider: volumes of servers that were not deleted. The verdict of a run, which looks
    at none of the deletions. The wait for the load balancers ends. *)

From S2P Require Import Prelude.
From S2P Require Import Bootstrap.
From S2P Require Import BootstrapCluster.
From S2P Require Import Teardown.
From S2P Require Import TeardownFacts.

Local Open Scope string_scope.

(** ** The zone that holds a domain *)

Definition holds (domain : string) (z : hetznerZone) : Prop := domain = zName z ∨ ∃ sub, domain = sub +:+ "." +:+ zName z.
Lemma better_zone_spec domain best z :
  better_zone domain best z = if bool_decide (String.length (zName best) < String.length (zName z))%nat
                                 && (String.eqb domain (zName z) || HasSuffix domain ("." +:+ zName z)) then z else best.
Proof.
  unfold better_zone. destruct (String.eqb domain (zName z)), (HasSuffix domain ("." +:+ zName z)); cbn [negb andb orb].
  all: rewrite ?andb_true_r, ?andb_false_r; try done.
  all: case_bool_decide as H; [by rewrite (proj2 (Nat.ltb_lt _ _) H)|].
  all: destruct (Nat.ltb_spec (String.length (zName best)) (String.length (zName z))); [lia|done].
Qed.
Lemma holds_iff domain z : holds domain z ↔ String.eqb domain (zName z) || HasSuffix domain ("." +:+ zName z) = true.
Proof. rewrite orb_true_iff, String.eqb_eq, HasSuffix_iff. done. Qed.

(** The zone chosen for a domain is one of those listed that holds it, a name it is or
    ends on at a dot, and no other that holds it has a longer name; with none, or with
    only a nameless one, it is the zone 0 that the caller refuses. *)
Theorem matchZone_longest zones domain :
  (matchZone zones domain = mkZone 0 "" ∨ (matchZone zones domain ∈ zones ∧ holds domain (matchZone zones domain)))
  ∧ ∀ z, z ∈ zones → holds domain z →
      (String.length (zName z) ≤ String.length (zName (matchZone zones domain)))%nat.
Proof.
  unfold matchZone. generalize (mkZone 0 "") as b. induction zones as [|z zones IH]; intros b; cbn [foldl].
  { split; [by left|]. by intros z ?%not_elem_of_nil. }
  assert (Hmono : ∀ zs b, (String.length (zName b) ≤ String.length (zName (foldl (better_zone domain) b zs)))%nat).
  { clear. induction zs as [|z zs IH]; intros b; cbn; [done|]. etrans; [|apply IH].
    rewrite better_zone_spec. case_bool_decide; cbn [andb]; [|done]. destruct (_ || _); lia. }
  destruct (IH (better_zone domain b z)) as [Hin Hmax]. split.
  - destruct Hin as [Hb | [? ?]]; [|right; split; [by right|done]]. rewrite Hb, better_zone_spec.
    destruct (_ && _) eqn:E; [|by left]. right. apply andb_true_iff in E as [_ E]. split; [left|by apply holds_iff].
  - intros z' [-> | Hz']%elem_of_cons Hh; [|by apply Hmax]. etrans; [|apply Hmono].
    apply holds_iff in Hh. rewrite better_zone_spec, Hh, andb_true_r. case_bool_decide; lia.
Qed.

(** ** Programs as steps on the log *)

Abbreviation adds P c := (appends log P c) (only parsing).

Section steps.
Context {S : Site}.
Implicit Types (w : @World S).
Abbreviation M A := (goM (@World S) string A).

Lemma adds_Delete (P : Request → Prop) k id : (∀ e, P (Deleted k id e)) → adds P (Delete_ k id).
Proof. intros HP. apply appends_one. intros w. unfold Delete_. destruct (delete_object _ _ _) as [[r s] t]. by eexists. Qed.
Lemma adds_All (P : Request → Prop) k : (∀ l, P (Listed k l)) → adds P (All k).
Proof.
  intros HP w. unfold All. destruct (listing _ _) as [[[l|e] s] t]; cbn; [exists [Listed k l]|exists []]; split; auto.
Qed.
Lemma log_Attribute targets rs w : log (Attribute rs targets w).2 = log w.
Proof.
  assert (Hgo : ∀ acc w, log (foldM (λ out r, ls ← range (rLabels r);
      mret (out ++ [attribute (targets_set targets) ls r])%list) rs acc w).2 = log w); [|apply Hgo].
  clear w. induction rs as [|r rs IH]; intros acc w; cbn [foldM]; [done|]. rewrite bind_run. unfold range.
  rewrite bind_run. cbn [mret goM_ret]. by rewrite IH.
Qed.
Lemma log_owned owned labels w : log (ownedByTarget owned labels w).2 = log w.
Proof.
  unfold ownedByTarget. rewrite bind_run. pose proof (log_Attribute owned [mkResource "" "" 0 labels] w) as H.
  by destruct (Attribute _ _ w) as [[a|e] w'].
Qed.

(** [c] answers without an error and reports nothing. *)
Definition settles {A} (c : M A) : Prop := ∀ w, ∃ a w', c w = (Ok a, w') ∧ Outstanding w' = Outstanding w.
Lemma settles_ret {A} (a : A) : settles (mret a).
Proof. intros w. by eexists _, _. Qed.
Lemma settles_gets {A} (f : World → A) : settles (gets f).
Proof. intros w. by eexists _, _. Qed.
Lemma settles_bind {A B} (c : M A) (f : A → M B) : settles c → (∀ a, settles (f a)) → settles (c ≫= f).
Proof.
  intros Hc Hf w. destruct (Hc w) as (a & w1 & E & H1). rewrite (bind_ok _ _ _ _ _ E).
  destruct (Hf a w1) as (b & w2 & E2 & H2). exists b, w2. split; [done|]. congruence.
Qed.
Lemma settles_forM {A} (l : list A) (f : A → M unit) : (∀ x, settles (f x)) → settles (forM l f).
Proof. intros Hf. induction l as [|x l IH]; cbn; [apply settles_ret|]. by apply settles_bind. Qed.
Lemma settles_foldM {A B} (f : B → A → M B) (l : list A) b : (∀ b x, settles (f b x)) → settles (foldM f l b).
Proof. intros Hf. revert b. induction l as [|x l IH]; intros b; cbn; [apply settles_ret|]. by apply settles_bind. Qed.
Lemma settles_command args : settles (command args).
Proof. intros w. unfold command. destruct (exec _ _) as [[r s] t]. by eexists _, _. Qed.
Lemma settles_All k : settles (All k).
Proof. intros w. unfold All. destruct (listing _ _) as [[r s] t]. by eexists _, _. Qed.
Lemma settles_Delete k id : settles (Delete_ k id).
Proof. intros w. unfold Delete_. destruct (delete_object _ _ _) as [[r s] t]. by eexists _, _. Qed.
Lemma settles_Detach id : settles (Detach id).
Proof. intros w. unfold Detach. destruct (detach_volume _ _) as [s t]. by eexists _, _. Qed.
Lemma settles_Remove p : settles (Remove p).
Proof. intros w. by eexists _, _. Qed.
Lemma settles_Sleep d : settles (Sleep d).
Proof. intros w. by eexists _, _. Qed.
Lemma settles_display i st : settles (display i st).
Proof. intros w. by eexists _, _. Qed.
Lemma settles_note r : settles (note r).
Proof. intros w. by eexists _, _. Qed.
Lemma settles_range m : settles (range m).
Proof. intros w. by eexists _, _. Qed.
Lemma settles_do own method path : settles (do_ own method path).
Proof. intros w. unfold do_. destruct (http _ _ _ _) as [[r s] t]. by eexists _, _. Qed.
End steps.

#[export] Hint Resolve settles_ret settles_gets settles_command settles_All settles_Delete settles_Detach settles_Remove
  settles_Sleep settles_display settles_note settles_range settles_do : settles.
Ltac walk_settles :=
  repeat lazymatch goal with
    | |- settles (match ?x with _ => _ end) => destruct x
    | |- settles (let (_, _) := ?x in _) => destruct x
    | |- settles (_ ≫= _) => apply settles_bind
    | |- settles (forM _ _) => apply settles_forM
    | |- settles (foldM _ _ _) => apply settles_foldM
    | |- settles (let x := _ in _) => cbn zeta
    | |- settles ((λ x, _) _) => cbn beta
    | |- settles ?c => first [ solve [eauto 2 with settles nocore] | let h := head_of c in unfold h | done ]
    | |- _ => intro
    end.

Section volumes.
Context {S : Site}.
Implicit Types (w : @World S).
Abbreviation M A := (goM (@World S) string A).

(** ** Volumes *)

(** What the loop over the objects of a kind other than servers and volumes adds. *)
Definition elsewhere (r : Request) : Prop :=
  match r with Listed Volume _ | Deleted Server _ _ => False | _ => True end.
Definition no_volume_listing (r : Request) : Prop := match r with Listed Volume _ => False | _ => True end.
Lemma adds_matching P k owned also act :
  (∀ l, P (Listed k l)) → (∀ x, adds P (act x)) → adds P (delete_matching k owned also act).
Proof.
  intros Hl Ha. unfold delete_matching. apply appends_bind; [by apply adds_All|]. intros [l|e]; [|by apply appends_none].
  apply appends_forM. intros x _. apply appends_bind; [apply appends_none, log_owned|]. intros b.
  destruct (b || also x); [done|by apply appends_none].
Qed.
Lemma adds_plain P k x : (∀ e, P (Deleted k (oID x) e)) → adds P (delete_plain k x).
Proof. intros HP. apply appends_bind; [by apply adds_Delete|intros; by apply appends_none]. Qed.
Lemma adds_volume P x :
  (∀ e, P (Deleted Volume (oID x) e)) → P (Detached (oID x)) → adds P (delete_volume x).
Proof.
  intros HD Ht. apply appends_bind; [|intros _; by apply adds_plain]. destruct (oServer x); [|by apply appends_none].
  apply appends_one. intros w. unfold Detach. destruct (detach_volume _ _). by eexists.
Qed.
Lemma adds_network P x : (∀ e, P (Deleted Network (oID x) e)) → adds P (delete_network x).
Proof.
  intros HD. apply appends_bind; [by apply adds_Delete|]. intros [e|]; [|by apply appends_none].
  apply appends_bind; [apply appends_none; intros w; cbn; by rewrite app_nil_r|intros _; by apply adds_plain].
Qed.

(** The ids remembered are all that were asked to be deleted. *)
Lemma delete_servers_ids owned w ids w' id e :
  delete_servers owned w = (Ok ids, w') → Deleted Server id e ∈ log w' → Deleted Server id e ∈ log w ∨ id ∈ ids.
Proof.
  unfold delete_servers. intros (r & w1 & E1 & E2)%bind_inv_ok Hd.
  assert (Hw1 : Deleted Server id e ∈ log w1 → Deleted Server id e ∈ log w).
  { intros H. by destruct (appends_new log (λ r, ∃ l, r = Listed Server l) (All Server) w _ w1 _
      (adds_All (λ r, ∃ l, r = Listed Server l) Server (λ l, ex_intro _ l eq_refl)) E1 H) as [?|[? ?]]. }
  destruct r as [xs|err]; [|injection E2 as <- <-; auto].
  enough (H : Deleted Server id e ∈ log w1 ∨ id ∈ ids) by naive_solver.
  clear E1 Hw1 w. assert (Hsub : ∀ i, i ∈ (∅ : gset Z) → i ∈ ids) by set_solver.
  assert (Hgo : ∀ acc w1, foldM (λ ids x, b ← ownedByTarget owned (oLabels x);
      if (b : bool) then _ ← Delete_ Server (oID x); mret ({[oID x]} ∪ ids) else mret ids) xs acc w1 = (Ok ids, w') →
      acc ⊆ ids ∧ (Deleted Server id e ∈ log w1 ∨ id ∈ ids)); [|by eapply Hgo].
  clear E2 Hsub w1. induction xs as [|x xs IH]; intros acc w1; cbn [foldM].
  - intros [= <- <-]. auto.
  - intros (ids1 & w2 & E & [Hs Hor]%IH)%bind_inv_ok.
    apply bind_inv_ok in E as (b & w3 & Eb & E). pose proof (log_owned owned (oLabels x) w1) as Hl. rewrite Eb in Hl. cbn in Hl.
    destruct b; [|injection E as <- <-; rewrite Hl in Hor; auto].
    apply bind_inv_ok in E as (err & w4 & Ed & [= <- <-]). split; [set_solver|].
    destruct Hor as [Hor|]; [|by right].
    destruct (appends_new log (λ r, ∃ e, r = Deleted Server (oID x) e) _ w3 _ w4 _
        (adds_Delete (λ r, ∃ e, r = Deleted Server (oID x) e) Server (oID x) (λ e, ex_intro _ e eq_refl)) Ed Hor)
      as [?|[? [= -> ->]]]; [rewrite Hl in *; by left|right; set_solver].
Qed.
Lemma volumes_acted owned also w r w' xs x :
  delete_matching Volume owned also delete_volume w = (r, w') →
  Listed Volume xs ∈ log w' → ¬ Listed Volume xs ∈ log w → x ∈ xs → also x = true →
  ∃ e, Deleted Volume (oID x) e ∈ log w'.
Proof.
  unfold delete_matching. rewrite bind_run. unfold All at 1.
  destruct (listing Volume (site w)) as [[lr s] t]. intros E Hl Hno Hx Ha.
  assert (Hact : ∀ ys, adds (λ r, match r with Listed _ _ => False | _ => True end)
     (forM ys (λ x, b ← ownedByTarget owned (oLabels x); if (b : bool) || also x then delete_volume x else mret tt))).
  { intros ys. apply appends_forM. intros y _. apply appends_bind; [apply appends_none, log_owned|]. intros b.
    destruct (b || also y); [by apply adds_volume|by apply appends_none]. }
  destruct lr as [ys|err]; [|injection E as <- <-; cbn in Hl; by rewrite app_nil_r in Hl].
  assert (xs = ys) as ->.
  { destruct (appends_new log _ _ _ _ _ _ (Hact ys) E Hl) as [H|[]]. cbn in H. set_solver. }
  clear Hl Hno. revert E. generalize (does [Listed Volume ys] s t w) as w1.
  induction ys as [|y ys IH]; [by apply not_elem_of_nil in Hx|]. intros w1. cbn [forM]. rewrite bind_run.
  assert (Hset : ∀ y, settles (b ← ownedByTarget owned (oLabels y); if (b : bool) || also y then delete_volume y else mret tt))
    by (intros y'; walk_settles).
  apply elem_of_cons in Hx as [<- | Hx].
  - destruct (Hset x w1) as ([] & w2 & E2 & _). rewrite E2. intros E.
    enough (He : ∃ e, Deleted Volume (oID x) e ∈ log w2).
    { destruct He as [e He]. exists e. by eapply (appends_old _ _ _ _ _ _ _ (Hact ys) E). }
    clear E. rewrite bind_run in E2. destruct (ownedByTarget owned (oLabels x) w1) as [[b|err] w3]; [|done].
    rewrite Ha, orb_true_r in E2. unfold delete_volume, delete_plain in E2.
    apply bind_inv_ok in E2 as (u & w4 & _ & E2). apply bind_inv_ok in E2 as (err & w5 & Ed & [= <-]).
    unfold Delete_ in Ed. destruct (delete_object _ _ _) as [[r' s'] t']. injection Ed as <- <-.
    exists r'. cbn. set_solver.
  - destruct (Hset y w1) as ([] & w2 & -> & _). by apply IH.
Qed.

(** A volume attached to a server that this teardown asked to delete is detached and
    deleted too, whatever came of the deletion of the server: one that failed leaves the
    server running without its data. *)
Theorem undeleted_server_loses_volumes owned ips w r w' id e xs x :
  log w = [] → delete_all owned ips w = (r, w') →
  Deleted Server id e ∈ log w' → Listed Volume xs ∈ log w' → x ∈ xs → oServer x = Some id →
  ∃ e', Deleted Volume (oID x) e' ∈ log w'.
Proof.
  intros Hw E Hd Hl Hx Hs. unfold delete_all in E.
  assert (Hds : settles (delete_servers owned)) by walk_settles. destruct (Hds w) as (ids & w1 & E1 & _).
  rewrite (bind_ok _ _ _ _ _ E1) in E. rewrite bind_run in E.
  destruct (delete_matching LoadBalancer owned _ _ w1) as [[u|err] w2] eqn:E2.
  2:{ exfalso. assert (Hlb : settles (delete_matching LoadBalancer owned (matchesDrainedIP (orphan_ips ips)) (delete_plain LoadBalancer)))
        by walk_settles. destruct (Hlb w1) as (? & ? & ? & _). congruence. }
  rewrite bind_run in E. destruct (delete_matching Volume owned _ _ w2) as [rv w3] eqn:E3.
  assert (Hlb : adds elsewhere (delete_matching LoadBalancer owned (matchesDrainedIP (orphan_ips ips)) (delete_plain LoadBalancer))).
  { apply adds_matching; [done|]. intros. by apply adds_plain. }
  assert (Hno : ¬ Listed Volume xs ∈ log w2).
  { intros H. destruct (appends_new log _ _ _ _ _ _ Hlb E2 H) as [H1|[]].
    assert (Hsv : adds no_volume_listing (delete_servers owned)).
    { apply appends_bind; [by apply adds_All|]. intros [l|err]; [|by apply appends_none]. apply appends_foldM. intros ids' y.
      apply appends_bind; [apply appends_none, log_owned|]. intros [|]; [|by apply appends_none].
      apply appends_bind; [by apply adds_Delete|intros; by apply appends_none]. }
    destruct (appends_new log _ _ _ _ _ _ Hsv E1 H1) as [H2|[]]. rewrite Hw in H2. by apply not_elem_of_nil in H2. }
  assert (Hv : adds (λ r, match r with Deleted Server _ _ => False | _ => True end)
                 (delete_matching Volume owned (attached_to ids) delete_volume)).
  { apply adds_matching; [done|]. intros. by apply adds_volume. }
  destruct rv as [[]|err].
  2:{ exfalso. assert (Hset : settles (delete_matching Volume owned (attached_to ids) delete_volume)) by walk_settles.
      destruct (Hset w2) as (? & ? & ? & _). congruence. }
  assert (Hrest : adds elsewhere
    (delete_matching PlacementGroup owned (λ _, false) (delete_plain PlacementGroup) ;;
     delete_matching Firewall owned (λ _, false) (delete_plain Firewall) ;;
     delete_matching FloatingIP owned (λ _, false) (delete_plain FloatingIP) ;;
     delete_matching PrimaryIP owned (λ _, false) (delete_plain PrimaryIP) ;;
     delete_matching Network owned (λ _, false) delete_network)).
  { do 4 (apply appends_bind; [apply adds_matching; [done|]; intros; by apply adds_plain|intros _]).
    apply adds_matching; [done|]. intros. by apply adds_network. }
  assert (Hid : id ∈ ids).
  { destruct (appends_new log _ _ _ _ _ _ Hrest E Hd) as [H|[]]. destruct (appends_new log _ _ _ _ _ _ Hv E3 H) as [H1|[]].
    destruct (appends_new log _ _ _ _ _ _ Hlb E2 H1) as [H2|[]].
    destruct (delete_servers_ids _ _ _ _ _ _ E1 H2) as [H3|?]; [|done]. rewrite Hw in H3. by apply not_elem_of_nil in H3. }
  assert (Hl3 : Listed Volume xs ∈ log w3) by (by destruct (appends_new log _ _ _ _ _ _ Hrest E Hl) as [?|[]]).
  destruct (volumes_acted owned (attached_to ids) w2 _ w3 xs x E3 Hl3 Hno Hx) as [e' He'].
  { unfold attached_to. rewrite Hs. by apply bool_decide_eq_true_2. }
  exists e'. by eapply (appends_old _ _ _ _ _ _ _ Hrest E).
Qed.
End volumes.

(** ** The verdict *)

Section verdict.
Context {S : Site}.
Context (o : Orchestrator).
Implicit Types (w : @World S).
Abbreviation M A := (goM (@World S) string A).

Lemma settles_await_drained fuel base svcs d : settles (await_drained fuel base svcs d).
Proof. induction fuel; cbn [await_drained]; walk_settles. Qed.
Hint Resolve settles_await_drained : settles.

(** The provider's inventory can be read. *)
Definition listable : Prop := ∀ k s, ∃ l, (listing k s).1.1 = Ok l.
Lemma settles_discover targets : listable → settles (discoverInventory targets).
Proof.
  intros Hl. unfold discoverInventory. apply settles_bind; [|walk_settles]. apply settles_foldM. intros acc [[k n] p] w.
  unfold list_kind. rewrite bind_run. unfold All. destruct (Hl k (site w)) as [l El].
  destruct (listing k (site w)) as [[r s] t]. cbn in El. subst r. by eexists _, _.
Qed.
Lemma settles_deleteHetzner ips spokes :
  TrimSpace (ProviderToken o) ≠ "" → listable → settles (deleteHetznerResources o ips spokes).
Proof.
  intros Ht Hl. unfold deleteHetznerResources. rewrite (proj2 (String.eqb_neq _ _) Ht). intros w. rewrite bind_run.
  unfold attempt. destruct (settles_discover (ClusterName o :: spokes) Hl w) as (inv & w1 & -> & H1).
  match goal with |- ∃ a w', ?c w1 = _ ∧ _ => assert (Hs : settles c) by walk_settles end.
  destruct (Hs w1) as (a & w2 & E & H2). exists a, w2. split; [done|]. congruence.
Qed.

(** Once the provider's inventory can be read, a teardown that is given a kubeconfig
    reports that it completed, whatever came of it: every deletion may have failed, the
    cluster may have answered nothing, so that its spokes were never known, and no DNS
    record may have been released. *)
Theorem undone_reported_complete w :
  DNSOnly o = false → InfrastructureOnly o = false → reachable o = true →
  TrimSpace (ProviderToken o) ≠ "" → listable → Outstanding w = [] →
  ∃ w', Run o w = (Ok tt, w').
Proof.
  intros Hd Hi Hr Ht Hl Hw. unfold Run. rewrite Hd, Hi, Hr. cbn [negb andb]. rewrite bind_run. cbn [mret goM_ret].
  unfold dismantle.
  assert (Hstep : ∀ {A} (c : M A) (f : A → M unit), settles c →
    (∀ a w1, Outstanding w1 = [] → ∃ w2, f a w1 = (Ok tt, w2)) →
    ∀ w1, Outstanding w1 = [] → ∃ w2, (c ≫= f) w1 = (Ok tt, w2)).
  { intros A c f Hc Hf w1 H1. destruct (Hc w1) as (a & w2 & E & H2). rewrite (bind_ok _ _ _ _ _ E). apply Hf. congruence. }
  revert w Hw. apply Hstep; [walk_settles|intros asked]. cbn zeta. apply Hstep; [walk_settles|intros dns].
  apply Hstep; [walk_settles|intros ips]. apply Hstep; [walk_settles|intros _]. intros w1 H1. rewrite bind_run. unfold attempt.
  destruct (settles_deleteHetzner ips (match asked with [] => Spokes o | _ => asked end) Ht Hl w1) as (u & w2 & -> & H2).
  rewrite bind_run. cbn [mret goM_ret]. assert (H3 : Outstanding w2 = []) by congruence. revert w2 H2 H3. intros w2 _.
  revert w2. apply Hstep; [walk_settles|intros _]. apply Hstep; [walk_settles|intros _].
  intros w3 H3. unfold result_. rewrite bind_run. cbn [gets]. rewrite H3. by eexists.
Qed.

(** ** What is left on this machine *)

Lemma adds_command P args : (∀ r, P (Command args r)) → adds P (command args : M _).
Proof. intros HP. apply appends_one. intros w. unfold command. destruct (exec _ _) as [[r s] t]. by eexists. Qed.
Lemma removes_all (l : list string) w p : p ∈ l → Removed p ∈ log (forM l (Remove (S:=S)) w).2.
Proof.
  revert w. induction l as [|q l IH]; intros w Hp; [by apply not_elem_of_nil in Hp|]. cbn [forM].
  rewrite bind_run. cbn [Remove]. apply elem_of_cons in Hp as [-> | Hp]; [|by apply IH].
  assert (Ha : adds (λ _, True) (forM l (Remove (S:=S)))).
  { apply appends_forM. intros x _. apply appends_one. intros w1. by eexists. }
  match goal with |- _ ∈ log (forM l _ ?w1).2 => destruct (Ha w1) as (n & -> & _) end. cbn. set_solver.
Qed.

(** [c] ends, whatever happens in it, with a log that has [r]. *)
Definition logs {A} (r : Request) (c : M A) : Prop := ∀ w, r ∈ log (c w).2.
Lemma logs_first {A B} r (c : M A) (f : A → M B) : logs r c → (∀ a, adds (λ _, True) (f a)) → logs r (c ≫= f).
Proof.
  intros Hc Hf w. rewrite bind_run. specialize (Hc w). destruct (c w) as [[a|e] w1]; [|done]. cbn in Hc.
  destruct (Hf a w1) as (n & -> & _). set_solver.
Qed.
Definition answers {A} (c : M A) : Prop := ∀ w, ∃ a w', c w = (Ok a, w').
Lemma settles_answers {A} (c : M A) : settles c → answers c.
Proof. intros Hc w. destruct (Hc w) as (a & w' & E & _). by exists a, w'. Qed.
Lemma logs_answer {A B} r (c : M A) (f : A → M B) : answers c → (∀ a, logs r (f a)) → logs r (c ≫= f).
Proof. intros Hc Hf w. destruct (Hc w) as (a & w1 & E). rewrite (bind_ok _ _ _ _ _ E). apply Hf. Qed.
Lemma logs_then {A B} r (c : M A) (f : A → M B) : settles c → (∀ a, logs r (f a)) → logs r (c ≫= f).
Proof. intros Hc. by apply logs_answer, settles_answers. Qed.
Lemma answers_report l : answers (outstanding_add l : M unit).
Proof. intros w. by eexists _, _. Qed.
Lemma adds_runs (args : list string) : adds (λ _, True) (runs args : M unit).
Proof. apply appends_bind; [by apply adds_command|intros; by apply appends_none]. Qed.
Lemma adds_Remove p : adds (λ _, True) (Remove p : M unit).
Proof. apply appends_one. intros w. by eexists. Qed.
Lemma logs_localCleanup p : p ∈ (localArtifacts o ++ stateArtifacts o)%list → logs (Removed p) (localCleanup o : M unit).
Proof.
  intros Hp. unfold localCleanup. do 5 (apply logs_then; [walk_settles|intros _]).
  assert (Hconf : ∀ cs : list string, adds (λ _, True) (forM cs (λ c,
    runs ["kubectl"; "config"; "delete-context"; c] ;; runs ["kubectl"; "config"; "delete-cluster"; c] ;;
    runs ["kubectl"; "config"; "unset"; "users." +:+ c]) : M unit)).
  { intros cs. apply appends_forM. intros c _. do 2 (apply appends_bind; [apply adds_runs|intros _]). apply adds_runs. }
  apply elem_of_app in Hp as [Hp | Hp].
  - apply logs_first; [intros w; by apply removes_all|]. intros _.
    apply appends_bind; [apply appends_forM; intros; apply adds_Remove|intros _; apply Hconf].
  - apply logs_then; [walk_settles|intros _]. apply logs_first; [intros w; by apply removes_all|]. intros _. apply Hconf.
Qed.

(** A teardown that gets past its flags removes, whatever anything answers, the state
    files and the kubeconfigs of the cluster at both roots: also when the provider could
    not be read and nothing of the cluster was deleted. *)
Theorem local_state_removed w r w' p :
  DNSOnly o = false → reachable o = negb (InfrastructureOnly o) → Run o w = (r, w') →
  p ∈ (localArtifacts o ++ stateArtifacts o)%list → Removed p ∈ log w'.
Proof.
  intros Hd Hr E Hp. enough (H : logs (Removed p) (Run o : M unit)) by (specialize (H w); by rewrite E in H).
  clear E w r w'. unfold Run. rewrite Hd, Hr.
  assert (Hdis : logs (Removed p) (dismantle o : M unit)).
  { unfold dismantle. apply logs_then; [walk_settles|intros asked]. cbn zeta.
    do 3 (apply logs_then; [walk_settles|intros ?]).
    apply logs_answer; [intros w; unfold attempt; destruct (deleteHetznerResources _ _ _ w) as [res w']; by eexists _, _|].
    intros res. apply logs_answer; [destruct res; [apply settles_answers, settles_ret|apply answers_report]|intros _].
    apply logs_then; [walk_settles|intros _]. apply logs_first; [by apply logs_localCleanup|]. intros _. apply appends_none.
    intros w. unfold result_. rewrite bind_run. cbn [gets]. by destruct (Outstanding w). }
  destruct (InfrastructureOnly o); cbn [negb andb]; (apply logs_answer; [|done]);
    [apply answers_report|apply settles_answers, settles_ret].
Qed.
End verdict.

(** ** The records *)

Section records.
Context {S : Site}.
Implicit Types (w : @World S).
Abbreviation M A := (goM (@World S) string A).

Lemma log_do own method path w : log (do_ own method path w : result string (result string string) * World).2 = log w.
Proof. unfold do_. destruct (http _ _ _ _) as [[r s] t]. cbn. by rewrite app_nil_r. Qed.
Lemma claims_iff own t : claims own t = true ↔ rrType t = "TXT" ∧ List.Exists (λ v, txtOwner v = ownerID own) (rrRecords t).
Proof.
  unfold claims. rewrite andb_true_iff, String.eqb_eq, existsb_exists, List.Exists_exists.
  by setoid_rewrite String.eqb_eq.
Qed.
Lemma owned_names_iff rrs own h :
  h ∈ ownedRecordNames rrs own ↔
  ownerID own ≠ "" ∧ ∃ t, t ∈ rrs ∧ claims own t = true ∧ h = rr_host own (rrName t).
Proof.
  unfold ownedRecordNames. destruct (String.eqb_spec (ownerID own) "") as [->|Hne].
  - split; [set_solver|by intros [? _]].
  - rewrite elem_of_list_to_set, list_elem_of_fmap. setoid_rewrite list_elem_of_filter. naive_solver.
Qed.

(** One rrset: the request it makes, if it is taken for owned. *)
Lemma release_one_run own zone owned n rr w :
  ∃ n' w', release_one own zone owned n rr w = (Ok n', w')
    ∧ if decide (rr_host own (rrName rr) ∈ owned)
      then ∃ e, log w' = (log w ++ [Released zone (rrName rr) (rrType rr) e])%list ∧ (n' = match e with None => n + 1 | Some _ => n end)%Z
      else w' = w ∧ n' = n.
Proof.
  unfold release_one. case_decide; [|by eexists _, _]. rewrite bind_run.
  pose proof (log_do own "DELETE" ("/zones/" +:+ pretty zone +:+ "/rrsets/" +:+ rrName rr +:+ "/" +:+ rrType rr) w) as Hl.
  destruct (do_ _ _ _ w) as [[r|e] w1] eqn:E; [|exfalso; unfold do_ in E; by destruct (http _ _ _ _) as [[? ?] ?]].
  rewrite bind_run. cbn in Hl |- *. eexists _, _. split; [done|].
  destruct r as [b|e]; [exists None|exists (Some e)]; cbn; by rewrite Hl.
Qed.

(** The requests of the loop over the zone, in its order, and the count of those that
    succeeded. *)
Definition is_released (r : Request) : bool := match r with Released _ _ _ None => true | _ => false end.
Lemma release_fold own zone owned rrs n w :
  ∃ n' w' new, foldM (release_one own zone owned) rrs n w = (Ok n', w') ∧ log w' = (log w ++ new)%list
    ∧ Forall2 (λ rr r, ∃ e, r = Released zone (rrName rr) (rrType rr) e)
        (filter (λ rr, rr_host own (rrName rr) ∈ owned) rrs) new
    ∧ (n' = n + Z.of_nat (length (filter is_released new)))%Z.
Proof.
  revert n w. induction rrs as [|rr rrs IH]; intros n w; cbn [foldM].
  { exists n, w, []. rewrite app_nil_r. split_and!; [done|done|constructor|cbn; lia]. }
  destruct (release_one_run own zone owned n rr w) as (n1 & w1 & E1 & H1). rewrite (bind_ok _ _ _ _ _ E1).
  destruct (IH n1 w1) as (n2 & w2 & new & E2 & Hl & Hf & Hn). rewrite filter_cons. case_decide.
  - destruct H1 as (e & Hl1 & Hn1). exists n2, w2, (Released zone (rrName rr) (rrType rr) e :: new). split_and!; [done| | |].
    + by rewrite Hl, Hl1, <-app_assoc.
    + constructor; [by eexists|done].
    + subst n2 n1. destruct e; [rewrite filter_cons_False by (intros [])|rewrite filter_cons_True by exact I; cbn [length]]; lia.
  - destruct H1 as [-> ->]. by exists n2, w2, new.
Qed.
Lemma release_run own w :
  ∃ n w' new, releaseDNSRecords own w = (Ok n, w') ∧ log w' = (log w ++ new)%list
    ∧ ((n = 0%Z ∧ new = [])
       ∨ ∃ zone rrs rs, new = Zoned zone rrs :: rs
           ∧ Forall2 (λ rr r, ∃ e, r = Released zone (rrName rr) (rrType rr) e)
               (filter (λ rr, rr_host own (rrName rr) ∈ ownedRecordNames rrs own) rrs) rs
           ∧ n = Z.of_nat (length (filter is_released rs))).
Proof.
  unfold releaseDNSRecords. rewrite bind_run. unfold zoneID. rewrite bind_run.
  pose proof (log_do own "GET" "/zones?per_page=100" w) as Hl.
  destruct (do_ _ _ _ w) as [[r|e] w1] eqn:E; [|exfalso; unfold do_ in E; by destruct (http _ _ _ _) as [[? ?] ?]].
  cbn [mret goM_ret snd] in Hl |- *. match goal with |- context [match ?z with Some _ => _ | None => _ end] => destruct z as [[zone name]|] end.
  2:{ exists 0%Z, w1, []. rewrite app_nil_r. split_and!; [done|done|by left]. }
  rewrite bind_run. pose proof (log_do own "GET" ("/zones/" +:+ pretty zone +:+ "/rrsets?per_page=500") w1) as Hl2.
  destruct (do_ _ _ _ w1) as [[r2|e] w2] eqn:E2; [|exfalso; unfold do_ in E2; by destruct (http _ _ _ _) as [[? ?] ?]].
  cbn [snd] in Hl2. match goal with |- context [match ?z with Some _ => _ | None => _ end] => destruct z as [rrs|] end.
  2:{ exists 0%Z, w2, []. rewrite app_nil_r. split_and!; [done|congruence|by left]. }
  rewrite bind_run. cbn [note modify].
  destruct (release_fold own zone (ownedRecordNames rrs own) rrs 0 (does [Zoned zone rrs] (site w2) 0 w2))
    as (n & w3 & new & E3 & Hl3 & Hf & Hn).
  exists n, w3, (Zoned zone rrs :: new). split_and!; [done| |right; by exists zone, rrs, new].
  rewrite Hl3. cbn. rewrite <-app_assoc. cbn. congruence.
Qed.

(** The records a release asks to delete are exactly those of the zone it listed whose
    hostname, without the registry's prefixes, is that of a TXT record naming this box's
    owner id, each asked for once; and the number it answers is the number the API
    confirmed. *)
Theorem release_exact own w n w' :
  log w = [] → releaseDNSRecords own w = (Ok n, w') →
  (log w' = [] ∧ n = 0%Z)
  ∨ ∃ zone rrs rs, log w' = Zoned zone rrs :: rs
      ∧ Forall2 (λ rr r, ∃ e, r = Released zone (rrName rr) (rrType rr) e)
          (filter (λ rr, ownerID own ≠ ""
             ∧ List.Exists (λ t, (rrType t = "TXT" ∧ List.Exists (λ v, txtOwner v = ownerID own) (rrRecords t))
                                 ∧ rr_host own (rrName rr) = rr_host own (rrName t)) rrs) rrs) rs
      ∧ n = Z.of_nat (length (filter is_released rs)).
Proof.
  intros Hw E. destruct (release_run own w) as (n' & w1 & new & E' & Hl & H). rewrite E in E'. injection E' as <- <-.
  rewrite Hw in Hl. cbn in Hl. rewrite Hl. destruct H as [[-> ->] | (zone & rrs & rs & -> & Hf & Hn)]; [by left|right].
  exists zone, rrs, rs. split_and!; [done| |done]. erewrite list_filter_iff; [exact Hf|]. intros rr.
  rewrite owned_names_iff, Exists_exists. by setoid_rewrite claims_iff.
Qed.

(** A box that owns the hostname a-<h>, by the TXT record its registry writes for it,
    also asks to delete every record of the hostname <h>, whoever owns it: the registry's
    record for a-<h> reads as its record for the address of <h>. *)
Theorem foreign_record_released own w n w' zone rrs t rr h :
  log w = [] → releaseDNSRecords own w = (Ok n, w') → Zoned zone rrs ∈ log w' → ownerID own ≠ "" →
  t ∈ rrs → claims own t = true → rrName t = txtPrefix own +:+ "a-" +:+ h →
  rr ∈ rrs → rrName rr = h → rr_host own h = h →
  ∃ e, Released zone h (rrType rr) e ∈ log w'.
Proof.
  intros Hw E Hz Hid Ht Hc Htn Hrr Hn Hh. destruct (release_run own w) as (n' & w1 & new & E' & Hl & H).
  rewrite E in E'. injection E' as <- <-. rewrite Hw in Hl. cbn in Hl. rewrite Hl in Hz |- *.
  destruct H as [[_ ->] | (zone' & rrs' & rs & -> & Hf & _)]; [by apply not_elem_of_nil in Hz|].
  assert (Hsame : zone' = zone ∧ rrs' = rrs).
  { apply elem_of_cons in Hz as [[= -> ->] | Hz]; [done|]. exfalso. apply list_elem_of_lookup in Hz as [i Hi].
    apply Forall2_lookup_r with (i := i) (y := Zoned zone rrs) in Hf as (x & _ & e & ?); done. }
  destruct Hsame as [-> ->].
  assert (Hin : rr ∈ filter (λ rr, rr_host own (rrName rr) ∈ ownedRecordNames rrs own) rrs).
  { apply list_elem_of_filter. split; [|done]. apply owned_names_iff. split; [done|]. exists t. split_and!; [done|done|].
    unfold rr_host at 2. rewrite Htn, !TrimPrefix_app. by rewrite Hn. }
  apply list_elem_of_lookup in Hin as [i Hi].
  destruct (Forall2_lookup_l _ _ _ _ _ Hf Hi) as (r & Hr & e & ->). exists e. right. rewrite <-Hn. by eapply list_elem_of_lookup_2.
Qed.
End records.

(** ** The wait for the load balancers *)

Section drain.
Context {S : Site}.
Implicit Types (w : @World S).

Lemma clk_remaining base svcs t w : (t ≤ clk w)%Z → (t ≤ clk (remaining base svcs w).2)%Z.
Proof.
  assert (Hk : keeps (λ w : World, (t ≤ clk w)%Z) (remaining base svcs)); [|apply Hk].
  apply keeps_foldM. intros n [[ns nm] ips] _. apply keeps_bind; [|intros; apply keeps_ret].
  unfold still_there, kubectl. apply keeps_bind; [|intros; apply keeps_ret]. intros w1 H1. unfold command.
  destruct (exec _ _) as [[r s] d]. cbn. lia.
Qed.
Lemma await_drained_enough fuel k base svcs d w :
  (d ≤ clk w + 5 * second * Z.of_nat fuel)%Z →
  await_drained (Datatypes.S fuel + k) base svcs d w = await_drained (Datatypes.S fuel) base svcs d w.
Proof.
  revert w. induction fuel as [|fuel IH]; intros w Hd; cbn [await_drained Nat.add]; rewrite !bind_run; cbn [Now gets].
  { by rewrite (proj2 (Z.leb_le d (clk w))) by lia. }
  destruct (_ <=? _)%Z; [done|]. rewrite !bind_run.
  pose proof (clk_remaining base svcs (clk w) w ltac:(lia)) as Hc.
  destruct (remaining base svcs w) as [[n|e] w1]; [|done]. cbn in Hc. case_bool_decide; [done|].
  rewrite !bind_run. cbn [Sleep modify]. apply IH. cbn. unfold second in *. lia.
Qed.

(** The wait for the cluster to give up its load balancers ends within the 90 seconds
    it is given: with more turns than the nineteen of the model it would do the same,
    whatever the cluster answers and however long it takes to. *)
Theorem drain_wait_ends k base svcs w :
  let d := (clk w + 90 * second)%Z in
  await_drained 19 base svcs d w = await_drained (19 + k) base svcs d w.
Proof. cbn zeta. symmetry. apply (await_drained_enough 18). unfold second. lia. Qed.
End drain.
