(* ===== verification/TeardownWitness.v ===== *)
(** * TeardownWitness: the theorems on the teardown at one project.

    A hub with a server, its volume and a drained load balancer, and a spoke that the hub
    answers with; a provider that deletes, or refuses every deletion; a zone in which the
    box owns one hostname. *)

From S2P Require Import Prelude.
From S2P Require Import Bootstrap.
From S2P Require Import BootstrapCluster.
From S2P Require Import Teardown.
From S2P Require Import TeardownFacts.
From S2P Require Import TeardownReportFacts.

Local Open Scope string_scope.

(** What the provider holds, whether it deletes, and whether the cluster answers. *)
Record Project := mkProject { objects : list (Kind * Object); locked : bool; answering : bool }.
Definition held_kind (k : Kind) (s : Project) : list Object := omap (λ p, if decide (p.1 = k) then Some p.2 else None) (objects s).
Definition without (k : Kind) (id : Z) (s : Project) : Project :=
  mkProject (filter (λ p, ¬ (p.1 = k ∧ oID p.2 = id)) (objects s)) (locked s) (answering s).
Definition zone_records : list hetznerRRSet :=
  [mkRRSet "a-foo" "A" ["192.0.2.1"]; mkRRSet "foo" "A" ["192.0.2.2"];
   mkRRSet "extdns-a-foo" "TXT" ["heritage=external-dns,external-dns/owner=box"];
   mkRRSet "extdns-foo" "TXT" ["heritage=external-dns,external-dns/owner=other"]].
Definition answer (args : list string) : string :=
  if decide ("clusters.cluster.x-k8s.io" ∈ args) then "hub" +:+ newline +:+ "spoke"
  else if decide ("--all-namespaces" ∈ args) then "edge gateway 192.0.2.9"
  else "".
#[export] Instance project_site : Site := {|
  St := Project;
  exec args s := (if answering s then Ok (answer args) else Err "refused", s, 1%N);
  listing k s := (Ok (held_kind k s), s, 1%N);
  delete_object k id s := if locked s then (Some "locked", s, 1%N) else (None, without k id s, 1%N);
  detach_volume _ s := (s, 1%N);
  http method path _ s := (Ok (200%Z, path), s, 1%N);
  os_remove _ s := s;
  overslept _ := 0%N;
  getenv _ _ := "";
  parse_zones _ := Some [mkZone 7 "test"; mkZone 8 "example.test"];
  parse_rrsets _ := Some zone_records;
  b64decode s := Some s;
  range_labels n m := if Nat.even n then map_to_list m else reverse (map_to_list m) |}.
#[export] Instance project_site_laws : SiteLaws project_site.
Proof. intros n m. cbn. destruct (Nat.even n); [done|]. apply reverse_Permutation. Qed.

Definition labelled (c : string) : Labels := {[ownershipLabelPrefix +:+ c := lifecycleOwned]}.
Definition project (lock ans : bool) : Project :=
  mkProject [(Server, mkObject 1 "hub-cp" (labelled "hub") None None);
             (Server, mkObject 2 "other-cp" (labelled "other") None None);
             (Server, mkObject 3 "spoke-cp" (labelled "spoke") None None);
             (LoadBalancer, mkObject 4 "a-uid" ∅ (Some "192.0.2.9") None);
             (Volume, mkObject 5 "pvc" ∅ None (Some 1%Z))] lock ans.
Definition flags : Orchestrator :=
  mkOrchestrator "hub" (mkOverride "" "" "") false false "/hub.kubeconfig" "token" "/gitops" [].
Definition start (lock ans : bool) : World := mkWorld (project lock ans) 0 [] [] 0 0.
Definition ran (lock ans : bool) : result string unit * World := Run flags (start lock ans).
Lemma ran_pair lock ans : Run flags (start lock ans) = ((ran lock ans).1, (ran lock ans).2).
Proof. unfold ran. apply surjective_pairing. Qed.

Lemma shared_may_be_deleted_witness :
  let r := mkResource "network" "net" 1
             {[ownershipLabelPrefix +:+ "hub" := lifecycleOwned; ownershipLabelPrefix +:+ "spoke" := lifecycleShared]} in
  ∃ ls1 ls2, ls1 ≡ₚ map_to_list (rLabels r) ∧ ls2 ≡ₚ map_to_list (rLabels r)
    ∧ aEligible (attribute {["hub"; "spoke"]} ls1 r) = true ∧ aEligible (attribute {["hub"; "spoke"]} ls2 r) = false.
Proof.
  intros r. apply (shared_may_be_deleted {["hub"; "spoke"]} r "hub" "spoke"); [set_solver|set_solver|discriminate|reflexivity].
Defined.

Lemma deletions_justified_witness :
  Deleted Volume 5 None ∈ log (ran false true).2
  ∧ ∃ x, seen (log (ran false true).2) Volume x ∧ oID x = 5%Z
    ∧ (claimed flags (log (ran false true).2) x ∨ (Volume = LoadBalancer ∧ drained flags (log (ran false true).2) x)
       ∨ (Volume = Volume ∧ ∃ s, seen (log (ran false true).2) Server s ∧ claimed flags (log (ran false true).2) s
                                 ∧ oServer x = Some (oID s))).
Proof.
  assert (H : Deleted Volume 5 None ∈ log (ran false true).2).
  { eapply (list_elem_of_lookup_2 _ 46). vm_compute. reflexivity. }
  split; [exact H|].
  exact (deletions_justified flags (start false true) _ _ eq_refl (ran_pair false true) Volume 5%Z None H).
Defined.

(** The provider refuses every deletion: the server keeps running, its volume is asked for
    all the same. *)
Definition swept : result string unit * World := delete_all ["hub"; "spoke"] [] (start true true).
Lemma swept_pair : delete_all ["hub"; "spoke"] [] (start true true) = (swept.1, swept.2).
Proof. unfold swept. apply surjective_pairing. Qed.
Lemma undeleted_server_loses_volumes_witness :
  Deleted Server 1 (Some "locked") ∈ log swept.2 ∧ ∃ e', Deleted Volume 5 e' ∈ log swept.2.
Proof.
  assert (Hd : Deleted Server 1 (Some "locked") ∈ log swept.2).
  { eapply (list_elem_of_lookup_2 _ 1). vm_compute. reflexivity. }
  split; [exact Hd|].
  pose (x := mkObject 5 "pvc" ∅ None (Some 1%Z)).
  apply (undeleted_server_loses_volumes ["hub"; "spoke"] [] (start true true) swept.1 swept.2 1 (Some "locked") [x] x).
  - reflexivity.
  - exact swept_pair.
  - exact Hd.
  - eapply (list_elem_of_lookup_2 _ 4). vm_compute. reflexivity.
  - apply list_elem_of_here.
  - reflexivity.
Defined.

Lemma undone_reported_complete_witness :
  Deleted Server 1 (Some "locked") ∈ log (ran true true).2 ∧ ∃ w', Run flags (start true true) = (Ok tt, w').
Proof.
  split; [eapply (list_elem_of_lookup_2 _ 40); vm_compute; reflexivity|].
  apply (undone_reported_complete flags (start true true)); try reflexivity; [discriminate|].
  intros k s. eexists. reflexivity.
Defined.

Lemma local_state_removed_witness : Removed ".state/hub.json" ∈ log (ran true true).2.
Proof.
  refine (local_state_removed flags (start true true) _ _ _ eq_refl eq_refl (ran_pair true true) _).
  eapply (list_elem_of_lookup_2 _ 4). vm_compute. reflexivity.
Defined.

(** ** The zone *)

Definition box : dnsOwnership := mkOwnership "t" "box" "example.test" "extdns-".
Definition released : result string Z * World := releaseDNSRecords box (start false true).
Lemma released_run : releaseDNSRecords box (start false true) = (Ok 4%Z, released.2).
Proof. vm_compute. reflexivity. Qed.
Lemma released_listed : Zoned 8 zone_records ∈ log released.2.
Proof. eapply (list_elem_of_lookup_2 _ 0). vm_compute. reflexivity. Qed.

Lemma release_exact_witness :
  releaseDNSRecords box (start false true) = (Ok 4%Z, released.2)
  ∧ ((log released.2 = [] ∧ 4%Z = 0%Z)
     ∨ ∃ zone rrs rs, log released.2 = Zoned zone rrs :: rs
      ∧ Forall2 (λ rr r, ∃ e, r = Released zone (rrName rr) (rrType rr) e)
          (filter (λ rr, ownerID box ≠ ""
             ∧ List.Exists (λ t, (rrType t = "TXT" ∧ List.Exists (λ v, txtOwner v = ownerID box) (rrRecords t))
                                 ∧ rr_host box (rrName rr) = rr_host box (rrName t)) rrs) rrs) rs
      ∧ 4%Z = Z.of_nat (length (filter is_released rs))).
Proof.
  split; [apply released_run|].
  exact (release_exact box (start false true) 4%Z released.2 eq_refl released_run).
Defined.

Lemma foreign_record_released_witness : ∃ e, Released 8 "foo" "A" e ∈ log released.2.
Proof.
  apply (foreign_record_released box (start false true) 4%Z released.2 8 zone_records
           (mkRRSet "extdns-a-foo" "TXT" ["heritage=external-dns,external-dns/owner=box"])
           (mkRRSet "foo" "A" ["192.0.2.2"]) "foo" eq_refl released_run released_listed).
  - discriminate.
  - eapply (list_elem_of_lookup_2 _ 2). reflexivity.
  - vm_compute. reflexivity.
  - reflexivity.
  - eapply (list_elem_of_lookup_2 _ 1). reflexivity.
  - reflexivity.
  - vm_compute. reflexivity.
Defined.
