(* ===== verification/GoRuntime.v ===== *)
(** * GoRuntime: what the operators share of Go's library.

    Durations in nanoseconds with their width, the text of a duration, splitting and
    joining of texts, and errors: a message and the sentinel that errors.Is or the API
    machinery recognises through any number of wrappings. *)

From S2P Require Import Prelude.

Local Open Scope string_scope.

(** ** Durations and times *)

Definition ns_s : Z := 1000000000.
Definition ns_min : Z := (60 * ns_s)%Z.
Definition ns_hour : Z := (60 * ns_min)%Z.
Definition as_int64 (z : Z) : Z := ((z + 2^63) mod 2^64 - 2^63)%Z.
(** Time.Sub saturates. *)
Definition time_sub (a b : Z) : Z := Z.max (- 2^63) (Z.min (2^63 - 1) (a - b)).
(** A time as the API server keeps it: in seconds. *)
Definition to_wire (t : Z) : Z := (t / ns_s * ns_s)%Z.

Definition digit_of (c : Ascii.ascii) : option Z :=
  let n := Z.of_nat (Ascii.nat_of_ascii c) in if (48 <=? n)%Z && (n <=? 57)%Z then Some (n - 48)%Z else None.
Fixpoint leading_digits (s : string) : list Z * string :=
  match s with
  | String c s' => match digit_of c with
                   | Some d => let '(ds, rest) := leading_digits s' in (d :: ds, rest)
                   | None => ([], s)
                   end
  | EmptyString => ([], EmptyString)
  end.
Definition of_digits (ds : list Z) : Z := foldl (λ v d, 10 * v + d)%Z 0%Z ds.
(** The longest prefix with neither a digit nor a point, and the rest. *)
Fixpoint leading_unit (s : string) : string * string :=
  match s with
  | String c s' =>
      if Ascii.eqb c "." || match digit_of c with Some _ => true | None => false end then (EmptyString, s)
      else let '(u, rest) := leading_unit s' in (String c u, rest)
  | EmptyString => (EmptyString, EmptyString)
  end.
Definition micro : string := String (Ascii.ascii_of_nat 194) (String (Ascii.ascii_of_nat 181) "s").
Definition micro_greek : string := String (Ascii.ascii_of_nat 206) (String (Ascii.ascii_of_nat 188) "s").
Definition unit_ns (u : string) : option Z :=
  if String.eqb u "ns" then Some 1%Z
  else if String.eqb u "us" || String.eqb u micro || String.eqb u micro_greek then Some 1000%Z
  else if String.eqb u "ms" then Some 1000000%Z
  else if String.eqb u "s" then Some ns_s
  else if String.eqb u "m" then Some ns_min
  else if String.eqb u "h" then Some ns_hour
  else None.
(** One number with its unit, added to [d]. The fraction is exact where Go computes it in
    floating point. *)
Definition parse_part (d : Z) (s : string) : option (Z * string) :=
  let '(int, s1) := leading_digits s in
  let '(frac, s2) := match s1 with
                     | String "." s1' => leading_digits s1'
                     | _ => ([], s1)
                     end in
  match int, frac with
  | [], [] => None
  | _, _ =>
      let '(u, rest) := leading_unit s2 in
      match unit_ns u with
      | Some unit =>
          let v := (of_digits int * unit + of_digits frac * unit / 10 ^ Z.of_nat (length frac))%Z in
          if (2^63 <? of_digits int)%Z || (2^63 <? v)%Z || (2^63 <? d + v)%Z then None else Some (d + v, rest)%Z
      | None => None
      end
  end.
Fixpoint parse_parts (fuel : nat) (d : Z) (s : string) : option Z :=
  match s, fuel with
  | EmptyString, _ => Some d
  | _, O => None
  | _, S fuel => match parse_part d s with
                 | Some (d, rest) => parse_parts fuel d rest
                 | None => None
                 end
  end.
(** time.ParseDuration; each part takes at least one byte. *)
Definition ParseDuration (s : string) : option Z :=
  let '(neg, s) := match s with
                   | String "-" s' => (true, s')
                   | String "+" s' => (false, s')
                   | _ => (false, s)
                   end in
  if String.eqb s "0" then Some 0%Z
  else if String.eqb s "" then None
  else match parse_parts (String.length s) 0 s with
       | Some d => if neg then Some (- d)%Z else if (2^63 - 1 <? d)%Z then None else Some d
       | None => None
       end.

(** ** Texts *)

(** strings.Split on a longer separator: [skip] bytes of the last one are still to come. *)
Fixpoint split_seq (skip : nat) (s sep : string) : list string :=
  match s with
  | EmptyString => [EmptyString]
  | String c s' =>
      match skip with
      | S k => split_seq k s' sep
      | O => if String.prefix sep s then EmptyString :: split_seq (String.length sep - 1) s' sep
             else match split_seq 0 s' sep with
                  | w :: ws => String c w :: ws
                  | [] => [String c EmptyString]
                  end
      end
  end.
Definition nl : string := String (Ascii.ascii_of_nat 10) EmptyString.
Definition text (ls : list string) : string := String.concat "" ((λ l, l +:+ nl) <$> ls).

(** ** Errors *)

(** An error, and the sentinel errors.Is or the API machinery recognises in it. *)
Inductive sentinel := NoSentinel | ErrInvalidCredentials | NotFound | AlreadyExists | Conflict.
#[export] Instance sentinel_eq_dec : EqDecision sentinel.
Proof. solve_decision. Defined.
Record error := mkError { err_is : sentinel; Error : string }.
Definition Errorf (s : string) : error := mkError NoSentinel s.
(** fmt.Errorf("...: %w", err) *)
Definition wrapped {S A} (what : string) (m : goM S error A) : goM S error A := λ w,
  match m w with
  | (Err e, w') => (Err (mkError (err_is e) (what +:+ ": " +:+ Error e)), w')
  | r => r
  end.

Section wrapped_rules.
Context {S : Type}.

Lemma wrapped_run {A} what (m : goM S error A) w :
  wrapped what m w = match m w with
                     | (Err e, w') => (Err (mkError (err_is e) (what +:+ ": " +:+ Error e)), w')
                     | r => r
                     end.
Proof. reflexivity. Qed.
Lemma wrapped_inv {A} what (m : goM S error A) w a w' : wrapped what m w = (Ok a, w') → m w = (Ok a, w').
Proof. unfold wrapped. by destruct (m w) as [[b|e] w1]. Qed.
Lemma wrapped_state {A} what (m : goM S error A) w : (wrapped what m w).2 = (m w).2.
Proof. unfold wrapped. by destruct (m w) as [[b|e] w1]. Qed.
Lemma keeps_wrapped {A} J what (m : goM S error A) : keeps J m → keeps J (wrapped what m).
Proof. intros Hm w Hw. rewrite wrapped_state. by apply Hm. Qed.
Lemma appends_wrapped {Ev A} (log : S → list Ev) P what (m : goM S error A) :
  appends log P m → appends log P (wrapped what m).
Proof. intros Hm w. rewrite wrapped_state. apply Hm. Qed.
End wrapped_rules.
