(* ===== verification/SpokeIdentity.v ===== *)
(** * SpokeIdentity: the machine identities of spoke clusters.

    Models operators/spoke-identity-operator: internal/infisical/client.go and
    internal/controller/spokemachineidentity_controller.go. [Infisical] is the service,
    a state that answers each call as it likes and after any time, with the decoders of
    its replies; [World] is the Secrets and the SpokeMachineIdentity objects of the
    cluster, the working copy of the object a pass shares by pointer, the login token
    the client keeps, the clock, the outcomes of the calls to the API server and the log
    of what was asked and written. Reads are of the stored objects. *)

From S2P Require Import Prelude.
From S2P Require Import GoRuntime.

Local Open Scope string_scope.

(** ** The objects *)

Record OwnerReference := mkOwner { owner_Kind : string; owner_Name : string; owner_UID : string }.
Record Condition := mkCondition {
  Type_ : string;
  Status_ : bool;             (* metav1.ConditionTrue or ConditionFalse *)
  Reason : string;
  Message : string;
  LastTransitionTime : Z;
  ObservedGeneration : Z }.
Record RotationPolicy := mkRotation { Enabled : bool; Interval : string; OverlapPeriod : string }.
Record RevocationPolicy := mkRevocation { RevokeOnDelete : bool; GracePeriod : string }.
Record InfisicalConfig := mkInfisicalConfig {
  OrganizationID : string;
  cfg_ProjectID : string;
  cfg_SecretsProjectID : string;
  AuthMethod : string;
  ClientSecretTTL : string }.
Record SpokeMachineIdentitySpec := mkSpec {
  SpokeRef : string;
  spec_Infisical : InfisicalConfig;
  SecretName : string;
  Rotation : option RotationPolicy;
  Revocation : option RevocationPolicy }.
Record SpokeMachineIdentityStatus := mkStatus {
  IdentityID : string;
  ClientID : string;
  ClientSecretIDs : list string;
  Conditions : list Condition;
  LastRotated : option Z;
  NextRotation : option Z }.
Record SpokeMachineIdentity := mkSMI {
  Namespace : string;
  Name : string;
  Generation : Z;
  Finalizers : list string;
  DeletionTimestamp : option Z;
  OwnerReferences : list OwnerReference;
  Spec : SpokeMachineIdentitySpec;
  Status : SpokeMachineIdentityStatus }.
Record Secret := mkSecret {
  sec_Type : string;
  sec_Labels : gmap string string;
  sec_Annotations : gmap string string;
  sec_Owners : list OwnerReference;
  sec_Data : gmap string string }.
Abbreviation key := (string * string)%type.

Definition smiFinalizer : string := "identity.zeroops.io/finalizer".
Definition conditionTypeReady : string := "Ready".
Definition conditionTypeIdentityCreated : string := "IdentityProvisioned".
Definition conditionTypeRotationComplete : string := "RotationComplete".
Definition conditionTypeIssuerConfigured : string := "ClusterIssuerConfigured".
Definition identityHealthCheckInterval : Z := (5 * ns_min)%Z.
Definition clusterIssuerTemplate : string := "infrastructure-services".
Definition resource_set : string := "addons.cluster.x-k8s.io/resource-set".

(** ** The service *)

(** The calls of client.go, with what their path and body carry. *)
Inductive Call :=
| Login (clientID clientSecret : string)
| ListIdentities (orgID : string)
| GetUniversalAuth (identityID : string)
| CreateIdentity (name orgID : string)
| AttachUniversalAuth (identityID : string) (trusted : list string) (ttl maxTTL : Z)
| NewClientSecret (identityID : string) (numUsesLimit ttl : Z)
| RevokeClientSecret (identityID secretID : string)
| RemoveIdentity (identityID : string)
| GetIdentity (identityID : string)
| Grant (projectID identityID role : string)
| Unlock (identityID clientID : string).
Definition path (c : Call) : string * string :=
  let ua := "/api/v1/auth/universal-auth" in
  match c with
  | Login _ _ => ("POST", ua +:+ "/login")
  | ListIdentities org => ("GET", "/api/v1/identities?limit=100&orgId=" +:+ org)
  | GetUniversalAuth id => ("GET", ua +:+ "/identities/" +:+ id)
  | CreateIdentity _ _ => ("POST", "/api/v1/identities")
  | AttachUniversalAuth id _ _ _ => ("POST", ua +:+ "/identities/" +:+ id)
  | NewClientSecret id _ _ => ("POST", ua +:+ "/identities/" +:+ id +:+ "/client-secrets")
  | RevokeClientSecret id sid => ("POST", ua +:+ "/identities/" +:+ id +:+ "/client-secrets/" +:+ sid +:+ "/revoke")
  | RemoveIdentity id => ("DELETE", "/api/v1/identities/" +:+ id)
  | GetIdentity id => ("GET", "/api/v1/identities/" +:+ id)
  | Grant pid id _ => ("POST", "/api/v1/projects/" +:+ pid +:+ "/memberships/identities/" +:+ id)
  | Unlock _ _ => ("POST", ua +:+ "/sign-in/clear-lockout")
  end.

(** What the operator talks to: the service, with the token presented ("" for none), the
    decoders of the replies it reads, and the YAML decoder for a Secret document: its
    name and its stringData. *)
Class Infisical := {
  ISt : Type;
  exchange : string → Call → ISt → result string (Z * string) * ISt * N;
  decode_login : string → option (string * Z);
  decode_identities : string → option (list (string * string));
  decode_auth : string → option string;
  decode_identity : string → option string;
  decode_secret : string → option string;
  yaml_secret : string → option (string * gmap string string) }.

Inductive Event :=
| Asked (token : string) (c : Call) (r : result string (Z * string))
| Wrote (k : key) (s : Secret)
| StatusSet (k : key) (s : SpokeMachineIdentityStatus)
| Released (k : key).

(** The flags of the process and its environment. *)
Record SpokeMachineIdentityReconciler := mkSpokeReconciler {
  OrgID : string;
  ProjectID : string;
  SecretsProjectID : string;
  client_clientID : string;
  client_clientSecret : string;
  INFISICAL_URL : string;
  INFISICAL_CLIENT_ID : string;
  INFISICAL_CLIENT_SECRET : string }.

Section operator.
Context {I : Infisical}.

Record World := mkWorld {
  secrets : gmap key Secret;
  smis : gmap key SpokeMachineIdentity;
  smi : SpokeMachineIdentity;          (* the working copy *)
  service : ISt;
  now : Z;
  token : string;
  tokenExp : Z;
  faults : list outcome;
  log : list Event }.
Abbreviation M A := (goM World error A).

Definition with_smi (s : SpokeMachineIdentity) (w : World) : World :=
  mkWorld (secrets w) (smis w) s (service w) (now w) (token w) (tokenExp w) (faults w) (log w).
Definition with_token (t : string) (e : Z) (w : World) : World :=
  mkWorld (secrets w) (smis w) (smi w) (service w) (now w) t e (faults w) (log w).
Definition with_kube (ss : gmap key Secret) (ms : gmap key SpokeMachineIdentity) (l : list Event) (w : World) : World :=
  mkWorld ss ms (smi w) (service w) (now w) (token w) (tokenExp w) (faults w) (log w ++ l)%list.

Definition errorf {A} (s : string) : M A := throw (Errorf s).
(** c.HTTP.Do: the status and the body, or the error of the transport. *)
Definition Do (tok : string) (c : Call) : M (Z * string) := λ w,
  let '(r, s, t) := exchange tok c (service w) in
  let w' := mkWorld (secrets w) (smis w) (smi w) s (now w + Z.of_N t)%Z (token w) (tokenExp w) (faults w)
              (log w ++ [Asked tok c r])%list in
  match r with
  | Ok reply => (Ok reply, w')
  | Err e => (Err (Errorf e), w')
  end.
Definition decoded {A} (o : option A) : M A :=
  match o with Some a => mret a | None => errorf "decode" end.
Definition is_2xx (s : Z) : bool := (s =? 200)%Z || (s =? 201)%Z.

(** *** The cluster *)

Definition outcome_next : M outcome := λ w,
  let '(o, rest) := next_outcome (faults w) in
  (Ok o, mkWorld (secrets w) (smis w) (smi w) (service w) (now w) (token w) (tokenExp w) rest (log w)).
Definition unavailable : error := Errorf "the server is currently unable to handle the request".
Definition GetSecret (k : key) : M Secret :=
  o ← outcome_next;
  match o with
  | Done => s ← gets secrets;
            match s !! k with Some x => mret x | None => throw (mkError NotFound "not found") end
  | _ => throw unavailable
  end.
Definition GetSMI (k : key) : M SpokeMachineIdentity :=
  o ← outcome_next;
  match o with
  | Done => s ← gets smis;
            match s !! k with Some x => mret x | None => throw (mkError NotFound "not found") end
  | _ => throw unavailable
  end.
Definition put_secret (k : key) (x : Secret) : M unit :=
  modify (λ w, with_kube (<[k := x]> (secrets w)) (smis w) [Wrote k x] w).
(** A call that writes: it acts unless it was lost, and reports unless it was cut off. *)
Definition acting (act : M unit) : M unit :=
  o ← outcome_next;
  match o with
  | Done => act
  | Lost => throw unavailable
  | Unknown => _ ← attempt act; throw unavailable
  end.
Definition CreateSecret (k : key) (x : Secret) : M unit :=
  acting (s ← gets secrets;
          match s !! k with
          | Some _ => throw (mkError AlreadyExists "already exists")
          | None => put_secret k x
          end).
Definition UpdateSecret (k : key) (x : Secret) : M unit :=
  acting (s ← gets secrets;
          match s !! k with
          | Some _ => put_secret k x
          | None => throw (mkError NotFound "not found")
          end).
(** r.Update of the object: the metadata is stored, the status is not; an object marked
    for deletion goes with its last finalizer. *)
Definition UpdateSMI (x : SpokeMachineIdentity) : M unit :=
  let k := (Namespace x, Name x) in
  acting (s ← gets smis;
          match s !! k with
          | None => throw (mkError NotFound "not found")
          | Some old =>
              match DeletionTimestamp old, Finalizers x with
              | Some _, [] => modify (λ w, with_kube (secrets w) (delete k (smis w)) [Released k] w)
              | _, _ =>
                  modify (λ w, with_kube (secrets w)
                    (<[k := mkSMI (Namespace old) (Name old) (Generation old) (Finalizers x) (DeletionTimestamp old)
                              (OwnerReferences x) (Spec x) (Status old)]> (smis w)) [] w)
              end
          end).
Definition wire_condition (c : Condition) : Condition :=
  mkCondition (Type_ c) (Status_ c) (Reason c) (Message c) (to_wire (LastTransitionTime c)) (ObservedGeneration c).
Definition wire_status (s : SpokeMachineIdentityStatus) : SpokeMachineIdentityStatus :=
  mkStatus (IdentityID s) (ClientID s) (ClientSecretIDs s) (wire_condition <$> Conditions s)
    (to_wire <$> LastRotated s) (to_wire <$> NextRotation s).
Definition set_status (x : SpokeMachineIdentity) (s : SpokeMachineIdentityStatus) : SpokeMachineIdentity :=
  mkSMI (Namespace x) (Name x) (Generation x) (Finalizers x) (DeletionTimestamp x) (OwnerReferences x) (Spec x) s.
(** r.Status().Update(ctx, smi) *)
Definition StatusUpdate : M unit :=
  x ← gets smi;
  let k := (Namespace x, Name x) in
  acting (s ← gets smis;
          match s !! k with
          | None => throw (mkError NotFound "not found")
          | Some old => modify (λ w, with_kube (secrets w) (<[k := set_status old (wire_status (Status x))]> (smis w))
                                       [StatusSet k (wire_status (Status x))] w)
          end).
Definition update_status (f : SpokeMachineIdentityStatus → SpokeMachineIdentityStatus) : M unit :=
  modify (λ w, with_smi (set_status (smi w) (f (Status (smi w)))) w).

Context (r : SpokeMachineIdentityReconciler).

(** ** internal/infisical/client.go *)

Definition or_else (a b : string) : string := if String.eqb a "" then b else a.
Definition authenticate : M unit :=
  let clientID := or_else (client_clientID r) (INFISICAL_CLIENT_ID r) in
  let clientSecret := or_else (client_clientSecret r) (INFISICAL_CLIENT_SECRET r) in
  if String.eqb clientID "" || String.eqb clientSecret ""
  then errorf "INFISICAL_CLIENT_ID and INFISICAL_CLIENT_SECRET must be set"
  else
    reply ← wrapped "execute login request" (Do "" (Login clientID clientSecret));
    let '(status, body) := reply in
    if negb (status =? 200)%Z then errorf ("universal auth login failed: status " +:+ pretty status +:+ ": " +:+ body)
    else
      login ← wrapped "decode login response" (decoded (decode_login body));
      let '(accessToken, expiresIn) := login in
      t ← gets now;
      modify (with_token accessToken (t + as_int64 (expiresIn * ns_s))%Z).
Definition ensureAuthenticated : M unit :=
  w ← get;
  if negb (String.eqb (token w) "") && (now w + 5 * ns_min <? tokenExp w)%Z then mret () else authenticate.
Definition getToken : M string := ensureAuthenticated ;; gets token.

Definition ProbeIdentityLockout (clientID clientSecret : string) : M bool :=
  reply ← wrapped "execute probe login request" (Do "" (Login clientID clientSecret));
  let '(status, msg) := reply in
  if (status =? 200)%Z then mret false
  else if (status =? 401)%Z && Contains msg "temporarily locked" then mret true
  else if (status =? 401)%Z && Contains msg "Invalid credentials"
  then throw (mkError ErrInvalidCredentials ("invalid credentials for identity auth method: " +:+ msg))
  else errorf ("probe login failed: status " +:+ pretty status +:+ ": " +:+ msg).
Definition ClearLockout (identityID clientID : string) : M unit :=
  tok ← wrapped "authenticate" getToken;
  reply ← wrapped "execute clear lockout request" (Do tok (Unlock identityID clientID));
  let '(status, body) := reply in
  if is_2xx status then mret ()
  else if (status =? 400)%Z && (Contains body "not locked" || Contains body "lockout") then mret ()
  else errorf ("clear lockout failed: status " +:+ pretty status +:+ ": " +:+ body).

Fixpoint find_named (name : string) (l : list (string * string)) : string :=
  match l with
  | [] => ""
  | (id, n) :: l => if String.eqb n name then id else find_named name l
  end.
Definition findIdentityByName (name orgID : string) : M string :=
  tok ← gets token;
  reply ← Do tok (ListIdentities orgID);
  let '(status, body) := reply in
  if negb (status =? 200)%Z then errorf ("list identities failed: status " +:+ pretty status)
  else l ← decoded (decode_identities body); mret (find_named name l).
Definition getUniversalAuth (identityID : string) : M string :=
  tok ← gets token;
  reply ← Do tok (GetUniversalAuth identityID);
  let '(status, body) := reply in
  if negb (status =? 200)%Z then errorf ("get universal auth failed: status " +:+ pretty status)
  else decoded (decode_auth body).
Definition createIdentity (name orgID : string) : M string :=
  tok ← gets token;
  reply ← Do tok (CreateIdentity name orgID);
  let '(status, body) := reply in
  if negb (is_2xx status) then errorf ("create identity failed: status " +:+ pretty status +:+ ": " +:+ body)
  else decoded (decode_identity body).
Definition attachUniversalAuth (identityID : string) : M unit :=
  tok ← gets token;
  reply ← Do tok (AttachUniversalAuth identityID ["0.0.0.0/0"; "::/0"] 2592000 2592000);
  let '(status, body) := reply in
  if (status =? 400)%Z && Contains body "already" then mret ()
  else if negb (is_2xx status) then errorf ("attach universal auth failed: status " +:+ pretty status +:+ ": " +:+ body)
  else mret ().
Definition generateClientSecret (identityID : string) : M string :=
  tok ← gets token;
  reply ← Do tok (NewClientSecret identityID 0 0);
  let '(status, body) := reply in
  if negb (is_2xx status) then errorf ("generate client secret failed: status " +:+ pretty status +:+ ": " +:+ body)
  else decoded (decode_secret body).
Definition revokeClientSecret (identityID secretID : string) : M unit :=
  tok ← wrapped "authenticate" getToken;
  reply ← wrapped "execute revoke request" (Do tok (RevokeClientSecret identityID secretID));
  let '(status, body) := reply in
  if negb (is_2xx status) then errorf ("revoke client secret failed: status " +:+ pretty status +:+ ": " +:+ body)
  else mret ().

(** The identity's id and client id; the client secret of a new one is not used. *)
Definition GetOrCreateMachineIdentity (name orgID : string) : M (string * string) :=
  wrapped "authenticate" getToken ;;
  existing ← attempt (findIdentityByName name orgID);
  let found := match existing with Ok id => id | Err _ => "" end in
  if negb (String.eqb found "") then
    clientID ← wrapped "get universal auth for existing identity" (getUniversalAuth found);
    mret (found, clientID)
  else
    id ← wrapped "create machine identity" (createIdentity name orgID);
    wrapped "attach universal auth" (attachUniversalAuth id) ;;
    clientID ← wrapped "get client ID" (getUniversalAuth id);
    wrapped "generate client secret" (generateClientSecret id) ;;
    mret (id, clientID).
Definition GrantProjectAccess (identityID projectID role : string) : M unit :=
  tok ← wrapped "authenticate" getToken;
  reply ← wrapped "execute grant access request" (Do tok (Grant projectID identityID role));
  let '(status, body) := reply in
  if ((status =? 400)%Z || (status =? 409)%Z) && (Contains body "already" || Contains body "exists") then mret ()
  else if is_2xx status then mret ()
  else errorf ("grant project access failed: status " +:+ pretty status +:+ ": " +:+ body).
(** The new secret's id is never returned. *)
Definition RotateClientSecret (identityID oldSecretID : string) : M (string * string) :=
  secret ← wrapped "generate new client secret" (generateClientSecret identityID);
  (if negb (String.eqb oldSecretID "")
   then wrapped "revoke old client secret (new secret created)" (revokeClientSecret identityID oldSecretID)
   else mret ()) ;;
  mret ("", secret).
Definition RevokeAllClientSecrets (identityID : string) (secretIDs : list string) : M unit :=
  forM secretIDs (λ sid, wrapped ("revoke secret " +:+ sid) (revokeClientSecret identityID sid)).
Definition DeleteIdentity (identityID : string) : M unit :=
  tok ← wrapped "authenticate" getToken;
  reply ← wrapped "execute delete request" (Do tok (RemoveIdentity identityID));
  let '(status, body) := reply in
  if negb (status =? 200)%Z && negb (status =? 204)%Z
  then errorf ("delete identity failed: status " +:+ pretty status +:+ ": " +:+ body) else mret ().
Definition IdentityExists (identityID : string) : M bool :=
  tok ← wrapped "authenticate" getToken;
  reply ← wrapped "execute get identity request" (Do tok (GetIdentity identityID));
  let '(status, body) := reply in
  if (status =? 200)%Z then mret true
  else if (status =? 404)%Z then mret false
  else errorf ("get identity failed: status " +:+ pretty status +:+ ": " +:+ body).

(** ** internal/controller/spokemachineidentity_controller.go *)

Definition clusterIssuerURLFor : M string :=
  let v := TrimSpace (INFISICAL_URL r) in
  if negb (String.eqb v "") then mret v
  else errorf "INFISICAL_URL is not set, so the spoke's ClusterIssuer has no signer.".

Fixpoint put_condition (cond : Condition) (l : list Condition) : list Condition :=
  match l with
  | [] => [cond]
  | existing :: l =>
      if String.eqb (Type_ existing) (Type_ cond) then
        (if negb (Bool.eqb (Status_ existing) (Status_ cond)) || negb (String.eqb (Reason existing) (Reason cond))
         then cond else existing) :: l
      else existing :: put_condition cond l
  end.
Definition with_conditions (cs : list Condition) (s : SpokeMachineIdentityStatus) : SpokeMachineIdentityStatus :=
  mkStatus (IdentityID s) (ClientID s) (ClientSecretIDs s) cs (LastRotated s) (NextRotation s).
Definition setCondition (condType : string) (status : bool) (reason message : string) : M unit :=
  t ← gets now;
  x ← gets smi;
  update_status (λ s, with_conditions
    (put_condition (mkCondition condType status reason message t (Generation x)) (Conditions s)) s).

Definition spoke_wrapper (x : SpokeMachineIdentity) : string :=
  if String.eqb (SecretName (Spec x)) "" then SpokeRef (Spec x) +:+ "-machine-identity" else SecretName (Spec x).
Definition auth_name (x : SpokeMachineIdentity) : string := "smi-" +:+ SpokeRef (Spec x) +:+ "-auth".
Definition issuer_name (x : SpokeMachineIdentity) : string := SpokeRef (Spec x) +:+ "-cluster-issuer".
Definition data_at (k : string) (m : gmap string string) : string := default "" (m !! k).

(** A read that tells "not there" from a failure. *)
Definition lookup_secret (k : key) : M (option Secret) :=
  res ← attempt (GetSecret k);
  match res with
  | Ok x => mret (Some x)
  | Err e => if decide (err_is e = NotFound) then mret None else throw e
  end.

Fixpoint parse_docs (docs : list string) : option (string * string) :=
  match docs with
  | [] => None
  | doc :: docs =>
      match yaml_secret doc with
      | None => parse_docs docs
      | Some (name, stringData) =>
          if negb (String.eqb name "infisical-auth") then parse_docs docs
          else
            let id := data_at "client-id" stringData in
            let secret := data_at "client-secret" stringData in
            if negb (String.eqb id "") && negb (String.eqb secret "") then Some (id, secret) else parse_docs docs
      end
  end.
Definition parseIdentityAuthDoc (payload : string) : option (string * string) :=
  if String.eqb payload "" then None else parse_docs (split_seq 0 payload "---").
Definition identityCredentials (x : SpokeMachineIdentity) : M (option (string * string)) :=
  wrapper ← wrapped "read identity CRS wrapper" (lookup_secret (Namespace x, spoke_wrapper x));
  match wrapper ≫= λ s, parseIdentityAuthDoc (data_at "identity.yaml" (sec_Data s)) with
  | Some creds => mret (Some creds)
  | None =>
      auth ← wrapped "read identity auth secret" (lookup_secret (Namespace x, auth_name x));
      mret (auth ≫= λ s,
              let id := data_at "clientId" (sec_Data s) in
              let secret := data_at "clientSecret" (sec_Data s) in
              if negb (String.eqb id "") && negb (String.eqb secret "") then Some (id, secret) else None)
  end.

(** A probe, as its caller takes it: locked or not, or the credentials are defective. *)
Definition probe (clientID clientSecret what : string) : M (option bool) :=
  res ← attempt (ProbeIdentityLockout clientID clientSecret);
  match res with
  | Ok locked => mret (Some locked)
  | Err e =>
      if decide (err_is e = ErrInvalidCredentials)
      then setCondition conditionTypeReady false "AuthenticationDefect" (Error e) ;; mret None
      else throw (mkError (err_is e) (what +:+ ": " +:+ Error e))
  end.
Definition ensureIdentityUnlock : M unit :=
  x ← gets smi;
  if String.eqb (ClientID (Status x)) "" || String.eqb (IdentityID (Status x)) "" then mret ()
  else
    creds ← wrapped "read identity credentials" (identityCredentials x);
    match creds with
    | None => mret ()
    | Some (clientID, clientSecret) =>
        locked ← probe clientID clientSecret "probe identity lockout";
        match locked with
        | Some true =>
            wrapped "clear identity lockout" (ClearLockout (IdentityID (Status x)) clientID) ;;
            still ← probe clientID clientSecret "re-probe identity lockout after clear";
            match still with
            | Some true => errorf ("identity lockout not cleared: " +:+ clientID)
            | _ => mret ()
            end
        | _ => mret ()
        end
    end.

Definition handleDeletion : M Z :=
  x ← gets smi;
  if negb (bool_decide (smiFinalizer ∈ Finalizers x)) then mret 0%Z
  else
    (if negb (String.eqb (IdentityID (Status x)) "")
        && match Revocation (Spec x) with Some p => RevokeOnDelete p | None => false end
     then
       (match ClientSecretIDs (Status x) with
        | [] => mret ()
        | ids => RevokeAllClientSecrets (IdentityID (Status x)) ids
        end) ;;
       DeleteIdentity (IdentityID (Status x))
     else mret ()) ;;
    UpdateSMI (mkSMI (Namespace x) (Name x) (Generation x) (filter (λ f, f ≠ smiFinalizer) (Finalizers x))
                 (DeletionTimestamp x) (OwnerReferences x) (Spec x) (Status x)) ;;
    mret 0%Z.

Definition rotation_interval (p : RotationPolicy) : Z :=
  if String.eqb (Interval p) "" then (60 * 24 * ns_hour)%Z
  else match ParseDuration (Interval p) with Some d => d | None => (60 * 24 * ns_hour)%Z end.
(** The auth Secret: the keys of the new one are merged into what is stored. *)
Definition store_auth (x : SpokeMachineIdentity) (identityID secret : string) : M unit :=
  let k := (Namespace x, auth_name x) in
  let labels := {["identity.zeroops.io/spoke" := SpokeRef (Spec x); "identity.zeroops.io/type" := "machine-identity"]} in
  let annotations := {["identity.zeroops.io/identityId" := identityID]} in
  let stringData : gmap string string := {["clientId" := ClientID (Status x); "clientSecret" := secret]} in
  existing ← attempt (GetSecret k);
  match existing with
  | Ok old => wrapped "update auth secret"
                (UpdateSecret k (mkSecret (sec_Type old) labels annotations (sec_Owners old) (stringData ∪ sec_Data old)))
  | Err _ => wrapped "create auth secret" (CreateSecret k (mkSecret "Opaque" labels annotations [] stringData))
  end.
Definition handleRotation (identityID : string) : M bool :=
  x ← gets smi;
  match Rotation (Spec x) with
  | None => mret false
  | Some policy =>
      if negb (Enabled policy) then mret false
      else
        t ← gets now;
        if match NextRotation (Status x) with Some next => (t <? next)%Z | None => false end then mret false
        else
          let oldSecretID := match ClientSecretIDs (Status x) with id :: _ => id | [] => "" end in
          rotated ← wrapped "rotate client secret" (RotateClientSecret identityID oldSecretID);
          let newSecret := rotated.2 in
          t ← gets now;
          update_status (λ s, mkStatus (IdentityID s) (ClientID s) (ClientSecretIDs s) (Conditions s)
                                (Some t) (Some (t + rotation_interval policy)%Z)) ;;
          x ← gets smi;
          (if negb (String.eqb newSecret "") then store_auth x identityID newSecret else mret ()) ;;
          setCondition conditionTypeRotationComplete true "Rotated" "Client secret rotated" ;;
          mret false
  end.
Definition rotationCheckInterval : M Z :=
  x ← gets smi;
  t ← gets now;
  mret (match NextRotation (Status x) with
        | None => 5 * ns_min
        | Some next => let until := time_sub next t in
                       if until <? 5 * ns_min then ns_min else Z.quot until 4
        end)%Z.

Definition identity_doc (namespace clientID clientSecret : string) : list string :=
  ["apiVersion: v1"; "kind: Secret"; "metadata:"; "  name: infisical-auth"; "  namespace: " +:+ namespace;
   "type: Opaque"; "stringData:"; "  client-id: " +:+ clientID; "  client-secret: " +:+ clientSecret;
   "  clientSecret: " +:+ clientSecret].
Definition identityYAML (clientID clientSecret : string) : string :=
  text (identity_doc "platform-ops" clientID clientSecret ++ ["---"]
        ++ identity_doc "cert-manager" clientID clientSecret)%list.
(** A wrapper of one document: created, brought up to date, or left to another type. *)
Definition deliver (k : key) (owners : list OwnerReference) (doc payload what : string) : M unit :=
  existing ← attempt (GetSecret k);
  let create :=
    res ← attempt (CreateSecret k (mkSecret resource_set {[resource_set := "true"]} ∅ owners {[doc := payload]}));
    match res with
    | Ok _ => mret ()
    | Err e => if decide (err_is e = AlreadyExists) then mret ()
               else throw (mkError (err_is e) ("create " +:+ what +:+ ": " +:+ Error e))
    end in
  match existing with
  | Ok old =>
      if String.eqb (sec_Type old) resource_set then
        if String.eqb (data_at doc (sec_Data old)) payload then mret ()
        else wrapped ("update " +:+ what)
               (UpdateSecret k (mkSecret (sec_Type old) (sec_Labels old) (sec_Annotations old) (sec_Owners old) {[doc := payload]}))
      else create
  | Err _ => create
  end.
Definition ensureCRSWrapper : M unit :=
  x ← gets smi;
  auth ← wrapped ("read auth secret " +:+ auth_name x) (lookup_secret (Namespace x, auth_name x));
  match auth with
  | None => mret ()
  | Some auth =>
      deliver (Namespace x, spoke_wrapper x) (OwnerReferences x) "identity.yaml"
        (identityYAML (data_at "clientId" (sec_Data auth)) (data_at "clientSecret" (sec_Data auth)))
        "identity CRS wrapper"
  end.

Definition clusterIssuerYAML (url clientID projectID : string) : string :=
  text ["apiVersion: infisical-issuer.infisical.com/v1alpha1"; "kind: ClusterIssuer"; "metadata:";
        "  name: infisical-fleet-issuer"; "spec:"; "  url: " +:+ url; "  authentication:"; "    universalAuth:";
        "      clientId: " +:+ clientID; "      secretRef:"; "        name: infisical-auth"; "        key: client-secret";
        "  certificateTemplateName: " +:+ clusterIssuerTemplate; "  projectId: " +:+ projectID].
Definition issuer_project (x : SpokeMachineIdentity) : string := or_else (cfg_ProjectID (spec_Infisical (Spec x))) (ProjectID r).
Definition ensureClusterIssuerCRSWrapper : M unit :=
  x ← gets smi;
  let clientID := ClientID (Status x) in
  let projectID := issuer_project x in
  if String.eqb clientID "" || String.eqb projectID "" then mret ()
  else
    url ← clusterIssuerURLFor;
    deliver (Namespace x, issuer_name x) (OwnerReferences x) "cluster-issuer.yaml"
      (clusterIssuerYAML url clientID projectID) "ClusterIssuer CRS wrapper".

(** ** Reconcile *)

(** A step that fails the pass after noting the failure in the status. *)
Definition noting {A} (conds : error → M unit) (m : M A) : M A :=
  res ← attempt m;
  match res with
  | Ok a => mret a
  | Err e => conds e ;; _ ← attempt StatusUpdate; throw e
  end.
Definition adopt (id clientID : string) : M unit :=
  x ← gets smi;
  let identityReplaced := negb (String.eqb id "") && negb (String.eqb (IdentityID (Status x)) id) in
  let credentialMissing := negb (String.eqb id "") && match ClientSecretIDs (Status x) with [] => true | _ => false end in
  (if identityReplaced then update_status (λ s, mkStatus id clientID (ClientSecretIDs s) (Conditions s) (LastRotated s) (NextRotation s))
   else mret ()) ;;
  if identityReplaced || credentialMissing
  then update_status (λ s, mkStatus (IdentityID s) (ClientID s) [] (Conditions s) (LastRotated s) None)
  else mret ().
Definition projects (x : SpokeMachineIdentity) : list string :=
  [or_else (ProjectID r) (cfg_ProjectID (spec_Infisical (Spec x)));
   or_else (cfg_SecretsProjectID (spec_Infisical (Spec x))) (SecretsProjectID r)].
Definition grant_all (id : string) : M unit :=
  x ← gets smi;
  forM (projects x) (λ pid,
    if String.eqb pid "" then mret ()
    else noting (λ e, setCondition conditionTypeReady false "AccessFailed" (Error e)) (GrantProjectAccess id pid "admin")).
Definition check_drift (id : string) : M unit :=
  exists_ ← attempt (IdentityExists id);
  match exists_ with
  | Ok false => update_status (λ s, mkStatus "" "" (ClientSecretIDs s) (Conditions s) (LastRotated s) (NextRotation s))
  | _ => mret ()
  end.
(** The last part: drift, conditions, self-heal, status and the time of the next pass. *)
Definition finish_pass (id : string) : M Z :=
  check_drift id ;;
  setCondition conditionTypeReady true "Reconciled" "Machine Identity reconciled" ;;
  setCondition conditionTypeIdentityCreated true "Created" ("Identity " +:+ id +:+ " provisioned") ;;
  setCondition conditionTypeIssuerConfigured true "WrapperReady" "ClusterIssuer CRS wrapper rendered" ;;
  ensureIdentityUnlock ;;
  after ← rotationCheckInterval;
  StatusUpdate ;;
  mret (if (identityHealthCheckInterval <? after)%Z then identityHealthCheckInterval else after).
Definition reconcile_identity : M Z :=
  x ← gets smi;
  let identityName := "spoke-" +:+ SpokeRef (Spec x) in
  let orgID := or_else (OrgID r) (OrganizationID (spec_Infisical (Spec x))) in
  identity ← noting (λ e, setCondition conditionTypeReady false "IdentityFailed" (Error e) ;;
                          setCondition conditionTypeIdentityCreated false "IdentityFailed" (Error e))
               (GetOrCreateMachineIdentity identityName orgID);
  let '(id, clientID) := identity in
  adopt id clientID ;;
  grant_all id ;;
  requeue ← noting (λ e, setCondition conditionTypeReady false "RotationFailed" (Error e)) (handleRotation id);
  if (requeue : bool) then StatusUpdate ;; mret ns_min
  else
    noting (λ e, setCondition conditionTypeReady false "CRSWrapperFailed" (Error e)) ensureCRSWrapper ;;
    noting (λ e, setCondition conditionTypeIssuerConfigured false "ClusterIssuerWrapperFailed" (Error e))
      ensureClusterIssuerCRSWrapper ;;
    finish_pass id.
(** One pass; the answer is RequeueAfter. *)
Definition Reconcile (k : key) : M Z :=
  res ← attempt (GetSMI k);
  match res with
  | Err e => if decide (err_is e = NotFound) then mret 0%Z else throw e
  | Ok x =>
      modify (with_smi x) ;;
      match DeletionTimestamp x with
      | Some _ => handleDeletion
      | None =>
          if negb (bool_decide (smiFinalizer ∈ Finalizers x)) then
            wrapped "add finalizer"
              (UpdateSMI (mkSMI (Namespace x) (Name x) (Generation x) (Finalizers x ++ [smiFinalizer])%list
                            (DeletionTimestamp x) (OwnerReferences x) (Spec x) (Status x))) ;;
            mret 0%Z
          else reconcile_identity
      end
  end.
End operator.
