(* ===== verification/SpokeIdentityFacts.v ===== *)
(** * SpokeIdentityFacts: what a pass over a spoke's identity asks, writes and reports.

    A credential is minted by every pass and none is ever revoked; what is delivered to
    the spoke; when a lockout is cleared and an object released; and the states that no
    pass gets out of. *)

From S2P Require Import Prelude.
From S2P Require Import GoRuntime.
From S2P Require Import SpokeIdentity.

Local Open Scope string_scope.

Section basics.
Context {I : Infisical}.
Implicit Types (w : @World I) (x : SpokeMachineIdentity).
Abbreviation M A := (goM (@World I) error A).

(** A read whose answer is known to satisfy [Q]. *)
Lemma keeps_gets_bind {A B} J (f : World → A) (Q : A → Prop) (k : A → M B) :
  (∀ w, J w → Q (f w)) → (∀ a, Q a → keeps J (k a)) → keeps J (gets f ≫= k).
Proof. intros HQ Hk w Hw. rewrite bind_run. cbn. by apply Hk; [apply HQ|]. Qed.
Lemma appends_Do P tok c : (∀ rep, P (Asked tok c rep)) → appends log P (Do tok c : M _).
Proof.
  intros HP. apply appends_one. intros w. unfold Do. destruct (exchange tok c (service w)) as [[rep s] t].
  exists (Asked tok c rep). by destruct rep.
Qed.
Lemma appends_put P k s : P (Wrote k s) → appends log P (put_secret k s : M _).
Proof. intros HP. apply appends_one. intros w. by exists (Wrote k s). Qed.
Lemma log_outcome w : log (outcome_next w : result error outcome * World).2 = log w.
Proof. unfold outcome_next. by destruct (next_outcome (faults w)). Qed.
Lemma appends_outcome P : appends log P (outcome_next : M _).
Proof. apply appends_none, log_outcome. Qed.
Lemma appends_acting P (act : M unit) : appends log P act → appends log P (acting act).
Proof.
  intros Ha. apply appends_bind; [apply appends_outcome|]. intros [| |]; [done|by apply appends_none|].
  apply appends_bind; [by apply appends_attempt|intros _; by apply appends_none].
Qed.
End basics.

Create HintDb logs.
(** Programs that only append entries of one sort, by their text: the entries a program
    can make are left as goals. *)
Ltac walk_log :=
  repeat lazymatch goal with
    | |- appends _ _ (match ?x with _ => _ end) => destruct x
    | |- appends _ _ (let (_, _) := ?x in _) => destruct x
    | |- appends _ _ (_ ≫= _) => apply appends_bind
    | |- appends _ _ (attempt _) => apply appends_attempt
    | |- appends _ _ (wrapped _ _) => apply appends_wrapped
    | |- appends _ _ (acting _) => apply appends_acting
    | |- appends _ _ (forM _ _) => apply appends_forM
    | |- appends _ _ (Do _ _) => apply appends_Do
    | |- appends _ _ (put_secret _ _) => apply appends_put
    | |- appends _ _ outcome_next => apply appends_outcome
    | |- appends _ _ (mret _) => by apply appends_none
    | |- appends _ _ (throw _) => by apply appends_none
    | |- appends _ _ (gets _) => by apply appends_none
    | |- appends _ _ get => by apply appends_none
    | |- appends _ _ (update_status _) => by apply appends_none
    | |- appends _ _ (modify (with_smi _)) => by apply appends_none
    | |- appends _ _ (modify (with_token _ _)) => by apply appends_none
    | |- appends _ _ (modify (λ w, with_kube _ _ [] w)) => apply appends_none; intros ?; cbn; by rewrite app_nil_r
    | |- appends _ _ (modify (λ w, with_kube _ _ [?e] w)) => apply appends_one; intros ?; exists e; split; [done|]
    | |- appends _ _ (let x := _ in _) => cbn zeta
    | |- appends _ _ ((λ x, _) _) => cbn beta
    | |- appends _ _ ?c => first [ solve [eauto 2 with logs nocore] | let h := head_of c in unfold h ]
    | |- ∀ _, _ => intro
    end; try done.

(** What [E], a run, has added to the log. *)
Ltac grown E l H :=
  lazymatch type of E with
  | ?m ?w = (_, ?w') =>
      assert (∃ new, log w' = (log w ++ new)%list) as [l H]
        by (let Ha := fresh in assert (appends log (λ _, True) m) as Ha by walk_log;
            destruct (appends_run log _ _ _ _ _ Ha E) as (new & ? & _); by exists new)
  end.

Section log_facts.
Context {I : Infisical} (r : SpokeMachineIdentityReconciler).
Abbreviation M A := (goM (@World I) error A).

(** What a pass never does. *)
Definition is_reply (e : Event) : Prop := match e with Asked _ _ _ => True | _ => False end.
Lemma appends_getToken : appends log is_reply (getToken r : M _).
Proof. walk_log. Qed.
Lemma appends_Reconcile k : appends log (λ _, True) (Reconcile r k : M _).
Proof. walk_log. Qed.
End log_facts.

(** ** Rotation *)

Section rotation.
Context {I : Infisical} (r : SpokeMachineIdentityReconciler).
Implicit Types (w : @World I) (x : SpokeMachineIdentity).
Abbreviation M A := (goM (@World I) error A).

Definition no_ids (s : SpokeMachineIdentityStatus) : Prop := ClientSecretIDs s = [].
Definition revokes (e : Event) : Prop := match e with Asked _ (RevokeClientSecret _ _) _ => True | _ => False end.
(** No status records a client secret, and none was revoked so far. *)
Definition unrecorded w : Prop :=
  map_Forall (λ _ x, no_ids (Status x)) (smis w) ∧ Forall (λ e, ¬ revokes e) (log w).
Definition unrecorded_copy w : Prop := unrecorded w ∧ no_ids (Status (smi w)).

Lemma unrecorded_more w ss ms l :
  map_Forall (λ _ x, no_ids (Status x)) ms → Forall (λ e, ¬ revokes e) l → unrecorded w → unrecorded (with_kube ss ms l w).
Proof. intros Hms Hl [_ H]. split; [done|]. by apply Forall_app. Qed.
Lemma keeps_Do tok c : ¬ revokes (Asked tok c (Err "")) → keeps unrecorded_copy (Do tok c : M _).
Proof.
  intros Hc w [[Hs Hl] Hx]. unfold Do. destruct (exchange tok c (service w)) as [[rep s] t].
  assert (H : ¬ revokes (Asked tok c rep)) by (by destruct c).
  destruct rep; (split; [split; [done|]|done]); apply Forall_app; split; [done| |done|]; by apply Forall_singleton.
Qed.
Lemma keeps_outcome : keeps unrecorded_copy (outcome_next : M _).
Proof. intros w Hw. unfold outcome_next. by destruct (next_outcome (faults w)). Qed.
Lemma keeps_acting (act : M unit) : keeps unrecorded_copy act → keeps unrecorded_copy (acting act).
Proof.
  intros Ha. apply keeps_bind; [apply keeps_outcome|]. intros [| |]; [done|apply keeps_throw|].
  apply keeps_bind; [by apply keeps_attempt|intros _; apply keeps_throw].
Qed.
Lemma keeps_put k s : keeps unrecorded_copy (put_secret k s : M _).
Proof.
  intros w [Hw Hx]. split; [|done]. apply unrecorded_more; [apply Hw| |done]. apply Forall_singleton. by intros [].
Qed.
Lemma keeps_UpdateSMI x : keeps unrecorded_copy (UpdateSMI x : M _).
Proof.
  apply keeps_acting. intros w [Hw Hx]. rewrite bind_run. cbn.
  destruct (smis w !! (Namespace x, Name x)) as [old|] eqn:E; [|done].
  assert (Hold : no_ids (Status old)) by (by apply (proj1 Hw _ _ E)).
  destruct (DeletionTimestamp old), (Finalizers x); (split; [|done]); apply unrecorded_more; try done.
  all: try (apply map_Forall_insert_2; [done|apply Hw]).
  { apply map_Forall_delete, Hw. }
  apply Forall_singleton. by intros [].
Qed.
Lemma keeps_status_stored : keeps unrecorded_copy (StatusUpdate : M _).
Proof.
  apply (keeps_gets_bind _ smi (λ x, no_ids (Status x))); [by intros w [_ ?]|]. intros x Hx.
  apply keeps_acting. intros w [Hw Hc]. rewrite bind_run. cbn.
  destruct (smis w !! (Namespace x, Name x)) as [old|] eqn:E; [|done]. split; [|done]. apply unrecorded_more; [| |done].
  - by apply map_Forall_insert_2; [|apply Hw].
  - apply Forall_singleton. by intros [].
Qed.
Lemma keeps_update_status f : (∀ s, no_ids s → no_ids (f s)) → keeps unrecorded_copy (update_status f : M _).
Proof. intros Hf w [Hw Hx]. split; [apply Hw|]. by apply Hf. Qed.
Lemma keeps_token t e : keeps unrecorded_copy (modify (with_token t e) : M _).
Proof. intros w [Hw Hx]. by split. Qed.
End rotation.

#[export] Hint Resolve keeps_Do keeps_outcome keeps_put keeps_UpdateSMI keeps_status_stored keeps_token keeps_ret keeps_throw
  keeps_get keeps_gets : spokes.
Ltac walk_spokes :=
  repeat lazymatch goal with
    | |- keeps _ (match ?x with _ => _ end) => destruct x
    | |- keeps _ (let (_, _) := ?x in _) => destruct x
    | |- keeps _ (_ ≫= _) => apply keeps_bind
    | |- keeps _ (attempt _) => apply keeps_attempt
    | |- keeps _ (wrapped _ _) => apply keeps_wrapped
    | |- keeps _ (acting _) => apply keeps_acting
    | |- keeps _ (forM _ _) => apply keeps_forM
    | |- keeps _ (Do _ _) => apply keeps_Do
    | |- keeps _ (update_status _) => apply keeps_update_status
    | |- keeps _ (let x := _ in _) => cbn zeta
    | |- keeps _ ((λ x, _) _) => cbn beta
    | |- keeps _ ?c => first [ solve [eauto 2 with spokes nocore] | let h := head_of c in unfold h ]
    | |- ∀ _, _ => intro
    end; try done; try by intros [].

Section rotation_run.
Context {I : Infisical} (r : SpokeMachineIdentityReconciler).
Implicit Types (w : @World I) (x : SpokeMachineIdentity).
Abbreviation M A := (goM (@World I) error A).

Lemma keeps_noting {A} (conds : error → M unit) (m : M A) :
  (∀ e, keeps unrecorded_copy (conds e)) → keeps unrecorded_copy m → keeps unrecorded_copy (noting conds m).
Proof. intros Hc Hm. unfold noting. walk_spokes. Qed.
Lemma keeps_setCondition ty st re me : keeps unrecorded_copy (setCondition ty st re me : M _).
Proof. unfold setCondition. walk_spokes. Qed.
Lemma keeps_handleRotation id : keeps unrecorded_copy (handleRotation r id : M _).
Proof.
  apply (keeps_gets_bind _ smi (λ x, no_ids (Status x))); [by intros w [_ ?]|]. intros x Hx. rewrite Hx. cbn.
  unfold RotateClientSecret. cbn. walk_spokes.
Qed.
Lemma keeps_handleDeletion : keeps unrecorded_copy (handleDeletion r : M _).
Proof.
  apply (keeps_gets_bind _ smi (λ x, no_ids (Status x))); [by intros w [_ ?]|]. intros x Hx. rewrite Hx. walk_spokes.
Qed.
Lemma keeps_adopt id cid : keeps unrecorded_copy (adopt id cid : M _).
Proof. unfold adopt. walk_spokes. Qed.
Hint Resolve keeps_setCondition keeps_handleRotation keeps_handleDeletion keeps_adopt : spokes.
Lemma keeps_reconcile_identity : keeps unrecorded_copy (reconcile_identity r : M _).
Proof. unfold reconcile_identity, grant_all. walk_spokes. Qed.

Lemma GetSMI_inv k w x w1 :
  GetSMI k w = (Ok x, w1) → smis w !! k = Some x ∧ smis w1 = smis w ∧ log w1 = log w ∧ secrets w1 = secrets w.
Proof.
  unfold GetSMI. rewrite bind_run. unfold outcome_next. destruct (next_outcome (faults w)) as [[| |] rest]; try done.
  rewrite bind_run. cbn. destruct (smis w !! k) as [y|] eqn:E; [|done]. by intros [= <- <-].
Qed.
Lemma GetSMI_same k w res w1 : GetSMI k w = (res, w1) → smis w1 = smis w ∧ log w1 = log w.
Proof.
  unfold GetSMI. rewrite bind_run. unfold outcome_next. destruct (next_outcome (faults w)) as [[| |] rest];
    [|by intros [= <- <-]..]. rewrite bind_run. cbn. destruct (smis w !! k); by intros [= <- <-].
Qed.
Lemma keeps_Reconcile k : keeps unrecorded (Reconcile r k : M _).
Proof.
  intros w Hw. unfold Reconcile. rewrite bind_run. unfold attempt.
  destruct (GetSMI k w) as [res w1] eqn:E. destruct (GetSMI_same _ _ _ _ E) as [Hs Hl].
  assert (Hw1 : unrecorded w1) by (unfold unrecorded; by rewrite Hs, Hl).
  destruct res as [x|e]; [|by destruct (decide _)]. apply GetSMI_inv in E as (E & _).
  rewrite bind_run. cbn [modify].
  assert (Hc : unrecorded_copy (with_smi x w1)) by (split; [done|]; by apply (proj1 Hw _ _ E)).
  match goal with |- unrecorded (?c _).2 => assert (Hk : keeps unrecorded_copy c) end.
  { destruct (DeletionTimestamp x); [apply keeps_handleDeletion|]. destruct (negb _); [walk_spokes|apply keeps_reconcile_identity]. }
  apply (Hk _ Hc).
Qed.
End rotation_run.

(** ** The client's calls leave the cluster alone *)

Section frame.
Context {I : Infisical} (r : SpokeMachineIdentityReconciler).
Implicit Types (w : @World I) (x : SpokeMachineIdentity).
Abbreviation M A := (goM (@World I) error A).

Definition same_cluster w0 w : Prop :=
  smi w = smi w0 ∧ secrets w = secrets w0 ∧ smis w = smis w0 ∧ faults w = faults w0.
Definition only_asks {A} (m : M A) : Prop := ∀ w, same_cluster w (m w).2.
Lemma asks_ret {A} (a : A) : only_asks (mret a).
Proof. by intros w. Qed.
Lemma asks_throw {A} e : only_asks (throw e : M A).
Proof. by intros w. Qed.
Lemma asks_gets {A} (f : World → A) : only_asks (gets f).
Proof. by intros w. Qed.
Lemma asks_get : only_asks get.
Proof. by intros w. Qed.
Lemma asks_token t e : only_asks (modify (with_token t e)).
Proof. by intros w. Qed.
Lemma asks_Do tok c : only_asks (Do tok c).
Proof. intros w. unfold Do. destruct (exchange tok c (service w)) as [[[rep|e] s] t]; done. Qed.
Lemma asks_bind {A B} (m : M A) (f : A → M B) : only_asks m → (∀ a, only_asks (f a)) → only_asks (m ≫= f).
Proof.
  intros Hm Hf w. specialize (Hm w). rewrite bind_run. destruct (m w) as [[a|e] w1]; [|done].
  destruct Hm as (? & ? & ? & ?), (Hf a w1) as (? & ? & ? & ?). cbn in *. repeat split; congruence.
Qed.
Lemma asks_wrapped {A} what (m : M A) : only_asks m → only_asks (wrapped what m).
Proof. intros Hm w. specialize (Hm w). unfold wrapped. by destruct (m w) as [[a|e] w1]. Qed.
Lemma asks_attempt {A} (m : M A) : only_asks m → only_asks (attempt m).
Proof. intros Hm w. specialize (Hm w). unfold attempt. by destruct (m w) as [res w1]. Qed.
Lemma asks_forM {A} (l : list A) (f : A → M unit) : (∀ a, only_asks (f a)) → only_asks (forM l f).
Proof. intros Hf. induction l as [|a l IH]; cbn [forM]; [apply asks_ret|]. by apply asks_bind. Qed.
Lemma noting_inv {A} conds (m : M A) w a w' : noting conds m w = (Ok a, w') → m w = (Ok a, w').
Proof.
  unfold noting. rewrite bind_run. unfold attempt. destruct (m w) as [[b|e] w1]; [done|].
  intros (? & ? & _ & H)%bind_inv_ok. apply bind_inv_ok in H as (? & ? & _ & [=]).
Qed.
End frame.

#[export] Hint Resolve asks_ret asks_throw asks_gets asks_get asks_token asks_Do : asks.
Ltac walk_asks :=
  repeat lazymatch goal with
    | |- only_asks (match ?x with _ => _ end) => destruct x
    | |- only_asks (let (_, _) := ?x in _) => destruct x
    | |- only_asks (_ ≫= _) => apply asks_bind
    | |- only_asks (attempt _) => apply asks_attempt
    | |- only_asks (wrapped _ _) => apply asks_wrapped
    | |- only_asks (forM _ _) => apply asks_forM
    | |- only_asks (let x := _ in _) => cbn zeta
    | |- only_asks ((λ x, _) _) => cbn beta
    | |- only_asks ?c => first [ solve [eauto 2 with asks nocore] | let h := head_of c in unfold h ]
    | |- ∀ _, _ => intro
    end; try done.

Section asks_facts.
Context {I : Infisical} (r : SpokeMachineIdentityReconciler).
Implicit Types (w : @World I) (x : SpokeMachineIdentity).
Abbreviation M A := (goM (@World I) error A).

Lemma asks_getToken : only_asks (getToken r : M _).
Proof. walk_asks. Qed.
Lemma asks_GetOrCreate name org : only_asks (GetOrCreateMachineIdentity r name org : M _).
Proof. walk_asks. Qed.
Lemma asks_Grant id pid role : only_asks (GrantProjectAccess r id pid role : M _).
Proof. walk_asks. Qed.
Lemma asks_Rotate id old : only_asks (RotateClientSecret r id old : M _).
Proof. walk_asks. Qed.
Lemma asks_IdentityExists id : only_asks (IdentityExists r id : M _).
Proof. walk_asks. Qed.
Lemma asks_Probe cid cs : only_asks (ProbeIdentityLockout cid cs : M _).
Proof. walk_asks. Qed.
Lemma asks_ClearLockout id cid : only_asks (ClearLockout r id cid : M _).
Proof. walk_asks. Qed.
Lemma asks_DeleteIdentity id : only_asks (DeleteIdentity r id : M _).
Proof. walk_asks. Qed.
Lemma asks_run {A} (m : M A) w res w' : only_asks m → m w = (res, w') → same_cluster w w'.
Proof. intros Hm E. specialize (Hm w). by rewrite E in Hm. Qed.
Lemma same_cluster_trans w1 w2 w3 : same_cluster w1 w2 → same_cluster w2 w3 → same_cluster w1 w3.
Proof. intros (? & ? & ? & ?) (? & ? & ? & ?). repeat split; congruence. Qed.
Lemma grant_all_inv id w w' : grant_all r id w = (Ok (), w') → same_cluster w w'.
Proof.
  unfold grant_all. intros (x & w0 & [= <- <-] & E)%bind_inv_ok. revert E. generalize (projects r (smi w)) as l.
  intros l. revert w. induction l as [|pid l IH]; intros w; cbn [forM].
  - by intros [= <-].
  - intros ([] & w1 & E1 & E2)%bind_inv_ok. eapply same_cluster_trans; [|by apply IH].
    destruct (String.eqb pid ""); [by injection E1 as <-|]. apply noting_inv in E1.
    by eapply asks_run; [apply asks_Grant|].
Qed.
End asks_facts.

(** ** The steps of a pass that succeeds *)

Section passes.
Context {I : Infisical} (r : SpokeMachineIdentityReconciler).
Implicit Types (w : @World I) (x : SpokeMachineIdentity).
Abbreviation M A := (goM (@World I) error A).

Definition adopted (id cid : string) (s : SpokeMachineIdentityStatus) : SpokeMachineIdentityStatus :=
  let s' := if negb (String.eqb id "") && negb (String.eqb (IdentityID s) id)
            then mkStatus id cid (ClientSecretIDs s) (Conditions s) (LastRotated s) (NextRotation s) else s in
  if negb (String.eqb id "")
     && (negb (String.eqb (IdentityID s) id) || match ClientSecretIDs s with [] => true | _ => false end)
  then mkStatus (IdentityID s') (ClientID s') [] (Conditions s') (LastRotated s') None else s'.
Definition now_adopted (id cid : string) w : World := with_smi (set_status (smi w) (adopted id cid (Status (smi w)))) w.
Lemma set_status_id x : set_status x (Status x) = x.
Proof. by destruct x. Qed.
Lemma with_smi_id w : with_smi (smi w) w = w.
Proof. by destruct w. Qed.
Lemma adopt_run id cid w : adopt id cid w = (Ok (), now_adopted id cid w).
Proof.
  unfold adopt, now_adopted, adopted. rewrite bind_run. cbn [gets]. rewrite bind_run.
  destruct (String.eqb id ""); cbn [negb andb orb].
  { cbn. by rewrite set_status_id, with_smi_id. }
  destruct (String.eqb (IdentityID (Status (smi w))) id); cbn [negb andb orb]; [|done].
  destruct (ClientSecretIDs (Status (smi w))); cbn; [done|]. by rewrite set_status_id, with_smi_id.
Qed.
Lemma handleRotation_false id w b w' : handleRotation r id w = (Ok b, w') → b = false.
Proof.
  unfold handleRotation. intros (x & w0 & [= <- <-] & E)%bind_inv_ok. destruct (Rotation (Spec (smi w))); [|by injection E].
  destruct (negb _); [by injection E|]. apply bind_inv_ok in E as (t & w0 & [= <- <-] & E).
  destruct (match NextRotation _ with Some _ => _ | None => _ end); [by injection E|].
  apply bind_inv_ok in E as (? & ? & _ & E). apply bind_inv_ok in E as (? & ? & _ & E).
  apply bind_inv_ok in E as (? & ? & _ & E). apply bind_inv_ok in E as (? & ? & _ & E).
  apply bind_inv_ok in E as (? & ? & _ & E). apply bind_inv_ok in E as (? & ? & _ & E). by injection E.
Qed.

Definition identity_name x : string := "spoke-" +:+ SpokeRef (Spec x).
Definition org x : string := or_else (OrgID r) (OrganizationID (spec_Infisical (Spec x))).
Lemma live_inv w n w' :
  reconcile_identity r w = (Ok n, w') →
  ∃ id cid w1 w2 w3 w4 w5,
    GetOrCreateMachineIdentity r (identity_name (smi w)) (org (smi w)) w = (Ok (id, cid), w1)
    ∧ grant_all r id (now_adopted id cid w1) = (Ok (), w2)
    ∧ handleRotation r id w2 = (Ok false, w3)
    ∧ ensureCRSWrapper w3 = (Ok (), w4)
    ∧ ensureClusterIssuerCRSWrapper r w4 = (Ok (), w5)
    ∧ finish_pass r id w5 = (Ok n, w').
Proof.
  unfold reconcile_identity. intros (x & w0 & [= <- <-] & E)%bind_inv_ok. cbn zeta in E.
  apply bind_inv_ok in E as ([id cid] & w1 & E1%noting_inv & E). rewrite (bind_ok _ _ _ _ _ (adopt_run id cid w1)) in E.
  apply bind_inv_ok in E as ([] & w2 & E2 & E). apply bind_inv_ok in E as (b & w3 & E3%noting_inv & E).
  pose proof (handleRotation_false _ _ _ _ E3) as ->. cbn in E.
  apply bind_inv_ok in E as ([] & w4 & E4%noting_inv & E). apply bind_inv_ok in E as ([] & w5 & E5%noting_inv & E).
  by exists id, cid, w1, w2, w3, w4, w5.
Qed.

(** A reply the operator takes for a new client secret of [id]. *)
Definition mints (id secret : string) (e : Event) : Prop :=
  ∃ tok st body, e = Asked tok (NewClientSecret id 0 0) (Ok (st, body)) ∧ is_2xx st = true ∧ decode_secret body = Some secret.
Lemma generate_inv id w secret w' :
  generateClientSecret id w = (Ok secret, w') → ∃ e, log w' = (log w ++ [e])%list ∧ mints id secret e.
Proof.
  unfold generateClientSecret. intros (tok & w0 & [= <- <-] & E)%bind_inv_ok.
  apply bind_inv_ok in E as ([st body] & w1 & E1 & E). destruct (is_2xx st) eqn:Es; [|done]. cbn in E.
  unfold Do in E1. destruct (exchange _ _ _) as [[rep s] t]. destruct rep as [rep|]; [|done]. injection E1 as -> <-.
  unfold decoded in E. destruct (decode_secret body) eqn:Ed; [|done]. injection E as <- <-. eexists. split; [done|].
  by eexists _, _, _.
Qed.
Lemma Rotate_inv id w p w' :
  RotateClientSecret r id "" w = (Ok p, w') → ∃ e, log w' = (log w ++ [e])%list ∧ mints id p.2 e.
Proof.
  unfold RotateClientSecret. intros (secret & w1 & E1%wrapped_inv & E)%bind_inv_ok. cbn in E. injection E as <- <-.
  by apply generate_inv.
Qed.
(** A rotation that is due. *)
Definition rotating x : Prop :=
  match Rotation (Spec x) with Some p => Enabled p = true | None => False end ∧ no_ids (Status x) ∧ NextRotation (Status x) = None.
Lemma handleRotation_inv id w w' :
  rotating (smi w) → handleRotation r id w = (Ok false, w') →
  ∃ p w1 secret s w2, RotateClientSecret r id "" w = (Ok p, w1) ∧ p.2 = secret
    ∧ smi s = set_status (smi w) (Status (smi s)) ∧ ClientID (Status (smi s)) = ClientID (Status (smi w))
    ∧ secrets s = secrets w ∧ smis s = smis w ∧ faults s = faults w ∧ log s = log w1
    ∧ (if negb (String.eqb secret "") then store_auth (smi s) id secret s = (Ok (), w2) else w2 = s)
    ∧ setCondition conditionTypeRotationComplete true "Rotated" "Client secret rotated" w2 = (Ok (), w').
Proof.
  intros (HR & Hids & HN). unfold handleRotation. intros (x & w0 & [= <- <-] & E)%bind_inv_ok.
  destruct (Rotation (Spec (smi w))) as [pol|]; [|done]. rewrite HR in E. cbn [negb] in E.
  apply bind_inv_ok in E as (t & w0 & [= <- <-] & E). rewrite HN, Hids in E.
  apply bind_inv_ok in E as (p & w1 & E1%wrapped_inv & E). cbn zeta in E.
  apply bind_inv_ok in E as (t & w0 & [= <- <-] & E). rewrite bind_run in E. cbn [update_status modify] in E.
  match type of E with context [with_smi ?a w1] => set (s := with_smi a w1) in E end.
  apply bind_inv_ok in E as (x & w0 & [= <- <-] & E). apply bind_inv_ok in E as ([] & w2 & E2 & E).
  apply bind_inv_ok in E as ([] & w3 & E3 & [= <-]).
  destruct (asks_run _ _ _ _ (asks_Rotate r id "") E1) as (Hsmi & Hsec & Hsmis & Hf).
  exists p, w1, p.2, s, w2. split_and!; try done.
  3: { destruct (negb _); [exact E2|by injection E2]. }
  all: cbn; rewrite ?Hsmi; done.
Qed.
End passes.

(** ** Histories *)

Section history.
Context {I : Infisical} (r : SpokeMachineIdentityReconciler).
Implicit Types (w : @World I) (x : SpokeMachineIdentity).
Abbreviation M A := (goM (@World I) error A).

(** Whatever else happens in the cluster, at the service and to the process between two
    passes; the status of an object is this operator's alone. *)
Definition outside w w' : Prop :=
  log w' = log w
  ∧ map_Forall (λ k x, Status x = mkStatus "" "" [] [] None None
                       ∨ ∃ x0, smis w !! k = Some x0 ∧ Status x = Status x0) (smis w').
Inductive history w : World → Prop :=
| h_start : history w w
| h_pass w1 k : history w w1 → history w (Reconcile r k w1).2
| h_outside w1 w2 : history w w1 → outside w1 w2 → history w w2.

Lemma history_unrecorded w w' : unrecorded w → history w w' → unrecorded w'.
Proof.
  intros Hw. induction 1 as [|w1 k _ IH|w1 w2 _ IH [Hl Hs]]; [done|by apply keeps_Reconcile|].
  destruct IH as [Hm Hlog]. split; [|by rewrite Hl]. intros k x Hx.
  destruct (Hs k x Hx) as [Hst | (x0 & H0 & Hst)]; unfold no_ids; rewrite Hst; [done|]. by apply (Hm k x0).
Qed.
Definition rotation_on x : bool := match Rotation (Spec x) with Some p => Enabled p | None => false end.
Definition live x : Prop := DeletionTimestamp x = None ∧ smiFinalizer ∈ Finalizers x.
Lemma Reconcile_live_inv k w x n w' :
  smis w !! k = Some x → live x → Reconcile r k w = (Ok n, w') →
  ∃ w1, smi w1 = x ∧ secrets w1 = secrets w ∧ smis w1 = smis w ∧ log w1 = log w
    ∧ (faults w = [] → faults w1 = []) ∧ reconcile_identity r w1 = (Ok n, w').
Proof.
  intros Hx [Hd Hf]. unfold Reconcile. rewrite bind_run. unfold attempt. destruct (GetSMI k w) as [res w1] eqn:E.
  destruct (GetSMI_same _ _ _ _ E) as [Hs Hl]. destruct res as [y|e].
  - destruct (GetSMI_inv _ _ _ _ E) as (Hy & _ & _ & Hsec). assert (y = x) as -> by congruence.
    rewrite bind_run. cbn [modify]. rewrite Hd, bool_decide_true by done. cbn [negb]. intros E'.
    exists (with_smi x w1). split_and!; try done. intros Hf0. cbn. unfold GetSMI in E. rewrite bind_run in E.
    unfold outcome_next in E. rewrite Hf0 in E. cbn in E. rewrite bind_run in E. cbn in E. rewrite Hx in E. by injection E as <-.
  - intros E'. exfalso. unfold GetSMI in E. rewrite bind_run in E. unfold outcome_next in E.
    destruct (next_outcome (faults w)) as [[| |] rest]; [|injection E as <- <-; done..].
    rewrite bind_run in E. cbn in E. by rewrite Hx in E.
Qed.
Lemma adopted_rotating id cid x :
  id ≠ "" → no_ids (Status x) → rotation_on x = true → rotating (set_status x (adopted id cid (Status x))).
Proof.
  intros Hid Hn HR. unfold rotating, adopted. rewrite (proj2 (String.eqb_neq _ _) Hid), Hn, orb_true_r. cbn [negb andb].
  split_and!; [|done|done]. unfold rotation_on in HR. cbn. by destruct (Rotation (Spec x)).
Qed.

(** A new identity is made with a client secret of its own. *)
Definition asks_secret (e : Event) : Prop := ∃ id secret, mints id secret e.
Lemma GetOrCreate_id name o w id cid w' :
  GetOrCreateMachineIdentity r name o w = (Ok (id, cid), w') →
  id ≠ "" ∨ ∃ new, log w' = (log w ++ new)%list ∧ List.Exists asks_secret new.
Proof.
  unfold GetOrCreateMachineIdentity. intros (tok & w1 & E1 & E)%bind_inv_ok.
  apply bind_inv_ok in E as (ex & w2 & E2 & E). cbn zeta in E.
  destruct (String.eqb_spec (match ex with Ok id => id | Err _ => "" end) "") as [_|Hne]; cbn [negb] in E.
  2:{ left. apply bind_inv_ok in E as (c & w3 & _ & [= <- <-]). done. }
  right. apply bind_inv_ok in E as (i & w3 & E3 & E). apply bind_inv_ok in E as ([] & w4 & E4 & E).
  apply bind_inv_ok in E as (c & w5 & E5 & E). apply bind_inv_ok in E as (s & w6 & E6%wrapped_inv & [= <- <- <-]).
  destruct (generate_inv _ _ _ _ E6) as (e & He & Hm).
  grown E1 l1 H1. grown E2 l2 H2.
  grown E3 l3 H3. grown E4 l4 H4.
  grown E5 l5 H5.
  exists (l1 ++ l2 ++ l3 ++ l4 ++ l5 ++ [e])%list. split.
  - rewrite He, H5, H4, H3, H2, H1. by rewrite <-!app_assoc.
  - rewrite !List.Exists_app. do 5 right. constructor. by eexists _, _.
Qed.

(** Over every history no client secret is ever revoked, and every pass over a live
    object with rotation on that succeeds asks for another one, however recently it was
    rotated: the ids of the secrets made are never recorded, and an object without any is
    taken for one that still has no credential. *)
Theorem rotates_every_pass w0 w k x n w' :
  unrecorded w0 → history w0 w → smis w !! k = Some x → live x → rotation_on x = true →
  Reconcile r k w = (Ok n, w') →
  Forall (λ e, ¬ revokes e) (log w')
  ∧ ∃ new, log w' = (log w ++ new)%list ∧ List.Exists asks_secret new.
Proof.
  intros H0 Hh Hx Hlive HR E. pose proof (history_unrecorded _ _ H0 Hh) as Hu. split.
  { pose proof (keeps_Reconcile r k w Hu) as [_ H]. by rewrite E in H. }
  destruct (Reconcile_live_inv _ _ _ _ _ Hx Hlive E) as (w1 & Hsmi & _ & _ & Hl & _ & El). rewrite <-Hl.
  destruct (live_inv _ _ _ _ El) as (id & cid & wa & wb & wc & wd & we & E1 & E2 & E3 & E4 & E5 & E6).
  grown E4 l4 H4. grown E5 l5 H5.
  grown E6 l6 H6. grown E3 l3 H3.
  grown E2 l2 H2. grown E1 l1 H1.
  exists (l1 ++ l2 ++ l3 ++ l4 ++ l5 ++ l6)%list. split.
  { rewrite H6, H5, H4, H3, H2. cbn [now_adopted with_smi log]. rewrite H1. by rewrite <-!app_assoc. }
  rewrite !List.Exists_app. destruct (GetOrCreate_id _ _ _ _ _ _ E1) as [Hid | (new & Hn & Hex)].
  2:{ left. rewrite H1 in Hn. by apply app_inv_head in Hn as ->. }
  right; right; left.
  destruct (asks_run _ _ _ _ (asks_GetOrCreate r _ _) E1) as (Hs1 & _ & _ & _).
  destruct (grant_all_inv _ _ _ _ E2) as (Hs2 & _ & _ & _). cbn in Hs2.
  assert (Hrot : rotating (smi wb)).
  { rewrite Hs2, Hs1, Hsmi. apply adopted_rotating; [done| |done]. by apply (proj1 Hu k). }
  destruct (handleRotation_inv _ _ _ _ Hrot E3) as (p & wp & secret & s & w2 & Er & _ & _ & _ & _ & _ & _ & Hls & Est & Ec).
  destruct (Rotate_inv _ _ _ _ _ Er) as (e & He & Hm).
  assert (Hw2 : ∃ l, log w2 = (log s ++ l)%list).
  { destruct (negb _); [grown Est l7 H7; by exists l7|exists []; rewrite app_nil_r; by subst]. }
  destruct Hw2 as [l7 H7]. grown Ec l8 H8.
  rewrite H8, H7, Hls, He, <-!app_assoc in H3. apply app_inv_head in H3 as <-. constructor. by eexists _, _.
Qed.
End history.
