(* ===== verification/SpokeDeliveryFacts.v ===== *)
(** * SpokeDeliveryFacts: what reaches the spoke, and what a pass leaves behind.

    The credential a pass delivers; the issuer it never half renders; the grounds of a
    cleared lockout and of a released object; and the objects no pass ever completes. *)

From S2P Require Import Prelude.
From S2P Require Import GoRuntime.
From S2P Require Import SpokeIdentity.
From S2P Require Import SpokeIdentityFacts.

Local Open Scope string_scope.

Lemma append_last a b c d : a +:+ String c "" = b +:+ String d "" → c = d.
Proof.
  revert b. induction a as [|ch a IH]; intros [|ch' b]; cbn.
  - by intros [= ->].
  - intros [= _ H]. by destruct b.
  - intros [= _ H]. by destruct a.
  - intros [= _ H]. by eapply IH.
Qed.
Lemma auth_not_issuer x : auth_name x ≠ issuer_name x.
Proof.
  unfold auth_name, issuer_name. intros H.
  assert (E : (("smi-" +:+ SpokeRef (Spec x) +:+ "-aut") +:+ String "h" "")
            = ((SpokeRef (Spec x) +:+ "-cluster-issue") +:+ String "r" "")) by (by rewrite <-!str_app_assoc).
  by apply append_last in E.
Qed.

(** ** The cluster without faults *)

Section calm.
Context {I : Infisical} (r : SpokeMachineIdentityReconciler).
Implicit Types (w : @World I) (x : SpokeMachineIdentity).
Abbreviation M A := (goM (@World I) error A).

Lemma calm_outcome w : faults w = [] → outcome_next w = (Ok Done, w).
Proof. intros Hf. destruct w; cbn in *. by subst. Qed.
Lemma calm_GetSecret k w :
  faults w = [] → GetSecret k w = (match secrets w !! k with
                                   | Some s => Ok s
                                   | None => Err (mkError NotFound "not found")
                                   end, w).
Proof.
  intros Hf. unfold GetSecret. rewrite (bind_ok _ _ _ _ _ (calm_outcome w Hf)), bind_run. cbn.
  by destruct (secrets w !! k).
Qed.
Definition stored (k : key) (s : Secret) w : World := with_kube (<[k := s]> (secrets w)) (smis w) [Wrote k s] w.
Lemma calm_CreateSecret k s w :
  faults w = [] → CreateSecret k s w = match secrets w !! k with
                                       | Some _ => (Err (mkError AlreadyExists "already exists"), w)
                                       | None => (Ok (), stored k s w)
                                       end.
Proof.
  intros Hf. unfold CreateSecret, acting. rewrite (bind_ok _ _ _ _ _ (calm_outcome w Hf)), bind_run. cbn.
  by destruct (secrets w !! k).
Qed.
Lemma calm_UpdateSecret k s w :
  faults w = [] → UpdateSecret k s w = match secrets w !! k with
                                       | Some _ => (Ok (), stored k s w)
                                       | None => (Err (mkError NotFound "not found"), w)
                                       end.
Proof.
  intros Hf. unfold UpdateSecret, acting. rewrite (bind_ok _ _ _ _ _ (calm_outcome w Hf)), bind_run. cbn.
  by destruct (secrets w !! k).
Qed.

(** [w'] has [doc] with the content [payload] in the Secret [k], and is otherwise [w]. *)
Definition holds (k : key) (Q : gmap string string → Prop) w w' : Prop :=
  (∃ s, secrets w' !! k = Some s ∧ Q (sec_Data s))
  ∧ (∀ k', k' ≠ k → secrets w' !! k' = secrets w !! k') ∧ faults w' = faults w ∧ smi w' = smi w ∧ smis w' = smis w.
Lemma holds_stored k Q s w : Q (sec_Data s) → holds k Q w (stored k s w).
Proof.
  intros HQ. split_and!; try done; [exists s; cbn; by rewrite lookup_insert_eq|].
  intros k' Hk. cbn. by rewrite lookup_insert_ne.
Qed.
Lemma store_auth_calm x id secret w w' :
  faults w = [] → store_auth x id secret w = (Ok (), w') →
  holds (Namespace x, auth_name x)
    (λ d, data_at "clientId" d = ClientID (Status x) ∧ data_at "clientSecret" d = secret) w w'.
Proof.
  intros Hf. unfold store_auth. rewrite bind_run. unfold attempt. rewrite calm_GetSecret by done.
  destruct (secrets w !! _) as [old|] eqn:Es; intros E%wrapped_inv.
  - rewrite calm_UpdateSecret, Es in E by done. injection E as <-. apply holds_stored. cbn.
    unfold data_at. by erewrite !lookup_union_Some_l by reflexivity.
  - rewrite calm_CreateSecret, Es in E by done. injection E as <-. apply holds_stored. cbn.
    done.
Qed.
Lemma deliver_calm k owners doc payload what w w' :
  faults w = [] → (∀ s, secrets w !! k = Some s → sec_Type s = resource_set) →
  deliver k owners doc payload what w = (Ok (), w') → holds k (λ d, data_at doc d = payload) w w'.
Proof.
  intros Hf Ht. unfold deliver. rewrite bind_run. unfold attempt at 1. rewrite calm_GetSecret by done.
  destruct (secrets w !! k) as [old|] eqn:Es.
  - rewrite (Ht old eq_refl), String.eqb_refl. destruct (String.eqb_spec (data_at doc (sec_Data old)) payload) as [Hd|].
    { intros [= <-]. split_and!; try done. by exists old. }
    intros E%wrapped_inv. rewrite calm_UpdateSecret, Es in E by done. injection E as <-. apply holds_stored. cbn.
    unfold data_at. by rewrite lookup_singleton_eq.
  - rewrite bind_run. unfold attempt. rewrite calm_CreateSecret, Es by done. intros [= <-]. apply holds_stored. cbn.
    unfold data_at. by rewrite lookup_singleton_eq.
Qed.
Lemma setCondition_run ty st re me w :
  setCondition ty st re me w
  = (Ok (), with_smi (set_status (smi w) (with_conditions
       (put_condition (mkCondition ty st re me (now w) (Generation (smi w))) (Conditions (Status (smi w)))) (Status (smi w)))) w).
Proof. reflexivity. Qed.
End calm.

(** ** Programs that write no Secret *)

Section no_writes.
Context {I : Infisical} (r : SpokeMachineIdentityReconciler) (ss : gmap key Secret).
Implicit Types (w : @World I) (x : SpokeMachineIdentity).
Abbreviation M A := (goM (@World I) error A).
Definition secrets_are w : Prop := secrets w = ss.
Lemma kept_outcome : keeps secrets_are (outcome_next : M _).
Proof. intros w Hw. unfold outcome_next. by destruct (next_outcome (faults w)). Qed.
Lemma kept_asks {A} (m : M A) : only_asks m → keeps secrets_are m.
Proof. intros Hm w Hw. destruct (Hm w) as (_ & Hs & _). unfold secrets_are. by rewrite Hs. Qed.
Lemma kept_update_status f : keeps secrets_are (update_status f : M _).
Proof. by intros w. Qed.
Lemma kept_kube f : keeps secrets_are (modify (λ w, with_kube (secrets w) (f w).1 (f w).2 w) : M _).
Proof. by intros w. Qed.
End no_writes.
#[export] Hint Resolve kept_outcome kept_update_status keeps_ret keeps_throw keeps_get keeps_gets : kept.
Ltac walk_kept :=
  repeat lazymatch goal with
    | |- keeps _ (match ?x with _ => _ end) => destruct x
    | |- keeps _ (let (_, _) := ?x in _) => destruct x
    | |- keeps _ (_ ≫= _) => apply keeps_bind
    | |- keeps _ (attempt _) => apply keeps_attempt
    | |- keeps _ (wrapped _ _) => apply keeps_wrapped
    | |- keeps _ (Do _ _) => apply kept_asks, asks_Do
    | |- keeps _ (modify (with_token _ _)) => by intros ?
    | |- keeps _ (modify (λ w, with_kube (secrets w) _ _ w)) => by intros ?
    | |- keeps _ (let x := _ in _) => cbn zeta
    | |- keeps _ ((λ x, _) _) => cbn beta
    | |- keeps _ ?c => first [ solve [eauto 2 with kept nocore] | let h := head_of c in unfold h ]
    | |- ∀ _, _ => intro
    end; try done.

Section delivery.
Context {I : Infisical} (r : SpokeMachineIdentityReconciler).
Implicit Types (w : @World I) (x : SpokeMachineIdentity).
Abbreviation M A := (goM (@World I) error A).

Lemma finish_secrets id w n w' : finish_pass r id w = (Ok n, w') → secrets w' = secrets w.
Proof.
  intros E. assert (Hk : keeps (secrets_are (secrets w)) (finish_pass r id : M _)) by walk_kept.
  specialize (Hk w eq_refl). by rewrite E in Hk.
Qed.
Lemma lookup_secret_calm k w :
  faults w = [] → lookup_secret k w = (Ok (secrets w !! k), w).
Proof.
  intros Hf. unfold lookup_secret. rewrite bind_run. unfold attempt. rewrite calm_GetSecret by done.
  destruct (secrets w !! k); [done|]. by rewrite decide_True.
Qed.
Lemma ensureCRSWrapper_calm w auth w' :
  faults w = [] → secrets w !! (Namespace (smi w), auth_name (smi w)) = Some auth →
  (∀ s, secrets w !! (Namespace (smi w), spoke_wrapper (smi w)) = Some s → sec_Type s = resource_set) →
  ensureCRSWrapper w = (Ok (), w') →
  holds (Namespace (smi w), spoke_wrapper (smi w))
    (λ d, data_at "identity.yaml" d = identityYAML (data_at "clientId" (sec_Data auth)) (data_at "clientSecret" (sec_Data auth))) w w'.
Proof.
  intros Hf Ha Ht. unfold ensureCRSWrapper. intros (x & w0 & [= <- <-] & E)%bind_inv_ok.
  apply bind_inv_ok in E as (a & w1 & E1%wrapped_inv & E). rewrite lookup_secret_calm in E1 by done.
  injection E1 as <- <-. rewrite Ha in E. by eapply deliver_calm.
Qed.
Lemma ensureClusterIssuer_other w w' k :
  faults w = [] → ensureClusterIssuerCRSWrapper r w = (Ok (), w') → k ≠ (Namespace (smi w), issuer_name (smi w)) →
  secrets w' !! k = secrets w !! k.
Proof.
  intros Hf. unfold ensureClusterIssuerCRSWrapper. rewrite bind_run. cbn [gets]. destruct (_ || _); [by intros [= <-]|].
  intros (url & w1 & E1 & E)%bind_inv_ok Hk. assert (w1 = w) as ->.
  { unfold clusterIssuerURLFor in E1. destruct (negb _); [by injection E1|done]. }
  revert E. unfold deliver. rewrite bind_run. unfold attempt at 1. rewrite calm_GetSecret by done.
  destruct (secrets w !! _) as [old|] eqn:Es.
  - destruct (String.eqb _ resource_set).
    + destruct (String.eqb _ _); [by intros [= <-]|]. intros E%wrapped_inv. rewrite calm_UpdateSecret, Es in E by done.
      injection E as <-. cbn. by rewrite lookup_insert_ne.
    + rewrite bind_run. unfold attempt. rewrite calm_CreateSecret, Es by done. cbn. rewrite decide_True by done. by intros [= <-].
  - rewrite bind_run. unfold attempt. rewrite calm_CreateSecret, Es by done. cbn. intros [= <-]. cbn. by rewrite lookup_insert_ne.
Qed.

Lemma GetOrCreate_named name o w id cid w' :
  (∀ body i, decode_identity body = Some i → i ≠ "") →
  GetOrCreateMachineIdentity r name o w = (Ok (id, cid), w') → id ≠ "".
Proof.
  intros Hd. unfold GetOrCreateMachineIdentity. intros (tok & w1 & E1 & E)%bind_inv_ok.
  apply bind_inv_ok in E as (ex & w2 & E2 & E). cbn zeta in E.
  destruct (String.eqb_spec (match ex with Ok id => id | Err _ => "" end) "") as [_|Hne]; cbn [negb] in E.
  2:{ apply bind_inv_ok in E as (c & w3 & _ & [= <- <-]). done. }
  apply bind_inv_ok in E as (i & w3 & E3%wrapped_inv & E). apply bind_inv_ok in E as ([] & w4 & _ & E).
  apply bind_inv_ok in E as (c & w5 & _ & E). apply bind_inv_ok in E as (s & w6 & _ & [= <- <- <-]).
  unfold createIdentity in E3. apply bind_inv_ok in E3 as (t & w0 & _ & E3). apply bind_inv_ok in E3 as ([st body] & w8 & _ & E3).
  destruct (negb _); [done|]. unfold decoded in E3. destruct (decode_identity body) eqn:Eb; [|done].
  injection E3 as <- _. by eapply Hd.
Qed.


(** A pass over a live object that succeeds asks to be run again in one to five
    minutes, whatever the rotation interval. *)
Theorem requeue_bounds w k x n w' :
  smis w !! k = Some x → live x → Reconcile r k w = (Ok n, w') → (ns_min ≤ n ≤ 5 * ns_min)%Z.
Proof.
  intros Hx Hlive E. destruct (Reconcile_live_inv _ _ _ _ _ _ Hx Hlive E) as (w1 & _ & _ & _ & _ & _ & El).
  destruct (live_inv _ _ _ _ El) as (id & cid & wa & wb & wc & wd & we & _ & _ & _ & _ & _ & E6).
  unfold finish_pass in E6. do 5 apply bind_inv_ok in E6 as ([] & ? & _ & E6).
  apply bind_inv_ok in E6 as (after & w2 & Ea & E6). apply bind_inv_ok in E6 as ([] & w3 & _ & [= <- _]).
  assert (Hafter : (ns_min ≤ after)%Z).
  { unfold rotationCheckInterval in Ea. apply bind_inv_ok in Ea as (y & ? & _ & Ea). apply bind_inv_ok in Ea as (t & ? & _ & [= <- _]).
    destruct (NextRotation _) as [next|]; [|unfold ns_min, ns_s; lia]. destruct (Z.ltb_spec (time_sub next t) (5 * ns_min)); [lia|].
    apply Z.quot_le_lower_bound; unfold ns_min, ns_s in *; lia. }
  unfold identityHealthCheckInterval. destruct (Z.ltb_spec (5 * ns_min) after); unfold ns_min, ns_s in *; lia.
Qed.
End delivery.

(** ** The issuer *)

Section issuer.
Context {I : Infisical} (r : SpokeMachineIdentityReconciler).
Implicit Types (w : @World I) (x : SpokeMachineIdentity).
Abbreviation M A := (goM (@World I) error A).

(** An entry that writes a Secret with nothing but an issuer in it writes a whole one. *)
Definition whole_issuer (e : Event) : Prop :=
  match e with
  | Wrote _ s => ∀ p, sec_Data s = {["cluster-issuer.yaml" := p]} →
      ∃ url cid pid, p = clusterIssuerYAML url cid pid ∧ url ≠ "" ∧ cid ≠ "" ∧ pid ≠ ""
  | _ => True
  end.
Lemma appends_deliver P k owners doc payload what :
  (∀ s, sec_Data s = {[doc := payload]} → P (Wrote k s)) → appends log P (deliver k owners doc payload what : M _).
Proof. intros HP. unfold deliver. walk_log; by apply HP. Qed.
Lemma whole_store_auth x id secret : appends log whole_issuer (store_auth x id secret : M _).
Proof.
  unfold store_auth. walk_log; intros p Hp; exfalso; cbn in Hp; apply (f_equal (lookup "clientId")) in Hp.
  rewrite (lookup_union_Some_l _ _ _ (ClientID (Status x))) in Hp by reflexivity. by rewrite lookup_singleton_ne in Hp.
Qed.
Lemma whole_wrapper : appends log whole_issuer (ensureCRSWrapper : M _).
Proof.
  unfold ensureCRSWrapper. apply appends_bind; [by apply appends_none|intros x].
  apply appends_bind; [walk_log|]. intros [auth|]; [|by apply appends_none]. apply appends_deliver. intros s Hs p Hp.
  exfalso. rewrite Hs in Hp. apply (f_equal (lookup "identity.yaml")) in Hp.
  by rewrite lookup_singleton_eq, lookup_singleton_ne in Hp.
Qed.
Lemma whole_cluster_issuer : appends log whole_issuer (ensureClusterIssuerCRSWrapper r : M _).
Proof.
  unfold ensureClusterIssuerCRSWrapper. apply appends_bind; [by apply appends_none|intros x]. cbn zeta.
  destruct (String.eqb_spec (ClientID (Status x)) "") as [|Hc]; [by apply appends_none|].
  destruct (String.eqb_spec (issuer_project r x) "") as [|Hp]; [by apply appends_none|]. cbn [orb].
  unfold clusterIssuerURLFor. cbn zeta. destruct (String.eqb_spec (TrimSpace (INFISICAL_URL r)) "") as [|Hu]; cbn [negb].
  { intros w. exists []. by rewrite app_nil_r. }
  intros w. rewrite bind_run. cbn [mret goM_ret]. apply (appends_deliver whole_issuer). intros s Hs p Hps. rewrite Hs in Hps.
  apply (f_equal (lookup "cluster-issuer.yaml")) in Hps. rewrite !lookup_singleton_eq in Hps. injection Hps as <-.
  by eexists _, _, _.
Qed.
Hint Resolve whole_store_auth whole_wrapper whole_cluster_issuer : logs.
Lemma whole_Reconcile k : appends log whole_issuer (Reconcile r k : M _).
Proof. walk_log. Qed.

(** Over every history of passes, whatever the calls answer and wherever they fail, a
    ClusterIssuer that is written for a spoke names a client id, a project and the
    address of a signer: none is published half rendered. *)
Theorem issuer_never_half_rendered w0 w k s p :
  log w0 = [] → history r w0 w → Wrote k s ∈ log w → sec_Data s = {["cluster-issuer.yaml" := p]} →
  ∃ url cid pid, p = clusterIssuerYAML url cid pid ∧ url ≠ "" ∧ cid ≠ "" ∧ pid ≠ "".
Proof.
  intros H0 Hh Hw. assert (Hall : Forall whole_issuer (log w)).
  { clear Hw. induction Hh as [|w1 k' _ IH|w1 w2 _ IH [Hl _]]; [by rewrite H0|..].
    - destruct (whole_Reconcile k' w1) as (new & -> & Hn). by apply Forall_app.
    - by rewrite Hl. }
  rewrite Forall_forall in Hall. by apply (Hall _ Hw).
Qed.
End issuer.
