(* ===== verification/SpokeLifecycleFacts.v ===== *)
(** * SpokeLifecycleFacts: lockouts, deletion and the objects that never get done.

    A lockout is cleared only after the service called it one; an object is released only
    after its identity is gone; and where a pass cannot get through however often it is
    tried, or reports a step that did not happen. *)

From S2P Require Import Prelude.
From S2P Require Import GoRuntime.
From S2P Require Import SpokeIdentity.
From S2P Require Import SpokeIdentityFacts.
From S2P Require Import SpokeDeliveryFacts.

Local Open Scope string_scope.

(** ** Lockouts *)

Section lockout.
Context {I : Infisical} (r : SpokeMachineIdentityReconciler).
Implicit Types (w : @World I) (x : SpokeMachineIdentity).
Abbreviation M A := (goM (@World I) error A).

Definition unlocks (e : Event) : Prop := match e with Asked _ (Unlock _ _) _ => True | _ => False end.
Definition locked_out (cid : string) (l : list Event) : Prop :=
  ∃ cs msg, Asked "" (Login cid cs) (Ok (401%Z, msg)) ∈ l ∧ Contains msg "temporarily locked" = true.
Definition grounded (l : list Event) : Prop :=
  ∀ l1 tok id cid rep l2, l = (l1 ++ Asked tok (Unlock id cid) rep :: l2)%list → locked_out cid l1.
Lemma grounded_quiet l new : grounded l → Forall (λ e, ¬ unlocks e) new → grounded (l ++ new)%list.
Proof.
  intros Hg Hn l1 tok id cid rep l2 E. rewrite Forall_forall in Hn.
  destruct (List.app_eq_app _ _ _ _ E) as (l3 & [[-> E2] | [-> E2]]).
  - destruct l3 as [|e l3]; cbn in E2; [|injection E2 as <- _; by eapply Hg].
    exfalso. apply (Hn (Asked tok (Unlock id cid) rep)); [rewrite <-E2; left|done].
  - exfalso. apply (Hn (Asked tok (Unlock id cid) rep)); [rewrite E2; set_solver|done].
Qed.
Lemma grounded_unlock l tok id cid rep :
  grounded l → locked_out cid l → grounded (l ++ [Asked tok (Unlock id cid) rep])%list.
Proof.
  intros Hg Hl l1 tok' id' cid' rep' l2 E. destruct l2 as [|e l2].
  - apply app_inj_tail in E as [-> [= -> -> -> ->]]. done.
  - assert (Hl2 : ∃ l3 z, e :: l2 = (l3 ++ [z])%list).
    { destruct (exists_last (l:=e :: l2)) as (l3 & z & Hz); [done|]. by exists l3, z. }
    destruct Hl2 as (l3 & z & Hz). rewrite Hz, app_comm_cons, app_assoc in E. apply app_inj_tail in E as [E _]. by eapply Hg.
Qed.
Definition sound_log w : Prop := grounded (log w).
Lemma sound_unless_unlock {A} (m : M A) : appends log (λ e, ¬ unlocks e) m → keeps sound_log m.
Proof. intros Hm w Hw. destruct (Hm w) as (new & E & Hn). unfold sound_log. rewrite E. by apply grounded_quiet. Qed.

Lemma probe_locked cid cs what w w' :
  probe cid cs what w = (Ok (Some true), w') → locked_out cid (log w').
Proof.
  unfold probe. rewrite bind_run. unfold attempt. destruct (ProbeIdentityLockout cid cs w) as [[b|e] w1] eqn:E.
  - intros [= -> ->]. unfold ProbeIdentityLockout in E. apply bind_inv_ok in E as ([st msg] & w2 & E1%wrapped_inv & E).
    unfold Do in E1. destruct (exchange _ _ _) as [[[rep|] s] t]; [|done]. injection E1 as -> <-.
    destruct (Z.eqb_spec st 200); [by injection E|]. destruct (Z.eqb_spec st 401) as [->|]; cbn [andb] in E; [|done].
    destruct (Contains msg "temporarily locked") eqn:Ec; [|by destruct (Contains msg "Invalid credentials")].
    injection E as <-. exists cs, msg. split; [cbn; set_solver|done].
  - case_decide; [|done]. intros (? & ? & _ & [=])%bind_inv_ok.
Qed.
Lemma sound_clear id cid w : sound_log w → locked_out cid (log w) → sound_log (ClearLockout r id cid w).2.
Proof.
  intros Hw Hl. unfold ClearLockout. rewrite bind_run.
  assert (Ha : appends log (λ e, ¬ unlocks e) (wrapped "authenticate" (getToken r) : M _)) by (walk_log; by intros []).
  destruct (wrapped "authenticate" (getToken r) w) as [res w1] eqn:E. destruct (appends_run _ _ _ _ _ _ Ha E) as (n & Hn & Hq).
  assert (Hw1 : sound_log w1) by (unfold sound_log; rewrite Hn; by apply grounded_quiet).
  assert (Hl1 : locked_out cid (log w1)).
  { destruct Hl as (cs & msg & Hin & Hc). exists cs, msg. split; [rewrite Hn; set_solver|done]. }
  destruct res as [tok|e]; [|done]. rewrite bind_run.
  assert (Hdo : sound_log (wrapped "execute clear lockout request" (Do tok (Unlock id cid)) w1).2).
  { unfold wrapped, Do. destruct (exchange _ _ _) as [[[rep|e] s] t]; by apply grounded_unlock. }
  destruct (wrapped _ (Do tok (Unlock id cid)) w1) as [[[st body]|e] w2]; [|done]. cbn in Hdo |- *.
  repeat case_match; done.
Qed.
Lemma sound_ensureIdentityUnlock : keeps sound_log (ensureIdentityUnlock r : M _).
Proof.
  unfold ensureIdentityUnlock. apply keeps_bind; [by intros w|]. intros x. destruct (_ || _); [by intros w|].
  apply keeps_bind; [apply sound_unless_unlock; walk_log|]. intros [[cid cs]|]; [|by intros w]. intros w Hw. rewrite bind_run.
  assert (Hp : ∀ what, keeps sound_log (probe cid cs what : M _)) by (intros; apply sound_unless_unlock; walk_log; by intros []).
  pose proof (Hp "probe identity lockout" w Hw) as Hw1.
  destruct (probe cid cs "probe identity lockout" w) as [[[[|]|]|e] w1] eqn:E; try done. cbn in Hw1.
  pose proof (probe_locked _ _ _ _ _ E) as Hl. rewrite bind_run, wrapped_run.
  pose proof (sound_clear (IdentityID (Status x)) cid w1 Hw1 Hl) as Hw2.
  destruct (ClearLockout r _ cid w1) as [[[]|e] w2]; [|done]. cbn in Hw2.
  apply (keeps_bind _ _ _ (Hp _)); [|done]. intros [[|]|]; by intros ?.
Qed.

(** Whatever the calls answer, a pass asks to clear a lockout only after a login with
    the identity's own credentials was answered 401 with the words of a lockout; wrong
    credentials and every other answer leave the lockout alone. *)
Theorem lockout_grounded w k res w' l1 tok id cid rep l2 :
  log w = [] → Reconcile r k w = (res, w') → log w' = (l1 ++ Asked tok (Unlock id cid) rep :: l2)%list →
  ∃ cs msg, Asked "" (Login cid cs) (Ok (401%Z, msg)) ∈ l1 ∧ Contains msg "temporarily locked" = true.
Proof.
  intros Hw E. assert (Hk : keeps sound_log (Reconcile r k : M _)); [|specialize (Hk w); rewrite E in Hk; apply Hk].
  - assert (Hlive : keeps sound_log (reconcile_identity r : M _)); [|].
    { unfold reconcile_identity. apply keeps_bind; [by intros ?|intros x]. cbn zeta.
      apply keeps_bind; [apply sound_unless_unlock; walk_log; by intros []|]. intros [i c].
      apply keeps_bind; [apply sound_unless_unlock; walk_log|intros _]. apply keeps_bind; [apply sound_unless_unlock; walk_log; by intros []|intros _].
      apply keeps_bind; [apply sound_unless_unlock; walk_log; by intros []|intros b].
      destruct b; [apply sound_unless_unlock; walk_log; by intros []|].
      do 2 (apply keeps_bind; [apply sound_unless_unlock; walk_log; by intros []|intros _]). unfold finish_pass.
      do 4 (apply keeps_bind; [apply sound_unless_unlock; walk_log; by intros []|intros _]).
      apply keeps_bind; [apply sound_ensureIdentityUnlock|intros _]. apply sound_unless_unlock; walk_log; by intros []. }
    unfold Reconcile. apply keeps_bind; [apply sound_unless_unlock; walk_log|]. intros [x|e]; [|case_decide; by intros ?].
    apply keeps_bind; [by intros ?|intros _]. destruct (DeletionTimestamp x); [apply sound_unless_unlock; walk_log; by intros []|].
    destruct (negb _); [apply sound_unless_unlock; walk_log; by intros []|done].
  - unfold sound_log. rewrite Hw. intros l ? ? ? ? ? H. by destruct l.
Qed.
End lockout.

(** ** Deletion *)

Section deletion.
Context {I : Infisical} (r : SpokeMachineIdentityReconciler).
Implicit Types (w : @World I) (x : SpokeMachineIdentity).
Abbreviation M A := (goM (@World I) error A).

Definition revoke_on_delete x : bool := match Revocation (Spec x) with Some p => RevokeOnDelete p | None => false end.
Definition owns_identity x : Prop := IdentityID (Status x) ≠ "" ∧ revoke_on_delete x = true.
Definition releases (e : Event) : Prop := match e with Released _ => True | _ => False end.
Definition quiet {A} (m : M A) : Prop := appends log (λ e, ¬ releases e) m.
(** The service confirmed that the identity is gone. *)
Definition removed (id : string) (l : list Event) : Prop :=
  ∃ tok st body, Asked tok (RemoveIdentity id) (Ok (st, body)) ∈ l ∧ (st = 200%Z ∨ st = 204%Z).
Lemma DeleteIdentity_inv id w w' : DeleteIdentity r id w = (Ok (), w') → removed id (log w').
Proof.
  unfold DeleteIdentity. intros (tok & w1 & _ & E)%bind_inv_ok. apply bind_inv_ok in E as ([st body] & w2 & E2%wrapped_inv & E).
  unfold Do in E2. destruct (exchange _ _ _) as [[[rep|] s] t]; [|done]. injection E2 as -> <-.
  exists tok, st, body. assert (Hst : (st = 200 ∨ st = 204)%Z).
  { destruct (Z.eqb_spec st 200); [by left|]. destruct (Z.eqb_spec st 204); [by right|done]. }
  split; [|done]. destruct (_ && _); [done|]. injection E as <-. cbn. set_solver.
Qed.
Lemma quiet_reconcile_identity : quiet (reconcile_identity r).
Proof. unfold quiet. walk_log; by intros []. Qed.
(** An object that keeps a finalizer is not released. *)
Lemma quiet_UpdateSMI x : Finalizers x ≠ [] → quiet (UpdateSMI x).
Proof.
  intros Hf. unfold quiet, UpdateSMI. apply appends_acting. apply appends_bind; [by apply appends_none|intros ms].
  destruct (ms !! _) as [old|]; [|by apply appends_none]. destruct (DeletionTimestamp old); [destruct (Finalizers x); [done|]|];
    apply appends_none; intros w; cbn; by rewrite app_nil_r.
Qed.

(** An object goes only in a pass that found it marked for deletion; and where its
    policy asks for it and an identity was recorded, only after the service confirmed in
    that pass that the identity was removed. *)
Theorem released_after_removal w k res w' k' :
  log w = [] → Reconcile r k w = (res, w') → Released k' ∈ log w' →
  ∃ x, smis w !! k = Some x ∧ DeletionTimestamp x ≠ None ∧ (owns_identity x → removed (IdentityID (Status x)) (log w')).
Proof.
  intros Hw E Hin. unfold Reconcile in E. rewrite bind_run in E. unfold attempt in E.
  destruct (GetSMI k w) as [res1 w1] eqn:Eg. destruct (GetSMI_same _ _ _ _ Eg) as [_ Hl]. rewrite Hw in Hl.
  assert (Hno : ∀ {A} (m : M A) w2 res2 w3, quiet m → log w2 = [] → m w2 = (res2, w3) → Released k' ∈ log w3 → False).
  { intros A m w2 res2 w3 Hq H2 Em H3. destruct (appends_new log _ _ _ _ _ _ Hq Em H3) as [H|H]; [by rewrite H2 in H; apply not_elem_of_nil in H|].
    by apply H. }
  destruct res1 as [x|e].
  2:{ exfalso. case_decide; injection E as <- <-; rewrite Hl in Hin; by apply not_elem_of_nil in Hin. }
  apply GetSMI_inv in Eg as (Hx & _). exists x. split; [done|]. rewrite bind_run in E. cbn [modify] in E.
  destruct (DeletionTimestamp x) as [d|] eqn:Ed.
  2:{ exfalso. destruct (negb _); [|by eapply (Hno _ _ _ _ _ quiet_reconcile_identity); [|exact E|exact Hin]].
      rewrite bind_run in E. destruct (wrapped _ _ _) as [res3 w3] eqn:E3.
      assert (Hq : quiet (wrapped "add finalizer" (UpdateSMI (mkSMI (Namespace x) (Name x) (Generation x)
                (Finalizers x ++ [smiFinalizer])%list (DeletionTimestamp x) (OwnerReferences x) (Spec x) (Status x))))).
      { apply appends_wrapped, quiet_UpdateSMI. cbn. by destruct (Finalizers x). }
      rewrite Ed in Hq. assert (log w3 = log w') as Hl3 by (destruct res3; by injection E as <- <-). rewrite <-Hl3 in Hin.
      by eapply (Hno _ _ _ _ _ Hq); [|exact E3|]. }
  split; [done|]. intros [Hid Hr]. unfold handleDeletion in E. rewrite bind_run in E. cbn [gets with_smi smi] in E.
  destruct (negb (bool_decide _)).
  { exfalso. injection E as <- <-. cbn in Hin. rewrite Hl in Hin. by apply not_elem_of_nil in Hin. }
  rewrite (proj2 (String.eqb_neq _ _) Hid) in E. unfold revoke_on_delete in Hr. rewrite Hr in E. cbn [negb andb] in E.
  rewrite bind_run in E. match type of E with context [(?m ≫= ?f) (with_smi x w1)] => destruct ((m ≫= f) (with_smi x w1)) as [[[]|e] w2] eqn:E2 end.
  2:{ exfalso. injection E as <- <-. match type of E2 with ?m ?v = _ => assert (Hq : quiet m) by (unfold quiet; walk_log; by intros []);
        by eapply (Hno _ m v) end. }
  apply bind_inv_ok in E2 as ([] & w3 & _ & E2%DeleteIdentity_inv). destruct E2 as (tok & st & body & Hr2 & Hst).
  exists tok, st, body. split; [|done].
  match type of E with ?m w2 = _ => assert (Ha : appends log (λ _, True) m) by walk_log end.
  by eapply (appends_old log _ _ _ _ _ _ Ha E).
Qed.

(** When the service answers that the identity it is asked to remove is not there, the
    object is never released: however many passes follow, it stays as it is, with its
    finalizer. *)
Theorem gone_identity_blocks_deletion w x n :
  let k := (Namespace x, Name x) in
  smis w !! k = Some x → DeletionTimestamp x ≠ None → smiFinalizer ∈ Finalizers x → owns_identity x →
  (∀ tok s, ∃ body s' t, exchange tok (RemoveIdentity (IdentityID (Status x))) s = (Ok (404%Z, body), s', t)) →
  smis (Nat.iter n (λ w, (Reconcile r k w).2) w) !! k = Some x.
Proof.
  intros k Hx Hd Hf [Hid Hr] Hgone.
  enough (Hstep : ∀ w, smis w !! k = Some x → smis (Reconcile r k w).2 !! k = Some x).
  { induction n as [|n IH]; [done|]. apply Hstep, IH. }
  clear w Hx. intros w Hx.
  unfold Reconcile. rewrite bind_run. unfold attempt. destruct (GetSMI k w) as [res w1] eqn:Eg.
  destruct (GetSMI_same _ _ _ _ Eg) as [Hs _]. destruct res as [y|e].
  2:{ case_decide; cbn; by rewrite Hs. }
  apply GetSMI_inv in Eg as (Hy & _). assert (y = x) as -> by congruence. rewrite bind_run. cbn [modify].
  destruct (DeletionTimestamp x); [|done]. unfold handleDeletion. rewrite bind_run. cbn [gets with_smi smi].
  rewrite bool_decide_true by done. cbn [negb]. rewrite (proj2 (String.eqb_neq _ _) Hid).
  unfold revoke_on_delete in Hr. rewrite Hr. cbn [negb andb]. rewrite bind_run.
  match goal with |- context [(?m ≫= ?f) (with_smi x w1)] => destruct ((m ≫= f) (with_smi x w1)) as [res2 w2] eqn:E2;
    assert (Hq : only_asks (m ≫= f)) by walk_asks end.
  destruct (asks_run _ _ _ _ Hq E2) as (_ & _ & Hsm & _). cbn in Hsm.
  destruct res2 as [[]|e]; [|cbn; by rewrite Hsm, Hs].
  exfalso. apply bind_inv_ok in E2 as ([] & w3 & _ & E2). unfold DeleteIdentity in E2.
  apply bind_inv_ok in E2 as (tok & w4 & _ & E2). apply bind_inv_ok in E2 as ([st body] & w5 & E5%wrapped_inv & E2).
  unfold Do in E5. destruct (Hgone tok (service w4)) as (b & s' & t & Hg). rewrite Hg in E5. by injection E5 as <- <- <-.
Qed.
End deletion.

(** ** An identity without a login method *)

Section wedge.
Context {I : Infisical} (r : SpokeMachineIdentityReconciler).
Implicit Types (w : @World I) (x : SpokeMachineIdentity).
Abbreviation M A := (goM (@World I) error A).

Definition attaches (e : Event) : Prop := match e with Asked _ (AttachUniversalAuth _ _ _ _) _ => True | _ => False end.
Abbreviation attachless m := (appends log (λ e, ¬ attaches e) m).
Lemma findIdentity_listed name o id w :
  (∀ tok s, ∃ body l s' t, exchange tok (ListIdentities o) s = (Ok (200%Z, body), s', t)
     ∧ decode_identities body = Some l ∧ find_named name l = id) →
  ∃ w', findIdentityByName name o w = (Ok id, w').
Proof.
  intros Hl. unfold findIdentityByName. rewrite bind_run. cbn [gets]. rewrite bind_run. unfold Do.
  destruct (Hl (token w) (service w)) as (body & l & s' & t & -> & Hd & Hf). rewrite <-Hf. cbn. rewrite Hd. by eexists.
Qed.
Lemma getUniversalAuth_refused id w :
  (∀ tok s st body s' t, exchange tok (GetUniversalAuth id) s = (Ok (st, body), s', t) → st ≠ 200%Z) →
  ∃ e w', getUniversalAuth id w = (Err e, w').
Proof.
  intros Hg. unfold getUniversalAuth. rewrite bind_run. cbn [gets]. rewrite bind_run. unfold Do.
  destruct (exchange (token w) (GetUniversalAuth id) (service w)) as [[[[st body]|e] s] t] eqn:E; [|by eexists _, _].
  apply Hg in E. apply Z.eqb_neq in E. cbn. rewrite E. cbn. by eexists _, _.
Qed.

(** An identity that was created and then not given its login method, as a pass that
    fails in between leaves it, is found by name from then on and never completed: every
    pass over the object ends in an error, and none asks for the login method again. *)
Theorem half_created_wedges w k x id res w' :
  smis w !! k = Some x → live x → id ≠ "" →
  (∀ tok s, ∃ body l s' t, exchange tok (ListIdentities (org r x)) s = (Ok (200%Z, body), s', t)
     ∧ decode_identities body = Some l ∧ find_named (identity_name x) l = id) →
  (∀ tok s st body s' t, exchange tok (GetUniversalAuth id) s = (Ok (st, body), s', t) → st ≠ 200%Z) →
  Reconcile r k w = (res, w') →
  (∃ e, res = Err e) ∧ ∃ new, log w' = (log w ++ new)%list ∧ Forall (λ e, ¬ attaches e) new.
Proof.
  intros Hx [Hd Hf] Hid Hl Hg E.
  assert (HG : ∀ w1, ∃ e w2 new, GetOrCreateMachineIdentity r (identity_name x) (org r x) w1 = (Err e, w2)
                ∧ log w2 = (log w1 ++ new)%list ∧ Forall (λ e, ¬ attaches e) new).
  { intros w1. unfold GetOrCreateMachineIdentity. rewrite bind_run.
    assert (H1 : attachless (wrapped "authenticate" (getToken r) : M _)) by (walk_log; by intros []).
    destruct (wrapped "authenticate" (getToken r) w1) as [[tok|e] w2] eqn:E1;
      destruct (appends_run _ _ _ _ _ _ H1 E1) as (n1 & Hn1 & Hq1); [|by exists e, w2, n1].
    rewrite bind_run. unfold attempt. destruct (findIdentity_listed _ _ id w2 Hl) as [w3 E2]. rewrite E2. cbn zeta.
    assert (H2 : attachless (findIdentityByName (identity_name x) (org r x) : M _)) by (walk_log; by intros []).
    destruct (appends_run _ _ _ _ _ _ H2 E2) as (n2 & Hn2 & Hq2).
    rewrite (proj2 (String.eqb_neq _ _) Hid). cbn [negb]. rewrite bind_run, wrapped_run.
    destruct (getUniversalAuth_refused id w3 Hg) as (e & w4 & E3). rewrite E3.
    assert (H3 : attachless (getUniversalAuth id : M _)) by (walk_log; by intros []).
    destruct (appends_run _ _ _ _ _ _ H3 E3) as (n3 & Hn3 & Hq3).
    eexists _, w4, (n1 ++ n2 ++ n3)%list. split; [done|]. split; [by rewrite Hn3, Hn2, Hn1, <-!app_assoc|].
    by rewrite !Forall_app. }
  unfold Reconcile in E. rewrite bind_run in E. unfold attempt in E. destruct (GetSMI k w) as [res1 w1] eqn:Eg.
  destruct (GetSMI_same _ _ _ _ Eg) as [_ Hlog]. rewrite <-Hlog. destruct res1 as [y|e].
  2:{ assert (He : err_is e ≠ NotFound).
      { unfold GetSMI in Eg. rewrite bind_run in Eg. unfold outcome_next in Eg.
        destruct (next_outcome (faults w)) as [[| |] rest]; [|by injection Eg as <- _..].
        rewrite bind_run in Eg. cbn in Eg. by rewrite Hx in Eg. }
      rewrite decide_False in E by done. injection E as <- <-. split; [by eexists|]. exists []. rewrite app_nil_r. by split. }
  apply GetSMI_inv in Eg as (Hy & _). assert (y = x) as -> by congruence. rewrite bind_run in E. cbn [modify] in E.
  rewrite Hd, bool_decide_true in E by done. cbn [negb] in E. unfold reconcile_identity in E. rewrite bind_run in E. cbn [gets with_smi smi] in E.
  rewrite bind_run in E. unfold noting at 1 in E. rewrite bind_run in E. unfold attempt at 1 in E.
  destruct (HG (with_smi x w1)) as (e & w2 & new & Eg & Hn & Hq). unfold identity_name, org in Eg. rewrite Eg in E. cbn in Hn.
  match type of E with context [(?m ≫= ?f) w2] => destruct ((m ≫= f) w2) as [res2 w3] eqn:E2 end.
  assert (He : ∃ e', res2 = Err e').
  { destruct res2 as [a|e']; [|by eexists]. exfalso. apply bind_inv_ok in E2 as (? & ? & _ & E2).
    apply bind_inv_ok in E2 as (? & ? & _ & [=]). }
  destruct He as [e' ->]. injection E as <- <-. split; [by eexists|].
  match type of E2 with ?m _ = _ => assert (H2 : attachless m) by (walk_log; by intros []) end.
  destruct (appends_run _ _ _ _ _ _ H2 E2) as (n2 & Hn2 & Hq2). exists (new ++ n2)%list. split; [by rewrite Hn2, Hn, <-app_assoc|].
  by apply Forall_app.
Qed.
End wedge.

(** ** The condition of the issuer *)

Section unearned.
Context {I : Infisical} (r : SpokeMachineIdentityReconciler) (x : SpokeMachineIdentity).
Implicit Types (w : @World I).
Abbreviation M A := (goM (@World I) error A).

(** Nothing is at the issuer's place, and the working copy is of [x]. *)
Definition bare w : Prop :=
  secrets w !! (Namespace x, issuer_name x) = None
  ∧ Namespace (smi w) = Namespace x ∧ Name (smi w) = Name x ∧ Spec (smi w) = Spec x.
Lemma bare_asks {A} (m : M A) : only_asks m → keeps bare m.
Proof. intros Hm w Hw. destruct (Hm w) as (Hs & Hk & _). unfold bare. by rewrite Hs, Hk. Qed.
Lemma bare_outcome : keeps bare (outcome_next : M _).
Proof. intros w Hw. unfold outcome_next. by destruct (next_outcome (faults w)). Qed.
Lemma bare_update_status f : keeps bare (update_status f : M _).
Proof. by intros w. Qed.
Lemma bare_put k s : k ≠ (Namespace x, issuer_name x) → keeps bare (put_secret k s : M _).
Proof. intros Hk w (Hs & ?). split; [|done]. cbn. by rewrite lookup_insert_ne. Qed.
Hint Resolve bare_outcome bare_update_status keeps_ret keeps_throw keeps_get keeps_gets : bare.
Ltac walk_bare :=
  repeat lazymatch goal with
    | |- keeps _ (match ?x with _ => _ end) => destruct x
    | |- keeps _ (let (_, _) := ?x in _) => destruct x
    | |- keeps _ (_ ≫= _) => apply keeps_bind
    | |- keeps _ (attempt _) => apply keeps_attempt
    | |- keeps _ (wrapped _ _) => apply keeps_wrapped
    | |- keeps _ (Do _ _) => apply bare_asks, asks_Do
    | |- keeps _ (put_secret _ _) => apply bare_put
    | |- keeps _ (modify (with_token _ _)) => by intros ?
    | |- keeps _ (modify (λ w, with_kube (secrets w) _ _ w)) => by intros ?
    | |- keeps _ (let x := _ in _) => cbn zeta
    | |- keeps _ ((λ x, _) _) => cbn beta
    | |- keeps _ ?c => first [ solve [eauto 2 with bare nocore] | let h := head_of c in unfold h ]
    | |- ∀ _, _ => intro
    end; try done.
Definition copy_of y : Prop := Namespace y = Namespace x ∧ Name y = Name x ∧ Spec y = Spec x.
Lemma bare_copy w : bare w → copy_of (smi w).
Proof. by intros [_ ?]. Qed.
Lemma bare_store_auth y id secret : copy_of y → keeps bare (store_auth y id secret : M _).
Proof.
  intros (Hns & _ & Hsp). assert (Hk : (Namespace y, auth_name y) ≠ (Namespace x, issuer_name x)).
  { unfold auth_name. rewrite Hsp. intros [= _ H]. by apply (auth_not_issuer x). }
  walk_bare.
Qed.
Lemma bare_handleRotation id : keeps bare (handleRotation r id : M _).
Proof.
  unfold handleRotation. apply (keeps_gets_bind _ smi copy_of); [apply bare_copy|]. intros y _. destruct (Rotation (Spec y)); [|walk_bare].
  destruct (negb _); [walk_bare|]. apply keeps_bind; [walk_bare|intros t]. destruct (match NextRotation _ with Some _ => _ | None => _ end); [walk_bare|].
  apply keeps_bind; [apply keeps_wrapped, bare_asks, asks_Rotate|intros p]. cbn zeta. apply keeps_bind; [walk_bare|intros t'].
  apply keeps_bind; [walk_bare|intros _]. apply (keeps_gets_bind _ smi copy_of); [apply bare_copy|]. intros z Hz.
  apply keeps_bind; [destruct (negb _); [by apply bare_store_auth|walk_bare]|intros _; walk_bare].
Qed.
Lemma bare_wrapper : spoke_wrapper x ≠ issuer_name x → keeps bare (ensureCRSWrapper : M _).
Proof.
  intros Hw. unfold ensureCRSWrapper. apply (keeps_gets_bind _ smi copy_of); [apply bare_copy|]. intros y (Hns & _ & Hsp).
  assert (Hk : (Namespace y, spoke_wrapper y) ≠ (Namespace x, issuer_name x)).
  { unfold spoke_wrapper. rewrite Hsp. intros [= _ H]. by apply Hw. }
  apply keeps_bind; [walk_bare|]. intros [auth|]; [|walk_bare]. unfold deliver. walk_bare.
Qed.

(** The issuer's condition, once True, is not touched by what follows. *)
Definition claims_issuer (cs : list Condition) : Prop :=
  ∃ c, c ∈ cs ∧ Type_ c = conditionTypeIssuerConfigured ∧ Status_ c = true.
Lemma put_condition_in cond l : ∃ c, c ∈ put_condition cond l ∧ Type_ c = Type_ cond ∧ Status_ c = Status_ cond.
Proof.
  induction l as [|c l (d & Hd & ? & ?)]; cbn; [exists cond; split; [left|done]|].
  destruct (String.eqb_spec (Type_ c) (Type_ cond)) as [Ht|Ht]; [|exists d; split; [by right|done]].
  destruct (Bool.eqb (Status_ c) (Status_ cond)) eqn:Es; cbn [negb orb]; [|exists cond; split; [left|done]].
  destruct (negb _); [exists cond; split; [left|done]|]. exists c. split_and!; [left|done|by apply Bool.eqb_prop].
Qed.
Lemma put_condition_other cond l c : c ∈ l → Type_ c ≠ Type_ cond → c ∈ put_condition cond l.
Proof.
  induction l as [|d l IH]; intros Hc Ht; [by apply not_elem_of_nil in Hc|]. cbn.
  destruct (String.eqb_spec (Type_ d) (Type_ cond)).
  - apply elem_of_cons in Hc as [<- | Hc]; [done|by right].
  - apply elem_of_cons in Hc as [<- | Hc]; [left|right; by apply IH].
Qed.
Definition claiming w : Prop := claims_issuer (Conditions (Status (smi w))) ∧ copy_of (smi w).
Lemma claiming_asks {A} (m : M A) : only_asks m → keeps claiming m.
Proof. intros Hm w Hw. destruct (Hm w) as (Hs & _). unfold claiming. by rewrite Hs. Qed.
Lemma claiming_ready st re me : keeps claiming (setCondition conditionTypeReady st re me : M _).
Proof.
  intros w [(c & Hc & Ht & Hs) Hcp]. rewrite setCondition_run. split; [|done]. exists c. split; [|done].
  cbn. apply put_condition_other; [done|]. by rewrite Ht.
Qed.
Lemma claiming_lookup k : keeps claiming (lookup_secret k : M _).
Proof.
  intros w Hw. unfold lookup_secret, GetSecret. rewrite bind_run. unfold attempt. rewrite bind_run. unfold outcome_next.
  destruct (next_outcome (faults w)) as [[| |] rest]; [|done..]. rewrite bind_run. cbn. by destruct (secrets w !! k).
Qed.
Lemma claiming_probe cid cs what : keeps claiming (probe cid cs what : M _).
Proof.
  unfold probe. apply keeps_bind; [apply keeps_attempt, claiming_asks, asks_Probe|]. intros [b|e]; [by intros w|].
  case_decide; [|by intros w]. apply keeps_bind; [apply claiming_ready|by intros _ w].
Qed.
Lemma claiming_unlock : keeps claiming (ensureIdentityUnlock r : M _).
Proof.
  unfold ensureIdentityUnlock. apply keeps_bind; [by intros w|]. intros y. destruct (_ || _); [by intros w|].
  apply keeps_bind.
  { apply keeps_wrapped. unfold identityCredentials. apply keeps_bind; [apply keeps_wrapped, claiming_lookup|]. intros s.
    destruct (s ≫= _); [by intros w|]. apply keeps_bind; [apply keeps_wrapped, claiming_lookup|by intros ? w]. }
  intros [[cid cs]|]; [|by intros w]. apply keeps_bind; [apply claiming_probe|]. intros [[|]|]; [|by intros w..].
  apply keeps_bind; [apply keeps_wrapped, claiming_asks, asks_ClearLockout|intros _].
  apply keeps_bind; [apply claiming_probe|]. intros [[|]|]; by intros w.
Qed.
Lemma StatusUpdate_inv w w' :
  StatusUpdate w = (Ok (), w') →
  ∃ old, smis w' !! (Namespace (smi w), Name (smi w)) = Some (set_status old (wire_status (Status (smi w)))).
Proof.
  unfold StatusUpdate. intros (y & w0 & [= <- <-] & E)%bind_inv_ok. cbn zeta in E. unfold acting in E.
  apply bind_inv_ok in E as (o & w1 & E1 & E). destruct o; [|done|by apply bind_inv_ok in E as (? & ? & _ & [=])].
  apply bind_inv_ok in E as (ms & w2 & [= <- <-] & E). destruct (smis w1 !! _) as [old|]; [|done].
  injection E as <-. exists old. cbn. by rewrite lookup_insert_eq.
Qed.

(** Without a project no issuer is rendered for a spoke, and a pass over its object that
    succeeds nevertheless leaves a stored status that says the issuer is configured. *)
Theorem issuer_claimed_unrendered w k n w' :
  k = (Namespace x, Name x) → smis w !! k = Some x → live x → issuer_project r x = "" →
  spoke_wrapper x ≠ issuer_name x → secrets w !! (Namespace x, issuer_name x) = None →
  Reconcile r k w = (Ok n, w') →
  secrets w' !! (Namespace x, issuer_name x) = None
  ∧ ∃ y c, smis w' !! k = Some y ∧ c ∈ Conditions (Status y)
      ∧ Type_ c = conditionTypeIssuerConfigured ∧ Status_ c = true.
Proof.
  intros -> Hx Hlive Hp Hwi Hno E.
  destruct (Reconcile_live_inv _ _ _ _ _ _ Hx Hlive E) as (w1 & Hsmi & Hsec & _ & _ & _ & El).
  destruct (live_inv _ _ _ _ El) as (id & cid & wa & wb & wc & wd & we & E1 & E2 & E3 & E4 & E5 & E6).
  assert (B1 : bare w1) by (unfold bare; rewrite Hsec, Hsmi; done).
  destruct (asks_run _ _ _ _ (asks_GetOrCreate r _ _) E1) as (Hs1 & Hk1 & _).
  destruct (grant_all_inv _ _ _ _ E2) as (Hs2 & Hk2 & _). cbn in Hs2, Hk2.
  assert (B2 : bare wb) by (unfold bare in *; rewrite Hk2, Hk1, Hs2, Hs1; done).
  pose proof (bare_handleRotation id wb B2) as B3. rewrite E3 in B3. cbn in B3.
  pose proof (bare_wrapper Hwi wc B3) as B4. rewrite E4 in B4. cbn in B4.
  assert (we = wd) as ->.
  { unfold ensureClusterIssuerCRSWrapper in E5. apply bind_inv_ok in E5 as (y & ? & [= <- <-] & E5). cbn zeta in E5.
    assert (Hip : issuer_project r (smi wd) = "") by (destruct B4 as (_ & _ & _ & Hsp); unfold issuer_project; by rewrite Hsp).
    rewrite Hip, orb_true_r in E5. by injection E5. }
  split; [rewrite (finish_secrets _ _ _ _ _ E6); apply B4|].
  unfold finish_pass in E6. apply bind_inv_ok in E6 as ([] & v1 & Ed & E6).
  assert (Hcd : copy_of (smi v1)).
  { unfold check_drift in Ed. apply bind_inv_ok in Ed as (b & v0 & Eb & Ed).
    destruct (asks_run _ _ _ _ (asks_attempt _ (asks_IdentityExists r id)) Eb) as (Hv & _).
    apply bare_copy in B4. destruct b as [[|]|]; injection Ed as <-; cbn; by rewrite Hv. }
  rewrite bind_run, setCondition_run in E6. rewrite bind_run, setCondition_run in E6. rewrite bind_run, setCondition_run in E6.
  match type of E6 with (_ ≫= _) ?v = _ => assert (Hc : claiming v) end.
  { split; [|done]. apply (put_condition_in (mkCondition conditionTypeIssuerConfigured true _ _ _ _)). }
  apply bind_inv_ok in E6 as ([] & v2 & Eu & E6). pose proof (claiming_unlock _ Hc) as Hc2. rewrite Eu in Hc2. cbn in Hc2.
  apply bind_inv_ok in E6 as (after & v3 & Ea & E6). assert (smi v3 = smi v2) as Hv3.
  { unfold rotationCheckInterval in Ea. apply bind_inv_ok in Ea as (? & ? & [= <- <-] & Ea).
    by apply bind_inv_ok in Ea as (? & ? & [= <- <-] & [= <- <-]). }
  apply bind_inv_ok in E6 as ([] & v4 & Es & [= _ <-]). destruct (StatusUpdate_inv _ _ Es) as [old Hold].
  rewrite Hv3 in Hold. destruct Hc2 as [(c & Hin & Ht & Hst) (Hns & Hnm & _)]. rewrite Hns, Hnm in Hold.
  eexists _, (wire_condition c). split; [exact Hold|]. split; [|done]. cbn. by apply list_elem_of_fmap_2.
Qed.
End unearned.
