(* ===== verification/SpokeWitness.v ===== *)
(** * SpokeWitness: the theorems on spoke identities at one spoke.

    A service that knows the identity of the spoke, with and without its login method,
    locked or not, and an object that is live or marked for deletion. *)

From S2P Require Import Prelude.
From S2P Require Import GoRuntime.
From S2P Require Import SpokeIdentity.
From S2P Require Import SpokeIdentityFacts.
From S2P Require Import SpokeDeliveryFacts.
From S2P Require Import SpokeLifecycleFacts.

Local Open Scope string_scope.

Record Vault := mkVault { minted : N; locked : bool }.
Definition vault_reply (gone method : bool) (c : Call) (s : Vault) : Z * string * Vault :=
  match c with
  | Login cid _ => if String.eqb cid "op" then (200%Z, "login", s)
                   else if locked s then (401%Z, "temporarily locked", s) else (200%Z, "", s)
  | GetUniversalAuth _ => if method then (200%Z, "client", s) else (404%Z, "", s)
  | NewClientSecret _ _ _ => (200%Z, "s" +:+ pretty (minted s), mkVault (minted s + 1) (locked s))
  | RemoveIdentity _ => if gone then (404%Z, "not found", s) else (200%Z, "", s)
  | Unlock _ _ => (200%Z, "", mkVault (minted s) false)
  | _ => (200%Z, "", s)
  end.
Definition vault (gone method : bool) : Infisical := {|
  ISt := Vault;
  exchange _ c s := let '(st, body, s') := vault_reply gone method c s in (Ok (st, body), s', 1%N);
  decode_login _ := Some ("tok", 3600%Z);
  decode_identities _ := Some [("id0", "spoke-b"); ("id1", "spoke-a")];
  decode_auth b := Some b;
  decode_identity _ := Some "id9";
  decode_secret b := Some b;
  yaml_secret _ := None |}.

Definition flags (project : string) : SpokeMachineIdentityReconciler :=
  mkSpokeReconciler "org" project "" "op" "opsecret" "https://infisical.test" "" "".
Definition spec : SpokeMachineIdentitySpec :=
  mkSpec "a" (mkInfisicalConfig "" "" "" "universal-auth" "90d") "" (Some (mkRotation true "60d" "24h")) (Some (mkRevocation true "72h")).
Definition object (deleted : option Z) (status : SpokeMachineIdentityStatus) : SpokeMachineIdentity :=
  mkSMI "platform-capi" "a" 1 [smiFinalizer] deleted [mkOwner "SpokePool" "a" "u"] spec status.
Definition fresh_object : SpokeMachineIdentity := object None (mkStatus "" "" [] [] None None).
Definition going_object : SpokeMachineIdentity := object (Some 7%Z) (mkStatus "id1" "client" [] [] None None).
Definition place : key := ("platform-capi", "a").
Definition start (gone method lock : bool) (x : SpokeMachineIdentity) : @World (vault gone method) :=
  @mkWorld (vault gone method) ∅ {[place := x]} x (mkVault 0 lock) 0 "" 0 [] [].
Definition live_start := start false true false fresh_object.
Definition first_pass := Reconcile (flags "p") place live_start.
Definition second_pass := Reconcile (flags "p") place first_pass.2.
Lemma answered {A B} (p : A * B) a : p.1 = a → p = (a, p.2).
Proof. intros <-. apply surjective_pairing. Qed.
Lemma fresh_live : live fresh_object.
Proof. split; [reflexivity|apply list_elem_of_here]. Qed.
Lemma first_ok : Reconcile (flags "p") place live_start = (Ok (5 * ns_min)%Z, first_pass.2).
Proof. apply answered. vm_compute. reflexivity. Qed.
Lemma second_ok : Reconcile (flags "p") place first_pass.2 = (Ok (5 * ns_min)%Z, second_pass.2).
Proof. apply answered. vm_compute. reflexivity. Qed.
Definition second_object : SpokeMachineIdentity := default fresh_object (smis first_pass.2 !! place).

(** The second pass comes nanoseconds after the first, and mints again. *)
Lemma rotates_every_pass_witness :
  Forall (λ e, ¬ revokes e) (log second_pass.2)
  ∧ ∃ new, log second_pass.2 = (log first_pass.2 ++ new)%list ∧ List.Exists (@asks_secret (vault false true)) new.
Proof.
  apply (rotates_every_pass (flags "p") live_start first_pass.2 place second_object (5 * ns_min)%Z second_pass.2).
  - split; [|constructor]. apply map_Forall_singleton. reflexivity.
  - apply (h_pass (flags "p") live_start live_start place), h_start.
  - vm_compute. reflexivity.
  - split; [vm_compute; reflexivity|]. eapply (list_elem_of_lookup_2 _ 0). vm_compute. reflexivity.
  - vm_compute. reflexivity.
  - exact second_ok.
Defined.


Lemma requeue_bounds_witness : (ns_min ≤ 5 * ns_min ≤ 5 * ns_min)%Z.
Proof.
  apply (requeue_bounds (flags "p") live_start place fresh_object (5 * ns_min)%Z first_pass.2);
    [vm_compute; reflexivity|exact fresh_live|exact first_ok].
Defined.

Lemma issuer_written : ∃ s, Wrote ("platform-capi", "a-cluster-issuer") s ∈ log first_pass.2
  ∧ sec_Data s = {["cluster-issuer.yaml" := clusterIssuerYAML "https://infisical.test" "client" "p"]}.
Proof.
  eexists. split; [eapply (list_elem_of_lookup_2 _ 7); vm_compute; reflexivity|vm_compute; reflexivity].
Qed.
Lemma issuer_never_half_rendered_witness :
  ∃ url cid pid, clusterIssuerYAML "https://infisical.test" "client" "p" = clusterIssuerYAML url cid pid
    ∧ url ≠ "" ∧ cid ≠ "" ∧ pid ≠ "".
Proof.
  destruct issuer_written as (s & Hs & Hd).
  refine (issuer_never_half_rendered (flags "p") live_start first_pass.2 _ s _ eq_refl _ Hs Hd).
  apply (h_pass (flags "p") live_start live_start place), h_start.
Defined.

(** ** A locked identity *)

Definition locked_pass := Reconcile (flags "p") place (start false true true fresh_object).
Lemma lockout_grounded_witness :
  ∃ l1 tok rep l2, log locked_pass.2 = (l1 ++ Asked tok (Unlock "id1" "client") rep :: l2)%list
    ∧ ∃ cs msg, Asked "" (Login "client" cs) (Ok (401%Z, msg)) ∈ l1 ∧ Contains msg "temporarily locked" = true.
Proof.
  assert (H : log locked_pass.2 = (take 10 (log locked_pass.2) ++ Asked "tok" (Unlock "id1" "client") (Ok (200%Z, ""))
                :: drop 11 (log locked_pass.2))%list) by (vm_compute; reflexivity).
  eexists _, _, _, _. split; [exact H|].
  refine (lockout_grounded (flags "p") (start false true true fresh_object) place locked_pass.1 locked_pass.2 _ _ _ _ _ _ eq_refl _ H).
  unfold locked_pass. apply surjective_pairing.
Defined.

(** ** Deletion *)

Definition going_start := start false true false going_object.
Definition going_pass := Reconcile (flags "p") place going_start.
Lemma going_ran : Reconcile (flags "p") place going_start = (Ok 0%Z, going_pass.2).
Proof. apply answered. vm_compute. reflexivity. Qed.
Lemma released_after_removal_witness :
  ∃ x, smis going_start !! place = Some x ∧ DeletionTimestamp x ≠ None
    ∧ (owns_identity x → removed (IdentityID (Status x)) (log going_pass.2)).
Proof.
  refine (released_after_removal (flags "p") going_start place (Ok 0%Z) going_pass.2 place eq_refl going_ran _).
  eapply (list_elem_of_lookup_2 _ 2). vm_compute. reflexivity.
Defined.

Lemma gone_identity_blocks_deletion_witness :
  smis (Nat.iter 5 (λ w, (Reconcile (flags "p") place w).2) (start true true false going_object)) !! place = Some going_object.
Proof.
  apply (gone_identity_blocks_deletion (flags "p") (start true true false going_object) going_object 5).
  - vm_compute. reflexivity.
  - discriminate.
  - apply list_elem_of_here.
  - split; [discriminate|reflexivity].
  - intros tok s. eexists _, _, _. reflexivity.
Defined.

(** ** Without a login method, and without a project *)

Definition wedged_start := start false false false fresh_object.
Definition wedged_pass := Reconcile (flags "p") place wedged_start.
Lemma wedged_ran : Reconcile (flags "p") place wedged_start = (wedged_pass.1, wedged_pass.2).
Proof. unfold wedged_pass. apply surjective_pairing. Qed.
Lemma half_created_wedges_witness :
  (∃ e, wedged_pass.1 = Err e)
  ∧ ∃ new, log wedged_pass.2 = (log wedged_start ++ new)%list ∧ Forall (λ e, ¬ attaches e) new.
Proof.
  refine (half_created_wedges (flags "p") wedged_start place fresh_object "id1" wedged_pass.1 wedged_pass.2 _ fresh_live _ _ _ wedged_ran).
  - vm_compute. reflexivity.
  - discriminate.
  - intros tok s. eexists _, _, _, _. split; [reflexivity|]. split; [reflexivity|]. vm_compute. reflexivity.
  - intros tok s st body s' t [= <- _ _ _]. discriminate.
Defined.

Definition projectless_pass := Reconcile (flags "") place live_start.
Lemma projectless_ran : Reconcile (flags "") place live_start = (Ok (5 * ns_min)%Z, projectless_pass.2).
Proof. apply answered. vm_compute. reflexivity. Qed.
Lemma issuer_claimed_unrendered_witness :
  secrets projectless_pass.2 !! ("platform-capi", "a-cluster-issuer") = None
  ∧ ∃ y c, smis projectless_pass.2 !! place = Some y ∧ c ∈ Conditions (Status y)
      ∧ Type_ c = conditionTypeIssuerConfigured ∧ Status_ c = true.
Proof.
  refine (issuer_claimed_unrendered (flags "") fresh_object live_start place (5 * ns_min)%Z projectless_pass.2
            eq_refl _ fresh_live eq_refl _ _ projectless_ran).
  - vm_compute. reflexivity.
  - discriminate.
  - vm_compute. reflexivity.
Defined.
