(* ===== verification/HubSecrets.v ===== *)
(** * HubSecrets: the credentials the hub keeps for its spokes and tenants.

    Models operators/hub-operator: internal/secrets/infisical.go,
    internal/secrets/cluster_credentials.go and the generators of
    internal/secrets/generator.go they use. [Hub] is the secrets service, which answers
    each call as it likes and after any time, with the decoders of its replies, the JSON
    encoder and the random source. [World] is the state of the service, the clients of
    the process with their tokens and rotation times, the clock, the random bytes drawn
    so far, the log of what was asked, and the rest of the hub, of a type [K] of the
    caller's choice. A client is named by the environment it writes to. *)

From S2P Require Import Prelude.
From S2P Require Import GoRuntime.

Local Open Scope string_scope.

(** ** Strings and paths *)

Definition upper_ascii (c : Ascii.ascii) : Ascii.ascii :=
  let n := Ascii.nat_of_ascii c in
  if (97 <=? n)%nat && (n <=? 122)%nat then Ascii.ascii_of_nat (n - 32) else c.
(** strings.ToUpper on ASCII *)
Fixpoint ToUpper (s : string) : string :=
  match s with EmptyString => EmptyString | String c s => String (upper_ascii c) (ToUpper s) end.
(** strings.Trim(s, "/") *)
Fixpoint trim_left_slash (s : string) : string :=
  match s with String "/" s' => trim_left_slash s' | _ => s end.
Definition trim_slashes (s : string) : string :=
  String.rev (trim_left_slash (String.rev (trim_left_slash s))).

(** path.Clean of a relative path, on its elements, last first. *)
Definition clean_step (stack : list string) (e : string) : list string :=
  if String.eqb e "" || String.eqb e "." then stack
  else if String.eqb e ".." then
    match stack with
    | [] => [".."]
    | top :: rest => if String.eqb top ".." then ".." :: stack else rest
    end
  else e :: stack.
Definition path_clean (s : string) : string :=
  match reverse (foldl clean_step [] (Split s "/")) with
  | [] => "."
  | l => Join l "/"
  end.
(** path.Join of a relative path, "" for none yet, and one element. *)
Definition path_join2 (a b : string) : string :=
  if String.eqb a "" then path_clean b else path_clean (a +:+ "/" +:+ b).
(** path.Dir of a relative path *)
Definition path_dir (s : string) : string :=
  match removelast (Split s "/") with
  | [] => "."
  | l => path_clean (Join l "/")
  end.

(** hex.EncodeToString *)
Definition hex_digit (z : Z) : Ascii.ascii :=
  match String.get (Z.to_nat z) "0123456789abcdef" with Some c => c | None => "0"%char end.
Definition hex_encode (bs : list Z) : string :=
  foldr (λ b s, String (hex_digit (b / 16)) (String (hex_digit (b mod 16)) s)) "" bs.

(** ** Names of secrets *)

Definition shared_path (clusterName : string) : string := "/spoke-pool/" +:+ clusterName +:+ "/shared".
Definition tenant_path (clusterName appId : string) : string :=
  "/spoke-pool/" +:+ clusterName +:+ "/tenants/" +:+ appId.
Definition credentialRotationBackoff : Z := (15 * ns_min)%Z.

Definition OAuthKeySegment (clientName : string) : string := ToUpper (ReplaceAll clientName "-" "_").
Definition OAuthClientIdentifier (tenantId clientName : string) : string := tenantId +:+ "-" +:+ clientName.
Definition InfisicalCachePasswordKey : string := "CACHE_PASSWORD".
Definition InfisicalGatewayCookieSecretKey : string := "AGENTGATEWAY_OIDC_COOKIE_SECRET".
Definition InfisicalInternalTokenKey (appId : string) : string := OAuthKeySegment appId +:+ "_INTERNAL_TOKEN".
Definition InfisicalOAuthClientIDKey (clientName : string) : string :=
  "OAUTH_" +:+ OAuthKeySegment clientName +:+ "_CLIENT_ID".
Definition InfisicalOAuthClientSecretKey (clientName : string) : string :=
  "OAUTH_" +:+ OAuthKeySegment clientName +:+ "_CLIENT_SECRET".
Definition crossplane_key (spokeName : string) : string := spokeName +:+ "-crossplane-admin-password".
Definition FleetCredentialKeys : list string :=
  ["S3_ACCESS_KEY_ID"; "S3_SECRET_ACCESS_KEY"; "ALERT_SMTP_PASSWORD"; "GRAFANA_IRM_ALERTMANAGER_URL"].

(** ** The service *)

(** The calls of infisical.go, with what their URL and body carry. *)
Inductive Call :=
| Login (clientID clientSecret : string)
| MakeFolder (project env parent name : string)
| ReadSecret (project env path name : string)
| WriteNew (project env path name value : string)
| WriteOver (project env path name value : string)
| Remove (project env path name : string)
| NewIdentity (name orgID : string)
| AttachAuth (identityID : string) (trusted : list string) (ttl maxTTL numUsesLimit : Z) (lockout : Z * Z * Z)
| ReadAuth (identityID : string)
| NewClientSecret (identityID : string) (numUsesLimit ttl : Z)
| ListIdentities (orgID : string)
| Grant (project identityID role : string).

Class Hub := {
  HSt : Type;
  exchange : string → Call → HSt → result string (Z * string) * HSt * N;
  decode_login : string → option (string * Z);
  decode_value : string → option string;
  decode_identity : string → option string;
  decode_auth : string → option string;
  decode_secret : string → option string;
  decode_identities : string → option (list (string * string));
  unmarshal_credentials : string → option (string * string * string);
  marshal : list (string * string) → string;     (* of a map, by its keys in order *)
  random : nat → result string Z }.

Inductive Event := Asked (tok : string) (c : Call) (r : result string (Z * string)).

(** The process's own credentials and addresses. *)
Record InfisicalClient := mkInfisicalClient {
  ClientID : string;
  ClientSecret : string;
  ProjectID : string;
  OrganizationID : string;
  EnvironmentSlug : string }.
Record ClientSession := mkClientSession { token : string; tokenExp : Z; lastRotationAttempt : gmap string Z }.
Definition NewInfisicalClient : ClientSession := mkClientSession "" 0 ∅.

Inductive EnsureResult := EnsureCreated | EnsureAlreadyExists | EnsureMissing | EnsureRotated | EnsureSkipped.
#[export] Instance EnsureResult_eq_dec : EqDecision EnsureResult.
Proof. solve_decision. Defined.
Record EnsureTenantCredentialsResult := mkTenantResult {
  Result : EnsureResult;
  InfisicalCredsOutcome : EnsureResult;
  OAuthOutcome : EnsureResult;
  CacheOutcome : EnsureResult }.
Record OAuthClient := mkOAuthClient { oc_Name : string; Confidential : bool; PreviouslyProvisioned : bool }.
Record MaterialiseFleetCredentialsResult := mkFleetResult {
  Created : list string;
  Existing : list string;
  MissingAtRoot : list string }.

Section client.
Context {H : Hub} {K : Type}.

Record World := mkWorld {
  service : HSt;
  clients : gmap string ClientSession;
  now : Z;
  draws : nat;
  log : list Event;
  rest : K }.
Abbreviation M A := (goM World error A).

Definition with_clients (cs : gmap string ClientSession) (w : World) : World :=
  mkWorld (service w) cs (now w) (draws w) (log w) (rest w).
Definition with_draws (n : nat) (w : World) : World :=
  mkWorld (service w) (clients w) (now w) n (log w) (rest w).
Definition session (c : string) (w : World) : ClientSession := default NewInfisicalClient (clients w !! c).

Definition errorf {A} (s : string) : M A := throw (Errorf s).
(** httpClient.Do: the status and the body, or the error of the transport. *)
Definition Do (tok : string) (c : Call) : M (Z * string) := λ w,
  let '(r, s, t) := exchange tok c (service w) in
  let w' := mkWorld s (clients w) (now w + Z.of_N t)%Z (draws w) (log w ++ [Asked tok c r])%list (rest w) in
  match r with
  | Ok reply => (Ok reply, w')
  | Err e => (Err (Errorf e), w')
  end.
Definition decoded {A} (o : option A) : M A :=
  match o with Some a => mret a | None => errorf "decode" end.
Definition is_2xx (s : Z) : bool := (s =? 200)%Z || (s =? 201)%Z.

(** *** generator.go *)

(** rand.Read *)
Fixpoint Read (n : nat) : M (list Z) :=
  match n with
  | O => mret []
  | S n =>
      i ← gets draws;
      modify (with_draws (S i)) ;;
      match random i with
      | Ok b => bs ← Read n; mret ((b mod 256)%Z :: bs)
      | Err e => throw (Errorf e)
      end
  end.
Definition GenerateSecurePassword : M string :=
  bs ← wrapped "failed to generate random bytes" (Read 16); mret (hex_encode bs).
Definition GenerateHexKey (nbytes : Z) : M string :=
  if (nbytes <=? 0)%Z then errorf "key length must be positive"
  else bs ← wrapped "failed to generate random bytes" (Read (Z.to_nat nbytes)); mret (hex_encode bs).

(** *** The client *)

Context (cfg : InfisicalClient).

Definition ForEnvironment (slug : string) : M string :=
  let slug := TrimSpace slug in
  if String.eqb slug "" then errorf "no Infisical environment named for this target"
  else if String.eqb slug (EnvironmentSlug cfg) then mret slug
  else
    cs ← gets clients;
    match cs !! slug with
    | Some _ => mret slug
    | None => modify (λ w, with_clients (<[slug := NewInfisicalClient]> (clients w)) w) ;; mret slug
    end.

Definition authenticate (c : string) : M unit :=
  reply ← wrapped "failed to execute login request" (Do "" (Login (ClientID cfg) (ClientSecret cfg)));
  let '(status, body) := reply in
  if (500 <=? status)%Z then errorf "infisical authentication failed (transient)"
  else if negb (status =? 200)%Z then errorf ("authentication failed with status " +:+ pretty status +:+ ": " +:+ body)
  else
    login ← wrapped "failed to decode login response" (decoded (decode_login body));
    let '(accessToken, expiresIn) := login in
    modify (λ w, with_clients (<[c := mkClientSession accessToken (now w + as_int64 (expiresIn * ns_s))%Z
                                        (lastRotationAttempt (session c w))]> (clients w)) w).
Definition ensureAuthenticated (c : string) : M unit :=
  w ← get;
  if String.eqb (token (session c w)) "" || (tokenExp (session c w) <? now w + 5 * ns_min)%Z
  then authenticate c else mret ().
(** newAuthenticatedRequest: the token the request carries. *)
Definition newAuthenticatedRequest (c : string) : M string :=
  ensureAuthenticated c ;; gets (λ w, token (session c w)).

(** nil, or the error; the login is not kept. *)
Definition validateClientCredentials (clientID clientSecret : string) : M unit :=
  reply ← wrapped "failed to execute login request" (Do "" (Login clientID clientSecret));
  let '(status, _) := reply in
  if (status =? 200)%Z then mret ()
  else if (status =? 401)%Z || (status =? 403)%Z
  then throw (mkError ErrInvalidCredentials "invalid Universal Auth credentials")
  else if (500 <=? status)%Z then errorf "credential validation failed (transient)"
  else errorf ("credential validation failed with status " +:+ pretty status).

Definition rotationBackoffElapsed (c clusterName : string) (backoff : Z) : M bool :=
  w ← get;
  mret (match lastRotationAttempt (session c w) !! clusterName with
        | None => true
        | Some last => (backoff <=? time_sub (now w) last)%Z
        end).
Definition recordRotationAttempt (c clusterName : string) : M unit :=
  modify (λ w, with_clients (<[c := mkClientSession (token (session c w)) (tokenExp (session c w))
                                      (<[clusterName := now w]> (lastRotationAttempt (session c w)))]> (clients w)) w).

(** **** Folders *)

Definition make_folder (c parent name : string) : M unit :=
  tok ← wrapped ("failed to create request for folder " +:+ name) (newAuthenticatedRequest c);
  reply ← wrapped ("failed to execute folder request for " +:+ name) (Do tok (MakeFolder (ProjectID cfg) c parent name));
  let '(status, body) := reply in
  if (status =? 409)%Z || ((status =? 400)%Z && Contains body "already exists") then mret ()
  else if (500 <=? status)%Z then errorf ("failed to create folder " +:+ name +:+ " (transient)")
  else if negb (is_2xx status)
  then errorf ("failed to create folder " +:+ name +:+ " with status " +:+ pretty status +:+ ": " +:+ body)
  else mret ().
Fixpoint make_folders (c accumulated : string) (segments : list string) : M unit :=
  match segments with
  | [] => mret ()
  | segment :: segments =>
      if String.eqb segment "" then make_folders c accumulated segments
      else
        let accumulated := path_join2 accumulated segment in
        let parentPath := path_dir accumulated in
        make_folder c (if String.eqb parentPath "." then "/" else parentPath) segment ;;
        make_folders c accumulated segments
  end.
Definition EnsureFolder (c folderPath : string) : M unit :=
  if String.eqb folderPath "" || String.eqb folderPath "/" then mret ()
  else make_folders c "" (Split (trim_slashes folderPath) "/").

(** **** Secrets *)

Definition GetSecret (c secretPath secretName : string) : M string :=
  tok ← newAuthenticatedRequest c;
  reply ← wrapped ("failed to get secret " +:+ secretName) (Do tok (ReadSecret (ProjectID cfg) c secretPath secretName));
  let '(status, body) := reply in
  if (status =? 404)%Z then errorf ("secret " +:+ secretName +:+ " not found at path " +:+ secretPath)
  else if (500 <=? status)%Z then errorf ("get secret " +:+ secretName +:+ " (transient)")
  else if negb (status =? 200)%Z then errorf ("get secret " +:+ secretName +:+ " returned status " +:+ pretty status)
  else wrapped ("failed to decode secret " +:+ secretName) (decoded (decode_value body)).
Definition SecretExists (c secretPath secretName : string) : M bool :=
  tok ← newAuthenticatedRequest c;
  reply ← wrapped ("failed to check secret " +:+ secretName) (Do tok (ReadSecret (ProjectID cfg) c secretPath secretName));
  let '(status, _) := reply in
  if (status =? 404)%Z then mret false
  else if (500 <=? status)%Z then errorf ("check secret " +:+ secretName +:+ " (transient)")
  else if (status =? 200)%Z then mret true
  else errorf ("check secret " +:+ secretName +:+ " returned unexpected status " +:+ pretty status).
Definition CreateSecret (c secretPath secretName secretValue : string) : M unit :=
  tok ← newAuthenticatedRequest c;
  reply ← wrapped ("failed to create secret " +:+ secretName)
            (Do tok (WriteNew (ProjectID cfg) c secretPath secretName secretValue));
  let '(status, _) := reply in
  if (500 <=? status)%Z then errorf ("create secret " +:+ secretName +:+ " (transient)")
  else if negb (is_2xx status) then errorf ("create secret " +:+ secretName +:+ " returned status " +:+ pretty status)
  else mret ().
Definition UpdateSecret (c secretPath secretName secretValue : string) : M unit :=
  tok ← newAuthenticatedRequest c;
  reply ← wrapped ("failed to update secret " +:+ secretName)
            (Do tok (WriteOver (ProjectID cfg) c secretPath secretName secretValue));
  let '(status, _) := reply in
  if (status =? 404)%Z then errorf ("secret " +:+ secretName +:+ " not found (use CreateSecret)")
  else if (500 <=? status)%Z then errorf ("update secret " +:+ secretName +:+ " (transient)")
  else if negb (is_2xx status) then errorf ("update secret " +:+ secretName +:+ " returned status " +:+ pretty status)
  else mret ().
Definition DeleteSecret (c secretPath secretName : string) : M unit :=
  tok ← newAuthenticatedRequest c;
  reply ← wrapped ("failed to delete secret " +:+ secretName) (Do tok (Remove (ProjectID cfg) c secretPath secretName));
  let '(status, _) := reply in
  if (status =? 404)%Z then mret ()
  else if negb (status =? 200)%Z then errorf ("delete secret " +:+ secretName +:+ " returned status " +:+ pretty status)
  else mret ().

(** **** Machine identities *)

Definition getOrganizationID : M string :=
  if negb (String.eqb (OrganizationID cfg) "") then mret (OrganizationID cfg) else errorf "OrganizationID not configured".
Definition createMachineIdentityInInfisical (c name orgID : string) : M string :=
  tok ← newAuthenticatedRequest c;
  reply ← wrapped "failed to create identity" (Do tok (NewIdentity name orgID));
  let '(status, body) := reply in
  if negb (is_2xx status) then errorf ("create identity failed with status " +:+ pretty status)
  else wrapped "failed to decode identity response" (decoded (decode_identity body)).
Definition attachUniversalAuth (c identityID : string) : M unit :=
  tok ← newAuthenticatedRequest c;
  reply ← wrapped "failed to attach universal auth" 
            (Do tok (AttachAuth identityID ["0.0.0.0/0"; "::/0"] 2592000 2592000 0 (3, 300, 30)%Z));
  let '(status, body) := reply in
  if (status =? 400)%Z && Contains body "already configured" then mret ()
  else if negb (is_2xx status) then errorf ("attach universal auth failed with status " +:+ pretty status)
  else mret ().
Definition getClientIDFromUniversalAuth (c identityID : string) : M string :=
  tok ← newAuthenticatedRequest c;
  reply ← wrapped "failed to get universal auth" (Do tok (ReadAuth identityID));
  let '(status, body) := reply in
  if negb (status =? 200)%Z then errorf ("get universal auth failed with status " +:+ pretty status)
  else wrapped "failed to decode universal auth response" (decoded (decode_auth body)).
Definition generateClientSecret (c identityID : string) : M string :=
  tok ← newAuthenticatedRequest c;
  reply ← wrapped "failed to generate client secret" (Do tok (NewClientSecret identityID 0 0));
  let '(status, body) := reply in
  if negb (is_2xx status) then errorf ("generate client secret failed with status " +:+ pretty status)
  else wrapped "failed to decode client secret response" (decoded (decode_secret body)).
Fixpoint named (name : string) (l : list (string * string)) : string :=
  match l with
  | [] => ""
  | (id, n) :: l => if String.eqb n name then id else named name l
  end.
Definition findIdentityByName (c name orgID : string) : M string :=
  tok ← newAuthenticatedRequest c;
  reply ← wrapped "failed to list identities" (Do tok (ListIdentities orgID));
  let '(status, body) := reply in
  if negb (status =? 200)%Z then errorf ("list identities failed with status " +:+ pretty status)
  else l ← wrapped "failed to decode identities list" (decoded (decode_identities body)); mret (named name l).
Definition grantProjectAccess (c identityID role : string) : M unit :=
  tok ← newAuthenticatedRequest c;
  reply ← wrapped "failed to grant project access" (Do tok (Grant (ProjectID cfg) identityID role));
  let '(status, body) := reply in
  if ((status =? 400)%Z || (status =? 409)%Z) && (Contains body "already" || Contains body "exists") then mret ()
  else if negb (is_2xx status) then errorf ("grant project access failed with status " +:+ pretty status)
  else mret ().

(** ** Spoke credentials *)

(** The identity spoke-pool-<cluster> of the cluster, found or created, its client id and
    a new client secret; provisioning and rotation take the same steps. *)
Definition mint_credentials (c clusterName : string) : M (string * string) :=
  let identityName := "spoke-pool-" +:+ clusterName in
  orgID ← wrapped "failed to get organization ID" getOrganizationID;
  found ← wrapped ("failed to search for Machine Identity " +:+ identityName) (findIdentityByName c identityName orgID);
  identityID ← (if negb (String.eqb found "") then mret found
                else wrapped ("failed to create Machine Identity " +:+ identityName)
                       (createMachineIdentityInInfisical c identityName orgID));
  wrapped ("failed to attach Universal Auth to identity " +:+ identityID) (attachUniversalAuth c identityID) ;;
  clientID ← wrapped ("failed to get clientId for identity " +:+ identityID) (getClientIDFromUniversalAuth c identityID);
  clientSecret ← wrapped ("failed to generate client secret for identity " +:+ identityID) (generateClientSecret c identityID);
  _ ← attempt (grantProjectAccess c identityID "viewer");
  mret (clientID, clientSecret).
Definition credentials_json (clientID clientSecret projectID : string) : string :=
  marshal [("client-id", clientID); ("client-secret", clientSecret); ("project-id", projectID)].

Definition rotateSharedIdentityCredentials (c clusterName sharedPath storedProjectID : string) : M unit :=
  minted ← mint_credentials c clusterName;
  let '(clientID, clientSecret) := minted in
  let projectID := if String.eqb storedProjectID "" then ProjectID cfg else storedProjectID in
  wrapped "failed to update rotated infisical-credentials"
    (UpdateSecret c sharedPath "infisical-credentials" (credentials_json clientID clientSecret projectID)) ;;
  recordRotationAttempt c clusterName.

(** What the stored credentials come to: an outcome, or nothing that settles the pass. *)
Definition check_stored (c clusterName sharedPath : string) : M (option EnsureResult) :=
  stored ← attempt (GetSecret c sharedPath "infisical-credentials");
  match stored with
  | Err _ => mret None
  | Ok value =>
      match unmarshal_credentials value with
      | None => mret None
      | Some (clientID, clientSecret, projectID) =>
          if String.eqb clientID "" || String.eqb clientSecret "" then mret None
          else
            valid ← attempt (validateClientCredentials clientID clientSecret);
            match valid with
            | Ok _ => mret (Some EnsureAlreadyExists)
            | Err e =>
                if negb (bool_decide (err_is e = ErrInvalidCredentials))
                then throw (mkError (err_is e) ("failed to validate existing infisical-credentials: " +:+ Error e))
                else
                  elapsed ← rotationBackoffElapsed c clusterName credentialRotationBackoff;
                  if negb elapsed then mret (Some EnsureAlreadyExists)
                  else wrapped "failed to self-heal stale infisical-credentials"
                         (rotateSharedIdentityCredentials c clusterName sharedPath projectID) ;;
                       mret (Some EnsureRotated)
            end
      end
  end.
(** The result, nil where the computation fails, and the error beside it. *)
Definition EnsureInfisicalCredentials (c clusterName : string) (isFirstTime : bool) : M (EnsureResult * option error) :=
  let sharedPath := shared_path clusterName in
  wrapped "failed to create shared folder" (EnsureFolder c sharedPath) ;;
  settled ← check_stored c clusterName sharedPath;
  match settled with
  | Some r => mret (r, None)
  | None =>
      if negb isFirstTime
      then mret (EnsureMissing, Some (Errorf ("infisical-credentials missing from Infisical for already-provisioned SpokePool "
                                              +:+ clusterName +:+ " — manual recovery required")))
      else
        minted ← mint_credentials c clusterName;
        let '(clientID, clientSecret) := minted in
        wrapped "failed to push infisical-credentials secret"
          (CreateSecret c sharedPath "infisical-credentials" (credentials_json clientID clientSecret (ProjectID cfg))) ;;
        mret (EnsureCreated, None)
  end.

(** Every failure is reported as EnsureMissing. *)
Definition or_missing (m : M (EnsureResult * option error)) : M (EnsureResult * option error) :=
  r ← attempt m;
  match r with Ok r => mret r | Err e => mret (EnsureMissing, Some e) end.
Definition EnsureCrossplaneAdminPassword (c spokeName : string) (isFirstTime : bool) : M (EnsureResult * option error) :=
  let key := crossplane_key spokeName in
  or_missing (
    exists_ ← wrapped "failed to check Infisical for crossplane-admin password" (SecretExists c "/" key);
    if (exists_ : bool) then mret (EnsureAlreadyExists, None)
    else if negb isFirstTime
    then mret (EnsureMissing, Some (Errorf ("crossplane-admin password missing from Infisical for already-provisioned SpokePool "
                                            +:+ spokeName +:+ " - manual recovery required")))
    else
      password ← wrapped "failed to generate crossplane-admin password" GenerateSecurePassword;
      wrapped "failed to upload crossplane-admin password" (CreateSecret c "/" key password) ;;
      mret (EnsureCreated, None)).

Definition materialise_key (c sharedPath : string) (out : MaterialiseFleetCredentialsResult) (key : string) :
    M MaterialiseFleetCredentialsResult :=
  exists_ ← wrapped ("failed to check " +:+ key +:+ " at " +:+ sharedPath) (SecretExists c sharedPath key);
  if (exists_ : bool) then mret (mkFleetResult (Created out) (Existing out ++ [key])%list (MissingAtRoot out))
  else
    value ← attempt (GetSecret c "/" key);
    match value with
    | Ok value =>
        if String.eqb value "" then mret (mkFleetResult (Created out) (Existing out) (MissingAtRoot out ++ [key])%list)
        else
          wrapped ("failed to materialise " +:+ key +:+ " into " +:+ sharedPath) (CreateSecret c sharedPath key value) ;;
          mret (mkFleetResult (Created out ++ [key])%list (Existing out) (MissingAtRoot out))
    | Err _ => mret (mkFleetResult (Created out) (Existing out) (MissingAtRoot out ++ [key])%list)
    end.
Definition EnsureFleetCredentialsMaterialised (c clusterName : string) : M MaterialiseFleetCredentialsResult :=
  let sharedPath := shared_path clusterName in
  wrapped ("failed to ensure shared folder " +:+ sharedPath) (EnsureFolder c sharedPath) ;;
  foldM (materialise_key c sharedPath) FleetCredentialKeys (mkFleetResult [] [] []).

(** ** Tenant credentials *)

(** Step 1: the shared credentials, read and brought to the tenant's path. *)
Definition sync_credentials (c clusterName tenantId tenantPath : string) : M EnsureResult :=
  let name := "infisical-credentials" in
  sharedValue ← wrapped ("failed to read shared " +:+ name +:+ " for tenant " +:+ tenantId)
                  (GetSecret c (shared_path clusterName) name);
  tenantExists ← wrapped ("failed to check Infisical for " +:+ name) (SecretExists c tenantPath name);
  if (tenantExists : bool) then
    tenantValue ← wrapped ("failed to read tenant " +:+ name +:+ " at " +:+ tenantPath) (GetSecret c tenantPath name);
    if String.eqb tenantValue sharedValue then mret EnsureAlreadyExists
    else wrapped ("failed to update " +:+ name +:+ " for tenant " +:+ tenantId) (UpdateSecret c tenantPath name sharedValue) ;;
         mret EnsureCreated
  else wrapped ("failed to push " +:+ name +:+ " for tenant " +:+ tenantId) (CreateSecret c tenantPath name sharedValue) ;;
       mret EnsureCreated.
(** A value generated when the key is not there; whether it was. *)
Definition seed (c path tenantId key what : string) (generate : M string) : M bool :=
  exists_ ← wrapped ("failed to check Infisical for " +:+ key) (SecretExists c path key);
  if (exists_ : bool) then mret false
  else
    value ← wrapped ("failed to generate " +:+ what +:+ " for tenant " +:+ tenantId) generate;
    wrapped ("failed to write " +:+ key +:+ " for tenant " +:+ tenantId) (CreateSecret c path key value) ;;
    mret true.

(** One OAuth client; whether anything was written. *)
Definition ensure_client (c tenantPath tenantId : string) (outcome : EnsureResult) (client : OAuthClient) : M EnsureResult :=
  if negb (Confidential client) then mret outcome
  else
    let idKey := InfisicalOAuthClientIDKey (oc_Name client) in
    let secretKey := InfisicalOAuthClientSecretKey (oc_Name client) in
    let identifier := OAuthClientIdentifier tenantId (oc_Name client) in
    idFound ← wrapped ("failed to check Infisical for " +:+ idKey) (SecretExists c tenantPath idKey);
    storedID ← (if (idFound : bool) then wrapped ("failed to read " +:+ idKey +:+ " for tenant " +:+ tenantId) (GetSecret c tenantPath idKey)
                else mret "");
    outcome ← (if negb idFound
               then wrapped ("failed to write " +:+ idKey +:+ " for tenant " +:+ tenantId) (CreateSecret c tenantPath idKey identifier) ;;
                    mret EnsureCreated
               else if negb (String.eqb storedID identifier)
               then wrapped ("failed to repair " +:+ idKey +:+ " for tenant " +:+ tenantId) (UpdateSecret c tenantPath idKey identifier) ;;
                    mret EnsureCreated
               else mret outcome);
    secretExists ← wrapped ("failed to check Infisical for " +:+ secretKey) (SecretExists c tenantPath secretKey);
    if (secretExists : bool) then mret outcome
    else if PreviouslyProvisioned client
    then errorf (secretKey +:+ " missing from Infisical for already-provisioned client " +:+ oc_Name client +:+ " of tenant "
                 +:+ tenantId +:+ " — manual recovery required")
    else
      value ← wrapped ("failed to generate credential for client " +:+ oc_Name client +:+ " of tenant " +:+ tenantId)
                GenerateSecurePassword;
      wrapped ("failed to write " +:+ secretKey +:+ " for tenant " +:+ tenantId) (CreateSecret c tenantPath secretKey value) ;;
      mret EnsureCreated.
(** The outcome that comes with an error is not read. *)
Definition ensureOAuthClientCredentials (c tenantPath tenantId : string) (clients : list OAuthClient) : M EnsureResult :=
  foldM (ensure_client c tenantPath tenantId) clients EnsureAlreadyExists.

Definition or_created (b : bool) (r : EnsureResult) : EnsureResult := if b then EnsureCreated else r.
Definition db_json (password : string) : string := marshal [("password", password)].
(** Steps 3 to 5, after the database's credentials. A field left out of a result is the
    first value of its type, EnsureCreated. *)
Definition ensure_rest (c tenantPath tenantId appId : string) (oauthClients : list OAuthClient)
    (cacheIsFirstTime gatewayEnabled : bool) (dbOutcome credsOutcome : EnsureResult) :
    M (EnsureTenantCredentialsResult * option error) :=
  let cacheKey := InfisicalCachePasswordKey in
  cacheExists ← wrapped ("failed to check Infisical for " +:+ cacheKey) (SecretExists c tenantPath cacheKey);
  if negb cacheExists && negb cacheIsFirstTime
  then mret (mkTenantResult dbOutcome credsOutcome EnsureCreated EnsureAlreadyExists,
             Some (Errorf (cacheKey +:+ " missing from Infisical for already-provisioned tenant " +:+ tenantId
                           +:+ " — manual recovery required")))
  else
    (if (cacheExists : bool) then mret ()
     else value ← wrapped ("failed to generate cache credential for tenant " +:+ tenantId) GenerateSecurePassword;
          wrapped ("failed to write " +:+ cacheKey +:+ " for tenant " +:+ tenantId) (CreateSecret c tenantPath cacheKey value)) ;;
    let cacheOutcome := or_created (negb cacheExists) EnsureAlreadyExists in
    let dbOutcome := or_created (negb cacheExists) dbOutcome in
    cookie ← (if gatewayEnabled then seed c tenantPath tenantId InfisicalGatewayCookieSecretKey "gateway cookie key" (GenerateHexKey 32) else mret false);
    let dbOutcome := or_created cookie dbOutcome in
    tok ← seed c tenantPath tenantId (InfisicalInternalTokenKey appId) "internal token" (GenerateHexKey 32);
    let dbOutcome := or_created tok dbOutcome in
    oauth ← attempt (ensureOAuthClientCredentials c tenantPath tenantId oauthClients);
    match oauth with
    | Ok oauthOutcome => mret (mkTenantResult dbOutcome credsOutcome oauthOutcome cacheOutcome, None)
    | Err e => mret (mkTenantResult dbOutcome credsOutcome EnsureMissing cacheOutcome, Some e)
    end.
(** [cacheEnabled] is only logged. *)
Definition EnsureTenantFolderAndCredentials (c clusterName tenantId appId : string) (isFirstTime : bool)
    (oauthClients : list OAuthClient) (cacheEnabled cacheIsFirstTime gatewayEnabled : bool) :
    M (EnsureTenantCredentialsResult * option error) :=
  let tenantPath := tenant_path clusterName appId in
  wrapped "failed to create tenant folder" (EnsureFolder c tenantPath) ;;
  credsOutcome ← sync_credentials c clusterName tenantId tenantPath;
  dbExists ← wrapped "failed to check Infisical for db-credentials" (SecretExists c tenantPath "db-credentials");
  if negb dbExists && negb isFirstTime
  then mret (mkTenantResult EnsureMissing credsOutcome EnsureCreated EnsureSkipped,
             Some (Errorf ("db-credentials missing from Infisical for already-provisioned tenant " +:+ tenantId
                           +:+ " — manual recovery required")))
  else
    (if (dbExists : bool) then mret ()
     else password ← wrapped ("failed to generate password for tenant " +:+ tenantId) GenerateSecurePassword;
          wrapped ("failed to push db-credentials for tenant " +:+ tenantId)
            (CreateSecret c tenantPath "db-credentials" (db_json password))) ;;
    ensure_rest c tenantPath tenantId appId oauthClients cacheIsFirstTime gatewayEnabled
      (or_created (negb dbExists) EnsureAlreadyExists) credsOutcome.
End client.
