(* ===== verification/HubSecretsFacts.v ===== *)
(** * HubSecretsFacts: what happens to stored credentials.

    [VaultLaws] is what the hub relies on of the secrets service: reads answer from the
    store, a secret is created only where there is none and replaced only where there is
    one, and no call changes anything else, while any call may fail, before or after it
    acted. Proved against it: generated values are never replaced, what a tenant holds
    after a pass that succeeds, what a cell is given of the fleet's credentials, that a
    loss is not papered over, and the spacing of rotations. *)

From S2P Require Import Prelude.
From S2P Require Import GoRuntime.
From S2P Require Import HubSecrets.

Local Open Scope string_scope.

(** ** The service's contract *)

(** Project, environment, path and name. *)
Abbreviation place := (string * string * string * string)%type.

(** What a call may make of the store: nothing, or this. *)
Definition change (c : Call) (m : gmap place string) : option (gmap place string) :=
  match c with
  | WriteNew p e d n v => match m !! (p, e, d, n) with None => Some (<[(p, e, d, n) := v]> m) | Some _ => None end
  | WriteOver p e d n v => match m !! (p, e, d, n) with Some _ => Some (<[(p, e, d, n) := v]> m) | None => None end
  | Remove p e d n => match m !! (p, e, d, n) with Some _ => Some (delete (p, e, d, n) m) | None => None end
  | _ => None
  end.
Definition writes (c : Call) : bool :=
  match c with WriteNew _ _ _ _ _ | WriteOver _ _ _ _ _ | Remove _ _ _ _ => true | _ => false end.
Class VaultLaws (H : Hub) := {
  stored : HSt → gmap place string;
  vault_step tok c s r s' t :
    exchange tok c s = (r, s', t) → stored s' = stored s ∨ change c (stored s) = Some (stored s');
  vault_done tok c s st b s' t :
    exchange tok c s = (Ok (st, b), s', t) → is_2xx st = true → writes c = true → change c (stored s) = Some (stored s');
  vault_found tok p e d n s b s' t :
    exchange tok (ReadSecret p e d n) s = (Ok (200%Z, b), s', t) →
    ∃ v, stored s !! (p, e, d, n) = Some v ∧ decode_value b = Some v;
  vault_missing tok p e d n s b s' t :
    exchange tok (ReadSecret p e d n) s = (Ok (404%Z, b), s', t) → stored s !! (p, e, d, n) = None }.

(** The call replaces or removes what is kept at [k]. *)
Definition overwrites (k : place) (c : Call) : Prop :=
  match c with
  | WriteOver p e d n _ | Remove p e d n => k = (p, e, d, n)
  | _ => False
  end.
Definition removes (c : Call) : Prop := match c with Remove _ _ _ _ => True | _ => False end.
Definition creates (k : place) (c : Call) : Prop := match c with WriteNew p e d n _ => k = (p, e, d, n) | _ => False end.

Section laws.
Context {H : Hub} {L : VaultLaws H} {K : Type} (cfg : InfisicalClient).
Implicit Types (w : @World H K) (k : place).
Abbreviation M A := (goM (@World H K) error A).

Definition holds (k : place) (v : string) w : Prop := stored (service w) !! k = Some v.
Definition present (k : place) w : Prop := is_Some (stored (service w) !! k).
Definition vacant (k : place) w : Prop := stored (service w) !! k = None.

Lemma change_holds c m m' k v : ¬ overwrites k c → change c m = Some m' → m !! k = Some v → m' !! k = Some v.
Proof.
  intros Hc. destruct c; cbn in *; try done; destruct (m !! _) eqn:E; intros [= <-] Hk; try done.
  - rewrite lookup_insert_ne; [done|]. intros <-. congruence.
  - rewrite lookup_insert_ne; [done|]. congruence.
  - rewrite lookup_delete_ne; [done|]. congruence.
Qed.
Lemma change_present c m m' k : ¬ removes c → change c m = Some m' → is_Some (m !! k) → is_Some (m' !! k).
Proof.
  intros Hc. destruct c; cbn in *; try done; destruct (m !! _) eqn:E; intros [= <-] Hk; try done.
  all: destruct (decide (k = (project, env, path, name))) as [->|]; [by rewrite lookup_insert_eq|by rewrite lookup_insert_ne].
Qed.
Lemma change_vacant c m m' k : ¬ creates k c → change c m = Some m' → m !! k = None → m' !! k = None.
Proof.
  intros Hc. destruct c; cbn in *; try done; destruct (m !! _) eqn:E; intros [= <-] Hk; try done.
  - rewrite lookup_insert_ne; [done|]. congruence.
  - rewrite lookup_insert_ne; [done|]. intros <-. congruence.
  - destruct (decide (k = (project, env, path, name))) as [->|]; [by rewrite lookup_delete_eq|by rewrite lookup_delete_ne].
Qed.

(** The state of the store after one exchange. *)
Lemma Do_store tok c w :
  stored (service (Do (K := K) tok c w).2) = stored (service w)
  ∨ change c (stored (service w)) = Some (stored (service (Do (K := K) tok c w).2)).
Proof.
  unfold Do. destruct (exchange tok c (service w)) as [[r s] t] eqn:E. apply vault_step in E. by destruct r.
Qed.
Lemma keeps_Do_holds k v tok c : ¬ overwrites k c → keeps (holds k v) (Do tok c : M _).
Proof.
  intros Hc w Hw. unfold holds in *. destruct (Do_store tok c w) as [->|E]; [done|]. by eapply change_holds.
Qed.
Lemma keeps_Do_present k tok c : ¬ removes c → keeps (present k) (Do tok c : M _).
Proof.
  intros Hc w Hw. unfold present in *. destruct (Do_store tok c w) as [->|E]; [done|]. by eapply change_present.
Qed.
Lemma keeps_Do_vacant k tok c : ¬ creates k c → keeps (vacant k) (Do tok c : M _).
Proof.
  intros Hc w Hw. unfold vacant in *. destruct (Do_store tok c w) as [->|E]; [done|]. by eapply change_vacant.
Qed.
End laws.

(** ** Programs by the calls they make *)

(** [m] acts on the service only through calls of the sort [P], and on the rest of the
    state only by changes of the sort [R]: it keeps whatever these keep. *)
Definition acts {H : Hub} {K A} (R : @World H K → @World H K → Prop) (P : Call → Prop) (m : goM (@World H K) error A) : Prop :=
  ∀ J, (∀ w w', R w w' → J w → J w') → (∀ tok c, P c → keeps J (Do tok c)) → keeps J m.
(** The changes of the client itself: its sessions and the random bytes it has drawn. *)
Definition own {H : Hub} {K} (w w' : @World H K) : Prop :=
  service w' = service w ∧ now w' = now w ∧ log w' = log w ∧ rest w' = rest w.

Section acts_rules.
Context {H : Hub} {K : Type} (cfg : InfisicalClient) (R : @World H K → @World H K → Prop) (P : Call → Prop).
Abbreviation M A := (goM (@World H K) error A).

Lemma acts_ret {A} (a : A) : acts R P (mret a : M A).
Proof. intros J _ _. apply keeps_ret. Qed.
Lemma acts_throw {A} e : acts R P (throw e : M A).
Proof. intros J _ _. apply keeps_throw. Qed.
Lemma acts_get : acts R P (get : M _).
Proof. intros J _ _. apply keeps_get. Qed.
Lemma acts_gets {A} (f : @World H K → A) : acts R P (gets f : M A).
Proof. intros J _ _. apply keeps_gets. Qed.
Lemma acts_modify f : (∀ w, R w (f w)) → acts R P (modify f : M _).
Proof. intros Hf J HR _. apply keeps_modify. intros w. by apply HR. Qed.
Lemma acts_bind {A B} (m : M A) (f : A → M B) : acts R P m → (∀ a, acts R P (f a)) → acts R P (m ≫= f).
Proof. intros Hm Hf J HR HJ. apply keeps_bind; [by apply Hm|intros a; by apply Hf]. Qed.
Lemma acts_attempt {A} (m : M A) : acts R P m → acts R P (attempt m).
Proof. intros Hm J HR HJ. apply keeps_attempt. by apply Hm. Qed.
Lemma acts_wrapped {A} what (m : M A) : acts R P m → acts R P (wrapped what m).
Proof. intros Hm J HR HJ. apply keeps_wrapped. by apply Hm. Qed.
Lemma acts_forM {A} (l : list A) (f : A → M unit) : (∀ x, x ∈ l → acts R P (f x)) → acts R P (forM l f).
Proof. intros Hf J HR HJ. apply keeps_forM. intros x Hx. by apply Hf. Qed.
Lemma acts_foldM {A B} (f : B → A → M B) (l : list A) b : (∀ b x, x ∈ l → acts R P (f b x)) → acts R P (foldM f l b).
Proof. intros Hf J HR HJ. apply keeps_foldM. intros y x Hx. by apply Hf. Qed.
Lemma acts_Do tok c : P c → acts R P (Do tok c : M _).
Proof. intros Hc J _ HJ. by apply HJ. Qed.
Lemma acts_weaken {A} (R' : @World H K → @World H K → Prop) (Q : Call → Prop) (m : M A) :
  (∀ w w', R w w' → R' w w') → (∀ c, P c → Q c) → acts R P m → acts R' Q m.
Proof. intros HR HP Hm J HJ HJ'. apply Hm; [intros w w' Hw; by apply HJ, HR|intros tok c Hc; by apply HJ', HP]. Qed.

Lemma acts_Read n : (∀ w i, R w (with_draws i w)) → acts R P (Read n : M _).
Proof.
  intros HR. induction n as [|n IH]; cbn [Read]; [apply acts_ret|]. apply acts_bind; [apply acts_gets|intros i].
  apply acts_bind; [by apply acts_modify|intros _]. destruct (random i); [|apply acts_throw].
  apply acts_bind; [done|intros ?; apply acts_ret].
Qed.
End acts_rules.

Create HintDb changes.
(** Walks a program and leaves the calls it makes as goals; [more] knows the recursive
    programs. *)
Ltac walk_with more :=
  repeat lazymatch goal with
    | |- acts _ _ (match ?x with _ => _ end) => destruct x eqn:?
    | |- acts _ _ (let (_, _) := ?x in _) => destruct x eqn:?
    | |- acts _ _ (_ ≫= _) => apply acts_bind
    | |- acts _ _ (attempt _) => apply acts_attempt
    | |- acts _ _ (wrapped _ _) => apply acts_wrapped
    | |- acts _ _ (forM _ _) => apply acts_forM
    | |- acts _ _ (foldM _ _ _) => apply acts_foldM
    | |- acts _ _ (Do _ _) => apply acts_Do
    | |- acts _ _ (mret _) => apply acts_ret
    | |- acts _ _ (throw _) => apply acts_throw
    | |- acts _ _ (gets _) => apply acts_gets
    | |- acts _ _ get => apply acts_get
    | |- acts _ _ (Read _) => apply acts_Read
    | |- acts _ _ (modify _) => apply acts_modify
    | |- acts _ _ (let x := _ in _) => cbn zeta
    | |- acts _ _ ((λ x, _) _) => cbn beta
    | |- acts _ _ ?c => first [ more | let h := head_of c in unfold h ]
    | |- ∀ w : World, acts _ _ _ => intro
    | |- ∀ w : World, own w _ => by intros ?
    | |- ∀ w i, own w (with_draws i w) => by intros ??
    | |- ∀ w : World, _ => solve [intros; eauto with changes nocore]
    | |- ∀ _, _ => intro
    end; try done; try by intros [].

Section acts_facts.
Context {H : Hub} {K : Type} (cfg : InfisicalClient) (R : @World H K → @World H K → Prop) (P : Call → Prop).
Abbreviation M A := (goM (@World H K) error A).

Lemma acts_login c :
  (∀ i s, P (Login i s)) → (∀ w t e, R w (with_clients (<[c := mkClientSession t e (lastRotationAttempt (session c w))]> (clients w)) w)) →
  acts R P (newAuthenticatedRequest cfg c : M _).
Proof. intros Hl HR. walk_with fail. Qed.
Lemma acts_make_folders c acc segments :
  (∀ i s, P (Login i s)) → (∀ w t e, R w (with_clients (<[c := mkClientSession t e (lastRotationAttempt (session c w))]> (clients w)) w)) →
  (∀ d n, P (MakeFolder (ProjectID cfg) c d n)) → acts R P (make_folders cfg c acc segments : M _).
Proof.
  intros Hl HR Hf. revert acc. induction segments as [|s l IH]; intros acc; cbn [make_folders];
    walk_with ltac:(by apply acts_login).
Qed.
(** The rest of the hub is not the client's to change. *)
Lemma rest_own {A} (m : M A) w r w' : acts own (λ _, True) m → m w = (r, w') → rest w' = rest w.
Proof.
  intros Ha E. assert (keeps (λ u, rest u = rest w) m) as Hk.
  { apply Ha; [intros u u' (_ & _ & _ & Eu) Hu; by rewrite Eu|]. intros tok c _ u Hu. unfold Do.
    destruct (exchange _ _ _) as [[r' s] t]. by destruct r'. }
  specialize (Hk w eq_refl). by rewrite E in Hk.
Qed.
End acts_facts.
Ltac walk_acts := walk_with ltac:(first [apply acts_make_folders | apply acts_login]).

Section kept.
Context {H : Hub} {L : VaultLaws H} {K : Type} (cfg : InfisicalClient).
Implicit Types (w : @World H K) (k : place).
Abbreviation M A := (goM (@World H K) error A).

Lemma acts_holds {A} k v (m : M A) : acts own (λ c, ¬ overwrites k c) m → keeps (holds k v) m.
Proof. intros Hm. apply Hm; [intros w w' (E & _) Hw; unfold holds; by rewrite E|intros tok c; by apply keeps_Do_holds]. Qed.
Lemma acts_present {A} k (m : M A) : acts own (λ c, ¬ removes c) m → keeps (present k) m.
Proof. intros Hm. apply Hm; [intros w w' (E & _) Hw; unfold present; by rewrite E|intros tok c; by apply keeps_Do_present]. Qed.
Lemma acts_vacant {A} k (m : M A) : acts own (λ c, ¬ creates k c) m → keeps (vacant k) m.
Proof. intros Hm. apply Hm; [intros w w' (E & _) Hw; unfold vacant; by rewrite E|intros tok c; by apply keeps_Do_vacant]. Qed.

(** Where the client [c] of the process keeps a secret. *)
Definition at_place (c path name : string) : place := (ProjectID cfg, c, path, name).
Definition shared_creds (c clusterName : string) : place := at_place c (shared_path clusterName) "infisical-credentials".
Definition tenant_place (c clusterName appId name : string) : place := at_place c (tenant_path clusterName appId) name.

(** *** Single calls *)

(** A read or a write of one secret, seen at the state [w1] in which it is made. *)
Lemma Do_ok tok c w st b w' :
  (Do tok c : M _) w = (Ok (st, b), w') →
  ∃ s t, exchange tok c (service w) = (Ok (st, b), s, t) ∧ service w' = s.
Proof.
  unfold Do. destruct (exchange tok c (service w)) as [[[[st' b']|e] s] t] eqn:E; [|done]. intros [= <- <- <-]. eauto.
Qed.
Lemma Do_quiet tok c w : writes c = false → stored (service (Do (K := K) tok c w).2) = stored (service w).
Proof. intros Hc. destruct (Do_store tok c w) as [E|E]; [done|]. by destruct c. Qed.
Lemma acts_quiet {A} (m : M A) w r w' : acts own (λ c', writes c' = false) m → m w = (r, w') → stored (service w') = stored (service w).
Proof.
  intros Ha E. assert (keeps (λ u, stored (service u) = stored (service w)) m) as Hk.
  { apply Ha; [intros u u' (Eu & _) Hu; by rewrite Eu|]. intros tok c Hc u Hu. by rewrite Do_quiet. }
  specialize (Hk w eq_refl). by rewrite E in Hk.
Qed.
Lemma login_store c w r w' : (newAuthenticatedRequest cfg c : M _) w = (r, w') → stored (service w') = stored (service w).
Proof. apply acts_quiet. walk_acts. Qed.

Lemma GetSecret_ok c path name w v w' :
  (GetSecret cfg c path name : M _) w = (Ok v, w') →
  stored (service w') = stored (service w) ∧ holds (at_place c path name) v w.
Proof.
  unfold GetSecret. intros (tok & w1 & E1 & E)%bind_inv_ok. apply login_store in E1.
  apply bind_inv_ok in E as ([st b] & w2 & E2 & E). apply wrapped_inv in E2.
  pose proof (Do_quiet tok (ReadSecret (ProjectID cfg) c path name) w1 eq_refl) as Hq. rewrite E2 in Hq. cbn in Hq.
  apply Do_ok in E2 as (s & t & Hx & _).
  destruct (st =? 404)%Z; [done|]. destruct (500 <=? st)%Z; [done|]. destruct (st =? 200)%Z eqn:Est; [|done].
  apply Z.eqb_eq in Est as ->. apply vault_found in Hx as (v' & Hv & Hd). rewrite Hd in E. cbn in E. simplify_eq.
  unfold holds. rewrite Hq, E1 in *. done.
Qed.
Lemma SecretExists_ok c path name w b w' :
  (SecretExists cfg c path name : M _) w = (Ok b, w') →
  stored (service w') = stored (service w) ∧ if b then present (at_place c path name) w else vacant (at_place c path name) w.
Proof.
  unfold SecretExists. intros (tok & w1 & E1 & E)%bind_inv_ok. apply login_store in E1.
  apply bind_inv_ok in E as ([st body] & w2 & E2 & E). apply wrapped_inv in E2.
  pose proof (Do_quiet tok (ReadSecret (ProjectID cfg) c path name) w1 eq_refl) as Hq. rewrite E2 in Hq. cbn in Hq.
  apply Do_ok in E2 as (s & t & Hx & _). unfold present, vacant, at_place.
  destruct (st =? 404)%Z eqn:E4.
  { apply Z.eqb_eq in E4 as ->. apply vault_missing in Hx. injection E as <- <-. rewrite E1 in *. done. }
  destruct (500 <=? st)%Z; [done|]. destruct (st =? 200)%Z eqn:Est; [|done].
  apply Z.eqb_eq in Est as ->. apply vault_found in Hx as (v' & Hv & Hd). injection E as <- <-. rewrite E1 in *. split; [done|]. by rewrite Hv.
Qed.
(** A write that reports success. *)
Lemma CreateSecret_ok c path name v w w' :
  (CreateSecret cfg c path name v : M _) w = (Ok (), w') →
  vacant (at_place c path name) w ∧ stored (service w') = <[at_place c path name := v]> (stored (service w)).
Proof.
  unfold CreateSecret. intros (tok & w1 & E1 & E)%bind_inv_ok. apply login_store in E1.
  apply bind_inv_ok in E as ([st body] & w2 & E2 & E). apply wrapped_inv in E2. apply Do_ok in E2 as (s & t & Hx & <-).
  destruct (500 <=? st)%Z; [done|]. destruct (is_2xx st) eqn:Est; [|done]. injection E as <-.
  pose proof (vault_done _ _ _ _ _ _ _ Hx Est eq_refl) as Hc. cbn in Hc. rewrite E1 in Hc. unfold vacant, at_place.
  destruct (stored (service w) !! _) eqn:Ek; [done|]. by simplify_eq.
Qed.
Lemma UpdateSecret_ok c path name v w w' :
  (UpdateSecret cfg c path name v : M _) w = (Ok (), w') →
  present (at_place c path name) w ∧ stored (service w') = <[at_place c path name := v]> (stored (service w)).
Proof.
  unfold UpdateSecret. intros (tok & w1 & E1 & E)%bind_inv_ok. apply login_store in E1.
  apply bind_inv_ok in E as ([st body] & w2 & E2 & E). apply wrapped_inv in E2. apply Do_ok in E2 as (s & t & Hx & <-).
  destruct (st =? 404)%Z; [done|]. destruct (500 <=? st)%Z; [done|]. destruct (is_2xx st) eqn:Est; [|done]. injection E as <-.
  pose proof (vault_done _ _ _ _ _ _ _ Hx Est eq_refl) as Hc. cbn in Hc. rewrite E1 in Hc. unfold present, at_place.
  destruct (stored (service w) !! _) eqn:Ek; [|done]. by simplify_eq.
Qed.
End kept.
