(* ===== verification/HubTenantFacts.v ===== *)
(** * HubTenantFacts: the credentials of a tenant.

    Generated values are never replaced; a pass that succeeds leaves every credential of
    the tenant in place, its copies equal to what they are copied from; and a credential
    lost after it was provisioned is reported and not generated again. *)

From S2P Require Import Prelude.
From S2P Require Import GoRuntime.
From S2P Require Import HubSecrets.
From S2P Require Import HubSecretsFacts.

Local Open Scope string_scope.

Section tenant.
Context {H : Hub} {L : VaultLaws H} {K : Type} (cfg : InfisicalClient) (c clusterName tenantId appId : string).
Implicit Types (w : @World H K) (k : place) (x : OAuthClient).
Abbreviation M A := (goM (@World H K) error A).
Abbreviation here := (tenant_place cfg c clusterName appId).
Abbreviation pass first ocs cacheOn cacheFirst gw :=
  (EnsureTenantFolderAndCredentials cfg c clusterName tenantId appId first ocs cacheOn cacheFirst gw : M _).
Abbreviation id_place x := (here (InfisicalOAuthClientIDKey (oc_Name x))).
Abbreviation secret_place x := (here (InfisicalOAuthClientSecretKey (oc_Name x))).

(** A pass over a tenant, whatever the service answers and wherever it fails, leaves every
    stored secret as it is, except the copy of the machine identity's credentials in
    the tenant's folder and the derived identifiers of its declared confidential clients. *)
Theorem generated_kept first ocs cacheOn cacheFirst gw k v w r w' :
  pass first ocs cacheOn cacheFirst gw w = (r, w') →
  k ≠ here "infisical-credentials" → (∀ x, x ∈ ocs → Confidential x = true → k ≠ id_place x) →
  stored (service w) !! k = Some v → stored (service w') !! k = Some v.
Proof.
  intros E Hk Hid Hv. assert (acts own (λ c', ¬ overwrites k c') (pass first ocs cacheOn cacheFirst gw)) as Ha.
  { walk_acts. cbn. intros ->. destruct (Confidential x) eqn:Ex; [|done]. by eapply Hid. }
  generalize (acts_holds k v _ Ha w Hv). by rewrite E.
Qed.

(** *** The steps of a pass that succeeds *)

Lemma run_present {A} k (m : M A) w r w' : acts own (λ c', ¬ removes c') m → m w = (r, w') → present k w → present k w'.
Proof. intros Ha E Hk. generalize (acts_present k m Ha w Hk). by rewrite E. Qed.
Lemma run_holds {A} k v (m : M A) w r w' : acts own (λ c', ¬ overwrites k c') m → m w = (r, w') → holds k v w → holds k v w'.
Proof. intros Ha E Hk. generalize (acts_holds k v m Ha w Hk). by rewrite E. Qed.
Lemma holds_inserted k v w w' : stored (service w') = <[k := v]> (stored (service w)) → holds k v w'.
Proof. unfold holds. intros ->. apply lookup_insert_eq. Qed.
Lemma holds_present k v w : holds k v w → present k w.
Proof. by exists v. Qed.

Lemma seed_ok path key what gen w b w' : acts own (λ c', ¬ removes c') (gen : M _) →
  seed cfg c path tenantId key what gen w = (Ok b, w') → present (at_place cfg c path key) w'.
Proof.
  unfold seed. intros Hg (e & w1 & E1 & E)%bind_inv_ok. apply wrapped_inv, SecretExists_ok in E1 as [S1 P1].
  destruct e.
  - injection E as <- <-. unfold present in *. by rewrite S1.
  - apply bind_inv_ok in E as (v & w2 & E2 & E). apply bind_inv_ok in E as ([] & w3 & E3 & E).
    apply wrapped_inv, CreateSecret_ok in E3 as [_ S3]. injection E as <- <-. eapply holds_present, holds_inserted, S3.
Qed.
Lemma sync_ok w r w' :
  (sync_credentials cfg c clusterName tenantId (tenant_path clusterName appId) : M _) w = (Ok r, w') →
  ∃ v, holds (shared_creds cfg c clusterName) v w' ∧ holds (here "infisical-credentials") v w'.
Proof.
  assert (shared_creds cfg c clusterName ≠ here "infisical-credentials") as Hne.
  { unfold shared_creds, tenant_place, at_place, shared_path, tenant_path. intros [= E].
    apply (inj (String.append clusterName)) in E. discriminate E. }
  unfold sync_credentials. intros (v & w1 & E1 & E)%bind_inv_ok. apply wrapped_inv, GetSecret_ok in E1 as [S1 P1].
  exists v. apply bind_inv_ok in E as (e & w2 & E2 & E). apply wrapped_inv, SecretExists_ok in E2 as [S2 P2].
  unfold holds in *. destruct e.
  - apply bind_inv_ok in E as (tv & w3 & E3 & E). apply wrapped_inv, GetSecret_ok in E3 as [S3 P3]. unfold holds in P3.
    destruct (String.eqb tv v) eqn:Etv.
    + apply String.eqb_eq in Etv as ->. injection E as <- <-. unfold shared_creds, tenant_place. split; congruence.
    + apply bind_inv_ok in E as ([] & w4 & E4 & E). apply wrapped_inv, UpdateSecret_ok in E4 as [_ S4]. injection E as <- <-.
      rewrite S4. split; [|apply lookup_insert_eq]. rewrite lookup_insert_ne by done. unfold shared_creds. congruence.
  - apply bind_inv_ok in E as ([] & w4 & E4 & E). apply wrapped_inv, CreateSecret_ok in E4 as [_ S4]. injection E as <- <-.
    rewrite S4. split; [|apply lookup_insert_eq]. rewrite lookup_insert_ne by done. unfold shared_creds. congruence.
Qed.

(** Two clients share a key only if they have one name. *)
Definition distinct_keys (ocs : list OAuthClient) : Prop :=
  ∀ x y, x ∈ ocs → y ∈ ocs → OAuthKeySegment (oc_Name x) = OAuthKeySegment (oc_Name y) → oc_Name x = oc_Name y.
Definition client_ready (x : OAuthClient) w : Prop :=
  Confidential x = true →
  stored (service w) !! id_place x = Some (OAuthClientIdentifier tenantId (oc_Name x)) ∧ is_Some (stored (service w) !! secret_place x).

Lemma ensure_client_ok o x w r w' :
  (ensure_client cfg c (tenant_path clusterName appId) tenantId o x : M _) w = (Ok r, w') → client_ready x w'.
Proof.
  unfold ensure_client, client_ready. intros E Hc. rewrite Hc in E. cbn [negb] in E.
  apply bind_inv_ok in E as (f & w1 & E1 & E). apply wrapped_inv, SecretExists_ok in E1 as [S1 P1].
  apply bind_inv_ok in E as (sid & w2 & E2 & E). apply bind_inv_ok in E as (o' & w3 & E3 & E).
  assert (holds (id_place x) (OAuthClientIdentifier tenantId (oc_Name x)) w3) as Hid.
  { destruct f; cbn [negb] in E3.
    - apply wrapped_inv, GetSecret_ok in E2 as [S2 P2]. unfold holds in *. destruct (String.eqb sid _) eqn:Es; cbn [negb] in E3.
      + apply String.eqb_eq in Es as ->. injection E3 as _ <-. unfold tenant_place. congruence.
      + apply bind_inv_ok in E3 as ([] & w4 & E4 & E3). apply wrapped_inv, UpdateSecret_ok in E4 as [_ S4]. injection E3 as _ <-.
        rewrite S4. apply lookup_insert_eq.
    - apply bind_inv_ok in E3 as ([] & w4 & E4 & E3). apply wrapped_inv, CreateSecret_ok in E4 as [_ S4]. injection E3 as _ <-.
      unfold holds. rewrite S4. apply lookup_insert_eq. }
  apply bind_inv_ok in E as (e & w4 & E4 & E). apply wrapped_inv, SecretExists_ok in E4 as [S4 P4].
  unfold holds in Hid. rewrite <- S4 in Hid. destruct e.
  - injection E as <- <-. split; [done|]. unfold present in P4. by rewrite S4.
  - destruct (PreviouslyProvisioned x); [done|]. apply bind_inv_ok in E as (v & w5 & E5 & E).
    apply bind_inv_ok in E as ([] & w6 & E6 & E). apply wrapped_inv in E6.
    assert (holds (id_place x) (OAuthClientIdentifier tenantId (oc_Name x)) w5) as Hid5.
    { eapply (run_holds _ _ _ w4); [|exact E5|exact Hid]. walk_acts. }
    injection E as <- <-. split.
    + eapply (run_holds _ _ _ w5); [|exact E6|exact Hid5]. walk_acts.
    + apply CreateSecret_ok in E6 as [_ S6]. by eapply holds_present, holds_inserted.
Qed.

Lemma id_key_segment x y : id_place x = id_place y → OAuthKeySegment (oc_Name x) = OAuthKeySegment (oc_Name y).
Proof.
  unfold tenant_place, at_place, InfisicalOAuthClientIDKey. intros [= E].
  rewrite !str_app_nil_l in E. by apply str_app_inj_r in E.
Qed.
Lemma client_ready_kept ocs o x y w r w' : distinct_keys ocs → x ∈ ocs → y ∈ ocs →
  (ensure_client cfg c (tenant_path clusterName appId) tenantId o y : M _) w = (Ok r, w') →
  client_ready x w → client_ready x w'.
Proof.
  intros Hd Hx Hy E Hr Hc. destruct (Hr Hc) as [Hi Hs]. split.
  2: { eapply (run_present _ _ w); [|exact E|done]. walk_acts. }
  destruct (decide (id_place x = id_place y)) as [Heq|Hne].
  - destruct (Confidential y) eqn:Cy.
    + pose proof (Hd _ _ Hx Hy (id_key_segment _ _ Heq)) as Hn. apply ensure_client_ok in E. destruct (E Cy) as [Hi' _].
      by rewrite Hn.
    + unfold ensure_client in E. rewrite Cy in E. by injection E as <- <-.
  - eapply (run_holds _ _ _ w); [|exact E|exact Hi]. walk_acts.
Qed.
Lemma oauth_ok ocs l o w r w' : distinct_keys ocs → (∀ x, x ∈ l → x ∈ ocs) →
  foldM (ensure_client cfg c (tenant_path clusterName appId) tenantId : _ → _ → M _) l o w = (Ok r, w') →
  (∀ x, x ∈ ocs → client_ready x w → client_ready x w') ∧ ∀ x, x ∈ l → client_ready x w'.
Proof.
  intros Hd. revert o w. induction l as [|y l IH]; intros o w Hl E; cbn [foldM] in E.
  { injection E as _ <-. split; [done|]. intros x Hx. by apply elem_of_nil in Hx. }
  apply bind_inv_ok in E as (o' & w1 & E1 & E).
  apply IH in E as [IH1 IH2]; [|intros x Hx; apply Hl; by right]. assert (y ∈ ocs) as Hy by (apply Hl; left). split.
  - intros x Hx Hr. apply IH1; [done|]. exact (client_ready_kept ocs _ _ _ _ _ _ Hd Hx Hy E1 Hr).
  - intros x [->|Hx]%elem_of_cons; [|by apply IH2]. apply IH1; [done|]. eapply ensure_client_ok, E1.
Qed.

Definition tenant_seeded (gw : bool) (ocs : list OAuthClient) w : Prop :=
  (∃ v, stored (service w) !! shared_creds cfg c clusterName = Some v
        ∧ stored (service w) !! here "infisical-credentials" = Some v)
  ∧ present (here "db-credentials") w ∧ present (here InfisicalCachePasswordKey) w
  ∧ present (here (InfisicalInternalTokenKey appId)) w
  ∧ (gw = true → present (here InfisicalGatewayCookieSecretKey) w)
  ∧ (distinct_keys ocs → ∀ x, x ∈ ocs → client_ready x w).

Lemma rest_ok ocs cacheFirst gw db cr w res w' :
  (ensure_rest cfg c (tenant_path clusterName appId) tenantId appId ocs cacheFirst gw db cr : M _) w = (Ok (res, None), w') →
  present (here InfisicalCachePasswordKey) w' ∧ present (here (InfisicalInternalTokenKey appId)) w'
  ∧ (gw = true → present (here InfisicalGatewayCookieSecretKey) w') ∧ (distinct_keys ocs → ∀ x, x ∈ ocs → client_ready x w').
Proof.
  intros E. unfold ensure_rest in E. cbn zeta in E.
  apply bind_inv_ok in E as (e & w1 & E1 & E). apply wrapped_inv, SecretExists_ok in E1 as [S1 P1].
  destruct (negb e && negb cacheFirst); [done|]. apply bind_inv_ok in E as ([] & w2 & E2 & E).
  assert (present (here InfisicalCachePasswordKey) w2) as Hcache.
  { destruct e; [injection E2 as <-; unfold present in *; by rewrite S1|].
    apply bind_inv_ok in E2 as (v & w3 & E3 & E2). apply wrapped_inv, CreateSecret_ok in E2 as [_ S2].
    by eapply holds_present, holds_inserted. }
  apply bind_inv_ok in E as (b & w3 & E3 & E). apply bind_inv_ok in E as (b' & w4 & E4 & E).
  apply bind_inv_ok in E as (oa & w5 & E5 & E).
  assert (acts own (λ c', ¬ removes c') (GenerateHexKey 32 : M _)) as Hgen by walk_acts.
  assert (gw = true → present (here InfisicalGatewayCookieSecretKey) w3) as Hgw.
  { intros ->. by eapply seed_ok, E3. }
  assert (present (here (InfisicalInternalTokenKey appId)) w4) as Htok by (by eapply seed_ok, E4).
  destruct oa as [oo|err]; [|done]. injection E as _ <-. unfold attempt in E5.
  destruct (ensureOAuthClientCredentials _ _ _ _ _ _) as [[oo'|?] w5'] eqn:E6; [|done]. injection E5 as <- <-.
  assert (∀ k, present k w4 → present k w5') as Hlast.
  { intros k Hk. eapply (run_present k _ w4); [|exact E6|done]. walk_acts. }
  assert (∀ k, present k w3 → present k w4) as Hmid.
  { intros k Hk. eapply (run_present k _ w3); [|exact E4|done]. walk_acts. }
  split_and!; [|by apply Hlast|by auto|].
  - apply Hlast, Hmid. eapply (run_present _ _ w2); [|exact E3|done]. walk_acts.
  - intros Hd. apply (oauth_ok ocs ocs _ _ _ _ Hd) in E6; [|done]. apply E6.
Qed.

Lemma pass_seeds first ocs cacheOn cacheFirst gw w res w' :
  pass first ocs cacheOn cacheFirst gw w = (Ok (res, None), w') → tenant_seeded gw ocs w'.
Proof.
  intros E. unfold EnsureTenantFolderAndCredentials in E. cbn zeta in E.
  apply bind_inv_ok in E as ([] & w1 & E1 & E). apply bind_inv_ok in E as (o & w2 & E2 & E). apply sync_ok in E2 as (v & Hsh & Hte).
  apply bind_inv_ok in E as (e & w3 & E3 & E). destruct (negb e && negb first); [done|].
  apply bind_inv_ok in E as ([] & w4 & E4 & E).
  assert (present (here "db-credentials") w4) as Hdb.
  { apply wrapped_inv, SecretExists_ok in E3 as [S3 P3].
    destruct e; [injection E4 as <-; unfold present in *; by rewrite S3|].
    apply bind_inv_ok in E4 as (v' & w5 & E5 & E4). apply wrapped_inv, CreateSecret_ok in E4 as [_ S4].
    by eapply holds_present, holds_inserted. }
  assert (∀ k u, (k = shared_creds cfg c clusterName ∨ k = here "infisical-credentials") → holds k u w2 → holds k u w') as Hkeep.
  { intros k u Hk Hu. eapply (run_holds _ _ _ w4); [|exact E|].
    { walk_acts. cbn. intros ->. destruct Hk as [Hk|Hk]; by injection Hk. }
    eapply (run_holds _ _ _ w3); [|exact E4|]; [walk_acts|]. eapply (run_holds _ _ _ w2); [|exact E3|done]. walk_acts. }
  split; [exists v; split; apply Hkeep; auto|]. split; [eapply (run_present _ _ w4); [|exact E|done]; walk_acts|].
  by eapply rest_ok.
Qed.

(** C16: A pass over a tenant that succeeds leaves all its credentials stored: the machine
    identity's are those of the cluster's shared path, the database, the cache, the
    internal token and, with a gateway, the cookie key have a value, and every declared
    confidential client has its identifier and a secret. *)
Theorem tenant_complete first ocs cacheOn cacheFirst gw w res w' :
  distinct_keys ocs → pass first ocs cacheOn cacheFirst gw w = (Ok (res, None), w') →
  (∃ v, stored (service w') !! shared_creds cfg c clusterName = Some v
        ∧ stored (service w') !! here "infisical-credentials" = Some v)
  ∧ present (here "db-credentials") w' ∧ present (here InfisicalCachePasswordKey) w'
  ∧ present (here (InfisicalInternalTokenKey appId)) w'
  ∧ (gw = true → present (here InfisicalGatewayCookieSecretKey) w')
  ∧ ∀ x, x ∈ ocs → client_ready x w'.
Proof. intros Hd (Hv & Hdb & Hca & Htok & Hgw & Hx)%pass_seeds. split_and!; [done..|by apply Hx]. Qed.

(** *** Losses *)

Lemma token_key_suffix (s : string) : HasSuffix (InfisicalInternalTokenKey s) "_INTERNAL_TOKEN" = true.
Proof. apply HasSuffix_app. Qed.
(** A credential that was provisioned before: the database's or the cache's. *)
Definition provisioned_before (first cacheFirst : bool) k : Prop :=
  (first = false ∧ k = here "db-credentials") ∨ (cacheFirst = false ∧ k = here InfisicalCachePasswordKey).
Lemma acts_no_loss first ocs cacheOn cacheFirst gw k :
  provisioned_before first cacheFirst k → acts own (λ c', ¬ creates k c') (pass first ocs cacheOn cacheFirst gw).
Proof.
  intros Hp. assert (k ≠ here (InfisicalInternalTokenKey appId)) as Htok.
  { intros Hk. pose proof (token_key_suffix appId) as Hs.
    destruct Hp as [[_ Hp]|[_ Hp]]; rewrite Hp in Hk; injection Hk as Hk; by rewrite <- Hk in Hs. }
  unfold provisioned_before in Hp.
  walk_acts; cbn; intros Hk; try done; destruct Hp as [[Hf Hp]|[Hf Hp]]; rewrite Hp in Hk; try discriminate Hk; subst; done.
Qed.
(** When the database's credentials, or the cache's, are gone from the service although
    the tenant was provisioned with them, a pass never generates them anew and never
    reports success. *)
Theorem loss_reported first ocs cacheOn cacheFirst gw k w r w' :
  provisioned_before first cacheFirst k → stored (service w) !! k = None →
  pass first ocs cacheOn cacheFirst gw w = (r, w') →
  stored (service w') !! k = None ∧ ∀ res, r ≠ Ok (res, None).
Proof.
  intros Hp Hk E. pose proof (acts_vacant k _ (acts_no_loss first ocs cacheOn cacheFirst gw k Hp) w Hk) as Hv.
  rewrite E in Hv. split; [done|]. intros res ->. apply pass_seeds in E as (_ & [u1 Hdb] & [u2 Hca] & _). unfold vacant in Hv. cbn in Hv.
  by destruct Hp as [[_ ->]|[_ ->]]; simplify_eq.
Qed.
End tenant.
