(* ===== verification/HubSpokeFacts.v ===== *)
(** * HubSpokeFacts: the credentials of a spoke.

    What a cell is given of the fleet's credentials; the time between two rotations of
    the shared credentials, and that a rotation that fails is not counted; and stored
    credentials that can neither be used nor replaced. *)

From S2P Require Import Prelude.
From S2P Require Import GoRuntime.
From S2P Require Import HubSecrets.
From S2P Require Import HubSecretsFacts.

Local Open Scope string_scope.

(** ** Fleet credentials *)

Lemma foldl_ext_in {A B} (f g : A → B → A) l a : (∀ a b, b ∈ l → f a b = g a b) → foldl f a l = foldl g a l.
Proof.
  revert a. induction l as [|b l IH]; intros a Hfg; cbn; [done|]. rewrite Hfg by left. apply IH. intros ???. apply Hfg. by right.
Qed.

Section fleet.
Context {H : Hub} {L : VaultLaws H} {K : Type} (cfg : InfisicalClient) (c clusterName : string).
Implicit Types (w : @World H K) (m : gmap place string).
Abbreviation M A := (goM (@World H K) error A).

Definition cell (name : string) : place := at_place cfg c (shared_path clusterName) name.
Definition root (name : string) : place := at_place cfg c "/" name.
Lemma cell_root n n' : cell n ≠ root n'.
Proof. by intros [=]. Qed.
Lemma cell_inj n n' : cell n = cell n' → n = n'.
Proof. by intros [=]. Qed.

Inductive verdict := Copied | Kept | NotThere.
(** What became of one key, between the stores [m] and [m']. *)
Definition settled m m' (name : string) (v : verdict) : Prop :=
  match v with
  | Copied => m !! cell name = None ∧ ∃ value, value ≠ "" ∧ m !! root name = Some value ∧ m' !! cell name = Some value
  | Kept => is_Some (m !! cell name) ∧ m' !! cell name = m !! cell name
  | NotThere => m !! cell name = None ∧ m' !! cell name = None
  end.
Definition report (v : verdict) (out : MaterialiseFleetCredentialsResult) : list string :=
  match v with Copied => Created out | Kept => Existing out | NotThere => MissingAtRoot out end.
Definition add_name (name : string) (v : verdict) (out : MaterialiseFleetCredentialsResult) : MaterialiseFleetCredentialsResult :=
  match v with
  | Copied => mkFleetResult (Created out ++ [name])%list (Existing out) (MissingAtRoot out)
  | Kept => mkFleetResult (Created out) (Existing out ++ [name])%list (MissingAtRoot out)
  | NotThere => mkFleetResult (Created out) (Existing out) (MissingAtRoot out ++ [name])%list
  end.

Lemma key_settled out name w out' w' :
  (materialise_key cfg c (shared_path clusterName) out name : M _) w = (Ok out', w') →
  ∃ v, out' = add_name name v out ∧ settled (stored (service w)) (stored (service w')) name v
       ∧ ∀ k, k ≠ cell name → stored (service w') !! k = stored (service w) !! k.
Proof.
  unfold materialise_key. intros (e & w1 & E1 & E)%bind_inv_ok. apply wrapped_inv, SecretExists_ok in E1 as [S1 P1].
  destruct e.
  { injection E as <- <-. exists Kept. rewrite S1. by split_and!. }
  apply bind_inv_ok in E as (rv & w2 & E2 & E).
  assert (stored (service w2) = stored (service w1) ∧ ∀ v, rv = Ok v → holds (root name) v w1) as [S2 Hv].
  { unfold attempt in E2. destruct (GetSecret cfg c "/" name w1) as [r w2'] eqn:Eg. injection E2 as <- <-. destruct r as [v|err].
    - apply GetSecret_ok in Eg as [S2 Hg]. split; [done|]. by intros ? [= ->].
    - split; [|done]. eapply acts_quiet, Eg. walk_acts. }
  unfold vacant in P1. destruct rv as [value|err].
  - destruct (String.eqb value "") eqn:Ev.
    + injection E as <- <-. exists NotThere. cbn. rewrite S2, S1. by split_and!.
    + apply String.eqb_neq in Ev. specialize (Hv value eq_refl). apply bind_inv_ok in E as ([] & w3 & E3 & E).
      apply wrapped_inv, CreateSecret_ok in E3 as [_ S3]. injection E as <- <-. exists Copied. cbn. unfold holds in Hv.
      rewrite S3, S2, S1 in *. split_and!; [done|done| |].
      * exists value. split_and!; [done|done|]. apply lookup_insert_eq.
      * intros k Hk. by rewrite lookup_insert_ne by (intros <-; by apply Hk).
  - injection E as <- <-. exists NotThere. cbn. rewrite S2, S1. by split_and!.
Qed.
Lemma settled_before m0 m m' name v : settled m m' name v →
  m !! cell name = m0 !! cell name → m !! root name = m0 !! root name → settled m0 m' name v.
Proof. intros Hs Hc Hr. destruct v; cbn in *; rewrite ?Hc, ?Hr in Hs; done. Qed.
Lemma settled_after m m' m1 name v : settled m m' name v → m1 !! cell name = m' !! cell name → settled m m1 name v.
Proof. intros Hs Hc. destruct v; cbn in *; by rewrite Hc. Qed.
Lemma keys_settled l out w out' w' : NoDup l →
  foldM (materialise_key cfg c (shared_path clusterName) : _ → _ → M _) l out w = (Ok out', w') →
  ∃ f : string → verdict, out' = foldl (λ o name, add_name name (f name) o) out l
    ∧ (∀ name, name ∈ l → settled (stored (service w)) (stored (service w')) name (f name))
    ∧ ∀ k, (∀ name, name ∈ l → k ≠ cell name) → stored (service w') !! k = stored (service w) !! k.
Proof.
  revert out w. induction l as [|name l IH]; intros out w Hnd E; cbn [foldM] in E.
  { injection E as <- <-. exists (λ _, Kept). split_and!; [done| |done]. intros ? Hin. by apply elem_of_nil in Hin. }
  apply NoDup_cons in Hnd as [Hn Hnd]. apply bind_inv_ok in E as (out1 & w1 & E1 & E).
  apply key_settled in E1 as (v & -> & Hs & Hf). apply IH in E as (f & -> & Hl & Hfr); [|done].
  assert (∀ n, n ∈ l → n ≠ name) as Hne by (intros n ? ->; done).
  exists (λ n, if decide (n = name) then v else f n). split_and!.
  - cbn. rewrite decide_True by done. apply foldl_ext_in. intros o n Hin. by rewrite decide_False by auto.
  - intros n [->|Hin]%elem_of_cons.
    + rewrite decide_True by done. eapply settled_after; [done|]. apply Hfr. intros n' Hin' ->%cell_inj. done.
    + rewrite decide_False by auto. eapply settled_before; [by apply Hl| |].
      * apply Hf. intros ->%cell_inj. done.
      * apply Hf. apply not_eq_sym, cell_root.
  - intros k Hk. rewrite Hfr, Hf; [done|apply Hk; left|]. intros n Hin. apply Hk. by right.
Qed.
Definition everything (out : MaterialiseFleetCredentialsResult) : list string :=
  Created out ++ Existing out ++ MissingAtRoot out.
Lemma everything_add name v out : everything (add_name name v out) ≡ₚ name :: everything out.
Proof. destruct v; unfold everything; cbn; solve_Permutation. Qed.
Lemma everything_keys f l out : everything (foldl (λ o name, add_name name (f name) o) out l) ≡ₚ everything out ++ l.
Proof.
  revert out. induction l as [|name l IH]; intros out; cbn; [by rewrite app_nil_r|]. rewrite IH, everything_add.
  apply Permutation_middle.
Qed.
Lemma in_report f l v name out : name ∈ l → f name = v →
  name ∈ report v (foldl (λ o n, add_name n (f n) o) out l).
Proof.
  intros Hin <-. revert out. induction l as [|n l IH]; intros out; [by apply elem_of_nil in Hin|]. cbn.
  apply elem_of_cons in Hin as [<-|Hin]; [|by apply IH].
  assert (∀ o, name ∈ report (f name) o → name ∈ report (f name) (foldl (λ o n, add_name n (f n) o) o l)) as Hkeep.
  { clear. induction l as [|n l IH]; intros o Ho; [done|]. cbn. apply IH. destruct (f n), (f name); cbn in *; set_solver. }
  apply Hkeep. destruct (f name); cbn; set_solver.
Qed.

(** When a spoke's fleet credentials were materialised, every key is reported once: as
    created, and then the cell had none and now has the value of the root, which is not
    empty; as existing, and then the cell keeps its own value; or as missing, and then
    the cell has none. Nothing else in the store changes. *)
Theorem fleet_materialised w out w' :
  (EnsureFleetCredentialsMaterialised cfg c clusterName : M _) w = (Ok out, w') →
  everything out ≡ₚ FleetCredentialKeys
  ∧ (∀ name, name ∈ FleetCredentialKeys →
       ∃ v, name ∈ report v out ∧ settled (stored (service w)) (stored (service w')) name v)
  ∧ ∀ k, (∀ name, name ∈ FleetCredentialKeys → k ≠ cell name) → stored (service w') !! k = stored (service w) !! k.
Proof.
  unfold EnsureFleetCredentialsMaterialised. intros ([] & w1 & E1 & E)%bind_inv_ok.
  assert (stored (service w1) = stored (service w)) as <- by (eapply acts_quiet, E1; walk_acts).
  apply keys_settled in E as (f & -> & Hs & Hf); [|by apply (bool_decide_unpack (NoDup FleetCredentialKeys))].
  split_and!; [by rewrite everything_keys| |done]. intros name Hin. exists (f name). split; [by apply in_report|by apply Hs].
Qed.
End fleet.

(** ** Rotation *)

Section clock.
Context {H : Hub} {K : Type}.
Implicit Types (w : @World H K).
Abbreviation M A := (goM (@World H K) error A).
Abbreviation attempts c w := (lastRotationAttempt (session c w)).

(** A change of the client's own state: of a rotation time, only to the present. *)
Definition clocked w w' : Prop :=
  now w' = now w ∧ ∀ c cl, attempts c w' !! cl = attempts c w !! cl ∨ attempts c w' !! cl = Some (now w).
(** A rotation of [cl] by the client [c] was recorded, at or after [t0]. *)
Definition throttled (c cl : string) (t0 : Z) w : Prop := ∃ l, attempts c w !! cl = Some l ∧ (t0 ≤ l ≤ now w)%Z.

Lemma session_other c c' s w : c ≠ c' → session c' (with_clients (<[c := s]> (clients w)) w) = session c' w.
Proof. intros Hc. unfold session. cbn. by rewrite lookup_insert_ne. Qed.
Lemma session_self c s w : session c (with_clients (<[c := s]> (clients w)) w) = s.
Proof. unfold session. cbn. by rewrite lookup_insert_eq. Qed.
Lemma clocked_session c t e m w :
  (∀ cl, m !! cl = attempts c w !! cl ∨ m !! cl = Some (now w)) →
  clocked w (with_clients (<[c := mkClientSession t e m]> (clients w)) w).
Proof.
  intros Hm. split; [done|]. intros c' cl. destruct (decide (c = c')) as [->|Hc].
  - rewrite session_self. apply Hm.
  - rewrite session_other by done. by left.
Qed.
Lemma clocked_login w c t e : clocked w (with_clients (<[c := mkClientSession t e (attempts c w)]> (clients w)) w).
Proof. apply clocked_session. by left. Qed.
Lemma clocked_record w c cl :
  clocked w (with_clients (<[c := mkClientSession (token (session c w)) (tokenExp (session c w))
                                    (<[cl := now w]> (attempts c w))]> (clients w)) w).
Proof.
  apply clocked_session. intros cl'. destruct (decide (cl = cl')) as [->|Hc].
  - right. apply lookup_insert_eq.
  - left. by rewrite lookup_insert_ne.
Qed.
Lemma clocked_draws w n : clocked w (with_draws n w).
Proof. split; [done|]. by left. Qed.

Lemma acts_throttled {A} c cl t0 (m : M A) : acts clocked (λ _, True) m → keeps (throttled c cl t0) m.
Proof.
  intros Ha. apply Ha.
  - intros w w' [En Hc] (l & El & Hl). destruct (Hc c cl) as [E|E].
    + exists l. rewrite E, En. done.
    + exists (now w). rewrite E, En. split; [done|lia].
  - intros tok c' _ w (l & El & Hl). unfold Do. destruct (exchange _ _ _) as [[r s] t]. exists l.
    destruct r; (split; [done|cbn; lia]).
Qed.
Lemma acts_later {A} (m : M A) w r w' : acts clocked (λ _, True) m → m w = (r, w') → (now w ≤ now w')%Z.
Proof.
  intros Ha E. assert (keeps (λ u, now w ≤ now u)%Z m) as Hk.
  { apply Ha; [by intros u u' [-> _]|]. intros tok c' _ u Hu. unfold Do. destruct (exchange _ _ _) as [[r' s] t].
    destruct r'; cbn; lia. }
  specialize (Hk w (Z.le_refl _)). by rewrite E in Hk.
Qed.
End clock.
#[export] Hint Resolve clocked_login clocked_record clocked_draws : changes.

Section rotation.
Context {H : Hub} {K : Type} (cfg : InfisicalClient).
Implicit Types (w : @World H K).
Abbreviation M A := (goM (@World H K) error A).
Abbreviation attempts c w := (lastRotationAttempt (session c w)).

Lemma clocked_credentials c cl b : acts clocked (λ _, True) (EnsureInfisicalCredentials cfg c cl b : M _).
Proof. walk_acts. Qed.
Lemma clocked_password c n b : acts clocked (λ _, True) (EnsureCrossplaneAdminPassword cfg c n b : M _).
Proof. walk_acts. Qed.
Lemma clocked_fleet c n : acts clocked (λ _, True) (EnsureFleetCredentialsMaterialised cfg c n : M _).
Proof. walk_acts. Qed.
Lemma clocked_tenant c cl t a first ocs x y z :
  acts clocked (λ _, True) (EnsureTenantFolderAndCredentials cfg c cl t a first ocs x y z : M _).
Proof. walk_acts. Qed.
Lemma clocked_environment slug w : clocked w ((ForEnvironment cfg slug : M _) w).2.
Proof.
  unfold ForEnvironment. destruct (String.eqb (TrimSpace slug) ""); [by split; [|left]|].
  destruct (String.eqb (TrimSpace slug) (EnvironmentSlug cfg)); [by split; [|left]|]. rewrite bind_run. cbn.
  destruct (clients w !! TrimSpace slug) eqn:E; [by split; [|left]|]. split; [done|]. intros c cl. left.
  match goal with |- context [session _ ?u] => change u with (with_clients (<[TrimSpace slug := NewInfisicalClient]> (clients w)) w) end.
  destruct (decide (TrimSpace slug = c)) as [<-|Hc]; [|by rewrite session_other]. rewrite session_self. unfold session. by rewrite E.
Qed.

(** What may happen in the process, between two rotations of a cluster's credentials. *)
Inductive hub_step : @World H K → @World H K → Prop :=
| hs_credentials c cl b w : hub_step w (EnsureInfisicalCredentials cfg c cl b w).2
| hs_password c n b w : hub_step w (EnsureCrossplaneAdminPassword cfg c n b w).2
| hs_fleet c n w : hub_step w (EnsureFleetCredentialsMaterialised cfg c n w).2
| hs_tenant c cl t a first ocs x y z w : hub_step w (EnsureTenantFolderAndCredentials cfg c cl t a first ocs x y z w).2
| hs_environment slug w : hub_step w (ForEnvironment cfg slug w).2
| hs_else w w' : clients w' = clients w → (now w ≤ now w')%Z → hub_step w w'.
Lemma throttled_step c cl t0 w w' : hub_step w w' → throttled c cl t0 w → throttled c cl t0 w'.
Proof.
  intros [ c1 cl1 b w1 | c1 n b w1 | c1 n w1 | c1 cl1 t a first ocs x y z w1 | slug w1 | w1 w1' Ec En ] Ht.
  - by apply (acts_throttled _ _ _ _ (clocked_credentials c1 cl1 b)).
  - by apply (acts_throttled _ _ _ _ (clocked_password c1 n b)).
  - by apply (acts_throttled _ _ _ _ (clocked_fleet c1 n)).
  - by apply (acts_throttled _ _ _ _ (clocked_tenant c1 cl1 t a first ocs x y z)).
  - destruct (clocked_environment slug w1) as [En Hc], Ht as (l & El & Hl). destruct (Hc c cl) as [E|E].
    + exists l. rewrite E, En. done.
    + exists (now w1). rewrite E, En. split; [done|lia].
  - destruct Ht as (l & El & Hl). exists l. unfold session in *. rewrite Ec. split; [done|lia].
Qed.

(** A pass that rotated: before it the backoff had elapsed, and the rotation went through. *)
Lemma rotated_run c cl b w w' :
  (EnsureInfisicalCredentials cfg c cl b : M _) w = (Ok (EnsureRotated, None), w') →
  ∃ u pid, (∀ t0, throttled c cl t0 w → throttled c cl t0 u)
    ∧ (rotationBackoffElapsed c cl credentialRotationBackoff : M _) u = (Ok true, u)
    ∧ (rotateSharedIdentityCredentials cfg c cl (shared_path cl) pid : M _) u = (Ok (), w').
Proof.
  unfold EnsureInfisicalCredentials. intros ([] & w1 & E1 & E)%bind_inv_ok. apply bind_inv_ok in E as (o & w2 & E2 & E).
  assert (o = Some EnsureRotated ∧ w2 = w') as [-> ->].
  { destruct o as [o|]; [by injection E as -> ->|]. destruct (negb b); [done|].
    apply bind_inv_ok in E as ([i s] & w3 & E3 & E). by apply bind_inv_ok in E as ([] & w4 & E4 & E). }
  clear E. unfold check_stored in E2. apply bind_inv_ok in E2 as (st & w3 & E3 & E2). destruct st as [value|]; [|done].
  destruct (unmarshal_credentials value) as [[[i s] pid]|]; [|done]. destruct (String.eqb i "" || String.eqb s ""); [done|].
  apply bind_inv_ok in E2 as (v & w4 & E4 & E2). destruct v as [|e]; [done|].
  destruct (negb (bool_decide (err_is e = ErrInvalidCredentials))); [done|].
  apply bind_inv_ok in E2 as (el & w5 & E5 & E2). assert (w5 = w4) as -> by (by injection E5).
  destruct el; [|done]. cbn [negb] in E2. apply bind_inv_ok in E2 as ([] & w6 & E6 & E2). apply wrapped_inv in E6.
  assert (w6 = w') as -> by (by injection E2). exists w4, pid. split_and!; [|done|done]. intros t0 Ht.
  assert (throttled c cl t0 w1) as H1.
  { assert (acts clocked (λ _, True) (wrapped "failed to create shared folder" (EnsureFolder cfg c (shared_path cl)) : M _)) as Ha by walk_acts.
    generalize (acts_throttled c cl t0 _ Ha w Ht). by rewrite E1. }
  assert (throttled c cl t0 w3) as H3.
  { assert (acts clocked (λ _, True) (attempt (GetSecret cfg c (shared_path cl) "infisical-credentials") : M _)) as Ha by walk_acts.
    generalize (acts_throttled c cl t0 _ Ha w1 H1). by rewrite E3. }
  assert (acts clocked (λ _, True) (attempt (validateClientCredentials i s) : M _)) as Ha by walk_acts.
  generalize (acts_throttled c cl t0 _ Ha w3 H3). by rewrite E4.
Qed.
Lemma rotated_records c cl sp pid w w' :
  (rotateSharedIdentityCredentials cfg c cl sp pid : M _) w = (Ok (), w') →
  attempts c w' !! cl = Some (now w') ∧ (now w ≤ now w')%Z.
Proof.
  intros E. split.
  - unfold rotateSharedIdentityCredentials in E. apply bind_inv_ok in E as ([i s] & w1 & E1 & E).
    apply bind_inv_ok in E as ([] & w2 & E2 & E). injection E as <-. rewrite session_self. apply lookup_insert_eq.
  - eapply acts_later, E. walk_acts.
Qed.


(** *** Rotations that fail *)

(** The sessions change by their tokens alone. *)
Definition unrecorded w w' : Prop := ∀ c, attempts c w' = attempts c w.
Lemma unrecorded_login w c t e : unrecorded w (with_clients (<[c := mkClientSession t e (attempts c w)]> (clients w)) w).
Proof.
  intros c'. destruct (decide (c = c')) as [<-|Hc]; [by rewrite session_self|by rewrite session_other].
Qed.
Lemma unrecorded_draws w n : unrecorded w (with_draws n w).
Proof. done. Qed.
Hint Resolve unrecorded_login unrecorded_draws : changes.
Lemma acts_unrecorded {A} (m : M A) w r w' : acts unrecorded (λ _, True) m → m w = (r, w') → unrecorded w w'.
Proof.
  intros Ha E. assert (keeps (unrecorded w) m) as Hk.
  { apply Ha; [intros u u' Hu Hw c; by rewrite Hu|]. intros tok c' _ u Hu. unfold Do. destruct (exchange _ _ _) as [[r' s] t]. by destruct r'. }
  specialize (Hk w (λ _, eq_refl)). by rewrite E in Hk.
Qed.
Lemma failed_bind {A B} (m : M A) (f : A → M B) w e w' :
  (m ≫= f) w = (Err e, w') → m w = (Err e, w') ∨ ∃ a w1, m w = (Ok a, w1) ∧ f a w1 = (Err e, w').
Proof. rewrite bind_run. destruct (m w) as [[a|e1] w1]; [right; eauto|left; congruence]. Qed.
Lemma failed_rotation c cl sp pid w e w' :
  (rotateSharedIdentityCredentials cfg c cl sp pid : M _) w = (Err e, w') → unrecorded w w'.
Proof.
  unfold rotateSharedIdentityCredentials. intros [E|([i s] & w1 & E1 & E)]%failed_bind; [eapply acts_unrecorded, E; walk_acts|].
  assert (unrecorded w w1) as U1 by (eapply acts_unrecorded, E1; walk_acts).
  apply failed_bind in E as [E|([] & w2 & E2 & E)]; [|done].
  intros c'. rewrite <- U1. revert c'. eapply acts_unrecorded, E. walk_acts.
Qed.
Lemma check_unrecorded c cl sp w r w' :
  (check_stored cfg c cl sp : M _) w = (r, w') → r ≠ Ok (Some EnsureRotated) → unrecorded w w'.
Proof.
  unfold check_stored. rewrite bind_run. unfold attempt at 1. destruct (GetSecret cfg c sp _ w) as [st w1] eqn:E1. intros E Hr.
  assert (unrecorded w w1) as U1 by (eapply acts_unrecorded, E1; walk_acts). destruct st as [value|]; [|by injection E as <- <-].
  destruct (unmarshal_credentials value) as [[[i s] pid]|]; [|by injection E as <- <-].
  destruct (String.eqb i "" || String.eqb s ""); [by injection E as <- <-|]. rewrite bind_run in E. unfold attempt in E.
  destruct (validateClientCredentials i s w1) as [v w2] eqn:E2.
  assert (unrecorded w w2) as U2.
  { intros c'. rewrite <- U1. revert c'. eapply acts_unrecorded, E2. walk_acts. }
  destruct v as [|e]; [by injection E as <- <-|].
  destruct (negb (bool_decide (err_is e = ErrInvalidCredentials))); [by injection E as <- <-|].
  rewrite bind_run in E. destruct (rotationBackoffElapsed c cl credentialRotationBackoff w2) as [el w2'] eqn:Eel.
  assert (w2' = w2) as -> by (by injection Eel). destruct el as [[]|]; cbn [negb] in E; [|by injection E as <- <-|by injection E as <- <-].
  rewrite bind_run, wrapped_run in E.
  destruct (rotateSharedIdentityCredentials cfg c cl sp pid w2) as [[[]|e'] w3] eqn:E3.
  - injection E as <- <-. done.
  - injection E as _ <-. intros c'. rewrite <- U2. by apply failed_rotation in E3.
Qed.

(** A pass that fails records no rotation, although it may have minted a new client secret:
    where a rotation was due it is due again in the next pass. *)
Theorem failed_rotation_unrecorded c cl b w e w' :
  EnsureInfisicalCredentials cfg c cl b w = (Err e, w') →
  ∀ c' cl', lastRotationAttempt (session c' w') !! cl' = lastRotationAttempt (session c' w) !! cl'.
Proof.
  intros E c' cl'. f_equal. revert c'. fold (unrecorded w w'). unfold EnsureInfisicalCredentials in E.
  apply failed_bind in E as [E|([] & w1 & E1 & E)]; [eapply acts_unrecorded, E; walk_acts|].
  assert (unrecorded w w1) as U1 by (eapply acts_unrecorded, E1; walk_acts).
  assert (unrecorded w1 w') as U2; [|intros c'; by rewrite U2, U1].
  apply failed_bind in E as [E|(o & w2 & E2 & E)]; [by eapply check_unrecorded|].
  destruct o as [o|]; [done|]. assert (unrecorded w1 w2) as U2 by (by eapply check_unrecorded).
  destruct (negb b); [done|]. intros c'. rewrite <- U2. revert c'. eapply acts_unrecorded, E. walk_acts.
Qed.
End rotation.

(** ** Credentials that cannot be used *)

Section unusable.
Context {H : Hub} {L : VaultLaws H} {K : Type} (cfg : InfisicalClient).
Implicit Types (w : @World H K).
Abbreviation M A := (goM (@World H K) error A).

(** A stored value that is not the JSON of credentials, or has one of the two empty. *)
Definition unusable (v : string) : bool :=
  match unmarshal_credentials v with
  | None => true
  | Some (i, s, _) => String.eqb i "" || String.eqb s ""
  end.
Lemma check_unusable c cl v w r w' : holds (shared_creds cfg c cl) v w → unusable v = true →
  (check_stored cfg c cl (shared_path cl) : M _) w = (r, w') → r = Ok None ∧ stored (service w') = stored (service w).
Proof.
  intros Hv Hu. unfold check_stored. rewrite bind_run. unfold attempt at 1.
  destruct (GetSecret cfg c (shared_path cl) _ w) as [st w1] eqn:E1. intros E.
  assert (stored (service w1) = stored (service w)) as S1 by (eapply acts_quiet, E1; walk_acts).
  destruct st as [value|]; [|by injection E as <- <-]. apply GetSecret_ok in E1 as [_ Hg].
  unfold holds, shared_creds in *. simplify_eq. unfold unusable in Hu.
  destruct (unmarshal_credentials v) as [[[i s] pid]|]; [rewrite Hu in E|]; by injection E as <- <-.
Qed.
(** When the stored credentials of a cluster cannot be used, a pass that means to provision
    them anew never succeeds and leaves them as they are, however often it is repeated: it
    creates a secret that is there. *)
Theorem unusable_never_replaced c cl b v w r w' :
  stored (service w) !! shared_creds cfg c cl = Some v → unusable v = true →
  EnsureInfisicalCredentials cfg c cl b w = (r, w') →
  stored (service w') !! shared_creds cfg c cl = Some v ∧ ∀ res, r ≠ Ok (res, None).
Proof.
  intros Hv Hu E. unfold EnsureInfisicalCredentials in E. rewrite bind_run in E.
  destruct (wrapped _ (EnsureFolder cfg c (shared_path cl)) w) as [r1 w1] eqn:E1.
  assert (stored (service w1) = stored (service w)) as S1 by (eapply acts_quiet, E1; walk_acts).
  destruct r1 as [[]|e]; [|injection E as <- <-; by rewrite S1]. rewrite bind_run in E.
  destruct (check_stored cfg c cl (shared_path cl) w1) as [r2 w2] eqn:E2.
  apply (check_unusable _ _ v) in E2 as [-> S2]; [|by unfold holds; rewrite S1|done].
  destruct b; cbn [negb] in E; [|injection E as <- <-; by rewrite S2, S1]. rewrite bind_run in E.
  destruct (mint_credentials cfg c cl w2) as [r3 w3] eqn:E3.
  assert (stored (service w3) = stored (service w)) as S3 by (rewrite <- S1, <- S2; eapply acts_quiet, E3; walk_acts).
  destruct r3 as [[i s]|e]; [|injection E as <- <-; by rewrite S3]. rewrite bind_run, wrapped_run in E.
  destruct (CreateSecret cfg c (shared_path cl) _ _ w3) as [r4 w4] eqn:E4.
  assert (holds (shared_creds cfg c cl) v w4) as H4.
  { assert (acts own (λ c', ¬ overwrites (shared_creds cfg c cl) c')
      (CreateSecret cfg c (shared_path cl) "infisical-credentials" (credentials_json i s (ProjectID cfg)) : M _)) as Ha by walk_acts.
    assert (holds (shared_creds cfg c cl) v w3) as H3 by (unfold holds; by rewrite S3).
    generalize (acts_holds _ _ _ Ha w3 H3). by rewrite E4. }
  destruct r4 as [[]|e]; [|by injection E as <- <-]. apply CreateSecret_ok in E4 as [Hvac _]. unfold vacant, shared_creds in *. congruence.
Qed.
End unusable.
