(* ===== verification/SpokePool.v ===== *)
(** * SpokePool: the hub's pass over a spoke cluster.

    Models operators/hub-operator: internal/controller/spokepool_controller.go,
    internal/controller/home_worker_join.go, internal/controller/logs_bucket.go and
    internal/objectstore/buckets.go. [Cluster] is the hub's objects, the Secrets of the
    kube-system namespace of each spoke, the buckets, and the scripts of outcomes of the
    calls and of the writers that come between a read and a write of a status. The
    client libraries, YAML, times as text and certificate hashes are the parameter
    [Site]. Reads are of the stored objects. *)

From S2P Require Import Prelude.
From S2P Require Import GoRuntime.
From S2P Require Import HubSecrets.

Local Open Scope string_scope.

(** ** The objects *)

Abbreviation key := (string * string)%type.
Record OwnerReference := mkOwner { owner_Kind : string; owner_Name : string; owner_UID : string }.
(** An entry of status.conditions, whose fields may be missing. *)
Record RawCondition := mkRaw {
  raw_type : option string;
  raw_status : option string;
  raw_reason : option string;
  raw_message : option string;
  raw_time : option string }.
Record Condition := mkCondition {
  Type_ : string;
  Status_ : string;
  Reason : string;
  Message : string;
  LastTransitionTime : option Z }.        (* None: the zero time *)
Record Pool := mkPool {
  UID : string;
  Labels : gmap string string;
  Annotations : gmap string string;
  provider : string;
  conditions : list RawCondition }.
Record Secret := mkSecret {
  sec_Type : string;
  sec_Labels : gmap string string;
  sec_Owners : list OwnerReference;
  sec_Data : gmap string string }.
Record Certificate := mkCertificate {
  cert_Owner : OwnerReference;
  cert_Labels : gmap string string;
  secretName : string;
  duration : string;
  renewBefore : string;
  commonName : string;
  usages : list string;
  issuerRef : string }.
Record MachineIdentity := mkSMI {
  smi_Owner : OwnerReference;
  smi_Labels : gmap string string;
  spokeRef : string;
  authMethod : string;
  clientSecretTTL : string;
  rotation : bool * string * string;      (* enabled, interval, overlapPeriod *)
  revocation : bool * string }.           (* revokeOnDelete, gracePeriod *)

Definition bootstrapTokenSecretType : string := "bootstrap.kubernetes.io/token".
Definition resource_set : string := "addons.cluster.x-k8s.io/resource-set".
Definition home_label : string := "nutgraf.in/home-worker-spoke".
Definition kubeadmBootstrapTokenCharset : string := "abcdefghijklmnopqrstuvwxyz0123456789".
Definition capi_ns : string := "platform-capi".

Class Site := {
  rfc3339 : option Z → string;
  parse_rfc3339 : string → option Z;
  yaml_configmap : gmap string string → string;
  home_workers : string → nat;                       (* how many the JSON list holds *)
  rest_config : string → result string (string * string);   (* the address and the CA of a kubeconfig *)
  url_host : string → string;                        (* "" where there is none *)
  ca_hash : string → string;
  OBJECT_STORAGE_ENDPOINT : string;
  OBJECT_STORAGE_REGION : string;
  minio_ok : string → bool }.

Record Cluster := mkCluster {
  pools : gmap string Pool;
  secrets : gmap key Secret;
  configmaps : gmap key (gmap string string);
  endpoints : gmap string (string * option Z);       (* controlPlaneEndpoint of each CAPI Cluster *)
  certificates : gmap string Certificate;
  smis : gmap string MachineIdentity;
  spokes : gmap string (gmap string Secret);         (* kube-system of each spoke, by its address *)
  buckets : gset string;
  faults : list outcome;
  rivals : list (option Pool) }.

Section controller.
Context {H : Hub} {T : Site}.
Abbreviation W := (@World H Cluster).
Abbreviation M A := (goM W error A).

Definition with_rest (f : Cluster → Cluster) (w : W) : W :=
  mkWorld (service w) (clients w) (now w) (draws w) (log w) (f (rest w)).
Definition cluster {A} (f : Cluster → A) : M A := gets (λ w, f (rest w)).
Definition change (f : Cluster → Cluster) : M unit := modify (with_rest f).
Definition set_pools (x : gmap string Pool) (k : Cluster) : Cluster :=
  mkCluster x (secrets k) (configmaps k) (endpoints k) (certificates k) (smis k) (spokes k) (buckets k) (faults k) (rivals k).
Definition set_secrets (x : gmap key Secret) (k : Cluster) : Cluster :=
  mkCluster (pools k) x (configmaps k) (endpoints k) (certificates k) (smis k) (spokes k) (buckets k) (faults k) (rivals k).
Definition set_certificates (x : gmap string Certificate) (k : Cluster) : Cluster :=
  mkCluster (pools k) (secrets k) (configmaps k) (endpoints k) x (smis k) (spokes k) (buckets k) (faults k) (rivals k).
Definition set_smis (x : gmap string MachineIdentity) (k : Cluster) : Cluster :=
  mkCluster (pools k) (secrets k) (configmaps k) (endpoints k) (certificates k) x (spokes k) (buckets k) (faults k) (rivals k).
Definition set_spokes (x : gmap string (gmap string Secret)) (k : Cluster) : Cluster :=
  mkCluster (pools k) (secrets k) (configmaps k) (endpoints k) (certificates k) (smis k) x (buckets k) (faults k) (rivals k).
Definition set_buckets (x : gset string) (k : Cluster) : Cluster :=
  mkCluster (pools k) (secrets k) (configmaps k) (endpoints k) (certificates k) (smis k) (spokes k) x (faults k) (rivals k).
Definition set_scripts (f : list outcome) (r : list (option Pool)) (k : Cluster) : Cluster :=
  mkCluster (pools k) (secrets k) (configmaps k) (endpoints k) (certificates k) (smis k) (spokes k) (buckets k) f r.

(** *** Calls *)

Definition outcome_next : M outcome :=
  k ← cluster id;
  let '(o, rest) := next_outcome (faults k) in
  change (set_scripts rest (rivals k)) ;; mret o.
Definition unavailable : error := Errorf "the server is currently unable to handle the request".
(** A read of one object. *)
Definition read_object {A} (f : Cluster → option A) : M A :=
  o ← outcome_next;
  match o with
  | Done => x ← cluster f;
            match x with Some x => mret x | None => throw (mkError NotFound "not found") end
  | _ => throw unavailable
  end.
(** A call that writes: it acts unless it was lost, and reports unless it was cut off. *)
Definition acting (act : M unit) : M unit :=
  o ← outcome_next;
  match o with
  | Done => act
  | Lost => throw unavailable
  | Unknown => _ ← attempt act; throw unavailable
  end.
Definition GetKubeSecret (k : key) : M Secret := read_object (λ c, secrets c !! k).
Definition CreateKubeSecret (k : key) (x : Secret) : M unit :=
  acting (s ← cluster secrets;
          match s !! k with
          | Some _ => throw (mkError AlreadyExists "already exists")
          | None => change (set_secrets (<[k := x]> s))
          end).
Definition UpdateKubeSecret (k : key) (x : Secret) : M unit :=
  acting (s ← cluster secrets;
          match s !! k with
          | Some _ => change (set_secrets (<[k := x]> s))
          | None => throw (mkError NotFound "not found")
          end).
Definition DeleteKubeSecret (k : key) : M unit :=
  acting (s ← cluster secrets;
          match s !! k with
          | Some _ => change (set_secrets (delete k s))
          | None => throw (mkError NotFound "not found")
          end).
(** apierrors.IsAlreadyExists is success. *)
Definition unless_exists (what : string) (m : M unit) : M unit :=
  r ← attempt m;
  match r with
  | Ok _ => mret ()
  | Err e => if bool_decide (err_is e = AlreadyExists) then mret ()
             else throw (mkError (err_is e) (what +:+ ": " +:+ Error e))
  end.
(** A read that tells "not there" from a failure. *)
Definition absent_ok {A} (m : M A) : M (option A) :=
  r ← attempt m;
  match r with
  | Ok x => mret (Some x)
  | Err e => if bool_decide (err_is e = NotFound) then mret None else throw e
  end.

Definition data_at (k : string) (m : gmap string string) : string := default "" (m !! k).
Definition owner_of (spokeName : string) (p : Pool) : OwnerReference := mkOwner "SpokePool" spokeName (UID p).
Definition wrapper (spokeName : string) (p : Pool) (doc payload : string) : Secret :=
  mkSecret resource_set {[resource_set := "true"]} [owner_of spokeName p] {[doc := payload]}.

(** ** Home workers *)

(** randomTokenString *)
Definition token_char (b : Z) : Ascii.ascii :=
  match String.get (Z.to_nat (b mod 36)) kubeadmBootstrapTokenCharset with Some c => c | None => "a"%char end.
Definition randomTokenString (n : nat) : M string :=
  bs ← Read n; mret (foldr (λ b s, String (token_char b) s) "" bs).
Definition newKubeadmBootstrapToken : M (string * string) :=
  id ← randomTokenString 6; secret ← randomTokenString 16; mret (id, secret).

(** The Secrets of one spoke with its label, in the order of their names. *)
Definition by_name (a b : string * Secret) : Prop := String.leb a.1 b.1 = true.
#[local] Instance by_name_dec a b : Decision (by_name a b).
Proof. unfold by_name. apply _. Defined.
Definition tokens (spokeName : string) (s : gmap string Secret) : list (string * Secret) :=
  merge_sort by_name
    (filter (λ x, sec_Labels x.2 !! home_label = Some spokeName) (map_to_list s)).
Definition list_tokens (at_ spokeName : string) : M (list (string * Secret)) :=
  o ← outcome_next;
  match o with
  | Done => s ← cluster spokes; mret (tokens spokeName (default ∅ (s !! at_)))
  | _ => throw unavailable
  end.
Definition delete_token (at_ name : string) : M unit :=
  acting (s ← cluster spokes;
          match default ∅ (s !! at_) !! name with
          | Some _ => change (set_spokes (<[at_ := delete name (default ∅ (s !! at_))]> s))
          | None => throw (mkError NotFound "not found")
          end).
Definition create_token (at_ name : string) (x : Secret) : M unit :=
  acting (s ← cluster spokes;
          match default ∅ (s !! at_) !! name with
          | Some _ => throw (mkError AlreadyExists "already exists")
          | None => change (set_spokes (<[at_ := <[name := x]> (default ∅ (s !! at_))]> s))
          end).
(** A token's expiry, where it is a token and has one that can be read. *)
Definition expiration (s : Secret) : option Z :=
  if String.eqb (sec_Type s) bootstrapTokenSecretType
  then sec_Data s !! "expiration" ≫= parse_rfc3339 else None.
(** The first token with more than half its life left; those before it are deleted. *)
Fixpoint reuse_token (at_ : string) (now0 window : Z) (l : list (string * Secret)) : M (option (string * string)) :=
  match l with
  | [] => mret None
  | (name, s) :: l =>
      match expiration s with
      | None => reuse_token at_ now0 window l
      | Some exp =>
          if (now0 + window <? exp)%Z
          then mret (Some (data_at "token-id" (sec_Data s), data_at "token-secret" (sec_Data s)))
          else _ ← attempt (delete_token at_ name); reuse_token at_ now0 window l
      end
  end.
Definition token_secret (spokeName id secret : string) (exp : Z) : Secret :=
  mkSecret bootstrapTokenSecretType {[home_label := spokeName]} []
    {["token-id" := id; "token-secret" := secret; "expiration" := rfc3339 (Some exp);
      "usage-bootstrap-authentication" := "true"; "usage-bootstrap-signing" := "true";
      "auth-extra-groups" := "system:bootstrappers:kubeadm:default-node-token"]}.
Definition ensureSpokeBootstrapToken (at_ spokeName : string) (ttl : Z) : M (string * string) :=
  l ← list_tokens at_ spokeName;
  now0 ← gets now;
  reused ← reuse_token at_ now0 (Z.quot ttl 2) l;
  match reused with
  | Some t => mret t
  | None =>
      t ← newKubeadmBootstrapToken;
      let '(id, secret) := t in
      now1 ← gets now;
      r ← attempt (create_token at_ ("bootstrap-token-" +:+ id) (token_secret spokeName id secret (now1 + ttl)));
      match r with
      | Ok _ => mret (id, secret)
      | Err e => if bool_decide (err_is e = AlreadyExists) then mret (id, secret) else throw e
      end
  end.
(** A token whose expiry cannot be read, or is past. *)
Definition prunable (now0 : Z) (s : Secret) : bool :=
  String.eqb (sec_Type s) bootstrapTokenSecretType
  && match sec_Data s !! "expiration" with
     | None => false
     | Some raw => match parse_rfc3339 raw with None => true | Some exp => (exp <? now0)%Z end
     end.
Definition pruneExpiredBootstrapTokens (at_ spokeName : string) : M unit :=
  l ← list_tokens at_ spokeName;
  now0 ← gets now;
  forM l (λ x, if prunable now0 x.2 then _ ← attempt (delete_token at_ x.1); mret () else mret ()).
Definition join_data (workers : nat) (tok caHash endpoint : string) : gmap string string :=
  foldr (λ i m, <["node-" +:+ pretty (S i) +:+ "-token" := tok]> m)
    {["ca-cert-hash" := caHash; "control-plane-endpoint" := endpoint]} (seq 0 workers).
Definition writeJoinPayloadSecret (spokeName : string) (workers : nat) (tokenID tokenSecret caHash endpoint : string) : M unit :=
  let data := join_data workers (tokenID +:+ "." +:+ tokenSecret) caHash endpoint in
  let k := (capi_ns, spokeName +:+ "-home-worker-join") in
  existing ← absent_ok (GetKubeSecret k);
  match existing with
  | Some old => UpdateKubeSecret k (mkSecret (sec_Type old) (sec_Labels old) (sec_Owners old) data)
  | None => CreateKubeSecret k (mkSecret "Opaque"
              {["nutgraf.in/home-worker" := "true"; "nutgraf.in/spoke" := spokeName]} [] data)
  end.
(** The address of the spoke, the hash of its CA and the host a worker joins. *)
Definition buildSpokeClientset (kubeconfig : string) : M (string * string * string) :=
  match rest_config kubeconfig with
  | Err e => errorf ("parse spoke kubeconfig: " +:+ e)
  | Ok (host, ca) =>
      mret (host, ca_hash ca, if String.eqb (url_host host) "" then host else url_host host)
  end.
Definition reconcileHomeWorkerJoin (spokeName : string) (p : Pool) : M unit :=
  if negb (String.eqb (provider p) "hybrid") then mret ()
  else if negb (String.eqb (data_at "home-worker-enabled" (Annotations p)) "true") then mret ()
  else
    let ttl := data_at "home-worker-ttl" (Annotations p) in
    match ParseDuration (if String.eqb ttl "" then "24h" else ttl) with
    | None => errorf ("parse home-worker-ttl " +:+ quoted ttl)
    | Some ttlDuration =>
        let listed := let s := data_at "home-workers" (Annotations p) in if String.eqb s "" then O else home_workers s in
        let workers := match listed with O => 1%nat | n => n end in
        kubeconfig ← wrapped "read spoke kubeconfig Secret"
                       (absent_ok (GetKubeSecret (capi_ns, spokeName +:+ "-kubeconfig")));
        match kubeconfig with
        | None => mret ()
        | Some s =>
            match sec_Data s !! "value" with
            | None => errorf ("spoke kubeconfig Secret " +:+ spokeName +:+ "-kubeconfig has no 'value' key")
            | Some value =>
                spoke ← wrapped ("connect to spoke " +:+ spokeName) (buildSpokeClientset value);
                let '(at_, caHash, server) := spoke in
                let host := data_at "control-plane-endpoint-host" (Annotations p) in
                let endpoint := if String.eqb host "" then server else host in
                t ← wrapped "ensure spoke bootstrap token" (ensureSpokeBootstrapToken at_ spokeName ttlDuration);
                wrapped "write home-worker join Secret"
                  (writeJoinPayloadSecret spokeName workers t.1 t.2 caHash endpoint) ;;
                _ ← attempt (pruneExpiredBootstrapTokens at_ spokeName);
                mret ()
            end
        end
    end.

(** ** Conditions *)

Definition isStatusConditionTrue (p : Pool) (conditionType : string) : bool :=
  existsb (λ c, bool_decide (raw_type c = Some conditionType) && bool_decide (raw_status c = Some "True")) (conditions p).
(** Entries with a field missing are dropped. *)
Definition to_condition (c : RawCondition) : option Condition :=
  match raw_type c, raw_status c, raw_reason c, raw_message c with
  | Some t, Some s, Some r, Some m => Some (mkCondition t s r m (raw_time c ≫= parse_rfc3339))
  | _, _, _, _ => None
  end.
Definition of_condition (c : Condition) : RawCondition :=
  mkRaw (Some (Type_ c)) (Some (Status_ c)) (Some (Reason c)) (Some (Message c)) (Some (rfc3339 (LastTransitionTime c))).
(** meta.SetStatusCondition *)
Fixpoint SetStatusCondition (now0 : Z) (cond : Condition) (l : list Condition) : list Condition :=
  match l with
  | [] => [mkCondition (Type_ cond) (Status_ cond) (Reason cond) (Message cond) (Some now0)]
  | old :: l =>
      if String.eqb (Type_ old) (Type_ cond)
      then mkCondition (Type_ old) (Status_ cond) (Reason cond) (Message cond)
             (if String.eqb (Status_ old) (Status_ cond) then LastTransitionTime old else Some now0) :: l
      else old :: SetStatusCondition now0 cond l
  end.
Definition identity_condition (spokeName : string) (success alreadyExisted : bool) : Condition :=
  let t := "CrossplaneAdminSecretGenerated" in
  let where_ := "/spoke-pool/" +:+ spokeName +:+ "/shared/infisical-credentials" in
  if success then
    if alreadyExisted
    then mkCondition t "True" "AlreadyExists" ("Machine Identity credentials already exist in Infisical at " +:+ where_) None
    else mkCondition t "True" "Generated" ("Machine Identity created and credentials uploaded to Infisical at " +:+ where_) None
  else mkCondition t "False" "CredentialsMissing"
         "CRITICAL: Machine Identity credentials missing from Infisical for already-provisioned SpokePool. Manual recovery required." None.
Definition password_condition (spokeName : string) (crossplaneResult : EnsureResult) : Condition :=
  let t := "CrossplaneAdminPasswordGenerated" in
  match crossplaneResult with
  | EnsureCreated =>
      mkCondition t "True" "Generated" ("Crossplane-admin password generated and uploaded to Infisical at " +:+ crossplane_key spokeName) None
  | EnsureAlreadyExists =>
      mkCondition t "True" "AlreadyExists" ("Crossplane-admin password already exists in Infisical at " +:+ crossplane_key spokeName) None
  | _ => mkCondition t "False" "PasswordMissing"
           "CRITICAL: Crossplane-admin password missing from Infisical for already-provisioned SpokePool. Manual recovery required." None
  end.
Definition GetPool (name : string) : M Pool := read_object (λ c, pools c !! name).
Definition with_conditions (cs : list RawCondition) (p : Pool) : Pool :=
  mkPool (UID p) (Labels p) (Annotations p) (provider p) cs.
(** r.Status().Update of an object read before: refused when another writer came between. *)
Definition StatusUpdate (name : string) (latest : Pool) : M unit :=
  acting (k ← cluster id;
          match rivals k with
          | Some p :: more => change (set_scripts (faults k) more) ;; change (set_pools (<[name := p]> (pools k))) ;;
                              throw (mkError Conflict "the object has been modified")
          | more =>
              change (set_scripts (faults k) (tail more)) ;;
              match pools k !! name with
              | None => throw (mkError NotFound "not found")
              | Some p => change (set_pools (<[name := with_conditions (conditions latest) p]> (pools k)))
              end
          end).
Definition new_conditions (now0 : Z) (spokeName : string) (success alreadyExisted : bool) (crossplaneResult : EnsureResult)
    (cs : list RawCondition) : list RawCondition :=
  of_condition <$> SetStatusCondition now0 (password_condition spokeName crossplaneResult)
                     (SetStatusCondition now0 (identity_condition spokeName success alreadyExisted) (omap to_condition cs)).
Definition update_once (spokeName : string) (success alreadyExisted : bool) (crossplaneResult : EnsureResult) : M unit :=
  latest ← GetPool spokeName;
  now0 ← gets now;
  StatusUpdate spokeName
    (with_conditions (new_conditions now0 spokeName success alreadyExisted crossplaneResult (conditions latest)) latest).
(** retry.RetryOnConflict, with [n] attempts left after this one. *)
Fixpoint RetryOnConflict (n : nat) (m : M unit) : M unit :=
  r ← attempt m;
  match r with
  | Ok _ => mret ()
  | Err e =>
      if bool_decide (err_is e = Conflict)
      then match n with O => throw e | S n => RetryOnConflict n m end
      else throw e
  end.
(** DefaultRetry: five attempts. *)
Definition updateStatusCondition (spokeName : string) (success alreadyExisted : bool) (crossplaneResult : EnsureResult) : M unit :=
  RetryOnConflict 4 (update_once spokeName success alreadyExisted crossplaneResult).

(** ** What the spoke is given *)

Definition ensureBootstrapCertificate (spokeName : string) (p : Pool) : M unit :=
  let name := "argocd-agent-" +:+ spokeName in
  existing ← absent_ok (read_object (λ c, certificates c !! name));
  match existing with
  | Some _ => mret ()
  | None =>
      wrapped "create bootstrap Certificate CR"
        (acting (s ← cluster certificates;
                 match s !! name with
                 | Some _ => throw (mkError AlreadyExists "already exists")
                 | None => change (set_certificates (<[name :=
                     mkCertificate (owner_of spokeName p) {["platform.nutgraf.in/bootstrap" := "true"]}
                       (name +:+ "-tls") "72h" "36h" ("argocd-agent." +:+ spokeName) ["server auth"; "client auth"]
                       "infisical-fleet-issuer"]> s))
                 end))
  end.
Definition ensureSpokeMachineIdentity (spokeName : string) (p : Pool) : M unit :=
  existing ← absent_ok (read_object (λ c, smis c !! spokeName));
  match existing with
  | Some _ => mret ()
  | None =>
      wrapped "create SpokeMachineIdentity CR"
        (acting (s ← cluster smis;
                 match s !! spokeName with
                 | Some _ => throw (mkError AlreadyExists "already exists")
                 | None => change (set_smis (<[spokeName :=
                     mkSMI (owner_of spokeName p) {["platform.nutgraf.in/spoke" := spokeName]} spokeName
                       "universal-auth" "90d" (true, "60d", "24h") (true, "72h")]> s))
                 end))
  end.

(** Each line that is not empty, indented by four spaces. *)
Definition indentYAML (s : string) : string :=
  Join ((λ l, if String.eqb l "" then l else "    " +:+ l) <$> Split s (Ascii.ascii_of_nat 10)) nl.
Definition tls_name (spokeName : string) : key := (capi_ns, "argocd-agent-" +:+ spokeName +:+ "-tls").
Definition certYAML (tlsCrt tlsKey caCrt : string) : string :=
  text ["apiVersion: v1"; "kind: Secret"; "metadata:"; "  name: argocd-agent-client-cert"; "  namespace: argocd"; "  labels:";
        "    platform.nutgraf.in/bootstrap: " +:+ quoted "true"; "type: kubernetes.io/tls"; "stringData:"; "  tls.crt: |";
        indentYAML tlsCrt; "  tls.key: |"; indentYAML tlsKey; "  ca.crt: |"; indentYAML caCrt].
Definition ensureBootstrapCertCRSWrapper (spokeName : string) (p : Pool) : M unit :=
  let k := (capi_ns, spokeName +:+ "-bootstrap-cert") in
  let doc := "bootstrap-cert.yaml" in
  existing ← attempt (GetKubeSecret k);
  done ← (match existing with
          | Ok old =>
              if negb (String.eqb (sec_Type old) resource_set) then mret false
              else if negb (String.eqb (data_at doc (sec_Data old)) "") then mret true
              else wrapped "delete empty bootstrap CRS wrapper" (DeleteKubeSecret k) ;; mret false
          | Err _ => mret false
          end);
  if (done : bool) then mret ()
  else
    tls ← wrapped ("read TLS Secret " +:+ (tls_name spokeName).2) (GetKubeSecret (tls_name spokeName));
    let tlsCrt := data_at "tls.crt" (sec_Data tls) in
    let tlsKey := data_at "tls.key" (sec_Data tls) in
    let caCrt := data_at "ca.crt" (sec_Data tls) in
    if String.eqb tlsCrt "" || String.eqb tlsKey "" || String.eqb caCrt ""
    then errorf ("bootstrap TLS secret " +:+ (tls_name spokeName).2 +:+ " not yet issued (empty data)")
    else unless_exists "create bootstrap CRS wrapper"
           (CreateKubeSecret k (wrapper spokeName p doc (certYAML tlsCrt tlsKey caCrt))).
Definition caYAML (caCrt : string) : string :=
  text ["apiVersion: v1"; "kind: Secret"; "metadata:"; "  name: argocd-agent-ca"; "  namespace: argocd"; "  labels:";
        "    platform.nutgraf.in/bootstrap: " +:+ quoted "true"; "type: Opaque"; "stringData:"; "  ca.crt: |"; indentYAML caCrt].
Definition ensureBootstrapCACRSWrapper (spokeName : string) (p : Pool) : M unit :=
  let k := (capi_ns, spokeName +:+ "-agent-ca") in
  existing ← attempt (GetKubeSecret k);
  if match existing with Ok old => String.eqb (sec_Type old) resource_set | Err _ => false end then mret ()
  else
    tls ← wrapped "read TLS Secret for agent CA" (GetKubeSecret (tls_name spokeName));
    let caCrt := data_at "ca.crt" (sec_Data tls) in
    if String.eqb caCrt "" then errorf "TLS secret ca.crt not yet issued"
    else unless_exists "create agent-ca CRS wrapper" (CreateKubeSecret k (wrapper spokeName p "agent-ca.yaml" (caYAML caCrt))).

Definition ciliumConfigBaseName (provider : string) : string := "cilium-config-base-" +:+ provider.
Definition cilium_data (host : string) (port : Z) (base : gmap string string) : gmap string string :=
  <["k8s-service-port" := pretty port]> (<["k8s-service-host" := host]> base).
Definition ensureCiliumConfigCRSWrapper (spokeName : string) (p : Pool) : M unit :=
  if String.eqb (provider p) "" then mret ()
  else
    endpoint ← wrapped ("read CAPI Cluster " +:+ spokeName) (absent_ok (read_object (λ c, endpoints c !! spokeName)));
    match endpoint with
    | None => mret ()
    | Some (host, port) =>
        match port with
        | None => mret ()
        | Some port =>
            if String.eqb host "" || (port =? 0)%Z then mret ()
            else
              base ← wrapped ("read cilium-config base " +:+ ciliumConfigBaseName (provider p))
                       (read_object (λ c, configmaps c !! (capi_ns, ciliumConfigBaseName (provider p))));
              if bool_decide (base = ∅) then errorf ("cilium-config base " +:+ ciliumConfigBaseName (provider p) +:+ " is empty")
              else
                let rendered := yaml_configmap (cilium_data host port base) in
                let k := (capi_ns, spokeName +:+ "-cilium-config") in
                let doc := "cilium-config.yaml" in
                existing ← attempt (GetKubeSecret k);
                let create := unless_exists "create cilium-config CRS wrapper" (CreateKubeSecret k (wrapper spokeName p doc rendered)) in
                match existing with
                | Ok old =>
                    if negb (String.eqb (sec_Type old) resource_set) then create
                    else if String.eqb (data_at doc (sec_Data old)) rendered then mret ()
                    else wrapped "update cilium-config CRS wrapper"
                           (UpdateKubeSecret k (mkSecret (sec_Type old) (sec_Labels old) (sec_Owners old) {[doc := rendered]}))
                | Err _ => create
                end
        end
    end.

(** objectstore *)
Definition LogsBucket (c : string) : string := c +:+ "-logs".
Definition EnsureBucket (name : string) : M bool :=
  exists_ ← wrapped ("checking bucket " +:+ name)
              (o ← outcome_next;
               match o with Done => cluster (λ k, bool_decide (name ∈ buckets k)) | _ => throw unavailable end);
  if (exists_ : bool) then mret false
  else wrapped ("creating bucket " +:+ name) (acting (b ← cluster buckets; change (set_buckets ({[name]} ∪ b)))) ;; mret true.
Definition NewStore (endpoint region accessKeyID secretAccessKey : string) : M unit :=
  if String.eqb endpoint "" || String.eqb region "" || String.eqb accessKeyID "" || String.eqb secretAccessKey ""
  then errorf "object storage needs an endpoint, a region and both keys; one is empty"
  else if minio_ok endpoint then mret () else errorf ("object storage client for " +:+ endpoint).
Definition ensureLogsBucket (c : string) : M unit :=
  if String.eqb c "" then errorf "no cluster name: cannot name its log bucket"
  else if String.eqb OBJECT_STORAGE_ENDPOINT "" || String.eqb OBJECT_STORAGE_REGION ""
  then errorf "OBJECT_STORAGE_ENDPOINT and OBJECT_STORAGE_REGION must be set to create log buckets"
  else
    s ← wrapped "reading platform-ops/s3-object-storage" (GetKubeSecret ("platform-ops", "s3-object-storage"));
    NewStore OBJECT_STORAGE_ENDPOINT OBJECT_STORAGE_REGION (data_at "access-key-id" (sec_Data s))
      (data_at "secret-access-key" (sec_Data s)) ;;
    EnsureBucket (LogsBucket c) ;;
    mret ().

(** ** Reconcile *)

Context (cfg : InfisicalClient).

(** A step whose failure is logged. *)
Definition logged {A} (m : M A) : M unit := _ ← attempt m; mret ().
(** An answer with an error beside it: noted in the status when it says Missing, and returned. *)
Definition or_noted (name : string) (r : EnsureResult * option error) : M EnsureResult :=
  match r with
  | (res, None) => mret res
  | (res, Some e) =>
      (if decide (res = EnsureMissing) then logged (updateStatusCondition name false false EnsureMissing) else mret ()) ;;
      throw e
  end.
Definition password_type : string := "CrossplaneAdminPasswordGenerated".
(** The password, for the first time when the status does not say that it was generated. *)
Definition ensure_password (name : string) (p : Pool) (c : string) : M EnsureResult :=
  EnsureCrossplaneAdminPassword cfg c name (negb (isStatusConditionTrue p password_type)) ≫= or_noted name.
Definition Reconcile (name : string) : M unit :=
  pool ← absent_ok (GetPool name);
  match pool with
  | None => mret ()
  | Some p =>
      logged (reconcileHomeWorkerJoin name p) ;;
      c ← wrapped ("spoke " +:+ name) (ForEnvironment cfg (data_at "environment" (Labels p)));
      result ← EnsureInfisicalCredentials cfg c name true ≫= or_noted name;
      crossplaneResult ← ensure_password name p c;
      logged (EnsureFleetCredentialsMaterialised cfg c name) ;;
      logged (ensureLogsBucket name) ;;
      logged (ensureBootstrapCertificate name p) ;;
      logged (ensureBootstrapCertCRSWrapper name p) ;;
      logged (ensureBootstrapCACRSWrapper name p) ;;
      logged (ensureCiliumConfigCRSWrapper name p) ;;
      logged (ensureSpokeMachineIdentity name p) ;;
      updateStatusCondition name true (bool_decide (result = EnsureAlreadyExists)) crossplaneResult
  end.

(** The SpokePool a Certificate or a SpokeMachineIdentity belongs to. *)
Definition mapCertificateToSpokePool (name : string) : list string :=
  let spokeName := TrimPrefix name "argocd-agent-" in
  if String.eqb spokeName name then [] else [spokeName].
Definition mapSpokeMachineIdentityToSpokePool (name : string) : list string := [name].
End controller.
