(* ===== verification/SpokePoolFacts.v ===== *)
(** * SpokePoolFacts: the hub's pass over a spoke.

    Where the secrets of a spoke are kept and that none is replaced; what the spoke is
    given of its certificate and its network configuration; and how the report of a lost
    password makes the next pass generate another. *)

From S2P Require Import Prelude.
From S2P Require Import GoRuntime.
From S2P Require Import HubSecrets.
From S2P Require Import HubSecretsFacts.
From S2P Require Import SpokePool.

Local Open Scope string_scope.

(** ** The calls of a pass *)

Section calls.
Context {H : Hub} {T : Site}.
Implicit Types (w : @World H Cluster).
Abbreviation M A := (goM (@World H Cluster) error A).

(** Anything but the service, its log and the clock. *)
Definition silent w w' : Prop := service w' = service w ∧ now w' = now w ∧ log w' = log w.
Lemma silent_rest f w : silent w (with_rest f w).
Proof. done. Qed.
Lemma silent_clients cs w : silent w (with_clients cs w).
Proof. done. Qed.
Lemma silent_draws n w : silent w (with_draws n w).
Proof. done. Qed.
Hint Resolve silent_rest silent_clients silent_draws : changes.

Lemma acts_reuse P a t d l : acts silent P (reuse_token a t d l : M _).
Proof. induction l as [|[n s] l IH]; cbn [reuse_token]; walk_with fail. Qed.
Lemma acts_retry R P n (m : M unit) : acts R P m → acts R P (RetryOnConflict n m).
Proof. intros Hm. induction n as [|n IH]; cbn [RetryOnConflict]; walk_with fail. Qed.
Lemma acts_own_silent {A} P (m : M A) : acts own P m → acts silent P m.
Proof. apply acts_weaken; [|done]. by intros w w' (? & ? & ? & ?). Qed.
Lemma acts_appends {A} P (m : M A) : acts silent P m → appends log (λ e, match e with Asked _ c _ => P c end) m.
Proof.
  intros Ha w. assert (keeps (λ u, ∃ new, log u = (log w ++ new)%list ∧ Forall (λ e, match e with Asked _ c _ => P c end) new) m) as Hk.
  { apply Ha; [intros u u' (_ & _ & El) Hu; by rewrite El|]. intros tok c Hc u (new & El & Hn). unfold Do.
    destruct (exchange tok c (service u)) as [[r s] t].
    assert (∃ l, (log u ++ [Asked tok c r])%list = (log w ++ l)%list ∧ Forall (λ e, match e with Asked _ c _ => P c end) l) as Hl.
    { exists (new ++ [Asked tok c r])%list. rewrite El, <- app_assoc. split; [done|]. apply Forall_app. split; [done|]. by constructor. }
    by destruct r. }
  apply Hk. exists []. by rewrite app_nil_r.
Qed.
(** Programs that ask the service nothing. *)
Lemma acts_nothing {A} (m : M A) w r w' : acts silent (λ _, False) m → m w = (r, w') → log w' = log w ∧ service w' = service w.
Proof.
  intros Ha E. assert (keeps (λ u, log u = log w ∧ service u = service w) m) as Hk.
  { apply Ha; [|done]. intros u u' (Es & _ & El) [? ?]. by rewrite Es, El. }
  specialize (Hk w (conj eq_refl eq_refl)). by rewrite E in Hk.
Qed.
End calls.
#[export] Hint Resolve silent_rest silent_clients silent_draws : changes.
Ltac walk_pass :=
  walk_with ltac:(first [apply acts_make_folders | apply acts_login | apply acts_reuse | apply acts_retry | apply acts_Read]).

Section pass.
Context {H : Hub} {L : VaultLaws H} {T : Site} (cfg : InfisicalClient).
Implicit Types (w : @World H Cluster) (p : Pool).
Abbreviation M A := (goM (@World H Cluster) error A).

(** C35: A pass over a spoke, whatever the service and the cluster answer and wherever it fails,
    leaves every stored secret as it is, except the machine identity's own credentials:
    no password, fleet credential or override is ever replaced. *)
Theorem pass_keeps_secrets name k v w r w' :
  (∀ c, k ≠ shared_creds cfg c name) → Reconcile cfg name w = (r, w') →
  stored (service w) !! k = Some v → stored (service w') !! k = Some v.
Proof.
  intros Hk E Hv. assert (acts silent (λ c', ¬ overwrites k c') (Reconcile cfg name : M _)) as Ha.
  { walk_pass. cbn. intros ->. by eapply Hk. }
  assert (keeps (holds k v) (Reconcile cfg name : M _)) as Hh.
  { apply Ha; [intros u u' (E' & _) Hu; unfold holds; by rewrite E'|]. intros tok c. by apply keeps_Do_holds. }
  specialize (Hh w Hv). by rewrite E in Hh.
Qed.

Lemma outcome_run w :
  (outcome_next : M _) w = (Ok (next_outcome (faults (rest w))).1,
                            with_rest (set_scripts (next_outcome (faults (rest w))).2 (rivals (rest w))) w).
Proof. unfold outcome_next. rewrite bind_run. cbn. by destruct (next_outcome (faults (rest w))). Qed.
Lemma fetch_ok {A} (f : Cluster → option A) w x w' : (read_object f : M _) w = (Ok x, w') →
  w' = with_rest (set_scripts (tail (faults (rest w))) (rivals (rest w))) w ∧ f (rest w') = Some x.
Proof.
  unfold read_object. rewrite bind_run, outcome_run. destruct (faults (rest w)) as [|[] l] eqn:Ef; cbn; try done.
  all: rewrite bind_run; cbn; destruct (f _) eqn:E; [|done]; intros Heq; injection Heq as <- <-; done.
Qed.
Lemma absent_inv {A} (m : M A) w x w' : absent_ok m w = (Ok (Some x), w') → m w = (Ok x, w').
Proof.
  unfold absent_ok. rewrite bind_run. unfold attempt. destruct (m w) as [[y|e] w1]; [by intros [= <- <-]|].
  by destruct (bool_decide _).
Qed.
Lemma GetPool_ok name w p w' : (absent_ok (GetPool name) : M _) w = (Ok (Some p), w') → pools (rest w) !! name = Some p.
Proof. by intros [-> ?]%absent_inv%fetch_ok. Qed.
Lemma ForEnvironment_ok slug w c w' : (ForEnvironment cfg slug : M _) w = (Ok c, w') → c = TrimSpace slug ∧ c ≠ "".
Proof.
  unfold ForEnvironment. destruct (String.eqb (TrimSpace slug) "") eqn:E0; [done|]. apply String.eqb_neq in E0.
  destruct (String.eqb (TrimSpace slug) (EnvironmentSlug cfg)); [by intros [= <- _]|]. rewrite bind_run. cbn.
  destruct (clients w !! TrimSpace slug); cbn; by intros [= <- _].
Qed.
(** The call is to the project of the hub and to this environment. *)
Definition in_environment (c : string) (call : Call) : Prop :=
  match call with
  | MakeFolder p e _ _ | ReadSecret p e _ _ | WriteNew p e _ _ _ | WriteOver p e _ _ _ | Remove p e _ _ => p = ProjectID cfg ∧ e = c
  | Grant p _ _ => p = ProjectID cfg
  | _ => True
  end.
Definition environment_of p : string := TrimSpace (data_at "environment" (Labels p)).

(** Every secret a pass reads or writes is in the environment that the spoke's own label
    names, never in another and never in an unnamed one. *)
Theorem secrets_in_own_environment name w r w' :
  Reconcile cfg name w = (r, w') →
  log w' = log w
  ∨ ∃ p new, pools (rest w) !! name = Some p ∧ environment_of p ≠ "" ∧ log w' = (log w ++ new)%list
      ∧ Forall (λ e, match e with Asked _ call _ => in_environment (environment_of p) call end) new.
Proof.
  unfold Reconcile. rewrite bind_run. destruct (absent_ok (GetPool name) w) as [o w1] eqn:E1. intros E.
  assert (log w1 = log w) as L1 by (eapply acts_nothing, E1; walk_pass).
  destruct o as [[p|]|e]; [|left; by injection E as <- <-|left; by injection E as <- <-].
  apply GetPool_ok in E1. rewrite bind_run in E. destruct (logged (reconcileHomeWorkerJoin name p) w1) as [o2 w2] eqn:E2.
  assert (log w2 = log w1) as L2 by (eapply acts_nothing, E2; walk_pass).
  destruct o2 as [[]|e]; [|left; injection E as <- <-; congruence]. rewrite bind_run, wrapped_run in E.
  destruct (ForEnvironment cfg _ w2) as [o3 w3] eqn:E3.
  assert (log w3 = log w2) as L3 by (eapply acts_nothing, E3; walk_pass).
  destruct o3 as [c|e]; [|left; injection E as <- <-; congruence]. right. apply ForEnvironment_ok in E3 as [-> Hne].
  rewrite <- L1, <- L2, <- L3. eapply (appends_run log (λ e, match e with Asked _ call _ => in_environment (environment_of p) call end)) in E
    as (new & El & Hn).
  - by exists p, new.
  - apply acts_appends. walk_pass.
Qed.
End pass.
