(* ===== verification/SpokeSetupFacts.v ===== *)
(** * SpokeSetupFacts: what a spoke is set up with.

    The certificate a spoke is delivered is complete and never changes once it is there;
    its network configuration is published only with the address of its API server. *)

From S2P Require Import Prelude.
From S2P Require Import GoRuntime.
From S2P Require Import HubSecrets.
From S2P Require Import HubSecretsFacts.
From S2P Require Import SpokePool.
From S2P Require Import SpokePoolFacts.

Local Open Scope string_scope.

(** ** Frames *)

Section frames.
Context {H : Hub} {T : Site} (cfg : InfisicalClient).
Implicit Types (w : @World H Cluster) (k : Cluster) (x : key).
Abbreviation M A := (goM (@World H Cluster) error A).

Definition on_rest (Inv : Cluster → Prop) w : Prop := Inv (rest w).
(** [Inv] speaks of the Secrets, the endpoints and the ConfigMaps, and of no Secret under a
    key of the sort [ok]. *)
Record framed (ok : key → Prop) (Inv : Cluster → Prop) : Prop := {
  f_scripts f r k : Inv k → Inv (set_scripts f r k);
  f_pools y k : Inv k → Inv (set_pools y k);
  f_certificates y k : Inv k → Inv (set_certificates y k);
  f_smis y k : Inv k → Inv (set_smis y k);
  f_spokes y k : Inv k → Inv (set_spokes y k);
  f_buckets y k : Inv k → Inv (set_buckets y k);
  f_secret x s k : ok x → Inv k → Inv (set_secrets (<[x := s]> (secrets k)) k) }.

Context (ok : key → Prop) (Inv : Cluster → Prop) (HF : framed ok Inv).
Lemma keeps_asked {A} (m : M A) : acts own (λ _, True) m → keeps (on_rest Inv) m.
Proof.
  intros Ha. apply Ha; [intros w w' (_ & _ & _ & E) Hw; unfold on_rest; by rewrite E|]. intros tok c _ w Hw. unfold Do.
  destruct (exchange _ _ _) as [[r s] t]. by destruct r.
Qed.
Lemma frame_outcome : keeps (on_rest Inv) (outcome_next : M _).
Proof. intros w Hw. rewrite outcome_run. by apply HF. Qed.
Lemma keeps_fetch {A} (f : Cluster → option A) : keeps (on_rest Inv) (read_object f : M _).
Proof.
  apply keeps_bind; [apply frame_outcome|]. intros [| |]; [|apply keeps_throw|apply keeps_throw].
  apply keeps_bind; [apply keeps_gets|]. intros [y|]; [apply keeps_ret|apply keeps_throw].
Qed.
Lemma frame_acting (act : M unit) : keeps (on_rest Inv) act → keeps (on_rest Inv) (acting act).
Proof.
  intros Ha. apply keeps_bind; [apply frame_outcome|]. intros [| |]; [done|apply keeps_throw|].
  apply keeps_bind; [by apply keeps_attempt|]. intros _. apply keeps_throw.
Qed.
(** A write computed from the field it replaces. *)
Lemma frame_write {A} (f : Cluster → A) (g : A → M unit) :
  (∀ w, on_rest Inv w → on_rest Inv (g (f (rest w)) w).2) → keeps (on_rest Inv) (cluster f ≫= g).
Proof. intros Hg w Hw. rewrite bind_run. cbn. by apply Hg. Qed.
Lemma keeps_create x s : ok x → keeps (on_rest Inv) (CreateKubeSecret x s : M _).
Proof.
  intros Hx. apply frame_acting, frame_write. intros w Hw. destruct (secrets (rest w) !! x); [done|]. by apply (f_secret _ _ HF).
Qed.
Lemma frame_update x s : ok x → keeps (on_rest Inv) (UpdateKubeSecret x s : M _).
Proof.
  intros Hx. apply frame_acting, frame_write. intros w Hw. destruct (secrets (rest w) !! x); [|done]. by apply (f_secret _ _ HF).
Qed.
Lemma keeps_unless what (m : M unit) : keeps (on_rest Inv) m → keeps (on_rest Inv) (unless_exists what m).
Proof.
  intros Hm. apply keeps_bind; [by apply keeps_attempt|]. intros [[]|e]; [apply keeps_ret|].
  destruct (bool_decide _); [apply keeps_ret|apply keeps_throw].
Qed.
Lemma keeps_absent {A} (m : M A) : keeps (on_rest Inv) m → keeps (on_rest Inv) (absent_ok m).
Proof.
  intros Hm. apply keeps_bind; [by apply keeps_attempt|]. intros [a|e]; [apply keeps_ret|].
  destruct (bool_decide _); [apply keeps_ret|apply keeps_throw].
Qed.
Lemma keeps_logged {A} (m : M A) : keeps (on_rest Inv) m → keeps (on_rest Inv) (logged m).
Proof. intros Hm. apply keeps_bind; [by apply keeps_attempt|]. intros _. apply keeps_ret. Qed.
Lemma keeps_retry n (m : M unit) : keeps (on_rest Inv) m → keeps (on_rest Inv) (RetryOnConflict n m).
Proof.
  intros Hm. induction n as [|n IH]; cbn [RetryOnConflict]; (apply keeps_bind; [by apply keeps_attempt|]).
  all: intros [[]|e]; [apply keeps_ret|]; destruct (bool_decide _); [|apply keeps_throw].
  - apply keeps_throw.
  - apply IH.
Qed.
End frames.

(** Walks the steps of a pass; [more] knows what it may write. *)
Ltac walk_frame_with HF more :=
  repeat lazymatch goal with
    | |- keeps _ (match ?x with _ => _ end) => destruct x eqn:?
    | |- keeps _ (let (_, _) := ?x in _) => destruct x eqn:?
    | |- keeps _ (_ ≫= _) => apply keeps_bind
    | |- keeps _ (attempt _) => apply keeps_attempt
    | |- keeps _ (wrapped _ _) => apply keeps_wrapped
    | |- keeps _ (forM _ _) => apply keeps_forM
    | |- keeps _ (mret _) => apply keeps_ret
    | |- keeps _ (throw _) => apply keeps_throw
    | |- keeps _ (errorf _) => apply keeps_throw
    | |- keeps _ (gets _) => apply keeps_gets
    | |- keeps _ (cluster _) => apply keeps_gets
    | |- keeps _ outcome_next => apply (frame_outcome _ _ HF)
    | |- keeps _ (read_object _) => apply (keeps_fetch _ _ HF)
    | |- keeps _ (acting (cluster ?f ≫= ?g)) => apply (frame_acting _ _ HF), frame_write
    | |- keeps _ (CreateKubeSecret _ _) => apply (keeps_create _ _ HF)
    | |- keeps _ (UpdateKubeSecret _ _) => apply (frame_update _ _ HF)
    | |- keeps _ (unless_exists _ _) => apply keeps_unless
    | |- keeps _ (absent_ok _) => apply keeps_absent
    | |- keeps _ (logged _) => apply keeps_logged
    | |- keeps _ (RetryOnConflict _ _) => apply keeps_retry
    | |- keeps _ (let x := _ in _) => cbn zeta
    | |- keeps _ ((λ x, _) _) => cbn beta
    | |- keeps _ (Read _) => apply keeps_asked; apply acts_Read; by intros ??
    | |- keeps _ ?c => first [ more | let h := head_of c in unfold h ]
    | |- ∀ w, on_rest _ w → _ => fail
    | |- ∀ _, _ => intro
    end; try done.
Ltac walk_frame HF := walk_frame_with HF fail.

Section steps.
Context {H : Hub} {T : Site} (cfg : InfisicalClient) (ok : key → Prop) (Inv : Cluster → Prop) (HF : framed ok Inv).
Implicit Types (w : @World H Cluster) (p : Pool).
Abbreviation M A := (goM (@World H Cluster) error A).

Lemma keeps_delete_token a n : keeps (on_rest Inv) (delete_token a n : M _).
Proof.
  apply (frame_acting _ _ HF), frame_write. intros w Hw. destruct (_ !! n); [|done]. by apply (f_spokes _ _ HF).
Qed.
Lemma keeps_reuse a t d l : keeps (on_rest Inv) (reuse_token a t d l : M _).
Proof.
  induction l as [|[n s] l IH]; cbn [reuse_token]; [apply keeps_ret|]. destruct (expiration s); [|done].
  destruct (_ <? _)%Z; [apply keeps_ret|]. apply keeps_bind; [apply keeps_attempt, keeps_delete_token|by intros _].
Qed.
Lemma keeps_bootstrap_token a n t : keeps (on_rest Inv) (ensureSpokeBootstrapToken a n t : M _).
Proof.
  apply keeps_bind; [unfold list_tokens; walk_frame HF|intros l]. apply keeps_bind; [apply keeps_gets|intros t0].
  apply keeps_bind; [apply keeps_reuse|]. intros [r|]; [apply keeps_ret|]. apply keeps_bind.
  { unfold newKubeadmBootstrapToken, randomTokenString. walk_frame HF. }
  intros [id secret]. apply keeps_bind; [apply keeps_gets|intros t1]. apply keeps_bind; [apply keeps_attempt|].
  { apply (frame_acting _ _ HF), frame_write. intros w Hw. destruct (_ !! _); [done|]. by apply (f_spokes _ _ HF). }
  intros [[]|e]; [apply keeps_ret|]. destruct (bool_decide _); [apply keeps_ret|apply keeps_throw].
Qed.
Lemma keeps_prune a n : keeps (on_rest Inv) (pruneExpiredBootstrapTokens a n : M _).
Proof.
  apply keeps_bind; [unfold list_tokens; walk_frame HF|intros l]. apply keeps_bind; [apply keeps_gets|intros t0].
  apply keeps_forM. intros [m s] _. destruct (prunable t0 _); [|apply keeps_ret].
  apply keeps_bind; [apply keeps_attempt, keeps_delete_token|intros _; apply keeps_ret].
Qed.
Lemma keeps_home n p : ok (capi_ns, n +:+ "-home-worker-join") → keeps (on_rest Inv) (reconcileHomeWorkerJoin n p : M _).
Proof.
  intros Hk. unfold reconcileHomeWorkerJoin.
  walk_frame_with HF ltac:(first [apply keeps_bootstrap_token | apply keeps_prune]).
Qed.
Lemma keeps_status n a b r : keeps (on_rest Inv) (updateStatusCondition n a b r : M _).
Proof.
  unfold updateStatusCondition. walk_frame HF. intros w Hw. cbn.
  destruct (rivals (rest w)) as [|[q|] more]; cbn; rewrite ?bind_run; cbn.
  2: { apply (f_pools _ _ HF), (f_scripts _ _ HF), Hw. }
  all: destruct (pools (rest w) !! n); cbn; [apply (f_pools _ _ HF)|]; by apply (f_scripts _ _ HF).
Qed.
Lemma keeps_certificate n p : keeps (on_rest Inv) (ensureBootstrapCertificate n p : M _).
Proof. unfold ensureBootstrapCertificate. walk_frame HF. intros w Hw. destruct (_ !! _); [done|]. by apply (f_certificates _ _ HF). Qed.
Lemma keeps_identity n p : keeps (on_rest Inv) (ensureSpokeMachineIdentity n p : M _).
Proof. unfold ensureSpokeMachineIdentity. walk_frame HF. intros w Hw. destruct (_ !! _); [done|]. by apply (f_smis _ _ HF). Qed.
Lemma keeps_bucket n : keeps (on_rest Inv) (ensureLogsBucket n : M _).
Proof. unfold ensureLogsBucket. walk_frame HF. intros w Hw. by apply (f_buckets _ _ HF). Qed.
Lemma keeps_agent_ca n p : ok (capi_ns, n +:+ "-agent-ca") → keeps (on_rest Inv) (ensureBootstrapCACRSWrapper n p : M _).
Proof. intros Hk. unfold ensureBootstrapCACRSWrapper. walk_frame HF. Qed.
Lemma keeps_cilium n p : ok (capi_ns, n +:+ "-cilium-config") → keeps (on_rest Inv) (ensureCiliumConfigCRSWrapper n p : M _).
Proof. intros Hk. unfold ensureCiliumConfigCRSWrapper. walk_frame HF. Qed.

(** A pass keeps what its two steps that write under [n]'s own wrapper names keep. *)
Lemma keeps_pass n : ok (capi_ns, n +:+ "-home-worker-join") → ok (capi_ns, n +:+ "-agent-ca") →
  (∀ p, keeps (on_rest Inv) (ensureBootstrapCertCRSWrapper n p : M _)) →
  (∀ p, keeps (on_rest Inv) (ensureCiliumConfigCRSWrapper n p : M _)) →
  keeps (on_rest Inv) (Reconcile cfg n : M _).
Proof.
  intros Hj Ha Hc Hn. unfold Reconcile.
  walk_frame_with HF ltac:(first [ apply Hc | apply Hn | apply keeps_home | apply keeps_status | apply keeps_certificate
    | apply keeps_identity | apply keeps_bucket | apply keeps_agent_ca
    | apply (keeps_asked Inv); solve [walk_acts] ]).
Qed.
End steps.

(** Keys that differ in their last letter. *)
Ltac keys_differ :=
  let E := fresh in intros E; injection E as E; apply (f_equal String.rev) in E; rewrite !str_rev_app in E; discriminate E.
(** A read whose answer, if any, satisfies [Q]. *)
Lemma keeps_attempt_bind {S E A B} (J : S → Prop) (Q : A → Prop) (m : goM S E A) (f : result E A → goM S E B) :
  keeps J m → (∀ s a s', J s → m s = (Ok a, s') → Q a) → (∀ a, Q a → keeps J (f (Ok a))) → (∀ e, keeps J (f (Err e))) →
  keeps J (attempt m ≫= f).
Proof.
  intros Hm HQ Ha He s Hs. rewrite bind_run. unfold attempt. specialize (Hm s Hs).
  destruct (m s) as [[a|e] s'] eqn:Es; cbn in *; [apply Ha; [by eapply HQ|done]|by apply He].
Qed.

Lemma keeps_known_bind {S E A B} (J : S → Prop) (Q : A → Prop) (m : goM S E A) (f : A → goM S E B) :
  keeps J m → (∀ s a s', J s → m s = (Ok a, s') → Q a) → (∀ a, Q a → keeps J (f a)) → keeps J (m ≫= f).
Proof.
  intros Hm HQ Ha s Hs. rewrite bind_run. specialize (Hm s Hs).
  destruct (m s) as [[a|e] s'] eqn:Es; cbn in *; [apply Ha; [by eapply HQ|done]|done].
Qed.

Section certificate.
Context {H : Hub} {T : Site} (cfg : InfisicalClient) (name : string).
Implicit Types (w : @World H Cluster) (p : Pool).
Abbreviation M A := (goM (@World H Cluster) error A).

Definition cert_key (n : string) : key := (capi_ns, n +:+ "-bootstrap-cert").
Definition cert_doc : string := "bootstrap-cert.yaml".
(** The wrapper is what it was, or new and of a certificate, its key and its CA. *)
Definition delivered (s0 : option Secret) (k : Cluster) : Prop :=
  secrets k !! cert_key name = s0
  ∨ ((∀ s, s0 = Some s → sec_Type s = resource_set ∧ data_at cert_doc (sec_Data s) = "")
     ∧ (secrets k !! cert_key name = None
        ∨ ∃ crt tlskey ca s, secrets k !! cert_key name = Some s ∧ data_at cert_doc (sec_Data s) = certYAML crt tlskey ca
            ∧ crt ≠ "" ∧ tlskey ≠ "" ∧ ca ≠ "")).
Lemma delivered_framed s0 : framed (λ x, x ≠ cert_key name) (delivered s0).
Proof. split; try done. intros x s k Hx. unfold delivered. cbn. by rewrite lookup_insert_ne. Qed.

Lemma fetch_secret x w s w' : (GetKubeSecret x : M _) w = (Ok s, w') → secrets (rest w) !! x = Some s.
Proof. by intros [-> ?]%fetch_ok. Qed.
Lemma payload_of_wrapper n p doc payload : data_at doc (sec_Data (wrapper n p doc payload)) = payload.
Proof. unfold data_at, wrapper. cbn. by rewrite lookup_singleton_eq. Qed.

Lemma keeps_cert_other s0 n p : n ≠ name → keeps (on_rest (delivered s0)) (ensureBootstrapCertCRSWrapper n p : M _).
Proof.
  intros Hn. assert (cert_key n ≠ cert_key name) as Hk.
  { intros E. injection E as E. by apply str_app_inj_r in E. }
  unfold ensureBootstrapCertCRSWrapper. walk_frame (delivered_framed s0).
  intros w Hw. destruct (secrets (rest w) !! _); [|done]. unfold on_rest, delivered in *. cbn. by rewrite lookup_delete_ne.
Qed.

(** A wrapper that may be taken away: there was none, or an empty one. *)
Definition replaceable (s0 : option Secret) : Prop :=
  ∀ s, s0 = Some s → sec_Type s = resource_set ∧ data_at cert_doc (sec_Data s) = "".
Lemma keeps_take_away s0 : replaceable s0 → keeps (on_rest (delivered s0)) (DeleteKubeSecret (cert_key name) : M _).
Proof.
  intros Hr. apply (frame_acting _ _ (delivered_framed s0)), frame_write. intros w Hw.
  destruct (secrets (rest w) !! _); [|done]. right. split; [done|]. left. apply lookup_delete_eq.
Qed.
Lemma keeps_deliver s0 p crt tlskey ca : crt ≠ "" → tlskey ≠ "" → ca ≠ "" →
  keeps (on_rest (delivered s0)) (CreateKubeSecret (cert_key name) (wrapper name p cert_doc (certYAML crt tlskey ca)) : M _).
Proof.
  intros H1 H2 H3. apply (frame_acting _ _ (delivered_framed s0)), frame_write. intros w Hw.
  destruct (secrets (rest w) !! _) eqn:E; [done|]. right. split.
  - destruct Hw as [<-|[Hw _]]; [|done]. by rewrite E.
  - right. exists crt, tlskey, ca, (wrapper name p cert_doc (certYAML crt tlskey ca)).
    split; [apply lookup_insert_eq|]. by rewrite payload_of_wrapper.
Qed.
Lemma keeps_cert_own s0 p : keeps (on_rest (delivered s0)) (ensureBootstrapCertCRSWrapper name p : M _).
Proof.
  pose proof (delivered_framed s0) as HF. unfold ensureBootstrapCertCRSWrapper. cbn zeta. fold (cert_key name) cert_doc.
  apply (keeps_attempt_bind _ (λ old, sec_Type old = resource_set → data_at cert_doc (sec_Data old) = "" → replaceable s0)).
  { apply (keeps_fetch _ _ HF). }
  { intros w old w' Hw E%fetch_secret Ht Hd. destruct Hw as [Hw|[Hw _]]; [|done]. rewrite E in Hw. intros s Hs. rewrite Hs in Hw.
    by injection Hw as <-. }
  2: intros e; apply keeps_bind; [apply keeps_ret|].
  1: intros old Ho; apply keeps_bind.
  { destruct (String.eqb (sec_Type old) resource_set) eqn:Et; cbn [negb]; [|apply keeps_ret]. apply String.eqb_eq in Et.
    destruct (String.eqb (data_at cert_doc (sec_Data old)) "") eqn:Ed; cbn [negb]; [|apply keeps_ret]. apply String.eqb_eq in Ed.
    apply keeps_bind; [apply keeps_wrapped, keeps_take_away; auto|intros _; apply keeps_ret]. }
  all: intros [|]; [apply keeps_ret|]; apply keeps_bind; [apply keeps_wrapped, (keeps_fetch _ _ HF)|intros tls].
  all: destruct (_ || _ || _) eqn:E; [apply keeps_throw|]; apply orb_false_iff in E as [[E1 E2]%orb_false_iff E3].
  all: by apply keeps_unless, keeps_deliver; apply String.eqb_neq.
Qed.

(** A spoke's bootstrap certificate wrapper that has a payload is never changed by a pass over
    any spoke, also when the certificate is renewed, and one that a pass leaves behind where there
    was none, or an empty one, holds a certificate, its key and its CA. *)
Theorem certificate_delivered_once other w r w' :
  Reconcile cfg other w = (r, w') →
  secrets (rest w') !! cert_key name = secrets (rest w) !! cert_key name
  ∨ ((∀ s, secrets (rest w) !! cert_key name = Some s → sec_Type s = resource_set ∧ data_at cert_doc (sec_Data s) = "")
     ∧ (secrets (rest w') !! cert_key name = None
        ∨ ∃ crt tlskey ca s, secrets (rest w') !! cert_key name = Some s ∧ data_at cert_doc (sec_Data s) = certYAML crt tlskey ca
            ∧ crt ≠ "" ∧ tlskey ≠ "" ∧ ca ≠ "")).
Proof.
  intros E. pose proof (delivered_framed (secrets (rest w) !! cert_key name)) as HF.
  assert (keeps (on_rest (delivered (secrets (rest w) !! cert_key name))) (Reconcile cfg other : M _)) as Hk.
  { apply (keeps_pass cfg _ _ HF); [keys_differ|keys_differ| |].
    - intros p. destruct (decide (other = name)) as [->|Hn]; [apply keeps_cert_own|by apply keeps_cert_other].
    - intros p. apply (keeps_cilium _ _ HF). keys_differ. }
  specialize (Hk w (or_introl eq_refl)). by rewrite E in Hk.
Qed.
End certificate.

(** ** The network configuration *)

Section network.
Context {H : Hub} {T : Site} (cfg : InfisicalClient) (name : string).
Implicit Types (w : @World H Cluster) (p : Pool).
Abbreviation M A := (goM (@World H Cluster) error A).

Definition network_key (n : string) : key := (capi_ns, n +:+ "-cilium-config").
Definition network_doc : string := "cilium-config.yaml".
(** The wrapper renders the endpoint of the cluster into a configuration of the provider's. *)
Definition rendered (k : Cluster) (s : Secret) : Prop :=
  ∃ host port prov base,
    endpoints k !! name = Some (host, Some port) ∧ host ≠ "" ∧ port ≠ 0%Z ∧ prov ≠ ""
    ∧ configmaps k !! (capi_ns, ciliumConfigBaseName prov) = Some base ∧ base ≠ ∅
    ∧ data_at network_doc (sec_Data s) = yaml_configmap (cilium_data host port base).
Definition published (k0 k : Cluster) : Prop :=
  endpoints k = endpoints k0 ∧ configmaps k = configmaps k0
  ∧ (secrets k !! network_key name = secrets k0 !! network_key name
     ∨ ∃ s, secrets k !! network_key name = Some s ∧ rendered k0 s).
Lemma published_framed k0 : framed (λ x, x ≠ network_key name) (published k0).
Proof. split; try done. intros x s k Hx. unfold published. cbn. by rewrite lookup_insert_ne. Qed.

Lemma keeps_publish k0 (m : Secret → M unit) s : rendered k0 s →
  (m s = CreateKubeSecret (network_key name) s ∨ m s = UpdateKubeSecret (network_key name) s) →
  keeps (on_rest (published k0)) (m s).
Proof.
  intros Hs [-> | ->]; apply (frame_acting _ _ (published_framed k0)), frame_write; intros w (He & Hc & Hw);
    destruct (secrets (rest w) !! network_key name) eqn:E; try done.
  all: unfold on_rest, published in *; cbn; split_and!; [done|done|]; try (by rewrite E).
  all: right; exists s; split; [apply lookup_insert_eq|done].
Qed.
Lemma keeps_network_own k0 p : keeps (on_rest (published k0)) (ensureCiliumConfigCRSWrapper name p : M _).
Proof.
  pose proof (published_framed k0) as HF. unfold ensureCiliumConfigCRSWrapper.
  destruct (String.eqb (provider p) "") eqn:Ep; [apply keeps_ret|]. apply String.eqb_neq in Ep.
  apply (keeps_known_bind _ (λ e, ∀ h q, e = Some (h, q) → endpoints k0 !! name = Some (h, q))).
  { apply keeps_wrapped, keeps_absent, (keeps_fetch _ _ HF). }
  { intros w e w' (He & _) E h q ->. apply wrapped_inv, absent_inv, fetch_ok in E as [-> E]. cbn in E. by rewrite <- He. }
  intros [[host [port|]]|] He; [|apply keeps_ret|apply keeps_ret]. specialize (He _ _ eq_refl).
  destruct (String.eqb host "" || (port =? 0)%Z) eqn:Eh; [apply keeps_ret|]. apply orb_false_iff in Eh as [Eh Eq].
  apply String.eqb_neq in Eh. apply Z.eqb_neq in Eq.
  apply (keeps_known_bind _ (λ b, configmaps k0 !! (capi_ns, ciliumConfigBaseName (provider p)) = Some b)).
  { apply keeps_wrapped, (keeps_fetch _ _ HF). }
  { intros w b w' (_ & Hc & _) E. apply wrapped_inv, fetch_ok in E as [-> E]. cbn in E. by rewrite <- Hc. }
  intros base Hb. destruct (bool_decide (base = ∅)) eqn:Ebase; [apply keeps_throw|]. apply bool_decide_eq_false in Ebase. cbn zeta.
  fold (network_key name) network_doc.
  assert (∀ s, data_at network_doc (sec_Data s) = yaml_configmap (cilium_data host port base) → rendered k0 s) as Hr.
  { intros s Hs. exists host, port, (provider p), base. by split_and!. }
  apply keeps_bind; [apply keeps_attempt, (keeps_fetch _ _ HF)|]. intros existing.
  assert (keeps (on_rest (published k0)) (unless_exists "create cilium-config CRS wrapper" (CreateKubeSecret (network_key name)
    (wrapper name p network_doc (yaml_configmap (cilium_data host port base)))) : M _)) as Hcreate.
  { apply keeps_unless, (keeps_publish k0 (CreateKubeSecret (network_key name))); [|by left]. apply Hr, payload_of_wrapper. }
  destruct existing as [old|e]; [|done]. destruct (negb (String.eqb (sec_Type old) resource_set)); [done|].
  destruct (String.eqb _ _); [apply keeps_ret|]. apply keeps_wrapped, (keeps_publish k0 (UpdateKubeSecret (network_key name))); [|by right].
  apply Hr. unfold data_at. cbn [sec_Data]. by rewrite lookup_singleton_eq.
Qed.

(** A pass over any spoke leaves the network configuration delivered to a spoke as it is, or
    renders it with the API server address that the cluster has at that time, which is not
    empty, into a configuration of a provider that is not empty. *)
Theorem network_fails_closed other w r w' :
  Reconcile cfg other w = (r, w') →
  secrets (rest w') !! network_key name = secrets (rest w) !! network_key name
  ∨ ∃ s host port prov base, secrets (rest w') !! network_key name = Some s
      ∧ endpoints (rest w) !! name = Some (host, Some port) ∧ host ≠ "" ∧ port ≠ 0%Z
      ∧ configmaps (rest w) !! (capi_ns, ciliumConfigBaseName prov) = Some base ∧ base ≠ ∅
      ∧ data_at network_doc (sec_Data s) = yaml_configmap (cilium_data host port base).
Proof.
  intros E. pose proof (published_framed (rest w)) as HF.
  assert (keeps (on_rest (published (rest w))) (Reconcile cfg other : M _)) as Hk.
  { apply (keeps_pass cfg _ _ HF); [keys_differ|keys_differ| |].
    - intros p. unfold ensureBootstrapCertCRSWrapper.
      assert (∀ n, (capi_ns, n +:+ "-bootstrap-cert") ≠ network_key name) as Hne by (intros n; keys_differ).
      walk_frame HF. intros u Hu. destruct (secrets (rest u) !! _); [|done].
      unfold on_rest, published in *. cbn. by rewrite lookup_delete_ne.
    - intros p. destruct (decide (other = name)) as [->|Hn]; [apply keeps_network_own|]. apply (keeps_cilium _ _ HF).
      intros Ek. injection Ek as Ek. by apply str_app_inj_r in Ek. }
  specialize (Hk w (conj eq_refl (conj eq_refl (or_introl eq_refl)))). rewrite E in Hk.
  destruct Hk as (_ & _ & [Hs|(s & Hs & host & port & prov & base & ? & ? & ? & _ & ? & ? & ?)]); [by left|right].
  by exists s, host, port, prov, base.
Qed.
End network.
