(* ===== verification/SpokeLossFacts.v ===== *)
(** * SpokeLossFacts: a password that was lost.

    The status that reports a lost password is the record by which the next pass decides
    whether there ever was one. *)

From S2P Require Import Prelude.
From S2P Require Import GoRuntime.
From S2P Require Import HubSecrets.
From S2P Require Import HubSecretsFacts.
From S2P Require Import SpokePool.
From S2P Require Import SpokePoolFacts.

Local Open Scope string_scope.

(** ** Conditions *)

Section conditions.
Context {T : Site}.
Implicit Types (l : list Condition) (c : Condition).

Definition count (t : string) l : nat := length (filter (λ c, Type_ c = t) l).
Lemma count_cons t c l : count t (c :: l) = ((if decide (Type_ c = t) then 1 else 0) + count t l)%nat.
Proof. unfold count. rewrite filter_cons. by destruct (decide (Type_ c = t)). Qed.
Lemma count_zero t l : count t l = 0%nat → Forall (λ c, Type_ c ≠ t) l.
Proof.
  induction l as [|c l IH]; [constructor|]. rewrite count_cons. intros E. constructor.
  - intros Ht. rewrite decide_True in E by done. lia.
  - apply IH. destruct (decide _) in E; lia.
Qed.
Lemma count_other now0 t c l : Type_ c ≠ t → count t (SetStatusCondition now0 c l) = count t l.
Proof.
  intros Hc. induction l as [|old l IH]; cbn [SetStatusCondition].
  - rewrite count_cons. cbn. by rewrite decide_False.
  - destruct (String.eqb (Type_ old) (Type_ c)); rewrite !count_cons; cbn; [done|by rewrite IH].
Qed.
(** The one condition of a type, after it was set. *)
Lemma set_status now0 c l : (count (Type_ c) l ≤ 1)%nat →
  Forall (λ x, Type_ x = Type_ c → Status_ x = Status_ c) (SetStatusCondition now0 c l).
Proof.
  induction l as [|old l IH]; cbn [SetStatusCondition]; [by repeat constructor|]. rewrite count_cons.
  destruct (String.eqb (Type_ old) (Type_ c)) eqn:E.
  - apply String.eqb_eq in E. rewrite decide_True by done. intros Hc. constructor; [done|].
    assert (count (Type_ c) l = 0%nat) as Hz%count_zero by lia. eapply Forall_impl; [done|]. by intros x Hx ?.
  - apply String.eqb_neq in E. rewrite decide_False by done. intros Hc. constructor; [done|]. by apply IH.
Qed.
(** How many entries of a type the raw list has. *)
Definition entries (t : string) (p : Pool) : nat := length (filter (λ e : RawCondition, raw_type e = Some t) (conditions p)).
Lemma count_omap t cs : (count t (omap to_condition cs) ≤ length (filter (λ e : RawCondition, raw_type e = Some t) cs))%nat.
Proof.
  induction cs as [|e cs IH]; [done|]. rewrite filter_cons. cbn [omap list_omap]. unfold to_condition at 1.
  destruct (raw_type e) as [ty|] eqn:Ety; [|destruct (decide _); cbn; lia].
  destruct (raw_status e), (raw_reason e), (raw_message e); rewrite ?count_cons; cbn.
  all: destruct (decide (ty = t)), (decide (Some ty = Some t)); cbn; try congruence; lia.
Qed.
Lemma status_reset p t0 n a b r : (entries password_type p ≤ 1)%nat → Status_ (password_condition n r) = "False" →
  isStatusConditionTrue (with_conditions (new_conditions t0 n a b r (conditions p)) p) password_type = false.
Proof.
  intros Hc Hs. unfold isStatusConditionTrue, new_conditions. cbn [conditions with_conditions].
  assert (Type_ (password_condition n r) = password_type) as Ht by (by destruct r).
  assert (count password_type (SetStatusCondition t0 (identity_condition n a b) (omap to_condition (conditions p))) ≤ 1)%nat as H1.
  { rewrite count_other; [|by destruct a, b]. etrans; [apply count_omap|done]. }
  rewrite <- Ht in H1. pose proof (set_status t0 (password_condition n r) _ H1) as Hf. rewrite Ht in Hf.
  induction Hf as [|x l Hx _ IH]; [done|]. cbn [fmap list_fmap existsb]. rewrite IH, orb_false_r. cbn.
  destruct (bool_decide (Some (Type_ x) = Some password_type)) eqn:E; [|done]. apply bool_decide_eq_true in E. injection E as E.
  rewrite (Hx E), Hs. done.
Qed.
End conditions.

(** ** The report *)

Section loss.
Context {H : Hub} {L : VaultLaws H} {T : Site} (cfg : InfisicalClient).
Implicit Types (w : @World H Cluster) (p q : Pool).
Abbreviation M A := (goM (@World H Cluster) error A).

(** No call to the cluster fails and nobody else writes. *)
Definition calm w : Prop := faults (rest w) = [] ∧ rivals (rest w) = [].
Definition password_place (c name : string) : place := at_place cfg c "/" (crossplane_key name).

Lemma outcome_calm w : calm w → (outcome_next : M _) w = (Ok Done, with_rest (set_scripts [] []) w).
Proof. intros [Ef Er]. rewrite outcome_run, Ef, Er. done. Qed.
Lemma fetch_calm {A} (f : Cluster → option A) w x :
  calm w → f (set_scripts [] [] (rest w)) = Some x → (read_object f : M _) w = (Ok x, with_rest (set_scripts [] []) w).
Proof. intros Hc Hf. unfold read_object. rewrite bind_run, outcome_calm by done. rewrite bind_run. cbn. by rewrite Hf. Qed.
Lemma calm_again w : calm (with_rest (set_scripts [] []) w).
Proof. done. Qed.
Lemma update_calm name a b r w q : calm w → pools (rest w) !! name = Some q →
  ∃ w', (updateStatusCondition name a b r : M _) w = (Ok (), w')
    ∧ pools (rest w') !! name = Some (with_conditions (new_conditions (now w) name a b r (conditions q)) q).
Proof.
  intros Hc Hq. unfold updateStatusCondition, RetryOnConflict. rewrite bind_run. unfold attempt, update_once.
  rewrite bind_run. unfold GetPool. rewrite (fetch_calm _ _ q Hc) by done. rewrite bind_run. cbn [gets].
  unfold StatusUpdate, acting. rewrite bind_run, outcome_calm by apply calm_again. rewrite bind_run. cbn. rewrite Hq. cbn.
  eexists. split; [done|]. cbn. apply lookup_insert_eq.
Qed.
Lemma or_missing_run (m : M (EnsureResult * option error)) w :
  or_missing m w = match m w with (Ok r, w') => (Ok r, w') | (Err e, w') => (Ok (EnsureMissing, Some e), w') end.
Proof. unfold or_missing. rewrite bind_run. unfold attempt. by destruct (m w) as [[r|e] w']. Qed.
(** An error beside the answer comes with EnsureMissing; the computation itself never fails. *)
Lemma password_answer c name b w r w' : (EnsureCrossplaneAdminPassword cfg c name b : M _) w = (r, w') →
  ∃ res e, r = Ok (res, e) ∧ (is_Some e → res = EnsureMissing).
Proof.
  unfold EnsureCrossplaneAdminPassword. rewrite or_missing_run.
  match goal with |- match ?x with _ => _ end = _ → _ => destruct x as [[[res e]|e] w1] eqn:E end;
    intros Heq; injection Heq as <- <-; [|by exists EnsureMissing, (Some e)].
  exists res, e. split; [done|]. intros [e' ->].
  apply bind_inv_ok in E as (x & w2 & E2 & E). destruct x; [done|]. destruct (negb b); [by injection E as <- _|].
  apply bind_inv_ok in E as (v & w3 & E3 & E). by apply bind_inv_ok in E as ([] & w4 & E4 & E).
Qed.
Lemma password_seeded c name w r e w' : (EnsureCrossplaneAdminPassword cfg c name true : M _) w = (Ok (r, e), w') →
  e = None → stored (service w) !! password_place c name = None → r = EnsureCreated ∧ is_Some (stored (service w') !! password_place c name).
Proof.
  unfold EnsureCrossplaneAdminPassword. rewrite or_missing_run.
  match goal with |- match ?x with _ => _ end = _ → _ => destruct x as [[[res e']|e'] w1] eqn:E end; intros Heq; injection Heq as <- <- <-; intros Hn Hv; [|done]. subst.
  apply bind_inv_ok in E as (x & w2 & E2 & E). apply wrapped_inv, SecretExists_ok in E2 as [S2 P2].
  destruct x; [destruct P2 as [v P2]; unfold password_place in Hv; congruence|]. cbn [negb] in E.
  apply bind_inv_ok in E as (v & w3 & E3 & E). apply bind_inv_ok in E as ([] & w4 & E4 & E).
  apply wrapped_inv, CreateSecret_ok in E4 as [_ S4]. injection E as <- <-. split; [done|]. rewrite S4. by rewrite lookup_insert_eq.
Qed.

(** C40: When a pass finds the password of a provisioned spoke gone, or cannot tell, it fails and
    its status says that manual recovery is required; and by that same status the next pass
    takes the spoke for a new one and generates another password. *)
Theorem lost_password_regenerated name p q c w e w1 :
  calm w → pools (rest w) !! name = Some q → (entries password_type q ≤ 1)%nat →
  ensure_password cfg name p c w = (Err e, w1) →
  ∃ q', pools (rest w1) !! name = Some q' ∧ isStatusConditionTrue q' password_type = false
    ∧ ∀ w2 r w3, ensure_password cfg name q' c w2 = (Ok r, w3) →
        stored (service w2) !! password_place c name = None →
        r = EnsureCreated ∧ is_Some (stored (service w3) !! password_place c name).
Proof.
  intros Hc Hq He E. unfold ensure_password in E. rewrite bind_run in E.
  destruct (EnsureCrossplaneAdminPassword cfg c name _ w) as [a u] eqn:Ea.
  assert (rest u = rest w) as Hu by (eapply rest_own, Ea; walk_acts).
  apply password_answer in Ea as (res & oe & -> & Hm). destruct oe as [e'|]; [|done]. rewrite (Hm (ex_intro _ _ eq_refl)) in E.
  unfold or_noted in E. rewrite decide_True in E by done. rewrite bind_run in E. unfold logged in E. rewrite bind_run in E. unfold attempt in E.
  destruct (update_calm name false false EnsureMissing u q) as (u' & Eu & Hq'); [by unfold calm; rewrite Hu|by rewrite Hu|].
  rewrite Eu in E. injection E as <- <-. eexists. split; [exact Hq'|].
  assert (isStatusConditionTrue (with_conditions (new_conditions (now u) name false false EnsureMissing (conditions q)) q) password_type = false)
    as Hf by (by apply status_reset).
  split; [done|]. intros w2 r w3 E2 Hv. unfold ensure_password in E2. rewrite Hf in E2. cbn [negb] in E2.
  apply bind_inv_ok in E2 as ([res2 oe2] & w4 & E4 & E2). destruct oe2 as [e2|].
  { unfold or_noted in E2. apply bind_inv_ok in E2 as ([] & w5 & E5 & E2). done. }
  injection E2 as <- <-. by eapply password_seeded.
Qed.
End loss.
