(* ===== verification/MasterKeys.v ===== *)
(** * MasterKeys: the secrets the hub's own secrets service starts from.

    Models operators/hub-operator: internal/secrets/generator.go and validator.go: random
    passwords over a set of characters, the checks of a key, and the bootstrap Secrets,
    whose master keys are restored from the escrow or generated and escrowed. The escrow
    is the interface [Escrow], as the code takes it. Ed25519 keys are left to the library
    that makes them. *)

From S2P Require Import Prelude.
From S2P Require Import GoRuntime.
From S2P Require Import HubSecrets.

Local Open Scope string_scope.

(** ** validator.go *)

Definition is_hex (c : Ascii.ascii) : bool :=
  let n := Ascii.nat_of_ascii c in
  ((48 <=? n) && (n <=? 57) || (97 <=? n) && (n <=? 102) || (65 <=? n) && (n <=? 70))%nat.
Fixpoint Repeat (s : string) (n : nat) : string := match n with O => "" | S n => s +:+ Repeat s n end.
Definition validate (what key : string) : option error :=
  if negb (String.length key =? 32)%nat then Some (Errorf (what +:+ " must be 32 characters, got " +:+ pretty (String.length key)))
  else if negb (all_chars is_hex key) then Some (Errorf (what +:+ " must be valid hex string"))
  else if String.eqb key (Repeat "0" 32) then Some (Errorf (what +:+ " cannot be all zeros"))
  else None.
Definition ValidateEncryptionKey : string → option error := validate "ENCRYPTION_KEY".
Definition ValidateAuthSecret : string → option error := validate "AUTH_SECRET".

(** ** generator.go *)

Definition EncryptionKeyProtectionFinalizer : string := "ops.nutgraf.in/encryption-key-protection".
Record Secret := mkSecret {
  Name : string;
  Namespace : string;
  Owners : list string;
  Finalizers : list string;
  Labels : list (string * string);
  Type_ : string;
  StringData : gmap string string }.
(** What an escrow holds, as it is handed back: nothing, a map whose values are strings or
    not, or something else. *)
Inductive Backup := NoBackup | BackupMap (m : gmap string (option string)) | BackupOther.
Record Keys := mkKeys { encryptionKey : string; authSecret : string; createdAt : Z; clusterId : string; version : string }.
Class Escrow := {
  ESt : Type;
  RestoreMasterKeys : string → ESt → result string Backup * ESt;
  BackupMasterKeys : string → Keys → ESt → result string unit * ESt;
  base64 : string → string }.
Record BootstrapSecretsResult := mkBootstrap {
  InfisicalDBCredentials : option Secret;
  InfisicalSecrets : option Secret;
  InfisicalRedisCredentials : option Secret;
  InfisicalPostgresConnection : Secret }.

Section generator.
Context {H : Hub} {X : Escrow}.
Abbreviation M A := (goM (@World H ESt) error A).

(** One character: bytes are drawn until one is below the bound; None where [fuel] draws
    were not enough. *)
Definition maxValid (charset : string) : Z := (256 - 256 mod Z.of_nat (String.length charset))%Z.
Definition char_of (charset : string) (b : Z) : Ascii.ascii :=
  match String.get (Z.to_nat (b mod Z.of_nat (String.length charset))) charset with Some c => c | None => "000"%char end.
Fixpoint draw_char (fuel : nat) (charset : string) : M (option Ascii.ascii) :=
  match fuel with
  | O => mret None
  | S fuel =>
      bs ← wrapped "failed to generate random bytes" (Read 1);
      match bs with
      | b :: _ => if (b <? maxValid charset)%Z then mret (Some (char_of charset b)) else draw_char fuel charset
      | [] => draw_char fuel charset
      end
  end.
Fixpoint draw_chars (fuel n : nat) (charset : string) : M (option string) :=
  match n with
  | O => mret (Some "")
  | S n =>
      c ← draw_char fuel charset;
      match c with
      | None => mret None
      | Some c => s ← draw_chars fuel n charset; mret (String c <$> s)
      end
  end.
Definition GenerateSecurePasswordWithCharset (fuel : nat) (length : Z) (charset : string) : M (option string) :=
  if (length <=? 0)%Z then errorf "password length must be positive"
  else if (String.length charset =? 0)%nat then errorf "charset cannot be empty"
  else draw_chars fuel (Z.to_nat length) charset.

Definition GenerateInfisicalDBCredentials (namespace owner : string) : M Secret :=
  password ← wrapped "failed to generate infisical-db-credentials password" GenerateSecurePassword;
  mret (mkSecret "infisical-db-credentials" namespace [owner] [] [("ops.nutgraf.in/db-credentials", "true")]
          "kubernetes.io/basic-auth" {["username" := "infisical"; "password" := password]}).

Definition RestoreKeys (boxID : string) : M Backup := λ w,
  let '(r, e) := RestoreMasterKeys boxID (rest w) in
  let w' := mkWorld (service w) (clients w) (now w) (draws w) (log w) e in
  match r with Ok b => (Ok b, w') | Err m => (Err (Errorf m), w') end.
Definition Escrowed (boxID : string) (k : Keys) : M unit := λ w,
  let '(r, e) := BackupMasterKeys boxID k (rest w) in
  let w' := mkWorld (service w) (clients w) (now w) (draws w) (log w) e in
  match r with Ok _ => (Ok (), w') | Err m => (Err (Errorf m), w') end.
Definition checked (what : string) (e : option error) : M unit :=
  match e with None => mret () | Some e => throw (mkError (err_is e) (what +:+ ": " +:+ Error e)) end.

(** The two master keys. *)
Definition master_keys (isFirstTime : bool) (boxID : string) : M (string * string) :=
  backupData ← wrapped "failed to read the escrow" (RestoreKeys boxID);
  match backupData with
  | BackupMap m =>
      match m !! "encryptionKey", m !! "authSecret" with
      | Some (Some ek), Some (Some as_) =>
          checked "restored ENCRYPTION_KEY failed validation" (ValidateEncryptionKey ek) ;;
          checked "restored AUTH_SECRET failed validation" (ValidateAuthSecret as_) ;;
          mret (ek, as_)
      | Some (Some _), _ => errorf "backup data missing authSecret field"
      | _, _ => errorf "backup data missing encryptionKey field"
      end
  | BackupOther => errorf "invalid backup data format"
  | NoBackup =>
      if negb isFirstTime
      then errorf "ENCRYPTION_KEY backup not found in AWS and cluster already bootstrapped. Manual intervention required"
      else
        ek ← wrapped "failed to generate ENCRYPTION_KEY" GenerateSecurePassword;
        as_ ← wrapped "failed to generate AUTH_SECRET" GenerateSecurePassword;
        checked "generated ENCRYPTION_KEY failed validation" (ValidateEncryptionKey ek) ;;
        checked "generated AUTH_SECRET failed validation" (ValidateAuthSecret as_) ;;
        t ← gets now;
        wrapped ("escrow the master keys for " +:+ boxID) (Escrowed boxID (mkKeys ek as_ t boxID "1")) ;;
        mret (ek, as_)
  end.
(** The Secret and the Redis password; [escrowClient] says whether there is an escrow. *)
Definition GenerateInfisicalSecrets (securityNamespace dataNamespace caCert owner : string) (isFirstTime : bool)
    (boxID : string) (escrowClient : bool) (existingRedisPassword : string) : M (Secret * string) :=
  if negb escrowClient
  then errorf "no escrow: the Infisical master keys cannot be generated without somewhere outside this cluster to keep them (ADR-076)"
  else if String.eqb boxID "" then errorf "no cluster name: the master keys would be escrowed under a name nothing reads back"
  else
    keys ← master_keys isFirstTime boxID;
    let '(ek, as_) := keys in
    redisPassword ← (if negb (String.eqb existingRedisPassword "") then mret existingRedisPassword
                     else wrapped "failed to generate Redis password" GenerateSecurePassword);
    let redisURL := "redis://:" +:+ redisPassword +:+ "@redis-master." +:+ dataNamespace +:+ ".svc:6379" in
    let dbRootCert := if String.eqb caCert "" then "" else base64 caCert in
    mret (mkSecret "infisical-secrets" securityNamespace [owner] [EncryptionKeyProtectionFinalizer] [] "Opaque"
            {["ENCRYPTION_KEY" := ek; "AUTH_SECRET" := as_; "REDIS_URL" := redisURL; "DB_ROOT_CERT" := dbRootCert]},
          redisPassword).
Definition GenerateInfisicalRedisCredentials (namespace redisPassword owner : string) : Secret :=
  mkSecret "infisical-redis-credentials" namespace [owner] [EncryptionKeyProtectionFinalizer]
    [("app.kubernetes.io/managed-by", "hub-operator"); ("app.kubernetes.io/component", "bootstrap-secret")] "Opaque"
    {["password" := redisPassword]}.
Definition GenerateInfisicalPostgresConnection (securityNamespace dbHost dbName username password owner : string) : Secret :=
  mkSecret "infisical-postgres-connection" securityNamespace [owner] [] [] "Opaque"
    {["DB_HOST" := dbHost; "DB_PORT" := "5432"; "DB_USER" := username; "DB_PASSWORD" := password; "DB_NAME" := dbName;
      "DB_SSL_MODE" := "require"]}.

Definition data_of (k : string) (d : gmap string string) : string := default "" (d !! k).
(** The data of the Secrets that exist, by their names. *)
Definition GenerateBootstrapSecrets (dataNamespace securityNamespace dbHost owner : string)
    (existing : gmap string (gmap string string)) (isFirstTime : bool) (boxID : string) (escrowClient : bool) :
    M BootstrapSecretsResult :=
  let caCert := match existing !! "infisical-db-ca" with Some d => data_of "ca.crt" d | None => "" end in
  db ← (match existing !! "infisical-db-credentials" with
        | Some d => mret (None, data_of "username" d, data_of "password" d)
        | None =>
            s ← wrapped "failed to generate infisical-db-credentials" (GenerateInfisicalDBCredentials dataNamespace owner);
            mret (Some s, data_of "username" (StringData s), data_of "password" (StringData s))
        end);
  let '(dbSecret, username, password) := db in
  infisical ← (match existing !! "infisical-secrets" with
               | Some _ => mret (None, None)
               | None =>
                   let redis := existing !! "infisical-redis-credentials" in
                   r ← wrapped "failed to generate infisical-secrets"
                         (GenerateInfisicalSecrets securityNamespace dataNamespace caCert owner isFirstTime boxID escrowClient
                            (match redis with Some d => data_of "password" d | None => "" end));
                   mret (Some r.1, match redis with
                                   | Some _ => None
                                   | None => Some (GenerateInfisicalRedisCredentials dataNamespace r.2 owner)
                                   end)
               end);
  mret (mkBootstrap dbSecret infisical.1 infisical.2
          (GenerateInfisicalPostgresConnection securityNamespace dbHost "infisical" username password owner)).
End generator.
