(* ===== verification/MasterKeysFacts.v ===== *)
(** * MasterKeysFacts: passwords without bias, master keys never without a copy.

    Every character of a set is drawn from the same number of byte values, and a draw
    ends with the first byte that is accepted; a master key that is handed out is held by
    the escrow, which hands back the same key ever after. *)

From S2P Require Import Prelude.
From S2P Require Import GoRuntime.
From S2P Require Import HubSecrets.
From S2P Require Import HubSecretsFacts.
From S2P Require Import MasterKeys.

Local Open Scope string_scope.

(** ** Passwords over a set of characters *)

(** The values of a byte that yield the character at [i]. *)
Definition chosen (charset : string) (i : nat) (b : nat) : bool :=
  (Z.of_nat b <? maxValid charset)%Z && (Z.to_nat (Z.of_nat b mod Z.of_nat (String.length charset)) =? i)%nat.
Definition ways (charset : string) (i : nat) : nat := length (List.filter (chosen charset i) (seq 0 256)).

Section counting.
Implicit Types (n i q : nat).

Lemma filter_length_app {A} (f : A → bool) (l1 l2 : list A) :
  length (List.filter f (l1 ++ l2)) = (length (List.filter f l1) + length (List.filter f l2))%nat.
Proof. by rewrite List.filter_app, length_app. Qed.
Lemma count_one i n s : (s ≤ i < s + n)%nat → length (List.filter (λ b, (b =? i)%nat) (seq s n)) = 1%nat.
Proof.
  revert s. induction n as [|n IH]; intros s Hi; [lia|]. cbn. destruct (s =? i)%nat eqn:E.
  - apply Nat.eqb_eq in E as ->. cbn. f_equal. clear. assert (∀ t, (i < t)%nat → List.filter (λ b, (b =? i)%nat) (seq t n) = []) as Hn; [|by rewrite Hn by lia].
    induction n as [|n IH]; intros t Ht; [done|]. cbn. destruct (Nat.eqb_spec t i); [lia|]. apply IH. lia.
  - apply Nat.eqb_neq in E. apply IH. lia.
Qed.
(** A block of [n] values in a row has each remainder once. *)
Lemma count_block n i q : (i < n)%nat → length (List.filter (λ b, (b mod n =? i)%nat) (seq (q * n) n)) = 1%nat.
Proof.
  intros Hi. rewrite <- (count_one (q * n + i) n (q * n)) by lia. f_equal. apply List.filter_ext_in.
  intros b [Hb1 Hb2]%in_seq. rewrite <- (Nat.mod_small i n) at 1 by done.
  assert (b mod n = b - q * n)%nat as ->.
  { symmetry. apply (Nat.mod_unique b n q (b - q * n)); lia. }
  rewrite Nat.mod_small by done. destruct (Nat.eqb_spec (b - q * n) i), (Nat.eqb_spec b (q * n + i)); lia.
Qed.
Lemma count_blocks n i q : (i < n)%nat → length (List.filter (λ b, (b mod n =? i)%nat) (seq 0 (q * n))) = q.
Proof.
  intros Hi. induction q as [|q IH]; [done|]. replace (S q * n)%nat with (q * n + n)%nat by lia.
  rewrite seq_app, filter_length_app, IH, Nat.add_0_l, count_block by done. lia.
Qed.

(** Every character of a set of at most 256 is yielded by the same number of the byte values
    that are accepted, so a password drawn from uniform bytes is uniform. *)
Theorem charset_unbiased (charset : string) i :
  (String.length charset ≤ 256)%nat → (i < String.length charset)%nat →
  ways charset i = (256 / String.length charset)%nat.
Proof.
  intros Hn Hi. unfold ways. set (n := String.length charset) in *. set (q := (256 / n)%nat).
  assert (256 = q * n + 256 mod n)%nat as Hq by (unfold q; rewrite Nat.mul_comm; apply Nat.div_mod_eq).
  assert (maxValid charset = Z.of_nat (q * n)) as Hmax.
  { unfold maxValid. fold n. change 256%Z with (Z.of_nat 256). rewrite <- (Nat2Z.inj_mod 256 n). lia. }
  assert (seq 0 256 = seq 0 (q * n) ++ seq (q * n) (256 mod n))%list as -> by (rewrite Hq at 1; apply seq_app).
  assert (∀ b, chosen charset i b = (b <? q * n)%nat && (b mod n =? i)%nat) as Hc.
  { intros b. unfold chosen. rewrite Hmax. fold n. rewrite <- Nat2Z.inj_mod, Nat2Z.id. f_equal.
    destruct (Z.ltb_spec (Z.of_nat b) (Z.of_nat (q * n))), (Nat.ltb_spec b (q * n)); lia. }
  rewrite filter_length_app. rewrite (List.filter_ext_in _ (λ b, (b mod n =? i)%nat) (seq 0 (q * n))), count_blocks by
    (done || (intros b [_ Hb]%in_seq; rewrite Hc; destruct (Nat.ltb_spec b (q * n)); [done|lia])).
  rewrite (List.filter_ext_in _ (λ _, false) (seq (q * n) (256 mod n))).
  - assert (∀ l : list nat, List.filter (λ _, false) l = []) as ->; [|cbn; lia].
    by induction l.
  - intros b [Hb _]%in_seq. rewrite Hc. destruct (Nat.ltb_spec b (q * n)); [lia|done].
Qed.
End counting.

Section drawing.
Context {H : Hub} {X : Escrow}.
Implicit Types (w : @World H ESt).
Abbreviation M A := (goM (@World H ESt) error A).

(** The byte the source gives at position [i] is [b]. *)
Definition byte_at (i : nat) (b : Z) : Prop := ∃ z, random i = Ok z ∧ b = (z mod 256)%Z.
Lemma Read_one w b : byte_at (draws w) b → (Read 1 : M _) w = (Ok [b], with_draws (S (draws w)) w).
Proof. intros (z & Hz & ->). cbn [Read]. rewrite !bind_run. cbn. rewrite Hz. done. Qed.

(** Drawing a character ends with the first byte below the bound, and yields the character
    that byte stands for, having drawn no byte after it. *)
Theorem draw_ends fuel charset k b w :
  (k < fuel)%nat → (∀ j, (j < k)%nat → ∃ b', byte_at (draws w + j) b' ∧ (maxValid charset ≤ b')%Z) →
  byte_at (draws w + k) b → (b < maxValid charset)%Z →
  draw_char fuel charset w = (Ok (Some (char_of charset b)), with_draws (draws w + k + 1) w).
Proof.
  revert fuel w. induction k as [|k IH]; intros [|fuel] w Hf Hr Hb Hlt; [lia| |lia|]; cbn [draw_char]; rewrite bind_run, wrapped_run.
  - rewrite Nat.add_0_r in Hb. rewrite (Read_one w b) by done. rewrite (proj2 (Z.ltb_lt _ _)) by done.
    by replace (draws w + 0 + 1)%nat with (S (draws w)) by lia.
  - destruct (Hr 0%nat) as (b' & Hb' & Hle); [lia|]. rewrite Nat.add_0_r in Hb'. rewrite (Read_one w b') by done.
    rewrite (proj2 (Z.ltb_ge _ _)) by done. rewrite IH; [|lia| |by replace (draws _ + k)%nat with (draws w + S k)%nat by (cbn; lia)|done].
    + by replace (draws _ + k + 1)%nat with (draws w + S k + 1)%nat by (cbn; lia).
    + intros j Hj. destruct (Hr (S j)) as (b'' & Hb'' & ?); [lia|]. exists b''.
      by replace (draws _ + j)%nat with (draws w + S j)%nat by (cbn; lia).
Qed.
(** A set of more than 256 characters accepts no byte at all. *)
Lemma long_charset_accepts_none charset : (256 < String.length charset)%nat → maxValid charset = 0%Z.
Proof. intros Hn. unfold maxValid. rewrite Z.mod_small by lia. lia. Qed.
End drawing.

(** ** Master keys *)

(** What the escrow hands back, read as the code reads it. *)
Definition holds_keys (m : gmap string (option string)) (ek as_ : string) : Prop :=
  m !! "encryptionKey" = Some (Some ek) ∧ m !! "authSecret" = Some (Some as_).
(** A backup that was accepted is what is restored from then on, for the boxes of [usable]
    names. *)
Class EscrowLaws (X : Escrow) (usable : string → Prop) := {
  restored box k e e' : usable box → BackupMasterKeys box k e = (Ok (), e') →
    ∃ m e'', RestoreMasterKeys box e' = (Ok (BackupMap m), e'') ∧ holds_keys m (encryptionKey k) (authSecret k) }.

Section keys.
Context {H : Hub} {X : Escrow}.
Implicit Types (w : @World H ESt).
Abbreviation M A := (goM (@World H ESt) error A).

Lemma password_rest w r w' : (GenerateSecurePassword : M _) w = (r, w') → rest w' = rest w.
Proof. apply rest_own. walk_acts. Qed.
Lemma checked_ok what o w w' : (checked what o : M _) w = (Ok (), w') → o = None ∧ w' = w.
Proof. destruct o; [done|]. intros E. by injection E as <-. Qed.

(** Where the two keys of [w] come from, [e] being the escrow before and [e'] after. *)
Inductive keys_from (first : bool) (box ek as_ : string) (e e' : ESt) : Prop :=
| from_escrow m : RestoreMasterKeys box e = (Ok (BackupMap m), e') → holds_keys m ek as_ → keys_from first box ek as_ e e'
| from_random e1 t : first = true → RestoreMasterKeys box e = (Ok NoBackup, e1) →
    BackupMasterKeys box (mkKeys ek as_ t box "1") e1 = (Ok (), e') → keys_from first box ek as_ e e'.

Lemma master_keys_ok first box w ek as_ w' : (master_keys first box : M _) w = (Ok (ek, as_), w') →
  keys_from first box ek as_ (rest w) (rest w') ∧ ValidateEncryptionKey ek = None ∧ ValidateAuthSecret as_ = None.
Proof.
  unfold master_keys. rewrite bind_run, wrapped_run. unfold RestoreKeys at 1.
  destruct (RestoreMasterKeys box (rest w)) as [[[|m|]|e] e1] eqn:Er; [| |done|done].
  - destruct first; cbn [negb]; [|done]. intros (k1 & w1 & E1 & E)%bind_inv_ok. apply wrapped_inv, password_rest in E1.
    apply bind_inv_ok in E as (k2 & w2 & E2 & E). apply wrapped_inv, password_rest in E2.
    apply bind_inv_ok in E as ([] & w3 & E3 & E). apply checked_ok in E3 as [V1 ->].
    apply bind_inv_ok in E as ([] & w4 & E4 & E). apply checked_ok in E4 as [V2 ->].
    apply bind_inv_ok in E as (t & w5 & E5 & E). injection E5 as <- <-. apply bind_inv_ok in E as ([] & w6 & E6 & E).
    apply wrapped_inv in E6. injection E as <- <- <-. split; [|done]. unfold Escrowed in E6. rewrite E2, E1 in E6.
    destruct (BackupMasterKeys box _ _) as [[[]|] e2] eqn:Eb; [|done]. injection E6 as <-. by eapply from_random.
  - destruct (m !! "encryptionKey") as [[k1|]|] eqn:M1; [|done|done]. destruct (m !! "authSecret") as [[k2|]|] eqn:M2; [|done|done].
    intros ([] & w3 & E3 & E)%bind_inv_ok. apply checked_ok in E3 as [V1 ->].
    apply bind_inv_ok in E as ([] & w4 & E4 & E). apply checked_ok in E4 as [V2 ->]. injection E as <- <- <-.
    split; [|done]. by apply (from_escrow _ _ _ _ _ _ m).
Qed.
Lemma infisical_secrets_ok sns dns ca owner first box esc redis w s rp w' :
  (GenerateInfisicalSecrets sns dns ca owner first box esc redis : M _) w = (Ok (s, rp), w') →
  ∃ ek as_, StringData s !! "ENCRYPTION_KEY" = Some ek ∧ StringData s !! "AUTH_SECRET" = Some as_ ∧ box ≠ "" ∧ esc = true
    ∧ keys_from first box ek as_ (rest w) (rest w') ∧ ValidateEncryptionKey ek = None ∧ ValidateAuthSecret as_ = None.
Proof.
  unfold GenerateInfisicalSecrets. destruct esc; cbn [negb]; [|done]. destruct (String.eqb box "") eqn:Eb; [done|].
  apply String.eqb_neq in Eb. intros ([ek as_] & w1 & E1 & E)%bind_inv_ok. apply master_keys_ok in E1 as (Hk & V1 & V2).
  apply bind_inv_ok in E as (r & w2 & E2 & E). assert (rest w2 = rest w1) as Hr.
  { destruct (negb (String.eqb redis "")); [by injection E2 as _ <-|]. by apply wrapped_inv, password_rest in E2. }
  injection E as <- _ <-. exists ek, as_. rewrite Hr. done.
Qed.

(** The master keys of the Secret that is handed back are keys the escrow holds: it returned
    them, or it had none, the box is being built, and it took them before they were handed
    back. They are sixteen bytes in hexadecimal and not zero. *)
Theorem master_keys_escrowed sns dns ca owner first box esc redis w s rp w' :
  GenerateInfisicalSecrets sns dns ca owner first box esc redis w = (Ok (s, rp), w') →
  ∃ ek as_, StringData s !! "ENCRYPTION_KEY" = Some ek ∧ StringData s !! "AUTH_SECRET" = Some as_
    ∧ ((∃ m, RestoreMasterKeys box (rest w) = (Ok (BackupMap m), rest w') ∧ holds_keys m ek as_)
       ∨ first = true ∧ ∃ e1 t, RestoreMasterKeys box (rest w) = (Ok NoBackup, e1)
           ∧ BackupMasterKeys box (mkKeys ek as_ t box "1") e1 = (Ok (), rest w'))
    ∧ ValidateEncryptionKey ek = None ∧ ValidateAuthSecret as_ = None.
Proof.
  intros (ek & as_ & H1 & H2 & _ & _ & Hk & V1 & V2)%infisical_secrets_ok. exists ek, as_. split_and!; [done|done| |done|done].
  destruct Hk as [m Hm Hh|e1 t Hf Hr Hb]; [left; eauto|right; eauto].
Qed.

Context {usable : string → Prop} {XL : EscrowLaws X usable}.
(** The keys a box was built with are the keys it is given back: after they were generated,
    a later rebuild of the Secret succeeds, whether or not it is taken for the first time,
    and has the same two keys. *)
Theorem master_keys_roundtrip sns dns ca owner box redis w s rp w' e0 first' redis' w2 :
  usable box → GenerateInfisicalSecrets sns dns ca owner true box true redis w = (Ok (s, rp), w') →
  RestoreMasterKeys box (rest w) = (Ok NoBackup, e0) →
  rest w2 = rest w' → redis' ≠ "" →
  ∃ s' w3, GenerateInfisicalSecrets sns dns ca owner first' box true redis' w2 = (Ok (s', redis'), w3)
    ∧ StringData s' !! "ENCRYPTION_KEY" = StringData s !! "ENCRYPTION_KEY"
    ∧ StringData s' !! "AUTH_SECRET" = StringData s !! "AUTH_SECRET".
Proof.
  intros Hu (ek & as_ & H1 & H2 & Hbox & _ & Hk & V1 & V2)%infisical_secrets_ok Hno Hr Hred.
  destruct Hk as [m Hm Hh|e1 t Hf Hrs Hb]; [congruence|]. apply (restored _ _ _ _ Hu) in Hb as (m & e2 & Hres & Hm1 & Hm2). cbn in Hm1, Hm2.
  unfold GenerateInfisicalSecrets. cbn [negb]. rewrite (proj2 (String.eqb_neq _ _) Hbox). rewrite bind_run.
  unfold master_keys. rewrite bind_run, wrapped_run. unfold RestoreKeys at 1. rewrite Hr, Hres, Hm1, Hm2, V1, V2. cbn [checked].
  rewrite !bind_run. cbn. rewrite (proj2 (String.eqb_neq _ _) Hred). cbn. eexists _, _. split; [done|]. rewrite H1, H2. done.
Qed.
End keys.
