(* ===== verification/HubWitness.v ===== *)
(** * HubWitness: the theorems on the hub's secrets at one hub.

    A service that keeps its secrets in a map and mints client secrets in order, with or
    without accepting the credentials it is asked to check; one tenant, one spoke, one
    escrow. *)

From S2P Require Import Prelude.
From S2P Require Import GoRuntime.
From S2P Require Import HubSecrets.
From S2P Require Import HubSecretsFacts.
From S2P Require Import HubTenantFacts.
From S2P Require Import HubSpokeFacts.
From S2P Require Import SpokePool.
From S2P Require Import SpokePoolFacts.
From S2P Require Import SpokeSetupFacts.
From S2P Require Import SpokeLossFacts.
From S2P Require Import MasterKeys.
From S2P Require Import MasterKeysFacts.

Local Open Scope string_scope.

(** ** The service *)

Record Shelf := mkShelf { kept : gmap place string; minted : N }.
Definition store_reply (valid : bool) (c : Call) (s : Shelf) : Z * string * Shelf :=
  let with_kept m := mkShelf m (minted s) in
  match c with
  | Login i _ => if String.eqb i "hub" || valid then (200%Z, "login", s) else (401%Z, "", s)
  | ReadSecret p e d n => match kept s !! (p, e, d, n) with Some v => (200%Z, v, s) | None => (404%Z, "", s) end
  | WriteNew p e d n v =>
      match kept s !! (p, e, d, n) with
      | None => (200%Z, "", with_kept (<[(p, e, d, n) := v]> (kept s)))
      | Some _ => (400%Z, "already exists", s)
      end
  | WriteOver p e d n v =>
      match kept s !! (p, e, d, n) with
      | Some _ => (200%Z, "", with_kept (<[(p, e, d, n) := v]> (kept s)))
      | None => (404%Z, "", s)
      end
  | Remove p e d n =>
      match kept s !! (p, e, d, n) with
      | Some _ => (200%Z, "", with_kept (delete (p, e, d, n) (kept s)))
      | None => (404%Z, "", s)
      end
  | NewClientSecret _ _ _ => (200%Z, "s" +:+ pretty (minted s), mkShelf (kept s) (minted s + 1))
  | _ => (200%Z, "id", s)
  end.
Definition hub (valid : bool) : Hub := {|
  HSt := Shelf;
  exchange _ c s := let '(st, body, s') := store_reply valid c s in (Ok (st, body), s', 1%N);
  decode_login _ := Some ("tok", 3600%Z);
  decode_value b := Some b;
  decode_identity b := Some b;
  decode_auth b := Some b;
  decode_secret b := Some b;
  decode_identities _ := Some [];
  unmarshal_credentials v := match Split v ";" with [i; s; p] => Some (i, s, p) | _ => None end;
  marshal l := Join (l.*2) ";";
  random i := Ok (Z.of_nat i) |}.
#[export] Instance hub_laws valid : VaultLaws (hub valid).
Proof.
  apply (Build_VaultLaws (hub valid) kept); cbn.
  - intros tok c s r s' t E. destruct (store_reply valid c s) as [[st b] s1] eqn:Es. injection E as <- <- <-.
    destruct c; cbn in *; try (by injection Es as <- <- <-; left);
      try (by destruct (String.eqb clientID "hub" || valid); injection Es as <- <- <-; left).
    all: destruct (kept s !! _); injection Es as <- <- <-; auto.
  - intros tok c s st b s' t E Hst Hw. destruct (store_reply valid c s) as [[st' b'] s1] eqn:Es. injection E as <- <- <- <-.
    destruct c; cbn in *; try done; destruct (kept s !! _); injection Es as <- <- <-; done.
  - intros tok p e d n s b s' t E. destruct (kept s !! (p, e, d, n)) as [v|]; simplify_eq. by exists b.
  - intros tok p e d n s b s' t E. by destruct (kept s !! (p, e, d, n)) as [v|].
Defined.
Definition op : InfisicalClient := mkInfisicalClient "hub" "pw" "proj" "org" "prd".
Definition begin {valid : bool} {K : Type} (m : gmap place string) (k : K) : @World (hub valid) K := @mkWorld (hub valid) K (mkShelf m 0) ∅ 0 0 [] k.
Lemma answered_by {A B} (p : A * B) a : p.1 = a → p = (a, p.2).
Proof. intros <-. apply surjective_pairing. Qed.

(** ** A tenant *)

Definition shared_value : string := "cid;sec;proj".
Definition tenant_store : gmap place string :=
  {[("proj", "stg", "/spoke-pool/c1/shared", "infisical-credentials") := shared_value;
    ("proj", "stg", "/spoke-pool/c1/tenants/shop", "db-credentials") := "old"]}.
Definition web : OAuthClient := mkOAuthClient "web-app" true false.
Definition tenant_pass := EnsureTenantFolderAndCredentials op "stg" "c1" "acme" "shop" false [web] false true true
                            (begin (valid := true) tenant_store ()).
Definition tenant_result : EnsureTenantCredentialsResult := mkTenantResult EnsureCreated EnsureCreated EnsureCreated EnsureCreated.
Lemma tenant_ok : EnsureTenantFolderAndCredentials op "stg" "c1" "acme" "shop" false [web] false true true (begin (valid := true) tenant_store ())
                  = (Ok (tenant_result, None), tenant_pass.2).
Proof. apply answered_by. vm_compute. reflexivity. Qed.
Lemma generated_kept_witness :
  stored (H := hub true) (service tenant_pass.2) !! ("proj", "stg", "/spoke-pool/c1/tenants/shop", "db-credentials") = Some "old".
Proof.
  apply (generated_kept (H := hub true) op "stg" "c1" "acme" "shop" false [web] false true true _ _
           (begin tenant_store ()) (Ok (tenant_result, None))).
  - exact tenant_ok.
  - discriminate.
  - intros x Hx _. apply list_elem_of_singleton in Hx as ->. discriminate.
  - reflexivity.
Defined.
Lemma tenant_complete_witness :
  stored (H := hub true) (service tenant_pass.2) !! ("proj", "stg", "/spoke-pool/c1/tenants/shop", "OAUTH_WEB_APP_CLIENT_ID") = Some "acme-web-app".
Proof.
  refine (proj1 (proj2 (proj2 (proj2 (proj2 (proj2 (tenant_complete (H := hub true) op "stg" "c1" "acme" "shop" false [web] false true true
            (begin tenant_store ()) tenant_result tenant_pass.2 _ tenant_ok))))) web _ eq_refl)).
  - intros x y Hx Hy _. apply list_elem_of_singleton in Hx as ->. by apply list_elem_of_singleton in Hy as ->.
  - apply list_elem_of_here.
Defined.
Definition lost_pass := EnsureTenantFolderAndCredentials op "stg" "c1" "acme" "shop" false [] false true true
  (begin (valid := true) (delete ("proj", "stg", "/spoke-pool/c1/tenants/shop", "db-credentials") tenant_store) ()).
Lemma loss_reported_witness :
  stored (H := hub true) (service lost_pass.2) !! ("proj", "stg", "/spoke-pool/c1/tenants/shop", "db-credentials") = None
  ∧ ∀ res, lost_pass.1 ≠ Ok (res, None).
Proof.
  apply (loss_reported (H := hub true) op "stg" "c1" "acme" "shop" false [] false true true _
           (begin (delete ("proj", "stg", "/spoke-pool/c1/tenants/shop", "db-credentials") tenant_store) ())).
  - left. split; reflexivity.
  - vm_compute. reflexivity.
  - apply surjective_pairing.
Defined.

(** ** A spoke's credentials *)

Definition fleet_store : gmap place string :=
  {[("proj", "stg", "/", "S3_ACCESS_KEY_ID") := "ak"; ("proj", "stg", "/spoke-pool/c1/shared", "S3_SECRET_ACCESS_KEY") := "own"]}.
Definition fleet_pass := EnsureFleetCredentialsMaterialised op "stg" "c1" (begin (valid := true) fleet_store ()).
Definition fleet_result : MaterialiseFleetCredentialsResult :=
  mkFleetResult ["S3_ACCESS_KEY_ID"] ["S3_SECRET_ACCESS_KEY"] ["ALERT_SMTP_PASSWORD"; "GRAFANA_IRM_ALERTMANAGER_URL"].
Lemma fleet_materialised_witness :
  everything fleet_result ≡ₚ FleetCredentialKeys
  ∧ stored (H := hub true) (service fleet_pass.2) !! ("proj", "stg", "/", "S3_ACCESS_KEY_ID") = Some "ak".
Proof.
  destruct (fleet_materialised (H := hub true) op "stg" "c1" (begin fleet_store ()) fleet_result fleet_pass.2) as (Hp & _ & Hf).
  - apply answered_by. vm_compute. reflexivity.
  - split; [exact Hp|]. rewrite Hf; [reflexivity|]. intros name _. discriminate.
Defined.

Definition stale_store : gmap place string := {[("proj", "stg", "/spoke-pool/c1/shared", "infisical-credentials") := "cid;sec;other"]}.
Definition rotation1 := EnsureInfisicalCredentials op "stg" "c1" true (begin (valid := false) stale_store ()).
Definition later {valid} (t : Z) (w : @World (hub valid) ()) : @World (hub valid) () :=
  mkWorld (service w) (clients w) (now w + t)%Z (draws w) (log w) (rest w).
Lemma later_step {valid} t (w : @World (hub valid) ()) : (0 ≤ t)%Z → hub_step op w (later t w).
Proof. intros Ht. apply hs_else; [done|]. cbn. lia. Qed.
Definition too_early := EnsureInfisicalCredentials op "stg" "c1" true (later (14 * ns_min) rotation1.2).
Definition rotation2 := EnsureInfisicalCredentials op "stg" "c1" true (later (15 * ns_min) rotation1.2).
Definition broken_store : gmap place string := {[("proj", "stg", "/spoke-pool/c1/shared", "infisical-credentials") := "not json"]}.
Definition broken_pass := EnsureInfisicalCredentials op "stg" "c1" true (begin (valid := true) broken_store ()).
(** The pass minted a client secret, and had nowhere to put it. *)
Lemma unusable_never_replaced_witness :
  minted (service broken_pass.2) = 1%N
  ∧ stored (H := hub true) (service broken_pass.2) !! ("proj", "stg", "/spoke-pool/c1/shared", "infisical-credentials") = Some "not json"
  ∧ ∀ res, broken_pass.1 ≠ Ok (res, None).
Proof.
  split; [vm_compute; reflexivity|].
  apply (unusable_never_replaced (H := hub true) op "stg" "c1" true "not json" (begin broken_store ())).
  - reflexivity.
  - vm_compute. reflexivity.
  - apply surjective_pairing.
Defined.

(** ** A pass over a spoke *)

#[export] Instance site : Site := {|
  rfc3339 t := match t with Some t => pretty t | None => "" end;
  parse_rfc3339 _ := None;
  yaml_configmap m := Join ((λ x, x.1 +:+ ": " +:+ x.2) <$> map_to_list m) nl;
  home_workers _ := 0%nat;
  rest_config k := Ok (k, "ca");
  url_host _ := "";
  ca_hash s := s;
  OBJECT_STORAGE_ENDPOINT := "s3.test";
  OBJECT_STORAGE_REGION := "eu";
  minio_ok _ := true |}.
Definition spoke_pool (cs : list RawCondition) : Pool := mkPool "u1" {["environment" := " stg"]} ∅ "hetzner" cs.
Definition generated : RawCondition := mkRaw (Some password_type) (Some "True") (Some "Generated") (Some "") None.
Definition base_config : gmap string string := {["tunnel" := "vxlan"]}.
Definition tls_secret : SpokePool.Secret := SpokePool.mkSecret "kubernetes.io/tls" ∅ [] {["tls.crt" := "C"; "tls.key" := "K"; "ca.crt" := "A"]}.
Definition spoke_cluster (cs : list RawCondition) : Cluster :=
  mkCluster {["c1" := spoke_pool cs]} {[tls_name "c1" := tls_secret]} {[(capi_ns, "cilium-config-base-hetzner") := base_config]}
    {["c1" := ("10.0.0.1", Some 6443%Z)]} ∅ ∅ ∅ ∅ [] [].
Definition spoke_start (cs : list RawCondition) (m : gmap place string) : @World (hub true) Cluster := begin m (spoke_cluster cs).
Definition new_spoke := Reconcile op "c1" (spoke_start [] fleet_store).
Lemma new_spoke_ok : Reconcile op "c1" (spoke_start [] fleet_store) = (Ok (), new_spoke.2).
Proof. apply answered_by. vm_compute. reflexivity. Qed.
Lemma pass_keeps_secrets_witness :
  stored (H := hub true) (service new_spoke.2) !! ("proj", "stg", "/spoke-pool/c1/shared", "S3_SECRET_ACCESS_KEY") = Some "own".
Proof.
  apply (pass_keeps_secrets (H := hub true) op "c1" _ _ (spoke_start [] fleet_store) (Ok ())).
  - intros c. discriminate.
  - exact new_spoke_ok.
  - reflexivity.
Defined.
Lemma secrets_in_own_environment_witness :
  ∃ new, log new_spoke.2 = new ∧ Forall (λ e, match e with Asked _ call _ => in_environment op "stg" call end) new.
Proof.
  destruct (secrets_in_own_environment (H := hub true) op "c1" (spoke_start [] fleet_store) (Ok ()) new_spoke.2 new_spoke_ok)
    as [E|(p & new & Hp & _ & El & Hn)].
  - exfalso. revert E. vm_compute. discriminate.
  - exists new. split; [exact El|]. injection Hp as <-. exact Hn.
Defined.
(** A second pass, when the certificate was renewed. *)
Definition renewed : @World (hub true) Cluster :=
  with_rest (λ k, set_secrets (<[tls_name "c1" := SpokePool.mkSecret "kubernetes.io/tls" ∅ [] {["tls.crt" := "C2"; "tls.key" := "K2"; "ca.crt" := "A"]}]> (secrets k)) k) new_spoke.2.
Lemma certificate_delivered_once_witness :
  (data_at cert_doc ∘ sec_Data <$> secrets (rest renewed) !! cert_key "c1") = Some (certYAML "C" "K" "A")
  ∧ secrets (rest (Reconcile op "c1" renewed).2) !! cert_key "c1" = secrets (rest renewed) !! cert_key "c1".
Proof.
  assert ((data_at cert_doc ∘ sec_Data <$> secrets (rest renewed) !! cert_key "c1") = Some (certYAML "C" "K" "A")) as Hnow
    by (vm_compute; reflexivity).
  split; [exact Hnow|].
  destruct (certificate_delivered_once (H := hub true) op "c1" "c1" renewed (Reconcile op "c1" renewed).1 (Reconcile op "c1" renewed).2
              (surjective_pairing _)) as [E|[Hr _]]; [exact E|].
  exfalso. apply fmap_Some in Hnow as (s & Hs & Hd). destruct (Hr s Hs) as [_ He]. cbn in Hd. rewrite He in Hd. discriminate Hd.
Defined.
Lemma network_fails_closed_witness :
  ∃ s, secrets (rest new_spoke.2) !! network_key "c1" = Some s
    ∧ data_at network_doc (sec_Data s) = yaml_configmap (cilium_data "10.0.0.1" 6443 base_config).
Proof.
  destruct (network_fails_closed (H := hub true) op "c1" "c1" (spoke_start [] fleet_store) (Ok ()) new_spoke.2 new_spoke_ok)
    as [E|(s & host & port & prov & base & Hs & He & _ & _ & Hb & _ & Hd)].
  - exfalso. revert E. vm_compute. discriminate.
  - exists s. split; [exact Hs|]. vm_compute in He. injection He as <- <-. rewrite Hd. f_equal. f_equal.
    change (({[(capi_ns, "cilium-config-base-hetzner") := base_config]} : gmap key (gmap string string)) !! (capi_ns, ciliumConfigBaseName prov) = Some base) in Hb.
    apply lookup_singleton_Some in Hb as [_ <-]. reflexivity.
Defined.

(** *** A lost password *)

(** The spoke was provisioned; its identity works and its password is gone. *)
Definition lost_store : gmap place string := {[("proj", "stg", "/spoke-pool/c1/shared", "infisical-credentials") := shared_value]}.
Definition lost_start : @World (hub true) Cluster := spoke_start [generated] lost_store.
Definition first_look := ensure_password op "c1" (spoke_pool [generated]) "stg" lost_start.
Definition lost_error : error :=
  Errorf "crossplane-admin password missing from Infisical for already-provisioned SpokePool c1 - manual recovery required".
(** Two passes of the controller: the first asks for manual recovery, the second has made
    another password. *)
Lemma lost_password_regenerated_witness :
  (∃ q', pools (rest first_look.2) !! "c1" = Some q' ∧ isStatusConditionTrue q' password_type = false)
  ∧ (Reconcile op "c1" lost_start).1 = Err lost_error
  ∧ (Reconcile op "c1" (Reconcile op "c1" lost_start).2).1 = Ok ()
  ∧ kept (service (Reconcile op "c1" (Reconcile op "c1" lost_start).2).2) !! ("proj", "stg", "/", "c1-crossplane-admin-password")
    = Some "000102030405060708090a0b0c0d0e0f".
Proof.
  split_and!; [|vm_compute; reflexivity..].
  destruct (lost_password_regenerated (H := hub true) op "c1" (spoke_pool [generated]) (spoke_pool [generated]) "stg" lost_start lost_error first_look.2)
    as (q' & Hq & Hf & _).
  - split; reflexivity.
  - vm_compute. reflexivity.
  - vm_compute. constructor.
  - apply answered_by. vm_compute. reflexivity.
  - exists q'. split; [exact Hq|exact Hf].
Defined.

(** ** Master keys *)

Lemma charset_unbiased_witness : ways "abcdefghijklmnopqrstuvwxyz0123456789" 35 = 7%nat.
Proof. apply (charset_unbiased "abcdefghijklmnopqrstuvwxyz0123456789" 35); apply Nat.leb_le; reflexivity. Defined.

(** A box: what was escrowed under its name last. *)
#[export] Instance box : Escrow := {|
  ESt := gmap string Keys;
  RestoreMasterKeys b e :=
    (Ok match e !! b with
        | Some k => BackupMap {["encryptionKey" := Some (encryptionKey k); "authSecret" := Some (authSecret k)]}
        | None => NoBackup
        end, e);
  BackupMasterKeys b k e := (Ok (), <[b := k]> e);
  base64 s := s |}.
#[export] Instance box_laws : EscrowLaws box (λ _, True).
Proof.
  split. intros b k e e' _ [= <-]. eexists _, _. split; [cbn; by rewrite lookup_insert_eq|]. split; reflexivity.
Defined.
Definition empty_box : @World (hub true) ESt := @begin true ESt ∅ ∅.
Lemma draw_ends_witness :
  draw_char 9 "abcdefghijklmnopqrstuvwxyz0123456789" (with_draws 254 empty_box)
  = (Ok (Some "a"%char), with_draws 257 (with_draws 254 empty_box)).
Proof.
  apply (draw_ends (H := hub true) 9 "abcdefghijklmnopqrstuvwxyz0123456789" 2 0 (with_draws 254 empty_box)).
  - apply Nat.leb_le. reflexivity.
  - intros [|[|j]] Hj; [exists 254%Z|exists 255%Z|lia]; (split; [|vm_compute; discriminate]); (eexists; split; [reflexivity|reflexivity]).
  - eexists. split; [reflexivity|]. reflexivity.
  - reflexivity.
Defined.
Definition built := GenerateInfisicalSecrets "sec" "data" "" "o" true "hub1" true "" empty_box.
Definition built_secret : MasterKeys.Secret := match built.1 with Ok (s, _) => s | Err _ => GenerateInfisicalRedisCredentials "" "" "" end.
Lemma built_ok : GenerateInfisicalSecrets "sec" "data" "" "o" true "hub1" true "" empty_box
                 = (Ok (built_secret, "202122232425262728292a2b2c2d2e2f"), built.2).
Proof. apply answered_by. vm_compute. reflexivity. Qed.
Lemma master_keys_escrowed_witness :
  ∃ ek as_, StringData built_secret !! "ENCRYPTION_KEY" = Some ek ∧ StringData built_secret !! "AUTH_SECRET" = Some as_
    ∧ ValidateEncryptionKey ek = None.
Proof.
  destruct (master_keys_escrowed "sec" "data" "" "o" true "hub1" true "" empty_box _ _ _ built_ok) as (ek & as_ & H1 & H2 & _ & V & _).
  exists ek, as_. split_and!; [exact H1|exact H2|exact V].
Defined.
Lemma master_keys_roundtrip_witness :
  ∃ s' w3, GenerateInfisicalSecrets "sec" "data" "" "o" false "hub1" true "r" built.2 = (Ok (s', "r"), w3)
    ∧ StringData s' !! "ENCRYPTION_KEY" = StringData built_secret !! "ENCRYPTION_KEY"
    ∧ StringData s' !! "AUTH_SECRET" = StringData built_secret !! "AUTH_SECRET".
Proof.
  apply (master_keys_roundtrip (XL := box_laws) "sec" "data" "" "o" "hub1" "" empty_box built_secret "202122232425262728292a2b2c2d2e2f" built.2 ∅ false "r" built.2).
  - exact I.
  - exact built_ok.
  - reflexivity.
  - reflexivity.
  - discriminate.
Defined.
