(* ===== verification/Codec.v ===== *)
(** * Codec: keys as text.

    Base64, hexadecimal and decimal numerals as Go's encoding/base64 (the standard
    encoding), encoding/hex and strconv write and read them, on byte strings, and that
    reading what was written gives it back. A byte is eight bits, the lowest first. And the
    values encoding/json decodes into an interface. *)

From S2P Require Import Prelude.
From S2P Require Import GoRuntime.

Local Open Scope string_scope.
Local Open Scope char_scope.

(** ** Base64 *)

Definition bits_nat (bs : list bool) : nat := foldl (λ n (b : bool), (2 * n + if b then 1 else 0)%nat) 0%nat bs.
Definition alphabet : string := "ABCDEFGHIJKLMNOPQRSTUVWXYZabcdefghijklmnopqrstuvwxyz0123456789+/".
Definition sextet := (bool * bool * bool * bool * bool * bool)%type.
(** Six bits, the highest first. *)
Definition b64_digit (x : sextet) : Ascii.ascii :=
  let '(b5, b4, b3, b2, b1, b0) := x in
  match String.get (bits_nat [b5; b4; b3; b2; b1; b0]) alphabet with Some c => c | None => "=" end.
Definition index_of (c : Ascii.ascii) : option nat :=
  let n := Ascii.nat_of_ascii c in
  if (65 <=? n)%nat && (n <=? 90)%nat then Some (n - 65)%nat
  else if (97 <=? n)%nat && (n <=? 122)%nat then Some (n - 71)%nat
  else if (48 <=? n)%nat && (n <=? 57)%nat then Some (n + 4)%nat
  else if Ascii.eqb c "+" then Some 62%nat
  else if Ascii.eqb c "/" then Some 63%nat
  else None.
Definition b64_value (c : Ascii.ascii) : option sextet :=
  (λ n, (Nat.testbit n 5, Nat.testbit n 4, Nat.testbit n 3, Nat.testbit n 2, Nat.testbit n 1, Nat.testbit n 0)) <$> index_of c.

Fixpoint b64_encode (s : string) : string :=
  match s with
  | EmptyString => EmptyString
  | String (Ascii a0 a1 a2 a3 a4 a5 a6 a7) EmptyString =>
      String (b64_digit (a7, a6, a5, a4, a3, a2)) (String (b64_digit (a1, a0, false, false, false, false)) "==")
  | String (Ascii a0 a1 a2 a3 a4 a5 a6 a7) (String (Ascii b0 b1 b2 b3 b4 b5 b6 b7) EmptyString) =>
      String (b64_digit (a7, a6, a5, a4, a3, a2)) (String (b64_digit (a1, a0, b7, b6, b5, b4))
        (String (b64_digit (b3, b2, b1, b0, false, false)) "="))
  | String (Ascii a0 a1 a2 a3 a4 a5 a6 a7) (String (Ascii b0 b1 b2 b3 b4 b5 b6 b7)
      (String (Ascii c0 c1 c2 c3 c4 c5 c6 c7) s)) =>
      String (b64_digit (a7, a6, a5, a4, a3, a2)) (String (b64_digit (a1, a0, b7, b6, b5, b4))
        (String (b64_digit (b3, b2, b1, b0, c7, c6)) (String (b64_digit (c5, c4, c3, c2, c1, c0)) (b64_encode s))))
  end.
Definition first_byte (x y : sextet) : Ascii.ascii :=
  let '(a7, a6, a5, a4, a3, a2) := x in let '(a1, a0, _, _, _, _) := y in Ascii a0 a1 a2 a3 a4 a5 a6 a7.
Definition second_byte (y z : sextet) : Ascii.ascii :=
  let '(_, _, b7, b6, b5, b4) := y in let '(b3, b2, b1, b0, _, _) := z in Ascii b0 b1 b2 b3 b4 b5 b6 b7.
Definition third_byte (z t : sextet) : Ascii.ascii :=
  let '(_, _, _, _, c7, c6) := z in let '(c5, c4, c3, c2, c1, c0) := t in Ascii c0 c1 c2 c3 c4 c5 c6 c7.
(** Groups of four; a group with padding is the last. *)
Fixpoint b64_groups (s : string) : option string :=
  match s with
  | EmptyString => Some EmptyString
  | String p (String q (String r (String t s'))) =>
      match b64_value p, b64_value q with
      | Some x, Some y =>
          match b64_value r, b64_value t with
          | Some z, Some v => (λ l, String (first_byte x y) (String (second_byte y z) (String (third_byte z v) l))) <$> b64_groups s'
          | Some z, None =>
              if Ascii.eqb t "=" && String.eqb s' EmptyString
              then Some (String (first_byte x y) (String (second_byte y z) EmptyString)) else None
          | None, _ =>
              if Ascii.eqb r "=" && Ascii.eqb t "=" && String.eqb s' EmptyString
              then Some (String (first_byte x y) EmptyString) else None
          end
      | _, _ => None
      end
  | _ => None
  end.
Fixpoint without_breaks (s : string) : string :=
  match s with
  | EmptyString => EmptyString
  | String c s => if Ascii.eqb c "010" || Ascii.eqb c "013" then without_breaks s else String c (without_breaks s)
  end.
Definition b64_decode (s : string) : option string := b64_groups (without_breaks s).

(** ** Hexadecimal *)

Definition hex_nibble (b3 b2 b1 b0 : bool) : Ascii.ascii :=
  match String.get (bits_nat [b3; b2; b1; b0]) "0123456789abcdef" with Some c => c | None => "0" end.
Fixpoint hex_encode (s : string) : string :=
  match s with
  | EmptyString => EmptyString
  | String (Ascii a0 a1 a2 a3 a4 a5 a6 a7) s => String (hex_nibble a7 a6 a5 a4) (String (hex_nibble a3 a2 a1 a0) (hex_encode s))
  end.
Definition nibble (c : Ascii.ascii) : option (bool * bool * bool * bool) :=
  let n := Ascii.nat_of_ascii c in
  let bits n := (Nat.testbit n 3, Nat.testbit n 2, Nat.testbit n 1, Nat.testbit n 0) in
  if (48 <=? n)%nat && (n <=? 57)%nat then Some (bits (n - 48)%nat)
  else if (97 <=? n)%nat && (n <=? 102)%nat then Some (bits (n - 87)%nat)
  else if (65 <=? n)%nat && (n <=? 70)%nat then Some (bits (n - 55)%nat)
  else None.
Fixpoint hex_decode (s : string) : option string :=
  match s with
  | EmptyString => Some EmptyString
  | String _ EmptyString => None
  | String p (String q s) =>
      match nibble p, nibble q with
      | Some (a7, a6, a5, a4), Some (a3, a2, a1, a0) => (λ l, String (Ascii a0 a1 a2 a3 a4 a5 a6 a7) l) <$> hex_decode s
      | _, _ => None
      end
  end.

(** ** Facts *)

Lemma b64_value_digit x : b64_value (b64_digit x) = Some x.
Proof. by destruct x as [[[[[[] []] []] []] []] []]; vm_compute. Qed.
Lemma b64_digit_plain x : let c := b64_digit x in is_space c = false ∧ c ≠ "010" ∧ c ≠ "013".
Proof. by destruct x as [[[[[[] []] []] []] []] []]; vm_compute. Qed.
Lemma nibble_hex b3 b2 b1 b0 : nibble (hex_nibble b3 b2 b1 b0) = Some (b3, b2, b1, b0).
Proof. by destruct b3, b2, b1, b0. Qed.

(** Induction on a byte string three at a time. *)
Lemma by_three (P : string → Prop) :
  P EmptyString → (∀ a, P (String a EmptyString)) → (∀ a b, P (String a (String b EmptyString))) →
  (∀ a b c s, P s → P (String a (String b (String c s)))) → ∀ s, P s.
Proof.
  intros H0 H1 H2 H3 s. enough (P s ∧ (∀ a, P (String a s)) ∧ ∀ a b, P (String a (String b s))) by tauto.
  induction s as [|c s (IH0 & IH1 & IH2)]; [done|]. split_and!; [apply IH1|intros a; apply IH2|intros a b; by apply H3].
Qed.

Lemma b64_no_breaks s : without_breaks (b64_encode s) = b64_encode s.
Proof.
  assert (∀ x t, without_breaks (String (b64_digit x) t) = String (b64_digit x) (without_breaks t)) as Hd.
  { intros x t. cbn. destruct (b64_digit_plain x) as (_ & H1 & H2).
    by rewrite (proj2 (Ascii.eqb_neq _ _) H1), (proj2 (Ascii.eqb_neq _ _) H2). }
  induction s as [|[]|[] []|[] [] [] s IH] using by_three; cbn [b64_encode]; rewrite ?Hd; [done..|by rewrite IH].
Qed.
Lemma b64_roundtrip s : b64_decode (b64_encode s) = Some s.
Proof.
  unfold b64_decode. rewrite b64_no_breaks.
  induction s as [|[]|[] []|[] [] [] s IH] using by_three; cbn [b64_encode b64_groups]; rewrite ?b64_value_digit; [done|..].
  - done.
  - done.
  - rewrite IH. done.
Qed.
Lemma b64_no_space s : all_chars (λ c, negb (is_space c)) (b64_encode s) = true.
Proof.
  assert (∀ x, is_space (b64_digit x) = false) as Hd by (intros x; by apply b64_digit_plain).
  induction s as [|[]|[] []|[] [] [] s IH] using by_three; cbn [b64_encode all_chars]; rewrite ?Hd; done.
Qed.
Lemma b64_nonempty s : s ≠ EmptyString → b64_encode s ≠ EmptyString.
Proof. by destruct s as [|[] [|[] [|[] ?]]]. Qed.
Lemma hex_roundtrip s : hex_decode (hex_encode s) = Some s.
Proof. induction s as [|[] s IH]; [done|]. cbn [hex_encode hex_decode]. by rewrite !nibble_hex, IH. Qed.
Lemma hex_no_space s : all_chars (λ c, negb (is_space c)) (hex_encode s) = true.
Proof.
  assert (∀ b3 b2 b1 b0, is_space (hex_nibble b3 b2 b1 b0) = false) as Hd by (by intros [] [] [] []).
  induction s as [|[] s IH]; [done|]. cbn [hex_encode all_chars]. by rewrite !Hd.
Qed.
Lemma hex_all_digits s : all_chars (λ c, match nibble c with Some _ => true | None => false end) (hex_encode s) = true.
Proof. induction s as [|[] s IH]; [done|]. cbn [hex_encode all_chars]. by rewrite !nibble_hex. Qed.
Lemma hex_nonempty s : s ≠ EmptyString → hex_encode s ≠ EmptyString.
Proof. by destruct s as [|[] ?]. Qed.

(** ** Decimal numerals *)

Lemma pretty_digits (n : N) : ∃ ds, ds ≠ [] ∧ leading_digits (pretty n) = (ds, EmptyString) ∧ of_digits ds = Z.of_N n.
Proof.
  assert (∀ x s ds, leading_digits s = (ds, EmptyString) →
     ∃ ds', (x = 0%N → ds' = []) ∧ (x ≠ 0%N → ds' ≠ []) ∧ leading_digits (pretty_N_go x s) = (ds' ++ ds, EmptyString)%list ∧ of_digits ds' = Z.of_N x) as Hgo.
  { induction x as [x IH] using (well_founded_induction N.lt_wf_0). intros s ds Hs. destruct (decide (x = 0%N)) as [->|Hx].
    { exists []. done. }
    rewrite pretty_N_go_step by lia.
    assert (x `mod` 10 < 10)%N as Hm by (apply N.mod_lt; lia).
    destruct (IH (x `div` 10)%N (N.div_lt x 10 ltac:(lia) ltac:(lia)) (String (pretty_N_char (x `mod` 10)) s)
                (Z.of_N (x `mod` 10) :: ds)) as (ds' & _ & _ & E & V).
    { cbn. assert (digit_of (pretty_N_char (x `mod` 10)) = Some (Z.of_N (x `mod` 10))) as ->.
      { assert (∀ k, (k < 10)%nat → digit_of (pretty_N_char (N.of_nat k)) = Some (Z.of_nat k)) as Hk.
        { do 10 (destruct k as [|k]; [done|]). lia. }
        specialize (Hk (N.to_nat (x `mod` 10)) ltac:(lia)). rewrite N2Nat.id in Hk. rewrite Hk. f_equal. lia. }
      by rewrite Hs. }
    exists (ds' ++ [Z.of_N (x `mod` 10)])%list. split_and!; [done|by destruct ds'| |].
    - rewrite E. by rewrite <- app_assoc.
    - unfold of_digits in *. rewrite foldl_app, V. cbn. rewrite N2Z.inj_div, N2Z.inj_mod. pose proof (Z.div_mod (Z.of_N x) 10). lia. }
  destruct (decide (n = 0%N)) as [->|Hn]; [by exists [0%Z]|].
  destruct (Hgo n EmptyString [] eq_refl) as (ds & _ & Hne & E & V). exists ds. rewrite app_nil_r in E.
  split_and!; [auto| |done]. unfold pretty, pretty_N. by rewrite decide_False by done.
Qed.

(** ** JSON values *)

(** A decoded value; the members of an object in the order in which a loop meets them. A number
    or a truth value is [VOther]. *)
Inductive Value := VText (s : string) | VList (l : list Value) | VObject (l : list (string * Value)) | VNull | VOther.
Definition member (o : list (string * Value)) (k : string) : option Value := snd <$> List.find (λ kv, String.eqb kv.1 k) o.
