(* ===== verification/Escrow.v ===== *)
(** * Escrow: what a box cannot be rebuilt without, kept outside it.

    Models internal/platform/escrow: escrow.go and provision.go. The escrow is an
    Infisical of the tenant's own; [Remote] is that service, which answers every request
    as it likes, with the decoders of its replies. A request that cannot be built, because
    its URL does not parse, is taken with those that cannot be sent. [World] is the state
    of the service, what was asked of it, the machine the program runs on, and whatever
    else the caller works on, of a type [K] of its choice. *)

From S2P Require Import Prelude.
From S2P Require Import GoRuntime.

Local Open Scope string_scope.

(** ** Names, scopes and places *)

Definition ArtifactKubeconfig : string := "admin-kubeconfig".
Definition ArtifactZitadelMasterkey : string := "zitadel-masterkey".
Definition ArtifactSecretEncryptionKey : string := "secret-encryption-key".
Definition ArtifactSecretEncryptionKeyPrevious : string := "secret-encryption-key-previous".
Definition ArtifactSpokePKIPrefix : string := "spoke-pki-".
Definition ArtifactBackupSSECKey : string := "backup-ssec-key".
Definition ArtifactBackupStoreCredential : string := "backup-store-credential".
Definition escrowSecretName : string := "infisical-master-keys".
Definition environmentSlug : string := "prod".
Definition pathLogin : string := "/api/v1/auth/universal-auth/login".
Definition pathSecretsRaw (name : string) : string := "/api/v3/secrets/raw/" +:+ name.
Definition pathFolders : string := "/api/v1/folders".

Definition ProviderCredentialArtifact (provider : string) : string :=
  "provider-credential-" +:+ TrimSpace (ToLower provider).
Definition SpokePKIPurposes : list string := ["ca"; "etcd"; "sa"; "proxy"].
Definition SpokePKIArtifact (purpose : string) : string := ArtifactSpokePKIPrefix +:+ purpose.

Record Identity := mkIdentity { BoxID : string; ClusterName : string }.
#[export] Instance Identity_eq_dec : EqDecision Identity.
Proof. solve_decision. Defined.
Definition ForCluster (boxID clusterName : string) : Identity :=
  mkIdentity (TrimSpace boxID) (TrimSpace clusterName).
Definition validate (i : Identity) : option error :=
  if String.eqb (BoxID i) ""
  then Some (Errorf "the escrow needs the box id: artefacts are keyed by the logical hub, which outlives any one cluster (ADR-111)")
  else if String.eqb (ClusterName i) ""
  then Some (Errorf "the escrow needs the cluster name: a cluster-scoped artefact keyed by the box alone would be overwritten by the next incarnation of it (ADR-111)")
  else None.

Definition clusterScoped (artifact : string) : bool :=
  existsb (String.eqb artifact) [ArtifactKubeconfig; ArtifactSecretEncryptionKey; ArtifactSecretEncryptionKeyPrevious].
Definition boxScoped (artifact : string) : bool :=
  existsb (String.eqb artifact) [escrowSecretName; ArtifactZitadelMasterkey; ArtifactBackupSSECKey; ArtifactBackupStoreCredential].
Inductive Scope := ScopeBox | ScopeCluster.
#[export] Instance Scope_eq_dec : EqDecision Scope.
Proof. solve_decision. Defined.
Definition DeclaredScope (artifact : string) : Scope * bool :=
  if clusterScoped artifact || HasPrefix artifact ArtifactSpokePKIPrefix then (ScopeCluster, true)
  else if boxScoped artifact then (ScopeBox, true)
  else (ScopeBox, false).
Definition escrowPath (id : Identity) (artifact : string) : string :=
  match (DeclaredScope artifact).1 with
  | ScopeCluster => "/hub-operator/" +:+ BoxID id +:+ "/clusters/" +:+ ClusterName id
  | ScopeBox => "/hub-operator/" +:+ BoxID id
  end.
Definition legacyPath (clusterName : string) : string := "/hub-operator/" +:+ clusterName.

(** path.Split: up to and with the last slash, and the rest. *)
Definition path_split (s : string) : string * string :=
  match removelast (Split s "/") with
  | [] => ("", s)
  | l => (Join l "/" +:+ "/", default "" (last (Split s "/")))
  end.

(** ** Requests *)

Inductive JSON := JString (s : string) | JStrings (l : list string).
Record Request := mkRequest { Method : string; URL : string; Bearer : string; Body : list (string * JSON) }.

Class Remote := {
  RSt : Type;
  Payload : Type;
  answer : Request → RSt → result string (Z * string) * RSt;
  decode_accessToken : string → option string;
  decode_secretValue : string → option string;
  decode_project : string → option (string * string);
  decode_backup : string → option (gmap string (option string));
  marshal : Payload → result string string;
  sha256_hex : string → string }.

(** The machine: its environment, the working directory, its directories and files. Writes
    to it take their outcomes from a script. *)
Record Host := mkHost {
  environ : gmap string string;
  cwd : option string;
  dirs : gset string;
  files : gmap string string;
  disk : list outcome }.

Record infisicalEscrow := mkEscrow {
  baseURL : string;
  clientID : string;
  clientSecret : string;
  projectID : string;
  token : string }.
Record Migration := mkMigration { Artifact : string; From : string; To : string; Action : string; Digest : string }.
Definition MigrationCopied : string := "copied".
Definition MigrationAlreadyPresent : string := "already-present".
Definition MigrationAbsent : string := "absent".

Section escrow.
Context {R : Remote} {K : Type}.

Record World := mkWorld {
  remote : RSt;
  asked : list (Request * result string (Z * string));
  host : Host;
  rest : K }.
Abbreviation M A := (goM World error A).
Definition errorf {A} (s : string) : M A := throw (Errorf s).
Definition or_refuse (o : option error) : M unit := match o with None => mret () | Some e => throw e end.

(** http.Client.Do, and the reading of the body. *)
Definition Do (q : Request) : M (Z * string) := λ w,
  let '(r, s) := answer q (remote w) in
  let w' := mkWorld s (asked w ++ [(q, r)]) (host w) (rest w) in
  match r with Ok x => (Ok x, w') | Err m => (Err (Errorf m), w') end.
Definition in_2xx (status : Z) : bool := (200 <=? status)%Z && (status <? 300)%Z.
Definition refused (what : string) (status : Z) (body : string) : string :=
  what +:+ " (" +:+ pretty status +:+ "): " +:+ TrimSpace body.

(** The token. *)
Definition authenticate (e : infisicalEscrow) : M string :=
  resp ← wrapped ("reach the escrow at " +:+ baseURL e)
           (Do (mkRequest "POST" (baseURL e +:+ pathLogin) ""
                  [("clientId", JString (clientID e)); ("clientSecret", JString (clientSecret e))]));
  let '(status, body) := resp in
  if negb (status =? 200)%Z then errorf (refused "the escrow refused these credentials" status body)
  else
    match decode_accessToken body with
    | None => errorf "read the escrow login response"
    | Some t => if String.eqb t "" then errorf "the escrow returned no access token" else mret t
    end.

Definition secretURLAt (e : infisicalEscrow) (secretPath name : string) : string :=
  baseURL e +:+ pathSecretsRaw name +:+ "?workspaceId=" +:+ projectID e +:+ "&environment=" +:+ environmentSlug
  +:+ "&secretPath=" +:+ secretPath.
Definition secretURL (e : infisicalEscrow) (id : Identity) (name : string) : string :=
  secretURLAt e (escrowPath id name) name.

Definition folder_request (e : infisicalEscrow) (id : Identity) (artifact : string) : Request :=
  let '(parent, name) := path_split (escrowPath id artifact) in
  mkRequest "POST" (baseURL e +:+ pathFolders) (token e)
    [("workspaceId", JString (projectID e)); ("environment", JString environmentSlug);
     ("path", JString (TrimSuffix parent "/")); ("name", JString name)].
Definition ensurePath (e : infisicalEscrow) (id : Identity) (artifact : string) : M unit :=
  resp ← wrapped "create the escrow folder" (Do (folder_request e id artifact));
  let '(status, body) := resp in
  if in_2xx status then mret ()
  else if (status =? 400)%Z || (status =? 409)%Z then mret ()
  else errorf (refused ("the escrow refused to create " +:+ escrowPath id artifact) status body).

Definition write_request (e : infisicalEscrow) (method : string) (id : Identity) (name payload : string) : Request :=
  mkRequest method (baseURL e +:+ pathSecretsRaw name) (token e)
    [("workspaceId", JString (projectID e)); ("environment", JString environmentSlug);
     ("secretPath", JString (escrowPath id name)); ("secretValue", JString payload); ("type", JString "shared")].
(** Create, then update. *)
Fixpoint write_with (e : infisicalEscrow) (methods : list string) (id : Identity) (name payload : string) : M unit :=
  match methods with
  | [] => errorf ("the escrow accepted neither a create nor an update for " +:+ name)
  | method :: methods =>
      resp ← wrapped "write the escrow" (Do (write_request e method id name payload));
      let '(status, body) := resp in
      if in_2xx status then mret ()
      else if String.eqb method "POST" && ((status =? 409)%Z || (status =? 400)%Z)
      then write_with e methods id name payload
      else errorf (refused "the escrow refused the write" status body)
  end.
Definition BackupArtifact (e : infisicalEscrow) (id : Identity) (name payload : string) : M unit :=
  or_refuse (validate id) ;;
  ensurePath e id name ;;
  write_with e ["POST"; "PATCH"] id name payload.

Definition read_request (e : infisicalEscrow) (secretPath name : string) : Request :=
  mkRequest "GET" (secretURLAt e secretPath name) (token e) [].
Definition readAt (e : infisicalEscrow) (secretPath name : string) : M string :=
  resp ← wrapped "read the escrow" (Do (read_request e secretPath name));
  let '(status, body) := resp in
  if (status =? 404)%Z then mret ""
  else if negb (status =? 200)%Z then errorf (refused "the escrow refused the read" status body)
  else match decode_secretValue body with
       | None => errorf "read the escrow response"
       | Some v => mret v
       end.
Definition RestoreArtifact (e : infisicalEscrow) (id : Identity) (name : string) : M string :=
  or_refuse (validate id) ;;
  readAt e (escrowPath id name) name.

Definition BackupMasterKeys (e : infisicalEscrow) (id : Identity) (keys : Payload) : M unit :=
  match marshal keys with
  | Err m => errorf ("marshal escrow payload: " +:+ m)
  | Ok payload => BackupArtifact e id escrowSecretName payload
  end.
Definition RestoreMasterKeys (e : infisicalEscrow) (id : Identity) : M (option (gmap string (option string))) :=
  raw ← RestoreArtifact e id escrowSecretName;
  if String.eqb raw "" then mret None
  else match decode_backup raw with
       | None => errorf ("the escrowed keys for " +:+ ClusterName id +:+ " are not readable as a backup")
       | Some m => mret (Some m)
       end.

Definition fingerprint (v : string) : string := str_take 12 (sha256_hex v).
Definition MigrateArtifactPath (e : infisicalEscrow) (id : Identity) (name : string) : M Migration :=
  or_refuse (validate id) ;;
  let from := legacyPath (ClusterName id) in
  let to := escrowPath id name in
  src ← wrapped ("read " +:+ name +:+ " from " +:+ from) (readAt e from name);
  if String.eqb src "" then mret (mkMigration name from to MigrationAbsent "")
  else
    let digest := fingerprint src in
    if String.eqb from to then mret (mkMigration name from to MigrationAlreadyPresent digest)
    else
      dst ← wrapped ("read " +:+ name +:+ " from " +:+ to) (readAt e to name);
      if String.eqb dst src then mret (mkMigration name from to MigrationAlreadyPresent digest)
      else if negb (String.eqb dst "")
      then errorf (to +:+ " already holds a DIFFERENT " +:+ name +:+ " (source " +:+ digest +:+ ", destination "
                   +:+ fingerprint dst +:+ "): refusing to overwrite it")
      else
        wrapped ("write " +:+ name +:+ " to " +:+ to) (BackupArtifact e id name src) ;;
        back ← wrapped ("read back " +:+ name +:+ " from " +:+ to) (readAt e to name);
        if negb (String.eqb back src)
        then errorf (name +:+ " at " +:+ to +:+ " does not match the source after writing it (source " +:+ digest
                     +:+ ", stored " +:+ fingerprint back +:+ "): the migration is NOT complete for this artefact")
        else mret (mkMigration name from to MigrationCopied digest).

(** ** Clients *)

(** A project of the wrong type is told by the text of the refusal. *)
Definition verifyProject (e : infisicalEscrow) : M unit :=
  r ← attempt (RestoreArtifact e (ForCluster "__escrow_preflight__" "__escrow_preflight__") escrowSecretName);
  match r with
  | Ok _ => mret ()
  | Err err =>
      if Contains (Error err) "of type kms" || Contains (Error err) "secret-manager are not allowed"
      then throw (mkError (err_is err) ("escrow project " +:+ projectID e
             +:+ " is a KMS project, and an escrow needs a SECRET MANAGER project.: " +:+ Error err))
      else throw (mkError (err_is err) ("escrow project " +:+ projectID e +:+ " is not usable: " +:+ Error err))
  end.

(** filepath.Join and filepath.Dir of an absolute path without . and .. elements *)
Definition fp_join (dir name : string) : string := if String.eqb dir "/" then "/" +:+ name else dir +:+ "/" +:+ name.
Definition fp_dir (dir : string) : string :=
  let p := TrimSuffix (path_split dir).1 "/" in if String.eqb p "" then "/" else p.
Fixpoint climb (n : nat) (h : Host) (dir : string) : string :=
  match n with
  | O => ""
  | S n =>
      let candidate := fp_join dir "k8-secrets/infisical" in
      if bool_decide (candidate ∈ dirs h) then candidate
      else let parent := fp_dir dir in
           if String.eqb parent dir then "" else climb n h parent
  end.
Definition escrowSecretsDir (h : Host) : string :=
  match cwd h with None => "" | Some dir => climb 8 h dir end.
Definition Getenv (h : Host) (name : string) : string := default "" (environ h !! name).
Definition escrowValue (h : Host) (name : string) : string :=
  let v := TrimSpace (Getenv h name) in
  if negb (String.eqb v "") then v
  else let dir := escrowSecretsDir h in
       if String.eqb dir "" then ""
       else match files h !! fp_join dir name with None => "" | Some b => TrimSpace b end.

Definition missing_of (l : list (string * string)) : list string :=
  (List.filter (λ kv, String.eqb kv.2 "") l).*1.
(** strings.EqualFold on ASCII *)
Definition EqualFold (a b : string) : bool := String.eqb (ToLower a) (ToLower b).
Definition with_token (e : infisicalEscrow) (t : string) : infisicalEscrow :=
  mkEscrow (baseURL e) (clientID e) (clientSecret e) (projectID e) t.
Definition NewEscrowClient (inClusterURL : string) : M infisicalEscrow :=
  h ← gets host;
  let url := escrowValue h "INFISICAL_ESCROW_URL" in
  let cid := escrowValue h "INFISICAL_ESCROW_CLIENT_ID" in
  let secret := escrowValue h "INFISICAL_ESCROW_CLIENT_SECRET" in
  let project := escrowValue h "INFISICAL_ESCROW_PROJECT_ID" in
  if String.eqb url "" && String.eqb cid "" && String.eqb secret "" && String.eqb project ""
  then errorf "no escrow configured"
  else
    match missing_of [("INFISICAL_ESCROW_URL", url); ("INFISICAL_ESCROW_PROJECT_ID", project);
                      ("INFISICAL_ESCROW_CLIENT_ID", cid); ("INFISICAL_ESCROW_CLIENT_SECRET", secret)] with
    | (_ :: _) as missing => errorf ("the escrow is partially configured; missing " +:+ Join missing ", ")
    | [] =>
        if negb (String.eqb inClusterURL "") && EqualFold (TrimSuffix url "/") (TrimSuffix inClusterURL "/")
        then errorf ("the escrow URL is this cluster's own Infisical (" +:+ url +:+ "), which is not an escrow")
        else
          let e := mkEscrow (TrimSuffix url "/") cid secret project "" in
          t ← authenticate e;
          let e := with_token e t in
          verifyProject e ;;
          mret e
    end.
Definition NewEscrowClientForToken (url project tok : string) : M infisicalEscrow :=
  let url := TrimSpace url in
  let project := TrimSpace project in
  let tok := TrimSpace tok in
  match missing_of [("escrow url", url); ("escrow project id", project); ("session token", tok)] with
  | (_ :: _) as missing => errorf ("cannot reach the escrow: no " +:+ Join missing ", ")
  | [] =>
      let e := mkEscrow (TrimSuffix url "/") "" "" project tok in
      verifyProject e ;;
      mret e
  end.

(** ** provision.go *)

Definition pathProjects : string := "/api/v1/projects".
Definition projectTypeSecretManager : string := "secret-manager".
Definition accepted (status : Z) : bool := (status =? 200)%Z || (status =? 201)%Z.
Definition addProjectMember (e : infisicalEscrow) (project email : string) : M unit :=
  resp ← wrapped ("reach " +:+ baseURL e +:+ " to grant " +:+ email +:+ " access")
           (Do (mkRequest "POST" (baseURL e +:+ pathProjects +:+ "/" +:+ project +:+ "/memberships") (token e)
                  [("emails", JStrings [email]); ("usernames", JStrings []); ("roleSlugs", JStrings ["admin"])]));
  let '(status, body) := resp in
  if accepted status then mret ()
  else errorf (refused ("project " +:+ project +:+ " was created, and " +:+ email +:+ " could not be added to it") status body).
(** The settings are checked in the order of a map, [order]. *)
Definition EnsureProject (order : list (string * string) → list (string * string))
    (url cid secret projectName ownerEmail : string) : M string :=
  let url := TrimSpace url in
  let cid := TrimSpace cid in
  let secret := TrimSpace secret in
  let projectName := TrimSpace projectName in
  let ownerEmail := TrimSpace ownerEmail in
  match missing_of (order [("escrow URL", url); ("client id", cid); ("client secret", secret);
                           ("project name", projectName); ("owner email", ownerEmail)]) with
  | name :: _ => errorf ("cannot create the escrow project: no " +:+ name)
  | [] =>
      let e := mkEscrow (TrimSuffix url "/") cid secret "" "" in
      t ← wrapped ("the escrow credentials do not authenticate against " +:+ baseURL e) (authenticate e);
      let e := with_token e t in
      resp ← wrapped ("reach " +:+ baseURL e +:+ " to create the escrow project")
               (Do (mkRequest "POST" (baseURL e +:+ pathProjects) (token e)
                      [("projectName", JString projectName); ("type", JString projectTypeSecretManager)]));
      let '(status, raw) := resp in
      if negb (accepted status)
      then if (status =? 401)%Z || (status =? 403)%Z
           then errorf ("this machine identity cannot create projects in the escrow organisation (" +:+ pretty status +:+ ").")
           else errorf (refused ("the escrow refused to create project " +:+ quoted projectName) status raw)
      else
        match decode_project raw with
        | None => errorf ("the escrow's reply to creating " +:+ quoted projectName +:+ " is not the expected shape")
        | Some (pid, typ) =>
            if String.eqb pid "" then errorf ("the escrow created " +:+ quoted projectName +:+ " and returned no project id")
            else if negb (String.eqb typ "") && negb (String.eqb typ projectTypeSecretManager)
            then errorf ("the escrow created " +:+ quoted projectName +:+ " as type " +:+ quoted typ
                         +:+ ", and an escrow needs " +:+ quoted projectTypeSecretManager)
            else addProjectMember e pid ownerEmail ;; mret pid
        end
  end.
End escrow.
Arguments World {R} K.
