(* ===== verification/EscrowFacts.v ===== *)
(** * EscrowFacts: what the escrow holds.

    [EscrowVault] is what is relied on of the service at one address and project: reads answer
    from its store, a write that is accepted stores, one that is not stores or does
    nothing, and no other request changes the store. Proved against it: where each artefact
    lives and that the places of two boxes, or of two clusters, are apart; that a write
    touches its own place only and a read tells an empty place from a failure; that a
    migration loses nothing; and that the escrow is the one the master keys rely on. *)

From S2P Require Import Prelude.
From S2P Require Import GoRuntime.
From S2P Require Import Codec.
From S2P Require Import Escrow.
From S2P Require Import HubSecrets.
From S2P Require Import MasterKeys.
From S2P Require Import MasterKeysFacts.
Import Escrow.

Local Open Scope string_scope.

(** ** Places *)

Definition place (id : Identity) (artifact : string) : string * string := (escrowPath id artifact, artifact).
Definition no_slash (s : string) : bool := all_chars (λ c, negb (Ascii.eqb c "/")) s.
(** Two names of an artefact that stand for the same place. *)
Definition same_scope (id id' : Identity) (artifact : string) : Prop :=
  BoxID id = BoxID id' ∧ ((DeclaredScope artifact).1 = ScopeCluster → ClusterName id = ClusterName id').

Lemma str_app_inj_l s t1 t2 : s +:+ t1 = s +:+ t2 → t1 = t2.
Proof. induction s as [|c s IH]; [done|]. rewrite !str_app_cons. intros [= H]. auto. Qed.
(** Up to the first slash. *)
Lemma no_slash_cut a b s t : no_slash a = true → no_slash b = true → a +:+ "/" +:+ s = b +:+ "/" +:+ t → a = b ∧ s = t.
Proof.
  revert b. induction a as [|c a IH]; intros [|d b]; cbn; rewrite ?str_app_cons, ?str_app_nil_l.
  - by intros _ _ [= ->].
  - intros _ [Hd _]%andb_true_iff [= <- _]. done.
  - intros [Hd _]%andb_true_iff _ [= -> _]. done.
  - intros [_ Ha]%andb_true_iff [_ Hb]%andb_true_iff [= -> H]. by destruct (IH b Ha Hb H) as [-> ->].
Qed.
Lemma same_place id id' a : no_slash (BoxID id) = true → no_slash (BoxID id') = true →
  place id a = place id' a ↔ same_scope id id' a.
Proof.
  intros H H'. unfold place, same_scope, escrowPath. destruct (DeclaredScope a).1.
  - split; [intros [= ->%str_app_inj_l]|intros [-> _]]; done.
  - split; [|by intros [-> ->]; auto]. intros [= E%str_app_inj_l].
    change ("/clusters/" +:+ ?x) with ("/" +:+ "clusters/" +:+ x) in E. apply no_slash_cut in E as [-> E]; [|done..].
    by apply str_app_inj_l in E.
Qed.

(** ** The service *)

Definition at_ (base project : string) (e : infisicalEscrow) : Prop := baseURL e = base ∧ projectID e = project.
(** Text that a URL carries as it is. *)
Definition url_plain (s : string) : bool :=
  all_chars (λ c, let n := Ascii.nat_of_ascii c in
                  (33 <=? n)%nat && (n <=? 126)%nat && negb (existsb (Ascii.eqb c) ["?"; "&"; "#"; "%"; "+"]%char)) s.
Definition addressable (project path name : string) : bool := url_plain project && url_plain path && url_plain name && no_slash name.

Class EscrowVault (R : Remote) (base project : string) := {
  held : RSt → gmap (string * string) string;
  login_keeps e u s : at_ base project e → held (answer (mkRequest "POST" (baseURL e +:+ pathLogin) "" u) s).2 = held s;
  folder_keeps e id a s : at_ base project e → held (answer (folder_request e id a) s).2 = held s;
  read_keeps e p n s : at_ base project e → held (answer (read_request e p n) s).2 = held s;
  read_found e p n s body v : at_ base project e → addressable project p n = true →
    (answer (read_request e p n) s).1 = Ok (200%Z, body) → decode_secretValue body = Some v → held s !! (p, n) = Some v;
  read_absent e p n s body : at_ base project e → addressable project p n = true →
    (answer (read_request e p n) s).1 = Ok (404%Z, body) → held s !! (p, n) = None;
  write_either e m id n v s : at_ base project e → addressable project (escrowPath id n) n = true →
    held (answer (write_request e m id n v) s).2 = held s ∨ held (answer (write_request e m id n v) s).2 = <[place id n := v]> (held s);
  write_done e m id n v s st body : at_ base project e → addressable project (escrowPath id n) n = true →
    (answer (write_request e m id n v) s).1 = Ok (st, body) → in_2xx st = true →
    held (answer (write_request e m id n v) s).2 = <[place id n := v]> (held s) }.

Section laws.
Context {R : Remote} {K : Type} {base project : string} {L : EscrowVault R base project}.
Implicit Types (w : World K).
Abbreviation M A := (goM (World K) error A).

(** What the escrow holds for the program. *)
Definition store w : gmap (string * string) string := held (remote w).
Definition escrowed w (id : Identity) (a : string) : string := default "" (store w !! place id a).
Definition reachable (id : Identity) (a : string) : Prop := addressable project (escrowPath id a) a = true.

Lemma Do_run q w r w' : Do q w = (r, w') →
  remote w' = (answer q (remote w)).2 ∧ host w' = host w ∧ rest w' = rest w
  ∧ (∀ x, r = Ok x → (answer q (remote w)).1 = Ok x).
Proof. unfold Do. destruct (answer q (remote w)) as [[x|m] s]; intros [= <- <-]; split_and!; try done; intros ? [= <-]; done. Qed.
(** Everything but the service is left alone. *)
Definition apart w w' : Prop := host w' = host w ∧ rest w' = rest w.
Lemma escrow_only_refl w : apart w w.
Proof. done. Qed.
Lemma escrow_only_trans w1 w2 w3 : apart w1 w2 → apart w2 w3 → apart w1 w3.
Proof. unfold apart. intros [-> ->] [-> ->]. done. Qed.

Lemma refuse_run o w r w' : (or_refuse o : M unit) w = (r, w') → w' = w ∧ (r = Ok () ↔ o = None).
Proof. destruct o; intros [= <- <-]; split; done. Qed.

Lemma readAt_run e p n w r w' : at_ base project e → readAt e p n w = (r, w') →
  apart w w' ∧ store w' = store w ∧ (addressable project p n = true → ∀ v, r = Ok v → v = default "" (store w !! (p, n))).
Proof.
  intros He. unfold readAt. rewrite bind_run, wrapped_run. destruct (Do _ w) as [r1 w1] eqn:E1.
  apply Do_run in E1 as (Hr & Hh & Hk & Ha). assert (store w1 = store w) as Hs by (unfold store; rewrite Hr; by apply read_keeps).
  destruct r1 as [[st body]|e1]; [|by intros [= <- <-]]. specialize (Ha _ eq_refl).
  destruct (st =? 404)%Z eqn:E4; [|destruct (st =? 200)%Z eqn:E2; cbn [negb]; [destruct (decode_secretValue body) as [v|] eqn:Ev|]];
    intros [= <- <-]; split_and!; try done; intros Hadr v' [= <-].
  - apply Z.eqb_eq in E4 as ->. unfold store. by erewrite read_absent.
  - apply Z.eqb_eq in E2 as ->. unfold store. by erewrite read_found.
Qed.
Lemma RestoreArtifact_run e id a w r w' : at_ base project e → RestoreArtifact e id a w = (r, w') →
  apart w w' ∧ store w' = store w ∧ (reachable id a → ∀ v, r = Ok v → v = escrowed w id a ∧ validate id = None).
Proof.
  intros He. unfold RestoreArtifact. rewrite bind_run. destruct (or_refuse (validate id) w) as [r0 w0] eqn:E0.
  apply refuse_run in E0 as [-> H0]. destruct r0 as [[]|e0]; [|by intros [= <- <-]]. intros E.
  apply readAt_run in E as (Ha & Hs & Hv); [|done]. split_and!; [done..|]. intros Hr v ->. split; [by apply Hv|by apply H0].
Qed.

Lemma write_with_run e ms id a v w r w' : at_ base project e → reachable id a → write_with e ms id a v w = (r, w') →
  apart w w' ∧ (store w' = store w ∨ store w' = <[place id a := v]> (store w))
  ∧ (r = Ok () → store w' = <[place id a := v]> (store w)).
Proof.
  intros He Hr. revert w. induction ms as [|m ms IH]; intros w; cbn [write_with].
  { intros [= <- <-]. split_and!; [done|by left|done]. }
  rewrite bind_run, wrapped_run. destruct (Do _ w) as [r1 w1] eqn:E1. apply Do_run in E1 as (Hw & Hh & Hk & Ha).
  assert (store w1 = store w ∨ store w1 = <[place id a := v]> (store w)) as Hs by (unfold store; rewrite Hw; by apply write_either).
  assert (apart w w1) as Hap by done. destruct r1 as [[st body]|e1]; [|by intros [= <- <-]]. specialize (Ha _ eq_refl).
  destruct (in_2xx st) eqn:E2.
  { intros [= <- <-]. split_and!; [done|done|]. intros _. unfold store. rewrite Hw. by eapply write_done. }
  destruct (_ && _); [|by intros [= <- <-]]. intros (Hap' & Hs' & Hok)%IH. split_and!; [by eapply escrow_only_trans| |].
  - destruct Hs as [Hs|Hs], Hs' as [Hs'|Hs']; rewrite Hs', Hs; rewrite ?insert_insert_eq; auto.
  - intros ->. rewrite (Hok eq_refl). destruct Hs as [->| ->]; by rewrite ?insert_insert_eq.
Qed.
Lemma BackupArtifact_run e id a v w r w' : at_ base project e → reachable id a → BackupArtifact e id a v w = (r, w') →
  apart w w' ∧ (store w' = store w ∨ store w' = <[place id a := v]> (store w))
  ∧ (r = Ok () → store w' = <[place id a := v]> (store w) ∧ validate id = None).
Proof.
  intros He Hr. unfold BackupArtifact. rewrite bind_run. destruct (or_refuse (validate id) w) as [r0 w0] eqn:E0.
  apply refuse_run in E0 as [-> H0]. destruct r0 as [[]|e0]; [|intros [= <- <-]; split_and!; [done|by left|done]].
  rewrite bind_run. destruct (ensurePath e id a w) as [r1 w1] eqn:E1.
  assert (apart w w1 ∧ store w1 = store w) as [Hap Hs].
  { unfold ensurePath in E1. rewrite bind_run, wrapped_run in E1. destruct (Do _ w) as [r2 w2] eqn:E2.
    apply Do_run in E2 as (Hw & Hh & Hk & _). assert (store w2 = store w) as Hs by (unfold store; rewrite Hw; by apply folder_keeps).
    destruct r2 as [[st body]|e2]; [|by injection E1 as <- <-]. destruct (in_2xx st); [by injection E1 as <- <-|].
    by destruct (_ || _); injection E1 as <- <-. }
  destruct r1 as [[]|e1]; [|intros [= <- <-]; split_and!; [done|by left|done]]. intros (Hap' & Hs' & Hok)%write_with_run; [|done..].
  rewrite Hs in Hs', Hok. split_and!; [by eapply escrow_only_trans|done|]. intros ->. split; [auto|by apply H0].
Qed.

(** A write into the escrow, whatever it answers, leaves every other artefact alone: what is held
    under another name, for another box, or for another cluster where the artefact is a
    cluster's own, is held as before. *)
Theorem backup_own_place e id a v w r w' id' a' :
  at_ base project e → reachable id a → no_slash (BoxID id) = true → no_slash (BoxID id') = true →
  BackupArtifact e id a v w = (r, w') →
  a' ≠ a ∨ ¬ same_scope id id' a →
  escrowed w' id' a' = escrowed w id' a'.
Proof.
  intros He Hr Hb Hb' (_ & Hs & _)%BackupArtifact_run Hne; [|done..]. unfold escrowed.
  assert (place id a ≠ place id' a') as Hp.
  { intros E. destruct Hne as [Hn|Hn]; [by injection E|]. apply Hn. assert (a = a') as <- by (by injection E). by apply same_place in E. }
  destruct Hs as [->| ->]; [done|]. by rewrite lookup_insert_ne.
Qed.

(** ** Migration *)

Lemma escrowed_at w id a : escrowed w id a = default "" (store w !! (escrowPath id a, a)).
Proof. done. Qed.
(** C27: A migration loses nothing, wherever it fails: whatever was held, under any name and path, is
    held still. Where it answers, the place the scope gives the artefact holds what the old
    one holds, and the digest reported is of it; only where the old place is empty is the
    artefact reported absent. *)
Theorem migration_loses_nothing e id a w r w' :
  at_ base project e → reachable id a → addressable project (legacyPath (ClusterName id)) a = true →
  MigrateArtifactPath e id a w = (r, w') →
  (∀ k v, store w !! k = Some v → v ≠ "" → store w' !! k = Some v)
  ∧ ∀ m, r = Ok m →
      let src := default "" (store w !! (legacyPath (ClusterName id), a)) in
      if String.eqb (Action m) MigrationAbsent then src = "" ∧ store w' = store w
      else src ≠ "" ∧ escrowed w' id a = src ∧ Digest m = fingerprint src.
Proof.
  intros He Hr Hl. unfold MigrateArtifactPath. rewrite bind_run. destruct (or_refuse (validate id) w) as [r0 w0] eqn:E0.
  apply refuse_run in E0 as [-> _]. destruct r0 as [[]|e0]; [|by intros [= <- <-]]. rewrite bind_run, wrapped_run.
  destruct (readAt e _ a w) as [r1 w1] eqn:E1. apply readAt_run in E1 as (_ & Hs1 & Hv1); [|done].
  destruct r1 as [src|e1]; [|intros [= <- <-]; by rewrite Hs1]. specialize (Hv1 Hl _ eq_refl).
  destruct (String.eqb src "") eqn:Esrc.
  { apply String.eqb_eq in Esrc as ->. intros [= <- <-]. rewrite Hs1. split; [done|]. intros m [= <-]. by rewrite <- Hv1. }
  apply String.eqb_neq in Esrc. destruct (String.eqb (legacyPath _) _) eqn:Eft.
  { apply String.eqb_eq in Eft. intros [= <- <-]. rewrite Hs1. split; [done|]. intros m [= <-]. cbn. rewrite <- Hv1.
    rewrite escrowed_at, Hs1, <- Eft. by rewrite <- Hv1. }
  rewrite bind_run, wrapped_run. destruct (readAt e (escrowPath id a) a w1) as [r2 w2] eqn:E2. apply readAt_run in E2 as (_ & Hs2 & Hv2); [|done].
  rewrite Hs1 in Hs2, Hv2. destruct r2 as [dst|e2]; [|intros [= <- <-]; by rewrite Hs2]. specialize (Hv2 Hr _ eq_refl).
  destruct (String.eqb dst src) eqn:Eds.
  { apply String.eqb_eq in Eds as ->. intros [= <- <-]. rewrite Hs2. split; [done|]. intros m [= <-]. cbn. rewrite <- Hv1.
    by rewrite escrowed_at, Hs2, <- Hv2. }
  destruct (String.eqb dst "") eqn:Ede; cbn [negb]; [|intros [= <- <-]; by rewrite Hs2]. apply String.eqb_eq in Ede as ->.
  rewrite bind_run, wrapped_run. destruct (BackupArtifact e id a src w2) as [r3 w3] eqn:E3. apply BackupArtifact_run in E3 as (_ & Hs3 & _); [|done..].
  rewrite Hs2 in Hs3. assert (∀ k v, store w !! k = Some v → v ≠ "" → store w3 !! k = Some v) as Hkeep.
  { intros k v Hk Hn. destruct Hs3 as [->| ->]; [done|]. rewrite lookup_insert_ne; [done|]. intros <-. unfold place in Hk. rewrite Hk in Hv2. cbn in Hv2. by subst. }
  destruct r3 as [[]|e3]; [|intros [= <- <-]; done]. rewrite bind_run, wrapped_run.
  destruct (readAt e (escrowPath id a) a w3) as [r4 w4] eqn:E4. apply readAt_run in E4 as (_ & Hs4 & Hv4); [|done].
  destruct r4 as [back|e4]; [|intros [= <- <-]; by rewrite Hs4]. specialize (Hv4 Hr _ eq_refl).
  destruct (String.eqb back src) eqn:Eb; cbn [negb]; intros [= <- <-]; rewrite Hs4; (split; [done|]); [|done].
  apply String.eqb_eq in Eb as ->. intros m [= <-]. cbn. rewrite <- Hv1. by rewrite escrowed_at, Hs4, <- Hv4.
Qed.
(** ** Clients *)

(** The address and project the settings of the machine name. *)
Definition points_to (h : Host) : Prop :=
  TrimSuffix (escrowValue h "INFISICAL_ESCROW_URL") "/" = base ∧ escrowValue h "INFISICAL_ESCROW_PROJECT_ID" = project.
Lemma authenticate_run e w r w' : at_ base project e → authenticate e w = (r, w') → apart w w' ∧ store w' = store w.
Proof.
  intros He. unfold authenticate. rewrite bind_run, wrapped_run. destruct (Do _ w) as [r1 w1] eqn:E1.
  apply Do_run in E1 as (Hw & Hh & Hk & _). assert (store w1 = store w) as Hs by (unfold store; rewrite Hw; by apply login_keeps).
  destruct r1 as [[st body]|e1]; [|by intros [= <- <-]]. destruct (negb _); [by intros [= <- <-]|].
  destruct (decode_accessToken body) as [t|]; [|by intros [= <- <-]]. by destruct (String.eqb t ""); intros [= <- <-].
Qed.
Lemma verifyProject_run e w r w' : at_ base project e → verifyProject e w = (r, w') → apart w w' ∧ store w' = store w.
Proof.
  intros He. unfold verifyProject. rewrite bind_run. unfold attempt. destruct (RestoreArtifact e _ _ w) as [r1 w1] eqn:E1.
  apply RestoreArtifact_run in E1 as (Ha & Hs & _); [|done]. destruct r1 as [v|e1]; [by intros [= <- <-]|]. by destruct (_ || _); intros [= <- <-].
Qed.
Lemma NewEscrowClient_run url w r w' : points_to (host w) → NewEscrowClient url w = (r, w') →
  apart w w' ∧ store w' = store w ∧ (∀ e, r = Ok e → at_ base project e).
Proof.
  intros [Hb Hp]. unfold NewEscrowClient. rewrite bind_run. cbn [gets].
  destruct (_ && _ && _ && _); [by intros [= <- <-]|]. destruct (missing_of _); [|by intros [= <- <-]].
  destruct (_ && _); [by intros [= <- <-]|]. set (e := mkEscrow _ _ _ _ _). assert (at_ base project e) as He by done.
  rewrite bind_run. destruct (authenticate e w) as [r1 w1] eqn:E1. apply authenticate_run in E1 as [Ha Hs]; [|done].
  destruct r1 as [t|e1]; [|by intros [= <- <-]]. rewrite bind_run. assert (at_ base project (with_token e t)) as He' by done.
  destruct (verifyProject (with_token e t) w1) as [r2 w2] eqn:E2. apply verifyProject_run in E2 as [Ha2 Hs2]; [|done].
  destruct r2 as [[]|e2]; intros [= <- <-]; (split; [by eapply escrow_only_trans|]); (split; [by rewrite Hs2|]); [|done]. by intros e' [= <-].
Qed.
End laws.

(** ** The escrow of the master keys *)

(** The client as the operator hands it to the generator of the master keys, for the cluster
    [cl]; [as_payload] is the map the generator marshals. *)
Definition master_escrow {R : Remote} (e : infisicalEscrow) (cl : string) (as_payload : Keys → Payload) : MasterKeys.Escrow := {|
  MasterKeys.ESt := World unit;
  MasterKeys.RestoreMasterKeys box w :=
    match Escrow.RestoreMasterKeys e (mkIdentity box cl) w with
    | (Ok (Some m), w') => (Ok (BackupMap m), w')
    | (Ok None, w') => (Ok NoBackup, w')
    | (Err err, w') => (Err (Error err), w')
    end;
  MasterKeys.BackupMasterKeys box k w :=
    match Escrow.BackupMasterKeys e (mkIdentity box cl) (as_payload k) w with
    | (Ok _, w') => (Ok (), w')
    | (Err err, w') => (Err (Error err), w')
    end;
  MasterKeys.base64 := b64_encode |}.
(** A service that answers: what is held is read, and the keys are marshalled into an object
    that is read back with the two keys in it. *)
Class ReliableVault (R : Remote) (base project : string) `{L : !EscrowVault R base project} (as_payload : Keys → Payload) := {
  read_answers e p n s v : at_ base project e → addressable project p n = true → held s !! (p, n) = Some v →
    ∃ body, (answer (read_request e p n) s).1 = Ok (200%Z, body) ∧ decode_secretValue body = Some v;
  keys_marshalled k : ∃ t m, marshal (as_payload k) = Ok t ∧ t ≠ "" ∧ decode_backup t = Some m
    ∧ holds_keys m (encryptionKey k) (authSecret k) }.

Section master.
Context {R : Remote} {base project : string} `{L : !EscrowVault R base project} {as_payload : Keys → Payload}
  `{!ReliableVault R base project as_payload}.
Lemma readAt_answers {K} e p n (w : World K) v : at_ base project e → addressable project p n = true → store w !! (p, n) = Some v →
  ∃ w', readAt e p n w = (Ok v, w').
Proof.
  intros He Ha Hv. unfold readAt. destruct (read_answers e p n (remote w) v He Ha Hv) as (body & Hb & Hd).
  rewrite bind_run, wrapped_run. unfold Do. destruct (answer _ _) as [r s]. cbn in Hb. subst r. rewrite Hd. by eexists.
Qed.
(** What a box backed up is what it is given back, where a URL carries the name of the box. *)
Lemma escrow_gives_back e cl box k w w' :
  at_ base project e → url_plain project = true → url_plain box = true →
  @MasterKeys.BackupMasterKeys (master_escrow e cl as_payload) box k w = (Ok (), w') →
  ∃ m w'', @MasterKeys.RestoreMasterKeys (master_escrow e cl as_payload) box w' = (Ok (BackupMap m), w'')
    ∧ holds_keys m (encryptionKey k) (authSecret k).
Proof.
  intros He Hp Hbox. cbn. unfold Escrow.BackupMasterKeys. destruct (keys_marshalled k) as (t & m & Hm & Hne & Hd & Hk). rewrite Hm.
  set (id := mkIdentity box cl). assert (reachable (project := project) id escrowSecretName) as Hr.
  { unfold reachable, addressable. rewrite Hp. change (escrowPath id escrowSecretName) with ("/hub-operator/" +:+ box).
    unfold url_plain at 1. rewrite all_chars_app. fold (url_plain box). rewrite Hbox. done. }
  destruct (BackupArtifact e id escrowSecretName t w) as [[[]|?] w1] eqn:E; [|done]. intros [= <-].
  apply BackupArtifact_run in E as (_ & _ & Hok); [|done..]. destruct (Hok eq_refl) as [Hs Hv].
  unfold Escrow.RestoreMasterKeys, RestoreArtifact. rewrite !bind_run. rewrite Hv. cbn [or_refuse mret goM_ret].
  destruct (readAt_answers e (escrowPath id escrowSecretName) escrowSecretName w1 t He Hr) as [w2 E2].
  { rewrite Hs. apply lookup_insert_eq. }
  rewrite E2. rewrite (proj2 (String.eqb_neq _ _) Hne), Hd. eauto.
Qed.

Context {H : Hub} {e : infisicalEscrow} (He : at_ base project e) (Hp : url_plain project = true) (cl : string).
(** The escrow keeps the promise under which the master keys are generated. *)
#[local] Instance master_escrow_laws : EscrowLaws (master_escrow e cl as_payload) (λ box, url_plain box = true).
Proof using All. split. intros box k w w' Hb. by apply escrow_gives_back. Qed.
End master.
