(* ===== verification/EscrowSite.v ===== *)
(** * EscrowSite: the hub as the escrow commands see it, through kubectl.

    The kubectl calls of cmd/kakt: encryption.go, encryption_rotate.go, spoke_restore_pki.go
    and escrow_deliver_backup_credentials.go. [Site] is the Secrets of the hub, its Cluster
    objects and the manifests applied whole; between two calls other writers may change
    Secrets, as the script [rivals] says, and a call takes its outcome from the script
    [kubectl]. A reply that cannot be parsed counts as a call that fails. *)

From S2P Require Import Prelude.
From S2P Require Import GoRuntime.
From S2P Require Import Escrow.

Local Open Scope string_scope.

Definition key : Type := string * string.     (* namespace and name *)
Record KSecret := mkKSecret {
  sec_Type : string;
  sec_Labels : gmap string string;
  sec_Annotations : gmap string string;
  sec_Version : string;
  sec_Data : gmap string string }.
#[export] Instance KSecret_eq_dec : EqDecision KSecret.
Proof. solve_decision. Defined.
Record ClusterObject := mkClusterObject { spec_paused : bool; annotations : gmap string string }.

Record Site := mkSite {
  secrets : gmap key KSecret;
  clusters : gmap string ClusterObject;
  applied : list string;
  versions : nat;                             (* resource versions handed out *)
  kubectl : list outcome;
  rivals : list (list (key * option KSecret));
  entropy : list string }.                    (* what crypto/rand yields next *)
Definition with_secrets (f : gmap key KSecret → gmap key KSecret) (s : Site) : Site :=
  mkSite (f (secrets s)) (clusters s) (applied s) (S (versions s)) (kubectl s) (rivals s) (entropy s).
Definition with_applied (m : string) (s : Site) : Site :=
  mkSite (secrets s) (clusters s) (applied s ++ [m]) (versions s) (kubectl s) (rivals s) (entropy s).
Definition stored_as (s : Site) (typ : string) (labels annots data : gmap string string) : KSecret :=
  mkKSecret typ labels annots (pretty (versions s)) data.

Definition capiClusterSecretType : string := "cluster.x-k8s.io/secret".
Definition capiClusterNameLabel : string := "cluster.x-k8s.io/cluster-name".
Definition capiNamespace : string := "platform-capi".

Section kubectl.
Context {R : Remote}.
Abbreviation W := (World Site).
Abbreviation M A := (goM W error A).

Definition on_site (f : Site → Site) : M unit :=
  modify (λ w, mkWorld (remote w) (asked w) (host w) (f (rest w))).
Definition site {A} (f : Site → A) : M A := gets (λ w, f (rest w)).

Definition rival_writes (l : list (key * option KSecret)) (m : gmap key KSecret) : gmap key KSecret :=
  foldl (λ m x, match x.2 with Some s => <[x.1 := s]> m | None => delete x.1 m end) m l.
(** What others wrote since the last call, and how the next call ends. *)
Definition turn (s : Site) : outcome * Site :=
  let '(l, rs) := match rivals s with [] => ([], []) | l :: rs => (l, rs) end in
  let '(o, k) := next_outcome (kubectl s) in
  (o, mkSite (rival_writes l (secrets s)) (clusters s) (applied s) (versions s) k rs (entropy s)).
Definition call : M outcome :=
  o ← site (λ s, (turn s).1);
  on_site (λ s, (turn s).2) ;;
  mret o.

(** kubectl get secret *)
Definition get_secret (k : key) : M (option KSecret) :=
  o ← call;
  match o with
  | Done => site (λ s, secrets s !! k)
  | _ => errorf ("kubectl get secret/" +:+ k.2)
  end.
(** kubectl get cluster *)
Definition get_cluster (name : string) : M (option ClusterObject) :=
  o ← call;
  match o with
  | Done => site (λ s, clusters s !! name)
  | _ => errorf ("kubectl get cluster/" +:+ name)
  end.
(** kubectl create: refused where the name is taken. *)
Definition create_secret (k : key) (typ : string) (labels data : gmap string string) : M unit :=
  o ← call;
  old ← site (λ s, secrets s !! k);
  let write := on_site (λ s, with_secrets <[k := stored_as s typ labels ∅ data]> s) in
  match o, old with
  | Lost, _ => errorf ("creating " +:+ k.2 +:+ " failed")
  | _, Some _ => throw (mkError AlreadyExists "the secret already exists")
  | Done, None => write
  | Unknown, None => write ;; errorf ("creating " +:+ k.2 +:+ " failed")
  end.
(** kubectl replace, of the version that was read. *)
Definition replace_secret (k : key) (version typ : string) (labels annots data : gmap string string) : M unit :=
  o ← call;
  old ← site (λ s, secrets s !! k);
  let write := on_site (λ s, with_secrets <[k := stored_as s typ labels annots data]> s) in
  let fresh := match old with Some s => String.eqb (sec_Version s) version | None => false end in
  match o, old with
  | Lost, _ | _, None => errorf ("replacing " +:+ k.2 +:+ " failed")
  | Done, Some _ => if fresh then write
                    else errorf (k.2 +:+ " changed while it was being rotated, so the replacement was refused")
  | Unknown, Some _ => (if fresh then write else mret ()) ;; errorf ("replacing " +:+ k.2 +:+ " failed")
  end.
(** kubectl apply of a Secret with one entry of stringData; what else the object holds
    stays. The annotation that apply leaves is not kept. *)
Definition merged (s : Site) (old : option KSecret) (entry value : string) : KSecret :=
  match old with
  | Some old => stored_as s (sec_Type old) (sec_Labels old) (sec_Annotations old) (<[entry := value]> (sec_Data old))
  | None => stored_as s "Opaque" ∅ ∅ {[entry := value]}
  end.
Definition apply_secret (k : key) (entry value : string) : M unit :=
  o ← call;
  let write := on_site (λ s, with_secrets <[k := merged s (secrets s !! k) entry value]> s) in
  match o with
  | Done => write
  | Lost => errorf "kubectl apply failed"
  | Unknown => write ;; errorf "kubectl apply failed"
  end.
(** kubectl apply of a manifest that is applied as it is. *)
Definition apply_manifest (body : string) : M unit :=
  o ← call;
  match o with
  | Done => on_site (with_applied body)
  | Lost => errorf "kubectl apply failed"
  | Unknown => on_site (with_applied body) ;; errorf "kubectl apply failed"
  end.

(** rand.Read of 32 bytes *)
Definition rand32 : M string :=
  e ← site entropy;
  match e with
  | [] => errorf "entropy"
  | b :: e => on_site (λ s, mkSite (secrets s) (clusters s) (applied s) (versions s) (kubectl s) (rivals s) e) ;; mret b
  end.
End kubectl.
