(* ===== verification/Encryption.v ===== *)
(** * Encryption: the key with which a cluster's Secrets are encrypted at rest.

    Models cmd/kakt: encryption.go (enable), encryption_rotate.go (rotate), escrow_recovery.go
    (verify-recovery), the names of internal/assets/assets.go and the configuration that
    internal/assets/manifests/secrets/secret-encryption-config.yaml renders. The manifest is
    taken for the Secret it denotes; the regular expressions that read it back are scanners
    over its text. What is printed is left out. *)

From S2P Require Import Prelude.
From S2P Require Import GoRuntime.
From S2P Require Import Codec.
From S2P Require Import Escrow.
From S2P Require Import EscrowSite.

Local Open Scope string_scope.

(** ** Names and the configuration *)

Definition EncryptionSecretName (cluster : string) : string := cluster +:+ "-encryption-config".
Definition EncryptionKeyName (generation : Z) : string := "key" +:+ pretty generation.

(** The entry enc.yaml of the template: the write key, the key kept for reads, and whether
    plaintext may still be read. *)
Definition enc_yaml (primaryName primaryB64 fallbackName fallbackB64 : string) (noPlaintextFallback : bool) : string :=
  text (
    ["apiVersion: apiserver.config.k8s.io/v1";
     "kind: EncryptionConfiguration";
     "resources:";
     "  - resources:";
     "      - secrets";
     "    providers:";
     "      - secretbox:";
     "          # ORDER WITHIN THIS LIST IS THE WHOLE ROTATION MECHANISM.";
     "          #";
     "          # The API server WRITES with the first key and can READ with any of";
     "          # them. So a rotation is: put the new key first, keep the old one";
     "          # second, rewrite every Secret, then remove the old one. Reversing the";
     "          # order encrypts nothing new while appearing configured.";
     "          keys:";
     "            - name: " +:+ primaryName;
     "              secret: " +:+ primaryB64]
    ++ (if String.eqb fallbackName "" then []
        else ["            # THE PREVIOUS KEY, RETAINED FOR READS ONLY.";
              "            #";
              "            # Present only during a rotation. Every Secret written before the";
              "            # rotation is still sealed under it, so removing it before the rewrite";
              "            # is verified makes that data unreadable -- and unlike the plaintext";
              "            # fallback below, re-adding the key afterwards does recover it, which";
              "            # is why this is a staged procedure rather than a single apply.";
              "            - name: " +:+ fallbackName;
              "              secret: " +:+ fallbackB64])
    ++ (if noPlaintextFallback then [] else ["      - identity: {}"]))%list.

(** ** Reading the configuration back *)

(** \s and \S *)
Definition re_space (c : Ascii.ascii) : bool :=
  let n := Ascii.nat_of_ascii c in existsb (Nat.eqb n) [9; 10; 12; 13; 32]%nat.
Fixpoint re_trim (s : string) : string :=
  match s with
  | String c s' => if re_space c then re_trim s' else s
  | EmptyString => EmptyString
  end.
Fixpoint token_of (s : string) : string * string :=
  match s with
  | String c s' => if re_space c then (EmptyString, s) else let '(t, r) := token_of s' in (String c t, r)
  | EmptyString => (EmptyString, EmptyString)
  end.
Definition is_nl (c : Ascii.ascii) : bool := Ascii.eqb c "010".
(** \s*$: only space up to the end of the line. *)
Fixpoint line_ends (s : string) : bool :=
  match s with
  | EmptyString => true
  | String c s => is_nl c || re_space c && line_ends s
  end.
(** (?m)^\s*LIT\s*(\S+)\s*$ at the start of a line: the submatch and what follows it. *)
Definition match_here (lit s : string) : option (string * string) :=
  let s1 := re_trim s in
  if HasPrefix s1 lit then
    let '(t, r) := token_of (re_trim (str_drop (String.length lit) s1)) in
    if negb (String.eqb t "") && line_ends r then Some (t, r) else None
  else None.
(** FindAllStringSubmatch: [skip] bytes of the last match are still to come, [bol] says
    whether a line begins here. *)
Fixpoint find_all (lit : string) (skip : nat) (bol : bool) (s : string) : list string :=
  match s with
  | EmptyString => []
  | String c s' =>
      match skip with
      | S k => find_all lit k (is_nl c) s'
      | O => match (if bol then match_here lit s else None) with
             | Some (t, r) => t :: find_all lit (String.length s - String.length r - 1) (is_nl c) s'
             | None => find_all lit 0 (is_nl c) s'
             end
      end
  end.
Definition keyLine (s : string) : list string := find_all "- name:" 0 true s.
Definition secretLine (s : string) : list string := find_all "secret:" 0 true s.
(** ^key(\d+)$, and strconv.Atoi of the digits, which answers the largest int beside the
    error that is not looked at. *)
Definition genFromName (name : string) : option Z :=
  if HasPrefix name "key" then
    match leading_digits (str_drop 3 name) with
    | (ds, EmptyString) => if bool_decide (ds = []) then None else Some (Z.min (2^63 - 1) (of_digits ds))
    | _ => None
    end
  else None.

Record keyEntry := mkEntry { name : string; generation : Z; b64 : string }.
Definition entries (names values : list string) : result error (list keyEntry) :=
  foldr (λ nv r,
    match genFromName nv.1 with
    | Some g => match r with Ok l => Ok (mkEntry nv.1 g nv.2 :: l) | Err e => Err e end
    | None => Err (Errorf ("the live configuration contains a key named " +:+ quoted nv.1 +:+ ", which is not of the form keyN"))
    end) (Ok []) (zip names values).
Definition parse_config (raw : string) : result error (list keyEntry) :=
  let names := keyLine raw in
  let values := secretLine raw in
  if bool_decide (names = []) || negb (length names =? length values)%nat
  then Err (Errorf ("the live configuration has " +:+ pretty (length names) +:+ " key names and "
                    +:+ pretty (length values) +:+ " key values; refusing to guess which belongs to which"))
  else entries names values.

(** ** The commands *)

Record rotateOpts := mkRotate { ro_cluster : string; ro_box : string; ro_namespace : string; finalize : bool; ro_dryRun : bool }.
Record enableOpts := mkEnable {
  encClusterName : string; encBoxID : string; encNamespace : string; encClassFile : string;
  encApplyClass : bool; encNoFallback : bool; encDryRun : bool }.
Definition defaultHubClass : string := "classes/hetzner-mgmt-ubuntu-v1.yaml".

(** The files the binary carries, and the box of golang.org/x/crypto/nacl/secretbox. *)
Class Binary := {
  ReadManifest : string → option string;
  ReadEmbedded : string → option string;
  Open_box : string → string → string → option string }.   (* key, nonce, box *)
Definition Overhead : nat := 16.

Section commands.
Context {R : Remote} {B : Binary}.
Abbreviation W := (World Site).
Abbreviation M A := (goM W error A).

Definition config_key (namespace cluster : string) : key := (namespace, EncryptionSecretName cluster).
Definition readLiveKeys (o : rotateOpts) : M (list keyEntry) :=
  out ← wrapped ("reading " +:+ EncryptionSecretName (ro_cluster o) +:+ " in " +:+ ro_namespace o +:+ " from the management cluster")
          (s ← get_secret (config_key (ro_namespace o) (ro_cluster o));
           match s with None => throw (mkError NotFound "NotFound") | Some s => mret (default "" (sec_Data s !! "enc.yaml")) end);
  match parse_config out with Ok l => mret l | Err e => throw e end.

Definition decodeKeyToHex (b : string) : result error string :=
  match b64_decode b with
  | None => Err (Errorf "illegal base64 data")
  | Some raw => if (String.length raw =? 32)%nat then Ok (hex_encode raw)
                else Err (Errorf ("decoded to " +:+ pretty (String.length raw) +:+ " bytes, want 32"))
  end.
Definition renderConfig (primaryName primaryB64 fallbackName fallbackB64 : string) : string :=
  enc_yaml primaryName primaryB64 fallbackName fallbackB64 false.
Definition applyManifest (o : rotateOpts) (body : string) : M unit :=
  wrapped "applying the provider configuration" (apply_secret (config_key (ro_namespace o) (ro_cluster o)) "enc.yaml" body).

Definition stageRotation (o : rotateOpts) (store : infisicalEscrow) (live : list keyEntry) : M unit :=
  match live with
  | [] => mret ()                               (* readLiveKeys never yields it *)
  | _ :: _ :: _ => errorf ("the live configuration already holds " +:+ pretty (length live)
                           +:+ " keys, so a rotation is already in progress")
  | [current] =>
      let nextName := EncryptionKeyName (as_int64 (generation current + 1)) in
      raw ← wrapped "generating the new key" rand32;
      let newHex := hex_encode raw in
      if ro_dryRun o then mret ()
      else
        match decodeKeyToHex (b64 current) with
        | Err e => throw (mkError (err_is e) ("the live key " +:+ name current
                     +:+ " is not a 32-byte base64 value, so it cannot be escrowed as the previous key: " +:+ Error e))
        | Ok oldHex =>
            let id := ForCluster (ro_box o) (ro_cluster o) in
            wrapped ("escrowing the outgoing key as " +:+ ArtifactSecretEncryptionKeyPrevious)
              (BackupArtifact store id ArtifactSecretEncryptionKeyPrevious oldHex) ;;
            wrapped "the new key was generated but could not be escrowed, so nothing was applied"
              (BackupArtifact store id ArtifactSecretEncryptionKey newHex) ;;
            applyManifest o (renderConfig nextName (b64_encode raw) (name current) (b64 current))
        end
  end.
Definition finalizeRotation (o : rotateOpts) (live : list keyEntry) : M unit :=
  match live with
  | primary :: _ :: _ =>
      if ro_dryRun o then mret () else applyManifest o (renderConfig (name primary) (b64 primary) "" "")
  | _ => errorf "the live configuration holds one key, so there is no rotation to finalise"
  end.
Definition runEncryptionRotate (o : rotateOpts) : M unit :=
  store ← wrapped "a rotation needs an escrow to keep both keys in while it runs (ADR-076)" (NewEscrowClient "");
  live ← readLiveKeys o;
  if finalize o then finalizeRotation o live else stageRotation o store live.

Definition readClusterClass (path : string) : M string :=
  match ReadManifest path with
  | Some b => mret b
  | None => match ReadEmbedded path with
            | Some b => mret b
            | None => errorf ("not found in the CLI assets (as manifests/" +:+ path
                              +:+ ") nor in the packaged platform manifests (as " +:+ path +:+ ")")
            end
  end.
Definition runEncryptionEnable (o : enableOpts) : M unit :=
  store ← wrapped "at-rest encryption needs an escrow to keep the key in, and a box is not built without one (ADR-076)" (NewEscrowClient "");
  let id := ForCluster (encBoxID o) (encClusterName o) in
  held ← wrapped ("reading the escrow for " +:+ quoted (encClusterName o)) (RestoreArtifact store id ArtifactSecretEncryptionKey);
  let generated := String.eqb held "" in
  key ← (if generated then raw ← wrapped "generating the encryption key" rand32; mret (hex_encode raw) else mret held);
  match hex_decode key with
  | Some rawKey =>
      if negb (String.length rawKey =? 32)%nat
      then errorf ("the encryption key must be 32 hex-encoded bytes, got " +:+ pretty (String.length rawKey))
      else
        (if generated && negb (encDryRun o)
         then wrapped "the key was generated but could not be escrowed, so nothing was applied"
                (BackupArtifact store id ArtifactSecretEncryptionKey key)
         else mret ()) ;;
        let config := enc_yaml (EncryptionKeyName 1) (b64_encode rawKey) "" "" (encNoFallback o) in
        let classFile := if String.eqb (encClassFile o) "" then defaultHubClass else encClassFile o in
        class ← (if encApplyClass o
                 then c ← wrapped ("reading the ClusterClass " +:+ quoted classFile) (readClusterClass classFile); mret (Some c)
                 else mret None);
        if encDryRun o then mret ()
        else
          wrapped ("applying the provider configuration Secret in " +:+ encNamespace o)
            (apply_secret (config_key (encNamespace o) (encClusterName o)) "enc.yaml" config) ;;
          match class with
          | Some c => wrapped ("applying the ClusterClass from " +:+ classFile) (apply_manifest c)
          | None => mret ()
          end
  | None => errorf "the encryption key must be 32 hex-encoded bytes"
  end.

(** ** verify-recovery *)

Definition secretboxPrefix : string := "k8s:enc:secretbox:v1:key1:".
(** bytes.Index, and what follows the first occurrence. *)
Fixpoint after_first (sub s : string) : option string :=
  if HasPrefix s sub then Some (str_drop (String.length sub) s)
  else match s with EmptyString => None | String _ s => after_first sub s end.
(** The framings tried: as written, less a newline, less a carriage return and a newline. *)
Definition candidates (body : string) : list string :=
  let n := String.length body in
  body :: (if (Overhead <? n)%nat && HasSuffix body nl
           then str_take (n - 1) body
                :: (if (Overhead + 1 <? n)%nat && HasSuffix body (String (Ascii.ascii_of_nat 13) nl)
                    then [str_take (n - 2) body] else [])
           else []).
Definition first_open (k nonce : string) (cs : list string) : option string :=
  foldr (λ c r, match Open_box k nonce c with Some p => Some p | None => r end) None cs.
Definition runEscrowVerifyRecovery (box cluster fromFile : string) (expectKind : bool) : M unit :=
  store ← wrapped "reaching the escrow" (NewEscrowClient "");
  keyHex ← wrapped ("reading " +:+ ArtifactSecretEncryptionKey +:+ " for " +:+ quoted cluster +:+ " from the escrow")
             (RestoreArtifact store (ForCluster box cluster) ArtifactSecretEncryptionKey);
  if String.eqb keyHex ""
  then errorf ("the escrow holds no " +:+ ArtifactSecretEncryptionKey +:+ " for " +:+ quoted cluster)
  else
    match hex_decode keyHex with
    | None => errorf "the escrowed key is not hexadecimal"
    | Some raw =>
        if negb (String.length raw =? 32)%nat
        then errorf ("the escrowed key is " +:+ pretty (String.length raw) +:+ " bytes after hex-decoding")
        else
          h ← gets host;
          match files h !! fromFile with
          | None => errorf ("reading " +:+ fromFile)
          | Some blob =>
              match after_first secretboxPrefix blob with
              | None => errorf (fromFile +:+ " contains no " +:+ quoted secretboxPrefix
                                +:+ ", so this value is NOT encrypted with secretbox.")
              | Some payload =>
                  if (String.length payload <? 24 + Overhead)%nat
                  then errorf ("only " +:+ pretty (String.length payload) +:+ " bytes follow the prefix")
                  else
                    match first_open raw (str_take 24 payload) (candidates (str_drop 24 payload)) with
                    | None => errorf "the escrowed key did NOT decrypt this value."
                    | Some plain =>
                        if expectKind && (negb (Contains plain "v1") || negb (Contains plain "Secret"))
                        then errorf "the value decrypted but does not look like a serialised Secret"
                        else mret ()
                    end
              end
          end
    end.
End commands.
