(* ===== verification/EncryptionConfigFacts.v ===== *)
(** * EncryptionConfigFacts: the configuration is read back as it was written.

    The scanners over the text of the configuration agree with reading it line by line, so
    that the keys of a rendered configuration, their names and their order are what
    readLiveKeys finds. *)

From S2P Require Import Prelude.
From S2P Require Import GoRuntime.
From S2P Require Import Codec.
From S2P Require Import Escrow.
From S2P Require Import EscrowSite.
From S2P Require Import Encryption.

Local Open Scope string_scope.

#[local] Arguments re_space !c.
#[local] Arguments is_nl !c.

(** ** Scanning line by line *)

Definition on_one_line (s : string) : bool := all_chars (λ c, negb (is_nl c)) s.
Definition line_token (lit l : string) : list string :=
  match match_here lit l with Some (t, _) => [t] | None => [] end.
(** A line of which a scanner for [lit] needs no more than the line itself: something is on
    it, and something follows [lit] where it begins with [lit]. *)
Definition self_contained (lit l : string) : bool :=
  on_one_line l && negb (String.eqb (re_trim l) "")
  && (negb (HasPrefix (re_trim l) lit) || negb (String.eqb (re_trim (str_drop (String.length lit) (re_trim l))) "")).

Lemma re_trim_app a b : re_trim a ≠ "" → re_trim (a +:+ b) = re_trim a +:+ b.
Proof.
  induction a as [|c a IH]; [done|]. rewrite str_app_cons. cbn. destruct (re_space c); [exact IH|by rewrite str_app_cons].
Qed.
Lemma re_trim_suffix s : ∃ p, s = p +:+ re_trim s.
Proof.
  induction s as [|c s [p IH]]; [by exists ""|]. cbn. destruct (re_space c); [exists (String c p); by rewrite IH at 1|by exists ""].
Qed.
Lemma on_one_line_app a b : on_one_line (a +:+ b) = on_one_line a && on_one_line b.
Proof. apply all_chars_app. Qed.
Lemma on_one_line_trim s : on_one_line s = true → on_one_line (re_trim s) = true.
Proof. destruct (re_trim_suffix s) as [p Hp]. intros H. rewrite Hp, on_one_line_app in H. by apply andb_true_iff in H as []. Qed.
Lemma prefix_of_line lit l r : on_one_line lit = true → on_one_line l = true → lit ≠ "" →
  HasPrefix (l +:+ nl +:+ r) lit = HasPrefix l lit.
Proof.
  intros Hlit Hl _. revert l Hl. induction lit as [|c lit IH]; intros l Hl; [by destruct l|].
  cbn in Hlit. apply andb_true_iff in Hlit as [Hc Hlit]. destruct l as [|d l].
  - change ("" +:+ nl +:+ r) with (String "010" r). unfold HasPrefix. cbn. destruct (Ascii.ascii_dec c "010") as [->|?]; [done|by destruct lit].
  - cbn in Hl. apply andb_true_iff in Hl as [_ Hl]. rewrite str_app_cons. unfold HasPrefix. cbn. destruct (Ascii.ascii_dec c d); [|done]. by apply (IH Hlit).
Qed.
Lemma token_of_app a r : on_one_line a = true → a ≠ "" →
  token_of (a +:+ nl +:+ r) = ((token_of a).1, (token_of a).2 +:+ nl +:+ r).
Proof.
  intros _ _. induction a as [|c a IH]; [done|]. rewrite str_app_cons. cbn. destruct (re_space c); [done|]. cbn in IH. rewrite IH. by destruct (token_of a).
Qed.
Lemma token_of_split a : a = (token_of a).1 +:+ (token_of a).2.
Proof. induction a as [|c a IH]; [done|]. cbn. destruct (re_space c); [done|]. destruct (token_of a); cbn in *. by rewrite IH at 1. Qed.
Lemma line_ends_app a r : on_one_line a = true → line_ends (a +:+ nl +:+ r) = line_ends a.
Proof.
  induction a as [|c a IH]; intros H; [done|]. cbn in H. apply andb_true_iff in H as [Hc H]. rewrite str_app_cons. cbn.
  destruct (is_nl c); [done|]. cbn. destruct (re_space c); [by apply IH|done].
Qed.
Lemma match_here_line lit l r : on_one_line lit = true → lit ≠ "" → self_contained lit l = true →
  match_here lit (l +:+ nl +:+ r) = (λ tr, (tr.1, tr.2 +:+ nl +:+ r)) <$> match_here lit l.
Proof.
  intros Hlit Hne. unfold self_contained. rewrite !andb_true_iff, orb_true_iff, !negb_true_iff, !String.eqb_neq.
  intros [[Hl Ht] Hd]. unfold match_here. rewrite re_trim_app by done.
  rewrite prefix_of_line by (done || by apply on_one_line_trim).
  destruct (HasPrefix (re_trim l) lit) eqn:E; [|done]. destruct Hd as [?|Hd]; [done|].
  apply HasPrefix_iff in E as [x Hx]. assert (on_one_line x = true) as Hxl.
  { apply on_one_line_trim in Hl. rewrite Hx, on_one_line_app in Hl. by apply andb_true_iff in Hl as []. }
  rewrite Hx in Hd |- *. rewrite str_drop_app in Hd. rewrite <- str_app_assoc, !str_drop_app.
  rewrite re_trim_app by done. rewrite token_of_app by (done || by apply on_one_line_trim).
  apply on_one_line_trim in Hxl. pose proof (token_of_split (re_trim x)) as Hs. destruct (token_of (re_trim x)) as [t u]. cbn in *.
  rewrite Hs, on_one_line_app in Hxl. apply andb_true_iff in Hxl as [_ Hu]. rewrite line_ends_app by done.
  by destruct (negb (t =? "") && line_ends u).
Qed.

Lemma find_all_inside lit l r : on_one_line l = true →
  find_all lit 0 false (l +:+ nl +:+ r) = find_all lit 0 true r.
Proof.
  induction l as [|c l IH]; intros H; [done|]. cbn in H. apply andb_true_iff in H as [Hc H].
  change (String c l +:+ nl +:+ r) with (String c (l +:+ nl +:+ r)). cbn [find_all].
  apply negb_true_iff in Hc as ->. by apply IH.
Qed.
Lemma find_all_over lit p r b : on_one_line p = true → p ≠ "" →
  find_all lit (String.length p) b (p +:+ r) = find_all lit 0 false r.
Proof.
  revert b. induction p as [|c p IH]; intros b H; [done|]. intros _. cbn in H. apply andb_true_iff in H as [Hc H].
  apply negb_true_iff in Hc. change (String c p +:+ r) with (String c (p +:+ r)). cbn [String.length find_all]. rewrite Hc.
  destruct p as [|d p]; [done|]. by apply IH.
Qed.
Lemma match_here_rest lit s t r : match_here lit s = Some (t, r) → ∃ p, s = p +:+ r ∧ p ≠ "" ∧ (String.length lit < String.length p)%nat.
Proof.
  unfold match_here. destruct (HasPrefix (re_trim s) lit) eqn:E; [|done]. apply HasPrefix_iff in E as [x Hx].
  rewrite Hx, str_drop_app. pose proof (token_of_split (re_trim x)) as Ht. destruct (token_of (re_trim x)) as [u v]. cbn in Ht.
  destruct (String.eqb u "") eqn:Eu; [done|]. apply String.eqb_neq in Eu. cbn. destruct (line_ends v); [|done]. intros [= <- <-].
  destruct (re_trim_suffix s) as [p1 H1]. destruct (re_trim_suffix x) as [p2 H2].
  exists (p1 +:+ lit +:+ p2 +:+ u). rewrite H1 at 1. rewrite Hx. rewrite H2 at 1. rewrite Ht at 1. rewrite !str_app_assoc. split; [done|].
  assert (String.length lit < String.length (p1 +:+ lit +:+ p2 +:+ u))%nat as Hlen.
  { rewrite !str_length_app. destruct u; [done|cbn; lia]. }
  split; [|by rewrite !str_app_assoc in Hlen]. intros Hn. rewrite !str_app_assoc in Hlen. rewrite Hn in Hlen. cbn in Hlen. lia.
Qed.
(** A line is scanned on its own. *)
Lemma find_all_line lit l r : on_one_line lit = true → lit ≠ "" → self_contained lit l = true →
  find_all lit 0 true (l +:+ nl +:+ r) = (line_token lit l ++ find_all lit 0 true r)%list.
Proof.
  intros Hlit Hne Hs. pose proof (match_here_line lit l r Hlit Hne Hs) as Hm. unfold line_token.
  assert (on_one_line l = true) as Hl by (unfold self_contained in Hs; by destruct (on_one_line l)).
  destruct l as [|c l]; [done|]. pose proof Hl as Hl'. cbn in Hl'. apply andb_true_iff in Hl' as [Hc Hl'].
  apply negb_true_iff in Hc. change (String c l +:+ nl +:+ r) with (String c (l +:+ nl +:+ r)) in *. cbn [find_all]. rewrite Hm.
  destruct (match_here lit (String c l)) as [[t u]|] eqn:E; cbn [fmap option_fmap option_map fst snd].
  - change ([t] ++ ?l)%list with (t :: l). f_equal. apply match_here_rest in E as (q & Ep & _ & Hlen).
    destruct q as [|d p]; [cbn in Hlen; lia|]. rewrite str_app_cons in Ep. injection Ep as <- ->.
    rewrite on_one_line_app in Hl'. apply andb_true_iff in Hl' as [Hp' Hu]. rewrite <- (str_app_assoc p u (nl +:+ r)).
    assert (String.length (String c (p +:+ u +:+ nl +:+ r)) - String.length (u +:+ nl +:+ r) - 1 = String.length p)%nat as ->.
    { cbn [String.length]. rewrite (str_length_app p). lia. }
    destruct p as [|x p]; [cbn in Hlen; destruct lit; [done|cbn in Hlen; lia]|].
    rewrite find_all_over by done. by apply find_all_inside.
  - rewrite Hc. by apply find_all_inside.
Qed.
Lemma find_all_lines lit ls : on_one_line lit = true → lit ≠ "" → forallb (self_contained lit) ls = true →
  find_all lit 0 true (text ls) = concat (line_token lit <$> ls).
Proof.
  intros Hlit Hne. induction ls as [|l ls IH]; [done|]. cbn [forallb]. intros [Hl Hls]%andb_true_iff.
  assert (text (l :: ls) = l +:+ nl +:+ text ls) as ->.
  { unfold text. cbn. destruct ls; [by rewrite str_app_nil_r|]. cbn. by rewrite <- str_app_assoc. }
  rewrite find_all_line by done. rewrite IH by done. done.
Qed.

(** ** Names and values *)

(** What can stand after the colon: one run of characters without space. *)
Definition solid (s : string) : bool := negb (String.eqb s "") && all_chars (λ c, negb (re_space c)) s.
Lemma solid_trim s : solid s = true → re_trim s = s.
Proof. destruct s as [|c s]; [done|]. unfold solid. cbn. destruct (re_space c); [done|done]. Qed.
Lemma solid_token s : solid s = true → token_of s = (s, "").
Proof.
  unfold solid. intros [_ H]%andb_true_iff. induction s as [|c s IH]; [done|]. cbn in *. destruct (re_space c); [done|]. by rewrite (IH H).
Qed.
Lemma solid_line s : solid s = true → on_one_line s = true.
Proof.
  unfold solid. intros [_ H]%andb_true_iff. eapply all_chars_mono; [|exact H]. intros c. cbn. unfold is_nl, re_space.
  destruct (Ascii.eqb c "010") eqn:E; [|done]. by apply Ascii.eqb_eq in E as ->.
Qed.
Lemma re_space_is c : is_space c = false → re_space c = false.
Proof. intros H. destruct (re_space c) eqn:E; [|done]. destruct c as [[] [] [] [] [] [] [] []]; vm_compute in *; congruence. Qed.
Lemma solid_b64 s : s ≠ "" → solid (b64_encode s) = true.
Proof.
  intros Hs. apply andb_true_iff. split; [apply negb_true_iff, String.eqb_neq; by apply b64_nonempty|].
  eapply all_chars_mono; [|apply b64_no_space]. intros c. cbn. intros H%negb_true_iff. by rewrite re_space_is.
Qed.

Lemma value_line lit line v : solid v = true → on_one_line line = true → re_trim line = lit +:+ " " +:+ v → lit ≠ "" →
  line_token lit line = [v] ∧ self_contained lit line = true.
Proof.
  intros Hv Hl Ht Hlit. unfold line_token, self_contained, match_here. rewrite Ht, Hl, (proj2 (HasPrefix_iff _ lit)) by eauto. rewrite str_drop_app.
  change (re_trim (" " +:+ v)) with (re_trim v). rewrite (solid_trim v Hv), (solid_token v Hv).
  assert (v ≠ "") as Hn by (by intros ->). assert (lit +:+ " " +:+ v ≠ "") as Hn' by (by destruct lit).
  rewrite (proj2 (String.eqb_neq _ _) Hn), (proj2 (String.eqb_neq _ _) Hn'). done.
Qed.
Lemma other_line lit line c s : on_one_line line = true → re_trim line = String c s → HasPrefix (String c s) lit = false →
  line_token lit line = [] ∧ self_contained lit line = true.
Proof. intros Hl Ht Hp. unfold line_token, self_contained, match_here. by rewrite Ht, Hl, Hp. Qed.
(** The lines that carry a name or a value, under either scanner. *)
Lemma name_line v (l := "            - name: " +:+ v) : solid v = true →
  (line_token "- name:" l = [v] ∧ self_contained "- name:" l = true) ∧ (line_token "secret:" l = [] ∧ self_contained "secret:" l = true).
Proof.
  intros Hv. assert (on_one_line l = true) as Hl by (unfold l; rewrite on_one_line_app; by apply solid_line).
  split; [by apply value_line|]. by apply (other_line _ _ "-" (" name: " +:+ v)).
Qed.
Lemma secret_line v (l := "              secret: " +:+ v) : solid v = true →
  (line_token "secret:" l = [v] ∧ self_contained "secret:" l = true) ∧ (line_token "- name:" l = [] ∧ self_contained "- name:" l = true).
Proof.
  intros Hv. assert (on_one_line l = true) as Hl by (unfold l; rewrite on_one_line_app; by apply solid_line).
  split; [by apply value_line|]. by apply (other_line _ _ "s" ("ecret: " +:+ v)).
Qed.

(** The names and values of the keys a configuration is rendered with. *)
Definition rendered_keys (n1 k1 n2 k2 : string) : list (string * string) :=
  (n1, k1) :: (if String.eqb n2 "" then [] else [(n2, k2)]).
Lemma scan_rendered n1 k1 n2 k2 np : solid n1 = true → solid k1 = true → (n2 ≠ "" → solid n2 = true ∧ solid k2 = true) →
  keyLine (enc_yaml n1 k1 n2 k2 np) = (rendered_keys n1 k1 n2 k2).*1
  ∧ secretLine (enc_yaml n1 k1 n2 k2 np) = (rendered_keys n1 k1 n2 k2).*2.
Proof.
  intros H1 H2 H3. destruct (name_line n1 H1) as [[A1 A2] [A3 A4]]. destruct (secret_line k1 H2) as [[B1 B2] [B3 B4]].
  unfold keyLine, secretLine, enc_yaml, rendered_keys. destruct (String.eqb n2 "") eqn:E2.
  - rewrite !find_all_lines by (done || (cbn -[self_contained]; rewrite ?A2, ?A4, ?B2, ?B4; by destruct np)).
    cbn -[line_token]. rewrite A1, A3, B1, B3. by destruct np.
  - apply String.eqb_neq in E2. destruct (H3 E2) as [H4 H5].
    destruct (name_line n2 H4) as [[C1 C2] [C3 C4]]. destruct (secret_line k2 H5) as [[D1 D2] [D3 D4]].
    rewrite !find_all_lines by (done || (cbn -[self_contained]; rewrite ?A2, ?A4, ?B2, ?B4, ?C2, ?C4, ?D2, ?D4; by destruct np)).
    cbn -[line_token]. rewrite A1, A3, B1, B3, C1, C3, D1, D3. by destruct np.
Qed.

(** ** Entries *)

Lemma token_of_solid s : all_chars (λ c, negb (re_space c)) (token_of s).1 = true.
Proof. induction s as [|c s IH]; [done|]. cbn. destruct (re_space c) eqn:E; [done|]. destruct (token_of s). cbn in *. by rewrite E. Qed.
Lemma match_here_solid lit s t r : match_here lit s = Some (t, r) → solid t = true.
Proof.
  unfold match_here. destruct (HasPrefix _ lit); [|done]. pose proof (token_of_solid (re_trim (str_drop (String.length lit) (re_trim s)))) as H.
  destruct (token_of _) as [u v]. cbn in H. destruct (String.eqb u "") eqn:E; [done|]. cbn. destruct (line_ends v); [|done].
  intros [= <- <-]. unfold solid. by rewrite E, H.
Qed.
Lemma find_all_solid lit k b s : Forall (λ t, solid t = true) (find_all lit k b s).
Proof.
  revert k b. induction s as [|c s IH]; intros [|k] b; cbn [find_all]; [done|done| |apply IH].
  destruct (if b then match_here lit (String c s) else None) as [[t r]|] eqn:E; [|apply IH].
  constructor; [|apply IH]. destruct b; [|done]. by apply match_here_solid in E.
Qed.

(** An entry as readLiveKeys yields it. *)
Definition proper (x : keyEntry) : Prop := solid (name x) = true ∧ solid (b64 x) = true ∧ genFromName (name x) = Some (generation x).
Lemma entries_ok names values l : Forall (λ t, solid t = true) names → Forall (λ t, solid t = true) values →
  entries names values = Ok l → Forall proper l ∧ (λ x, (name x, b64 x)) <$> l = zip names values.
Proof.
  intros Hn. revert values l. induction Hn as [|n names Hn Hns IH]; intros values l Hv; [by intros [= <-]|].
  destruct Hv as [|v values Hv Hvs]; [by intros [= <-]|]. cbn. destruct (genFromName n) as [g|] eqn:Eg; [|done].
  destruct (entries names values) as [l'|e] eqn:E; unfold entries in E; rewrite E; [|done]. intros [= <-].
  destruct (IH values l' Hvs E) as [Hp Hz]. split; [by constructor|]. cbn. by rewrite Hz.
Qed.
Lemma parse_proper t l : parse_config t = Ok l → Forall proper l ∧ l ≠ [].
Proof.
  unfold parse_config. destruct (bool_decide (keyLine t = [])) eqn:E0; [done|]. apply bool_decide_eq_false in E0. cbn.
  destruct (length (keyLine t) =? length (secretLine t))%nat eqn:E; [|done]. apply Nat.eqb_eq in E. cbn. intros Hl.
  destruct (entries_ok _ _ _ (find_all_solid "- name:" 0 true t) (find_all_solid "secret:" 0 true t) Hl) as [Hp Hz]. split; [done|].
  intros ->. apply (f_equal length) in Hz. rewrite length_zip_with in Hz. cbn in Hz. fold (keyLine t) (secretLine t) in Hz.
  destruct (keyLine t), (secretLine t); done.
Qed.

(** A rendered configuration is read back as it was written: readLiveKeys finds the keys it
    was rendered with, with their names, values and generations, the write key first. *)
Lemma config_parses x y np :
  proper x → (∀ y', y = Some y' → proper y') →
  parse_config (enc_yaml (name x) (b64 x) (from_option name "" y) (from_option b64 "" y) np) = Ok (x :: option_list y).
Proof.
  intros (X1 & X2 & X3) Hy.
  destruct (scan_rendered (name x) (b64 x) (from_option name "" y) (from_option b64 "" y) np X1 X2) as [Hk Hs].
  { destruct y as [y|]; [|done]. intros _. by destruct (Hy y eq_refl) as (? & ? & ?). }
  unfold parse_config. rewrite Hk, Hs, !length_fmap, Nat.eqb_refl. unfold rendered_keys.
  destruct y as [y|]; cbn [from_option option_list].
  - destruct (Hy y eq_refl) as (Y1 & Y2 & Y3). destruct (String.eqb (name y) "") eqn:E.
    { apply String.eqb_eq in E. by rewrite E in Y1. }
    cbn. rewrite X3, Y3. by destruct x, y.
  - cbn. rewrite X3. by destruct x.
Qed.

Lemma digit_solid c z : digit_of c = Some z → re_space c = false.
Proof. intros H. destruct c as [[] [] [] [] [] [] [] []]; vm_compute in H; try discriminate H; reflexivity. Qed.
Lemma parse_values t l : parse_config t = Ok l → secretLine t = b64 <$> l ∧ keyLine t = name <$> l.
Proof.
  unfold parse_config. destruct (bool_decide (keyLine t = [])); [done|]. cbn.
  destruct (length (keyLine t) =? length (secretLine t))%nat eqn:E; [|done]. apply Nat.eqb_eq in E. cbn. intros Hl.
  destruct (entries_ok _ _ _ (find_all_solid "- name:" 0 true t) (find_all_solid "secret:" 0 true t) Hl) as [_ Hz].
  fold (keyLine t) (secretLine t) in Hz. split.
  - rewrite <- (snd_zip (keyLine t) (secretLine t)) by lia. rewrite <- Hz, <- list_fmap_compose. done.
  - rewrite <- (fst_zip (keyLine t) (secretLine t)) by lia. rewrite <- Hz, <- list_fmap_compose. done.
Qed.

Lemma digits_solid s ds : leading_digits s = (ds, "") → all_chars (λ c, negb (re_space c)) s = true.
Proof.
  revert ds. induction s as [|c s IH]; intros ds; [done|]. cbn. destruct (digit_of c) eqn:E; [|done].
  destruct (leading_digits s) as [d r] eqn:Es. intros [= _ ->]. rewrite (IH d eq_refl), andb_true_r. apply negb_true_iff.
  by eapply digit_solid.
Qed.
Lemma generation_solid g : solid (EncryptionKeyName g) = true.
Proof.
  assert (∀ n : N, all_chars (λ c, negb (re_space c)) (pretty n) = true) as Hn.
  { intros n. destruct (pretty_digits n) as (ds & _ & Hd & _). by eapply digits_solid. }
  unfold EncryptionKeyName, solid. rewrite all_chars_app. apply andb_true_iff. split; [done|]. apply andb_true_iff. split; [done|].
  destruct g as [|p|p]; [done|apply (Hn (N.pos p))|]. change (pretty (Z.neg p)) with ("-" +:+ pretty (N.pos p)). by rewrite all_chars_app, Hn.
Qed.
(** The name of a generation is read as that generation. *)
Lemma generation_name g : (0 ≤ g < 2^63)%Z → genFromName (EncryptionKeyName g) = Some g.
Proof.
  intros Hg. destruct (pretty_digits (Z.to_N g)) as (ds & Hne & Hd & Hv).
  assert (pretty g = pretty (Z.to_N g)) as Ep by (by destruct g as [|g|g]; [| |lia]).
  unfold EncryptionKeyName. rewrite Ep. unfold genFromName. rewrite (proj2 (HasPrefix_iff _ "key")) by eauto.
  change (str_drop 3 ("key" +:+ ?s)) with s. rewrite Hd, bool_decide_false by done. rewrite Hv, Z2N.id by lia. f_equal. lia.
Qed.
Lemma generation_bound n g : genFromName n = Some g → (g < 2^63)%Z.
Proof.
  unfold genFromName. destruct (HasPrefix n "key"); [|done]. destruct (leading_digits _) as [ds [|]]; [|done].
  destruct (bool_decide (ds = [])); [done|]. intros [= <-]. lia.
Qed.
Lemma generation_nonneg n g : genFromName n = Some g → (0 ≤ g)%Z.
Proof.
  unfold genFromName. destruct (HasPrefix n "key"); [|done]. destruct (leading_digits _) as [ds r] eqn:E. destruct r; [|done].
  destruct (bool_decide (ds = [])); [done|]. intros [= <-]. assert (Forall (λ d, 0 ≤ d)%Z ds) as Hd.
  { revert ds E. generalize (str_drop 3 n) as s. intros s. generalize "" as r. induction s as [|c s IH]; intros r ds; cbn; [by intros [= <- <-]|].
    destruct (digit_of c) as [d|] eqn:Ed; [|by intros [= <- <-]]. destruct (leading_digits s) as [d' r'] eqn:Es. intros [= <- <-].
    constructor; [|by eapply IH]. unfold digit_of in Ed. destruct (_ && _) eqn:Eb; [|done]. injection Ed as <-.
    apply andb_true_iff in Eb as [Eb _]. apply Z.leb_le in Eb. lia. }
  assert (0 ≤ of_digits ds)%Z; [|lia]. unfold of_digits. assert (∀ v, 0 ≤ v → 0 ≤ foldl (λ v d, 10 * v + d) v ds)%Z as Hf; [|by apply Hf].
  clear E. induction Hd as [|d ds Hd0 Hd IH]; intros v Hv; [done|]. cbn. apply IH. lia.
Qed.
