(* ===== verification/EncryptionFacts.v ===== *)
(** * EncryptionFacts: no key in use without a copy.

    Every key of a cluster's live configuration is held by the escrow, over every history of
    the commands, whatever fails; a rotation makes nothing unreadable; and where the
    commands do harm: enabling again after a rotation, and the plaintext that a rotation
    lets back in. *)

From S2P Require Import Prelude.
From S2P Require Import GoRuntime.
From S2P Require Import Codec.
From S2P Require Import Escrow.
From S2P Require Import EscrowFacts.
From S2P Require Import EscrowSite.
From S2P Require Import Encryption.
From S2P Require Import EncryptionConfigFacts.

Local Open Scope string_scope.

(** The part of a run that comes first, its answer and the world it leaves. *)
Ltac first_part r w E :=
  match goal with |- context [match ?x with (_, _) => _ end] => destruct x as [r w] eqn:E end.

Section encryption.
Context {R : Remote} {B : Binary} {base project : string} {L : EscrowVault R base project}.
(** One cluster: its box, its name and the namespace of its configuration. *)
Context (box cluster ns : string).
Abbreviation W := (World Site).
Abbreviation M A := (goM W error A).
Implicit Types (w : W) (x y : keyEntry).

Definition id : Identity := ForCluster box cluster.
Definition ck : key := config_key ns cluster.
Definition current w : string := escrowed w id ArtifactSecretEncryptionKey.
Definition previous w : string := escrowed w id ArtifactSecretEncryptionKeyPrevious.
Definition live_text w : option string := s ← secrets (rest w) !! ck; sec_Data s !! "enc.yaml".

(** The surroundings of a run: the settings name the escrow, others leave the configuration
    alone, and the random source yields the 32 bytes it is asked for. *)
Definition steady w : Prop :=
  points_to (base := base) (project := project) (host w) ∧ Forall (Forall (λ c, c.1 ≠ ck)) (rivals (rest w))
  ∧ Forall (λ b, String.length b = 32%nat) (entropy (rest w)).
(** What a part of a run that writes nothing leaves. *)
Definition unmoved w w' : Prop := steady w' ∧ store w' = store w ∧ live_text w' = live_text w.
Lemma still_refl w : steady w → unmoved w w.
Proof. done. Qed.
Lemma still_trans w1 w2 w3 : unmoved w1 w2 → unmoved w2 w3 → unmoved w1 w3.
Proof. unfold unmoved. intros (_ & -> & ->) (H & -> & ->). done. Qed.
Lemma apart_steady w w' : apart w w' → steady w → steady w' ∧ live_text w' = live_text w.
Proof. unfold apart, steady, live_text. by intros [-> ->]. Qed.
Lemma apart_unmoved w w' : apart w w' → store w' = store w → steady w → unmoved w w'.
Proof. intros Ha Hs Hw. destruct (apart_steady _ _ Ha Hw) as [? ?]. done. Qed.

(** ** Calls *)

Lemma rival_spares (l : list (key * option KSecret)) (m : gmap key KSecret) : Forall (λ c, c.1 ≠ ck) l → rival_writes l m !! ck = m !! ck.
Proof.
  unfold rival_writes. revert m. induction l as [|[k o] l IH]; intros m; [done|]. intros [Hk Hl]%Forall_cons. cbn in *.
  rewrite IH by done. destruct o; [by apply lookup_insert_ne|by apply lookup_delete_ne].
Qed.
Lemma call_run w r w' : steady w → (call : M outcome) w = (r, w') →
  unmoved w w' ∧ secrets (rest w') !! ck = secrets (rest w) !! ck.
Proof.
  intros (Hp & Hrv & He). unfold call. rewrite !bind_run. cbn. intros [= <- <-]. unfold turn, unmoved, steady, store, live_text.
  destruct (rivals (rest w)) as [|l rs] eqn:Er; destruct (next_outcome (kubectl (rest w))) as [o k]; cbn.
  - done.
  - apply Forall_cons in Hrv as [Hl Hrs]. by rewrite rival_spares.
Qed.
Lemma get_secret_run w r w' : steady w → (get_secret ck : M _) w = (r, w') →
  unmoved w w' ∧ ∀ s, r = Ok s → s = secrets (rest w') !! ck.
Proof.
  intros Hw. unfold get_secret. rewrite bind_run. destruct (call w) as [r1 w1] eqn:E1. apply call_run in E1 as [Hu _]; [|done].
  destruct r1 as [[]|e1]; intros [= <- <-]; (split; [done|]); try done. by intros s [= <-].
Qed.
Lemma apply_secret_run v w r w' : steady w → (apply_secret ck "enc.yaml" v : M unit) w = (r, w') →
  steady w' ∧ store w' = store w ∧ (live_text w' = live_text w ∨ live_text w' = Some v) ∧ (r = Ok () → live_text w' = Some v).
Proof.
  intros Hw. unfold apply_secret. rewrite bind_run. destruct (call w) as [r1 w1] eqn:E1. apply call_run in E1 as [(Hs1 & Hst & Hl) _]; [|done].
  set (wr := mkWorld (remote w1) (asked w1) (host w1) (with_secrets <[ck := merged (rest w1) (secrets (rest w1) !! ck) "enc.yaml" v]> (rest w1))).
  assert (steady wr ∧ store wr = store w ∧ live_text wr = Some v) as (H1 & H2 & H3).
  { split; [|split]; [done|done|]. unfold live_text, wr. cbn. rewrite lookup_insert_eq. cbn.
    unfold merged. destruct (secrets (rest w1) !! ck); [apply lookup_insert_eq|apply lookup_singleton_eq]. }
  destruct r1 as [[]|e1]; intros [= <- <-]; fold wr; (split_and!; [done|done|first [by right|by left]|done]).
Qed.
Lemma apply_manifest_run b w r w' : steady w → (apply_manifest b : M unit) w = (r, w') → unmoved w w'.
Proof.
  intros Hw. unfold apply_manifest. rewrite bind_run. destruct (call w) as [r1 w1] eqn:E1. apply call_run in E1 as [Hu _]; [|done].
  by destruct r1 as [[]|e1]; intros [= <- <-].
Qed.
Lemma rand32_run w r w' : steady w → (rand32 : M string) w = (r, w') → unmoved w w' ∧ ∀ b, r = Ok b → String.length b = 32%nat.
Proof.
  intros Hw. pose proof Hw as (Hp & Hr & He). unfold rand32. rewrite bind_run. cbn [site gets].
  destruct (entropy (rest w)) as [|b e] eqn:Ee; [by intros [= <- <-]|]. apply Forall_cons in He as [Hb He].
  intros [= <- <-]. split; [|by intros ? [= <-]]. done.
Qed.

(** ** The invariant *)

(** A key, in base64, of which the escrow holds a copy. *)
Definition in_escrow w (v : string) : Prop :=
  ∃ raw, b64_decode v = Some raw ∧ String.length raw = 32%nat
    ∧ (hex_decode (current w) = Some raw ∨ hex_decode (previous w) = Some raw).
(** The escrow holds every key of the configuration. *)
Definition keys_held w : Prop := ∀ t, live_text w = Some t → Forall (in_escrow w) (secretLine t).
Lemma in_escrow_eq w w' v : current w' = current w → previous w' = previous w → in_escrow w v → in_escrow w' v.
Proof. intros Hc Hp. unfold in_escrow. by rewrite Hc, Hp. Qed.
Lemma store_eq w w' : store w' = store w → current w' = current w ∧ previous w' = previous w.
Proof. intros Hs. unfold current, previous, escrowed. by rewrite Hs. Qed.
Lemma keys_held_unmoved w w' : unmoved w w' → keys_held w → keys_held w'.
Proof.
  intros (_ & [Hc Hp]%store_eq & Ht) H t. rewrite Ht. intros E. eapply Forall_impl; [exact (H t E)|]. intros v. by apply in_escrow_eq.
Qed.

Context (Hcur : reachable (project := project) id ArtifactSecretEncryptionKey)
  (Hprev : reachable (project := project) id ArtifactSecretEncryptionKeyPrevious).

Lemma current_after w w' v : store w' = <[place id ArtifactSecretEncryptionKey := v]> (store w) →
  current w' = v ∧ previous w' = previous w.
Proof.
  intros E. unfold current, previous, escrowed. rewrite E, lookup_insert_eq, lookup_insert_ne; [done|]. by intros [=].
Qed.
Lemma previous_after w w' v : store w' = <[place id ArtifactSecretEncryptionKeyPrevious := v]> (store w) →
  current w' = current w ∧ previous w' = v.
Proof.
  intros E. unfold current, previous, escrowed. rewrite E, lookup_insert_eq, lookup_insert_ne; [done|]. by intros [=].
Qed.

Lemma rendered_one n raw np g : genFromName n = Some g → solid n = true → String.length raw = 32%nat →
  parse_config (enc_yaml n (b64_encode raw) "" "" np) = Ok [mkEntry n g (b64_encode raw)].
Proof.
  intros Hg Hn Hr. apply (config_parses (mkEntry n g (b64_encode raw)) None np); [|done].
  split_and!; [done| |done]. apply solid_b64. by intros ->.
Qed.
Lemma key_one : genFromName (EncryptionKeyName 1) = Some 1%Z ∧ solid (EncryptionKeyName 1) = true.
Proof. split; [by apply generation_name|apply generation_solid]. Qed.

(** ** enable *)

(** What a run of enable has done to the cluster by the time it is in [u]. *)
Definition enabled o w (q : result error unit) u : Prop :=
  steady u
  ∧ (live_text u = live_text w ∨ ∃ t z, live_text u = Some t ∧ parse_config t = Ok [z] ∧ name z = EncryptionKeyName 1
       ∧ ∃ raw, b64 z = b64_encode raw ∧ String.length raw = 32%nat ∧ hex_decode (current u) = Some raw)
  ∧ previous u = previous w ∧ (current u = current w ∨ current w = "")
  ∧ (q = Ok () → encDryRun o = false → ∃ raw, String.length raw = 32%nat ∧ hex_decode (current u) = Some raw
       ∧ live_text u = Some (enc_yaml (EncryptionKeyName 1) (b64_encode raw) "" "" (encNoFallback o))).
Lemma enabled_stop o w q u : unmoved w u → (q = Ok () → encDryRun o = true) → enabled o w q u.
Proof.
  intros (Hs & Hst & Hl) Hq. unfold enabled, previous, current, escrowed. rewrite Hst. split_and!; [done|by left|done|by left|].
  intros H1 H2. rewrite (Hq H1) in H2. done.
Qed.
Lemma enabled_after o w q u q' u' : enabled o w q u → unmoved u u' → (q' = Ok () → q = Ok () ∨ encDryRun o = true) → enabled o w q' u'.
Proof.
  intros (H1 & H2 & H3 & H4 & H5) (Hs & Hst & Hl) Hq. unfold enabled in *. assert (current u' = current u ∧ previous u' = previous u) as [-> ->]
    by (unfold current, previous, escrowed; by rewrite Hst). rewrite Hl. split_and!; try done. intros Hq' Hd. destruct (Hq Hq') as [?|?]; [auto|congruence].
Qed.
(** The escrow has been asked for the key, or given it: [k] is the key, in hexadecimal. *)
Lemma escrow_step o e hd k raw w w3 r5 w5 (gen := String.eqb hd "") :
  at_ base project e → unmoved w w3 → hd = current w → (k = hd ∧ gen = false ∨ gen = true) → hex_decode k = Some raw →
  (if gen && negb (encDryRun o) then wrapped "the key was generated but could not be escrowed, so nothing was applied"
     (BackupArtifact e id ArtifactSecretEncryptionKey k) else mret ()) w3 = (r5, w5) →
  enabled o w (Err (Errorf "")) w5 ∧ live_text w5 = live_text w ∧ (r5 = Ok () → encDryRun o = false → hex_decode (current w5) = Some raw).
Proof.
  intros He (S3 & St3 & L3) Hhd Hk Ek E5. destruct gen eqn:Eg; cbn [andb] in E5.
  - unfold gen in Eg. apply String.eqb_eq in Eg. destruct (encDryRun o) eqn:Ed; cbn [negb] in E5.
    { injection E5 as <- <-. split_and!; [by apply enabled_stop|done|done]. }
    rewrite wrapped_run in E5. destruct (BackupArtifact e id _ k w3) as [r6 w6] eqn:E6.
    apply BackupArtifact_run in E6 as (Ha6 & Hs6 & Hok6); [|done..]. destruct (apart_steady _ _ Ha6 S3) as [S6 L6].
    assert (w5 = w6) as -> by (by destruct r6; injection E5).
    assert (previous w6 = previous w) as Hp6.
    { destruct Hs6 as [Hs6|Hs6]; [unfold previous, escrowed; by rewrite Hs6, St3|]. apply current_after in Hs6 as [_ ->]. unfold previous, escrowed. by rewrite St3. }
    split_and!; [|congruence|].
    + unfold enabled. split_and!; [done|left; congruence|done|right; congruence|done].
    + intros -> _. destruct r6 as [[]|]; [|done]. destruct (Hok6 eq_refl) as [Hs _]. by apply current_after in Hs as [-> _].
  - injection E5 as <- <-. split_and!; [by apply enabled_stop|done|]. intros _ _. destruct Hk as [[-> _]|?]; [|done].
    assert (current w3 = current w) as -> by (unfold current, escrowed; by rewrite St3). by rewrite <- Hhd.
Qed.
(** The configuration and the class are applied. *)
Lemma apply_step o raw cls w w5 r w' : String.length raw = 32%nat → enabled o w (Err (Errorf "")) w5 → live_text w5 = live_text w →
  (encDryRun o = false → hex_decode (current w5) = Some raw) →
  (if encDryRun o then mret () else
     wrapped ("applying the provider configuration Secret in " +:+ ns)
       (apply_secret ck "enc.yaml" (enc_yaml (EncryptionKeyName 1) (b64_encode raw) "" "" (encNoFallback o))) ;;
     match cls with Some (f, c) => wrapped ("applying the ClusterClass from " +:+ f) (apply_manifest c) | None => mret () end) w5 = (r, w') →
  enabled o w r w'.
Proof.
  intros El H5 T5 D5. pose proof H5 as (S5 & _ & P5 & C5 & _).
  destruct (encDryRun o) eqn:Ed; [intros [= <- <-]; eapply enabled_after; [exact H5|by apply still_refl|auto]|].
  specialize (D5 eq_refl). rewrite bind_run, wrapped_run.
  destruct (apply_secret ck "enc.yaml" _ w5) as [r8 w8] eqn:E8. apply apply_secret_run in E8 as (S8 & St8 & L8 & Hok8); [|done].
  destruct key_one as [K1 K2]. assert (enabled o w r8 w8) as H8.
  { assert (current w8 = current w5 ∧ previous w8 = previous w5) as [C8 P8] by (unfold current, previous, escrowed; by rewrite St8).
    unfold enabled. rewrite C8, P8. split_and!; [done| |done|done|].
    - destruct L8 as [L8|L8]; [left; congruence|right]. eexists _, _. split; [exact L8|]. split; [by apply rendered_one|]. split; [done|]. eauto.
    - intros Hq _. exists raw. split_and!; [done|done|auto]. }
  destruct r8 as [[]|e8]; [|intros [= <- <-]; eapply enabled_after; [exact H8|by apply still_refl|done]].
  destruct cls as [[f c]|]; [|by intros [= <- <-]]. rewrite wrapped_run. destruct (apply_manifest c w8) as [r9 w9] eqn:E9.
  apply apply_manifest_run in E9; [|done]. destruct r9 as [[]|e9]; intros [= <- <-]; (eapply enabled_after; [exact H8|done|auto]).
Qed.
Lemma enable_run o w r w' : encBoxID o = box → encClusterName o = cluster → encNamespace o = ns → steady w →
  runEncryptionEnable o w = (r, w') → enabled o w r w'.
Proof.
  intros Hb Hc Hn Hw. unfold runEncryptionEnable. rewrite Hb, Hc, Hn. fold id.
  rewrite bind_run, wrapped_run. destruct (NewEscrowClient "" w) as [r1 w1] eqn:E1.
  apply NewEscrowClient_run in E1 as (Ha1 & Hs1 & He); [|by apply Hw]. assert (unmoved w w1) as U1 by (by apply apart_unmoved).
  destruct r1 as [e|e1]; [|intros [= <- <-]; by apply enabled_stop]. specialize (He e eq_refl).
  rewrite bind_run, wrapped_run. destruct (RestoreArtifact e id _ w1) as [r2 w2] eqn:E2.
  apply RestoreArtifact_run in E2 as (Ha2 & Hs2 & Hv2); [|done].
  assert (unmoved w w2) as U2 by (eapply still_trans; [exact U1|]; apply apart_unmoved; [done|done|by apply U1]).
  destruct r2 as [hd|e2]; [|intros [= <- <-]; by apply enabled_stop]. destruct (Hv2 Hcur hd eq_refl) as [Hheld _].
  assert (hd = current w) as Hhd by (rewrite Hheld; unfold current, escrowed; by rewrite Hs1).
  set (gen := String.eqb hd ""). rewrite bind_run. first_part r3 w3 E3.
  assert (unmoved w w3 ∧ ∀ k, r3 = Ok k → k = hd ∧ gen = false ∨ gen = true) as [U3 Hk].
  { destruct gen.
    - rewrite bind_run, wrapped_run in E3. destruct (rand32 w2) as [r4 w4] eqn:E4. apply rand32_run in E4 as [U4 _]; [|by apply U2].
      destruct r4 as [b|e4]; injection E3 as <- <-; (split; [by eapply still_trans|]); [|done]. intros k _. by right.
    - injection E3 as <- <-. split; [done|]. intros k [= <-]. by left. }
  destruct r3 as [k|e3]; [|intros [= <- <-]; by apply enabled_stop]. specialize (Hk k eq_refl).
  destruct (hex_decode k) as [raw|] eqn:Ek; [|intros [= <- <-]; by apply enabled_stop].
  destruct (String.length raw =? 32)%nat eqn:El; cbn [negb]; [|intros [= <- <-]; by apply enabled_stop]. apply Nat.eqb_eq in El.
  rewrite bind_run. first_part r5 w5 E5.
  eapply escrow_step in E5 as (H5 & T5 & D5); [|done..].
  destruct r5 as [[]|e5]; [|intros [= <- <-]; eapply enabled_after; [exact H5|apply still_refl, H5|done]].
  rewrite bind_run. set (file := if String.eqb (encClassFile o) "" then _ else _).
  first_part r7 w7 E7. assert (w7 = w5) as ->.
  { destruct (encApplyClass o); [|by injection E7]. rewrite bind_run, wrapped_run in E7. unfold readClusterClass in E7.
    fold file in E7. destruct (ReadManifest file) as [?|]; [by injection E7|]. by destruct (ReadEmbedded file); injection E7. }
  destruct r7 as [cls|e7]; [|intros [= <- <-]; eapply enabled_after; [exact H5|apply still_refl, H5|done]].
  intros E. apply (apply_step o raw ((λ c, (file, c)) <$> cls) w w5); [done|done|done|auto|]. by destruct cls.
Qed.
Lemma enable_keeps o w r u : keys_held w → enabled o w r u → keys_held u.
Proof.
  intros Hk (_ & Hl & Hp & Hc & _) t Ht. destruct Hl as [Hl|(t' & z & Ht' & Hz & _ & raw & Hb & Hr & Hx)].
  - rewrite Hl in Ht. eapply Forall_impl; [exact (Hk t Ht)|]. intros v (raw & Hv & Hlen & Hin). exists raw. rewrite Hp. split_and!; [done|done|].
    destruct Hin as [Hin|Hin]; [|by right]. destruct Hc as [->|Hc]; [by left|]. rewrite Hc in Hin. injection Hin as <-. done.
  - rewrite Ht' in Ht. injection Ht as ->. apply parse_values in Hz as [-> _]. apply Forall_singleton. rewrite Hb. exists raw.
    split_and!; [apply b64_roundtrip|done|by left].
Qed.

(** ** rotate *)

Definition plaintext_readable (t : string) : bool := HasSuffix t ("      - identity: {}" +:+ nl).
Lemma rendered_plaintext n1 k1 n2 k2 : plaintext_readable (renderConfig n1 k1 n2 k2) = true.
Proof.
  assert (∀ a b, text (a ++ b)%list = text a +:+ text b) as Happ.
  { assert (∀ c l, text (c :: l) = (c +:+ nl) +:+ text l) as Hc by (intros c [|d l]; [by rewrite str_app_nil_r|done]).
    induction a as [|c a IH]; intros b; [done|]. cbn [app]. rewrite !Hc, IH. by rewrite str_app_assoc. }
  unfold renderConfig, enc_yaml. rewrite Happ, Happ. unfold plaintext_readable. change (text ["      - identity: {}"]) with ("      - identity: {}" +:+ nl).
  rewrite str_app_assoc. apply HasSuffix_app.
Qed.
Lemma scan_values n1 k1 n2 k2 : solid n1 = true → solid k1 = true → (n2 ≠ "" → solid n2 = true ∧ solid k2 = true) →
  secretLine (renderConfig n1 k1 n2 k2) = k1 :: (if String.eqb n2 "" then [] else [k2]).
Proof. intros H1 H2 H3. unfold renderConfig. destruct (scan_rendered n1 k1 n2 k2 false H1 H2 H3) as [_ ->]. unfold rendered_keys. by destruct (String.eqb n2 ""). Qed.

(** What a run of rotate has done by the time it is in [u], [l] being the keys it found. *)
Definition rotated o (l : list keyEntry) (q : result error unit) u : Prop :=
  steady u ∧ keys_held u
  ∧ (q = Ok () → ro_dryRun o = false → ∃ t, live_text u = Some t ∧ plaintext_readable t = true
       ∧ if finalize o then ∃ x l', l = x :: l' ∧ l' ≠ [] ∧ parse_config t = Ok [x]
         else ∃ x raw, l = [x] ∧ t = renderConfig (EncryptionKeyName (as_int64 (generation x + 1))) (b64_encode raw) (name x) (b64 x)
                ∧ String.length raw = 32%nat ∧ hex_decode (current u) = Some raw).
Lemma rotated_stop o l q u : steady u → keys_held u → (q = Ok () → ro_dryRun o = true) → rotated o l q u.
Proof. intros Hs Hk Hq. split_and!; [done|done|]. intros H1 H2. rewrite (Hq H1) in H2. done. Qed.

Lemma finalize_run o l t w r w' : ro_box o = box → ro_cluster o = cluster → ro_namespace o = ns → finalize o = true →
  steady w → keys_held w → live_text w = Some t → parse_config t = Ok l →
  finalizeRotation o l w = (r, w') → rotated o l r w'.
Proof.
  intros Hb Hc Hn Hf Hw Hk Ht Hl. unfold finalizeRotation. destruct l as [|x [|y l]]; [by intros [= <- <-]; apply rotated_stop..|].
  destruct (ro_dryRun o) eqn:Ed; [by intros [= <- <-]; apply rotated_stop|].
  unfold applyManifest. rewrite Hc, Hn. fold ck. rewrite wrapped_run. destruct (apply_secret ck "enc.yaml" _ w) as [r1 w1] eqn:E1.
  apply apply_secret_run in E1 as (S1 & St1 & L1 & O1); [|done]. destruct (store_eq _ _ St1) as [C1 P1].
  pose proof (parse_proper _ _ Hl) as [[Hx _]%Forall_cons _]. pose proof (proj1 (parse_values _ _ Hl)) as Hv.
  assert (parse_config (renderConfig (name x) (b64 x) "" "") = Ok [x]) as Hp by (by apply (config_parses x None false)).
  assert (keys_held w1) as K1.
  { intros t1 Ht1. pose proof (Hk t Ht) as Hk'. rewrite Hv in Hk'. destruct L1 as [L1|L1]; rewrite L1 in Ht1.
    - rewrite Ht in Ht1. injection Ht1 as <-. rewrite Hv. eapply Forall_impl; [exact Hk'|]. intros v. by apply in_escrow_eq.
    - injection Ht1 as <-. rewrite (proj1 (parse_values _ _ Hp)). apply Forall_cons in Hk' as [Hk' _]. apply Forall_singleton.
      eapply in_escrow_eq; done. }
  destruct r1 as [[]|e1]; intros [= <- <-]; (split_and!; [done|done|]); [|done]. intros _ _. rewrite Hf. eexists. split; [by apply O1|].
  split; [apply rendered_plaintext|]. exists x, (y :: l). done.
Qed.
Lemma stage_run o e l t w r w' : ro_box o = box → ro_cluster o = cluster → ro_namespace o = ns → finalize o = false → at_ base project e →
  steady w → keys_held w → live_text w = Some t → parse_config t = Ok l →
  stageRotation o e l w = (r, w') → rotated o l r w'.
Proof.
  intros Hb Hc Hn Hf He Hw Hk Ht Hl. unfold stageRotation. pose proof (parse_proper _ _ Hl) as [HP Hne].
  destruct l as [|x [|y l]]; [done| |by intros [= <- <-]; apply rotated_stop]. apply Forall_cons in HP as [HP _].
  pose proof (proj1 (parse_values _ _ Hl)) as Hv. rewrite bind_run, wrapped_run. destruct (rand32 w) as [r1 w1] eqn:E1.
  apply rand32_run in E1 as [U1 Hlen]; [|done]. pose proof (keys_held_unmoved _ _ U1 Hk) as K1. pose proof U1 as (S1 & St1 & L1).
  destruct r1 as [raw|e1]; [|by intros [= <- <-]; apply rotated_stop]. specialize (Hlen raw eq_refl).
  destruct (ro_dryRun o) eqn:Ed; [by intros [= <- <-]; apply rotated_stop|].
  unfold decodeKeyToHex. destruct (b64_decode (b64 x)) as [old|] eqn:Eo; [|by intros [= <- <-]; apply rotated_stop].
  destruct (String.length old =? 32)%nat eqn:El; [|by intros [= <- <-]; apply rotated_stop]. apply Nat.eqb_eq in El.
  rewrite Hb, Hc. fold id. rewrite bind_run, wrapped_run.
  destruct (BackupArtifact e id ArtifactSecretEncryptionKeyPrevious (hex_encode old) w1) as [r2 w2] eqn:E2.
  apply BackupArtifact_run in E2 as (A2 & St2 & O2); [|done..]. destruct (apart_steady _ _ A2 S1) as [S2 L2].
  (* from here on the only key of the configuration is the one in the previous slot, or as it was *)
  assert (∀ u, live_text u = Some t → in_escrow u (b64 x) → keys_held u) as Hone.
  { intros u Hu Hin t' Ht'. rewrite Hu in Ht'. injection Ht' as <-. rewrite Hv. by apply Forall_singleton. }
  assert (live_text w2 = Some t) as T2 by congruence. assert (in_escrow w1 (b64 x)) as I1.
  { assert (live_text w1 = Some t) as T1 by congruence. pose proof (K1 t T1) as HF. rewrite Hv in HF. by apply Forall_cons in HF as [HF _]. }
  assert (in_escrow w2 (b64 x)) as I2.
  { destruct St2 as [St2|St2]; [destruct (store_eq _ _ St2); by apply (in_escrow_eq w1)|]. apply previous_after in St2 as [_ Hp2].
    exists old. split_and!; [done|done|right]. by rewrite Hp2, hex_roundtrip. }
  destruct r2 as [[]|e2]; [|intros [= <- <-]; apply rotated_stop; [done|by apply Hone|done]]. destruct (O2 eq_refl) as [Hp2 _]. apply previous_after in Hp2 as [_ Hp2].
  rewrite bind_run, wrapped_run. destruct (BackupArtifact e id ArtifactSecretEncryptionKey (hex_encode raw) w2) as [r3 w3] eqn:E3.
  apply BackupArtifact_run in E3 as (A3 & St3 & O3); [|done..]. destruct (apart_steady _ _ A3 S2) as [S3 L3].
  assert (live_text w3 = Some t) as T3 by congruence. assert (previous w3 = hex_encode old) as P3.
  { destruct St3 as [St3|St3]; [by destruct (store_eq _ _ St3) as [_ ->]|by apply current_after in St3 as [_ ->]]. }
  assert (in_escrow w3 (b64 x)) as I3 by (exists old; split_and!; [done|done|right; by rewrite P3, hex_roundtrip]).
  destruct r3 as [[]|e3]; [|intros [= <- <-]; apply rotated_stop; [done|by apply Hone|done]]. destruct (O3 eq_refl) as [Hc3 _]. apply current_after in Hc3 as [Hc3 _].
  unfold applyManifest. rewrite Hc, Hn. fold ck. rewrite wrapped_run. destruct (apply_secret ck "enc.yaml" _ w3) as [r4 w4] eqn:E4.
  apply apply_secret_run in E4 as (S4 & St4 & L4 & O4); [|done]. destruct (store_eq _ _ St4) as [C4 P4].
  assert (in_escrow w4 (b64 x) ∧ in_escrow w4 (b64_encode raw)) as [I4 J4].
  { split; [by apply (in_escrow_eq w3)|]. exists raw. rewrite C4, Hc3. split_and!; [apply b64_roundtrip|done|left; apply hex_roundtrip]. }
  destruct HP as (HP1 & HP2 & HP3). assert (name x ≠ "") as Hnx by (intros Hx; by rewrite Hx in HP1).
  assert (keys_held w4) as K4.
  { destruct L4 as [L4|L4]; [apply Hone; [congruence|done]|]. intros t' Ht'. rewrite L4 in Ht'. injection Ht' as <-.
    rewrite scan_values; [|apply generation_solid|apply solid_b64; by intros ->|done]. rewrite (proj2 (String.eqb_neq _ _) Hnx). by repeat constructor. }
  destruct r4 as [[]|e4]; intros [= <- <-]; (split_and!; [done|done|]); [|done]. intros _ _. rewrite Hf. eexists. split; [by apply O4|].
  split; [apply rendered_plaintext|]. exists x, raw. rewrite C4, Hc3. split_and!; [done|done|done|apply hex_roundtrip].
Qed.
Lemma rotate_run o w r w' : ro_box o = box → ro_cluster o = cluster → ro_namespace o = ns → steady w → keys_held w →
  runEncryptionRotate o w = (r, w') →
  steady w' ∧ keys_held w' ∧ (r = Ok () → ∃ t l, live_text w = Some t ∧ parse_config t = Ok l ∧ rotated o l r w').
Proof.
  intros Hb Hc Hn Hw Hk. unfold runEncryptionRotate. rewrite bind_run, wrapped_run. destruct (NewEscrowClient "" w) as [r1 w1] eqn:E1.
  apply NewEscrowClient_run in E1 as (Ha1 & Hs1 & He); [|by apply Hw]. assert (unmoved w w1) as U1 by (by apply apart_unmoved).
  destruct r1 as [e|e1]; [|intros [= <- <-]; split_and!; [apply U1|by eapply keys_held_unmoved|done]]. specialize (He e eq_refl).
  rewrite bind_run. destruct (readLiveKeys o w1) as [r2 w2] eqn:E2. unfold readLiveKeys in E2. rewrite Hc, Hn in E2. fold ck in E2.
  rewrite bind_run, wrapped_run, bind_run in E2. destruct (get_secret ck w1) as [r3 w3] eqn:E3.
  apply get_secret_run in E3 as [U3 Hg]; [|by apply U1]. assert (unmoved w w3) as U by (by eapply still_trans).
  pose proof (keys_held_unmoved _ _ U Hk) as K3. assert (w2 = w3) as ->.
  { destruct r3 as [[s|]|e3]; [|by injection E2|by injection E2]. cbn in E2. by destruct (parse_config _); injection E2. }
  destruct r2 as [l|e2]; [|intros [= <- <-]; split_and!; [apply U|done|done]].
  destruct r3 as [[s|]|e3]; [|done|done]. cbn in E2. specialize (Hg _ eq_refl). destruct (sec_Data s !! "enc.yaml") as [t|] eqn:Et; [|done].
  destruct (parse_config t) as [l'|] eqn:Hl; cbn in E2; rewrite Hl in E2; [|done]. injection E2 as ->.
  assert (live_text w3 = Some t) as T3 by (unfold live_text; rewrite <- Hg; done). assert (live_text w = Some t) as T by (destruct U as (_ & _ & <-); done).
  assert (∀ q u, rotated o l q u → steady u ∧ keys_held u ∧ (q = Ok () → ∃ t l, live_text w = Some t ∧ parse_config t = Ok l ∧ rotated o l q u)) as Hfin.
  { intros q u Hr. split_and!; [apply Hr|apply Hr|]. intros _. eauto. }
  destruct (finalize o) eqn:Ef; intros E; apply Hfin; [apply (finalize_run o l t w3)|apply (stage_run o e l t w3)]; try done; apply U.
Qed.
(** ** Histories *)

(** The commands are run for the cluster with any options and end in any way; between them
    anything else may happen that leaves the configuration, the two places of the escrow
    and the settings alone. *)
Inductive step w w' : Prop :=
| step_enable o r : encBoxID o = box → encClusterName o = cluster → encNamespace o = ns →
    runEncryptionEnable o w = (r, w') → step w w'
| step_rotate o r : ro_box o = box → ro_cluster o = cluster → ro_namespace o = ns →
    runEncryptionRotate o w = (r, w') → step w w'
| step_other : steady w' → live_text w' = live_text w → current w' = current w → previous w' = previous w → step w w'.
Lemma step_keeps w w' : step w w' → steady w → keys_held w → steady w' ∧ keys_held w'.
Proof.
  intros [o r Hb Hc Hn E|o r Hb Hc Hn E|Hs Hl Hc Hp] Hw Hk.
  - apply enable_run in E as He; [|done..]. split; [apply He|by eapply enable_keeps].
  - apply rotate_run in E as (? & ? & _); done.
  - split; [done|]. intros t Ht. rewrite Hl in Ht. eapply Forall_impl; [exact (Hk t Ht)|]. intros v. by apply in_escrow_eq.
Qed.
(** C8: No key is in use without a copy outside the cluster: over every history of enabling and
    rotating, in both stages, with whatever options and whatever fails on the way, every
    key of the live configuration is held by the escrow, as the current key or as the
    previous one. *)
Theorem keys_always_escrowed w w' : rtc step w w' → steady w → keys_held w → keys_held w'.
Proof.
  intros H. induction H as [w|w1 w2 w3 Hs _ IH]; [done|]. intros Hw Hk. destruct (step_keeps _ _ Hs Hw Hk). auto.
Qed.

(** ** What a rotation keeps readable *)

(** C34: A rotation makes nothing unreadable: its first stage puts a key of the next generation,
    whose name is not in use, before the key it found, which stays; its second stage keeps
    the write key, and only of a configuration that had another. *)
Theorem rotation_keeps_readable o w w' : ro_box o = box → ro_cluster o = cluster → ro_namespace o = ns → ro_dryRun o = false →
  steady w → keys_held w → runEncryptionRotate o w = (Ok (), w') →
  ∃ t l t', live_text w = Some t ∧ parse_config t = Ok l ∧ live_text w' = Some t'
    ∧ if finalize o then ∃ x l', l = x :: l' ∧ l' ≠ [] ∧ parse_config t' = Ok [x]
      else ∃ x, l = [x] ∧ ((generation x < 2^63 - 1)%Z →
        ∃ y, parse_config t' = Ok [y; x] ∧ generation y = (generation x + 1)%Z ∧ name y ≠ name x).
Proof.
  intros Hb Hc Hn Hd Hw Hk E. apply rotate_run in E as (_ & _ & Hr); [|done..]. destruct (Hr eq_refl) as (t & l & Ht & Hl & _ & _ & Hok).
  destruct (Hok eq_refl Hd) as (t' & Ht' & _ & Hshape). exists t, l, t'. split_and!; [done..|].
  destruct (finalize o); [done|]. destruct Hshape as (x & raw & -> & -> & Hraw & _). exists x. split; [done|]. intros Hg.
  pose proof (parse_proper _ _ Hl) as [[Hx _]%Forall_cons _]. pose proof Hx as (_ & _ & Hgx). pose proof (generation_nonneg _ _ Hgx) as Hge.
  assert (as_int64 (generation x + 1) = generation x + 1)%Z as ->.
  { unfold as_int64. change (2^64)%Z with (2 * 2^63)%Z. rewrite Z.mod_small; lia. }
  set (y := mkEntry (EncryptionKeyName (generation x + 1)) (generation x + 1) (b64_encode raw)). exists y.
  assert (proper y) as Hy.
  { split_and!; [apply generation_solid|apply solid_b64; by intros ->|apply (generation_name (generation x + 1)); lia]. }
  split_and!; [|done|].
  - apply (config_parses y (Some x) false Hy). by intros ? [= <-].
  - intros En. destruct Hy as (_ & _ & Hgy). rewrite En, Hgx in Hgy. injection Hgy. cbn. lia.
Qed.
(** A rotation lets plaintext be read again, also where that had been ended. *)
Theorem rotation_reopens_plaintext o w w' : ro_box o = box → ro_cluster o = cluster → ro_namespace o = ns → ro_dryRun o = false →
  steady w → keys_held w → runEncryptionRotate o w = (Ok (), w') →
  ∃ t', live_text w' = Some t' ∧ plaintext_readable t' = true.
Proof.
  intros Hb Hc Hn Hd Hw Hk E. apply rotate_run in E as (_ & _ & Hr); [|done..]. destruct (Hr eq_refl) as (t & l & _ & _ & _ & _ & Hok).
  destruct (Hok eq_refl Hd) as (t' & Ht' & Hp & _). eauto.
Qed.

(** ** Enabling once more *)

(** An object sealed under a key is read by a configuration that has it, by its name. *)
Definition opens (l : list keyEntry) y : Prop := ∃ z, z ∈ l ∧ name z = name y ∧ b64 z = b64 y.
(** C39: Enabling encryption on a cluster that has it takes keys in use out of its configuration.
    What it applies is one key, the one the escrow holds as current, under the name of the
    first generation: after a rotation, or after one that was escrowed and not applied, the
    objects sealed under any other name or with any other key can no longer be read. *)
Theorem enable_drops_keys o w w' t l y : encBoxID o = box → encClusterName o = cluster → encNamespace o = ns → encDryRun o = false →
  steady w → current w ≠ "" → live_text w = Some t → parse_config t = Ok l →
  y ∈ l → name y ≠ EncryptionKeyName 1 ∨ hex_decode (current w) ≠ b64_decode (b64 y) →
  runEncryptionEnable o w = (Ok (), w') →
  ∃ t' l', live_text w' = Some t' ∧ parse_config t' = Ok l' ∧ ¬ opens l' y.
Proof.
  intros Hb Hc Hn Hd Hw Hcur' Ht Hl Hy Hne E. apply enable_run in E as (_ & _ & _ & Hcc & Hok); [|done..].
  destruct (Hok eq_refl Hd) as (raw & Hraw & Hx & Ht'). destruct key_one as [K1 K2]. eexists _, _. split; [exact Ht'|].
  split; [by apply rendered_one|]. intros (z & Hz & En & Eb). apply list_elem_of_singleton in Hz as ->. cbn in En, Eb.
  destruct Hcc as [Hcc|?]; [|done]. destruct Hne as [Hne|Hne]; [done|]. apply Hne. by rewrite <- Eb, b64_roundtrip, <- Hcc.
Qed.
End encryption.
