(* ===== verification/Recovery.v ===== *)
(** * Recovery: the commands that put a box back together from its escrow.

    Models cmd/kakt: spoke_restore_pki.go, escrow_migrate_paths.go, escrow_verify.go,
    escrow_enroll_store_credential.go, escrow_enroll_provider_credential.go,
    escrow_deliver_backup_credentials.go, escrow.go and kubeconfig.go, and
    internal/kakt-cli/hubaccess/hubaccess.go. JSON and YAML documents, the digests that are
    reported and the session of a person who has logged in are the parameter [Desk]. Of
    what is printed only the outcome that it reports is kept. *)

From S2P Require Import Prelude.
From S2P Require Import GoRuntime.
From S2P Require Import Codec.
From S2P Require Import Escrow.
From S2P Require Import EscrowSite.

Local Open Scope string_scope.

(** A box's declaration: boxId, clusterName, escrow.url, escrow.projectId. *)
Record Declared := mkDeclared { d_boxId : string; d_clusterName : string; d_url : string; d_projectId : string }.
Class Desk := {
  decode_data : string → option (gmap string string);
  fingerprintData : gmap string string → string;
  decode_declaration : string → option Declared;
  session_current : string → result error (string * string) }.   (* token and email *)

Definition with_host (f : Host → Host) {R : Remote} {K} (w : World K) : World K := mkWorld (remote w) (asked w) (f (host w)) (rest w).
Definition data := gmap string string.

Section files.
Context {R : Remote} {K : Type}.
Abbreviation M A := (goM (World K) error A).
(** os.WriteFile *)
Definition write_file (path body : string) : M unit :=
  o ← gets (λ w, (next_outcome (disk (host w))).1);
  modify (with_host (λ h, mkHost (environ h) (cwd h) (dirs h) (files h) (next_outcome (disk h)).2)) ;;
  let write := modify (with_host (λ h, mkHost (environ h) (cwd h) (dirs h) (<[path := body]> (files h)) (disk h))) in
  match o with
  | Done => write
  | Lost => errorf ("write " +:+ path)
  | Unknown => write ;; errorf ("write " +:+ path)
  end.
(** os.MkdirAll *)
Definition make_dirs (path : string) : M unit :=
  o ← gets (λ w, (next_outcome (disk (host w))).1);
  modify (with_host (λ h, mkHost (environ h) (cwd h) (dirs h) (files h) (next_outcome (disk h)).2)) ;;
  let write := modify (with_host (λ h, mkHost (environ h) (cwd h) ({[path]} ∪ dirs h) (files h) (disk h))) in
  match o with
  | Done => write
  | Lost => errorf ("create " +:+ path)
  | Unknown => write ;; errorf ("create " +:+ path)
  end.
Definition read_file (path : string) : M (option string) := gets (λ w, files (host w) !! path).
End files.

(** ** spoke restore-pki *)

Inductive pkiDecision := pkiRestore | pkiAlreadyPresent | pkiConflict | pkiMissing.
Definition decidePKI (escrowed live : data) (liveFound : bool) : pkiDecision :=
  if bool_decide (escrowed = ∅) then pkiMissing
  else if negb liveFound then pkiRestore
  else if bool_decide (live = escrowed) then pkiAlreadyPresent
  else pkiConflict.
Definition clusterIsPaused (c : ClusterObject) : bool :=
  spec_paused c || bool_decide (is_Some (annotations c !! "cluster.x-k8s.io/paused")).
Record restorePKIOpts := mkRestore { rp_box : string; rp_cluster : string; rp_dryRun : bool }.

Section commands.
Context {R : Remote} {D : Desk}.
Abbreviation W := (World Site).
Abbreviation M A := (goM W error A).

Definition liveSecret (name : string) : M (data * bool) :=
  s ← get_secret (capiNamespace, name);
  mret match s with Some s => (sec_Data s, true) | None => (∅, false) end.
Definition createSecret (o : restorePKIOpts) (name : string) (d : data) : M unit :=
  create_secret (capiNamespace, name) capiClusterSecretType {[capiClusterNameLabel := rp_cluster o]} d.
Definition requirePaused (o : restorePKIOpts) : M unit :=
  c ← wrapped ("reading Cluster " +:+ rp_cluster o) (get_cluster (rp_cluster o));
  match c with
  | None => mret ()
  | Some c => if clusterIsPaused c then mret ()
              else errorf ("Cluster " +:+ rp_cluster o +:+ " is not paused, so Cluster API is free to act on it while this writes.")
  end.

(** The purposes so far: what failed, how many were restored and how many were in place. *)
Record tally := mkTally { failures : list string; restored_n : nat; present_n : nat }.
Definition failed (t : tally) (m : string) : tally := mkTally (failures t ++ [m]) (restored_n t) (present_n t).
Definition one_present (t : tally) : tally := mkTally (failures t) (restored_n t) (S (present_n t)).
Definition one_restored (t : tally) : tally := mkTally (failures t) (S (restored_n t)) (present_n t).

(** The Secret was not there when it was looked for: it is created, or found to have appeared. *)
Definition restore_absent (o : restorePKIOpts) (purpose : string) (escrowed : data) (t : tally) : M tally :=
  let secretName := rp_cluster o +:+ "-" +:+ purpose in
  if rp_dryRun o then mret t
  else
    r ← attempt (createSecret o secretName escrowed);
    match r with
    | Ok _ => mret (one_restored t)
    | Err e =>
        if bool_decide (err_is e = AlreadyExists) then
          l ← attempt (liveSecret secretName);
          match l with
          | Err e => mret (failed t (purpose +:+ ": " +:+ secretName +:+ " appeared while restoring and could not be re-read: " +:+ Error e))
          | Ok (live, found) =>
              match decidePKI escrowed live found with
              | pkiAlreadyPresent => mret (one_present t)
              | _ => mret (failed t (purpose +:+ ": " +:+ secretName +:+ " appeared while restoring and does NOT match the escrowed "
                                     +:+ SpokePKIArtifact purpose +:+ " (live " +:+ fingerprintData live +:+ ", escrowed "
                                     +:+ fingerprintData escrowed +:+ ")"))
              end
          end
        else mret (failed t (purpose +:+ ": " +:+ Error e))
    end.
Definition restore_purpose (o : restorePKIOpts) (store : infisicalEscrow) (t : tally) (purpose : string) : M tally :=
  let artifact := SpokePKIArtifact purpose in
  let secretName := rp_cluster o +:+ "-" +:+ purpose in
  p ← attempt (RestoreArtifact store (ForCluster (rp_box o) (rp_cluster o)) artifact);
  match p with
  | Err e => mret (failed t (purpose +:+ ": reading the escrow: " +:+ Error e))
  | Ok payload =>
      match (if String.eqb payload "" then Some ∅ else decode_data payload) with
      | None => mret (failed t (purpose +:+ ": the escrowed " +:+ artifact +:+ " is not readable as a secret's data"))
      | Some escrowed =>
          l ← attempt (liveSecret secretName);
          match l with
          | Err e => mret (failed t (purpose +:+ ": reading " +:+ secretName +:+ ": " +:+ Error e))
          | Ok (live, found) =>
              match decidePKI escrowed live found with
              | pkiMissing => mret (failed t (purpose +:+ ": the escrow holds no " +:+ artifact +:+ " for " +:+ rp_cluster o))
              | pkiAlreadyPresent => mret (one_present t)
              | pkiConflict => mret (failed t (purpose +:+ ": " +:+ secretName +:+ " on this hub does NOT match the escrowed "
                                               +:+ artifact +:+ " (live " +:+ fingerprintData live +:+ ", escrowed " +:+ fingerprintData escrowed +:+ ")"))
              | pkiRestore => restore_absent o purpose escrowed t
              end
          end
      end
  end.
Definition runSpokeRestorePKI (o : restorePKIOpts) : M unit :=
  if String.eqb (TrimSpace (rp_box o)) "" || String.eqb (TrimSpace (rp_cluster o)) ""
  then errorf "--box and --cluster are both required: the escrow keys a cluster's PKI by the box that owns it (ADR-111)"
  else
    store ← wrapped "no escrow to restore from" (NewEscrowClient "");
    requirePaused o ;;
    t ← foldM (restore_purpose o store) SpokePKIPurposes (mkTally [] 0 0);
    match failures t with
    | [] => mret ()
    | fs => errorf (rp_cluster o +:+ " cannot be managed from this hub yet, because its trust roots are not all in place: " +:+ Join fs ", ")
    end.

(** ** escrow migrate-paths *)

Definition migrated_artifacts : list string :=
  [ArtifactKubeconfig; ArtifactSecretEncryptionKey; ArtifactSecretEncryptionKeyPrevious].
Definition migrate_one (box : string) (store : infisicalEscrow) (fs : list string) (ca : string * string) : M (list string) :=
  r ← attempt (MigrateArtifactPath store (ForCluster box ca.1) ca.2);
  mret match r with Ok _ => fs | Err e => (fs ++ [ca.1 +:+ "/" +:+ ca.2 +:+ ": " +:+ Error e])%list end.
Definition runEscrowMigratePaths (box : string) (names : list string) : M unit :=
  if String.eqb (TrimSpace box) "" then errorf "--box is required: the scoped path is keyed by it"
  else
    match names with
    | [] => errorf "--cluster is required: name the hub and every spoke, because each has its own artefacts and its own path"
    | _ =>
        store ← wrapped "no escrow to migrate" (NewEscrowClient "");
        let cs := List.filter (λ c, negb (String.eqb c "")) (TrimSpace <$> names) in
        fs ← foldM (migrate_one box store) (c ← cs; a ← migrated_artifacts; [(c, a)]) [];
        match fs with
        | [] => mret ()
        | _ => errorf (pretty (length fs) +:+ " artefact(s) did not migrate")
        end
    end.

(** ** escrow verify *)

Definition required : list (string * bool) :=       (* artefact, and whether the hub alone has it *)
  ([(ArtifactKubeconfig, false); (ArtifactSecretEncryptionKey, false); ("infisical-master-keys", true);
    (ArtifactZitadelMasterkey, true); (ArtifactBackupSSECKey, true)]
   ++ ((λ p, (SpokePKIArtifact p, false)) <$> SpokePKIPurposes))%list.
Definition verify_one (store : infisicalEscrow) (id : Identity) (isHub : bool) (missing : nat) (q : string * bool) : M nat :=
  if q.2 && negb isHub then mret missing
  else
    r ← attempt (RestoreArtifact store id q.1);
    mret match r with
         | Err _ => S missing
         | Ok v => if String.eqb v "" then S missing else missing
         end.
Definition runEscrowVerify (box cluster : string) (isHub isSpoke : bool) : M unit :=
  store ← wrapped "no escrow to verify" (NewEscrowClient "");
  if negb isHub && negb isSpoke then errorf "say which this cluster is: --hub for the management cluster, --workload for a workload cluster."
  else
    missing ← foldM (verify_one store (ForCluster box cluster) isHub) required 0%nat;
    if (0 <? missing)%nat then errorf (pretty missing +:+ " required escrow artefact(s) absent for " +:+ quoted cluster)
    else mret ().

(** ** escrow enroll-store-credential *)

(** A line of the INI file: its key in lower case and its value, or the head of a section, or
    neither. *)
Inductive iniLine := IniSection (named : bool) | IniPair (k v : string) | IniOther.
Definition ini_line (l : string) : iniLine :=
  let t := TrimSpace l in
  if String.eqb t "" || HasPrefix t "#" || HasPrefix t ";" then IniOther
  else if HasPrefix t "[" && HasSuffix t "]" then IniSection (2 <? String.length t)%nat
  else let '(k, v, found) := Cut t "=" in
       if (found : bool) then IniPair (ToLower (TrimSpace k)) (TrimSpace v) else IniOther.
Definition ini_lines (cred : string) : list iniLine := ini_line <$> Split cred "010".
Definition has_value (k : string) (x : iniLine) : bool :=
  match x with IniPair k' v => String.eqb k' k && negb (String.eqb v "") | _ => false end.
Definition validateStoreCredential (cred : string) : option error :=
  let ls := ini_lines cred in
  let missing := missing_of
    [("a profile section such as [default]", if existsb (λ x, match x with IniSection b => b | _ => false end) ls then "y" else "");
     ("a non-empty aws_access_key_id", if existsb (has_value "aws_access_key_id") ls then "y" else "");
     ("a non-empty aws_secret_access_key", if existsb (has_value "aws_secret_access_key") ls then "y" else "")] in
  match missing with
  | [] => None
  | _ => Some (Errorf ("the credential on stdin is not the INI file the plugin reads; it is missing " +:+ Join missing ", " +:+ ". Nothing was escrowed"))
  end.
(** [stdin] is what is piped in, None where it cannot be read. *)
Definition runEnrollStoreCredential (box : string) (rotate : bool) (stdin : option string) : M unit :=
  if String.eqb (TrimSpace box) "" then errorf "--box is required: the credential is the box's and outlives every cluster in it (ADR-111 §1)"
  else
    match stdin with
    | None => errorf "reading the credential from stdin"
    | Some payload =>
        let cred := TrimSpace payload in
        if String.eqb cred "" then errorf "stdin was empty."
        else
          or_refuse (validateStoreCredential cred) ;;
          store ← wrapped "no escrow to enrol into" (NewEscrowClient "");
          let id := ForCluster box box in
          existing ← wrapped "reading the escrow" (RestoreArtifact store id ArtifactBackupStoreCredential);
          if String.eqb existing cred then mret ()
          else if negb (String.eqb existing "") && negb rotate
          then errorf ("box " +:+ box +:+ " already has an escrowed " +:+ ArtifactBackupStoreCredential +:+ ", and this is a different one.")
          else wrapped "escrow the credential" (BackupArtifact store id ArtifactBackupStoreCredential cred)
    end.

(** ** hubaccess *)

Record Coordinates := mkCoordinates { co_box : string; co_cluster : string; EscrowURL : string; EscrowProjectID : string }.
Definition declarationPath (gitopsDir clusterName : string) : string :=
  gitopsDir +:+ "/registry/clusters/" +:+ clusterName +:+ "/values.yaml".
Definition readDeclaration (gitopsDir clusterName : string) : M Coordinates :=
  if String.eqb (TrimSpace gitopsDir) "" then errorf "no gitops directory"
  else if String.eqb (TrimSpace clusterName) "" then errorf "no cluster name: these declarations belong to one cluster"
  else
    let path := declarationPath gitopsDir clusterName in
    raw ← read_file path;
    match raw with
    | None => errorf ("read the box's declarations at " +:+ path)
    | Some raw =>
        match decode_declaration raw with
        | None => errorf ("parse " +:+ path)
        | Some d =>
            let c := TrimSpace (d_clusterName d) in
            mret (mkCoordinates (TrimSpace (d_boxId d)) (if String.eqb c "" then clusterName else c)
                    (TrimSpace (d_url d)) (TrimSpace (d_projectId d)))
        end
    end.
Definition Declaration (gitopsDir clusterName : string) : M Coordinates :=
  c ← readDeclaration gitopsDir clusterName;
  let path := declarationPath gitopsDir clusterName in
  if String.eqb (co_box c) "" then errorf (path +:+ " declares no boxId")
  else if String.eqb (EscrowURL c) "" || String.eqb (EscrowProjectID c) "" then errorf (path +:+ " declares no escrow coordinates.")
  else mret c.
Definition DeclaredBoxID (gitopsDir clusterName : string) : M string :=
  c ← readDeclaration gitopsDir clusterName;
  if String.eqb (co_box c) "" then errorf (declarationPath gitopsDir clusterName +:+ " declares no boxId") else mret (co_box c).
(** The store and who opened it. *)
Definition Open (c : Coordinates) : M (infisicalEscrow * string) :=
  h ← gets host;
  if negb (String.eqb (Getenv h "INFISICAL_ESCROW_CLIENT_ID") "") then
    store ← wrapped "the escrow machine identity in the environment did not authenticate" (NewEscrowClient "");
    mret (store, "the machine identity in INFISICAL_ESCROW_CLIENT_ID")
  else
    match session_current (EscrowURL c) with
    | Err e => throw e
    | Ok (tok, email) =>
        store ← wrapped (email +:+ " could not open the escrow for this box")
                  (NewEscrowClientForToken (EscrowURL c) (EscrowProjectID c) tok);
        mret (store, email)
    end.
Definition Artifact_ (a : infisicalEscrow * string) (boxID clusterName name : string) : M string :=
  wrapped (a.2 +:+ " could not read " +:+ name +:+ " for box " +:+ boxID) (RestoreArtifact a.1 (ForCluster boxID clusterName) name).
Definition PutArtifact (a : infisicalEscrow * string) (boxID clusterName name payload : string) : M unit :=
  wrapped (a.2 +:+ " could not write " +:+ name +:+ " for box " +:+ boxID) (BackupArtifact a.1 (ForCluster boxID clusterName) name payload).
Definition Kubeconfig (a : infisicalEscrow * string) (boxID clusterName : string) : M string :=
  payload ← wrapped (a.2 +:+ " could not read the escrowed kubeconfig for " +:+ clusterName)
              (RestoreArtifact a.1 (ForCluster boxID clusterName) ArtifactKubeconfig);
  if String.eqb payload "" then errorf ("the escrow holds no kubeconfig for " +:+ clusterName +:+ " under box " +:+ boxID +:+ ".") else mret payload.
Definition Provider (a : infisicalEscrow * string) (boxID provider : string) : M string :=
  payload ← Artifact_ a boxID boxID (ProviderCredentialArtifact provider);
  if String.eqb payload "" then errorf ("the escrow holds no " +:+ provider +:+ " credential for box " +:+ boxID +:+ ".") else mret (TrimSpace payload).

(** ** escrow enroll-provider-credential *)

Record enrollProviderOpts := mkEnrollProvider { ep_box : string; ep_cluster : string; ep_provider : string; ep_gitops : string; ep_rotate : bool }.
Definition enroll_coordinates (o : enrollProviderOpts) : M Coordinates :=
  let boxID := TrimSpace (ep_box o) in
  let clusterName := TrimSpace (ep_cluster o) in
  if negb (String.eqb (TrimSpace (ep_gitops o)) "") then
    c ← Declaration (ep_gitops o) clusterName;
    mret (if String.eqb boxID "" then c else mkCoordinates boxID (co_cluster c) (EscrowURL c) (EscrowProjectID c))
  else if String.eqb boxID "" then errorf "--box is required without --gitops-dir"
  else
    h ← gets host;
    mret (mkCoordinates boxID clusterName (TrimSpace (Getenv h "INFISICAL_ESCROW_URL")) (TrimSpace (Getenv h "INFISICAL_ESCROW_PROJECT_ID"))).
Definition runEnrollProviderCredential (o : enrollProviderOpts) (stdin : option string) : M unit :=
  let provider := ToLower (TrimSpace (ep_provider o)) in
  if String.eqb provider "" then errorf "--provider is required"
  else
    match stdin with
    | None => errorf "reading the credential from stdin"
    | Some payload =>
        let cred := TrimSpace payload in
        if String.eqb cred "" then errorf "stdin was empty."
        else
          c ← enroll_coordinates o;
          access ← Open c;
          let artifact := ProviderCredentialArtifact provider in
          existing ← wrapped "reading the escrow" (Artifact_ access (co_box c) (co_box c) artifact);
          if String.eqb existing cred then mret ()
          else if negb (String.eqb existing "") && negb (ep_rotate o)
          then errorf ("box " +:+ co_box c +:+ " already has an escrowed " +:+ artifact +:+ ", and this is a different one.")
          else wrapped "escrow the credential" (PutArtifact access (co_box c) (co_box c) artifact cred)
    end.

(** ** escrow deliver-backup-credentials *)

Definition cnpgSecretName : string := "s3-credentials-escrowed".
Definition sseCSecretName : string := "velero-sse-c-key".
Definition sseCSecretKey : string := "customer-key".
Definition storeSecretName : string := "velero-backup-store".
Definition storeSecretKey : string := "cloud".
Record deliverOpts := mkDeliver { dl_box : string; dl_namespace : string; cnpgNamespace : string; region_flag : string; dl_dryRun : bool; rotateStore : bool }.
Definition decodeSSECKey (escrowed : string) : result string string :=
  match hex_decode (TrimSpace escrowed) with
  | None => Err "the escrowed key is not hex-encoded"
  | Some raw => if (String.length raw =? 32)%nat then Ok raw
                else Err ("the escrowed key decodes to " +:+ pretty (String.length raw) +:+ " bytes; SSE-C takes exactly 32")
  end.
(** The last value a key is given. *)
Definition ini_value (k : string) (ls : list iniLine) : string :=
  foldl (λ v x, match x with IniPair k' v' => if String.eqb k' k then v' else v | _ => v end) "" ls.
(** A line that begins with a bracket is passed over here whether or not it ends with one. *)
Definition store_line (l : string) : iniLine :=
  if HasPrefix (TrimSpace l) "[" then IniOther else ini_line l.
Definition parseStoreCredential (cred regionFlag : string) : result string (string * string * string) :=
  let ls := store_line <$> Split cred "010" in
  let keyID := ini_value "aws_access_key_id" ls in
  let secret := ini_value "aws_secret_access_key" ls in
  let region := if String.eqb regionFlag "" then ini_value "region" ls else TrimSpace regionFlag in
  match missing_of [("aws_access_key_id", keyID); ("aws_secret_access_key", secret);
                    ("a region (declare it in the credential, or pass --region)", region)] with
  | [] => Ok (keyID, secret, region)
  | missing => Err ("the escrowed credential cannot be rendered for CloudNativePG: missing " +:+ Join missing ", ")
  end.
Definition replaceSecretIn (k : key) (d : data) (live : KSecret) : M unit :=
  if String.eqb (sec_Version live) "" then errorf ("refusing to replace " +:+ k.2 +:+ ": the read returned no resourceVersion")
  else replace_secret k (sec_Version live) "Opaque" (sec_Labels live) (sec_Annotations live) d.
(** One Secret; the failure to report, if any. *)
Definition deliverTo (o : deliverOpts) (fs : list string) (ns name : string) (d : data) (replaceable : bool) : M (list string) :=
  let k := (ns, name) in
  let fail m := mret (fs ++ [name +:+ ": " +:+ m])%list in
  l ← attempt (get_secret k);
  match l with
  | Err e => fail (Error e)
  | Ok (Some live) =>
      if bool_decide (sec_Data live = d) then mret fs
      else if negb replaceable
      then fail ("the Secret in " +:+ ns +:+ " does not match the escrowed value (live " +:+ fingerprintData (sec_Data live)
                 +:+ ", escrowed " +:+ fingerprintData d +:+ ").")
      else if dl_dryRun o then mret fs
      else
        r ← attempt (replaceSecretIn k d live);
        match r with Ok _ => mret fs | Err e => fail (Error e) end
  | Ok None =>
      if dl_dryRun o then mret fs
      else
        r ← attempt (create_secret k "Opaque" ∅ d);
        match r with
        | Ok _ => mret fs
        | Err e =>
            if bool_decide (err_is e = AlreadyExists) then
              again ← attempt (get_secret k);
              match again with
              | Ok (Some live) => if bool_decide (sec_Data live = d) then mret fs
                                  else fail "it appeared while being delivered and does not match the escrowed value; refusing to overwrite"
              | _ => fail "it appeared while being delivered and does not match the escrowed value; refusing to overwrite"
              end
            else fail (Error e)
        end
  end.
Definition deliver_key (o : deliverOpts) (store : infisicalEscrow) (id : Identity) : M (list string) :=
  r ← attempt (RestoreArtifact store id ArtifactBackupSSECKey);
  match r with
  | Err e => mret [sseCSecretName +:+ ": reading the escrow: " +:+ Error e]
  | Ok v =>
      if String.eqb v "" then mret [sseCSecretName +:+ ": the escrow holds no " +:+ ArtifactBackupSSECKey +:+ " for box " +:+ quoted (dl_box o)]
      else match decodeSSECKey v with
           | Err m => mret [sseCSecretName +:+ ": " +:+ m]
           | Ok raw => deliverTo o [] (dl_namespace o) sseCSecretName {[sseCSecretKey := raw]} false
           end
  end.
Definition deliver_store (o : deliverOpts) (store : infisicalEscrow) (id : Identity) (fs : list string) : M (list string) :=
  r ← attempt (RestoreArtifact store id ArtifactBackupStoreCredential);
  match r with
  | Err e => mret (fs ++ [storeSecretName +:+ ": reading the escrow: " +:+ Error e])%list
  | Ok cred =>
      if String.eqb cred "" then mret (fs ++ [storeSecretName +:+ ": the escrow holds no " +:+ ArtifactBackupStoreCredential
                                              +:+ " for box " +:+ quoted (dl_box o)])%list
      else
        fs ← deliverTo o fs (dl_namespace o) storeSecretName {[storeSecretKey := cred]} (rotateStore o);
        match parseStoreCredential cred (region_flag o) with
        | Err m => mret (fs ++ [cnpgSecretName +:+ ": " +:+ m])%list
        | Ok (keyID, secret, region) =>
            deliverTo o fs (cnpgNamespace o) cnpgSecretName
              {["access-key-id" := keyID; "secret-access-key" := secret; "region" := region]} (rotateStore o)
        end
  end.
Definition runDeliverBackupCredentials (o : deliverOpts) : M unit :=
  if String.eqb (TrimSpace (dl_box o)) "" then errorf "--box is required: these are the box's authorities, and they outlive every cluster in it (ADR-111 §1)"
  else
    store ← wrapped "no escrow to deliver from" (NewEscrowClient "");
    let id := ForCluster (dl_box o) (dl_box o) in
    fs ← deliver_key o store id;
    fs ← deliver_store o store id fs;
    match fs with
    | [] => mret ()
    | _ => errorf ("the management-state backups cannot be read from this hub yet: " +:+ Join fs ", ")
    end.

(** ** escrow init *)

(** The settings are written in the order of a map, [order'], and checked in [order]. *)
Definition runEscrowInit (order order' : list (string * string) → list (string * string))
    (url cid secret projectName ownerEmail out : string) : M unit :=
  let idPath := fp_join out "INFISICAL_ESCROW_PROJECT_ID" in
  existing ← read_file idPath;
  if negb (String.eqb (TrimSpace (default "" existing)) "")
  then errorf (idPath +:+ " already names project " +:+ TrimSpace (default "" existing) +:+ ".")
  else
    pid ← EnsureProject order url cid secret projectName ownerEmail;
    make_dirs out ;;
    forM (order' [("INFISICAL_ESCROW_URL", url); ("INFISICAL_ESCROW_CLIENT_ID", cid);
                  ("INFISICAL_ESCROW_CLIENT_SECRET", secret); ("INFISICAL_ESCROW_PROJECT_ID", pid)])
      (λ nv, write_file (fp_join out nv.1) nv.2).

(** ** kubeconfig *)

(** What is printed; None where it went into the file. *)
Definition runKubeconfig (clusterName boxID gitopsDir out : string) : M (option string) :=
  if String.eqb (TrimSpace clusterName) "" then errorf "--cluster is required: the escrow holds one kubeconfig per cluster"
  else
    payload ← (if negb (String.eqb (TrimSpace gitopsDir) "") then
                 c ← Declaration gitopsDir clusterName;
                 let box := if String.eqb (TrimSpace boxID) "" then co_box c else boxID in
                 access ← Open c;
                 Kubeconfig access box (co_cluster c)
               else if String.eqb (TrimSpace boxID) "" then errorf "--box is required: a cluster's artefacts live under the box that owns it"
               else
                 store ← NewEscrowClient "";
                 wrapped "could not read the escrow" (RestoreArtifact store (ForCluster boxID clusterName) ArtifactKubeconfig));
    if String.eqb payload "" then errorf ("the escrow holds no kubeconfig for " +:+ quoted clusterName +:+ ".")
    else if String.eqb out "" then mret (Some payload)
    else write_file out payload ;; mret None.
End commands.
