(* ===== verification/RecoveryOutcomeFacts.v ===== *)
(** * RecoveryOutcomeFacts: what the success of a recovery command means.

    Against the laws of the escrow: a restore that succeeds has every trust root in place,
    of a cluster that nothing reconciles; a verification that succeeds found every artefact
    the cluster needs; an enrolment replaces a credential only when asked to; and what
    verify-recovery accepts and refuses. *)

From S2P Require Import Prelude.
From S2P Require Import GoRuntime.
From S2P Require Import Codec.
From S2P Require Import Escrow.
From S2P Require Import EscrowFacts.
From S2P Require Import EscrowSite.
From S2P Require Import Encryption.
From S2P Require Import Recovery.
From S2P Require Import RecoveryFacts.

Local Open Scope string_scope.

Section outcomes.
Context {R : Remote} {D : Desk} {base project : string} {L : EscrowVault R base project}.
Abbreviation W := (World Site).
Abbreviation M A := (goM W error A).
Implicit Types (w : W).

(** ** Trust roots *)

Definition alone w : Prop := rivals (rest w) = [].
(** Calls that write nothing, with no one else about. *)
Definition looked w w' : Prop := alone w' ∧ store w' = store w ∧ host w' = host w ∧ secrets (rest w') = secrets (rest w).
Lemma looked_trans w1 w2 w3 : looked w1 w2 → looked w2 w3 → looked w1 w3.
Proof. unfold looked. intros (_ & -> & -> & ->) (H & -> & -> & ->). done. Qed.
Lemma apart_looked w w' : alone w → apart w w' → store w' = store w → looked w w'.
Proof. unfold looked, alone, apart. by intros Ha [-> ->] ->. Qed.
Lemma alone_call w r w' : alone w → (call : M _) w = (r, w') → looked w w'.
Proof.
  unfold alone, looked. intros Ha. unfold call. rewrite !bind_run. cbn. intros [= <- <-]. unfold turn, alone, store. rewrite Ha.
  by destruct (next_outcome (kubectl (rest w))).
Qed.
Lemma alone_get k w r w' : alone w → (get_secret k : M _) w = (r, w') →
  looked w w' ∧ ∀ s, r = Ok s → s = secrets (rest w') !! k.
Proof.
  intros Ha. unfold get_secret. rewrite bind_run. destruct (call w) as [r1 w1] eqn:E1. apply alone_call in E1; [|done].
  destruct r1 as [[]|e1]; intros [= <- <-]; (split; [done|]); try done. by intros s [= <-].
Qed.
Lemma alone_live n w r w' : alone w → (liveSecret n : M _) w = (r, w') →
  looked w w' ∧ ∀ d, r = Ok (d, true) → ∃ s, secrets (rest w') !! (capiNamespace, n) = Some s ∧ sec_Data s = d.
Proof.
  intros Ha. unfold liveSecret. rewrite bind_run. destruct (get_secret _ w) as [r1 w1] eqn:E1. apply alone_get in E1 as [Hl Hg]; [|done].
  destruct r1 as [[s|]|e1]; intros [= <- <-]; (split; [done|]); try done. intros d [= <-]. exists s. split; [symmetry; exact (Hg _ eq_refl)|done].
Qed.
Lemma alone_create k t l d w r w' : alone w → (create_secret k t l d : M _) w = (r, w') →
  alone w' ∧ store w' = store w ∧ (r = Ok () → ∃ s, secrets (rest w') !! k = Some s ∧ sec_Data s = d).
Proof.
  intros Ha. unfold create_secret. rewrite bind_run. destruct (call w) as [r1 w1] eqn:E1. apply alone_call in E1 as (A1 & S1 & _); [|done].
  destruct r1 as [o|e1]; [|by intros [= <- <-]]. rewrite bind_run. cbn [site gets].
  destruct o, (secrets (rest w1) !! k); intros [= <- <-]; (split_and!; [done|done|]); try done.
  intros _. eexists. split; [cbn; apply lookup_insert_eq|]. done.
Qed.

Context (o : restorePKIOpts) (Hadr : ∀ p, p ∈ SpokePKIPurposes →
  reachable (project := project) (ForCluster (rp_box o) (rp_cluster o)) (SpokePKIArtifact p)).
Definition secret_of (p : string) : key := (capiNamespace, rp_cluster o +:+ "-" +:+ p).
(** The hub holds what is escrowed for the purpose, and that is something. *)
Definition in_place w (p : string) : Prop :=
  ∃ d s, decode_data (escrowed w (ForCluster (rp_box o) (rp_cluster o)) (SpokePKIArtifact p)) = Some d ∧ d ≠ ∅
    ∧ secrets (rest w) !! secret_of p = Some s ∧ sec_Data s = d.
Lemma in_place_later w w' p : alone w → alone w' → store w' = store w → (∀ k v, settles (rest w) k = Some v → settles (rest w') k = Some v) →
  in_place w p → in_place w' p.
Proof.
  intros Ha Ha' Hs Hst (d & s & Hd & Hn & Hk & He). exists d, s. unfold escrowed in *. rewrite Hs. split_and!; [done|done| |done].
  unfold alone in *. specialize (Hst (secret_of p) s). unfold settles in Hst. rewrite Ha, Ha' in Hst. by apply Hst.
Qed.

Lemma decide_present d live found : decidePKI d live found = pkiAlreadyPresent → d ≠ ∅ ∧ found = true ∧ live = d.
Proof.
  unfold decidePKI. destruct (bool_decide (d = ∅)) eqn:E1; [done|]. destruct found; [|done]. cbn.
  destruct (bool_decide (live = d)) eqn:E2; [|done]. intros _. apply bool_decide_eq_false in E1. by apply bool_decide_eq_true in E2.
Qed.
Lemma decide_restore d live found : decidePKI d live found = pkiRestore → d ≠ ∅.
Proof. unfold decidePKI. destruct (bool_decide (d = ∅)) eqn:E1; [done|]. intros _. by apply bool_decide_eq_false in E1. Qed.

(** The answer of a step is a tally; where nothing failed so far, the purpose is in place. *)
Definition answered (t : tally) (p : string) (w w' : W) (r : result error tally) : Prop :=
  alone w' ∧ store w' = store w ∧ ∃ t', r = Ok t' ∧ (failures t' = [] → failures t = [] ∧ in_place w' p).
Lemma answered_failed t p m w w' : alone w' → store w' = store w → answered t p w w' (Ok (failed t m)).
Proof. intros Ha Hs. split_and!; [done|done|]. eexists. split; [done|]. cbn. by destruct (failures t). Qed.

Lemma absent_run p d t w r w' (e := escrowed w (ForCluster (rp_box o) (rp_cluster o)) (SpokePKIArtifact p)) :
  alone w → rp_dryRun o = false → decode_data e = Some d → d ≠ ∅ →
  restore_absent o p d t w = (r, w') → answered t p w w' r.
Proof.
  intros Ha Hd Hdec Hne. unfold restore_absent. rewrite Hd, bind_run. unfold attempt at 1, createSecret.
  destruct (create_secret _ _ _ _ w) as [r1 w1] eqn:E1. apply alone_create in E1 as (A1 & S1 & H1); [|done].
  assert (∀ u s, store u = store w → secrets (rest u) !! secret_of p = Some s → sec_Data s = d → in_place u p) as Hin.
  { intros u s Hu Hs Hsd. exists d, s. unfold escrowed in *. rewrite Hu. done. }
  destruct r1 as [[]|e1].
  { intros [= <- <-]. split_and!; [done|done|]. eexists. split; [done|]. intros Hf. split; [done|]. destruct (H1 eq_refl) as (s & Hs & Hsd). by eapply Hin. }
  destruct (bool_decide _); [|intros [= <- <-]; by apply answered_failed]. rewrite bind_run. unfold attempt.
  destruct (liveSecret _ w1) as [r2 w2] eqn:E2. apply alone_live in E2 as [(A2 & S2 & _) H2]; [|done].
  assert (store w2 = store w) as S by congruence. destruct r2 as [[live found]|e2]; [|intros [= <- <-]; by apply answered_failed].
  destruct (decidePKI d live found) eqn:Ed; intros [= <- <-]; try by apply answered_failed.
  apply decide_present in Ed as (_ & -> & ->). split_and!; [done|done|]. eexists. split; [done|]. intros Hf. split; [done|].
  destruct (H2 _ eq_refl) as (s & Hs & Hsd). by eapply Hin.
Qed.
Lemma purpose_run e p t w r w' : at_ base project e → alone w → rp_dryRun o = false → p ∈ SpokePKIPurposes →
  restore_purpose o e t p w = (r, w') → answered t p w w' r.
Proof using Hadr.
  intros He Ha Hd Hp. unfold restore_purpose. rewrite bind_run. unfold attempt at 1.
  destruct (RestoreArtifact e _ _ w) as [r1 w1] eqn:E1. apply RestoreArtifact_run in E1 as (Ap1 & S1 & H1); [|done].
  assert (alone w1) as A1 by (unfold alone; by destruct Ap1 as [_ ->]).
  destruct r1 as [v|e1]; [|intros [= <- <-]; by apply answered_failed]. destruct (H1 (Hadr p Hp) v eq_refl) as [Hv _].
  destruct (if String.eqb v "" then _ else _) as [d|] eqn:Edec; [|intros [= <- <-]; by apply answered_failed].
  rewrite bind_run. unfold attempt. destruct (liveSecret _ w1) as [r2 w2] eqn:E2. apply alone_live in E2 as [(A2 & S2 & _) H2]; [|done].
  assert (store w2 = store w) as S by congruence. destruct r2 as [[live found]|e2]; [|intros [= <- <-]; by apply answered_failed].
  assert (d ≠ ∅ → decode_data (escrowed w2 (ForCluster (rp_box o) (rp_cluster o)) (SpokePKIArtifact p)) = Some d) as Hdec.
  { intros Hne. unfold escrowed in *. rewrite S, <- Hv. destruct (String.eqb v ""); [by injection Edec as <-|done]. }
  destruct (decidePKI d live found) eqn:Ed.
  - intros Er. pose proof (decide_restore _ _ _ Ed) as Hne. apply absent_run in Er as (A3 & S3 & H3); [|auto..]. split_and!; [done|congruence|done].
  - intros [= <- <-]. apply decide_present in Ed as (Hne & -> & ->). split_and!; [done|done|]. eexists. split; [done|]. intros Hf. split; [done|].
    destruct (H2 _ eq_refl) as (s & Hs & Hsd). exists d, s. split_and!; auto.
  - intros [= <- <-]. by apply answered_failed.
  - intros [= <- <-]. by apply answered_failed.
Qed.
Lemma purposes_run e ps t w r w' : at_ base project e → alone w → rp_dryRun o = false → ps ⊆ SpokePKIPurposes →
  foldM (restore_purpose o e) ps t w = (r, w') →
  alone w' ∧ store w' = store w ∧ ∃ t', r = Ok t' ∧ (failures t' = [] → failures t = [] ∧ ∀ p, p ∈ ps → in_place w' p).
Proof using Hadr.
  intros He Ha Hd. revert t w Ha. induction ps as [|p ps IH]; intros t w Ha Hps; cbn [foldM].
  { intros [= <- <-]. split_and!; [done|done|]. eexists. split; [done|]. intros Hf. split; [done|]. by intros p Hp%not_elem_of_nil. }
  rewrite bind_run. destruct (restore_purpose o e t p w) as [r1 w1] eqn:E1.
  apply purpose_run in E1 as (A1 & S1 & t1 & -> & H1); [|set_solver..]. intros E.
  pose proof E as E'. apply IH in E as (A2 & S2 & t2 & -> & H2); [|set_solver..]. split_and!; [done|congruence|]. eexists. split; [done|].
  intros Hf. destruct (H2 Hf) as [Hf1 Hin]. destruct (H1 Hf1) as [Hf0 Hp]. split; [done|]. intros q [->|Hq]%elem_of_cons; [|auto].
  eapply in_place_later; [exact A1|done|done| |done]. intros k v Hk.
  assert (keeps (stays k v) (foldM (restore_purpose o e) ps t1 : M _)) as HK by (apply keeps_foldM; intros; apply stays_purpose).
  specialize (HK w1 Hk). by rewrite E' in HK.
Qed.

(** C25: A restore that succeeds has put every trust root in place: each of the four Secrets holds
    what is escrowed for the cluster, and that is not empty; and the cluster was paused, or
    not there, when the restore began. *)
Theorem trust_roots_restored w w' : points_to (base := base) (project := project) (host w) → alone w → rp_dryRun o = false →
  runSpokeRestorePKI o w = (Ok (), w') →
  (∀ p, p ∈ SpokePKIPurposes → in_place w' p)
  ∧ ∀ c, clusters (rest w) !! rp_cluster o = Some c → clusterIsPaused c = true.
Proof using Hadr L.
  intros Hpt Ha Hd. unfold runSpokeRestorePKI. destruct (_ || _); [done|]. intros (e & w1 & E1 & E)%bind_inv_ok.
  apply wrapped_inv, NewEscrowClient_run in E1 as (Ap1 & S1 & He); [|done]. specialize (He e eq_refl).
  assert (alone w1) as A1 by (unfold alone; by destruct Ap1 as [_ ->]).
  apply bind_inv_ok in E as ([] & w2 & E2 & E). unfold requirePaused in E2. apply bind_inv_ok in E2 as (c & w3 & E3 & E2).
  apply wrapped_inv in E3. unfold get_cluster in E3. apply bind_inv_ok in E3 as (oc & w4 & E4 & E3).
  assert (clusters (rest w4) = clusters (rest w)) as Hc.
  { destruct Ap1 as [_ <-]. unfold call in E4. rewrite !bind_run in E4. cbn in E4. injection E4 as _ <-. cbn. unfold turn. rewrite A1.
    by destruct (next_outcome _). }
  apply alone_call in E4 as (A4 & S4 & _); [|done]. destruct oc; [|done|done]. injection E3 as <- <-.
  assert (w2 = w4 ∧ ∀ c, clusters (rest w) !! rp_cluster o = Some c → clusterIsPaused c = true) as [-> Hp].
  { rewrite Hc in E2. destruct (clusters (rest w) !! rp_cluster o) as [c|]; [|by injection E2].
    destruct (clusterIsPaused c) eqn:Ep; [|done]. injection E2 as <-. split; [done|]. by intros ? [= <-]. }
  apply bind_inv_ok in E as (t & w5 & E5 & E). apply purposes_run in E5 as (_ & _ & t' & [= <-] & H5); [|done..].
  destruct (failures t) eqn:Ef; [|done]. injection E as <-. split; [by apply H5|done].
Qed.
End outcomes.

Section checks.
Context {R : Remote} {D : Desk} {B : Binary} {base project : string} {L : EscrowVault R base project}.
Abbreviation W := (World Site).
Abbreviation M A := (goM W error A).
Implicit Types (w : W).

(** ** Verification *)

Lemma verify_run e id hub qs n w r w' : at_ base project e → (∀ q, q ∈ qs → reachable (project := project) id q.1) →
  foldM (verify_one e id hub) qs n w = (r, w') →
  store w' = store w ∧ ∃ m, r = Ok m ∧ (n ≤ m)%nat ∧ (m = n → ∀ q, q ∈ qs → q.2 = true ∧ hub = false ∨ escrowed w id q.1 ≠ "").
Proof.
  intros He. revert n w. induction qs as [|q qs IH]; intros n w Hr; cbn [foldM].
  { intros [= <- <-]. split; [done|]. exists n. split_and!; [done|done|]. by intros _ q Hq%not_elem_of_nil. }
  rewrite bind_run. destruct (verify_one e id hub n q w) as [r1 w1] eqn:E1.
  assert (store w1 = store w ∧ ∃ k, r1 = Ok k ∧ (n ≤ k)%nat ∧ (k = n → q.2 = true ∧ hub = false ∨ escrowed w id q.1 ≠ "")) as (S1 & k & -> & Hk & H1).
  { unfold verify_one in E1. destruct (q.2 && negb hub) eqn:Eq.
    { injection E1 as <- <-. split; [done|]. exists n. split_and!; [done|done|]. intros _. left. by destruct (q.2), hub. }
    rewrite bind_run in E1. unfold attempt in E1. destruct (RestoreArtifact e id q.1 w) as [r2 w2] eqn:E2.
    apply RestoreArtifact_run in E2 as (_ & S2 & H2); [|done]. injection E1 as <- <-. split; [done|].
    destruct r2 as [v|e2]; [|exists (S n); split_and!; [done|lia|lia]]. destruct (H2 (Hr q ltac:(left)) v eq_refl) as [-> _].
    destruct (String.eqb _ "") eqn:Ev; [exists (S n); split_and!; [done|lia|lia]|]. exists n. split_and!; [done|done|]. intros _. right.
    by apply String.eqb_neq in Ev. }
  intros E. apply IH in E as (S2 & m & -> & Hm & H2); [|intros; apply Hr; by right]. split; [congruence|]. exists m. split_and!; [done|lia|].
  intros ->. assert (k = n) as -> by lia. intros q' [->|Hq]%elem_of_cons; [auto|]. unfold escrowed in *. rewrite S1 in H2. auto.
Qed.
(** A verification of the escrow that succeeds found every artefact the cluster cannot be rebuilt
    without: the credential, the encryption key and the four trust roots of any cluster, and
    of a hub its master keys, the key of its identity provider and that of its backups. *)
Theorem verified_is_held box cluster hub spoke w w' (id := ForCluster box cluster) :
  points_to (base := base) (project := project) (host w) → (∀ q, q ∈ required → reachable (project := project) id q.1) →
  runEscrowVerify box cluster hub spoke w = (Ok (), w') →
  ∀ a hubOnly, (a, hubOnly) ∈ required → (hubOnly = true → hub = true) → escrowed w' id a ≠ "".
Proof.
  intros Hp Hr. unfold runEscrowVerify. intros (e & w1 & E1 & E)%bind_inv_ok. apply wrapped_inv, NewEscrowClient_run in E1 as (_ & S1 & He); [|done].
  destruct (_ && _); [done|]. apply bind_inv_ok in E as (m & w2 & E2 & E). apply verify_run in E2 as (S2 & k & [= <-] & _ & H2); [|by apply He|done].
  destruct (0 <? m)%nat eqn:Em; [done|]. apply Nat.ltb_ge in Em. injection E as <-. intros a h Ha Hh.
  destruct (H2 ltac:(lia) (a, h) Ha) as [[H3 H4]|H3]; cbn in *; [by rewrite Hh in H4|]. unfold escrowed in *. by rewrite S2.
Qed.

(** ** Enrolment *)

(** Enrolling a credential takes effect and destroys nothing: when it succeeds the escrow holds
    the credential that was piped in; and where one is held already, and replacing it was
    not asked for, it is held still, however the command ends. *)
Theorem enrolment_exact box rotate stdin w r w' (id := ForCluster box box) :
  points_to (base := base) (project := project) (host w) → reachable (project := project) id ArtifactBackupStoreCredential →
  runEnrollStoreCredential box rotate stdin w = (r, w') →
  (r = Ok () → ∃ payload, stdin = Some payload ∧ escrowed w' id ArtifactBackupStoreCredential = TrimSpace payload
                 ∧ validateStoreCredential (TrimSpace payload) = None)
  ∧ (rotate = false → escrowed w id ArtifactBackupStoreCredential ≠ "" →
     escrowed w' id ArtifactBackupStoreCredential = escrowed w id ArtifactBackupStoreCredential).
Proof.
  intros Hp Hr. unfold runEnrollStoreCredential. destruct (String.eqb (TrimSpace box) ""); [by intros [= <- <-]|].
  destruct stdin as [payload|]; [|by intros [= <- <-]]. set (cred := TrimSpace payload).
  destruct (String.eqb cred ""); [by intros [= <- <-]|]. rewrite bind_run. destruct (or_refuse _ w) as [r0 w0] eqn:E0.
  apply refuse_run in E0 as [-> H0]. destruct r0 as [[]|e0]; [|by intros [= <- <-]]. rewrite bind_run, wrapped_run.
  destruct (NewEscrowClient "" w) as [r1 w1] eqn:E1. apply NewEscrowClient_run in E1 as (_ & S1 & He); [|done].
  assert (∀ (u : W) a, store u = store w → escrowed u id a = escrowed w id a) as Hsame by (intros u a Hu; unfold escrowed; by rewrite Hu).
  destruct r1 as [e|e1]; [|intros [= <- <-]; by rewrite Hsame]. specialize (He e eq_refl). rewrite bind_run, wrapped_run. fold id.
  destruct (RestoreArtifact e id _ w1) as [r2 w2] eqn:E2. apply RestoreArtifact_run in E2 as (_ & S2 & H2); [|done].
  assert (store w2 = store w) as S by congruence. destruct r2 as [v|e2]; [|intros [= <- <-]; by rewrite Hsame].
  destruct (H2 Hr v eq_refl) as [Hv _]. rewrite Hsame in Hv by done. destruct (String.eqb v cred) eqn:Evc.
  { apply String.eqb_eq in Evc. intros [= <- <-]. rewrite Hsame by done. split; [|done]. intros _. exists payload. rewrite <- Hv, Evc. split_and!; [done|done|by apply H0]. }
  destruct (negb (String.eqb v "") && negb rotate) eqn:Er; [intros [= <- <-]; by rewrite Hsame|].
  rewrite wrapped_run. destruct (BackupArtifact e id _ cred w2) as [r3 w3] eqn:E3. apply BackupArtifact_run in E3 as (_ & _ & H3); [|done..].
  assert (rotate = false → escrowed w id ArtifactBackupStoreCredential = "") as Hem.
  { intros ->. rewrite <- Hv. destruct (String.eqb v "") eqn:Ev; [by apply String.eqb_eq in Ev|done]. }
  destruct r3 as [[]|e3]; intros [= <- <-]; (split; [|intros Hrot Hne; by destruct Hne, (Hem Hrot)]); [|done].
  intros _. exists payload. destruct (H3 eq_refl) as [Hs _]. split_and!; [done| |by apply H0]. unfold escrowed. rewrite Hs. by rewrite lookup_insert_eq.
Qed.

(** ** verify-recovery *)

Lemma first_open_some k n cs p : first_open k n cs = Some p → ∃ c, c ∈ cs ∧ Open_box k n c = Some p.
Proof.
  induction cs as [|c cs IH]; [done|]. cbn. destruct (Open_box k n c) eqn:E; [intros [= <-]; exists c; split; [left|done]|].
  intros (c' & Hc & Ho)%IH. exists c'. split; [by right|done].
Qed.
Lemma first_open_only k n cs c p : c ∈ cs → Open_box k n c = Some p → (∀ c', c' ∈ cs → c' ≠ c → Open_box k n c' = None) →
  first_open k n cs = Some p.
Proof.
  induction cs as [|d cs IH]; [by intros ?%not_elem_of_nil|]. intros Hc Ho Hn. cbn. destruct (decide (d = c)) as [->|Hd]; [by rewrite Ho|].
  rewrite (Hn d ltac:(left) Hd). apply IH; [set_solver|done|]. intros c' Hc'. apply Hn. by right.
Qed.
(** The framings of a box that etcdctl may have printed. *)
Definition crlf : string := String (Ascii.ascii_of_nat 13) nl.
Lemma framing_tried sealed tail : (Overhead ≤ String.length sealed)%nat → tail = "" ∨ tail = nl ∨ tail = crlf →
  sealed ∈ candidates (sealed +:+ tail).
Proof.
  intros Hlen Ht. unfold candidates. rewrite str_length_app. destruct Ht as [-> |[-> | ->]].
  - rewrite str_app_nil_r. left.
  - right. rewrite HasSuffix_app, andb_true_r. rewrite (proj2 (Nat.ltb_lt _ _)) by (cbn; lia).
    replace (String.length sealed + String.length nl - 1)%nat with (String.length sealed) by (cbn; lia). rewrite str_take_app. left.
  - assert (HasSuffix (sealed +:+ crlf) nl = true) as Hn.
    { assert (sealed +:+ crlf = (sealed +:+ String (Ascii.ascii_of_nat 13) "") +:+ nl) as -> by (by rewrite <- str_app_assoc). apply HasSuffix_app. }
    fold crlf. rewrite Hn, HasSuffix_app. change (String.length crlf) with 2%nat.
    rewrite (proj2 (Nat.ltb_lt Overhead _)), (proj2 (Nat.ltb_lt (Overhead + 1) _)) by (unfold Overhead in *; lia). cbn [andb].
    replace (String.length sealed + 2 - 2)%nat with (String.length sealed) by (cbn; lia). rewrite str_take_app. right. right. left.
Qed.
(** verify-recovery is right about a value sealed as the first generation: it accepts it, under
    every framing etcdctl prints, exactly when the escrowed key opens it, authentication
    leaving one framing at most; and a value under any other prefix it refuses, whatever
    the key. *)
Theorem recovery_verdict box cluster file w e w1 k w2 raw blob :
  NewEscrowClient "" w = (Ok e, w1) → RestoreArtifact e (ForCluster box cluster) ArtifactSecretEncryptionKey w1 = (Ok k, w2) →
  hex_decode k = Some raw → String.length raw = 32%nat → files (host w2) !! file = Some blob →
  match after_first secretboxPrefix blob with
  | None => ∃ m, runEscrowVerifyRecovery box cluster file false w = (Err m, w2)
  | Some payload => ∀ nonce sealed tail, payload = nonce +:+ sealed +:+ tail → String.length nonce = 24%nat → (Overhead ≤ String.length sealed)%nat →
      tail = "" ∨ tail = nl ∨ tail = crlf →
      (∀ c, c ∈ candidates (sealed +:+ tail) → c ≠ sealed → Open_box raw nonce c = None) →
      (runEscrowVerifyRecovery box cluster file false w).1 = Ok () ↔ is_Some (Open_box raw nonce sealed)
  end.
Proof.
  intros E1 E2 Hk Hlen Hf. assert (k ≠ "") as Hne by (intros ->; injection Hk as <-; done).
  unfold runEscrowVerifyRecovery. rewrite bind_run, wrapped_run, E1, bind_run, wrapped_run, E2.
  rewrite (proj2 (String.eqb_neq _ _) Hne), Hk, Hlen. cbn [Nat.eqb negb]. rewrite bind_run. cbn [gets]. rewrite Hf.
  destruct (after_first secretboxPrefix blob) as [payload|]; [|by eexists]. intros nonce sealed tail -> Hn Hs Ht Hau.
  assert (24 + Overhead ≤ String.length (nonce +:+ sealed +:+ tail))%nat as Hl by (rewrite !str_length_app; lia).
  rewrite (proj2 (Nat.ltb_ge _ _)) by done. rewrite <- Hn, str_take_app, str_drop_app.
  pose proof (framing_tried sealed tail Hs Ht) as Hin. cbn [andb]. split.
  - destruct (first_open _ _ _) as [p|] eqn:Eo; [|done]. intros _. apply first_open_some in Eo as (c & Hc & Ho).
    destruct (decide (c = sealed)) as [->|Hd]; [by eexists|]. by rewrite Hau in Ho.
  - intros [p Ho]. by rewrite (first_open_only _ _ _ sealed p).
Qed.
End checks.
