(* ===== verification/RecoveryWitness.v ===== *)
(** * RecoveryWitness: the theorems on the escrow at one box.

    An escrow that keeps its secrets in a map, reads the URLs it is sent, refuses to create
    what is there and answers every request; the box b1 with its hub h1 and the spoke s1. *)

From S2P Require Import Prelude.
From S2P Require Import GoRuntime.
From S2P Require Import Codec.
From S2P Require Import Escrow.
From S2P Require Import HubSecrets.
From S2P Require Import MasterKeys.
From S2P Require Import MasterKeysFacts.
From S2P Require Import EscrowFacts.
From S2P Require Import EscrowSite.
From S2P Require Import Encryption.
From S2P Require Import EncryptionConfigFacts.
From S2P Require Import EncryptionFacts.
From S2P Require Import Recovery.
From S2P Require Import RecoveryFacts.
From S2P Require Import RecoveryOutcomeFacts.
Import Escrow EscrowSite.

Local Open Scope string_scope.

(** ** The escrow *)

Definition base : string := "https://e".
Definition raw_url : string := base +:+ "/api/v3/secrets/raw/".
Definition query : string := "workspaceId=p&environment=prod&secretPath=".
Definition field (k : string) (b : list (string * JSON)) : string :=
  match List.find (λ kv, String.eqb kv.1 k) b with Some (_, JString s) => s | _ => "" end.
Definition reply (q : Request) (s : gmap (string * string) string) : Z * string * gmap (string * string) string :=
  match Body q with
  | [] =>
      let '(n, r, _) := Cut (TrimPrefix (URL q) raw_url) "?" in
      match s !! (TrimPrefix r query, n) with Some v => (200%Z, v, s) | None => (404%Z, "", s) end
  | b =>
      if HasPrefix (URL q) raw_url then
        let k := (field "secretPath" b, TrimPrefix (URL q) raw_url) in
        if String.eqb (Method q) "POST" && bool_decide (is_Some (s !! k)) then (400%Z, "exists", s)
        else (200%Z, "", <[k := field "secretValue" b]> s)
      else (200%Z, "t", s)
  end.
#[export] Instance escrow_service : Remote := {|
  RSt := gmap (string * string) string;
  Payload := Keys;
  answer q s := let '(st, b, s') := reply q s in (Ok (st, b), s');
  decode_accessToken b := Some b;
  decode_secretValue b := Some b;
  decode_project _ := None;
  decode_backup t := let '(a, b, _) := Cut t "." in
    match hex_decode a, hex_decode b with
    | Some a, Some b => Some {["encryptionKey" := Some a; "authSecret" := Some b]}
    | _, _ => None
    end;
  Escrow.marshal k := Ok (Codec.hex_encode (encryptionKey k) +:+ "." +:+ Codec.hex_encode (authSecret k));
  sha256_hex v := Codec.hex_encode v |}.

Lemma empty_reply q s : Body q = [] → (answer (Remote := escrow_service) q s).2 = s.
Proof.
  intros Hq. cbn [answer escrow_service]. unfold reply. rewrite Hq. destruct (Cut (TrimPrefix (URL q) raw_url) "?") as [[n r] b].
  by destruct ((s : gmap (string * string) string) !! (TrimPrefix r query, n)).
Qed.
Lemma read_reply e p n s : at_ base "p" e → addressable "p" p n = true →
  reply (read_request e p n) s = match s !! (p, n) with Some v => (200%Z, v, s) | None => (404%Z, "", s) end.
Proof.
  intros [Hb Hp] Ha. unfold reply, read_request. cbn [Body URL]. unfold secretURLAt. rewrite Hb, Hp.
  assert (base +:+ pathSecretsRaw n +:+ "?workspaceId=" +:+ "p" +:+ "&environment=" +:+ environmentSlug +:+ "&secretPath=" +:+ p
          = raw_url +:+ n +:+ "?" +:+ query +:+ p) as -> by (unfold raw_url, pathSecretsRaw; by rewrite <- !str_app_assoc).
  rewrite TrimPrefix_app. assert (Cut (n +:+ "?" +:+ query +:+ p) "?" = (n, query +:+ p, true)) as ->.
  { apply (Cut_app n "?"). unfold addressable in Ha. rewrite !andb_true_iff in Ha. destruct Ha as [[_ Hn] _].
    unfold url_plain in Hn. eapply all_chars_mono; [|exact Hn]. intros c. cbn. destruct (Ascii.eqb c "?") eqn:E; [|done]. by apply Ascii.eqb_eq in E as ->. }
  by rewrite TrimPrefix_app.
Qed.
Lemma write_reply e m id n v s : at_ base "p" e →
  reply (write_request e m id n v) s =
    if String.eqb m "POST" && bool_decide (is_Some (s !! place id n)) then (400%Z, "exists", s) else (200%Z, "", <[place id n := v]> s).
Proof.
  intros [Hb Hp]. unfold reply, write_request. cbn [Body URL Method]. rewrite Hb. unfold pathSecretsRaw.
  rewrite (str_app_assoc base). change (base +:+ "/api/v3/secrets/raw/") with raw_url.
  rewrite (proj2 (HasPrefix_iff _ raw_url)) by eauto. rewrite TrimPrefix_app. done.
Qed.
#[export] Instance escrow_vault : EscrowVault escrow_service base "p".
Proof.
  apply (Build_EscrowVault escrow_service base "p" (λ s, s)).
  - intros e u s [Hb _]. rewrite Hb. destruct u; [by apply empty_reply|done].
  - intros e i a s [Hb _]. unfold folder_request. rewrite Hb. by destruct (path_split _).
  - intros e p n s He. by apply empty_reply.
  - intros e p n s b v He Ha. cbn [answer escrow_service]. rewrite (read_reply e p n s He Ha).
    destruct ((s : gmap (string * string) string) !! (p, n)); cbn; [|done]. by intros [= <-] [= <-].
  - intros e p n s b He Ha. cbn [answer escrow_service]. rewrite (read_reply e p n s He Ha). by destruct ((s : gmap (string * string) string) !! (p, n)).
  - intros e m i n v s He _. cbn [answer escrow_service]. rewrite write_reply by done. destruct (_ && _); [by left|by right].
  - intros e m i n v s st b He _. cbn [answer escrow_service]. rewrite write_reply by done. destruct (_ && _); cbn; [by intros [= <- <-]|done].
Defined.
#[export] Instance escrow_reliable : ReliableVault escrow_service base "p" (λ k, k).
Proof.
  split.
  - intros e p n s v He Ha Hv. cbn [answer escrow_service held escrow_vault] in *. rewrite (read_reply e p n s He Ha), Hv. by exists v.
  - intros k. eexists _, _. split; [reflexivity|]. split; [by destruct (Codec.hex_encode (encryptionKey k))|]. cbn [decode_backup escrow_service].
    change ("." +:+ Codec.hex_encode (authSecret k)) with (String "." (Codec.hex_encode (authSecret k))). rewrite (Cut_app _ "."). 2: { eapply all_chars_mono; [|apply (hex_all_digits (encryptionKey k))]. intros c. cbn. destruct (Ascii.eqb c ".") eqn:E; [|done]. by apply Ascii.eqb_eq in E as ->. }
    rewrite !hex_roundtrip. by split.
Defined.

(** ** The machine and the hub *)

Definition machine : Host := mkHost
  {["INFISICAL_ESCROW_URL" := "https://e/"; "INFISICAL_ESCROW_CLIENT_ID" := "c"; "INFISICAL_ESCROW_CLIENT_SECRET" := "s";
    "INFISICAL_ESCROW_PROJECT_ID" := "p"]} None ∅ ∅ [].
Definition fresh_site : Site := mkSite ∅ ∅ [] 0 [] [] ["ABCDEFGHIJKLMNOPQRSTUVWXYZ012345"; "abcdefghijklmnopqrstuvwxyz012345"].
Definition at_rest (m : gmap (string * string) string) (s : Site) : Escrow.World Site := mkWorld (m : RSt) [] machine s.
Definition client : infisicalEscrow := mkEscrow base "c" "s" "p" "t".
Definition hub1 : Identity := mkIdentity "b1" "h1".
Definition spoke1 : Identity := mkIdentity "b1" "s1".
Lemma client_at : at_ base "p" client.
Proof. by split. Qed.
Lemma machine_points : points_to (base := base) (project := "p") machine.
Proof. by split; vm_compute. Qed.
Lemma ran {A B} (p : A * B) a : p.1 = a → p = (a, p.2).
Proof. intros <-. apply surjective_pairing. Qed.

(** ** The escrow *)

Definition two_kubeconfigs : gmap (string * string) string :=
  {[place hub1 ArtifactKubeconfig := "old hub"; place spoke1 ArtifactKubeconfig := "spoke"]}.
Definition overwritten := BackupArtifact client hub1 ArtifactKubeconfig "new hub" (at_rest two_kubeconfigs fresh_site).
Lemma backup_own_place_witness :
  escrowed overwritten.2 spoke1 ArtifactKubeconfig = escrowed (at_rest two_kubeconfigs fresh_site) spoke1 ArtifactKubeconfig.
Proof.
  apply (backup_own_place (base := base) (project := "p") client hub1 ArtifactKubeconfig "new hub" (at_rest two_kubeconfigs fresh_site) overwritten.1).
  - exact client_at.
  - vm_compute. reflexivity.
  - reflexivity.
  - reflexivity.
  - apply surjective_pairing.
  - right. intros [_ Hc]. specialize (Hc eq_refl). discriminate Hc.
Defined.
Definition flat : gmap (string * string) string := {[("/hub-operator/h1", ArtifactSecretEncryptionKey) := "key"]}.
Definition migrated := MigrateArtifactPath client hub1 ArtifactSecretEncryptionKey (at_rest flat fresh_site).
Lemma migration_loses_nothing_witness :
  store migrated.2 !! ("/hub-operator/h1", ArtifactSecretEncryptionKey) = Some "key"
  ∧ escrowed migrated.2 hub1 ArtifactSecretEncryptionKey = "key".
Proof.
  destruct (migration_loses_nothing (base := base) (project := "p") client hub1 ArtifactSecretEncryptionKey (at_rest flat fresh_site) migrated.1 migrated.2) as [Hk Hm].
  - exact client_at.
  - vm_compute. reflexivity.
  - vm_compute. reflexivity.
  - apply surjective_pairing.
  - split; [apply Hk; [reflexivity|discriminate]|].
    exact (proj1 (proj2 (Hm (mkMigration ArtifactSecretEncryptionKey "/hub-operator/h1" "/hub-operator/b1/clusters/h1" MigrationCopied "6b6579") ltac:(vm_compute; reflexivity)))).
Defined.

(** ** Encryption at rest *)

Definition enable_h1 : enableOpts := mkEnable "h1" "b1" "platform-capi" "" false false false.
Definition rotate_h1 (fin : bool) : rotateOpts := mkRotate "h1" "b1" "platform-capi" fin false.
#[export] Instance plain_binary : Binary := {|
  ReadManifest _ := None; ReadEmbedded _ := None;
  Open_box k _ c := if String.eqb c (k +:+ "sealed") then Some "v1 Secret" else None |}.
Definition w0 : Escrow.World Site := at_rest ∅ fresh_site.
Definition w1 := (runEncryptionEnable enable_h1 w0).2.
Definition w2 := (runEncryptionRotate (rotate_h1 false) w1).2.
Definition w3 := (runEncryptionRotate (rotate_h1 true) w2).2.
Lemma steady_0 : steady (base := base) (project := "p") "h1" "platform-capi" w0.
Proof. split_and!; [exact machine_points|constructor|repeat constructor]. Qed.
Lemma reach_h1 a : existsb (String.eqb a) [ArtifactSecretEncryptionKey; ArtifactSecretEncryptionKeyPrevious] = true →
  reachable (project := "p") (ForCluster "b1" "h1") a.
Proof.
  cbn. destruct (String.eqb a _) eqn:E; [apply String.eqb_eq in E as ->; by vm_compute|].
  destruct (String.eqb a ArtifactSecretEncryptionKeyPrevious) eqn:E'; [apply String.eqb_eq in E' as ->; by vm_compute|done].
Qed.
Lemma held_0 : keys_held "b1" "h1" "platform-capi" w0.
Proof. intros t Ht. discriminate Ht. Qed.
Lemma enabled_1 : step (base := base) (project := "p") "b1" "h1" "platform-capi" w0 w1.
Proof. apply (step_enable _ _ _ _ _ enable_h1 (runEncryptionEnable enable_h1 w0).1); [done..|]. apply surjective_pairing. Qed.
Lemma staged_2 : step (base := base) (project := "p") "b1" "h1" "platform-capi" w1 w2.
Proof. apply (step_rotate _ _ _ _ _ (rotate_h1 false) (runEncryptionRotate (rotate_h1 false) w1).1); [done..|]. apply surjective_pairing. Qed.
Lemma keys_always_escrowed_witness : keys_held "b1" "h1" "platform-capi" w2.
Proof.
  apply (keys_always_escrowed (base := base) (project := "p") "b1" "h1" "platform-capi" (reach_h1 ArtifactSecretEncryptionKey eq_refl) (reach_h1 ArtifactSecretEncryptionKeyPrevious eq_refl) w0 w2).
  - eapply rtc_l; [exact enabled_1|]. eapply rtc_l; [exact staged_2|]. apply rtc_refl.
  - exact steady_0.
  - exact held_0.
Defined.
Lemma reached_1 : steady (base := base) (project := "p") "h1" "platform-capi" w1 ∧ keys_held "b1" "h1" "platform-capi" w1.
Proof. apply (step_keeps "b1" "h1" "platform-capi" (reach_h1 ArtifactSecretEncryptionKey eq_refl) (reach_h1 ArtifactSecretEncryptionKeyPrevious eq_refl) w0 w1 enabled_1 steady_0 held_0). Qed.
Lemma reached_2 : steady (base := base) (project := "p") "h1" "platform-capi" w2 ∧ keys_held "b1" "h1" "platform-capi" w2.
Proof. destruct reached_1 as [S K]. apply (step_keeps "b1" "h1" "platform-capi" (reach_h1 ArtifactSecretEncryptionKey eq_refl) (reach_h1 ArtifactSecretEncryptionKeyPrevious eq_refl) w1 w2 staged_2 S K). Qed.
Lemma staged_ok : runEncryptionRotate (rotate_h1 false) w1 = (Ok (), w2).
Proof. unfold w2. apply ran. vm_compute. reflexivity. Qed.
Lemma rotation_keeps_readable_witness :
  ∃ t l t', live_text "h1" "platform-capi" w1 = Some t ∧ parse_config t = Ok l ∧ live_text "h1" "platform-capi" w2 = Some t'
    ∧ ∃ x, l = [x] ∧ ((generation x < 2^63 - 1)%Z → ∃ y, parse_config t' = Ok [y; x] ∧ generation y = (generation x + 1)%Z ∧ name y ≠ name x).
Proof.
  exact (rotation_keeps_readable (base := base) (project := "p") "b1" "h1" "platform-capi" (reach_h1 ArtifactSecretEncryptionKey eq_refl)
           (rotate_h1 false) w1 w2 eq_refl eq_refl eq_refl eq_refl (proj1 reached_1) (proj2 reached_1) staged_ok).
Defined.
Definition live_2 : string := default "" (live_text "h1" "platform-capi" w2).
Definition key2 : keyEntry := mkEntry "key2" 2 (b64_encode "abcdefghijklmnopqrstuvwxyz012345").
Definition key1 : keyEntry := mkEntry "key1" 1 (b64_encode "ABCDEFGHIJKLMNOPQRSTUVWXYZ012345").
Lemma enable_drops_keys_witness : ∃ t' l', live_text "h1" "platform-capi" (runEncryptionEnable enable_h1 w2).2 = Some t' ∧ parse_config t' = Ok l' ∧ ¬ opens l' key2.
Proof.
  apply (enable_drops_keys (base := base) (project := "p") "b1" "h1" "platform-capi" (reach_h1 ArtifactSecretEncryptionKey eq_refl) (reach_h1 ArtifactSecretEncryptionKeyPrevious eq_refl) enable_h1 w2 _ live_2 [key2; key1] key2).
  - reflexivity.
  - reflexivity.
  - reflexivity.
  - reflexivity.
  - exact (proj1 reached_2).
  - vm_compute. discriminate.
  - vm_compute. reflexivity.
  - vm_compute. reflexivity.
  - apply list_elem_of_here.
  - left. discriminate.
  - apply ran. vm_compute. reflexivity.
Defined.
Lemma rotation_reopens_plaintext_witness : ∃ t', live_text "h1" "platform-capi" w2 = Some t' ∧ plaintext_readable t' = true.
Proof.
  exact (rotation_reopens_plaintext (base := base) (project := "p") "b1" "h1" "platform-capi" (reach_h1 ArtifactSecretEncryptionKey eq_refl)
           (rotate_h1 false) w1 w2 eq_refl eq_refl eq_refl eq_refl (proj1 reached_1) (proj2 reached_1) staged_ok).
Defined.

(** ** Trust roots *)

#[export] Instance plain_desk : Desk := {|
  decode_data t := if String.eqb t "" then None else Some {["tls.key" := t]};
  fingerprintData d := default "" (d !! "tls.key");
  decode_declaration _ := None;
  session_current _ := Err (Errorf "no session") |}.
Definition restore_s1 : restorePKIOpts := mkRestore "b1" "s1" false.
Definition trust_roots : gmap (string * string) string :=
  list_to_map ((λ p, (place spoke1 (SpokePKIArtifact p), "root of " +:+ p)) <$> SpokePKIPurposes).
(** One of the roots is on the hub already, and another writer makes a different one while the
    command runs. *)
Definition root (d : string) : KSecret := mkKSecret capiClusterSecretType ∅ ∅ "7" {["tls.key" := d]}.
Definition half_site (rs : list (list (key * option KSecret))) : Site :=
  mkSite {[(capiNamespace, "s1-ca") := root "root of ca"]} {["s1" := mkClusterObject true ∅]} [] 8 [] rs [].
Definition racing : Escrow.World Site := at_rest trust_roots (half_site [[]; []; [((capiNamespace, "s1-etcd"), Some (root "other"))]]).
Lemma restore_overwrites_nothing_witness :
  settles (rest (runSpokeRestorePKI restore_s1 racing).2) (capiNamespace, "s1-etcd") = Some (root "other").
Proof.
  apply (restore_overwrites_nothing restore_s1 racing (runSpokeRestorePKI restore_s1 racing).1).
  - apply surjective_pairing.
  - vm_compute. reflexivity.
Defined.
Definition calm : Escrow.World Site := at_rest trust_roots (half_site []).
Lemma reach_all {A} id (l : list A) (f : A → string) :
  forallb (λ x, addressable "p" (escrowPath id (f x)) (f x)) l = true → ∀ x, x ∈ l → reachable (project := "p") id (f x).
Proof. intros H x Hx. rewrite forallb_forall in H. apply H. by apply list_elem_of_In. Qed.
Lemma reach_roots p : p ∈ SpokePKIPurposes → reachable (project := "p") (ForCluster "b1" "s1") (SpokePKIArtifact p).
Proof. apply (reach_all (ForCluster "b1" "s1") SpokePKIPurposes SpokePKIArtifact). vm_compute. reflexivity. Qed.
Lemma trust_roots_restored_witness : in_place restore_s1 (runSpokeRestorePKI restore_s1 calm).2 "sa".
Proof.
  refine (proj1 (trust_roots_restored (base := base) (project := "p") restore_s1 reach_roots calm (runSpokeRestorePKI restore_s1 calm).2
                   machine_points eq_refl eq_refl _) "sa" _).
  - apply ran. vm_compute. reflexivity.
  - apply (bool_decide_unpack _). vm_compute. exact I.
Defined.

(** ** The backup credentials *)

Definition deliver_b1 (rotate : bool) : deliverOpts := mkDeliver "b1" "velero" "cnpg" "eu" false rotate.
Definition backup_creds : gmap (string * string) string :=
  {[place hub1 ArtifactBackupSSECKey := Codec.hex_encode "ABCDEFGHIJKLMNOPQRSTUVWXYZ012345";
    place hub1 ArtifactBackupStoreCredential := "[default]" +:+ nl +:+ "aws_access_key_id = a" +:+ nl +:+ "aws_secret_access_key = s"]}.
Definition old_key : KSecret := mkKSecret "Opaque" ∅ ∅ "1" {["customer-key" := "another key"]}.
Definition keyed : Escrow.World Site := at_rest backup_creds (mkSite {[("velero", "velero-sse-c-key") := old_key]} ∅ [] 2 [] [] []).
(** The key on the hub is not the escrowed one; the credentials are delivered, the key is left. *)
Lemma backup_key_never_replaced_witness :
  settles (rest (runDeliverBackupCredentials (deliver_b1 true) keyed).2) ("velero", "velero-sse-c-key") = Some old_key
  ∧ is_Some (secrets (rest (runDeliverBackupCredentials (deliver_b1 true) keyed).2) !! ("cnpg", cnpgSecretName)).
Proof.
  split; [|vm_compute; by eexists].
  apply (backup_key_never_replaced (deliver_b1 true) keyed (runDeliverBackupCredentials (deliver_b1 true) keyed).1).
  - apply surjective_pairing.
  - right. split; discriminate.
  - vm_compute. reflexivity.
Defined.

(** ** Verification and enrolment *)

Definition complete : gmap (string * string) string := list_to_map ((λ q, (place hub1 q.1, "held")) <$> required).
Definition complete_w : Escrow.World Site := at_rest complete fresh_site.
Lemma reach_required q : q ∈ required → reachable (project := "p") (ForCluster "b1" "h1") q.1.
Proof. apply (reach_all (ForCluster "b1" "h1") required fst). vm_compute. reflexivity. Qed.
Lemma verified_is_held_witness :
  escrowed (runEscrowVerify "b1" "h1" true false complete_w).2 (ForCluster "b1" "h1") ArtifactBackupSSECKey ≠ "".
Proof.
  apply (verified_is_held (base := base) (project := "p") "b1" "h1" true false complete_w (runEscrowVerify "b1" "h1" true false complete_w).2
           machine_points reach_required) with (hubOnly := true).
  - apply ran. vm_compute. reflexivity.
  - apply (bool_decide_unpack _). vm_compute. exact I.
  - intros _. reflexivity.
Defined.
Definition cred_in : string := "[default]" +:+ nl +:+ "aws_access_key_id = b" +:+ nl +:+ "aws_secret_access_key = t".
Definition enrolled := runEnrollStoreCredential "b1" false (Some cred_in) (at_rest backup_creds fresh_site).
Lemma enrolment_exact_witness :
  escrowed enrolled.2 (ForCluster "b1" "b1") ArtifactBackupStoreCredential
  = escrowed (at_rest backup_creds fresh_site) (ForCluster "b1" "b1") ArtifactBackupStoreCredential.
Proof.
  refine (proj2 (enrolment_exact (base := base) (project := "p") "b1" false (Some cred_in) (at_rest backup_creds fresh_site) enrolled.1 enrolled.2
                   machine_points _ (surjective_pairing _)) eq_refl _).
  - vm_compute. reflexivity.
  - vm_compute. discriminate.
Defined.

(** ** verify-recovery *)

Definition the_key : string := "ABCDEFGHIJKLMNOPQRSTUVWXYZ012345".
Definition nonce24 : string := "012345678901234567890123".
Definition dump : string := "/registry/secrets/x" +:+ nl +:+ secretboxPrefix +:+ nonce24 +:+ (the_key +:+ "sealed") +:+ nl.
Definition dumped : Escrow.World Site :=
  mkWorld (({[place hub1 ArtifactSecretEncryptionKey := Codec.hex_encode the_key]} : gmap (string * string) string) : RSt) []
    (mkHost (environ machine) None ∅ {["dump" := dump]} []) fresh_site.
Definition opened := NewEscrowClient "" dumped.
Definition opened_with : infisicalEscrow := match opened.1 with Ok e => e | Err _ => client end.
Definition key_read := RestoreArtifact opened_with (ForCluster "b1" "h1") ArtifactSecretEncryptionKey opened.2.
Lemma recovery_verdict_witness : (runEscrowVerifyRecovery "b1" "h1" "dump" false dumped).1 = Ok ().
Proof.
  refine (proj2 (recovery_verdict "b1" "h1" "dump" dumped opened_with opened.2 (Codec.hex_encode the_key) key_read.2 the_key dump _ _ _ _ _
            nonce24 (the_key +:+ "sealed") nl _ _ _ _ _) _).
  - apply ran. vm_compute. reflexivity.
  - apply ran. vm_compute. reflexivity.
  - vm_compute. reflexivity.
  - reflexivity.
  - vm_compute. reflexivity.
  - vm_compute. reflexivity.
  - reflexivity.
  - vm_compute. lia.
  - right. left. reflexivity.
  - intros c Hc Hn. vm_compute in Hc. repeat (apply elem_of_cons in Hc as [->|Hc]; [vm_compute; vm_compute in Hn; congruence|]). by apply not_elem_of_nil in Hc.
  - vm_compute. by eexists.
Defined.

(** ** The master keys *)

(** A hub whose service answers nothing and whose randomness counts. *)
Definition counting : HubSecrets.Hub := {|
  HSt := unit;
  exchange _ _ s := (Err "unreachable", s, 1%N);
  decode_login _ := None; decode_value _ := None; decode_identity _ := None; decode_auth _ := None; decode_secret _ := None;
  decode_identities _ := None; unmarshal_credentials _ := None; HubSecrets.marshal _ := "";
  random i := Ok (Z.of_nat i) |}.
Definition vault : MasterKeys.Escrow := master_escrow client "h1" (λ k, k).
Definition no_site : Escrow.World unit := mkWorld (∅ : RSt) [] machine ().
Definition first_build : @HubSecrets.World counting (@MasterKeys.ESt vault) := @HubSecrets.mkWorld counting _ tt ∅ 0 0 [] no_site.
Definition built := @GenerateInfisicalSecrets counting vault "sec" "data" "" "o" true "b1" true "" first_build.
Definition built_secret : MasterKeys.Secret := match built.1 with Ok (s, _) => s | Err _ => GenerateInfisicalRedisCredentials "" "" "" end.
Definition built_redis : string := match built.1 with Ok (_, r) => r | Err _ => "" end.
