(* ===== verification/Regexp.v ===== *)
(** * Regexp: the regular expressions of Go's regexp package that the sources use.

    Matching is leftmost-first: of the ways to match from the leftmost place, the one that a
    search which tries the alternatives in order, and repeats as long or as short as the
    operator prefers, finds first. [run] is that search, with what follows as its
    continuation; a repetition never takes an empty turn. Texts are bytes: the classes used
    are of ASCII characters or complements of such, which take every byte of another
    character. *)

From S2P Require Import Prelude.

Local Open Scope string_scope.

Abbreviation char := Ascii.ascii.
Inductive re :=
| Eps
| Cls (f : char → bool)
| Seq (a b : re)
| Alt (a b : re)
| Star (greedy : bool) (a : re)
| Grp (n : nat) (a : re)
| Bot                                   (* ^ *)
| Bol                                   (* ^ with (?m) *)
| Eol.                                  (* $ with (?m) *)

(** Where the search is: the byte before, the text after, the groups that were closed. *)
Record pos := mkPos { before : option char; rest : string; groups : list (nat * string) }.

Definition is_nl (c : char) : bool := Ascii.eqb c "010".
Definition or_else {A} (x y : option A) : option A := match x with Some _ => x | None => y end.
(** What lies between two places. *)
Definition between (p p' : pos) : string := str_take (String.length (rest p) - String.length (rest p')) (rest p).

Section run.
Context {A : Type}.
(** A repetition: [body k p] matches one turn and goes on with [k]. *)
Fixpoint turns (greedy : bool) (body : (pos → option A) → pos → option A) (k : pos → option A) (n : nat) (p : pos) : option A :=
  match n with
  | O => k p
  | S n =>
      let more := body (λ p', if (String.length (rest p') <? String.length (rest p))%nat then turns greedy body k n p' else None) p in
      if greedy then or_else more (k p) else or_else (k p) more
  end.
Fixpoint run (r : re) (k : pos → option A) (p : pos) : option A :=
  match r with
  | Eps => k p
  | Cls f => match rest p with
             | String c s => if f c then k (mkPos (Some c) s (groups p)) else None
             | EmptyString => None
             end
  | Seq a b => run a (run b k) p
  | Alt a b => or_else (run a k p) (run b k p)
  | Star greedy a => turns greedy (run a) k (String.length (rest p)) p
  | Grp n a => run a (λ p', k (mkPos (before p') (rest p') ((n, between p p') :: groups p'))) p
  | Bot => match before p with None => k p | Some _ => None end
  | Bol => match before p with None => k p | Some c => if is_nl c then k p else None end
  | Eol => match rest p with EmptyString => k p | String c _ => if is_nl c then k p else None end
  end.
End run.

Definition Plus (a : re) : re := Seq a (Star true a).
Definition Opt (a : re) : re := Alt a Eps.
Fixpoint Lit (s : string) : re :=
  match s with EmptyString => Eps | String c s => Seq (Cls (Ascii.eqb c)) (Lit s) end.

(** The text of a group; none where it took no part. *)
Definition group (n : nat) (g : list (nat * string)) : string :=
  match List.find (λ x, (x.1 =? n)%nat) g with Some (_, s) => s | None => "" end.
(** A match at one place: its groups and how long it is. *)
Definition match_at (r : re) (b : option char) (s : string) : option (list (nat * string) * nat) :=
  run r (λ p, Some (groups p, String.length s - String.length (rest p))%nat) (mkPos b s []).
(** FindStringSubmatch *)
Fixpoint find_from (r : re) (b : option char) (s : string) : option (list (nat * string)) :=
  match match_at r b s with
  | Some (g, _) => Some g
  | None => match s with EmptyString => None | String c s => find_from r (Some c) s end
  end.
Definition FindStringSubmatch (r : re) (s : string) : option (list (nat * string)) := find_from r None s.
(** FindAllStringSubmatch of an expression that matches no empty text: the rest of a match is
    passed over. *)
Fixpoint find_all_from (r : re) (skip : nat) (b : option char) (s : string) : list (list (nat * string)) :=
  match s with
  | EmptyString => []
  | String c s' =>
      match skip with
      | S k => find_all_from r k (Some c) s'
      | O => match match_at r b s with
             | Some (g, n) => g :: find_all_from r (n - 1) (Some c) s'
             | None => find_all_from r 0 (Some c) s'
             end
      end
  end.
Definition FindAllStringSubmatch (r : re) (s : string) : list (list (nat * string)) := find_all_from r 0 None s.

(** ** Classes *)

Definition ord (c : char) : nat := Ascii.nat_of_ascii c.
Definition in_range (lo hi : char) (c : char) : bool := (ord lo <=? ord c)%nat && (ord c <=? ord hi)%nat.
Definition letter (c : char) : bool := in_range "a" "z" c || in_range "A" "Z" c.
Definition digit (c : char) : bool := in_range "0" "9" c.
(** \s *)
Definition blank (c : char) : bool := existsb (Ascii.eqb c) [" "; "009"; "010"; "012"; "013"]%char.
Definition quote : char := "034".
Definition backslash : char := "092".

(** The byte before the place that [s] leads to. *)
Fixpoint last_byte (b : option char) (s : string) : option char :=
  match s with EmptyString => b | String c s => last_byte (Some c) s end.
Definition starts_with (f : char → bool) (s : string) : bool :=
  match s with String c _ => f c | EmptyString => false end.

Lemma between_app b b' a s g g' : between (mkPos b (a +:+ s) g) (mkPos b' s g') = a.
Proof.
  unfold between. cbn [rest]. rewrite str_length_app. replace (String.length a + String.length s - String.length s)%nat with (String.length a) by lia.
  apply str_take_app.
Qed.

Section facts.
Context {A : Type}.
Implicit Types (k : pos → option A) (x : A).

Lemma run_cls f k b c s g : f c = true → run (Cls f) k (mkPos b (String c s) g) = k (mkPos (Some c) s g).
Proof. intros H. cbn. by rewrite H. Qed.
Lemma run_cls_no f k b s g : starts_with f s = false → run (Cls f) k (mkPos b s g) = None.
Proof. destruct s as [|c s]; [done|]. cbn. by intros ->. Qed.
Lemma run_grp n r k p : run (Grp n r) k p = run r (λ p', k (mkPos (before p') (rest p') ((n, between p p') :: groups p'))) p.
Proof. done. Qed.
Lemma run_seq r1 r2 k p : run (Seq r1 r2) k p = run r1 (run r2 k) p.
Proof. done. Qed.
Lemma run_bot k s g : run Bot k (mkPos None s g) = k (mkPos None s g).
Proof. done. Qed.
Lemma run_alt_first r1 r2 k p : run r2 k p = None → run (Alt r1 r2) k p = run r1 k p.
Proof. intros H. cbn. rewrite H. by destruct (run r1 k p). Qed.
Lemma run_alt_second r1 r2 k p : run r1 k p = None → run (Alt r1 r2) k p = run r2 k p.
Proof. intros H. cbn. by rewrite H. Qed.
Lemma run_opt r k p x : run r k p = Some x → run (Opt r) k p = Some x.
Proof. intros H. cbn. by rewrite H. Qed.
Lemma run_opt_no r k p : run r k p = None → run (Opt r) k p = k p.
Proof. intros H. cbn. by rewrite H. Qed.

(** Items of which one turn of the body takes exactly the first. *)
Lemma star_items (body : re) (item : string → Prop) (stop : string) k x g :
  (∀ t s b k, item t → run body k (mkPos b (t +:+ s) g) = k (mkPos (last_byte b t) s g)) →
  (∀ t, item t → t ≠ "") →
  (∀ b k, run body k (mkPos b stop g) = None) →
  ∀ ts b, Forall item ts → k (mkPos (last_byte b (String.concat "" ts)) stop g) = Some x →
  run (Star true body) k (mkPos b (String.concat "" ts +:+ stop) g) = Some x.
Proof.
  intros Hone Hne Hstop ts b Hts Hk. cbn [run rest].
  assert (∀ n ts b, Forall item ts → k (mkPos (last_byte b (String.concat "" ts)) stop g) = Some x →
    (String.length (String.concat "" ts +:+ stop) ≤ n)%nat → turns true (run body) k n (mkPos b (String.concat "" ts +:+ stop) g) = Some x) as H.
  2: by apply H.
  clear b ts Hts Hk. induction n as [|n IH]; intros ts b Hts Hk Hn.
  { rewrite str_length_app in Hn. assert (String.concat "" ts = "" ∧ stop = "") as [E ->].
    { destruct (String.concat "" ts), stop; cbn in Hn; try lia; done. }
    rewrite E in *. done. }
  destruct ts as [|t ts]; cbn [turns].
  { change (String.concat "" [] +:+ stop) with stop. rewrite Hstop. exact Hk. }
  inversion Hts as [|?? Ht Hts']; subst. assert (String.concat "" (t :: ts) = t +:+ String.concat "" ts) as E.
  { destruct ts; cbn; [by rewrite str_app_nil_r|]. by rewrite str_app_nil_l. }
  rewrite E in *. rewrite <- str_app_assoc in *. rewrite Hone by done. cbn [rest].
  specialize (Hne t Ht). assert (1 ≤ String.length t)%nat as Hlen by (destruct t; cbn; [done|lia]).
  rewrite str_length_app in Hn. rewrite (str_length_app t). rewrite (proj2 (Nat.ltb_lt _ _)) by lia.
  assert (last_byte b (t +:+ String.concat "" ts) = last_byte (last_byte b t) (String.concat "" ts)) as El.
  { clear. revert b. induction t as [|c t IH]; intros b; [done|]. rewrite str_app_cons. cbn. apply IH. }
  rewrite El in Hk. rewrite IH; [done|done|done|lia].
Qed.

(** One byte at a time. *)
Fixpoint bytes_of (s : string) : list string :=
  match s with EmptyString => [] | String c s => String c "" :: bytes_of s end.
Lemma concat_cons t ts : String.concat "" (t :: ts) = t +:+ String.concat "" ts.
Proof. destruct ts; cbn; [by rewrite str_app_nil_r|]. by rewrite str_app_nil_l. Qed.
Lemma concat_bytes s : String.concat "" (bytes_of s) = s.
Proof. induction s as [|c s IH]; [done|]. cbn [bytes_of]. rewrite concat_cons, IH. by rewrite str_app_cons, str_app_nil_l. Qed.
Lemma star_cls f a s k x b g : all_chars f a = true → starts_with f s = false →
  k (mkPos (last_byte b a) s g) = Some x → run (Star true (Cls f)) k (mkPos b (a +:+ s) g) = Some x.
Proof.
  intros Ha Hs Hk. rewrite <- (concat_bytes a) in Hk |- *.
  apply (star_items (Cls f) (λ t, ∃ c, t = String c "" ∧ f c = true)); [..|exact Hk].
  - intros t s' b' k' (c & -> & Hc). rewrite str_app_cons, str_app_nil_l. by rewrite run_cls.
  - by intros t (c & -> & _).
  - intros b' k'. by apply run_cls_no.
  - clear Hk. induction a as [|c a IH]; cbn in *; [constructor|]. apply andb_true_iff in Ha as [Hc Ha]. constructor; [by exists c|auto].
Qed.
(** A word: a byte of one class and a run of another, kept as a group. *)
Lemma run_word n f h c a s k x b g : f c = true → all_chars h a = true → starts_with h s = false →
  k (mkPos (last_byte b (String c a)) s ((n, String c a) :: g)) = Some x →
  run (Grp n (Seq (Cls f) (Star true (Cls h)))) k (mkPos b (String c a +:+ s) g) = Some x.
Proof.
  intros Hc Ha Hs Hk. rewrite run_grp, run_seq, str_app_cons, run_cls by done. apply star_cls; [done|done|]. cbn [before rest groups].
  rewrite <- str_app_cons, between_app. exact Hk.
Qed.
End facts.

(** ** Searches *)

Lemma find_all_skip r a s b : find_all_from r (String.length a) b (a +:+ s) = find_all_from r 0 (last_byte b a) s.
Proof. revert b. induction a as [|c a IH]; intros b; [done|]. rewrite str_app_cons. cbn. apply IH. Qed.
Lemma find_all_match r a s b g : a ≠ "" → match_at r b (a +:+ s) = Some (g, String.length a) →
  find_all_from r 0 b (a +:+ s) = g :: find_all_from r 0 (last_byte b a) s.
Proof.
  destruct a as [|c a]; [done|]. intros _. rewrite str_app_cons. intros H. cbn [find_all_from]. rewrite H. f_equal.
  replace (String.length (String c a) - 1)%nat with (String.length a) by (cbn; lia). by rewrite find_all_skip.
Qed.
Lemma find_all_pass r c s b : match_at r b (String c s) = None → find_all_from r 0 b (String c s) = find_all_from r 0 (Some c) s.
Proof. intros H. cbn [find_all_from]. by rewrite H. Qed.
Lemma find_here r s g n : match_at r None s = Some (g, n) → FindStringSubmatch r s = Some g.
Proof. intros H. unfold FindStringSubmatch. destruct s; cbn [find_from]; by rewrite H. Qed.
