(* ===== verification/Support.v ===== *)
(** * Support: the support agent and the boundary of what it reports.

    Models internal/support: allowlist.go, collect.go and transport.go, cmd/support-agent,
    and the allowlists shipped in manifests. [Net] is what the agent reaches: the components
    and the platform over HTTP, the YAML and JSON decoders, certificates, the files a
    pattern matches. [World] is that, the files, the clock, the two variables of the loop
    and the log of what was read and sent. Lines of the process log are not kept. *)

From S2P Require Import Prelude.
From S2P Require Import GoRuntime.
From S2P Require Import Regexp.

Local Open Scope string_scope.

(** ** The allowlist *)

Definition KindMetrics : string := "metrics".
Definition KindArtefact : string := "artefact".
Record Source := mkSource { Kind : string; Namespace : string; Service : string; Port : Z; Query : string; Path : string }.
Record Collector := mkCollector { Name : string; From : Source; Schema : list string; Emit : list string }.
Definition Allowlist : Type := list Collector.
Definition listed (l : list string) (s : string) : bool := existsb (String.eqb s) l.

(** One entry, given the names before it; the refusal, if any. *)
Definition check_entry (i : nat) (seen : list string) (c : Collector) : option string :=
  let metrics := String.eqb (Kind (From c)) KindMetrics in
  if String.eqb (Name c) "" then Some ("collector " +:+ pretty i +:+ " has no name")
  else if listed seen (Name c) then Some ("collector " +:+ quoted (Name c) +:+ " is declared twice")
  else if negb metrics && negb (String.eqb (Kind (From c)) KindArtefact)
  then Some ("collector " +:+ quoted (Name c) +:+ " has source kind " +:+ quoted (Kind (From c)))
  else match Schema c with
       | [] => Some ("collector " +:+ quoted (Name c) +:+ " declares no schema")
       | _ =>
           match List.find (λ f, negb (listed (Schema c) f)) (Emit c) with
           | Some f => Some ("collector " +:+ quoted (Name c) +:+ " emits " +:+ quoted f +:+ ", which is not in its schema")
           | None =>
               if metrics && (Port (From c) <=? 0)%Z then Some ("collector " +:+ quoted (Name c) +:+ " reads metrics and names no port")
               else if metrics && String.eqb (Query (From c)) "" then Some ("collector " +:+ quoted (Name c) +:+ " reads metrics and names no query")
               else None
           end
       end.
Fixpoint check_entries (i : nat) (seen : list string) (l : list Collector) : option string :=
  match l with
  | [] => None
  | c :: l => match check_entry i seen c with
              | Some e => Some e
              | None => check_entries (S i) (Name c :: seen) l
              end
  end.

Definition Effective (a : Allowlist) (deny : list string) : Allowlist :=
  let denied := listed (TrimSpace <$> deny) in
  c ← a;
  if denied (Name c) then []
  else
    let kept := List.filter (λ f, negb (denied f || denied (Name c +:+ "." +:+ f))) (Emit c) in
    match kept with
    | [] => []
    | _ => [mkCollector (Name c) (From c) (Schema c) kept]
    end.

Abbreviation fields := (gmap string string).
Definition Project (c : Collector) (observed : fields) : fields :=
  foldl (λ out f, match observed !! f with Some v => <[f := v]> out | None => out end) ∅ (Emit c).
Definition Fields (a : Allowlist) : list string :=
  merge_sort String.le (remove_dups (c ← a; f ← Emit c; [Name c +:+ "." +:+ f])).

(** ** The allowlists that are shipped *)

Definition metrics_of (namespace service : string) (port : Z) (query : string) : Source := mkSource KindMetrics namespace service port query "".
Definition bundle_version : Collector :=
  mkCollector "bundle-version" (mkSource KindArtefact "" "" 0 "" "clusters/*/bundle.yaml")
    ["bundleVersion"; "chart"; "targetRevision"] ["bundleVersion"; "targetRevision"].
Definition application_health (port : Z) : Collector :=
  mkCollector "application-health" (metrics_of "platform-ops" "argocd-applicationset-controller-metrics" port "argocd_app_info")
    ["name"; "project"; "sync_status"; "health_status"; "dest_server"] ["project"; "sync_status"; "health_status"].
Definition policy_violations (port : Z) : Collector :=
  mkCollector "policy-violations" (metrics_of "platform-ops" "kyverno-reports-controller-metrics" port "kyverno_policy_results_total")
    ["policy_name"; "policy_type"; "rule_result"; "resource_namespace"; "resource_name"] ["policy_name"; "policy_type"; "rule_result"].
Definition certificate_expiry (port : Z) (expiry : string) : Collector :=
  mkCollector "certificate-expiry" (metrics_of "platform-ops" "cert-manager-metrics" port "certmanager_certificate_expiration_timestamp_seconds")
    ["name"; "namespace"; "issuer_name"; expiry] ["issuer_name"; expiry].
Definition backup_health (app : string) : Collector :=
  mkCollector ("backup-health-" +:+ app) (metrics_of "platform-data" (app +:+ "-db-metrics") 9187 "cnpg_collector_last_available_backup_timestamp")
    ["value"] ["value"].
Definition node_pressure (port : Z) : Collector :=
  mkCollector "node-pressure" (metrics_of "platform-ops" "kube-state-metrics" port "kube_node_status_condition")
    ["node"; "condition"; "status"] ["condition"; "status"].
Definition hub_allowlist : Allowlist :=
  [bundle_version; application_health 8080; policy_violations 8080; certificate_expiry 8080 "value";
   backup_health "infisical"; backup_health "zitadel"; backup_health "grafana"; backup_health "credits"; node_pressure 8080].
(** On a spoke the sources name no port, which decodes as 0. *)
Definition spoke_allowlist : Allowlist :=
  [bundle_version; application_health 0; policy_violations 0; certificate_expiry 0 "expiration_timestamp"; node_pressure 0].

(** ** Collection *)

Definition name_start (c : char) : bool := letter c || existsb (Ascii.eqb c) ["_"; ":"]%char.
Definition name_char (c : char) : bool := name_start c || digit c.
Definition label_start (c : char) : bool := letter c || Ascii.eqb c "_".
Definition label_char (c : char) : bool := label_start c || digit c.
Definition one (c : char) : re := Cls (Ascii.eqb c).
(** The name of a series, its labels in braces where it has any, blanks, and its value. *)
Definition sampleLine : re :=
  Seq Bot (Seq (Grp 1 (Seq (Cls name_start) (Star true (Cls name_char))))
    (Seq (Opt (Seq (one "{") (Seq (Grp 2 (Star true (Cls (λ c, negb (Ascii.eqb "}" c))))) (one "}"))))
      (Seq (Plus (Cls blank)) (Grp 3 (Plus (Cls (λ c, negb (blank c)))))))).
(** One character of a label value, or an escaped one. *)
Definition label_item : re :=
  Alt (Cls (λ c, negb (Ascii.eqb quote c) && negb (Ascii.eqb backslash c))) (Seq (one backslash) (Cls (λ c, negb (is_nl c)))).
(** A label: its name, an equals sign and its quoted value. *)
Definition labelPair : re :=
  Seq (Grp 1 (Seq (Cls label_start) (Star true (Cls label_char))))
    (Seq (one "=") (Seq (one quote) (Seq (Grp 2 (Star true label_item)) (one quote)))).
(** From the start of a line: blanks, perhaps a dash, blanks, a key, a colon, blanks, and the
    shortest value, perhaps quoted, with which only blanks are left of its line. *)
Definition artefactField : re :=
  let spaces := Star true (Cls blank) in
  let text := Cls (λ c, negb (existsb (Ascii.eqb c) [quote; "010"; "#"]%char)) in
  Seq Bol (Seq spaces (Seq (Opt (one "-")) (Seq spaces
    (Seq (Grp 1 (Seq (Cls letter) (Star true (Cls label_char))))
      (Seq (one ":") (Seq spaces (Seq (Opt (one quote))
        (Seq (Grp 2 (Seq text (Star false text))) (Seq (Opt (one quote)) (Seq spaces Eol)))))))))).

(** strings.NewReplacer of an escaped backslash, quote and newline. *)
Fixpoint unescape (s : string) : string :=
  match s with
  | String a (String b s' as t) =>
      if Ascii.eqb a backslash then
        if Ascii.eqb b backslash then String backslash (unescape s')
        else if Ascii.eqb b quote then String quote (unescape s')
        else if Ascii.eqb b "n" then String "010" (unescape s')
        else String a (unescape t)
      else String a (unescape t)
  | s => s
  end.
(** bufio.Scanner: lines without their end, the last one only where it is not empty; a line
    that does not fit the buffer ends the scan. *)
Definition without_cr (l : string) : string := TrimSuffix l (String "013" "").
Definition max_line : Z := 4 * 1024 * 1024.
Definition lines (s : string) : list string :=
  let l := Split s "010" in
  match last l with Some "" => removelast l | _ => l end.
Definition fits (l : string) : bool := (Z.of_nat (String.length l) <? max_line)%Z.

Definition sample_labels (s : string) : fields :=
  foldl (λ m g, <[group 1 g := unescape (group 2 g)]> m) ∅ (FindAllStringSubmatch labelPair s).
(** What one line tells of the series. *)
Definition sample (query line : string) : option fields :=
  let line := TrimSpace line in
  if String.eqb line "" || HasPrefix line "#" then None
  else match FindStringSubmatch sampleLine line with
       | None => None
       | Some m => if String.eqb (group 1 m) query
                   then Some (<[query := group 3 m]> (<["value" := group 3 m]> (sample_labels (group 2 m))))
                   else None
       end.
Definition scan (query body : string) : result string (list fields) :=
  if forallb fits (lines body) then Ok (omap (λ l, sample query (without_cr l)) (lines body))
  else Err "bufio.Scanner: token too long".
Definition artefact_fields (schema : list string) (text : string) : fields :=
  foldl (λ m g, let k := group 1 g in
                if listed schema k then match m !! k with Some _ => m | None => <[k := TrimSpace (group 2 g)]> m end else m)
    ∅ (FindAllStringSubmatch artefactField text).

Record Record_ := mkRecord { rec_Collector : string; rec_Fields : fields }.
Record Payload := mkPayload { p_Cluster : string; p_Collected : string; Records : list Record_; Skipped : gmap string string }.

(** ** What the agent reaches *)

(** A reply: its status and what could be read of its body, with the error that ended it. *)
Record Reply := mkReply { re_code : Z; re_status : string; re_body : string; re_broken : option string }.
Class Net := {
  NSt : Type;
  (* the answer or the error, and how long it took *)
  http_get : string → NSt → result string Reply * NSt * Z;
  http_post : string → string → option string → string → NSt → result string Reply * NSt * Z;   (* url, identity, CA, body *)
  glob : string → gmap string string → result string (list string);   (* of the path as joined, which it cleans *)
  load_keypair : string → string → result string string;        (* the certificate in PEM *)
  common_name : string → result string string;
  pem_certificates : string → bool;
  yaml_collectors : string → option (list Collector);
  yaml_configmap : string → option (gmap string string);         (* data *)
  marshal : Payload → result string string;
  decode_reason : string → option string;
  rfc3339 : Z → string }.

Inductive Event :=
| Scraped (url : string)
| ReadFile (path : string)
| Posted (url identity body : string).
Record Enrolment := mkEnrolment { CertFile : string; KeyFile : string; CAFile : string; Endpoint : string }.

Section agent.
Context {Nt : Net}.
Record World := mkWorld { net : NSt; disk : gmap string string; now : Z; revoked : bool; lastProbe : Z; log : list Event }.
Abbreviation M A := (goM World string A).

Definition emit (e : Event) : M unit := modify (λ w, mkWorld (net w) (disk w) (now w) (revoked w) (lastProbe w) (log w ++ [e])).
Definition HTTP {A} (call : NSt → A * NSt * Z) : M A := λ w,
  match call (net w) with (r, n, d) => (Ok r, mkWorld n (disk w) (now w + d)%Z (revoked w) (lastProbe w) (log w)) end.
Definition or_throw {A} (what : string → string) (r : result string A) : M A :=
  match r with Ok a => mret a | Err e => throw (what e) end.
Definition read_file (path : string) : M string :=
  emit (ReadFile path) ;;
  f ← gets (λ w, disk w !! path);
  match f with Some t => mret t | None => throw ("open " +:+ path +:+ ": no such file or directory") end.

(** The interface Reader and the one that reads from inside the box. *)
Record Reader := mkReader { r_Metrics : string → string → Z → M string; r_Artefact : string → M string }.
Definition metrics_url (namespace service : string) (port : Z) : string :=
  "http://" +:+ service +:+ "." +:+ namespace +:+ ".svc.cluster.local:" +:+ pretty port +:+ "/metrics".
(** io.LimitReader *)
Definition limited (n : N) (b : string) : string := if (N.of_nat (String.length b) <=? n)%N then b else str_take (N.to_nat n) b.
Definition body_limit : N := 16 * 1024 * 1024.
Definition Metrics (namespace service : string) (port : Z) : M string :=
  let url := metrics_url namespace service port in
  emit (Scraped url) ;;
  r ← HTTP (http_get url);
  resp ← or_throw (λ e, url +:+ ": " +:+ e) r;
  if negb (re_code resp =? 200)%Z then throw (url +:+ ": " +:+ re_status resp)
  else match re_broken resp with
       | Some e => if (N.of_nat (String.length (re_body resp)) <? body_limit)%N then throw e else mret (limited body_limit (re_body resp))
       | None => mret (limited body_limit (re_body resp))
       end.
Definition Artefact (gitopsDir pattern : string) : M string :=
  if String.eqb gitopsDir "" then throw ("no repository to read " +:+ pattern +:+ " from")
  else
    d ← gets disk;
    matches ← or_throw id (glob (gitopsDir +:+ "/" +:+ pattern) d);
    match merge_sort String.le matches with
    | [] => throw (pattern +:+ " matched no file")
    | m :: _ => read_file m
    end.
Definition ClusterReader (gitopsDir : string) : Reader := mkReader Metrics (Artefact gitopsDir).

Definition Parse (doc : string) : result string Allowlist :=
  match yaml_collectors doc with
  | None => Err "allowlist is not a list of collectors"
  | Some [] => Err "allowlist declares no collectors"
  | Some raw => match check_entries 0 [] raw with Some e => Err e | None => Ok raw end
  end.

Definition collectMetrics (r : Reader) (c : Collector) : M (list fields) :=
  body ← r_Metrics r (Namespace (From c)) (Service (From c)) (Port (From c));
  or_throw id (scan (Query (From c)) body).
Definition collectArtefact (r : Reader) (c : Collector) : M (list fields) :=
  b ← r_Artefact r (Path (From c));
  let observed := artefact_fields (Schema c) b in
  mret (if bool_decide (observed = ∅) then [] else [observed]).
Definition observe (r : Reader) (c : Collector) : M (list fields) :=
  if String.eqb (Kind (From c)) KindMetrics then collectMetrics r c
  else if String.eqb (Kind (From c)) KindArtefact then collectArtefact r c
  else throw ("unimplemented source kind " +:+ quoted (Kind (From c))).
Definition skip (c : Collector) (why : string) (p : Payload) : Payload :=
  mkPayload (p_Cluster p) (p_Collected p) (Records p) (<[Name c := why]> (Skipped p)).
Definition collect_one (r : Reader) (p : Payload) (c : Collector) : M Payload :=
  o ← attempt (observe r c);
  mret match o with
       | Err e => skip c e p
       | Ok [] => skip c "the query matched nothing" p
       | Ok observed => mkPayload (p_Cluster p) (p_Collected p)
                          (Records p ++ ((λ o, mkRecord (Name c) (Project c o)) <$> observed)) (Skipped p)
       end.
Definition Collect (a : Allowlist) (r : Reader) (cluster : string) : M Payload :=
  t ← gets now;
  foldM (collect_one r) a (mkPayload cluster (rfc3339 t) [] ∅).

(** ** Transport *)

Inductive SendError := ErrEnrolmentRevoked | SendFailed (msg : string).
Definition RevokedReason : string := "ENROLMENT_REVOKED".
Definition isRevocation (body : string) : bool :=
  match decode_reason body with Some r => String.eqb r RevokedReason | None => false end.
Definition Enrolled (e : Enrolment) (w : World) : bool :=
  negb (String.eqb (Endpoint e) "" || String.eqb (CertFile e) "" || String.eqb (KeyFile e) "")
  && bool_decide (is_Some (disk w !! CertFile e)) && bool_decide (is_Some (disk w !! KeyFile e)).
Definition keypair (e : Enrolment) : M string :=
  c ← gets (λ w, disk w !! CertFile e);
  k ← gets (λ w, disk w !! KeyFile e);
  match c, k with
  | Some c, Some k => or_throw id (load_keypair c k)
  | _, _ => throw "no such file or directory"
  end.
Definition Identity (e : Enrolment) : M string :=
  pair ← keypair e;
  or_throw id (common_name pair).
(** The certificate presented and the CA trusted. *)
Definition NewTransport (e : Enrolment) : M (string * option string) :=
  pair ← keypair e;
  if String.eqb (CAFile e) "" then mret (pair, None)
  else
    pem ← gets (λ w, disk w !! CAFile e);
    match pem with
    | None => throw ("support: CA bundle: open " +:+ CAFile e)
    | Some pem => if pem_certificates pem then mret (pair, Some pem)
                  else throw ("support: CA bundle at " +:+ CAFile e +:+ " contains no certificate")
    end.
Definition reply_limit : N := 4 * 1024.
Definition Send (e : Enrolment) (t : string * option string) (p : Payload) : M (option SendError) :=
  match marshal p with
  | Err m => mret (Some (SendFailed m))
  | Ok body =>
      emit (Posted (Endpoint e) t.1 body) ;;
      r ← HTTP (http_post (Endpoint e) t.1 t.2 body);
      match r with
      | Err m => mret (Some (SendFailed ("support: " +:+ m)))
      | Ok resp =>
          if (re_code resp / 100 =? 2)%Z then mret None
          else
            if isRevocation (limited reply_limit (re_body resp)) then mret (Some ErrEnrolmentRevoked)
            else mret (Some (SendFailed ("support: endpoint returned " +:+ re_status resp)))
      end
  end.

(** ** The agent *)

Definition reprobe : Z := 24 * ns_hour.
Definition set_revoked (b : bool) : M unit := modify (λ w, mkWorld (net w) (disk w) (now w) b (lastProbe w) (log w)).
Definition probe_now : M unit := modify (λ w, mkWorld (net w) (disk w) (now w) (revoked w) (now w) (log w)).
(** What a cycle does once it is known to be due. *)
Definition report (a : Allowlist) (e : Enrolment) (gitopsDir : string) : M unit :=
  enrolled ← gets (Enrolled e);
  if negb enrolled then mret ()
  else
    i ← attempt (Identity e);
    match i with
    | Err _ => mret ()
    | Ok identity =>
        payload ← Collect a (ClusterReader gitopsDir) identity;
        t ← attempt (NewTransport e);
        match t with
        | Err _ => mret ()
        | Ok t =>
            r ← Send e t payload;
            match r with
            | None => set_revoked false
            | Some ErrEnrolmentRevoked => set_revoked true
            | Some (SendFailed _) => mret ()
            end
        end
    end.
Definition cycle (a : Allowlist) (e : Enrolment) (gitopsDir : string) : M unit :=
  w ← get;
  if revoked w then
    if (time_sub (now w) (lastProbe w) <? reprobe)%Z then mret ()
    else probe_now ;; report a e gitopsDir
  else report a e gitopsDir.

(** What the process does before its first cycle; the denylist is text in UTF-8. *)
Definition document (raw : string) : string :=
  match yaml_configmap raw with
  | Some data => let d := default "" (data !! "allowlist.yaml") in if String.eqb d "" then raw else d
  | None => raw
  end.
Fixpoint splitComma_from (cur s : string) : list string :=
  match s with
  | EmptyString => if String.eqb cur "" then [] else [cur]
  | String c s => if Ascii.eqb c "," then (if String.eqb cur "" then [] else [cur]) ++ splitComma_from "" s
                  else splitComma_from (cur +:+ String c "") s
  end.
Definition splitComma (s : string) : list string := splitComma_from "" s.
Definition scope (raw deny : string) : result string Allowlist :=
  match Parse (document raw) with
  | Err e => Err ("allowlist: " +:+ e)
  | Ok a => Ok (Effective a (if String.eqb deny "" then [] else splitComma deny))
  end.

(** ** The commands that show it *)

Definition loadAllowlist (file : result string string) (deny : list string) : result string Allowlist :=
  match file with
  | Err e => Err e
  | Ok raw =>
      match yaml_configmap raw with
      | None => Err "the allowlist ConfigMap does not parse"
      | Some data =>
          match data !! "allowlist.yaml" with
          | None => Err "the allowlist ConfigMap has no allowlist.yaml key"
          | Some body => match Parse body with Err e => Err e | Ok a => Ok (Effective a deny) end
          end
      end
  end.
Definition runScope (file : result string string) (deny : list string) : result string (list string) :=
  match loadAllowlist file deny with Err e => Err e | Ok a => Ok (Fields a) end.
Definition not_enrolled : string := "(not enrolled: no client certificate)".
Definition runPreview (file : result string string) (deny : list string) (certFile keyFile gitopsDir : string) : M Payload :=
  a ← or_throw id (loadAllowlist file deny);
  i ← attempt (Identity (mkEnrolment certFile keyFile "" ""));
  Collect a (ClusterReader gitopsDir) match i with Ok identity => identity | Err _ => not_enrolled end.

Definition sorted_keys (m : fields) : list string := merge_sort String.le (map_to_list m).*1.
Definition row_line (row : fields) : string :=
  "    " +:+ Join ((λ k, k +:+ "=" +:+ default "" (row !! k)) <$> sorted_keys row) " ".
(** Collectors in the order in which they first appear. *)
Definition order_of (l : list Record_) : list string :=
  foldl (λ o r, if listed o (rec_Collector r) then o else (o ++ [rec_Collector r])%list) [] l.
Definition padded (n : nat) (s : string) : string := s +:+ Nat.iter (n - String.length s) (String " ") "".
Definition printPayload (p : Payload) : list string :=
  (["reporting as " +:+ p_Cluster p +:+ ", collected " +:+ p_Collected p; ""]
  ++ (name ← order_of (Records p);
      let rows := rec_Fields <$> List.filter (λ r, String.eqb (rec_Collector r) name) (Records p) in
      (name +:+ "  (" +:+ pretty (length rows) +:+ " record(s))") :: (row_line <$> rows) ++ [""])
  ++ (if bool_decide (Skipped p = ∅) then []
      else "not collected:" :: ((λ n, "    " +:+ padded 22 n +:+ " " +:+ default "" (Skipped p !! n)) <$> sorted_keys (Skipped p)) ++ [""])
  ++ ["Nothing was transmitted. This is the whole payload; no field outside"; "the scope above can appear in it (kakt support scope)."])%list.
End agent.
