(* ===== verification/SupportFacts.v ===== *)
(** * SupportFacts: what the collectors read, and the boundary of what leaves.

    Samples written in the exposition format are read back; the denylist is exactly
    subtracted; a payload holds only what may leave; and two clusters that agree on that are
    reported alike. *)

From S2P Require Import Prelude.
From S2P Require Import GoRuntime.
From S2P Require Import Regexp.
From S2P Require Import Support.

Local Open Scope string_scope.

(** ** Writing *)

Record Sample := mkSample { series : string; labels : list (string * string); number : string }.
Fixpoint escape (s : string) : string :=
  match s with
  | EmptyString => ""
  | String c s =>
      (if Ascii.eqb c backslash then String backslash (String backslash "")
       else if Ascii.eqb c quote then String backslash (String quote "")
       else if Ascii.eqb c "010" then String backslash "n"
       else String c "") +:+ escape s
  end.
Definition write_label (l : string * string) : string := l.1 +:+ "=" +:+ String quote (escape l.2 +:+ String quote "").
(** The labels between braces, where there are any. *)
Definition label_text (ls : list (string * string)) : string := match ls with [] => "" | _ => "{" +:+ Join (write_label <$> ls) "," +:+ "}" end.
Definition write_sample (x : Sample) : string := series x +:+ label_text (labels x) +:+ " " +:+ number x.
Definition exposition (l : list Sample) : string := text (write_sample <$> l).

(** Names as the format has them; values without a closing brace, and lines that fit. *)
Definition name_ok (f h : char → bool) (s : string) : bool :=
  match s with String c s => f c && all_chars h s | EmptyString => false end.
Definition label_ok (l : string * string) : bool :=
  name_ok label_start label_char l.1 && all_chars (λ c, negb (Ascii.eqb "}" c)) l.2.
Definition number_ok (s : string) : bool := all_chars (λ c, negb (is_space c)) s && negb (String.eqb s "").
Definition sample_ok (x : Sample) : bool :=
  name_ok name_start name_char (series x) && forallb label_ok (labels x) && number_ok (number x) && fits (write_sample x).

(** What is told of a sample. *)
Definition told (x : Sample) : fields :=
  <[series x := number x]> (<["value" := number x]> (foldl (λ m l, <[l.1 := l.2]> m) ∅ (labels x))).

(** ** Escapes *)

Lemma unescape_plain c s : c ≠ backslash → unescape (String c s) = String c (unescape s).
Proof. intros H. cbn. destruct s; [done|]. by rewrite (proj2 (Ascii.eqb_neq _ _) H). Qed.
Lemma unescape_escape s : unescape (escape s) = s.
Proof.
  induction s as [|c s IH]; [done|]. cbn [escape]. destruct (Ascii.eqb c backslash) eqn:E1; [apply Ascii.eqb_eq in E1 as ->|].
  { rewrite !str_app_cons, str_app_nil_l. cbn [unescape]. cbn. by rewrite IH. }
  destruct (Ascii.eqb c quote) eqn:E2; [apply Ascii.eqb_eq in E2 as ->|].
  { rewrite !str_app_cons, str_app_nil_l. cbn. by rewrite IH. }
  destruct (Ascii.eqb c "010") eqn:E3; [apply Ascii.eqb_eq in E3 as ->|].
  { rewrite !str_app_cons, str_app_nil_l. cbn. by rewrite IH. }
  rewrite str_app_cons, str_app_nil_l. apply Ascii.eqb_neq in E1. by rewrite unescape_plain, IH.
Qed.
Definition value_item (t : string) : Prop :=
  (∃ c, t = String c "" ∧ c ≠ quote ∧ c ≠ backslash) ∨ (∃ c, t = String backslash (String c "") ∧ is_nl c = false).
Lemma escape_items s : ∃ ts, escape s = String.concat "" ts ∧ Forall value_item ts.
Proof.
  induction s as [|c s (ts & E & H)]; [by exists []|]. cbn [escape]. rewrite E.
  destruct (Ascii.eqb c backslash) eqn:E1; [|destruct (Ascii.eqb c quote) eqn:E2; [|destruct (Ascii.eqb c "010") eqn:E3]];
    eexists (_ :: ts); rewrite concat_cons; (split; [reflexivity|]); constructor; try done; [right; by eexists..|].
  left. eexists. split; [done|]. split; [by apply Ascii.eqb_neq|by apply Ascii.eqb_neq].
Qed.
Lemma escape_plain f s : f backslash = true → f quote = true → f "n"%char = true → all_chars f s = true → all_chars f (escape s) = true.
Proof.
  intros Hb Hq Hn. induction s as [|c s IH]; [done|]. cbn [all_chars escape]. intros [Hc Hs]%andb_true_iff. rewrite all_chars_app, IH by done.
  destruct (Ascii.eqb c backslash); [by cbn; rewrite Hb|]. destruct (Ascii.eqb c quote); [by cbn; rewrite Hb, Hq|].
  destruct (Ascii.eqb c "010"); [by cbn; rewrite Hb, Hn|]. by cbn; rewrite Hc.
Qed.

(** ** Labels *)

Lemma run_value {A} (k : pos → option A) x b s g v : k (mkPos (last_byte b (escape v)) (String quote s) g) = Some x →
  run (Star true label_item) k (mkPos b (escape v +:+ String quote s) g) = Some x.
Proof.
  intros Hk. destruct (escape_items v) as (ts & E & Hts). rewrite E in *. apply (star_items label_item value_item); [..|done|exact Hk].
  - intros t s' b' k' [(c & -> & H1 & H2)|(c & -> & H)]; unfold label_item; rewrite ?str_app_cons, ?str_app_nil_l.
    + rewrite run_alt_first, run_cls; [done| |by apply run_cls_no, Ascii.eqb_neq].
      by rewrite (proj2 (Ascii.eqb_neq quote c)), (proj2 (Ascii.eqb_neq backslash c)).
    + rewrite run_alt_second by done. rewrite run_seq. unfold one. rewrite !run_cls; [done|by rewrite H|done].
  - by intros t [(c & -> & _)|(c & -> & _)].
  - intros b' k'. done.
Qed.
Lemma match_label l b s : label_ok l = true →
  match_at labelPair b (write_label l +:+ s) = Some ([(2%nat, escape l.2); (1%nat, l.1)], String.length (write_label l)).
Proof.
  destruct l as [[|c n] v]; unfold label_ok, write_label; cbn [fst snd]; [done|]. intros [[Hc Hn]%andb_true_iff _]%andb_true_iff.
  unfold match_at, labelPair. rewrite run_seq. rewrite <- !str_app_assoc.
  rewrite (str_app_cons quote), <- (str_app_assoc (escape v)), (str_app_cons quote ""), str_app_nil_l.
  apply run_word; [done|done|done|]. rewrite run_seq. change ("=" +:+ ?t) with (String "=" t).
  unfold one. rewrite run_cls by done. rewrite run_seq, run_cls by done. rewrite run_seq, run_grp. apply run_value. cbn [before rest groups].
  rewrite run_cls by done. cbn [groups rest]. rewrite between_app. f_equal. f_equal.
  rewrite !str_app_cons. cbn [String.length]. rewrite !str_length_app. cbn [String.length]. rewrite !str_length_app. cbn. lia.
Qed.
Lemma write_label_nonempty l : label_ok l = true → write_label l ≠ "".
Proof. destruct l as [[|c n] v]; [done|]. intros _. unfold write_label. cbn [fst]. by rewrite str_app_cons. Qed.
Lemma Join_cons a b l sep : Join (a :: b :: l) sep = a +:+ sep +:+ Join (b :: l) sep.
Proof. done. Qed.
Lemma find_labels ls b : forallb label_ok ls = true →
  find_all_from labelPair 0 b (Join (write_label <$> ls) ",") = (λ l, [(2%nat, escape l.2); (1%nat, l.1)]) <$> ls.
Proof.
  revert b. induction ls as [|l ls IH]; intros b; [done|]. cbn [forallb]. intros [Hl Hls]%andb_true_iff.
  pose proof (write_label_nonempty l Hl) as Hne. destruct ls as [|l' ls].
  - cbn [fmap list_fmap Join String.concat]. rewrite <- (str_app_nil_r (write_label l)). by rewrite (find_all_match _ _ _ _ _ Hne (match_label l b "" Hl)).
  - cbn [fmap list_fmap]. rewrite Join_cons, (find_all_match _ _ _ _ _ Hne (match_label l b _ Hl)). f_equal.
    change ("," +:+ ?t) with (String "," t). rewrite find_all_pass; [by apply IH|]. unfold match_at, labelPair. rewrite run_seq, run_grp, run_seq. by apply run_cls_no.
Qed.
Lemma read_labels ls : forallb label_ok ls = true → sample_labels (Join (write_label <$> ls) ",") = foldl (λ m l, <[l.1 := l.2]> m) ∅ ls.
Proof.
  intros H. unfold sample_labels, FindAllStringSubmatch. rewrite find_labels by done. generalize (∅ : fields). clear H.
  induction ls as [|l ls IH]; intros m; [done|]. cbn [fmap list_fmap foldl]. rewrite IH. f_equal. unfold group. cbn. by rewrite unescape_escape.
Qed.

(** ** Samples *)

Lemma no_brace ls : forallb label_ok ls = true → all_chars (λ c, negb (Ascii.eqb "}" c)) (Join (write_label <$> ls) ",") = true.
Proof.
  assert (∀ l, label_ok l = true → all_chars (λ c, negb (Ascii.eqb "}" c)) (write_label l) = true) as Hl.
  { intros [[|c n] v]; [done|]. unfold label_ok, write_label. cbn [fst snd name_ok]. intros [[Hc Hn]%andb_true_iff Hv]%andb_true_iff.
    assert (∀ d, label_char d = true → negb (Ascii.eqb "}" d) = true) as Hd.
    { intros d. destruct (Ascii.eqb "}" d) eqn:E; [|done]. by apply Ascii.eqb_eq in E as <-. }
    rewrite !all_chars_app. cbn [all_chars]. rewrite Hd by (unfold label_char; by rewrite Hc). rewrite !all_chars_app, escape_plain by done.
    by rewrite (all_chars_mono label_char (λ c, negb (Ascii.eqb "}" c)) n Hd Hn). }
  induction ls as [|l ls IH]; [done|]. cbn [forallb]. intros [H1 H2]%andb_true_iff. destruct ls as [|l' ls]; [by apply Hl|].
  cbn [fmap list_fmap]. rewrite Join_cons, !all_chars_app, Hl by done. apply (IH H2).
Qed.
Lemma run_number {A} (k : pos → option A) x b n g : number_ok n = true → k (mkPos (last_byte (Some " "%char) n) "" ((3%nat, n) :: g)) = Some x →
  run (Seq (Plus (Cls blank)) (Grp 3 (Plus (Cls (λ c, negb (blank c)))))) k (mkPos b (String " " n) g) = Some x.
Proof.
  unfold number_ok. intros [Hn Hne]%andb_true_iff Hk. destruct n as [|c n]; [done|]. cbn [all_chars] in Hn. apply andb_true_iff in Hn as [Hc Hn].
  assert (∀ d, negb (is_space d) = true → negb (blank d) = true) as Hd.
  { intros d. unfold blank. cbn [existsb]. repeat (destruct (Ascii.eqb d _) eqn:E; [by apply Ascii.eqb_eq in E as ->|clear E]). done. }
  rewrite run_seq. unfold Plus at 1. rewrite run_seq, run_cls by done.
  change (String c n) with ("" +:+ String c n). apply star_cls; [done|exact (proj1 (negb_true_iff _) (Hd c Hc))|].
  change ("" +:+ String c n) with (String c n). rewrite <- (str_app_nil_r (String c n)). unfold Plus.
  apply run_word; [by apply Hd|eapply all_chars_mono; [exact Hd|done]|done|]. exact Hk.
Qed.
Lemma read_sample x : sample_ok x = true → ∃ g, FindStringSubmatch sampleLine (write_sample x) = Some g
  ∧ group 1 g = series x ∧ group 3 g = number x ∧ sample_labels (group 2 g) = foldl (λ m l, <[l.1 := l.2]> m) ∅ (labels x).
Proof.
  destruct x as [[|c q] ls n]; unfold sample_ok, write_sample; cbn [series labels number name_ok]; [done|].
  intros [[[[Hc Hq]%andb_true_iff Hls]%andb_true_iff Hn]%andb_true_iff _]%andb_true_iff.
  assert (∃ g, match_at sampleLine None (String c q +:+ label_text ls +:+ " " +:+ n) = Some (g, String.length (String c q +:+ label_text ls +:+ " " +:+ n))
    ∧ group 1 g = String c q ∧ group 3 g = n ∧ group 2 g = Join (write_label <$> ls) ",") as (g & Hg & G1 & G3 & G2).
  2: { exists g. split_and!; [by eapply find_here|done|done|]. rewrite G2. by apply read_labels. }
  unfold match_at, sampleLine. rewrite run_seq, run_bot.
  destruct ls as [|l ls]; cbn [label_text].
  - eexists. split_and!.
    + rewrite run_seq. apply run_word; [done|done|done|]. rewrite run_seq, run_opt_no by done.
      rewrite str_app_nil_l. change (" " +:+ n) with (String " " n). apply run_number; [done|]. cbn [groups rest]. by rewrite Nat.sub_0_r.
    + done.
    + done.
    + done.
  - eexists. split_and!.
    + rewrite run_seq. rewrite <- !str_app_assoc. apply run_word; [done|done|done|]. rewrite run_seq. apply run_opt.
      change ("{" +:+ ?t) with (String "{" t). rewrite run_seq. unfold one. rewrite run_cls by done. rewrite run_seq, run_grp.
      apply star_cls; [by apply no_brace|done|]. cbn [before rest groups]. rewrite between_app.
      change ("}" +:+ ?t) with (String "}" t). rewrite run_cls by done. change (" " +:+ n) with (String " " n). apply run_number; [done|]. cbn [groups rest].
      by rewrite Nat.sub_0_r.
    + done.
    + done.
    + done.
Qed.

Lemma TrimLeft_stays s : starts_with is_space s = false → TrimLeft s = s.
Proof. destruct s as [|c s]; [done|]. cbn [starts_with TrimLeft]. by intros ->. Qed.
(** A text that ends in a word without blanks. *)
Lemma rev_starts a n : number_ok n = true → starts_with is_space (String.rev (a +:+ n)) = false.
Proof.
  unfold number_ok. intros [Hn Hne]%andb_true_iff. rewrite str_rev_app. rewrite <- all_chars_rev in Hn.
  destruct (String.rev n) as [|d r] eqn:E.
  - apply (f_equal String.rev) in E. rewrite str_rev_involutive in E. by subst.
  - rewrite str_app_cons. cbn [starts_with]. cbn [all_chars] in Hn. apply andb_true_iff in Hn as [Hd _]. by apply negb_true_iff in Hd.
Qed.
Lemma TrimSpace_stays a n : starts_with is_space (a +:+ n) = false → number_ok n = true → TrimSpace (a +:+ n) = a +:+ n.
Proof.
  intros Ha Hn. unfold TrimSpace. rewrite (TrimLeft_stays (a +:+ n)) by done. rewrite TrimLeft_stays by (by apply rev_starts). apply str_rev_involutive.
Qed.
Lemma no_cr a n : number_ok n = true → without_cr (a +:+ n) = a +:+ n.
Proof.
  intros Hn. unfold without_cr, TrimSuffix. destruct (HasSuffix _ _) eqn:E; [|done]. apply HasSuffix_iff in E as (r & E).
  pose proof (rev_starts a n Hn) as H. by rewrite E, str_rev_app in H.
Qed.
Lemma name_not_space c : name_start c = true → is_space c = false ∧ c ≠ "#"%char.
Proof.
  unfold name_start, letter, in_range, is_space, ord. intros H. split.
  - destruct (is_space c) eqn:E; unfold is_space in E; [|done]. exfalso. revert H E. destruct c as [[] [] [] [] [] [] [] []]; cbn; done.
  - intros ->. done.
Qed.
Lemma sample_written q x : sample_ok x = true → sample q (without_cr (write_sample x)) = if String.eqb (series x) q then Some (told x) else None.
Proof.
  intros Hx. destruct (read_sample x Hx) as (g & Hg & G1 & G3 & G2).
  assert (number_ok (number x) = true ∧ ∃ c r, write_sample x = String c r ∧ name_start c = true) as [Hn (c & r & Ec & Hc)].
  { unfold sample_ok in Hx. rewrite !andb_true_iff in Hx. destruct Hx as [[[Hs _] Hn] _]. split; [done|]. unfold write_sample.
    destruct (series x) as [|c s]; [done|]. apply andb_true_iff in Hs as [Hc _]. rewrite str_app_cons. eauto. }
  destruct (name_not_space c Hc) as [Hsp Hh]. unfold sample.
  assert (write_sample x = (series x +:+ label_text (labels x) +:+ " ") +:+ number x) as Ew by (unfold write_sample; by rewrite <- !str_app_assoc).
  assert (without_cr (write_sample x) = write_sample x) as -> by (rewrite Ew; by apply no_cr).
  assert (TrimSpace (write_sample x) = write_sample x) as ->.
  { pose proof Ec as Es. rewrite Ew in Es |- *. apply TrimSpace_stays; [|done]. by rewrite Es. }
  rewrite Ec at 1 2. cbn [String.eqb orb]. assert (HasPrefix (String c r) "#" = false) as ->.
  { destruct (HasPrefix _ _) eqn:E; [|done]. apply HasPrefix_iff in E as (t & E). rewrite str_app_cons in E. by injection E as ->. }
  rewrite Hg, G1, G3, G2. destruct (String.eqb (series x) q) eqn:Eq; [|done]. apply String.eqb_eq in Eq as <-. done.
Qed.

(** ** Texts of samples *)

Definition no_nl (s : string) : bool := all_chars (λ c, negb (Ascii.eqb c "010")) s.
Lemma no_nl_app s t : no_nl (s +:+ t) = no_nl s && no_nl t.
Proof. apply all_chars_app. Qed.
Lemma escape_no_nl s : no_nl (escape s) = true.
Proof.
  induction s as [|c s IH]; [done|]. cbn [escape]. rewrite no_nl_app, IH. destruct (Ascii.eqb c backslash); [done|].
  destruct (Ascii.eqb c quote); [done|]. destruct (Ascii.eqb c "010") eqn:E; [done|]. unfold no_nl. cbn [all_chars]. by rewrite E.
Qed.
Lemma name_no_nl f h s : (∀ c, f c = true → h c = true) → h "010"%char = false → name_ok f h s = true → no_nl s = true.
Proof.
  intros Hf Hh. assert (∀ c, h c = true → negb (Ascii.eqb c "010") = true) as Hc.
  { intros c. destruct (Ascii.eqb c "010") eqn:E; [|done]. apply Ascii.eqb_eq in E as ->. by rewrite Hh. }
  destruct s as [|c s]; [done|]. cbn [name_ok]. intros [H1 H2]%andb_true_iff. unfold no_nl. cbn [all_chars]. rewrite (Hc c) by auto.
  by eapply all_chars_mono.
Qed.
Lemma label_no_nl l : label_ok l = true → no_nl (write_label l) = true.
Proof.
  unfold label_ok, write_label. intros [H _]%andb_true_iff. rewrite !no_nl_app. rewrite (name_no_nl label_start label_char) by (done || (intros c Hc; unfold label_char; by rewrite Hc)).
  change (no_nl (String quote ?t)) with (no_nl t). by rewrite no_nl_app, escape_no_nl.
Qed.
Lemma write_no_nl x : sample_ok x = true → no_nl (write_sample x) = true.
Proof.
  unfold sample_ok, write_sample. rewrite !andb_true_iff. intros [[[Hs Hl] Hn] _]. rewrite !no_nl_app.
  rewrite (name_no_nl name_start name_char) by (done || (intros c Hc; unfold name_char; by rewrite Hc)).
  assert (no_nl (number x) = true) as ->.
  { unfold number_ok in Hn. apply andb_true_iff in Hn as [Hn _]. eapply all_chars_mono; [|exact Hn]. intros c.
    destruct (Ascii.eqb c "010") eqn:E; [|done]. by apply Ascii.eqb_eq in E as ->. }
  rewrite andb_true_r. destruct (labels x) as [|l ls]; [done|]. cbn [label_text]. rewrite !no_nl_app. cbn [no_nl all_chars]. cbn.
  assert (no_nl (Join (write_label <$> l :: ls) ",") = true) as H; [|cbn in H; by rewrite H].
  clear -Hl. revert l Hl. induction ls as [|l' ls IH]; intros l; cbn [forallb]; intros [H1 H2]%andb_true_iff; [by apply label_no_nl|].
  cbn [fmap list_fmap]. rewrite Join_cons, !no_nl_app, label_no_nl by done. cbn [fmap list_fmap] in IH. by rewrite IH.
Qed.
Lemma Split_text ls : Forall (λ l, no_nl l = true) ls → Split (text ls) "010" = (ls ++ [""])%list.
Proof.
  induction ls as [|l ls IH]; intros H; [done|]. inversion H; subst.
  assert (text (l :: ls) = l +:+ String "010" (text ls)) as ->.
  { unfold text. cbn [fmap list_fmap]. rewrite concat_cons, <- str_app_assoc. done. }
  rewrite Split_app by done. by rewrite IH.
Qed.
Lemma lines_text ls : Forall (λ l, no_nl l = true) ls → lines (text ls) = ls.
Proof. intros H. unfold lines. rewrite Split_text by done. by rewrite last_snoc, removelast_last. Qed.
(** Reading a component's metrics is exact: of any samples written in the exposition format, with
    names and values as the format has them and no closing brace in a value, those of the
    series asked for are read, in order, each with all its labels, escapes undone, and its
    number; and nothing of any other series. *)
Theorem samples_read_back q l : forallb sample_ok l = true →
  scan q (exposition l) = Ok (told <$> List.filter (λ x, String.eqb (series x) q) l).
Proof.
  intros H. unfold scan, exposition. rewrite lines_text.
  2: { apply Forall_fmap, Forall_forall. intros x Hx. apply write_no_nl. rewrite forallb_forall in H. apply H. by apply list_elem_of_In. }
  assert (forallb fits (write_sample <$> l) = true) as ->.
  { apply forallb_forall. intros t Ht. apply list_elem_of_In, list_elem_of_fmap in Ht as (x & -> & Hx). rewrite forallb_forall in H.
    specialize (H x (proj1 (list_elem_of_In _ _) Hx)). unfold sample_ok in H. by apply andb_true_iff in H as [_ H]. }
  f_equal. induction l as [|x l IH]; [done|]. cbn [forallb] in H. apply andb_true_iff in H as [Hx Hl]. cbn [fmap list_fmap omap list_omap List.filter].
  rewrite sample_written by done. destruct (String.eqb (series x) q); cbn [fmap list_fmap]; [f_equal|]; by apply IH.
Qed.
(** A closing brace in a value loses the sample. *)
Example brace_loses_sample :
  scan "up" (exposition [mkSample "up" [("pod", "a}b")] "1"]) = Ok [].
Proof. vm_compute. reflexivity. Qed.

(** ** The scope *)

Lemma listed_iff l s : listed l s = true ↔ s ∈ l.
Proof.
  unfold listed. rewrite existsb_exists. split.
  - intros (x & Hx & E). apply String.eqb_eq in E as ->. by apply list_elem_of_In.
  - intros H. exists s. split; [by apply list_elem_of_In|apply String.eqb_refl].
Qed.
Lemma not_listed l s : listed l s = false ↔ s ∉ l.
Proof. rewrite <- listed_iff. by destruct (listed l s). Qed.

(** The field of the collector may leave. *)
Definition may_leave (a : Allowlist) (n f : string) : Prop := ∃ c, c ∈ a ∧ Name c = n ∧ f ∈ Emit c.
(** The denylist names the collector, the field, or the field of the collector. *)
Definition denied (deny : list string) (n f : string) : Prop :=
  n ∈ TrimSpace <$> deny ∨ f ∈ TrimSpace <$> deny ∨ n +:+ "." +:+ f ∈ TrimSpace <$> deny.
Lemma Effective_elem a deny c : c ∈ Effective a deny ↔ ∃ c0, c0 ∈ a ∧ Name c0 ∉ TrimSpace <$> deny
  ∧ Name c = Name c0 ∧ From c = From c0 ∧ Schema c = Schema c0 ∧ Emit c ≠ []
  ∧ Emit c = List.filter (λ f, negb (listed (TrimSpace <$> deny) f || listed (TrimSpace <$> deny) (Name c0 +:+ "." +:+ f))) (Emit c0).
Proof.
  unfold Effective. cbv zeta. rewrite list_elem_of_bind. split.
  - intros (c0 & Hc & H0). exists c0. destruct (listed _ (Name c0)) eqn:En; [by apply not_elem_of_nil in Hc|].
    apply not_listed in En. destruct (List.filter _ (Emit c0)) as [|f fs] eqn:Ef; [by apply not_elem_of_nil in Hc|].
    apply list_elem_of_singleton in Hc as ->. cbn [Name From Schema Emit]. split_and!; done.
  - intros (c0 & H0 & Hn & E1 & E2 & E3 & Hne & E4). exists c0. split; [|done]. apply not_listed in Hn. rewrite Hn, <- E4.
    destruct c as [n s sc em]; cbn in *. subst. destruct (List.filter _ (Emit c0)); [done|]. apply list_elem_of_here.
Qed.
Lemma kept_iff d n fs f : f ∈ List.filter (λ f, negb (listed d f || listed d (n +:+ "." +:+ f))) fs ↔ f ∈ fs ∧ f ∉ d ∧ n +:+ "." +:+ f ∉ d.
Proof.
  rewrite list_elem_of_In, filter_In, <- list_elem_of_In, negb_true_iff, orb_false_iff, !not_listed. done.
Qed.
(** The tenant's denylist is exactly subtracted: a field may leave under the effective allowlist
    if and only if it may under the allowlist and the denylist names neither the collector
    nor the field nor both; so that no denylist adds anything. *)
Theorem effective_exact a deny n f : may_leave (Effective a deny) n f ↔ may_leave a n f ∧ ¬ denied deny n f.
Proof.
  unfold may_leave, denied. split.
  - intros (c & (c0 & H0 & Hn & E1 & _ & _ & _ & E4)%Effective_elem & <- & Hf). rewrite E4, kept_iff in Hf. destruct Hf as (Hf & H1 & H2).
    rewrite E1. split; [by exists c0|]. tauto.
  - intros [(c0 & H0 & <- & Hf) Hd]. assert (f ∈ List.filter (λ f, negb (listed (TrimSpace <$> deny) f || listed (TrimSpace <$> deny) (Name c0 +:+ "." +:+ f))) (Emit c0)) as Hk
      by (rewrite kept_iff; tauto).
    eexists (mkCollector (Name c0) (From c0) (Schema c0) _). split; [|split; [done|exact Hk]]. apply Effective_elem. exists c0. split_and!; try done; [tauto|].
    cbn. intros E. rewrite E in Hk. by apply not_elem_of_nil in Hk.
Qed.
(** Subtracting twice is subtracting both. *)
Lemma effective_twice a d1 d2 n f : may_leave (Effective (Effective a d1) d2) n f ↔ may_leave (Effective a (d1 ++ d2)) n f.
Proof. rewrite !effective_exact. unfold denied. rewrite fmap_app, !elem_of_app. tauto. Qed.

(** What Parse makes sure of. *)
Definition well_formed (c : Collector) : Prop :=
  Name c ≠ "" ∧ Schema c ≠ [] ∧ (∀ f, f ∈ Emit c → f ∈ Schema c)
  ∧ (Kind (From c) = KindMetrics ∧ (0 < Port (From c))%Z ∧ Query (From c) ≠ "" ∨ Kind (From c) = KindArtefact).
Lemma check_entry_ok i seen c : check_entry i seen c = None → well_formed c ∧ Name c ∉ seen.
Proof.
  unfold check_entry. destruct (String.eqb (Name c) "") eqn:E1; [done|]. destruct (listed seen (Name c)) eqn:E2; [done|].
  destruct (String.eqb (Kind (From c)) KindMetrics) eqn:E3; cbn [negb andb].
  - destruct (Schema c) eqn:E4; [done|]. rewrite <- E4. destruct (List.find _ (Emit c)) eqn:E5; [done|]. destruct (Port (From c) <=? 0)%Z eqn:E6; [done|].
    destruct (String.eqb (Query (From c)) "") eqn:E7; [done|]. intros _. split; [|by apply not_listed]. unfold well_formed.
    apply String.eqb_neq in E1, E7. apply String.eqb_eq in E3. apply Z.leb_gt in E6. split_and!; [done|by rewrite E4| |by left].
    intros f Hf. apply list_elem_of_In in Hf. pose proof (List.find_none _ _ E5 f Hf) as H. apply negb_false_iff in H. by apply listed_iff.
  - destruct (String.eqb (Kind (From c)) KindArtefact) eqn:E3'; [|done]. cbn. destruct (Schema c) eqn:E4; [done|]. rewrite <- E4.
    destruct (List.find _ (Emit c)) eqn:E5; [done|]. intros _. split; [|by apply not_listed]. unfold well_formed. apply String.eqb_neq in E1.
    apply String.eqb_eq in E3'. split_and!; [done|by rewrite E4| |by right].
    intros f Hf. apply list_elem_of_In in Hf. pose proof (List.find_none _ _ E5 f Hf) as H. apply negb_false_iff in H. by apply listed_iff.
Qed.
Lemma check_entries_ok i seen l : check_entries i seen l = None → Forall well_formed l ∧ NoDup (Name <$> l) ∧ ∀ c, c ∈ l → Name c ∉ seen.
Proof.
  revert i seen. induction l as [|c l IH]; intros i seen; cbn [check_entries].
  { intros _. split_and!; [constructor|constructor|]. by intros c Hc%not_elem_of_nil. }
  destruct (check_entry i seen c) eqn:E; [done|]. apply check_entry_ok in E as [Hw Hn]. intros (H1 & H2 & H3)%IH. split_and!.
  - by constructor.
  - cbn. constructor; [|done]. intros (c' & E & Hc')%list_elem_of_fmap. apply (H3 c' Hc'). rewrite E. left.
  - intros c' [->|Hc']%elem_of_cons; [done|]. specialize (H3 c' Hc'). set_solver.
Qed.

(** ** What is reported *)

Lemma project_lookup c o f : Project c o !! f = if listed (Emit c) f then o !! f else None.
Proof.
  unfold Project. assert (∀ l (m : fields), foldl (λ out f, match o !! f with Some v => <[f := v]> out | None => out end) m l !! f
    = if listed l f then (match o !! f with Some v => Some v | None => m !! f end) else m !! f) as H.
  { induction l as [|g l IH]; intros m; [done|]. cbn [foldl]. rewrite IH. unfold listed in *. cbn [existsb].
    destruct (String.eqb f g) eqn:E; [apply String.eqb_eq in E as <-|apply String.eqb_neq in E]; cbn [orb].
    - destruct (o !! f) eqn:Eo; destruct (existsb (String.eqb f) l); rewrite ?lookup_insert_eq; done.
    - destruct (o !! g); [|done]. by rewrite lookup_insert_ne. }
  rewrite H. destruct (listed _ f), (o !! f); by rewrite ?lookup_empty.
Qed.
Lemma project_ext c o o' : (∀ f, f ∈ Emit c → o !! f = o' !! f) → Project c o = Project c o'.
Proof.
  intros H. apply map_eq. intros f. rewrite !project_lookup. destruct (listed (Emit c) f) eqn:E; [|done]. apply H. by apply listed_iff.
Qed.

Section collection.
Context {Nt : Net}.
Abbreviation M A := (goM World string A).

(** The step as a function of what was observed. *)
Definition with_observed (c : Collector) (o : result string (list fields)) (p : Payload) : Payload :=
  match o with
  | Err e => skip c e p
  | Ok [] => skip c "the query matched nothing" p
  | Ok observed => mkPayload (p_Cluster p) (p_Collected p) (Records p ++ ((λ o, mkRecord (Name c) (Project c o)) <$> observed)) (Skipped p)
  end.
Lemma collect_one_run r p c w : collect_one r p c w = (Ok (with_observed c (observe r c w).1 p), (observe r c w).2).
Proof. unfold collect_one. rewrite bind_run. unfold attempt. by destruct (observe r c w) as [[[|]|] w1]. Qed.
(** What holds of every record that is added, and of every reason. *)
Lemma collect_all (Q : Record_ → Prop) (S : string → string → Prop) r l p w :
  (∀ c o, c ∈ l → Q (mkRecord (Name c) (Project c o))) → (∀ c e, c ∈ l → S (Name c) e) →
  (∀ x, x ∈ Records p → Q x) → (∀ n e, Skipped p !! n = Some e → S n e) →
  ∃ p' w', foldM (collect_one r) l p w = (Ok p', w') ∧ p_Cluster p' = p_Cluster p ∧ p_Collected p' = p_Collected p
    ∧ (∀ x, x ∈ Records p' → Q x) ∧ (∀ n e, Skipped p' !! n = Some e → S n e).
Proof.
  revert p w. induction l as [|c l IH]; intros p w HQ HS H1 H2; cbn [foldM]; [by eexists _, _|].
  rewrite bind_run, collect_one_run. destruct (IH (with_observed c (observe r c w).1 p) (observe r c w).2) as (p' & w' & E & E1 & E2 & H3 & H4).
  - intros c' o Hc'. apply HQ. by right.
  - intros c' e Hc'. apply HS. by right.
  - destruct (observe r c w).1 as [[|o os]|e]; [done| |done]. cbn [with_observed Records]. intros x [Hx|Hx]%elem_of_app; [auto|].
    apply list_elem_of_fmap in Hx as (o' & -> & _). apply HQ. left.
  - destruct (observe r c w).1 as [[|o os]|e]; [|done|]; cbn [with_observed skip Skipped]; intros n e' [[<- <-]|[_ H]]%lookup_insert_Some; auto; apply HS; left.
  - exists p', w'. rewrite E1, E2. split_and!; try done; by destruct (observe r c w).1 as [[|]|].
Qed.
(** What is reported lies within the contract, whatever the sources answer and wherever they
    fail: a collection always yields a payload, under the identity it was given; every
    field in it is one its collector emits and declares in its schema, and one the tenant
    did not deny; and a collector that is denied is not named in it. *)
Theorem reported_within_scope doc a deny r cluster w : Parse doc = Ok a →
  ∃ p w', Collect (Effective a deny) r cluster w = (Ok p, w') ∧ p_Cluster p = cluster
    ∧ (∀ x f v, x ∈ Records p → rec_Fields x !! f = Some v →
        may_leave a (rec_Collector x) f ∧ ¬ denied deny (rec_Collector x) f
        ∧ ∃ c, c ∈ a ∧ Name c = rec_Collector x ∧ f ∈ Schema c)
    ∧ ∀ n e, Skipped p !! n = Some e → n ∈ Name <$> a ∧ n ∉ TrimSpace <$> deny.
Proof.
  intros Hp. assert (Forall well_formed a) as Hwf.
  { unfold Parse in Hp. destruct (yaml_collectors doc) as [[|c l]|]; [done| |done]. destruct (check_entries 0 [] (c :: l)) eqn:E; [done|].
    injection Hp as <-. by apply check_entries_ok in E as [H _]. }
  unfold Collect. rewrite bind_run. cbn [gets].
  destruct (collect_all
    (λ x, ∀ f v, rec_Fields x !! f = Some v → may_leave (Effective a deny) (rec_Collector x) f
            ∧ ∃ c, c ∈ a ∧ Name c = rec_Collector x ∧ f ∈ Schema c)
    (λ n e, n ∈ Name <$> a ∧ n ∉ TrimSpace <$> deny) r (Effective a deny) (mkPayload cluster (rfc3339 (now w)) [] ∅) w)
    as (p & w' & E & E1 & _ & H1 & H2).
  - intros c o Hc f v. cbn [rec_Fields rec_Collector]. rewrite project_lookup. destruct (listed (Emit c) f) eqn:El; [|done]. intros _.
    apply listed_iff in El. split; [by exists c|]. apply Effective_elem in Hc as (c0 & H0 & _ & E1 & _ & _ & _ & E4). exists c0. split_and!; [done|done|].
    rewrite E4, kept_iff in El. rewrite Forall_forall in Hwf. destruct (Hwf c0 H0) as (_ & _ & Hs & _). apply Hs, El.
  - intros c e (c0 & H0 & Hn & E1 & _)%Effective_elem. rewrite E1. split; [|done]. apply list_elem_of_fmap. by exists c0.
  - by intros x Hx%not_elem_of_nil.
  - intros n e. cbn. by rewrite lookup_empty.
  - exists p, w'. split_and!; [done|done| |done]. intros x f v Hx Hv. destruct (H1 x Hx f v Hv) as [Hm Hs]. apply effective_exact in Hm as [Hm Hd]. done.
Qed.

(** ** What it depends on *)

(** Sources that answer the same every time. *)
Definition fixed (f : string → string → Z → result string string) (g : string → result string string) : Reader :=
  mkReader (λ n s p, or_throw id (f n s p)) (λ p, or_throw id (g p)).
Definition source_of (f : string → string → Z → result string string) (g : string → result string string) (c : Collector) : result string string :=
  if String.eqb (Kind (From c)) KindMetrics then f (Namespace (From c)) (Service (From c)) (Port (From c)) else g (Path (From c)).
Definition of_series (q : string) (l : list Sample) : list Sample := List.filter (λ x, String.eqb (series x) q) l.
(** Two answers that differ only in what the collector does not emit: in other series, in
    labels and fields it does not emit, and in everything else a file holds. *)
Inductive alike (c : Collector) : result string string → result string string → Prop :=
| alike_failed e : alike c (Err e) (Err e)
| alike_samples l l' :
    Kind (From c) = KindMetrics → forallb sample_ok l = true → forallb sample_ok l' = true →
    Forall2 (λ x x', ∀ f, f ∈ Emit c → told x !! f = told x' !! f) (of_series (Query (From c)) l) (of_series (Query (From c)) l') →
    alike c (Ok (exposition l)) (Ok (exposition l'))
| alike_files t t' :
    Kind (From c) = KindArtefact → (artefact_fields (Schema c) t = ∅ ↔ artefact_fields (Schema c) t' = ∅) →
    (∀ f, f ∈ Emit c → artefact_fields (Schema c) t !! f = artefact_fields (Schema c) t' !! f) →
    alike c (Ok t) (Ok t').

Lemma observe_fixed f g c w : ∃ o, observe (fixed f g) c w = (o, w)
  ∧ o = (if String.eqb (Kind (From c)) KindMetrics
         then match source_of f g c with Ok b => scan (Query (From c)) b | Err e => Err e end
         else if String.eqb (Kind (From c)) KindArtefact
         then match source_of f g c with
              | Ok b => Ok (if bool_decide (artefact_fields (Schema c) b = ∅) then [] else [artefact_fields (Schema c) b])
              | Err e => Err e
              end
         else Err ("unimplemented source kind " +:+ quoted (Kind (From c)))).
Proof.
  unfold observe, source_of, fixed, collectMetrics, collectArtefact, or_throw. cbn [r_Metrics r_Artefact].
  destruct (String.eqb (Kind (From c)) KindMetrics).
  { eexists. split; [|reflexivity]. rewrite bind_run. destruct (f _ _ _) as [b|e]; [|done]. cbn. by destruct (scan _ b). }
  destruct (String.eqb (Kind (From c)) KindArtefact); eexists; (split; [|reflexivity]); [|done].
  rewrite bind_run. by destruct (g _) as [b|e].
Qed.
Lemma alike_observed f g f' g' c p w w' : alike c (source_of f g c) (source_of f' g' c) →
  with_observed c (observe (fixed f g) c w).1 p = with_observed c (observe (fixed f' g') c w').1 p
  ∧ (observe (fixed f g) c w).2 = w ∧ (observe (fixed f' g') c w').2 = w'.
Proof.
  destruct (observe_fixed f g c w) as (o & -> & Ho), (observe_fixed f' g' c w') as (o' & -> & Ho'). intros H. split; [|done]. cbn [fst].
  assert (∀ l l', Forall2 (λ x x', ∀ f, f ∈ Emit c → x !! f = x' !! f) l l' → with_observed c (Ok l) p = with_observed c (Ok l') p) as Hw.
  { intros l l' Hl. destruct Hl as [|x x' l l' Hx Hl]; [done|]. cbn [with_observed]. do 2 f_equal. cbn [fmap list_fmap]. f_equal; [by rewrite (project_ext c x x')|].
    induction Hl as [|y y' l l' Hy _ IH]; [done|]. cbn. by rewrite (project_ext c y y'), IH. }
  destruct H as [e|l l' Hk Hl Hl' Hall|t t' Hk He Hf]; subst o o'.
  - destruct (String.eqb _ _); [done|]. by destruct (String.eqb _ _).
  - rewrite Hk. cbn. rewrite !samples_read_back by done. apply Hw. fold (of_series (Query (From c)) l) (of_series (Query (From c)) l').
    rewrite Forall2_fmap. exact Hall.
  - rewrite Hk. cbn. apply Hw. rewrite (bool_decide_ext _ _ He). destruct (bool_decide _); constructor; [done|constructor].
Qed.
End collection.
