(* ===== verification/SupportAgentFacts.v ===== *)
(** * SupportAgentFacts: when the agent reads and reports, and what is shown of it.

    Over every history of cycles, whatever anything answers: what is scraped, read and sent is
    what the contract names; nothing is while the box is not enrolled; reports of a revoked
    box are a day apart. What the boundary lets through. [kakt support scope] lists exactly
    what may leave, and [kakt support preview] shows the payload the agent would post. At the
    end the theorems at one box: a platform that answers every report, with a refusal once
    the enrolment is revoked, and of the components only kube-state-metrics. *)

From S2P Require Import Prelude.
From S2P Require Import GoRuntime.
From S2P Require Import Regexp.
From S2P Require Import Support.
From S2P Require Import SupportFacts.

Local Open Scope string_scope.

Section agent.
Context {Nt : Net}.
Abbreviation M A := (goM World string A).
Context (raw denylist gitopsDir : string) (e : Enrolment) (a : Allowlist).

Definition denials : list string := if String.eqb denylist "" then [] else splitComma denylist.
Lemma scope_inv a' : scope raw denylist = Ok a' → ∃ a0, Parse (document raw) = Ok a0 ∧ a' = Effective a0 denials.
Proof. unfold scope. destruct (Parse (document raw)) as [a0|]; [|done]. intros [= <-]. by exists a0. Qed.

(** ** What the cycles do *)

Definition payload_ok (p : Payload) : Prop :=
  (∀ x f v, x ∈ Records p → rec_Fields x !! f = Some v → may_leave a (rec_Collector x) f)
  ∧ ∀ n m, Skipped p !! n = Some m → n ∈ Name <$> a.
(** An event the contract allows. *)
Definition allowed (ev : Event) : Prop :=
  match ev with
  | Scraped url => ∃ c, c ∈ a ∧ Kind (From c) = KindMetrics ∧ url = metrics_url (Namespace (From c)) (Service (From c)) (Port (From c))
  | ReadFile path => ∃ c d l, c ∈ a ∧ Kind (From c) = KindArtefact ∧ glob (gitopsDir +:+ "/" +:+ Path (From c)) d = Ok l ∧ path ∈ l
  | Posted url cert body => url = Endpoint e ∧ ∃ p, marshal p = Ok body ∧ payload_ok p
  end.
Lemma appends_ret {A B} P (x : A) (f : A → M B) : appends log P (f x) → appends log P (mret x ≫= f).
Proof. done. Qed.
Lemma appends_foldM_in {A B} P (f : B → A → M B) (l : list A) b :
  (∀ b x, x ∈ l → appends log P (f b x)) → appends log P (foldM f l b).
Proof.
  revert b. induction l as [|x l IH]; intros b Hf; cbn [foldM]; [by apply appends_none|].
  apply appends_bind; [apply Hf; left|]. intros b'. apply IH. intros; apply Hf. by right.
Qed.
Lemma HTTP_log {A} (f : NSt → A * NSt * Z) w : log (HTTP f w).2 = log w.
Proof. unfold HTTP. by destruct (f (net w)) as [[r n] d]. Qed.
Lemma throw_log {A} (what : string → string) (r : result string A) (w : World) : log ((or_throw what r : M A) w).2 = log w.
Proof. by destruct r. Qed.
Lemma Metrics_appends c : c ∈ a → Kind (From c) = KindMetrics → appends log allowed (Metrics (Namespace (From c)) (Service (From c)) (Port (From c))).
Proof.
  intros Hc Hk. unfold Metrics. apply appends_bind.
  { apply appends_one. intros w. eexists. split; [done|]. cbn. eauto. }
  intros _. apply appends_bind; [apply appends_none; intros; apply HTTP_log|]. intros r.
  apply appends_bind; [apply appends_none; intros; apply throw_log|]. intros resp.
  destruct (negb _); [by apply appends_none|]. destruct (re_broken resp); [destruct (_ <? _)%N|]; by apply appends_none.
Qed.
Lemma Artefact_appends c : c ∈ a → Kind (From c) = KindArtefact → appends log allowed (Artefact gitopsDir (Path (From c))).
Proof.
  intros Hc Hk. unfold Artefact. destruct (String.eqb gitopsDir ""); [by apply appends_none|].
  apply appends_bind; [by apply appends_none|]. intros d. unfold or_throw. destruct (glob _ d) as [l|m] eqn:El; [|by apply appends_none].
  apply appends_ret. destruct (merge_sort String.le l) as [|f fs] eqn:Es; [by apply appends_none|]. unfold read_file.
  apply appends_bind.
  { apply appends_one. intros w. eexists. split; [done|]. cbn. exists c, d, l. split_and!; [done..|].
    rewrite <- (elem_of_merge_sort String.le), Es. left. }
  intros _. apply appends_bind; [by apply appends_none|]. by intros [t|]; apply appends_none.
Qed.
Lemma observe_appends c : c ∈ a → appends log allowed (observe (ClusterReader gitopsDir) c).
Proof.
  intros Hc. unfold observe. destruct (String.eqb (Kind (From c)) KindMetrics) eqn:E1.
  { apply String.eqb_eq in E1. apply appends_bind; [by apply Metrics_appends|]. intros b. apply appends_none. intros; apply throw_log. }
  destruct (String.eqb (Kind (From c)) KindArtefact) eqn:E2; [|by apply appends_none]. apply String.eqb_eq in E2.
  apply appends_bind; [by apply Artefact_appends|]. intros b. by apply appends_none.
Qed.
Lemma Collect_appends cluster : appends log allowed (Collect a (ClusterReader gitopsDir) cluster).
Proof.
  apply appends_bind; [by apply appends_none|]. intros t. apply appends_foldM_in. intros p c Hc.
  apply appends_bind; [by apply appends_attempt, observe_appends|]. intros o. by apply appends_none.
Qed.
Lemma Collect_ok cluster w : ∃ p w', Collect a (ClusterReader gitopsDir) cluster w = (Ok p, w') ∧ payload_ok p.
Proof.
  unfold Collect. rewrite bind_run. cbn [gets].
  destruct (collect_all (λ x, ∀ f v, rec_Fields x !! f = Some v → may_leave a (rec_Collector x) f) (λ n _, n ∈ Name <$> a)
              (ClusterReader gitopsDir) a (mkPayload cluster (rfc3339 (now w)) [] ∅) w) as (p & w' & E & _ & _ & H1 & H2).
  - intros c o Hc f v. cbn [rec_Fields rec_Collector]. rewrite project_lookup. destruct (listed (Emit c) f) eqn:El; [|done]. intros _.
    apply listed_iff in El. by exists c.
  - intros c m Hc. apply list_elem_of_fmap. by exists c.
  - by intros x Hx%not_elem_of_nil.
  - intros n m. cbn. by rewrite lookup_empty.
  - exists p, w'. split; [done|]. split; [eauto|done].
Qed.
(** A program that neither reads nor sends, and leaves the loop's variables. *)
Definition quiet {A} (m : M A) : Prop := ∀ w, (m w).2 = w.
Lemma keypair_quiet : quiet (keypair e).
Proof. intros w. unfold keypair. rewrite bind_run. cbn [gets]. rewrite bind_run. cbn [gets]. unfold or_throw.
  destruct (disk w !! CertFile e) as [c|], (disk w !! KeyFile e) as [k|]; [by destruct (load_keypair c k)|done..]. Qed.
Lemma Identity_quiet : quiet (Identity e).
Proof.
  intros w. unfold Identity. rewrite bind_run. pose proof (keypair_quiet w) as H. destruct (keypair e w) as [[p|m] w1]; cbn in H; subst; [|done].
  by destruct (common_name p).
Qed.
Lemma NewTransport_quiet : quiet (NewTransport e).
Proof.
  intros w. unfold NewTransport. rewrite bind_run. pose proof (keypair_quiet w) as H. destruct (keypair e w) as [[p|m] w1]; cbn in H; subst; [|done].
  destruct (String.eqb _ ""); [done|]. rewrite bind_run. cbn [gets]. destruct (disk w !! CAFile e) as [pem|]; [|done]. by destruct (pem_certificates pem).
Qed.
Lemma Send_appends t p : payload_ok p → appends log allowed (Send e t p).
Proof.
  intros Hp. unfold Send. destruct (marshal p) as [body|m] eqn:Em; [|by apply appends_none]. apply appends_bind.
  { apply appends_one. intros w. eexists. split; [done|]. cbn. eauto. }
  intros _. apply appends_bind; [apply appends_none; intros; apply HTTP_log|]. intros [resp|m]; [|by apply appends_none].
  destruct (_ =? 2)%Z; [by apply appends_none|]. by destruct (isRevocation _); apply appends_none.
Qed.
Lemma report_appends : appends log allowed (report a e gitopsDir).
Proof.
  intros w. unfold report. rewrite bind_run. cbn [gets]. destruct (negb (Enrolled e w)); [exists []; by rewrite app_nil_r|].
  rewrite bind_run. unfold attempt at 1. pose proof (Identity_quiet w) as HI. destruct (Identity e w) as [[i|m] w1]; cbn in HI; subst w1; [|exists []; by rewrite app_nil_r].
  rewrite bind_run. destruct (Collect_ok i w) as (p & w1 & E1 & Hp). rewrite E1. destruct (appends_run log allowed _ _ _ _ (Collect_appends i) E1) as (n1 & L1 & F1).
  rewrite bind_run. unfold attempt. pose proof (NewTransport_quiet w1) as HT. destruct (NewTransport e w1) as [[t|m] w2]; cbn in HT; subst w2; [|by exists n1].
  rewrite bind_run. destruct (Send e t p w1) as [r w2] eqn:E2. destruct (appends_run log allowed _ _ _ _ (Send_appends t p Hp) E2) as (n2 & L2 & F2).
  assert (log w2 = (log w ++ (n1 ++ n2))%list ∧ Forall allowed (n1 ++ n2)%list) as [L F] by (rewrite L2, L1, app_assoc; split; [done|by apply Forall_app]).
  destruct r as [[[|m]|]|m]; by exists (n1 ++ n2)%list.
Qed.
Lemma cycle_appends : appends log allowed (cycle a e gitopsDir).
Proof.
  unfold cycle. intros w. rewrite bind_run. cbn [get]. destruct (revoked w); [|apply report_appends].
  destruct (_ <? _)%Z; [exists []; by rewrite app_nil_r|]. apply (appends_bind log allowed probe_now (λ _, report a e gitopsDir)); [by apply appends_none|].
  intros _. apply report_appends.
Qed.

(** ** Histories *)

(** A cycle, or anything that happens outside: time passes, files and services change. *)
Inductive agent_step : World → World → Prop :=
| as_cycle w r w' : cycle a e gitopsDir w = (r, w') → agent_step w w'
| as_outside w n d t : (0 ≤ t)%Z → agent_step w (mkWorld n d (now w + t) (revoked w) (lastProbe w) (log w)).
(** ** Enrolment and revocation *)

(** Nothing is read and nothing sent by a box that is not enrolled, nor, within a day of the
    last probe, by one whose enrolment was revoked. *)
Lemma silent_while_out w r w' : cycle a e gitopsDir w = (r, w') →
  Enrolled e w = false ∨ revoked w = true ∧ (time_sub (now w) (lastProbe w) < reprobe)%Z →
  log w' = log w ∧ net w' = net w ∧ now w' = now w ∧ revoked w' = revoked w.
Proof.
  unfold cycle. rewrite bind_run. cbn [get]. intros E Hout. destruct (revoked w) eqn:Er.
  - destruct (time_sub (now w) (lastProbe w) <? reprobe)%Z eqn:Et; [by injection E as _ <-|]. apply Z.ltb_ge in Et.
    destruct Hout as [Hn|[_ Hlt]]; [|lia]. unfold report in E. rewrite bind_run in E. cbn [probe_now modify] in E. rewrite bind_run in E. cbn [gets] in E.
    change (Enrolled e (mkWorld (net w) (disk w) (now w) (revoked w) (now w) (log w))) with (Enrolled e w) in E. rewrite Hn in E. by injection E as _ <-.
  - destruct Hout as [Hn|[? _]]; [|done]. unfold report in E. rewrite bind_run in E. cbn [gets] in E. rewrite Hn in E. by injection E as _ <-.
Qed.
(** What a report sent between two worlds was answered: the last thing done was to post it. *)
Definition answered (w w' : World) (resp : Reply) : Prop :=
  ∃ w1 new t p body d, log w1 = (log w ++ new)%list ∧ marshal p = Ok body
    ∧ http_post (Endpoint e) t.1 t.2 body (net w1) = (Ok resp, net w', d)
    ∧ log w' = (log w1 ++ [Posted (Endpoint e) t.1 body])%list.
(** The platform accepted the report, or stated that the enrolment is revoked. *)
Definition accepted (resp : Reply) : Prop := (re_code resp / 100 = 2)%Z.
Definition stated (resp : Reply) : Prop :=
  (re_code resp / 100 ≠ 2)%Z ∧ decode_reason (limited reply_limit (re_body resp)) = Some RevokedReason.
Context (get_delay : ∀ url n, (0 ≤ (http_get url n).2)%Z) (post_delay : ∀ url i ca b n, (0 ≤ (http_post url i ca b n).2)%Z).
(** Only time passes and the log grows. *)
Definition steadily (w w' : World) : Prop :=
  lastProbe w' = lastProbe w ∧ revoked w' = revoked w ∧ (now w ≤ now w')%Z.
Lemma steadily_keeps {A} (m : M A) : (∀ T l v, keeps (λ w, lastProbe w = l ∧ revoked w = v ∧ (T ≤ now w)%Z) m) →
  ∀ w r w', m w = (r, w') → steadily w w'.
Proof. intros H w r w' E. specialize (H (now w) (lastProbe w) (revoked w) w (conj eq_refl (conj eq_refl (Z.le_refl _)))). by rewrite E in H. Qed.
Lemma Collect_steadily cluster w r w' : Collect a (ClusterReader gitopsDir) cluster w = (r, w') → steadily w w'.
Proof using get_delay.
  apply steadily_keeps. clear w r w'. intros T l v. set (I := λ w, lastProbe w = l ∧ revoked w = v ∧ (T ≤ now w)%Z).
  assert (∀ B (x : result string B) f, keeps I (or_throw f x : M B)) as Ht by (intros B [x|x] f; [apply keeps_ret|apply keeps_throw]).
  assert (∀ ev, keeps I (emit ev)) as He by (intros ev w H; exact H).
  assert (∀ url, keeps I (HTTP (http_get url))) as Hh.
  { intros url w (H1 & H2 & H3). unfold HTTP, I. pose proof (get_delay url (net w)) as Hd. destruct (http_get url (net w)) as [[rep n] d]. cbn in *. split_and!; [done|done|lia]. }
  assert (∀ n s p, keeps I (Metrics n s p)) as HM by (intros; unfold Metrics; walk_keeps; eauto with keeps).
  assert (∀ p, keeps I (Artefact gitopsDir p)) as HA by (intros; unfold Artefact, read_file; walk_keeps; eauto with keeps).
  unfold Collect. apply keeps_bind; [apply keeps_gets|]. intros t. apply keeps_foldM. intros p c _. unfold collect_one. apply keeps_bind; [|intros; apply keeps_ret].
  apply keeps_attempt. unfold observe, collectMetrics, collectArtefact, ClusterReader. cbn [r_Metrics r_Artefact].
  destruct (String.eqb _ _); [apply keeps_bind; [apply HM|intros; apply Ht]|]. destruct (String.eqb _ _); [|apply keeps_throw].
  apply keeps_bind; [apply HA|intros; apply keeps_ret].
Qed.
Lemma Send_run t p w r w' : Send e t p w = (r, w') → steadily w w'
  ∧ ∃ o, r = Ok o ∧ match o with
                    | None => ∃ resp, answered w w' resp ∧ accepted resp
                    | Some ErrEnrolmentRevoked => ∃ resp, answered w w' resp ∧ stated resp
                    | Some (SendFailed _) => True
                    end.
Proof using post_delay.
  unfold Send, steadily, accepted, stated. destruct (marshal p) as [body|m] eqn:Em; [|intros [= <- <-]; split; [split_and!; done|by eexists]].
  rewrite bind_run. cbn [emit modify]. rewrite bind_run. unfold HTTP. cbn [net].
  pose proof (post_delay (Endpoint e) t.1 t.2 body (net w)) as Hd.
  destruct (http_post (Endpoint e) t.1 t.2 body (net w)) as [[rep n] d] eqn:E. cbn in Hd.
  assert (∀ o, (Ok o : result string _, mkWorld n (disk w) (now w + d) (revoked w) (lastProbe w) (log w ++ [Posted (Endpoint e) t.1 body])) = (r, w') →
    (lastProbe w' = lastProbe w ∧ revoked w' = revoked w ∧ (now w ≤ now w')%Z) ∧ r = Ok o ∧ ∀ resp, rep = Ok resp → answered w w' resp) as Hend.
  { intros o [= <- <-]. cbn. split_and!; [done|done|lia|done|]. intros resp ->. exists w, [], t, p, body, d. cbn. rewrite app_nil_r. split_and!; [done|exact Em|exact E|done]. }
  destruct rep as [resp|m]; [|intros (H & -> & _)%Hend; split; [done|by eexists]].
  destruct (re_code resp / 100 =? 2)%Z eqn:E2.
  { apply Z.eqb_eq in E2. intros (H & -> & Ha)%Hend. split; [done|]. eexists. split; [done|]. exists resp. split; [by apply Ha|done]. }
  apply Z.eqb_neq in E2. destruct (isRevocation _) eqn:E3; intros (H & -> & Ha)%Hend; (split; [done|]); eexists; (split; [done|]); [|done].
  exists resp. split_and!; [auto|done|]. unfold isRevocation in E3. destruct (decode_reason _) as [s|]; [|done].
  by apply String.eqb_eq in E3 as ->.
Qed.
Lemma answered_later w w1 w' resp new : log w1 = (log w ++ new)%list → answered w1 w' resp → answered w w' resp.
Proof. intros E (w2 & n & t & p & b & d & L & H). exists w2, (new ++ n)%list, t, p, b, d. split; [|exact H]. by rewrite L, E, app_assoc. Qed.
(** A report leaves the last probe; it changes what is known of the enrolment only to what the
    platform said in reply. *)
Lemma report_run w r w' : report a e gitopsDir w = (r, w') → lastProbe w' = lastProbe w ∧ (now w ≤ now w')%Z
  ∧ (revoked w' = revoked w ∨ ∃ resp, answered w w' resp ∧ if revoked w' then stated resp else accepted resp).
Proof using get_delay post_delay.
  unfold report. rewrite bind_run. cbn [gets]. destruct (negb (Enrolled e w)); [intros [= <- <-]; split_and!; [done|done|by left]|].
  rewrite bind_run. unfold attempt at 1. pose proof (Identity_quiet w) as HI. destruct (Identity e w) as [[i|m] w1]; cbn in HI; subst w1;
    [|intros [= <- <-]; split_and!; [done|done|by left]].
  rewrite bind_run. destruct (Collect_ok i w) as (p & w1 & E1 & _). rewrite E1.
  destruct (appends_run log allowed _ _ _ _ (Collect_appends i) E1) as (new & Hlog & _). apply Collect_steadily in E1 as (L1 & R1 & T1).
  rewrite bind_run. unfold attempt. pose proof (NewTransport_quiet w1) as HT. destruct (NewTransport e w1) as [[t|m] w2]; cbn in HT; subst w2;
    [|intros [= <- <-]; split_and!; [done|done|by left]].
  rewrite bind_run. destruct (Send e t p w1) as [r2 w2] eqn:E2. apply Send_run in E2 as ((L2 & R2 & T2) & o & -> & Ho).
  destruct o as [[|m]|]; cbn; intros [= <- <-]; cbn; (split_and!; [congruence|lia|]).
  - right. destruct Ho as (resp & Ha & H). exists resp. split; [|done]. by apply (answered_later w w1 _ resp new).
  - left. congruence.
  - right. destruct Ho as (resp & Ha & H). exists resp. split; [|done]. by apply (answered_later w w1 _ resp new).
Qed.
(** C32: Revocation is stated, never inferred: a cycle that finds itself revoked, when it was not, ended
    by posting its report and was told so in the reply, with the marker as its reason, and one
    that finds itself admitted again ended by posting a report that was accepted. Failing to
    reach the platform, or any other refusal, changes neither. *)
Theorem revocation_stated w r w' : cycle a e gitopsDir w = (r, w') → revoked w' ≠ revoked w →
  ∃ resp, answered w w' resp ∧ if revoked w' then stated resp else accepted resp.
Proof using get_delay post_delay.
  unfold cycle. rewrite bind_run. cbn [get]. destruct (revoked w) eqn:Er; intros E Hne.
  - destruct (_ <? _)%Z; [injection E as _ <-; by rewrite Er in Hne|]. rewrite bind_run in E. cbn [probe_now modify] in E.
    apply report_run in E as (_ & _ & [H|H]); [|done]. cbn in H. rewrite H, Er in Hne. done.
  - apply report_run in E as (_ & _ & [H|H]); [|done]. rewrite H, Er in Hne. done.
Qed.

(** ** Probes *)

Lemma time_sub_le x y d : (0 < d)%Z → (d ≤ time_sub x y)%Z → (d ≤ x - y)%Z.
Proof. unfold time_sub. lia. Qed.
Lemma cycle_vars w r w' : cycle a e gitopsDir w = (r, w') → (now w ≤ now w')%Z
  ∧ (lastProbe w' = lastProbe w ∧ (revoked w = true → log w' = log w)
     ∨ revoked w = true ∧ lastProbe w' = now w ∧ (reprobe ≤ now w - lastProbe w)%Z).
Proof using get_delay post_delay.
  unfold cycle. rewrite bind_run. cbn [get]. destruct (revoked w) eqn:Er; intros E.
  - destruct (_ <? _)%Z eqn:Et; [injection E as _ <-; split; [done|]; by left|]. apply Z.ltb_ge in Et. rewrite bind_run in E. cbn [probe_now modify] in E.
    apply report_run in E as (L & T & _). split; [done|]. right. split_and!; [done|done|]. by apply time_sub_le.
  - apply report_run in E as (L & T & _). split; [done|]. by left.
Qed.
(** A box whose enrolment was revoked reports at most once a day: between two cycles that read or
    send anything while revoked, whatever happens in between, there are twenty-four hours. *)
Theorem probes_a_day_apart w1 r1 w1' w2 r2 w2' :
  (lastProbe w1 ≤ now w1)%Z →
  cycle a e gitopsDir w1 = (r1, w1') → revoked w1 = true → log w1' ≠ log w1 →
  rtc agent_step w1' w2 →
  cycle a e gitopsDir w2 = (r2, w2') → revoked w2 = true → log w2' ≠ log w2 →
  (reprobe ≤ now w2 - now w1)%Z.
Proof using get_delay post_delay.
  intros Hl E1 R1 N1 Hs E2 R2 N2. apply cycle_vars in E1 as (T1 & [[_ H]|(_ & L1 & _)]); [by destruct N1; apply H|].
  apply cycle_vars in E2 as (_ & [[_ H]|(_ & _ & D2)]); [by destruct N2; apply H|].
  assert (now w1 ≤ lastProbe w2 ∧ now w1 ≤ now w2)%Z as [H _]; [|lia].
  assert (now w1 ≤ lastProbe w1' ∧ now w1 ≤ now w1')%Z as H0 by lia. clear -H0 Hs get_delay post_delay. induction Hs as [w|w w' w'' Hst _ IH]; [done|].
  apply IH. destruct Hst as [w r w' E|w n d t Ht]; [|cbn; lia]. apply cycle_vars in E as (T & [[L _]|(_ & L & _)]); rewrite L; lia.
Qed.
(** But the day is not counted from the revocation: a box that has run for a day when it is told
    reports again, in full, with its very next cycle. *)
Lemma revoked_reports_again w r w' w2 : cycle a e gitopsDir w = (r, w') → revoked w = false → revoked w' = true →
  (reprobe ≤ time_sub (now w) (lastProbe w))%Z → (now w' ≤ now w2)%Z → lastProbe w2 = lastProbe w' → revoked w2 = true →
  cycle a e gitopsDir w2 = (probe_now ≫= λ _, report a e gitopsDir) w2.
Proof using get_delay post_delay.
  intros E R0 R1 Hd Hn Hl R2. apply cycle_vars in E as (T & [[L _]|(? & _)]); [|congruence]. unfold cycle. rewrite (bind_run get). cbn [get]. rewrite R2.
  rewrite Hl, L. rewrite (proj2 (Z.ltb_ge _ _)); [done|]. unfold time_sub in *. lia.
Qed.
End agent.

(** ** What the boundary lets through *)

Section leaks.
Context {Nt : Net}.
(** The text of an error leaves the cluster: of a component that cannot be reached the payload
    carries the error of the network library word for word, with whatever address or name it
    holds, although only fields of the schema are to leave. *)
Theorem error_text_leaves c gitopsDir cluster w m n d :
  Kind (From c) = KindMetrics →
  http_get (metrics_url (Namespace (From c)) (Service (From c)) (Port (From c))) (net w) = (Err m, n, d) →
  ∃ p w', Collect [c] (ClusterReader gitopsDir) cluster w = (Ok p, w')
    ∧ Skipped p !! Name c = Some (metrics_url (Namespace (From c)) (Service (From c)) (Port (From c)) +:+ ": " +:+ m).
Proof.
  intros Hk Hg. unfold Collect. rewrite bind_run. cbn [gets foldM]. rewrite bind_run, collect_one_run.
  assert ((observe (ClusterReader gitopsDir) c w).1 = Err (metrics_url (Namespace (From c)) (Service (From c)) (Port (From c)) +:+ ": " +:+ m)) as ->.
  { unfold observe. rewrite Hk. cbn [String.eqb]. change (String.eqb KindMetrics KindMetrics) with true. cbn iota. unfold collectMetrics, ClusterReader. cbn [r_Metrics].
    rewrite bind_run. unfold Metrics. rewrite bind_run. cbn [emit modify]. rewrite bind_run. unfold HTTP. cbn [net]. rewrite Hg. done. }
  eexists _, _. split; [reflexivity|]. cbn. apply lookup_insert_eq.
Qed.
(** A key of the schema without a value on its line takes the next line for its value. *)
Example next_line_leaves :
  artefact_fields ["targetRevision"] ("targetRevision:" +:+ nl +:+ "  password: hunter2" +:+ nl) !! "targetRevision" = Some "password: hunter2".
Proof. vm_compute. reflexivity. Qed.
(** The allowlist shipped to the spokes is refused by every agent that reads it, the hub's is
    accepted. *)
Lemma spoke_allowlist_refused doc : yaml_collectors doc = Some spoke_allowlist → ∃ m, Parse doc = Err m.
Proof. intros H. unfold Parse. rewrite H. vm_compute. by eexists. Qed.
Lemma hub_allowlist_accepted doc : yaml_collectors doc = Some hub_allowlist → Parse doc = Ok hub_allowlist.
Proof. intros H. unfold Parse. rewrite H. vm_compute. reflexivity. Qed.
End leaks.

(** A line has a text in it. *)
Definition holds (t l : string) : Prop := ∃ a b, l = a +:+ t +:+ b.
Lemma holds_self t : holds t t.
Proof. exists "", "". by rewrite str_app_nil_r. Qed.
Lemma holds_l t l x : holds t l → holds t (x +:+ l).
Proof. intros (a & b & ->). exists (x +:+ a), b. by rewrite str_app_assoc. Qed.
Lemma holds_r t l x : holds t l → holds t (l +:+ x).
Proof. intros (a & b & ->). exists a, (b +:+ x). by rewrite !str_app_assoc. Qed.
Lemma holds_Join t l sep : t ∈ l → holds t (Join l sep).
Proof.
  induction l as [|x l IH]; [by intros ?%not_elem_of_nil|]. intros [-> | Ht]%elem_of_cons.
  - destruct l; [apply holds_self|]. cbn [Join]. apply holds_r, holds_self.
  - destruct l as [|y l]; [by apply not_elem_of_nil in Ht|]. cbn [Join]. by apply holds_l, holds_l, IH.
Qed.
Lemma sorted_keys_elem m k : k ∈ sorted_keys m ↔ is_Some (m !! k).
Proof.
  unfold sorted_keys. rewrite elem_of_merge_sort, list_elem_of_fmap. split.
  - intros ([k' v] & -> & H%elem_of_map_to_list). by exists v.
  - intros [v H]. exists (k, v). split; [done|]. by apply elem_of_map_to_list.
Qed.
Lemma order_of_elem l n : n ∈ order_of l ↔ n ∈ rec_Collector <$> l.
Proof.
  unfold order_of. assert (∀ o, n ∈ foldl (λ o r, if listed o (rec_Collector r) then o else (o ++ [rec_Collector r])%list) o l ↔ n ∈ o ∨ n ∈ rec_Collector <$> l) as H.
  { induction l as [|x l IH]; intros o; cbn [foldl fmap list_fmap]; [rewrite elem_of_nil; tauto|]. rewrite IH, elem_of_cons.
    destruct (listed o (rec_Collector x)) eqn:E; [apply listed_iff in E; naive_solver|]. rewrite elem_of_app, list_elem_of_singleton. tauto. }
  rewrite H, elem_of_nil. tauto.
Qed.
Lemma row_shows row f v : row !! f = Some v → holds (f +:+ "=" +:+ v) (row_line row).
Proof.
  intros H. unfold row_line. apply holds_l, holds_Join, list_elem_of_fmap. exists f. rewrite H. split; [done|]. apply sorted_keys_elem. by exists v.
Qed.
(** Every field of every record is printed, and every reason. *)
Lemma prints_fields p x f v : x ∈ Records p → rec_Fields x !! f = Some v → ∃ l, l ∈ printPayload p ∧ holds (f +:+ "=" +:+ v) l.
Proof.
  intros Hx Hv. exists (row_line (rec_Fields x)). split; [|by apply row_shows]. unfold printPayload. rewrite !elem_of_app. right. left.
  apply list_elem_of_bind. exists (rec_Collector x). split.
  - apply elem_of_cons. right. apply elem_of_app. left. apply list_elem_of_fmap. exists (rec_Fields x). split; [done|].
    apply list_elem_of_fmap. exists x. split; [done|]. apply list_elem_of_In, filter_In. split; [by apply list_elem_of_In|]. apply String.eqb_refl.
  - apply order_of_elem, list_elem_of_fmap. by exists x.
Qed.
Lemma prints_skipped p n m : Skipped p !! n = Some m → ∃ l, l ∈ printPayload p ∧ holds n l ∧ holds m l.
Proof.
  intros H. exists ("    " +:+ padded 22 n +:+ " " +:+ m). split_and!.
  - unfold printPayload. rewrite !elem_of_app. right. right. left. rewrite bool_decide_eq_false_2; [|intros E; by rewrite E in H].
    apply elem_of_cons. right. apply elem_of_app. left. apply list_elem_of_fmap. exists n. rewrite H. split; [done|]. apply sorted_keys_elem. by exists m.
  - apply holds_l, holds_r, holds_r, holds_self.
  - by apply holds_l, holds_l, holds_l, holds_self.
Qed.

(** The scope command lists exactly what may leave. *)
Lemma fields_exact a x : x ∈ Fields a ↔ ∃ n f, may_leave a n f ∧ x = n +:+ "." +:+ f.
Proof.
  unfold Fields, may_leave. rewrite elem_of_merge_sort, elem_of_remove_dups, list_elem_of_bind. split.
  - intros (c & (f & Hx & Hf)%list_elem_of_bind & Hc). apply list_elem_of_singleton in Hx. exists (Name c), f. eauto.
  - intros (n & f & (c & Hc & <- & Hf) & ->). exists c. split; [|done]. apply list_elem_of_bind. exists f. split; [by apply list_elem_of_singleton|done].
Qed.

Section preview.
Context {Nt : Net}.
(** The agent and the command, reading one allowlist, come to the same scope. *)
Lemma same_scope raw file data denylist a : yaml_configmap file = Some data → data !! "allowlist.yaml" = Some (document raw) →
  scope raw denylist = Ok a → loadAllowlist (Ok file) (denials denylist) = Ok a.
Proof. intros H1 H2. unfold scope, loadAllowlist, denials. rewrite H1, H2. destruct (Parse (document raw)); [|done]. by intros [= ->]. Qed.

End preview.

Definition ready : Sample := mkSample "kube_node_status_condition" [("node", "n1"); ("condition", "Ready"); ("status", "true")] "1".
Definition ready2 : Sample := mkSample "kube_node_status_condition" [("node", "n2"); ("condition", "Ready"); ("status", "true")] "1".
Definition other : Sample := mkSample "kube_pod_info" [("pod", "p1")] "1".
Definition refused : string := "dial tcp 10.4.0.9:8080: connect: connection refused".

(** Whether the enrolment stands is the state of the platform. *)
#[export] Instance box : Net := {|
  NSt := bool;
  http_get url n := (if String.eqb url (metrics_url "platform-ops" "kube-state-metrics" 8080)
                     then Ok (mkReply 200 "200 OK" (exposition [ready; other]) None) else Err refused, n, 1%Z);
  http_post _ _ _ _ n := (Ok (if n then mkReply 200 "200 OK" "" None else mkReply 403 "403 Forbidden" RevokedReason None), n, 1%Z);
  glob _ d := Ok (List.filter (λ f, HasSuffix f "bundle.yaml") (map_to_list d).*1);
  load_keypair c _ := Ok c;
  common_name c := Ok c;
  pem_certificates _ := true;
  yaml_collectors _ := Some hub_allowlist;
  yaml_configmap t := if String.eqb t "cm" then Some {["allowlist.yaml" := "doc"]} else None;
  Support.marshal p := Ok (pretty (length (Records p)));
  decode_reason b := Some b;
  rfc3339 t := pretty t |}.
Definition deny_grafana : string := "backup-health-grafana, node-pressure.status".
Definition in_force : Allowlist := Effective hub_allowlist (splitComma deny_grafana).
Definition enrolment : Enrolment := mkEnrolment "/tls.crt" "/tls.key" "" "https://support".
Definition files : gmap string string :=
  {["/tls.crt" := "b1"; "/tls.key" := "k"; "/git/clusters/c1/bundle.yaml" := "bundleVersion: v1" +:+ nl]}.
Definition at_time (stands : bool) (t : Z) (known : bool) : World := mkWorld stands files t known 0%Z [].
Definition after (w : World) : World := (cycle in_force enrolment "/git" w).2.
Lemma gets_take_time url n : (0 ≤ (http_get (Net := box) url n).2)%Z.
Proof. done. Qed.
Lemma posts_take_time url i ca b n : (0 ≤ (http_post (Net := box) url i ca b n).2)%Z.
Proof. done. Qed.
Lemma cycle_after w : cycle in_force enrolment "/git" w = ((cycle in_force enrolment "/git" w).1, after w).
Proof. apply surjective_pairing. Qed.

Lemma samples_read_back_witness :
  forallb sample_ok [ready; other; ready2] = true
  ∧ scan "kube_node_status_condition" (exposition [ready; other; ready2]) = Ok [told ready; told ready2].
Proof.
  split; [vm_compute; reflexivity|].
  apply (samples_read_back "kube_node_status_condition" [ready; other; ready2]). vm_compute. reflexivity.
Defined.
Lemma reported_within_scope_witness : Parse "" = Ok hub_allowlist
  ∧ ∃ p w', Collect (Effective hub_allowlist (splitComma deny_grafana)) (ClusterReader "/git") "b1" (at_time true 0 false) = (Ok p, w') ∧ p_Cluster p = "b1".
Proof.
  assert (Parse "" = Ok hub_allowlist) as Hp by (vm_compute; reflexivity). split; [exact Hp|].
  destruct (reported_within_scope "" hub_allowlist (splitComma deny_grafana) (ClusterReader "/git") "b1" (at_time true 0 false) Hp) as (p & w' & H1 & H2 & _).
  exists p, w'. split; [exact H1|exact H2].
Defined.
(** Two clusters whose nodes have other names and that hold other series. *)
Definition answers (l : list Sample) (_ _ : string) (_ : Z) : result string string := Ok (exposition l).
Definition no_file (_ : string) : result string string := Err "no repository".
Lemma revocation_stated_witness : revoked (after (at_time false 0 false)) = true
  ∧ ∃ resp, answered enrolment (at_time false 0 false) (after (at_time false 0 false)) resp ∧ stated resp.
Proof.
  assert (revoked (after (at_time false 0 false)) = true) as E by (vm_compute; reflexivity). split; [exact E|].
  pose proof (revocation_stated "/git" enrolment in_force gets_take_time posts_take_time (at_time false 0 false) _ _ (cycle_after _)) as H.
  rewrite E in H. apply H. discriminate.
Defined.
(** The box probes on the third day, and again a day later. *)
Definition third_day : World := at_time false (3 * reprobe)%Z true.
Definition day_later (w : World) : World := mkWorld (net w) (disk w) (now w + reprobe) (revoked w) (lastProbe w) (log w).
Lemma probes_a_day_apart_witness :
  revoked (after third_day) = true ∧ (reprobe ≤ now (day_later (after third_day)) - now third_day)%Z.
Proof.
  assert (revoked (after third_day) = true) as E by (vm_compute; reflexivity). split; [exact E|].
  apply (probes_a_day_apart "/git" enrolment in_force gets_take_time posts_take_time third_day (cycle in_force enrolment "/git" third_day).1 (after third_day)
    (day_later (after third_day)) (cycle in_force enrolment "/git" (day_later (after third_day))).1 (after (day_later (after third_day)))).
  - by vm_compute.
  - apply cycle_after.
  - reflexivity.
  - by vm_compute.
  - apply rtc_once, as_outside. by vm_compute.
  - apply cycle_after.
  - vm_compute. reflexivity.
  - by vm_compute.
Defined.
Lemma error_text_leaves_witness : ∃ p w', Collect [application_health 8080] (ClusterReader "/git") "b1" (at_time true 0 false) = (Ok p, w')
  ∧ Skipped p !! "application-health"
    = Some "http://argocd-applicationset-controller-metrics.platform-ops.svc.cluster.local:8080/metrics: dial tcp 10.4.0.9:8080: connect: connection refused".
Proof.
  destruct (error_text_leaves (application_health 8080) "/git" "b1" (at_time true 0 false) refused true 1 ltac:(reflexivity) ltac:(reflexivity)) as (p & w' & H & Hs).
  exists p, w'. split; [exact H|]. etransitivity; [exact Hs|]. vm_compute. reflexivity.
Defined.
Definition reported (w : World) : World := (report in_force enrolment "/git" w).2.
