(* ===== verification/AuthProxy.v ===== *)
(** * AuthProxy: the service that validates tokens for the gateway.

    Models internal/auth-proxy: config.go, jwt.go, validate.go, zitadel.go and handlers.go,
    and cmd/auth-proxy. [Issuer] is what the sources only call: HTTP, url.Parse, the JSON
    decoders and golang-jwt, of which [before_key] is what happens before the key function
    is called and [with_key] what happens with the key it returned. [World] is the issuer,
    the clock, the flag [ready] and the log of the requests sent, each with its reply and
    the time of it. The validator is passed along; the process never shares one between
    goroutines. Lines of the process log are not kept. *)

From S2P Require Import Prelude.
From S2P Require Import GoRuntime.
From S2P Require Import Codec.

Local Open Scope string_scope.

(** ** Configuration *)

Record Config := mkConfig {
  ListenAddr : string; ZitadelIssuerURL : string; ZitadelInternalURL : string;
  JWKSCacheTTL : Z; JWKSFetchTimeout : Z; JWKSRefreshMinInterval : Z;
  ExpectedJWTAudience : string; AuthPublicBaseURL : string; MCPGatewayBaseURL : string }.
Abbreviation Env := (gmap string string).
(** What is missing and the value. *)
Definition env_get (env : Env) (key : string) : list string * string :=
  let v := default "" (env !! key) in
  if String.eqb (TrimSpace v) "" then ([key], "") else ([], v).
Definition env_duration (env : Env) (key : string) : list string * Z :=
  let '(names, raw) := env_get env key in
  if String.eqb raw "" then (names, 0%Z)
  else match ParseDuration raw with
       | None => ((names ++ [key +:+ " (invalid duration " +:+ quoted raw +:+ ")"])%list, 0%Z)
       | Some d => (names, d)
       end.
Definition LoadConfig (env : Env) : result string Config :=
  let '(n1, listen) := env_get env "LISTEN_ADDR" in
  let '(n2, issuer) := env_get env "ZITADEL_ISSUER_URL" in
  let '(n3, internal) := env_get env "ZITADEL_INTERNAL_URL" in
  let '(n4, ttl) := env_duration env "JWKS_CACHE_TTL" in
  let '(n5, timeout) := env_duration env "JWKS_FETCH_TIMEOUT" in
  let '(n6, refresh) := env_duration env "JWKS_REFRESH_MIN_INTERVAL" in
  let '(n7, audience) := env_get env "EXPECTED_JWT_AUDIENCE" in
  let '(n8, public) := env_get env "AUTH_PUBLIC_BASE_URL" in
  let '(n9, gateway) := env_get env "MCP_GATEWAY_BASE_URL" in
  match mjoin [n1; n2; n3; n4; n5; n6; n7; n8; n9] with
  | [] => Ok (mkConfig listen (TrimSuffix issuer "/") (TrimSuffix internal "/") ttl timeout refresh audience
                (TrimSuffix public "/") (TrimSuffix gateway "/"))
  | names => Err ("auth-proxy configuration incomplete: " +:+ pretty (length names)
                  +:+ " required environment variable(s) missing or invalid: " +:+ Join (merge_sort String.le names) ", ")
  end.

(** ** Claims *)

Abbreviation Claims := (list (string * Value)).
Abbreviation claim := member.
Definition claim_text (c : Claims) (name : string) : string := match claim c name with Some (VText s) => s | _ => "" end.
Definition zitadelDiscoveryPath : string := "/.well-known/openid-configuration".
Definition zitadelJWKSPath : string := "/oauth/v2/keys".
Definition zitadelAuthorizePath : string := "/oauth/v2/authorize".
Definition zitadelTokenPath : string := "/oauth/v2/token".
Definition zitadelUserinfoPath : string := "/oidc/v1/userinfo".
Definition zitadelRevocationPath : string := "/oauth/v2/revoke".
Definition zitadelIntrospectionPath : string := "/oauth/v2/introspect".
Definition zitadelEndSessionPath : string := "/oidc/v1/end_session".
Definition tenantIDClaims : list string := ["tenant_id"; "urn:zitadel:iam:user:resourceowner:id"; "urn:zitadel:iam:org:id"].
Definition scopedRolesClaim : string := "urn:zitadel:iam:org:project:roles".
Definition tenantFromClaims (raw : Claims) : string :=
  match List.find (λ n, negb (String.eqb (claim_text raw n) "")) tenantIDClaims with Some n => claim_text raw n | None => "" end.
Definition rolesGrantedInTenant (raw : Claims) (tenantID : string) : list string :=
  if String.eqb tenantID "" then []
  else match claim raw "roles" with
       | Some (VList flat) => omap (λ r, match r with VText s => Some s | _ => None end) flat
       | _ =>
           match claim raw scopedRolesClaim with
           | Some (VObject nested) =>
               omap (λ kv, match kv.2 with
                           | VObject orgs => match claim orgs tenantID with Some _ => Some kv.1 | None => None end
                           | _ => None
                           end) nested
           | _ => []
           end
       end.
Definition hasRequiredScope (tokenScope requiredScope : string) : bool :=
  negb (String.eqb tokenScope "") && existsb (String.eqb requiredScope) (Split tokenScope " ").

(** ** Keys *)

Record JWK := mkJWK { Kty : string; Kid : string; Use : string; Alg : string; jwk_N : string; jwk_E : string }.
Record PublicKey := mkKey { N : Z; E : Z }.
(** base64.RawURLEncoding: the other two digits, and no padding. *)
Fixpoint std_digits (s : string) : string :=
  match s with
  | EmptyString => ""
  | String c s => String (if Ascii.eqb c "-" then "+" else if Ascii.eqb c "_" then "/" else c)%char (std_digits s)
  end.
Definition raw_url_decode (s : string) : option string :=
  let s := without_breaks s in
  if all_chars (λ c, negb (existsb (Ascii.eqb c) ["+"; "/"; "="]%char)) s
  then b64_groups (std_digits s +:+ str_take ((4 - String.length s mod 4) mod 4) "===")
  else None.
(** big.Int.SetBytes *)
Fixpoint big_endian (acc : Z) (s : string) : Z :=
  match s with EmptyString => acc | String c s => big_endian (256 * acc + Z.of_nat (Ascii.nat_of_ascii c)) s end.
(** Eight bytes are kept. *)
Fixpoint exponent (acc : Z) (s : string) : Z :=
  match s with EmptyString => acc | String c s => exponent (Z.lor (Z.shiftl acc 8 mod 2 ^ 64) (Z.of_nat (Ascii.nat_of_ascii c))) s end.
Definition jwkToPublicKey (jwk : JWK) : result string PublicKey :=
  if negb (String.eqb (Kty jwk) "RSA") then Err ("unsupported key type: " +:+ Kty jwk)
  else match raw_url_decode (jwk_N jwk) with
       | None => Err "failed to decode modulus"
       | Some nBytes =>
           match raw_url_decode (jwk_E jwk) with
           | None => Err "failed to decode exponent"
           | Some eBytes => Ok (mkKey (big_endian 0 nBytes) (as_int64 (exponent 0 eBytes)))
           end
       end.

(** ** What the service reaches *)

Abbreviation Headers := (gmap string (list string)).
Record Request := mkRequest { Method : string; Path : string; RawQuery : string; Header : Headers; Body : string }.
Record Response := mkResponse { StatusCode : Z; re_Header : Headers; re_Body : string }.
(** A request to the issuer; an empty Host is the one of the URL. *)
Record Outgoing := mkOutgoing { o_Method : string; URL : string; Host : string; o_Query : string; o_Header : Headers; o_Body : string }.
Class Issuer := {
  ISt : Type;
  http_do : Outgoing → ISt → result string Response * ISt * Z;     (* and how long it took *)
  new_request : string → string → option string;                   (* the error, if the method or the URL is none *)
  url_host : string → option string;
  decode_jwks : string → option (list JWK);
  before_key : string → result string (option string);            (* the kid of the header, where it is a string *)
  with_key : string → PublicKey → Z → result string Claims;
  keyfunc_error : string → string;
  GetAudience : Claims → result string (list string);
  encode_json : list (string * Value) → string }.
Record Event := mkEvent { at_ : Z; asked : Outgoing; reply : result string Response }.

Record cachedKey := mkCached { c_key : PublicKey; expiresAt : Z }.
Record JWTValidator := mkValidator {
  jwksURL : string; v_audience : string; cache : gmap string cachedKey; lastRefresh : Z;
  ttl : Z; refreshInterval : Z; jwksHost : string }.
(** The zero time.Time, in nanoseconds from 1970. *)
Definition time_zero : Z := (- 62135596800 * ns_s)%Z.
Definition NewJWTValidatorWithHost (jwksURL jwksHost expectedAudience : string) (ttl : Z) : JWTValidator :=
  mkValidator jwksURL expectedAudience ∅ time_zero ttl (10 * ns_s) jwksHost.
Definition set_cache (c : gmap string cachedKey) (v : JWTValidator) : JWTValidator :=
  mkValidator (jwksURL v) (v_audience v) c (lastRefresh v) (ttl v) (refreshInterval v) (jwksHost v).
Definition set_refreshed (t : Z) (v : JWTValidator) : JWTValidator :=
  mkValidator (jwksURL v) (v_audience v) (cache v) t (ttl v) (refreshInterval v) (jwksHost v).
(** The cached key that has not expired. *)
Definition unexpired (v : JWTValidator) (kid : string) (now : Z) : option PublicKey :=
  match cache v !! kid with Some c => if (now <? expiresAt c)%Z then Some (c_key c) else None | None => None end.
Definition store_keys (keys : list JWK) (expires : Z) (c : gmap string cachedKey) : gmap string cachedKey :=
  foldl (λ c j, match jwkToPublicKey j with Ok key => <[Kid j := mkCached key expires]> c | Err _ => c end) c keys.

Record Handler := mkHandler {
  issuerURL : string; internalURL : string; h_jwksURL : string; expectedAudience : string;
  authPublicBaseURL : string; mcpGatewayBaseURL : string }.
Definition NewHandler (issuerURL internalURL expectedAudience authPublicBaseURL mcpGatewayBaseURL : string) : Handler :=
  mkHandler issuerURL internalURL (internalURL +:+ zitadelJWKSPath) expectedAudience authPublicBaseURL mcpGatewayBaseURL.

Section proxy.
Context {Is : Issuer}.
Record World := mkWorld { issuer : ISt; now : Z; ready : bool; log : list Event }.
Abbreviation M A := (goM World string A).

Definition Do (q : Outgoing) : M (result string Response) := λ w,
  match http_do q (issuer w) with
  | (r, i, d) => (Ok r, mkWorld i (now w + d)%Z (ready w) (log w ++ [mkEvent (now w + d) q r]))
  end.
Definition jwks_request (url host : string) : Outgoing := mkOutgoing "GET" url host "" ∅ "".
Definition fetchJWKS (v : JWTValidator) : M (result string (list JWK)) :=
  match new_request "GET" (jwksURL v) with
  | Some e => mret (Err e)
  | None =>
      r ← Do (jwks_request (jwksURL v) (jwksHost v));
      mret match r with
           | Err e => Err e
           | Ok resp =>
               if negb (StatusCode resp =? 200)%Z then Err ("failed to fetch JWKS: " +:+ pretty (StatusCode resp))
               else match decode_jwks (re_Body resp) with Some keys => Ok keys | None => Err "the key set does not decode" end
           end
  end.
Definition getKey (v : JWTValidator) (kid : string) : M (result string PublicKey * JWTValidator) :=
  t ← gets now;
  match unexpired v kid t with
  | Some key => mret (Ok key, v)
  | None =>
      let v := set_cache (delete kid (cache v)) v in
      match unexpired v kid t with
      | Some key => mret (Ok key, v)
      | None =>
          if (time_sub t (lastRefresh v) <? refreshInterval v)%Z
          then mret (Err ("key " +:+ kid +:+ " not found (refresh rate limited)"), v)
          else
            jwks ← fetchJWKS v;
            match jwks with
            | Err e => mret (Err ("failed to fetch JWKS: " +:+ e), v)
            | Ok keys =>
                t ← gets now;
                let v := set_cache (store_keys keys (t + ttl v) (cache v)) (set_refreshed t v) in
                mret match cache v !! kid with
                     | Some c => (Ok (c_key c), v)
                     | None => (Err ("key not found in JWKS: " +:+ kid), v)
                     end
            end
      end
  end.
(** The function handed to jwt.Parse. *)
Definition keyfunc (v : JWTValidator) (kid : option string) : M (result string PublicKey * JWTValidator) :=
  match kid with
  | None => mret (Err "missing kid in token header", v)
  | Some kid =>
      '(key, v) ← getKey v kid;
      mret (match key with Ok k => Ok k | Err e => Err ("failed to get key: " +:+ e) end, v)
  end.
(** A token that was parsed without an error is valid. *)
Definition Validate (v : JWTValidator) (token : string) : M (result string Claims * JWTValidator) :=
  match before_key token with
  | Err e => mret (Err ("failed to parse token: " +:+ e), v)
  | Ok kid =>
      '(key, v) ← keyfunc v kid;
      t ← gets now;
      mret (match key with
            | Err e => Err ("failed to parse token: " +:+ keyfunc_error e)
            | Ok key =>
                match with_key token key t with
                | Err e => Err ("failed to parse token: " +:+ e)
                | Ok claims =>
                    match GetAudience claims with
                    | Err e => Err ("failed to get audience: " +:+ e)
                    | Ok aud => if existsb (String.eqb (v_audience v)) aud then Ok claims else Err "invalid audience"
                    end
                end
            end, v)
  end.

(** ** Handlers *)

Definition issuerHost (raw : string) : string := default "" (url_host raw).
Definition IssuerHost (h : Handler) : string := issuerHost (issuerURL h).
Definition http_Error (msg : string) (code : Z) : Response :=
  mkResponse code {["Content-Type" := ["text/plain; charset=utf-8"]; "X-Content-Type-Options" := ["nosniff"]]} (msg +:+ nl).
Definition HeaderGet (hs : Headers) (k : string) : string := match hs !! k with Some (v :: _) => v | _ => "" end.
Definition set_unless_empty (k v : string) (hs : Headers) : Headers := if String.eqb v "" then hs else <[k := [v]]> hs.
Definition identity_headers (claims : Claims) (tenantID : string) : Headers :=
  let roles := rolesGrantedInTenant claims tenantID in
  let hs := set_unless_empty "X-Auth-Email" (claim_text claims "email") (set_unless_empty "X-Auth-User-Id" (claim_text claims "sub") ∅) in
  let hs := match roles with [] => hs | _ => <["X-Auth-Roles" := [Join roles ","]]> hs end in
  <["X-Auth-Tenant-Id" := [tenantID]]> hs.
Definition ValidateHandler (h : Handler) (r : Request) : M Response :=
  if negb (String.eqb (Method r) "POST") then mret (http_Error "Method not allowed" 405)
  else
    let authHeader := HeaderGet (Header r) "Authorization" in
    if String.eqb authHeader "" then mret (http_Error "Missing Authorization header" 401)
    else if negb (HasPrefix authHeader "Bearer ") then mret (http_Error "Invalid Authorization header format" 401)
    else
      let token := TrimPrefix authHeader "Bearer " in
      let validator := NewJWTValidatorWithHost (h_jwksURL h) (IssuerHost h) (expectedAudience h) ns_hour in
      '(claims, _) ← Validate validator token;
      match claims with
      | Err _ => mret (http_Error "Invalid token" 401)
      | Ok claims =>
          if negb (hasRequiredScope (claim_text claims "scope") "tenant:read") then mret (http_Error "Insufficient scope" 403)
          else
            let tenantID := tenantFromClaims claims in
            if String.eqb tenantID "" then mret (http_Error "Invalid token" 401)
            else mret (mkResponse 200 (identity_headers claims tenantID) "")
      end.
Definition texts (l : list string) : Value := VList (VText <$> l).
Definition auth_server_metadata (h : Handler) : list (string * Value) :=
  let iss := issuerURL h in
  [("issuer", VText iss);
   ("authorization_endpoint", VText (iss +:+ zitadelAuthorizePath));
   ("token_endpoint", VText (iss +:+ zitadelTokenPath));
   ("userinfo_endpoint", VText (iss +:+ zitadelUserinfoPath));
   ("revocation_endpoint", VText (iss +:+ zitadelRevocationPath));
   ("introspection_endpoint", VText (iss +:+ zitadelIntrospectionPath));
   ("end_session_endpoint", VText (iss +:+ zitadelEndSessionPath));
   ("jwks_uri", VText (iss +:+ zitadelJWKSPath));
   ("response_types_supported", texts ["code"]);
   ("grant_types_supported", texts ["authorization_code"; "refresh_token"]);
   ("token_endpoint_auth_methods_supported", texts ["none"]);
   ("code_challenge_methods_supported", texts ["S256"]);
   ("scopes_supported", texts ["openid"; "profile"; "email"; "offline_access"]);
   ("resource", VText (mcpGatewayBaseURL h +:+ "/mcp"))].
Definition ServeAuthServerMetadata (h : Handler) (r : Request) : M Response :=
  mret (mkResponse 200
    {["Content-Type" := ["application/json"]; "Access-Control-Allow-Origin" := ["*"];
      "Access-Control-Allow-Headers" := ["Authorization, Content-Type, MCP-Protocol-Version"]]} (encode_json (auth_server_metadata h))).
Definition proxy (h : Handler) (r : Request) (path : string) : M Response :=
  match new_request (Method r) (internalURL h +:+ path) with
  | Some _ => mret (http_Error "Internal server error" 500)
  | None =>
      resp ← Do (mkOutgoing (Method r) (internalURL h +:+ path) (issuerHost (issuerURL h)) (RawQuery r) (Header r) (Body r));
      mret match resp with Err _ => http_Error "Bad gateway" 502 | Ok resp => resp end
  end.
Definition ProxyOpenIDConfiguration (h : Handler) (r : Request) : M Response := proxy h r zitadelDiscoveryPath.
Definition ProxyJWKS (h : Handler) (r : Request) : M Response := proxy h r zitadelJWKSPath.
Definition HealthReady (r : Request) : M Response :=
  b ← gets ready;
  mret (if negb b then http_Error "Not ready" 503 else mkResponse 200 ∅ "OK").
Definition SetReady : M unit := modify (λ w, mkWorld (issuer w) (now w) true (log w)).

(** ** The process *)

(** The mux, for a path that is clean. *)
Definition serve_mux (h : Handler) (r : Request) : M Response :=
  if String.eqb (Path r) "/.well-known/openid-configuration" then ProxyOpenIDConfiguration h r
  else if String.eqb (Path r) "/.well-known/oauth-authorization-server" then ServeAuthServerMetadata h r
  else if String.eqb (Path r) "/.well-known/oauth-authorization-server/mcp" then ServeAuthServerMetadata h r
  else if String.eqb (Path r) "/.well-known/jwks.json" then ProxyJWKS h r
  else if String.eqb (Path r) "/health/ready" then HealthReady r
  else if String.eqb (Path r) "/internal/validate" then ValidateHandler h r
  else mret (http_Error "404 page not found" 404).
Definition handler_of (cfg : Config) : Handler :=
  NewHandler (ZitadelIssuerURL cfg) (ZitadelInternalURL cfg) (ExpectedJWTAudience cfg) (AuthPublicBaseURL cfg) (MCPGatewayBaseURL cfg).
Definition prober (cfg : Config) : JWTValidator :=
  let h := handler_of cfg in NewJWTValidatorWithHost (h_jwksURL h) (IssuerHost h) (ExpectedJWTAudience cfg) (JWKSCacheTTL cfg).
Definition probeToken : string := "eyJhbGciOiJSUzI1NiIsImtpZCI6InRlc3QifQ.e30.test".
(** One turn of the loop that waits for the issuer. *)
Definition probe_issuer (v : JWTValidator) : M JWTValidator :=
  '(r, v) ← Validate v probeToken;
  match r with
  | Err e => if Contains e "failed to fetch JWKS" then mret v else SetReady ;; mret v
  | Ok _ => SetReady ;; mret v
  end.
End proxy.

(** The exponent 65537, in base64. *)
Example exponent_65537 : jwkToPublicKey (mkJWK "RSA" "k" "sig" "RS256" "-_8" "AQAB") = Ok (mkKey 64511 65537).
Proof. vm_compute. reflexivity. Qed.
