(* ===== verification/AuthProxyFacts.v ===== *)
(** * AuthProxyFacts: keys, admission and readiness of the auth proxy.

    A key a validator answers with was published by the issuer, and successful fetches are
    ten seconds apart; the answer of the validation endpoint is exact in the token, the
    published keys and the claims; what the gateway is told of roles; the requests the
    process makes over its whole life and when it reports itself ready; and the
    configuration it starts with. At the end the theorems at one issuer, which answers with
    one key while it is up. *)

From S2P Require Import Prelude.
From S2P Require Import GoRuntime.
From S2P Require Import Codec.
From S2P Require Import AuthProxy.

Local Open Scope string_scope.

(** The key a set has under a name: the last that can be converted. *)
Definition published (keys : list JWK) (kid : string) : option PublicKey :=
  foldl (λ o j, match jwkToPublicKey j with Ok k => if String.eqb (Kid j) kid then Some k else o | Err _ => o end) None keys.
Lemma published_snoc keys j kid : published (keys ++ [j]) kid =
  match jwkToPublicKey j with Ok k => if String.eqb (Kid j) kid then Some k else published keys kid | Err _ => published keys kid end.
Proof. unfold published. by rewrite foldl_app. Qed.
Lemma published_elem keys kid key : published keys kid = Some key → ∃ j, j ∈ keys ∧ Kid j = kid ∧ jwkToPublicKey j = Ok key.
Proof.
  induction keys as [|j keys IH] using rev_ind; [done|]. rewrite published_snoc. intros H. destruct (jwkToPublicKey j) as [k|] eqn:E.
  - destruct (String.eqb (Kid j) kid) eqn:Ek; [apply String.eqb_eq in Ek; injection H as ->; exists j; set_solver|].
    destruct (IH H) as (j' & ? & ?). exists j'. set_solver.
  - destruct (IH H) as (j' & ? & ?). exists j'. set_solver.
Qed.
Lemma store_keys_lookup keys x c kid :
  store_keys keys x c !! kid = match published keys kid with Some k => Some (mkCached k x) | None => c !! kid end.
Proof.
  induction keys as [|j keys IH] using rev_ind; [done|]. unfold store_keys. rewrite foldl_app, published_snoc. cbn [foldl]. fold (store_keys keys x c).
  destruct (jwkToPublicKey j) as [k|]; [|apply IH]. rewrite lookup_insert. destruct (String.eqb (Kid j) kid) eqn:E.
  - apply String.eqb_eq in E. by rewrite decide_True.
  - apply String.eqb_neq in E. by rewrite decide_False.
Qed.

Section keys.
Context {Is : Issuer}.
Abbreviation M A := (goM World string A).

(** The key set a reply carries. *)
Definition key_set (r : result string Response) : option (list JWK) :=
  match r with Ok resp => if (StatusCode resp =? 200)%Z then decode_jwks (re_Body resp) else None | Err _ => None end.
Definition asks (v : JWTValidator) : Outgoing := jwks_request (jwksURL v) (jwksHost v).
(** The world after a request. *)
Definition after_request (q : Outgoing) (w : World) : World :=
  match http_do q (issuer w) with (r, i, d) => mkWorld i (now w + d) (ready w) (log w ++ [mkEvent (now w + d) q r]) end.
Definition reply_to (q : Outgoing) (w : World) : result string Response := (http_do q (issuer w)).1.1.
Lemma sent_run q w : (Do q : M _) w = (Ok (reply_to q w), after_request q w).
Proof. unfold Do, reply_to, after_request. by destruct (http_do q (issuer w)) as [[r i] d]. Qed.
Lemma after_request_log q w : log (after_request q w) = (log w ++ [mkEvent (now (after_request q w)) q (reply_to q w)])%list.
Proof. unfold after_request, reply_to. by destruct (http_do q (issuer w)) as [[r i] d]. Qed.
Lemma after_request_ready q w : ready (after_request q w) = ready w.
Proof. unfold after_request. by destruct (http_do q (issuer w)) as [[r i] d]. Qed.
Definition dropped (v : JWTValidator) (kid : string) : JWTValidator := set_cache (delete kid (cache v)) v.
Definition stored (v : JWTValidator) (kid : string) (keys : list JWK) (t : Z) : JWTValidator :=
  set_cache (store_keys keys (t + ttl v) (delete kid (cache v))) (set_refreshed t v).

(** The ways a key is asked for. *)
Inductive key_step (v : JWTValidator) (kid : string) (w : World) : result string PublicKey → JWTValidator → World → Prop :=
| ks_cached key : unexpired v kid (now w) = Some key → key_step v kid w (Ok key) v w
| ks_limited e : unexpired v kid (now w) = None → (time_sub (now w) (lastRefresh v) < refreshInterval v)%Z → key_step v kid w (Err e) (dropped v kid) w
| ks_unasked e : unexpired v kid (now w) = None → (refreshInterval v ≤ time_sub (now w) (lastRefresh v))%Z → is_Some (new_request "GET" (jwksURL v)) →
    key_step v kid w (Err ("failed to fetch JWKS: " +:+ e)) (dropped v kid) w
| ks_failed e : unexpired v kid (now w) = None → (refreshInterval v ≤ time_sub (now w) (lastRefresh v))%Z → key_set (reply_to (asks v) w) = None →
    new_request "GET" (jwksURL v) = None → key_step v kid w (Err ("failed to fetch JWKS: " +:+ e)) (dropped v kid) (after_request (asks v) w)
| ks_fetched keys r : unexpired v kid (now w) = None → (refreshInterval v ≤ time_sub (now w) (lastRefresh v))%Z → key_set (reply_to (asks v) w) = Some keys →
    new_request "GET" (jwksURL v) = None → match published keys kid with Some key => r = Ok key | None => r = Err ("key not found in JWKS: " +:+ kid) end →
    key_step v kid w r (stored v kid keys (now (after_request (asks v) w))) (after_request (asks v) w).
Lemma unexpired_dropped v kid t : unexpired (dropped v kid) kid t = None.
Proof. unfold unexpired, dropped, set_cache. cbn. by rewrite lookup_delete_eq. Qed.
Lemma getKey_run v kid w : ∃ r v' w', getKey v kid w = (Ok (r, v'), w') ∧ key_step v kid w r v' w'.
Proof.
  unfold getKey. rewrite bind_run. cbn [gets]. destruct (unexpired v kid (now w)) as [key|] eqn:E; [by repeat econstructor|].
  fold (dropped v kid). cbv zeta. rewrite unexpired_dropped. change (lastRefresh (dropped v kid)) with (lastRefresh v). change (refreshInterval (dropped v kid)) with (refreshInterval v).
  destruct (_ <? _)%Z eqn:Et; [apply Z.ltb_lt in Et; eexists _, _, _; split; [done|by constructor]|]. apply Z.ltb_ge in Et.
  rewrite bind_run. unfold fetchJWKS. change (jwksURL (dropped v kid)) with (jwksURL v). change (jwksHost (dropped v kid)) with (jwksHost v). fold (asks v).
  destruct (new_request "GET" (jwksURL v)) as [e|] eqn:En; [eexists _, _, _; split; [done|by constructor]|]. rewrite bind_run, sent_run.
  destruct (key_set (reply_to (asks v) w)) as [keys|] eqn:Ek; unfold key_set in Ek.
  - destruct (reply_to (asks v) w) as [resp|e] eqn:Er; [|done]. destruct (StatusCode resp =? 200)%Z eqn:Es; [|done]. cbn [negb]. rewrite Ek. cbn [mret goM_ret]. rewrite bind_run. cbn [gets].
    change (ttl (dropped v kid)) with (ttl v). change (cache (dropped v kid)) with (delete kid (cache v)).
    eexists (match published keys kid with Some key => Ok key | None => Err ("key not found in JWKS: " +:+ kid) end), (stored v kid keys (now (after_request (asks v) w))), _. split.
    + unfold stored, set_cache at 2. cbn [cache]. unfold set_cache at 1. cbn [cache]. rewrite store_keys_lookup, lookup_delete_eq. by destruct (published keys kid).
    + apply ks_fetched; [done..|unfold key_set; by rewrite Er, Es|done|]. by destruct (published keys kid).
  - destruct (reply_to (asks v) w) as [resp|e] eqn:Er.
    + destruct (StatusCode resp =? 200)%Z eqn:Es; cbn [negb].
      * rewrite Ek. eexists _, _, _. split; [done|]. apply ks_failed; [done..|unfold key_set; by rewrite Er, Es|done].
      * eexists _, _, _. split; [done|]. apply ks_failed; [done..|unfold key_set; by rewrite Er, Es|done].
    + eexists _, _, _. split; [done|]. apply ks_failed; [done..|unfold key_set; by rewrite Er|done].
Qed.

(** ** Histories of one validator *)

(** A key is asked for, or anything happens outside. *)
Inductive validator_step : World * JWTValidator → World * JWTValidator → Prop :=
| vs_key kid v w r v' w' : getKey v kid w = (Ok (r, v'), w') → validator_step (w, v) (w', v')
| vs_outside v w i t : (0 ≤ t)%Z → validator_step (w, v) (mkWorld i (now w + t) (ready w) (log w), v).
Context (url host audience : string) (life : Z).
Abbreviation new_validator := (NewJWTValidatorWithHost url host audience life).
(** An event is a successful fetch of the keys. *)
Definition fetch_of (keys : list JWK) (ev : Event) : Prop := asked ev = jwks_request url host ∧ key_set (reply ev) = Some keys.
Definition same_settings (v : JWTValidator) : Prop :=
  jwksURL v = url ∧ jwksHost v = host ∧ ttl v = life ∧ refreshInterval v = (10 * ns_s)%Z.
Definition grounded (s : World * JWTValidator) : Prop :=
  same_settings s.2 ∧ ∀ kid c, cache s.2 !! kid = Some c →
    ∃ ev keys, ev ∈ log s.1 ∧ fetch_of keys ev ∧ published keys kid = Some (c_key c) ∧ expiresAt c = (at_ ev + life)%Z.
Lemma dropped_grounded w v kid : grounded (w, v) → grounded (w, dropped v kid).
Proof.
  intros [Hs H]. split; [exact Hs|]. intros k c. cbn. rewrite lookup_delete_Some. intros [_ Hc]. by apply (H k c).
Qed.
Lemma grounded_more w w' v : (∀ ev, ev ∈ log w → ev ∈ log w') → grounded (w, v) → grounded (w', v).
Proof. intros Hl [Hs H]. split; [done|]. intros kid c Hc. destruct (H kid c Hc) as (ev & keys & He & Hr). exists ev, keys. split; [by apply Hl|done]. Qed.
Lemma log_after q w ev : ev ∈ log w → ev ∈ log (after_request q w).
Proof. rewrite after_request_log. set_solver. Qed.
Lemma stored_grounded w v kid keys : grounded (w, v) → key_set (reply_to (asks v) w) = Some keys →
  grounded (after_request (asks v) w, stored v kid keys (now (after_request (asks v) w))).
Proof.
  intros [Hs H] Hk. split; [exact Hs|]. destruct Hs as (Hu & Hh & Ht & _). cbn [fst snd] in *. intros k c. cbn [snd fst stored set_cache cache]. rewrite store_keys_lookup.
  destruct (published keys k) as [key|] eqn:Ep.
  - intros [= <-]. cbn [c_key expiresAt]. eexists _, keys. split; [rewrite after_request_log; apply elem_of_app; right; by apply list_elem_of_singleton|].
    split; [split; [unfold asks; cbn [asked]; by rewrite Hu, Hh|exact Hk]|]. split; [done|]. cbn [at_]. by rewrite Ht.
  - rewrite lookup_delete_Some. intros [_ Hc]. destruct (H k c Hc) as (ev & ks & He & Hr). exists ev, ks. split; [by apply log_after|done].
Qed.
Lemma step_grounded s s' : validator_step s s' → grounded s → grounded s'.
Proof.
  intros Hst Hg. destruct Hst as [kid v w r v' w' E|v w i t _]; [|exact Hg]. destruct (getKey_run v kid w) as (r0 & v0 & w0 & E0 & Hk).
  rewrite E in E0. injection E0 as <- <- <-. destruct Hk; [done|by apply dropped_grounded|by apply dropped_grounded| |by apply stored_grounded].
  apply dropped_grounded. eapply grounded_more; [|exact Hg]. intros; by apply log_after.
Qed.
Lemma history_grounded w s : rtc validator_step (w, new_validator) s → grounded s.
Proof.
  intros Hr. assert (grounded (w, new_validator)) as H0 by (split; [done|intros kid c H; cbn in H; by rewrite lookup_empty in H]).
  remember (w, new_validator) as s0 eqn:E. clear E. induction Hr as [|s1 s2 s3 Hst _ IH]; [done|]. apply IH. by eapply step_grounded.
Qed.
(** A key a validator answers with, after any history of its own, was published by the issuer at
    the address the validator was made with, under the very name asked for, and is as
    recent as the cache promises: its set was fetched by this very call, or less than the
    cache's lifetime ago. *)
Theorem key_provenance w0 w v kid key v' w' :
  rtc validator_step (w0, new_validator) (w, v) → getKey v kid w = (Ok (Ok key, v'), w') →
  ∃ ev keys j, ev ∈ log w' ∧ fetch_of keys ev ∧ j ∈ keys ∧ Kid j = kid ∧ jwkToPublicKey j = Ok key
    ∧ (at_ ev = now w' ∨ now w' < at_ ev + life)%Z.
Proof.
  intros Hr E. apply history_grounded in Hr as [Hs Hg]. cbn [fst snd] in Hg. destruct (getKey_run v kid w) as (r0 & v0 & w1 & E0 & Hk). rewrite E in E0. injection E0 as <- <- <-.
  inversion Hk as [key' Hu| | | |keys r Hu _ Hks _ Hp]; subst.
  - unfold unexpired in Hu. destruct (cache v' !! kid) as [c|] eqn:Ec; [|done]. destruct (_ <? _)%Z eqn:El; [|done]. injection Hu as <-. apply Z.ltb_lt in El.
    destruct (Hg kid c Ec) as (ev & keys & He & Hf & Hp & Hx). apply published_elem in Hp as (j & Hj & Hkid & Hkey). exists ev, keys, j. split_and!; [done..|]. right. lia.
  - destruct (published keys kid) as [key'|] eqn:Ep; [|done]. injection Hp as ->. apply published_elem in Ep as (j & Hj & Hkid & Hkey).
    eexists _, keys, j. split; [rewrite after_request_log; apply elem_of_app; right; by apply list_elem_of_singleton|].
    destruct Hs as (Hu' & Hh & _). cbn [fst snd] in *. split; [split; [unfold asks; cbn [asked]; by rewrite Hu', Hh|exact Hks]|]. split_and!; [done..|]. by left.
Qed.

(** ** Spacing *)

Context (delay : ∀ q i, (0 ≤ (http_do q i).2)%Z).
Definition fetches (w : World) : list Z :=
  at_ <$> List.filter (λ ev, match key_set (reply ev) with Some _ => true | None => false end) (log w).
Definition apart (d x y : Z) : Prop := (x + d ≤ y)%Z.
Definition spaced (s : World * JWTValidator) : Prop :=
  same_settings s.2 ∧ StronglySorted (apart (10 * ns_s)) (fetches s.1) ∧ (∀ x, x ∈ fetches s.1 → (x ≤ lastRefresh s.2)%Z).
Lemma time_after q w : (now w ≤ now (after_request q w))%Z.
Proof using delay. unfold after_request. pose proof (delay q (issuer w)). destruct (http_do q (issuer w)) as [[r i] d]. cbn in *. lia. Qed.
Lemma fetches_after q w : fetches (after_request q w) =
  (fetches w ++ match key_set (reply_to q w) with Some _ => [now (after_request q w)] | None => [] end)%list.
Proof.
  unfold fetches. rewrite after_request_log, List.filter_app, fmap_app. f_equal. cbn [List.filter reply]. by destruct (key_set (reply_to q w)).
Qed.
Lemma sorted_snoc d l t : StronglySorted (apart d) l → (∀ x, x ∈ l → (x + d ≤ t)%Z) → StronglySorted (apart d) (l ++ [t]).
Proof.
  intros Hl Ht. induction Hl as [|x l Hl IH Hx]; [repeat constructor|]. cbn. constructor; [apply IH; intros; apply Ht; by right|].
  apply Forall_app. split; [done|]. constructor; [apply Ht; left|constructor].
Qed.
Lemma step_spaced s s' : validator_step s s' → spaced s → spaced s'.
Proof using delay.
  intros Hst (Hs & Hsort & Hle). destruct Hst as [kid v w r v' w' E|v w i t _]; [|exact (conj Hs (conj Hsort Hle))]. destruct (getKey_run v kid w) as (r0 & v0 & w0 & E0 & Hk).
  rewrite E in E0. injection E0 as <- <- <-. destruct Hk as [| | |e _ _ Hn|keys r _ Hd Hk _ _]; [exact (conj Hs (conj Hsort Hle))..| |].
  - unfold spaced. cbn [fst snd] in *. rewrite fetches_after, Hn, app_nil_r. by split.
  - unfold spaced. cbn [fst snd] in *. rewrite fetches_after, Hk. destruct Hs as (? & ? & ? & Hi). rewrite Hi in Hd. pose proof (time_after (asks v) w) as Ht.
    assert (∀ x, x ∈ fetches w → (x + 10 * ns_s ≤ now (after_request (asks v) w))%Z) as Hx.
    { intros x Hx. apply Hle in Hx. unfold time_sub in Hd. assert (0 < 10 * ns_s)%Z by done. lia. }
    split; [done|]. split; [by apply sorted_snoc|]. intros x [Hin|Hin]%elem_of_app; cbn; [apply Hx in Hin; unfold ns_s in *; lia|].
    apply list_elem_of_singleton in Hin as ->. done.
Qed.
(** One validator fetches the keys with success at most once in ten seconds, whatever names it is
    asked for, however often, and whatever the issuer answers in between. *)
Theorem refresh_spacing w w' v' : rtc validator_step (w, new_validator) (w', v') → log w = [] →
  StronglySorted (apart (10 * ns_s)) (fetches w').
Proof using delay.
  intros Hr Hl. assert (spaced (w, new_validator)) as H0.
  { split; [done|]. unfold fetches. cbn [fst]. rewrite Hl. split; [constructor|by intros x Hx%not_elem_of_nil]. }
  remember (w, new_validator) as s0 eqn:E0. clear E0. change w' with ((w', v').1). remember (w', v') as s1 eqn:E1. clear E1 Hl.
  induction Hr as [s|s1 s2 s3 Hst _ IH]; [apply H0|]. apply IH. by eapply step_spaced.
Qed.
End keys.

(** ** Configuration *)

Definition durations : list string := ["JWKS_CACHE_TTL"; "JWKS_FETCH_TIMEOUT"; "JWKS_REFRESH_MIN_INTERVAL"].
Definition settings : list string :=
  ["LISTEN_ADDR"; "ZITADEL_ISSUER_URL"; "ZITADEL_INTERNAL_URL"; "EXPECTED_JWT_AUDIENCE"; "AUTH_PUBLIC_BASE_URL"; "MCP_GATEWAY_BASE_URL"].
Definition is_set (env : Env) (k : string) : Prop := TrimSpace (default "" (env !! k)) ≠ "".
Lemma env_get_names env k : (env_get env k).1 = [] ↔ is_set env k.
Proof. unfold env_get, is_set. destruct (String.eqb _ "") eqn:E; [apply String.eqb_eq in E; by rewrite E|apply String.eqb_neq in E; done]. Qed.
Lemma env_duration_names env k : (env_duration env k).1 = [] ↔ is_set env k ∧ is_Some (ParseDuration (default "" (env !! k))).
Proof.
  unfold env_duration. pose proof (env_get_names env k) as H. unfold env_get in *. destruct (String.eqb (TrimSpace _) "") eqn:E; cbn in *.
  { split; [done|]. intros [Hs _]. by apply H in Hs. }
  destruct (String.eqb (default "" (env !! k)) "") eqn:Er; [apply String.eqb_eq in Er; by rewrite Er in E|].
  destruct (ParseDuration _) as [d|]; cbn; [split; [intros _; split; [by apply H|by eexists]|done]|]. split; [done|by intros [_ [? ?]]].
Qed.
(** The service starts only with every setting stated and every duration one. *)
Lemma config_complete env : (∃ cfg, LoadConfig env = Ok cfg)
  ↔ (∀ k, k ∈ settings → is_set env k) ∧ ∀ k, k ∈ durations → is_set env k ∧ is_Some (ParseDuration (default "" (env !! k))).
Proof.
  assert ((∃ cfg, LoadConfig env = Ok cfg) ↔ mjoin ((λ k, (env_get env k).1) <$> settings) = [] ∧ mjoin ((λ k, (env_duration env k).1) <$> durations) = []) as ->.
  { unfold LoadConfig, settings, durations. cbn [fmap list_fmap].
    destruct (env_get env "LISTEN_ADDR") as [n1 ?], (env_get env "ZITADEL_ISSUER_URL") as [n2 ?], (env_get env "ZITADEL_INTERNAL_URL") as [n3 ?],
      (env_duration env "JWKS_CACHE_TTL") as [n4 ?], (env_duration env "JWKS_FETCH_TIMEOUT") as [n5 ?], (env_duration env "JWKS_REFRESH_MIN_INTERVAL") as [n6 ?],
      (env_get env "EXPECTED_JWT_AUDIENCE") as [n7 ?], (env_get env "AUTH_PUBLIC_BASE_URL") as [n8 ?], (env_get env "MCP_GATEWAY_BASE_URL") as [n9 ?].
    cbn [fst]. destruct (mjoin [n1; n2; n3; n4; n5; n6; n7; n8; n9]) as [|x l] eqn:Em.
    - split; [intros _|by eexists]. cbn in *. rewrite !app_nil in *. tauto.
    - split; [by intros [? ?]|]. intros [H1 H2]. exfalso. cbn in *. rewrite !app_nil in *. destruct_and!. by subst. }
  assert (∀ (f : string → list string) l, mjoin (f <$> l) = [] ↔ ∀ k, k ∈ l → f k = []) as Hj.
  { intros f l. induction l as [|x l IH]; [cbn; split; [by intros _ ? ?%not_elem_of_nil|done]|]. cbn. rewrite app_nil. setoid_rewrite elem_of_cons. rewrite IH. naive_solver. }
  rewrite !Hj. setoid_rewrite env_get_names. by setoid_rewrite env_duration_names.
Qed.

(** ** Roles *)

(** What the gateway is told: the tenant, the subject and the address where the token has them,
    and the roles where there are any; nothing else. *)
Lemma identity_headers_exact claims t k : identity_headers claims t !! k =
  if String.eqb k "X-Auth-Tenant-Id" then Some [t]
  else if String.eqb k "X-Auth-Roles" then match rolesGrantedInTenant claims t with [] => None | roles => Some [Join roles ","] end
  else if String.eqb k "X-Auth-Email" then (if String.eqb (claim_text claims "email") "" then None else Some [claim_text claims "email"])
  else if String.eqb k "X-Auth-User-Id" then (if String.eqb (claim_text claims "sub") "" then None else Some [claim_text claims "sub"])
  else None.
Proof.
  assert (∀ (m : Headers) x v, <[x := v]> m !! k = if String.eqb k x then Some v else m !! k) as Hi.
  { intros m x v. rewrite lookup_insert. destruct (String.eqb k x) eqn:E; [apply String.eqb_eq in E; by rewrite decide_True|apply String.eqb_neq in E; by rewrite decide_False]. }
  unfold identity_headers, set_unless_empty. cbv zeta. rewrite Hi. destruct (String.eqb k "X-Auth-Tenant-Id") eqn:E1; [done|].
  destruct (String.eqb k "X-Auth-Roles") eqn:E2; [|destruct (String.eqb k "X-Auth-Email") eqn:E3; [|destruct (String.eqb k "X-Auth-User-Id") eqn:E4]];
    try (apply String.eqb_eq in E2 as ->); try (apply String.eqb_eq in E3 as ->); try (apply String.eqb_eq in E4 as ->);
    destruct (rolesGrantedInTenant claims t), (String.eqb (claim_text claims "email") ""), (String.eqb (claim_text claims "sub") "");
    rewrite ?Hi, ?E2, ?E3, ?E4, ?lookup_empty; done.
Qed.

Section proxy.
Context {Is : Issuer}.
Abbreviation M A := (goM World string A).

(** ** Admission *)

Abbreviation fresh_validator h := (NewJWTValidatorWithHost (h_jwksURL h) (IssuerHost h) (expectedAudience h) ns_hour).
Lemma fresh_due w t : (0 ≤ now w)%Z → t = time_zero → (10 * ns_s ≤ time_sub (now w) t)%Z.
Proof. intros H ->. unfold time_sub, time_zero, ns_s in *. lia. Qed.
(** The claims a token proves under a key set. *)
Definition proves (aud token kid : string) (keys : list JWK) (t : Z) (claims : Claims) : Prop :=
  ∃ key l, published keys kid = Some key ∧ with_key token key t = Ok claims ∧ GetAudience claims = Ok l ∧ aud ∈ l.
Lemma Validate_new url host aud life token w : (0 ≤ now w)%Z →
  ∃ r v' w', Validate (NewJWTValidatorWithHost url host aud life) token w = (Ok (r, v'), w')
    ∧ w' = match before_key token, new_request "GET" url with Ok (Some _), None => after_request (jwks_request url host) w | _, _ => w end
    ∧ ∀ claims, r = Ok claims ↔ ∃ kid keys, before_key token = Ok (Some kid) ∧ new_request "GET" url = None
        ∧ key_set (reply_to (jwks_request url host) w) = Some keys ∧ proves aud token kid keys (now w') claims.
Proof.
  intros Hnow. set (v := NewJWTValidatorWithHost url host aud life). unfold Validate. destruct (before_key token) as [[kid|]|e] eqn:Eb.
  2: { eexists _, _, _. split; [reflexivity|]. split; [done|]. naive_solver. }
  2: { eexists _, _, _. split; [reflexivity|]. split; [done|]. naive_solver. }
  rewrite bind_run. cbn [keyfunc]. rewrite bind_run. destruct (getKey_run v kid w) as (r & v' & w' & E & Hk). rewrite E. clear E.
  assert (v_audience v' = aud) as Ha by (by destruct Hk). cbn [mret goM_ret]. cbv beta iota. rewrite bind_run. cbn [gets mret goM_ret]. rewrite Ha.
  pose proof (fresh_due w (lastRefresh v) Hnow eq_refl) as Hdue.
  destruct Hk as [key Hu|e Hu Hl|e Hu _ [x Hn]|e Hu _ Hks Hn|keys r Hu _ Hks Hn Hp]; [by cbv in Hu|change (refreshInterval v) with (10 * ns_s)%Z in Hl; lia|..];
    eexists _, _, _; (split; [reflexivity|]); (split; [change (jwksURL v) with url in Hn; by rewrite Hn|]); intros claims; change (jwksURL v) with url in Hn; change (asks v) with (jwks_request url host) in *.
  - split; [done|]. intros (? & ? & ? & H & _). congruence.
  - split; [done|]. intros (? & ? & ? & _ & H & _). congruence.
  - unfold proves. split.
    + destruct (published keys kid) as [key|] eqn:Ep; [subst r|by subst r]. destruct (with_key token key _) as [c|] eqn:Ew; [|done].
      destruct (GetAudience c) as [l|] eqn:Eg; [|done]. destruct (existsb _ l) eqn:Ee; [|done]. intros [= <-]. exists kid, keys. split_and!; [done..|].
      exists key, l. split_and!; [done..|]. apply existsb_exists in Ee as (x & Hx & Ex%String.eqb_eq). rewrite Ex. by apply list_elem_of_In.
    + intros (kid' & keys' & [= <-] & _ & H & key & l & Hpub & Hw & Hg & Hin). rewrite Hks in H. injection H as <-. rewrite Hpub in Hp. subst r. rewrite Hw, Hg.
      rewrite (proj2 (existsb_exists _ _)); [done|]. exists aud. split; [by apply list_elem_of_In|apply String.eqb_refl].
Qed.
(** Everything that must hold for a request to be admitted with some claims. *)
Definition admits (h : Handler) (r : Request) (w w' : World) (claims : Claims) : Prop :=
  ∃ token kid keys resp, Method r = "POST" ∧ HeaderGet (Header r) "Authorization" = "Bearer " +:+ token
    ∧ before_key token = Ok (Some kid)
    ∧ log w' = (log w ++ [mkEvent (now w') (jwks_request (h_jwksURL h) (IssuerHost h)) (Ok resp)])%list
    ∧ StatusCode resp = 200%Z ∧ decode_jwks (re_Body resp) = Some keys
    ∧ proves (expectedAudience h) token kid keys (now w') claims
    ∧ "tenant:read" ∈ Split (claim_text claims "scope") " " ∧ tenantFromClaims claims ≠ "".
Lemma key_set_inv r keys : key_set r = Some keys → ∃ resp, r = Ok resp ∧ StatusCode resp = 200%Z ∧ decode_jwks (re_Body resp) = Some keys.
Proof. destruct r as [resp|]; [|done]. cbn. destruct (_ =? _)%Z eqn:E; [|done]. apply Z.eqb_eq in E. by exists resp. Qed.
Lemma has_scope s x : x ≠ "" → hasRequiredScope s x = true ↔ x ∈ Split s " ".
Proof.
  intros Hx. unfold hasRequiredScope. destruct (String.eqb s "") eqn:E.
  - apply String.eqb_eq in E as ->. cbn. rewrite list_elem_of_singleton. naive_solver.
  - cbn. rewrite existsb_exists. setoid_rewrite <- list_elem_of_In. split; [by intros (y & Hy & ->%String.eqb_eq)|]. intros H. exists x. split; [done|apply String.eqb_refl].
Qed.
(** C6: The validation endpoint admits exactly the tokens it should. It answers 200 to a request if and
    only if it is a POST with a bearer token whose header names a key that the issuer, asked
    by this very request, publishes; the token verifies under that key at that time; its
    audience is the expected one; its scope has tenant:read; and it names a tenant. The
    answer then tells exactly the identity in its claims. *)
Theorem admission_exact h r w resp w' : (0 ≤ now w)%Z → ValidateHandler h r w = (Ok resp, w') →
  (StatusCode resp = 200%Z → ∃ claims, admits h r w w' claims ∧ resp = mkResponse 200 (identity_headers claims (tenantFromClaims claims)) "")
  ∧ ∀ claims, admits h r w w' claims → resp = mkResponse 200 (identity_headers claims (tenantFromClaims claims)) "".
Proof.
  intros Hnow. unfold ValidateHandler, admits. destruct (String.eqb (Method r) "POST") eqn:Em; cbn [negb].
  2: { apply String.eqb_neq in Em. intros [= <- <-]. split; [done|]. naive_solver. }
  apply String.eqb_eq in Em. destruct (String.eqb (HeaderGet _ _) "") eqn:E0.
  { apply String.eqb_eq in E0. intros [= <- <-]. split; [done|]. rewrite E0. intros c (t & ? & ? & ? & _ & H & _). done. }
  destruct (HasPrefix _ "Bearer ") eqn:Ep; cbn [negb].
  2: { intros [= <- <-]. split; [done|]. intros c (t & ? & ? & ? & _ & H & _). rewrite H in Ep.
       assert (HasPrefix ("Bearer " +:+ t) "Bearer " = true) by (apply HasPrefix_iff; by exists t). congruence. }
  apply HasPrefix_iff in Ep as [token Ht]. rewrite Ht, TrimPrefix_app. cbv zeta. rewrite bind_run.
  destruct (Validate_new (h_jwksURL h) (IssuerHost h) (expectedAudience h) ns_hour token w Hnow) as (x & v' & w1 & -> & Hw1 & Hx).
  assert (∀ claims, (∃ token0 kid keys resp, Method r = "POST" ∧ "Bearer " +:+ token = "Bearer " +:+ token0
    ∧ before_key token0 = Ok (Some kid) ∧ log w1 = (log w ++ [mkEvent (now w1) (jwks_request (h_jwksURL h) (IssuerHost h)) (Ok resp)])%list
    ∧ StatusCode resp = 200%Z ∧ decode_jwks (re_Body resp) = Some keys ∧ proves (expectedAudience h) token0 kid keys (now w1) claims
    ∧ "tenant:read" ∈ Split (claim_text claims "scope") " " ∧ tenantFromClaims claims ≠ "")
    ↔ x = Ok claims ∧ hasRequiredScope (claim_text claims "scope") "tenant:read" = true ∧ tenantFromClaims claims ≠ "") as Hiff.
  { intros claims. rewrite Hx, has_scope by done. split.
    - intros (t0 & kid & keys & rp & _ & Heq & Hb & Hl & Hs & Hd & Hp & Hsc & Hten). apply (f_equal (λ s, TrimPrefix s "Bearer ")) in Heq. rewrite !TrimPrefix_app in Heq. subst t0.
      split; [|done]. exists kid, keys. rewrite Hb in Hw1. destruct (new_request "GET" (h_jwksURL h)) as [e|].
      { subst w1. apply (f_equal length) in Hl. rewrite length_app in Hl. cbn in Hl. lia. }
      split; [done|]. split; [done|]. split; [|done]. rewrite Hw1, after_request_log in Hl. apply app_inv_head in Hl. injection Hl as Hr. rewrite Hr. cbn. by rewrite Hs, Hd.
    - intros ((kid & keys & Hb & Hn & Hk & Hp) & Hsc & Hten). destruct (key_set_inv _ _ Hk) as (rp & Hr & Hs & Hd). exists token, kid, keys, rp.
      split_and!; [done..| |done|done|done|done|done]. rewrite Hb, Hn in Hw1. subst w1. by rewrite after_request_log, Hr. }
  cbv beta iota. destruct x as [claims|e].
  - destruct (hasRequiredScope (claim_text claims "scope") "tenant:read") eqn:Esc; cbn [negb].
    2: { intros [= <- <-]. split; [done|]. intros c Hc. apply Hiff in Hc as ([= <-] & H & _). congruence. }
    destruct (String.eqb (tenantFromClaims claims) "") eqn:Et.
    { apply String.eqb_eq in Et. intros [= <- <-]. split; [done|]. intros c Hc. apply Hiff in Hc as ([= <-] & _ & H). done. }
    apply String.eqb_neq in Et. intros [= <- <-]. split; [intros _; exists claims; split; [by apply Hiff|done]|]. intros c Hc. by apply Hiff in Hc as ([= <-] & _).
  - intros [= <- <-]. split; [done|]. intros c Hc. by apply Hiff in Hc as (? & _).
Qed.
(** The cache of keys is never used: every request with a token that names a key asks the issuer
    for the whole key set, also one that follows another at once with the same token, since
    each makes a validator of its own. *)
Theorem every_validation_fetches h r w resp1 w1 resp2 w2 token kid :
  (0 ≤ now w)%Z → (0 ≤ now w1)%Z → Method r = "POST" → HeaderGet (Header r) "Authorization" = "Bearer " +:+ token → before_key token = Ok (Some kid) →
  new_request "GET" (h_jwksURL h) = None → ValidateHandler h r w = (resp1, w1) → ValidateHandler h r w1 = (resp2, w2) →
  ∃ a b, log w2 = (log w ++ [a; b])%list ∧ asked a = jwks_request (h_jwksURL h) (IssuerHost h) ∧ asked b = asked a.
Proof.
  intros H0 H1 Hm Ha Hb Hn. assert (∀ w x w', (0 ≤ now w)%Z → ValidateHandler h r w = (x, w') → w' = after_request (jwks_request (h_jwksURL h) (IssuerHost h)) w) as Hone.
  { intros u x u' Hu. unfold ValidateHandler. rewrite Hm, Ha. change (String.eqb "POST" "POST") with true. cbn [negb].
    assert (HasPrefix ("Bearer " +:+ token) "Bearer " = true) as -> by (apply HasPrefix_iff; by exists token).
    assert (String.eqb ("Bearer " +:+ token) "" = false) as -> by done. cbv zeta. cbn [negb]. rewrite bind_run, TrimPrefix_app.
    destruct (Validate_new (h_jwksURL h) (IssuerHost h) (expectedAudience h) ns_hour token u Hu) as (y & v' & u1 & -> & -> & _). rewrite Hb, Hn. cbv beta iota.
    destruct y as [claims|]; [|by intros [= _ <-]]. destruct (hasRequiredScope _ _); cbn [negb]; [|by intros [= _ <-]]. by destruct (String.eqb _ ""); intros [= _ <-]. }
  intros E1 E2. apply Hone in E1, E2; [|done..]. subst w1 w2. rewrite !after_request_log, <- app_assoc. cbn [app]. by eexists _, _.
Qed.
End proxy.

Section process.
Context {Is : Issuer}.
Abbreviation M A := (goM World string A).
Context (cfg : Config).
Abbreviation h := (handler_of cfg).

(** A request is served, the issuer is probed until the process is ready, or anything happens
    outside. *)
Inductive process_step : World * JWTValidator → World * JWTValidator → Prop :=
| ps_request r v w res w' : serve_mux h r w = (res, w') → process_step (w, v) (w', v)
| ps_probe v w v' w' : ready w = false → probe_issuer v w = (Ok v', w') → process_step (w, v) (w', v')
| ps_outside v w i t : (0 ≤ t)%Z → process_step (w, v) (mkWorld i (now w + t) (ready w) (log w), v).

(** ** What is asked *)

(** The discovery document or the keys, at the address inside the cluster, in the name of the
    issuer. *)
Definition to_issuer (ev : Event) : Prop :=
  Host (asked ev) = IssuerHost h
  ∧ (URL (asked ev) = ZitadelInternalURL cfg +:+ zitadelDiscoveryPath ∨ URL (asked ev) = ZitadelInternalURL cfg +:+ zitadelJWKSPath).
Definition our_settings (v : JWTValidator) : Prop := jwksURL v = ZitadelInternalURL cfg +:+ zitadelJWKSPath ∧ jwksHost v = IssuerHost h.
Lemma Do_appends q : (∀ t r, to_issuer (mkEvent t q r)) → appends log to_issuer (Do q : M _).
Proof. intros H. apply appends_one. intros w. rewrite sent_run. cbn [snd]. rewrite after_request_log. by eexists. Qed.
Lemma getKey_appends v kid : our_settings v → appends log to_issuer (getKey v kid).
Proof.
  intros [Hu Hh] w. destruct (getKey_run v kid w) as (r & v' & w' & E & Hk). rewrite E. cbn [snd].
  assert (∀ q, q = asks v → ∃ new, log (after_request q w) = (log w ++ new)%list ∧ Forall to_issuer new) as Hq.
  { intros q ->. rewrite after_request_log. eexists. split; [done|]. constructor; [|constructor]. unfold to_issuer, asks. cbn. rewrite Hu, Hh. by split; [|right]. }
  destruct Hk; try (by apply Hq); exists []; by rewrite app_nil_r.
Qed.
Lemma getKey_settings v kid w r v' w' : our_settings v → getKey v kid w = (Ok (r, v'), w') → our_settings v'.
Proof. intros Hv E. destruct (getKey_run v kid w) as (r0 & v0 & w0 & E0 & Hk). rewrite E in E0. injection E0 as <- <- <-. by destruct Hk. Qed.
Lemma Validate_appends v token : our_settings v → appends log to_issuer (Validate v token).
Proof.
  intros Hv. unfold Validate. destruct (before_key token) as [kid|e]; [|by apply appends_none]. apply appends_bind.
  - destruct kid as [kid|]; [|by apply appends_none]. cbn [keyfunc]. apply appends_bind; [by apply getKey_appends|]. intros [k v']. by apply appends_none.
  - intros [k v']. apply appends_bind; [by apply appends_none|]. intros t. by apply appends_none.
Qed.
Lemma Validate_settings v token w r v' w' : our_settings v → Validate v token w = (Ok (r, v'), w') → our_settings v'.
Proof.
  intros Hv. unfold Validate. destruct (before_key token) as [[kid|]|e]; [| |by intros [= _ <- _]].
  - rewrite bind_run. cbn [keyfunc]. rewrite bind_run. destruct (getKey_run v kid w) as (x & v1 & w1 & E & _). rewrite E. cbn [mret goM_ret]. cbv beta iota.
    intros [= _ <- _]. by eapply getKey_settings.
  - by intros [= _ <- _].
Qed.
Lemma serve_appends r : appends log to_issuer (serve_mux h r).
Proof.
  assert (∀ p, p = zitadelDiscoveryPath ∨ p = zitadelJWKSPath → appends log to_issuer (proxy h r p)) as Hp.
  { intros p Hp. unfold proxy. destruct (new_request _ _); [by apply appends_none|]. apply appends_bind; [|intros; by apply appends_none].
    apply Do_appends. intros t x. split; [done|]. cbn. by destruct Hp as [-> | ->]; [left|right]. }
  unfold serve_mux. destruct (String.eqb _ _); [apply Hp; by left|]. do 2 (destruct (String.eqb _ _); [by apply appends_none|]).
  destruct (String.eqb _ _); [apply Hp; by right|]. destruct (String.eqb _ _).
  { unfold HealthReady. apply appends_bind; [by apply appends_none|intros; by apply appends_none]. }
  destruct (String.eqb _ _); [|by apply appends_none]. unfold ValidateHandler. do 3 (destruct (_ : bool); [by apply appends_none|]).
  apply appends_bind; [by apply Validate_appends|]. intros [[c|e] v]; [|by apply appends_none]. destruct (negb _); [by apply appends_none|]. by destruct (String.eqb _ _); apply appends_none.
Qed.
Lemma probe_appends v : our_settings v → appends log to_issuer (probe_issuer v).
Proof.
  intros Hv. unfold probe_issuer. apply appends_bind; [by apply Validate_appends|]. intros [[c|e] v'];
    [|destruct (Contains _ _); [by apply appends_none|]]; (apply appends_bind; [|intros; by apply appends_none]); by apply appends_none.
Qed.
Lemma probe_settings v w v' w' : our_settings v → probe_issuer v w = (Ok v', w') → our_settings v'.
Proof.
  intros Hv. unfold probe_issuer. rewrite bind_run. destruct (Validate v probeToken w) as [[[r v1]|e] w1] eqn:E; [|done]. apply Validate_settings in E; [|done].
  destruct r as [c|e]; [by intros [= <- _]|]. by destruct (Contains _ _); intros [= <- _].
Qed.
(** Whatever requests it is sent, the process asks nothing but the discovery document and the keys,
    of the issuer inside the cluster, and under the issuer's public name: no request can
    make it reach another address, and none that it makes carries another Host. *)
Theorem asks_issuer_only w s : rtc process_step (w, prober cfg) s → log w = [] → Forall to_issuer (log s.1).
Proof.
  intros Hr Hl. assert (Forall to_issuer (log (w, prober cfg).1) ∧ our_settings (w, prober cfg).2) as H by (cbn; rewrite Hl; done).
  enough (Forall to_issuer (log s.1) ∧ our_settings s.2) by tauto. clear Hl. induction Hr as [|s1 s2 s3 Hst _ IH]; [done|]. apply IH. clear IH. destruct H as [Hf Hs].
  destruct Hst as [r v w1 res w' E|v w1 v' w' _ E|]; [|split; [|by eapply probe_settings]|done].
  - destruct (appends_run log to_issuer _ _ _ _ (serve_appends r) E) as (new & Hn & Hnew). cbn. rewrite Hn. split; [by apply Forall_app|done].
  - destruct (appends_run log to_issuer _ _ _ _ (probe_appends v Hs) E) as (new & Hn & Hnew). cbn. rewrite Hn. by apply Forall_app.
Qed.

(** ** Readiness *)

Context (kid : string) (probe_kid : before_key probeToken = Ok (Some kid)).
Context (wraps : ∀ e, ∃ a b, keyfunc_error e = a +:+ e +:+ b).
Context (delay : ∀ q i, (0 ≤ (http_do q i).2)%Z).
Definition reached (w : World) : Prop :=
  ∃ ev keys, ev ∈ log w ∧ fetch_of (ZitadelInternalURL cfg +:+ zitadelJWKSPath) (IssuerHost h) keys ev.
(** The validator of the probes before the first set of keys. *)
Definition unused (v : JWTValidator) : Prop := v = prober cfg.
Lemma probe_run w v' w' : (0 ≤ now w)%Z → ready w = false → probe_issuer (prober cfg) w = (Ok v', w') →
  (now w ≤ now w')%Z ∧ (reached w' ∨ ready w' = false ∧ unused v').
Proof using probe_kid wraps delay.
  intros Hnow Hr0. unfold probe_issuer, Validate. rewrite probe_kid, bind_run, bind_run. cbn [keyfunc]. rewrite bind_run.
  destruct (getKey_run (prober cfg) kid w) as (r & v & w1 & E & Hk). rewrite E. cbn [mret goM_ret]. cbv beta iota. rewrite bind_run. cbn [gets mret goM_ret].
  pose proof (fresh_due w (lastRefresh (prober cfg)) Hnow eq_refl) as Hdue.
  assert (∀ e, Contains ("failed to parse token: " +:+ keyfunc_error ("failed to get key: " +:+ "failed to fetch JWKS: " +:+ e)) "failed to fetch JWKS" = true) as Hc.
  { intros e. destruct (wraps ("failed to get key: " +:+ "failed to fetch JWKS: " +:+ e)) as (a & b & ->).
    assert ("failed to fetch JWKS: " = "failed to fetch JWKS" +:+ ": ") as -> by done.
    replace (_ +:+ _) with (("failed to parse token: " +:+ a +:+ "failed to get key: ") +:+ "failed to fetch JWKS" +:+ (": " +:+ e +:+ b)); [apply Contains_app|].
    by rewrite <- !str_app_assoc. }
  assert (delete kid (cache (prober cfg)) = ∅) as Hdel by apply delete_empty.
  assert (unused (dropped (prober cfg) kid)) as Hun by (unfold unused, dropped; rewrite Hdel; done).
  destruct Hk as [key Hu|e Hu Hl|e Hu _ Hn|e Hu _ Hks Hn|keys r Hu _ Hks Hn Hp]; [by cbv in Hu|change (refreshInterval (prober cfg)) with (10 * ns_s)%Z in Hl; lia|..]; cbv beta iota.
  - rewrite Hc. intros [= <- <-]. split; [done|]. by right.
  - rewrite Hc. intros [= <- <-]. rewrite after_request_ready, Hr0. split; [by apply time_after|]. by right.
  - pose proof (time_after delay (asks (prober cfg)) w) as Ht.
    assert (reached (after_request (asks (prober cfg)) w)) as Hre.
    { eexists _, keys. split; [rewrite after_request_log; apply elem_of_app; right; by apply list_elem_of_singleton|]. by split. }
    match goal with |- (match ?x with Ok _ => _ | Err _ => _ end) _ = _ → _ => destruct x as [c|e] end; [|destruct (Contains _ _)];
      intros [= _ <-]; (split; [exact Ht|left; exact Hre]).
Qed.
#[local] Opaque getKey Do.
Lemma serve_steady r w res w' : serve_mux h r w = (res, w') → ready w' = ready w ∧ (now w ≤ now w')%Z.
Proof using delay.
  assert (∀ v k, keeps (λ u, ready u = ready w ∧ (now w ≤ now u)%Z) (getKey v k)) as Hk.
  { intros v k u [H1 H2]. destruct (getKey_run v k u) as (x & v' & u' & -> & Hs). pose proof (time_after delay (asks v) u).
    destruct Hs; cbn [snd]; rewrite ?after_request_ready; split; try done; lia. }
  assert (∀ q, keeps (λ u, ready u = ready w ∧ (now w ≤ now u)%Z) (Do q : M _)) as Hd.
  { intros q u [H1 H2]. rewrite sent_run. cbn [snd]. rewrite after_request_ready. pose proof (time_after delay q u). split; [done|lia]. }
  assert (keeps (λ u, ready u = ready w ∧ (now w ≤ now u)%Z) (serve_mux h r)) as H.
  { unfold serve_mux, ProxyOpenIDConfiguration, ProxyJWKS, ServeAuthServerMetadata, HealthReady, ValidateHandler, Validate, keyfunc, proxy. walk_keeps; eauto with keeps. }
  intros E. specialize (H w (conj eq_refl (Z.le_refl _))). by rewrite E in H.
Qed.
#[local] Transparent getKey Do.
Lemma reached_more w w' : (∀ ev, ev ∈ log w → ev ∈ log w') → reached w → reached w'.
Proof. intros H (ev & keys & Hin & Hf). exists ev, keys. split; [by apply H|done]. Qed.
(** What is ready has reached the issuer. *)
Definition sound (s : World * JWTValidator) : Prop := (0 ≤ now s.1)%Z ∧ our_settings s.2 ∧ (reached s.1 ∨ ready s.1 = false ∧ unused s.2).
Lemma probe_time v w v' w' : probe_issuer v w = (Ok v', w') → (now w ≤ now w')%Z.
Proof using delay.
  clear probe_kid. unfold probe_issuer, Validate. destruct (before_key probeToken) as [[k|]|e].
  - rewrite bind_run, bind_run. cbn [keyfunc]. rewrite bind_run. destruct (getKey_run v k w) as (r & v1 & w1 & -> & Hk). cbn [mret goM_ret]. cbv beta iota. rewrite bind_run. cbn [gets mret goM_ret]. cbv beta iota.
    assert (now w ≤ now w1)%Z as Ht by (pose proof (time_after delay (asks v) w); destruct Hk; done).
    match goal with |- (match ?x with Ok _ => _ | Err _ => _ end) _ = _ → _ => destruct x as [c|e] end; [|destruct (Contains _ _)]; by intros [= _ <-].
  - rewrite bind_run, bind_run. cbn [keyfunc mret goM_ret]. cbv beta iota. rewrite bind_run. cbn [gets mret goM_ret]. cbv beta iota. destruct (Contains _ _); by intros [= _ <-].
  - rewrite bind_run. cbn [mret goM_ret]. cbv beta iota. destruct (Contains _ _); by intros [= _ <-].
Qed.
Lemma step_sound s s' : process_step s s' → sound s → sound s'.
Proof using probe_kid wraps delay.
  intros Hst (Hnow & Hs & Hr). destruct Hst as [r v w res w' E|v w v' w' Hf E|v w i t Ht]; cbn [fst snd] in *.
  - pose proof (serve_steady r w res w' E) as [Hrd Ht]. split; [cbn; lia|]. split; [done|]. cbn. destruct Hr as [Hre|[Hrf Hu]]; [left|right; by rewrite Hrd].
    eapply reached_more; [|exact Hre]. intros ev. by eapply appends_old; [apply serve_appends|].
  - pose proof (probe_time v w v' w' E) as Ht. split; [cbn; lia|]. split; [by eapply probe_settings|]. cbn. destruct Hr as [Hre|[_ Hu]].
    + left. eapply reached_more; [|exact Hre]. intros ev. eapply appends_old; [by apply probe_appends|exact E].
    + unfold unused in Hu. subst v. by apply probe_run in E as [_ E].
  - split; [cbn; lia|]. split; [done|]. exact Hr.
Qed.
(** C33: The service reports itself ready only once the issuer was reached: whenever a health check, at any
    point of any history, answers 200, the process has been given a set of keys by the
    issuer, at the address and under the name it is configured with. *)
Theorem ready_means_reached w s r resp w' :
  rtc process_step (w, prober cfg) s → (0 ≤ now w)%Z → ready w = false →
  HealthReady r s.1 = (Ok resp, w') → StatusCode resp = 200%Z → reached s.1.
Proof using probe_kid wraps delay.
  intros Hr Hnow Hf E H200. assert (sound (w, prober cfg)) as H by (split; [done|]; split; [done|right; done]).
  assert (sound s) as (_ & _ & [H1|[H1 _]]) by (clear E; induction Hr as [|s1 s2 s3 Hst _ IH]; [done|]; apply IH; by eapply step_sound); [done|].
  unfold HealthReady in E. rewrite bind_run in E. cbn [gets] in E. rewrite H1 in E. by injection E as <- _.
Qed.
(** And it becomes so with the first probe the issuer answers with keys, where the probe's key is not
    among them and the library's error for that does not read as a fetch that failed. *)
Lemma probe_succeeds w keys : (0 ≤ now w)%Z → new_request "GET" (jwksURL (prober cfg)) = None → key_set (reply_to (asks (prober cfg)) w) = Some keys →
  published keys kid = None → Contains ("failed to parse token: " +:+ keyfunc_error ("failed to get key: " +:+ "key not found in JWKS: " +:+ kid)) "failed to fetch JWKS" = false →
  ready (probe_issuer (prober cfg) w).2 = true.
Proof using probe_kid.
  intros Hnow Hn Hks Hp Hc. unfold probe_issuer, Validate. rewrite probe_kid, bind_run, bind_run. cbn [keyfunc]. rewrite bind_run.
  destruct (getKey_run (prober cfg) kid w) as (r & v & w1 & -> & Hk). pose proof (fresh_due w (lastRefresh (prober cfg)) Hnow eq_refl) as Hdue.
  destruct Hk as [key Hu|e Hu Hl|e Hu _ [x Hx]|e Hu _ Hks' _|keys' r Hu _ Hks' _ Hr]; [by cbv in Hu|change (refreshInterval (prober cfg)) with (10 * ns_s)%Z in Hl; lia|congruence|congruence|].
  rewrite Hks in Hks'. injection Hks' as <-. rewrite Hp in Hr. subst r. cbn [mret goM_ret]. cbv beta iota. rewrite bind_run. cbn [gets mret goM_ret]. cbv beta iota. by rewrite Hc.
Qed.
End process.

Definition the_jwk : JWK := mkJWK "RSA" "k1" "sig" "RS256" "-_8" "AQAB".
Definition the_claims : Claims :=
  [("sub", VText "u1"); ("scope", VText "openid tenant:read"); ("urn:zitadel:iam:user:resourceowner:id", VText "t1");
   (scopedRolesClaim, VObject [("admin", VObject [("t1", VText "one.example")]); ("owner", VObject [("t2", VText "two.example")])])].
#[export] Instance the_issuer : Issuer := {|
  ISt := bool;
  http_do _ up := (if up then Ok (mkResponse 200 ∅ "keys") else Err "connection refused", up, 1%Z);
  new_request _ _ := None;
  url_host u := Some (TrimPrefix u "https://");
  decode_jwks b := if String.eqb b "keys" then Some [the_jwk] else None;
  before_key t := if String.eqb t probeToken then Ok (Some "test") else if String.eqb t "tok" then Ok (Some "k1") else Err "token is malformed";
  with_key t key _ := if String.eqb t "tok" && (E key =? 65537)%Z then Ok the_claims else Err "token signature is invalid";
  keyfunc_error e := "token is unverifiable: error while executing keyfunc: " +:+ e +:+ "";
  GetAudience _ := Ok ["mcp"];
  encode_json _ := "{}" |}.
Definition config : Config := mkConfig ":8080" "https://id.example" "http://zitadel" ns_hour (5 * ns_s) (10 * ns_s) "mcp" "https://auth.example" "https://mcp.example".
Definition start (up : bool) : World := mkWorld up 0%Z false [].
Lemma takes_time q i : (0 ≤ (http_do (Issuer := the_issuer) q i).2)%Z.
Proof. done. Qed.
Lemma probe_names : before_key (Issuer := the_issuer) probeToken = Ok (Some "test").
Proof. vm_compute. reflexivity. Qed.
Lemma wraps_error e : ∃ a b, keyfunc_error (Issuer := the_issuer) e = a +:+ e +:+ b.
Proof. by exists "token is unverifiable: error while executing keyfunc: ", "". Qed.

(** ** Keys *)

Definition checker : JWTValidator := NewJWTValidatorWithHost "http://zitadel/oauth/v2/keys" "id.example" "mcp" ns_hour.
Lemma key_provenance_witness :
  ∃ ev keys j, ev ∈ log (getKey checker "k1" (start true)).2 ∧ fetch_of "http://zitadel/oauth/v2/keys" "id.example" keys ev
    ∧ j ∈ keys ∧ Kid j = "k1" ∧ jwkToPublicKey j = Ok (mkKey 64511 65537).
Proof.
  destruct (key_provenance "http://zitadel/oauth/v2/keys" "id.example" "mcp" ns_hour (start true) (start true) checker "k1" (mkKey 64511 65537)
    (stored checker "k1" [the_jwk] 1) (getKey checker "k1" (start true)).2) as (ev & keys & j & H1 & H2 & H3 & H4 & H5 & _).
  - apply rtc_refl.
  - vm_compute. reflexivity.
  - by exists ev, keys, j.
Defined.
(** A second fetch, twenty seconds later. *)
Definition first_fetch : World := (getKey checker "k1" (start true)).2.
Definition later (w : World) : World := mkWorld true (now w + 20 * ns_s) (ready w) (log w).
Definition known : JWTValidator := stored checker "k1" [the_jwk] 1.
Definition second_fetch : World := (getKey known "k2" (later first_fetch)).2.
Lemma refresh_spacing_witness : length (fetches second_fetch) = 2%nat ∧ StronglySorted (apart (10 * ns_s)) (fetches second_fetch).
Proof.
  split; [vm_compute; reflexivity|].
  apply (refresh_spacing "http://zitadel/oauth/v2/keys" "id.example" "mcp" ns_hour takes_time (start true) second_fetch (stored known "k2" [the_jwk] (now second_fetch))); [|reflexivity].
  apply (rtc_l _ _ (first_fetch, known)).
  { eapply (vs_key "k1" checker (start true) (Ok (mkKey 64511 65537))). vm_compute. reflexivity. }
  apply (rtc_l _ _ (later first_fetch, known)); [by apply (vs_outside known first_fetch true (20 * ns_s))|]. apply rtc_once.
  eapply (vs_key "k2" known (later first_fetch) (Err "key not found in JWKS: k2")). vm_compute. reflexivity.
Defined.

(** ** Requests *)

Definition bearer : Request := mkRequest "POST" "/internal/validate" "" {["Authorization" := ["Bearer tok"]]} "".
Definition handler : Handler := handler_of config.
Definition answer : Response := mkResponse 200 (identity_headers the_claims "t1") "".
Definition validated (w : World) : World := (ValidateHandler handler bearer w).2.
Lemma admission_exact_witness : ∃ claims, admits handler bearer (start true) (validated (start true)) claims
  ∧ answer = mkResponse 200 (identity_headers claims (tenantFromClaims claims)) "".
Proof.
  apply (admission_exact handler bearer (start true) answer (validated (start true))); [done|vm_compute; reflexivity|reflexivity].
Defined.
Lemma every_validation_fetches_witness : ∃ a b, log (validated (validated (start true))) = [a; b] ∧ asked b = asked a.
Proof.
  destruct (every_validation_fetches handler bearer (start true) (ValidateHandler handler bearer (start true)).1 (validated (start true))
    (ValidateHandler handler bearer (validated (start true))).1 (validated (validated (start true))) "tok" "k1") as (a & b & H & _ & Hb).
  - done.
  - by vm_compute.
  - reflexivity.
  - reflexivity.
  - reflexivity.
  - reflexivity.
  - apply surjective_pairing.
  - apply surjective_pairing.
  - exists a, b. split; [exact H|exact Hb].
Defined.

(** ** The process *)

Definition probed (w : World) : World := (probe_issuer (prober config) w).2.
(** A probe while the issuer is down, then one when it is up. *)
Definition now_up (w : World) : World := mkWorld true (now w + 5 * ns_s) (ready w) (log w).
Definition both_probes : World := probed (now_up (probed (start false))).
Lemma probes_run : ∃ v, rtc (process_step config) (start false, prober config) (both_probes, v).
Proof.
  eexists. apply (rtc_l _ _ (probed (start false), prober config)); [apply ps_probe; [reflexivity|vm_compute; reflexivity]|].
  apply (rtc_l _ _ (now_up (probed (start false)), prober config)); [by apply (ps_outside config _ (probed (start false)) true (5 * ns_s))|].
  apply rtc_once. eapply ps_probe; [vm_compute; reflexivity|vm_compute; reflexivity].
Qed.
Lemma asks_issuer_only_witness : length (log both_probes) = 2%nat ∧ Forall (to_issuer config) (log both_probes).
Proof.
  split; [vm_compute; reflexivity|]. destruct probes_run as [v Hv]. exact (asks_issuer_only config (start false) (both_probes, v) Hv eq_refl).
Defined.
Definition health : Request := mkRequest "GET" "/health/ready" "" ∅ "".
Lemma ready_means_reached_witness : ready both_probes = true ∧ reached config both_probes.
Proof.
  split; [vm_compute; reflexivity|]. destruct probes_run as [v Hv].
  apply (ready_means_reached config "test" probe_names wraps_error takes_time (start false) (both_probes, v) health (mkResponse 200 ∅ "OK") both_probes Hv).
  - done.
  - reflexivity.
  - vm_compute. reflexivity.
  - reflexivity.
Defined.
