(* ===== verification/Health.v ===== *)
(** * Health: the checks that a hub is up.

    Models internal/kakt-cli/health: converged.go, boundary_inventory.go and the checker of
    kubectl.go. [Hub] is what the checks ask: kubectl, each of whose commands a check gives
    once, the decoders of its replies, with the keys the resources have, and the platform's
    tree of files. A check answers with the reason it does not hold. *)

From S2P Require Import Prelude.
From S2P Require Import GoRuntime.
From S2P Require Import Codec.

Local Open Scope string_scope.

Abbreviation object := (list (string * Value)).
(** The part of an ApplicationSet and of an Application that is read. *)
Record AppSet := mkAppSet { as_name : string; as_project : string; generators : list object }.
Record application := mkApplication { app_name : string; app_project : string; app_conditions : list (string * string) }.   (* type, message *)
Class Hub := {
  kubectl : list string → result string string;
  decode_items : string → option (list object);
  decode_appsets : string → option (list AppSet);
  decode_apps : string → option (list application);
  getwd : result string string;
  read_dir : string → result string (list (string * bool));      (* name, whether a directory *)
  dir_exists : string → bool }.

(** ** Fields of an object *)

Fixpoint nested_in (cur : option Value) (path : list string) : option Value :=
  match path with
  | [] => cur
  | p :: path => match cur with Some (VObject m) => nested_in (member m p) path | _ => None end
  end.
Definition nested (m : object) (path : list string) : option Value := nested_in (Some (VObject m)) path.
Definition as_text (v : option Value) : string := match v with Some (VText s) => s | _ => "" end.
Definition name (m : object) : string := as_text (nested m ["metadata"; "name"]).
Definition namespacedName (m : object) : string := as_text (nested m ["metadata"; "namespace"]) +:+ "/" +:+ name m.
Definition conditions (m : object) : list Value := match nested m ["status"; "conditions"] with Some (VList l) => l | _ => [] end.
Definition objects (l : list Value) : list object := omap (λ v, match v with VObject o => Some o | _ => None end) l.
Definition or (s fallback : string) : string := if String.eqb (TrimSpace s) "" then fallback else s.
Definition conditionStatus (m : object) : string :=
  match objects (conditions m) with c :: _ => as_text (member c "status") | [] => "" end.
Definition reason (m : object) : string :=
  match objects (conditions m) with c :: _ => or (as_text (member c "reason")) "no condition" | [] => "no condition" end.
Definition hasCondition (m : object) (kind want : string) : bool :=
  match List.find (λ c, String.eqb (as_text (member c "type")) kind) (objects (conditions m)) with
  | Some c => String.eqb (as_text (member c "status")) want
  | None => false
  end.
Definition summarise (bad : list string) : string :=
  if (length bad <=? 3)%nat then Join bad ", " else Join (take 3 bad) ", " +:+ " and " +:+ pretty (length bad - 3)%nat +:+ " more".

(** ** Convergence *)

(** What is wanted of each object, how one that is not there yet is named, and how the names
    are put in the message. *)
Record jsonCountChecker := mkChecker {
  checker_name : string; args : list string; ok : object → bool; blame : object → string; detail : list string → string }.
Definition comma (l : list string) : string := Join l ", ".
Definition synced (a : object) : string := as_text (nested a ["status"; "sync"; "status"]).
Definition healthy (a : object) : string := as_text (nested a ["status"; "health"; "status"]).
Definition phase (p : object) : string := as_text (nested p ["status"; "phase"]).
Definition ConvergedCheckers : list jsonCountChecker :=
  [mkChecker "nodes Ready" ["get"; "nodes"; "-o"; "json"] (λ n, hasCondition n "Ready" "True") name comma;
   mkChecker "secret stores valid" ["get"; "clustersecretstore"; "-o"; "json"] (λ s, String.eqb (reason s) "Valid")
     (λ s, name s +:+ " (" +:+ reason s +:+ ")") comma;
   mkChecker "ExternalSecrets synced" ["get"; "externalsecrets"; "-A"; "-o"; "json"] (λ e, String.eqb (conditionStatus e) "True")
     namespacedName summarise;
   mkChecker "Applications Synced and Healthy" ["get"; "applications"; "-n"; "platform-ops"; "-o"; "json"]
     (λ a, String.eqb (synced a) "Synced" && String.eqb (healthy a) "Healthy")
     (λ a, name a +:+ " (" +:+ or (synced a) "-" +:+ "/" +:+ or (healthy a) "-" +:+ ")") summarise;
   mkChecker "pods Running or Completed" ["get"; "pods"; "-A"; "-o"; "json"]
     (λ p, String.eqb (phase p) "Running" || String.eqb (phase p) "Succeeded")
     (λ p, namespacedName p +:+ " (" +:+ or (phase p) "-" +:+ ")") summarise].

Section checks.
Context {H : Hub}.

Definition Check_count (kubeconfig : string) (c : jsonCountChecker) : option string :=
  match kubectl ("--kubeconfig" :: kubeconfig :: args c) with
  | Err e => Some ("could not read " +:+ checker_name c +:+ ": " +:+ e)
  | Ok out =>
      match decode_items out with
      | None => Some ("could not parse " +:+ checker_name c)
      | Some [] => Some ("no " +:+ checker_name c +:+ " exist yet")
      | Some items =>
          let bad := List.filter (λ o, negb (ok c o)) items in
          match bad with
          | [] => None
          | _ => Some (pretty (length items - length bad)%nat +:+ "/" +:+ pretty (length items) +:+ " ready; waiting on " +:+ detail c (blame c <$> bad))
          end
      end
  end.

(** The checker of one kubectl command. *)
Record KubectlChecker := mkKubectlChecker { checkName : string; KubectlArgs : list string; Expected : string; FailIfError : bool }.
Definition Check_kubectl (kubeconfig : string) (k : KubectlChecker) : option string :=
  match kubectl ("--kubeconfig" :: kubeconfig :: KubectlArgs k) with
  | Err e => if FailIfError k then Some (checkName k +:+ ": kubectl error: " +:+ e) else Some (checkName k +:+ ": not yet ready (" +:+ e +:+ ")")
  | Ok out =>
      if String.eqb out "" then Some (checkName k +:+ ": no output")
      else if negb (String.eqb (Expected k) "") && negb (Contains out (Expected k)) then Some (checkName k +:+ ": " +:+ quoted (Expected k) +:+ " not found in output")
      else None
  end.

(** ** The inventory of a boundary *)

Record BoundaryInventoryChecker := mkInventory { Boundary : string; RepoRoot : string }.
Definition inventory_name (b : BoundaryInventoryChecker) : string := "boundary " +:+ Boundary b +:+ " inventory".
Definition project (b : BoundaryInventoryChecker) : string := "boundary-" +:+ Boundary b.
Definition descriptorCount (b : BoundaryInventoryChecker) : result string nat :=
  match (if String.eqb (RepoRoot b) "" then getwd else Ok (RepoRoot b)) with
  | Err e => Err ("cannot determine working directory: " +:+ e)
  | Ok root =>
      let components := "manifests/argocd/components/" +:+ Boundary b in
      let dir := if String.eqb root "" then components else root +:+ "/" +:+ components in
      match read_dir dir with
      | Ok entries => Ok (length (List.filter (λ e, negb e.2 && HasSuffix e.1 ".yaml") entries))
      | Err e => if dir_exists dir then Err ("cannot read descriptor directory " +:+ dir +:+ ": " +:+ e) else Ok 0%nat
      end
  end.
Record appSetSummary := mkSummary { InlineElements : nat; Dynamic : bool; ReadsDescriptors : bool }.
Definition list_elements (raw : Value) : nat :=
  match raw with VObject m => match member m "elements" with Some (VList l) => length l | _ => 0%nat end | _ => 0%nat end.
(** The paths of a git generator, where it decodes. *)
Definition file_path (v : Value) : option string :=
  match v with
  | VObject m => match member m "path" with Some (VText p) => Some p | Some VNull | None => Some "" | Some _ => None end
  | VNull => Some ""
  | _ => None
  end.
Definition git_paths (raw : Value) : list string :=
  match raw with
  | VObject m => match member m "files" with Some (VList l) => default [] (mapM file_path l) | _ => [] end
  | _ => []
  end.
Definition dynamic_kinds : list string := ["matrix"; "merge"; "clusters"; "scmProvider"; "pullRequest"].
Definition add_generator (descriptorDir : string) (s : appSetSummary) (g : string * Value) : appSetSummary :=
  if String.eqb g.1 "list" then mkSummary (InlineElements s + list_elements g.2) (Dynamic s) (ReadsDescriptors s)
  else if String.eqb g.1 "git" then mkSummary (InlineElements s) (Dynamic s) (ReadsDescriptors s || existsb (λ p, HasPrefix p descriptorDir) (git_paths g.2))
  else if existsb (String.eqb g.1) dynamic_kinds then mkSummary (InlineElements s) true (ReadsDescriptors s)
  else s.
Definition summary_of (b : BoundaryInventoryChecker) (a : AppSet) : appSetSummary :=
  foldl (add_generator ("manifests/argocd/components/" +:+ Boundary b +:+ "/")) (mkSummary 0 false false) (concat (generators a)).
Definition boundaryAppSets (b : BoundaryInventoryChecker) (kubeconfig : string) : result string (list appSetSummary) :=
  match kubectl ["--kubeconfig"; kubeconfig; "get"; "applicationsets.argoproj.io"; "-n"; "platform-ops"; "-o"; "json"] with
  | Err e => Err ("cannot list ApplicationSets: " +:+ e)
  | Ok out =>
      match decode_appsets out with
      | None => Err "cannot parse ApplicationSets"
      | Some l => Ok (summary_of b <$> List.filter (λ a, String.eqb (as_project a) (project b)) l)
      end
  end.
Definition boundaryApps (b : BoundaryInventoryChecker) (kubeconfig : string) : result string (list application) :=
  match kubectl ["--kubeconfig"; kubeconfig; "get"; "applications"; "-n"; "platform-ops"; "-o"; "json"] with
  | Err e => Err ("cannot list Applications for boundary-" +:+ Boundary b +:+ ": " +:+ e)
  | Ok out =>
      match decode_apps out with
      | None => Err "cannot parse Applications"
      | Some l => Ok (List.filter (λ a, String.eqb (app_project a) (project b)) l)
      end
  end.
Definition ellipsis : string := "…".
Definition comparison_error (a : application) : option string :=
  match List.find (λ c, String.eqb c.1 "ComparisonError") (app_conditions a) with
  | Some c => let msg := TrimSpace c.2 in
              Some (app_name a +:+ ": " +:+ if (160 <? String.length msg)%nat then str_take 160 msg +:+ ellipsis else msg)
  | None => None
  end.
Definition comparisonErrors (apps : list application) : list string :=
  let out := omap comparison_error apps in
  if (3 <? length out)%nat then (take 3 out ++ ["and " +:+ pretty (length out - 3)%nat +:+ " more"])%list else out.
(** What the boundary declares: the elements of its lists, and the descriptors where some
    generator reads them. *)
Definition expected_of (descriptors : nat) (sets : list appSetSummary) : nat :=
  ((if existsb ReadsDescriptors sets then descriptors else 0) + foldr plus 0 (InlineElements <$> sets))%nat.
Definition Check_inventory (b : BoundaryInventoryChecker) (kubeconfig : string) : option string :=
  let fail e := Some (inventory_name b +:+ ": " +:+ e) in
  match boundaryAppSets b kubeconfig with
  | Err e => fail e
  | Ok [] => fail ("no ApplicationSet targets project " +:+ project b)
  | Ok sets =>
      match descriptorCount b with
      | Err e => fail e
      | Ok descriptors =>
          match boundaryApps b kubeconfig with
          | Err e => fail e
          | Ok apps =>
              let expected := expected_of descriptors sets in
              let got := length apps in
              if (got <? expected)%nat then fail (pretty got +:+ " of " +:+ pretty expected +:+ " Applications generated")
              else if (expected =? 0)%nat && (got =? 0)%nat && negb (existsb Dynamic sets)
              then fail ("rendered " +:+ pretty (length sets) +:+ " ApplicationSet(s) but they declare no components and generated none")
              else match comparisonErrors apps with
                   | [] => None
                   | broken => fail (pretty (length broken) +:+ " of " +:+ pretty got +:+ " Applications cannot render their source: " +:+ Join broken "; ")
                   end
          end
      end
  end.
End checks.
