(* ===== verification/Proposal.v ===== *)
(** * Proposal: the verdict on a bundle version proposed to a cluster.

    Models internal/kakt-cli/proposal: verdict.go and render.go, cmd/kakt/proposal.go, and
    the name check of internal/kakt-cli/validator. [Box] adds to the hub the files of the
    repository and helm, of which only the outcome of one command is asked. *)

From S2P Require Import Prelude.
From S2P Require Import GoRuntime.
From S2P Require Import Regexp.
From S2P Require Import Health.

Local Open Scope string_scope.

(** ** Versions *)

(** The digits of a part, as a 64-bit integer; 0 with anything else in it. *)
Fixpoint part_from (n : Z) (s : string) : Z :=
  match s with
  | EmptyString => n
  | String c s => if digit c then part_from (as_int64 (as_int64 (n * 10) + Z.of_nat (ord c - 48))) s else 0%Z
  end.
(** Up to the first character for which it does not hold. *)
Fixpoint upto (f : char → bool) (s : string) : string :=
  match s with EmptyString => "" | String c s => if f c then String c (upto f s) else "" end.
Definition splitSemver (v : string) : Z * Z * Z :=
  let v := upto (λ c, negb (Ascii.eqb c "-" || Ascii.eqb c "+")) (TrimPrefix v "v") in
  let '(a, rest, more) := Cut v "." in
  if negb more then (part_from 0 a, 0%Z, 0%Z)
  else let '(b, c, more) := Cut rest "." in
       if negb more then (part_from 0 a, part_from 0 b, 0%Z) else (part_from 0 a, part_from 0 b, part_from 0 c).
Definition semverLess (a b : string) : bool :=
  let '(a1, a2, a3) := splitSemver a in
  let '(b1, b2, b3) := splitSemver b in
  if negb (a1 =? b1)%Z then (a1 <? b1)%Z
  else if negb (a2 =? b2)%Z then (a2 <? b2)%Z
  else if negb (a3 =? b3)%Z then (a3 <? b3)%Z
  else false.

(** ** The verdict *)

Inductive Outcome := Pass | Fail_ | Unverified.
#[export] Instance Outcome_eq_dec : EqDecision Outcome.
Proof. solve_decision. Defined.
Record Result := mkResult { Name : string; Result_Outcome : Outcome; Detail : string }.
Record Verdict := mkVerdict { v_Cluster : string; From : string; v_Candidate : string; Verdict_Outcome : Outcome; Results : list Result }.
Record Options := mkOptions { Kubeconfig : string; Cluster : string; GitopsDir : string; Candidate : string; Registry : string; MinimumFrom : string }.
Fixpoint worst_from (out : Outcome) (results : list Result) : Outcome :=
  match results with
  | [] => out
  | r :: results => match Result_Outcome r with
                    | Fail_ => Fail_
                    | Unverified => worst_from Unverified results
                    | Pass => worst_from out results
                    end
  end.
Definition worst (results : list Result) : Outcome := worst_from Pass results.
Definition floor_name : string := "candidate may be taken from this cluster's version".
Definition checkFloor (from candidate minimum : string) : Result :=
  if String.eqb minimum "" || String.eqb minimum "any" then mkResult floor_name Pass "the release declares no minimum"
  else if String.eqb from "" then mkResult floor_name Unverified "this cluster's bundle.yaml declares no bundleVersion, so the step being taken is unknown"
  else if semverLess from minimum
  then mkResult floor_name Fail_ ("this cluster is on " +:+ from +:+ " and " +:+ candidate +:+ " may only be taken from " +:+ minimum
                                  +:+ " or later; move to " +:+ minimum +:+ " first")
  else mkResult floor_name Pass (from +:+ " → " +:+ candidate +:+ ", floor " +:+ minimum).
Definition firstLine (s : string) : string := TrimSpace (upto (λ c, negb (is_nl c)) s).

(** On a line, perhaps after a dash, the entry bundleVersion; on the next its value, perhaps
    quoted. *)
Definition bundleVersion_value : re :=
  let spaces := Star true (Cls blank) in
  Seq Bol (Seq spaces (Seq (Opt (Lit "-")) (Seq spaces (Seq (Lit "name:") (Seq (Plus (Cls blank)) (Seq (Lit "bundleVersion")
    (Seq spaces (Seq (Cls is_nl) (Seq spaces (Seq (Lit "value:") (Seq spaces (Seq (Opt (Cls (Ascii.eqb quote)))
      (Seq (Grp 1 (Plus (Cls (λ c, negb (Ascii.eqb quote c) && negb (blank c))))) (Opt (Cls (Ascii.eqb quote)))))))))))))))).
(** A literal in any case of its ASCII letters. *)
Definition lower (c : char) : char := if in_range "A" "Z" c then Ascii.ascii_of_nat (ord c + 32) else c.
Fixpoint LitFold (s : string) : re :=
  match s with EmptyString => Eps | String c s => Seq (Cls (λ x, Ascii.eqb (lower c) (lower x))) (LitFold s) end.
Definition absent : re := Alt (LitFold ": not found") (Alt (LitFold "manifest unknown") (LitFold "NAME_UNKNOWN")).
Definition MatchString (r : re) (s : string) : bool := match FindStringSubmatch r s with Some _ => true | None => false end.

Class Box `{Hub} := {
  repo_file : string → option string;
  file_exists : string → bool;
  helm_on_path : bool;
  helm_show_chart : string → string → result string unit;      (* reference, version; the output of a failure *)
  write_file : string → string → option string;                (* the error *)
  marshal_verdict : Verdict → result string string }.

Section box.
Context `{B : Box}.

Definition declaredVersion (gitopsDir cluster : string) : string :=
  if String.eqb gitopsDir "" || String.eqb cluster "" then ""
  else match repo_file (gitopsDir +:+ "/registry/clusters/" +:+ cluster +:+ "/bundle.yaml") with
       | None => ""
       | Some b => match FindStringSubmatch bundleVersion_value b with Some m => group 1 m | None => "" end
       end.
Definition resolves_name : string := "candidate resolves in the registry this box pulls from".
Definition chart_ref (registry : string) : string := "oci://" +:+ TrimPrefix registry "oci://" +:+ "/environment-manager".
Definition checkCandidateResolves (registry candidate : string) : Result :=
  if String.eqb registry "" then mkResult resolves_name Unverified "no registry was supplied, and guessing one would verify a source this box does not use"
  else if negb helm_on_path then mkResult resolves_name Unverified "helm is not on PATH here"
  else
    let ref := chart_ref registry in
    match helm_show_chart ref candidate with
    | Ok _ => mkResult resolves_name Pass (ref +:+ " " +:+ candidate)
    | Err out =>
        let msg := TrimSpace out in
        if MatchString absent msg then mkResult resolves_name Fail_ (candidate +:+ " is not published at " +:+ ref)
        else mkResult resolves_name Unverified ("could not reach " +:+ ref +:+ ": " +:+ firstLine msg)
    end.
Definition converged_prefix : string := "cluster is reconciling: ".
Definition checkClusterConverged (kubeconfig : string) : list Result :=
  if String.eqb kubeconfig "" then [mkResult (converged_prefix +:+ "reachable") Unverified "no kubeconfig, so the target was never contacted"]
  else if negb (file_exists kubeconfig) then [mkResult (converged_prefix +:+ "reachable") Unverified ("no kubeconfig at " +:+ kubeconfig)]
  else (λ c, match Check_count kubeconfig c with
             | Some e => mkResult (converged_prefix +:+ checker_name c) Unverified (firstLine e)
             | None => mkResult (converged_prefix +:+ checker_name c) Pass "holds"
             end) <$> ConvergedCheckers.
Definition Run (o : Options) : Verdict :=
  let from := declaredVersion (GitopsDir o) (Cluster o) in
  let results := checkFloor from (Candidate o) (MinimumFrom o) :: checkCandidateResolves (Registry o) (Candidate o) :: checkClusterConverged (Kubeconfig o) in
  mkVerdict (Cluster o) from (Candidate o) (worst results) results.

(** ** What is shown *)

Definition outcome_mark (o : Outcome) : string := match o with Pass => "✓" | Fail_ => "✗" | Unverified => "?" end.
Definition heading (o : Outcome) : string :=
  match o with
  | Pass => "## Pre-flight: this cluster can take this version"
  | Fail_ => "## Pre-flight: **do not merge**"
  | Unverified => "## Pre-flight: **unverified**"
  end.
Definition row (r : Result) : string := "| " +:+ outcome_mark (Result_Outcome r) +:+ " | " +:+ Name r +:+ " | " +:+ Detail r +:+ " |".
Definition Markdown (v : Verdict) : list string :=
  ([heading (Verdict_Outcome v); "";
    "`" +:+ v_Cluster v +:+ "` — " +:+ (if String.eqb (From v) "" then "unknown" else From v) +:+ " → **" +:+ v_Candidate v +:+ "**"; ""]
   ++ (if bool_decide (Verdict_Outcome v = Unverified)
       then ["Some checks could not run, so this is not a judgement that the version is unsafe — it is the absence of one. Merging is the tenant's decision either way (ADR-065); what is missing is the evidence it would have been made on."; ""]
       else [])
   ++ ["| | check | observed |"; "|---|---|---|"]
   ++ (row <$> Results v)
   ++ [""; "Produced inside this box, against this cluster. The platform holds no access to it and receives only this verdict (ADR-067)."])%list.
Definition with_outcome (o : Outcome) (v : Verdict) : nat := length (List.filter (λ r, bool_decide (Result_Outcome r = o)) (Results v)).
Definition upper_name (o : Outcome) : string := match o with Pass => "PASS" | Fail_ => "FAIL" | Unverified => "UNVERIFIED" end.
Definition Summary (v : Verdict) : string :=
  upper_name (Verdict_Outcome v) +:+ ": " +:+ pretty (with_outcome Pass v) +:+ " passed, " +:+ pretty (with_outcome Fail_ v) +:+ " failed, "
  +:+ pretty (with_outcome Unverified v) +:+ " unverified".

(** ** The command *)

Record preflightOpts := mkPreflight { proposal : Options; outPath : string; jsonPath : string; failOnUnv : bool }.
Definition with_kubeconfig (o : Options) : Options :=
  if String.eqb (Kubeconfig o) "" && negb (String.eqb (Cluster o) "")
  then mkOptions ("k8-secrets/kubeconfig/" +:+ Cluster o +:+ ".kubeconfig") (Cluster o) (GitopsDir o) (Candidate o) (Registry o) (MinimumFrom o)
  else o.
(** The error of the command, if any. *)
Definition runPreflight (p : preflightOpts) : option string :=
  if String.eqb (Candidate (proposal p)) "" then Some "--candidate is required: there is no proposal to judge"
  else
    let o := with_kubeconfig (proposal p) in
    let v := Run o in
    match (if String.eqb (outPath p) "" then None else write_file (outPath p) (text (Markdown v))) with
    | Some e => Some e
    | None =>
        match (if String.eqb (jsonPath p) "" then None
               else match marshal_verdict v with Err e => Some e | Ok b => write_file (jsonPath p) (b +:+ nl) end) with
        | Some e => Some e
        | None =>
            match Verdict_Outcome v with
            | Fail_ => Some ("pre-flight failed: this cluster should not take " +:+ Candidate o)
            | Unverified => if failOnUnv p then Some ("pre-flight could not verify " +:+ Candidate o +:+ " against this cluster") else None
            | Pass => None
            end
        end
    end.
End box.

(** ** Names *)

Definition rfc1123_char (c : char) : bool := in_range "a" "z" c || digit c.
Definition rfc1123Regex : re :=
  Seq Bot (Seq (Cls rfc1123_char) (Seq (Opt (Seq (Star true (Cls (λ c, Ascii.eqb c "-" || rfc1123_char c))) (Cls rfc1123_char))) Eol)).
(** The expression ends with the text, not with a line: the one that can differ ends in a line
    break, which no class of it takes. *)
Definition ValidateRFC1123 (s : string) : bool :=
  negb (String.eqb s "") && (String.length s <=? 63)%nat && all_chars (λ c, negb (is_nl c)) s && MatchString rfc1123Regex s.

Example version_of_bundle :
  FindStringSubmatch bundleVersion_value ("params:" +:+ nl +:+ "  - name: bundleVersion" +:+ nl +:+ "    value: " +:+ String quote ("0.4.2" +:+ String quote nl)) ≫= (λ m, Some (group 1 m)) = Some "0.4.2".
Proof. vm_compute. reflexivity. Qed.
Example names : ValidateRFC1123 <$> ["a"; "a-1"; "-a"; "a-"; "A"; "a.b"; ""] = [true; true; false; false; false; false; false].
Proof. vm_compute. reflexivity. Qed.
