(* ===== verification/ProposalFacts.v ===== *)
(** * ProposalFacts: what the checks and the verdict mean.

    A check holds exactly when what it asks for is there; a verdict passes exactly on the
    evidence it names and fails only on what was seen; versions are compared as numbers; and
    what the command's exit status says. At the end the theorems at one cluster. *)

From S2P Require Import Prelude.
From S2P Require Import GoRuntime.
From S2P Require Import Codec.
From S2P Require Import Regexp.
From S2P Require Import Health.
From S2P Require Import Proposal.

Local Open Scope string_scope.

(** ** Checks *)

Section checks.
Context {H : Hub}.

(** A kind of object is there, and every one of it as it should be. *)
Definition holds (kubeconfig : string) (c : jsonCountChecker) : Prop :=
  ∃ out items, kubectl ("--kubeconfig" :: kubeconfig :: args c) = Ok out ∧ decode_items out = Some items ∧ items ≠ [] ∧ ∀ o, o ∈ items → ok c o = true.
Lemma filter_bad_nil {A} (f : A → bool) l : List.filter (λ x, negb (f x)) l = [] ↔ ∀ x, x ∈ l → f x = true.
Proof.
  induction l as [|y l IH]; cbn; [split; [by intros _ ? ?%not_elem_of_nil|done]|]. setoid_rewrite elem_of_cons. destruct (f y) eqn:E; cbn; [rewrite IH; naive_solver|].
  split; [done|]. intros Hf. specialize (Hf y (or_introl eq_refl)). congruence.
Qed.
(** An empty list, an unreadable one and a command that fails are not convergence. *)
Lemma converged_exact kubeconfig c : Check_count kubeconfig c = None ↔ holds kubeconfig c.
Proof.
  unfold Check_count, holds. destruct (kubectl _) as [out|e]; [|naive_solver]. destruct (decode_items out) as [[|i items]|] eqn:E; [naive_solver| |naive_solver].
  cbv zeta. destruct (List.filter _ (i :: items)) as [|b bad] eqn:Ef.
  - pose proof (proj1 (filter_bad_nil (ok c) (i :: items)) Ef). naive_solver.
  - split; [done|]. intros (out' & items' & [= <-] & E' & _ & Hok). rewrite E in E'. injection E' as <-. apply filter_bad_nil in Hok. congruence.
Qed.

Lemma comparisonErrors_nil apps : comparisonErrors apps = [] ↔ ∀ a c, a ∈ apps → c ∈ app_conditions a → c.1 ≠ "ComparisonError".
Proof.
  assert (comparisonErrors apps = [] ↔ omap comparison_error apps = []) as ->.
  { unfold comparisonErrors. cbv zeta. destruct (3 <? _)%nat eqn:E; [|done]. apply Nat.ltb_lt in E. split; [by intros [? ?]%app_eq_nil|]. intros E'. rewrite E' in E. cbn in E. lia. }
  assert (∀ a, comparison_error a = None ↔ ∀ c, c ∈ app_conditions a → c.1 ≠ "ComparisonError") as Hone.
  { intros a. unfold comparison_error. destruct (List.find _ _) as [c|] eqn:E.
    - split; [done|]. intros Hc. apply List.find_some in E as [Hin Heq%String.eqb_eq]. by apply list_elem_of_In, Hc in Hin.
    - split; [|done]. intros _ c Hc Heq. apply list_elem_of_In in Hc. pose proof (List.find_none _ _ E c Hc) as Hn. cbn beta in Hn. by rewrite Heq in Hn. }
  induction apps as [|a apps IH]; cbn; [split; [by intros _ ? ? ?%not_elem_of_nil|done]|]. setoid_rewrite elem_of_cons. specialize (Hone a).
  destruct (comparison_error a); [split; [done|]; naive_solver|]. rewrite IH. naive_solver.
Qed.
(** The check of a boundary's inventory holds exactly when the boundary is rendered and usable: some
    ApplicationSet targets it, at least as many Applications exist as its inline elements
    and the descriptors its generators read, there is at least one unless a generator is
    dynamic, and none of them carries a ComparisonError. What could not be looked at never
    holds. *)
Theorem inventory_exact b kubeconfig : Check_inventory b kubeconfig = None ↔
  ∃ sets descriptors apps, boundaryAppSets b kubeconfig = Ok sets ∧ sets ≠ [] ∧ descriptorCount b = Ok descriptors
    ∧ boundaryApps b kubeconfig = Ok apps ∧ (expected_of descriptors sets ≤ length apps)%nat
    ∧ (apps ≠ [] ∨ ∃ s, s ∈ sets ∧ Dynamic s = true)
    ∧ ∀ a c, a ∈ apps → c ∈ app_conditions a → c.1 ≠ "ComparisonError".
Proof.
  unfold Check_inventory. cbv zeta. destruct (boundaryAppSets b kubeconfig) as [[|s sets]|]; [naive_solver| |naive_solver].
  destruct (descriptorCount b) as [d|]; [|naive_solver]. destruct (boundaryApps b kubeconfig) as [apps|]; [|naive_solver].
  remember (s :: sets) as l eqn:El. assert (l ≠ []) as Hl by (by subst). clear El s sets.
  destruct (_ <? _)%nat eqn:E1; [apply Nat.ltb_lt in E1; split; [done|]; intros (? & ? & ? & [= <-] & _ & [= <-] & [= <-] & Hle & _); lia|]. apply Nat.ltb_ge in E1.
  assert ((∃ s, s ∈ l ∧ Dynamic s = true) ↔ existsb Dynamic l = true) as Hdyn by (rewrite existsb_exists; by setoid_rewrite list_elem_of_In).
  destruct ((_ =? 0)%nat && _ && _) eqn:E2.
  - apply andb_true_iff in E2 as [[_ E0]%andb_true_iff Ed]. apply Nat.eqb_eq, length_zero_iff_nil in E0. subst apps. apply negb_true_iff in Ed. split; [done|].
    intros (? & ? & ? & [= <-] & _ & _ & [= <-] & _ & [?|Hd] & _); [done|]. apply Hdyn in Hd. congruence.
  - assert (apps ≠ [] ∨ ∃ s, s ∈ l ∧ Dynamic s = true) as Hsome.
    { rewrite Hdyn. destruct apps; [|by left]. right. cbn [length] in *. destruct (existsb Dynamic l); [done|]. assert (expected_of d l = 0)%nat as E0 by lia. by rewrite E0 in E2. }
    destruct (comparisonErrors apps) as [|x xs] eqn:E3.
    + split; [|done]. intros _. pose proof (proj1 (comparisonErrors_nil apps) E3). by exists l, d, apps.
    + split; [done|]. intros (? & ? & ? & [= <-] & _ & _ & [= <-] & _ & _ & Hno). apply comparisonErrors_nil in Hno. congruence.
Qed.
End checks.

(** ** Verdicts *)

Lemma worst_from_cases out l : worst_from out l =
  if existsb (λ r, bool_decide (Result_Outcome r = Fail_)) l then Fail_
  else if existsb (λ r, bool_decide (Result_Outcome r = Unverified)) l then Unverified else out.
Proof.
  revert out. induction l as [|r l IH]; intros out; [done|]. cbn [worst_from existsb]. destruct (Result_Outcome r) eqn:E.
  - rewrite !bool_decide_eq_false_2 by done. apply IH.
  - by rewrite (bool_decide_eq_true_2 (Fail_ = Fail_)) by done.
  - rewrite (bool_decide_eq_false_2 (Unverified = Fail_)), (bool_decide_eq_true_2 (Unverified = Unverified)) by done. cbn [orb]. rewrite IH.
    destruct (existsb _ l); [done|]. by destruct (existsb _ l).
Qed.
Lemma worst_pass l : worst l = Pass ↔ ∀ r, r ∈ l → Result_Outcome r = Pass.
Proof.
  unfold worst. induction l as [|r l IH]; cbn; [split; [by intros _ ? ?%not_elem_of_nil|done]|]. setoid_rewrite elem_of_cons.
  destruct (Result_Outcome r) eqn:E.
  - rewrite IH. split; [by intros Hl x [-> | Hx]; [|apply Hl]|]. intros Hl x Hx. apply Hl. by right.
  - split; [done|]. intros Hr. specialize (Hr r (or_introl eq_refl)). congruence.
  - rewrite worst_from_cases. split; [by repeat destruct (existsb _ l)|]. intros Hr. specialize (Hr r (or_introl eq_refl)). congruence.
Qed.
Lemma worst_fail l : worst l = Fail_ ↔ ∃ r, r ∈ l ∧ Result_Outcome r = Fail_.
Proof.
  unfold worst. rewrite worst_from_cases. destruct (existsb _ l) eqn:E.
  - apply existsb_exists in E as (r & Hr & Ho%bool_decide_eq_true). split; [|done]. intros _. exists r. by rewrite list_elem_of_In.
  - split; [destruct (existsb (λ r, bool_decide (Result_Outcome r = Unverified)) l); discriminate|]. intros (r & Hr & Ho). assert (existsb (λ r, bool_decide (Result_Outcome r = Fail_)) l = true) as Ht; [|congruence].
    apply existsb_exists. exists r. rewrite <- list_elem_of_In. split; [done|]. by apply bool_decide_eq_true.
Qed.

Section verdict.
Context `{B : Box}.

(** The step is one the release allows, or one it says it does not. *)
Definition floor_met (from minimum : string) : Prop := minimum = "" ∨ minimum = "any" ∨ from ≠ "" ∧ semverLess from minimum = false.
Definition floor_broken (from minimum : string) : Prop := minimum ≠ "" ∧ minimum ≠ "any" ∧ from ≠ "" ∧ semverLess from minimum = true.
Lemma floor_pass from c minimum : Result_Outcome (checkFloor from c minimum) = Pass ↔ floor_met from minimum.
Proof.
  unfold checkFloor, floor_met. destruct (String.eqb_spec minimum ""), (String.eqb_spec minimum "any"), (String.eqb_spec from ""), (semverLess from minimum); cbn; naive_solver.
Qed.
Lemma floor_fail from c minimum : Result_Outcome (checkFloor from c minimum) = Fail_ ↔ floor_broken from minimum.
Proof.
  unfold checkFloor, floor_broken. destruct (String.eqb_spec minimum ""), (String.eqb_spec minimum "any"), (String.eqb_spec from ""), (semverLess from minimum); cbn; naive_solver.
Qed.
Definition answers (registry candidate : string) (r : result string unit) : Prop :=
  registry ≠ "" ∧ helm_on_path = true ∧ helm_show_chart (chart_ref registry) candidate = r.
Lemma resolves_pass registry c : Result_Outcome (checkCandidateResolves registry c) = Pass ↔ answers registry c (Ok tt).
Proof.
  unfold checkCandidateResolves, answers. destruct (String.eqb_spec registry ""), helm_on_path; cbn; try naive_solver.
  destruct (helm_show_chart _ c) as [[]|e]; [naive_solver|]. destruct (MatchString _ _); naive_solver.
Qed.
Lemma resolves_fail registry c : Result_Outcome (checkCandidateResolves registry c) = Fail_ ↔ ∃ out, answers registry c (Err out) ∧ MatchString absent (TrimSpace out) = true.
Proof.
  unfold checkCandidateResolves, answers. destruct (String.eqb_spec registry ""), helm_on_path; cbn; try naive_solver.
  destruct (helm_show_chart _ c) as [[]|e]; [naive_solver|]. destruct (MatchString _ _) eqn:E.
  - split; [|done]. intros _. by exists e.
  - split; [done|]. intros (out & (_ & _ & [= <-]) & Hm). congruence.
Qed.
Lemma converged_pass k : (∀ r, r ∈ checkClusterConverged k → Result_Outcome r = Pass) ↔ k ≠ "" ∧ file_exists k = true ∧ ∀ c, c ∈ ConvergedCheckers → holds k c.
Proof.
  assert (∀ n d, ¬ ∀ r, r ∈ [mkResult n Unverified d] → Result_Outcome r = Pass) as Hno.
  { intros n d Hr. specialize (Hr _ (list_elem_of_here _ _)). done. }
  unfold checkClusterConverged. destruct (String.eqb_spec k ""); [split; [by intros ?%Hno|by intros [? _]]|].
  destruct (file_exists k); cbn [negb]; [|split; [by intros ?%Hno|by intros (_ & ? & _)]]. setoid_rewrite list_elem_of_fmap. setoid_rewrite <- converged_exact. split.
  - intros Hr. split_and!; [done|done|]. intros c Hc. specialize (Hr _ (ex_intro _ c (conj eq_refl Hc))). by destruct (Check_count k c).
  - intros (_ & _ & Hc) r (c & -> & Hin). by rewrite Hc.
Qed.
Lemma converged_never_fails k r : r ∈ checkClusterConverged k → Result_Outcome r ≠ Fail_.
Proof.
  unfold checkClusterConverged. destruct (String.eqb k ""); [by intros ->%list_elem_of_singleton|]. destruct (negb _); [by intros ->%list_elem_of_singleton|].
  intros (c & -> & _)%list_elem_of_fmap. by destruct (Check_count k c).
Qed.
(** The command succeeds only on a verdict that does not fail, and where asked to only on one
    that passes. *)
Lemma preflight_exit p : runPreflight p = None → Candidate (proposal p) ≠ "" ∧ Verdict_Outcome (Run (with_kubeconfig (proposal p))) ≠ Fail_
  ∧ (failOnUnv p = true → Verdict_Outcome (Run (with_kubeconfig (proposal p))) = Pass).
Proof.
  unfold runPreflight. destruct (String.eqb_spec (Candidate (proposal p)) ""); [done|]. cbv zeta. destruct (if String.eqb (outPath p) "" then _ else _); [done|].
  destruct (if String.eqb (jsonPath p) "" then _ else _); [done|]. destruct (Verdict_Outcome _); [done|done|]. destruct (failOnUnv p); [done|]. split; [done|]. by split.
Qed.
(** Every finding stands in the table that is shown. *)
Lemma markdown_rows o r : r ∈ Results (Run o) → row r ∈ Markdown (Run o).
Proof. intros Hr. unfold Markdown. rewrite !elem_of_app. right. right. right. left. apply list_elem_of_fmap. by exists r. Qed.
End verdict.

(** ** Versions *)

Lemma as_int64_id z : (0 ≤ z < 2 ^ 63)%Z → as_int64 z = z.
Proof. intros Hz. unfold as_int64. rewrite Z.mod_small by lia. lia. Qed.
Lemma as_int64_step x d : as_int64 (as_int64 (as_int64 x * 10) + d) = as_int64 (10 * x + d).
Proof.
  unfold as_int64. f_equal. set (m := (2 ^ 64)%Z). set (h := (2 ^ 63)%Z).
  replace ((((x + h) mod m - h) * 10 + h) mod m - h + d + h)%Z with ((((x + h) mod m - h) * 10 + h) mod m + d)%Z by lia.
  rewrite Zplus_mod_idemp_l. replace (((x + h) mod m - h) * 10 + h + d)%Z with ((x + h) mod m * 10 + (h + d - 10 * h))%Z by lia.
  rewrite <- Zplus_mod_idemp_l, Zmult_mod_idemp_l, Zplus_mod_idemp_l. f_equal. lia.
Qed.
Lemma digit_of_digit c d : digit_of c = Some d → digit c = true ∧ d = Z.of_nat (ord c - 48).
Proof.
  unfold digit_of, digit, in_range, ord. change (Ascii.nat_of_ascii "0") with 48%nat. change (Ascii.nat_of_ascii "9") with 57%nat.
  destruct ((_ <=? _)%Z && (_ <=? _)%Z) eqn:E; [|done]. apply andb_true_iff in E as [E1%Z.leb_le E2%Z.leb_le]. intros [= <-].
  split; [apply andb_true_iff; split; apply Nat.leb_le; lia|lia].
Qed.
Lemma part_digits s ds x : leading_digits s = (ds, "") → part_from (as_int64 x) s = as_int64 (foldl (λ v d, 10 * v + d)%Z x ds) ∧ all_chars digit s = true.
Proof.
  revert ds x. induction s as [|c s IH]; intros ds x E; cbn in E; [injection E as <-; done|]. destruct (digit_of c) as [d|] eqn:Ed; [|done].
  destruct (leading_digits s) as [ds' r] eqn:El. injection E as <- ->. apply digit_of_digit in Ed as [Hd ->]. destruct (IH ds' (10 * x + Z.of_nat (ord c - 48))%Z eq_refl) as [H1 H2].
  cbn [part_from all_chars]. rewrite Hd, H2. split; [|done]. by rewrite as_int64_step.
Qed.
Lemma part_numeral (n : N) : (Z.of_N n < 2 ^ 63)%Z → part_from 0 (pretty n) = Z.of_N n.
Proof.
  intros Hn. destruct (pretty_digits n) as (ds & _ & E & V). destruct (part_digits (pretty n) ds 0 E) as [H _]. change (as_int64 0) with 0%Z in H. rewrite H.
  change (foldl (λ v d, (10 * v + d)%Z) 0%Z ds) with (of_digits ds). rewrite V. apply as_int64_id. lia.
Qed.
Lemma numeral_digits (n : N) : all_chars digit (pretty n) = true.
Proof. destruct (pretty_digits n) as (ds & _ & E & _). by destruct (part_digits (pretty n) ds 0 E). Qed.
Lemma upto_app f a b : all_chars f a = true → upto f (a +:+ b) = a +:+ upto f b.
Proof. induction a as [|c a IH]; rewrite ?str_app_nil_l, ?str_app_cons; [done|]. cbn. intros [Hc Ha]%andb_true_iff. by rewrite Hc, IH. Qed.

(** A version as a release writes it: three numbers and a suffix. *)
Definition dotted (v : N * N * N) : string := let '(a, b, c) := v in pretty a +:+ "." +:+ pretty b +:+ "." +:+ pretty c.
Definition suffix_ok (s : string) : bool := match s with EmptyString => true | String c _ => Ascii.eqb c "-" || Ascii.eqb c "+" end.
Definition small (v : N * N * N) : Prop := let '(a, b, c) := v in (Z.of_N a < 2 ^ 63 ∧ Z.of_N b < 2 ^ 63 ∧ Z.of_N c < 2 ^ 63)%Z.
Lemma split_dotted (lead : bool) v s : small v → suffix_ok s = true →
  splitSemver ((if lead then "v" else "") +:+ dotted v +:+ s) = (Z.of_N v.1.1, Z.of_N v.1.2, Z.of_N v.2).
Proof.
  destruct v as [[a b] c]. intros (Ha & Hb & Hc) Hs. unfold splitSemver.
  assert (TrimPrefix ((if lead then "v" else "") +:+ dotted (a, b, c) +:+ s) "v" = dotted (a, b, c) +:+ s) as ->.
  { destruct lead; [apply TrimPrefix_app|]. rewrite str_app_nil_l. unfold TrimPrefix. destruct (HasPrefix _ "v") eqn:E; [|done]. exfalso.
    cbn [dotted] in E. pose proof (numeral_digits a) as Hd. destruct (pretty_digits a) as (ds & Hne & El & _). destruct (pretty a) as [|x t]; [injection El as <-; done|].
    rewrite !str_app_cons in E. cbn in Hd. apply andb_true_iff in Hd as [Hd _]. apply HasPrefix_iff in E as [t' E]. rewrite str_app_cons in E. by injection E as -> _. }
  assert (∀ n : N, all_chars (λ x, negb (Ascii.eqb x ".")) (pretty n) = true) as Hdot.
  { intros n. eapply all_chars_mono; [|apply numeral_digits]. intros x Hx. cbn. destruct (Ascii.eqb x ".") eqn:E; [|done]. by apply Ascii.eqb_eq in E as ->. }
  assert (∀ n : N, all_chars (λ x, negb (Ascii.eqb x "-" || Ascii.eqb x "+")) (pretty n) = true) as Hsuf.
  { intros n. eapply all_chars_mono; [|apply numeral_digits]. intros x Hx. cbn. destruct (Ascii.eqb x "-") eqn:E; [by apply Ascii.eqb_eq in E as ->|]. destruct (Ascii.eqb x "+") eqn:E'; [by apply Ascii.eqb_eq in E' as ->|done]. }
  rewrite upto_app by (cbn [dotted]; rewrite !all_chars_app, !Hsuf; done).
  assert (upto (λ x, negb (Ascii.eqb x "-" || Ascii.eqb x "+")) s = "") as -> by (destruct s as [|x s]; [done|]; cbn in *; by rewrite Hs).
  rewrite str_app_nil_r. cbn [dotted]. rewrite !(str_app_cons "."), !str_app_nil_l, Cut_app by done. cbn [negb]. rewrite Cut_app by done. cbn [negb fst snd].
  by rewrite !part_numeral.
Qed.
(** Versions are compared as numbers: for versions of three numbers, each below 2^63, with or without a
    leading v and whatever their suffix, the comparison is the lexicographic order of the
    numbers. *)
Theorem semver_numeric (l l' : bool) a b s s' : small a → small b → suffix_ok s = true → suffix_ok s' = true →
  semverLess ((if l then "v" else "") +:+ dotted a +:+ s) ((if l' then "v" else "") +:+ dotted b +:+ s') = true ↔
  (a.1.1 < b.1.1 ∨ a.1.1 = b.1.1 ∧ (a.1.2 < b.1.2 ∨ a.1.2 = b.1.2 ∧ a.2 < b.2))%N.
Proof.
  intros Ha Hb Hs Hs'. unfold semverLess. rewrite !split_dotted by done. destruct a as [[a1 a2] a3], b as [[b1 b2] b3]. cbn [fst snd].
  destruct (Z.eqb_spec (Z.of_N a1) (Z.of_N b1)); cbn [negb]; [|rewrite Z.ltb_lt; lia]. destruct (Z.eqb_spec (Z.of_N a2) (Z.of_N b2)); cbn [negb]; [|rewrite Z.ltb_lt; lia].
  destruct (Z.eqb_spec (Z.of_N a3) (Z.of_N b3)); cbn [negb]; [split; [done|lia]|rewrite Z.ltb_lt; lia].
Qed.
(** A floor that is no version is met by every version; a fourth number makes the third one 0. *)
Lemma unreadable_floor_passes (l : bool) a s c minimum : small a → suffix_ok s = true → splitSemver minimum = (0, 0, 0)%Z → minimum ≠ "" →
  Result_Outcome (checkFloor ((if l then "v" else "") +:+ dotted a +:+ s) c minimum) = Pass.
Proof.
  intros Ha Hs Hm Hne. unfold checkFloor. destruct (String.eqb minimum "" || String.eqb minimum "any"); [done|].
  assert (String.eqb ((if l then "v" else "") +:+ dotted a +:+ s) "" = false) as ->.
  { destruct l; [done|]. rewrite str_app_nil_l. destruct a as [[a1 a2] a3]. cbn [dotted]. destruct (pretty_digits a1) as (ds & Hne' & El & _).
    destruct (pretty a1); [by injection El as <-|]. by rewrite !str_app_cons. }
  unfold semverLess. rewrite split_dotted, Hm by done. destruct a as [[a1 a2] a3]. cbn [fst snd].
  repeat (match goal with |- context [negb (?x =? 0)%Z] => destruct (Z.eqb_spec x 0); cbn [negb] end); try done; rewrite (proj2 (Z.ltb_ge _ _)) by lia; done.
Qed.
Example fourth_number : semverLess "1.2.3.4" "1.2.3" = true.
Proof. vm_compute. reflexivity. Qed.

(** ** At one cluster *)

(** One node, store, secret, application and pod, all as they should be; helm knows one
    version. *)
Definition sound_object : object :=
  [("metadata", VObject [("name", VText "x"); ("namespace", VText "y")]);
   ("status", VObject [("conditions", VList [VObject [("type", VText "Ready"); ("status", VText "True"); ("reason", VText "Valid")]]);
                       ("sync", VObject [("status", VText "Synced")]); ("health", VObject [("status", VText "Healthy")]); ("phase", VText "Running")])].
#[export] Instance sound_hub : Hub := {|
  kubectl _ := Ok "";
  decode_items _ := Some [sound_object];
  decode_appsets _ := Some [mkAppSet "03-core" "boundary-03" [[("list", VObject [("elements", VList [VNull])])];
                                                              [("git", VObject [("files", VList [VObject [("path", VText "manifests/argocd/components/03/*.yaml")]])])]]];
  decode_apps _ := Some [mkApplication "a" "boundary-03" []; mkApplication "b" "boundary-03" [("SyncError", "")]; mkApplication "c" "boundary-04" []];
  getwd := Ok "/repo";
  read_dir _ := Ok [("a.yaml", false); ("README.md", false)];
  dir_exists _ := true |}.
#[export] Instance sound_box : Box := {|
  repo_file _ := Some ("  - name: bundleVersion" +:+ nl +:+ "    value: 0.4.2" +:+ nl);
  file_exists _ := true;
  helm_on_path := true;
  helm_show_chart _ v := if String.eqb v "0.5.0" then Ok tt else Err "Error: chart: not found";
  write_file _ _ := None;
  marshal_verdict _ := Ok "{}" |}.
Example inventory_holds : Check_inventory (mkInventory "03" "") "k" = None.
Proof. vm_compute. reflexivity. Qed.
Example verdicts :
  (λ cm, Verdict_Outcome (Run (mkOptions "k" "c1" "." cm.1 "r" cm.2))) <$> [("0.5.0", "0.4.0"); ("0.6.0", "0.4.0"); ("0.5.0", "0.4.10")] = [Pass; Fail_; Fail_].
Proof. vm_compute. reflexivity. Qed.
Lemma semver_numeric_witness : semverLess "0.1.9-rc1" "v0.1.10" = true.
Proof.
  apply (semver_numeric false true (0, 1, 9)%N (0, 1, 10)%N "-rc1" ""); [by vm_compute|by vm_compute|reflexivity|reflexivity|]. cbn. lia.
Defined.
